(* ===== verification/_CoqProject ===== *)
-Q . S2P
Prelude.v
PyStr.v
PyPath.v
PyRe.v
StatusExpr.v
StatusParse.v
StatusFile.v
TestRun.v
TestPrint.v
TestProgress.v
TestSuites.v
Js2c.v
WafTask.v
WafRunner.v
WafEnv.v
PpEval.v
PpMacro.v
PpScan.v
PyState.v
WafNode.v
WafSig.v
WafRebuild.v
WafDeps.v
WafCommand.v
WafTaskGen.v
WafInstall.v
WafLink.v
WafLinkOrder.v
CppRe.v
CppState.v
CppLines.v
CppFile.v
CppChecks.v
CppClass.v
CppStyle.v
CppLanguage.v
CppMain.v
CppReports.v
ClTokens.v
ClTokenizer.v
ClMeta.v
ClIndent.v
ClDoc.v
ClErrors.v
ClState.v
ClRules.v
ClJsRules.v
ClFixer.v
ClChecker.v
ClReports.v
ClFlags.v
ClPrinter.v
ClGjslint.v
