(* ===== verification/Prelude.v ===== *)
(** * A verification of the Python programs of node's source tree

    ** The programs

    Node itself is C++ and JavaScript; the programs of its repository that are
    written in Python build it, test it, turn its JavaScript library into C and
    check its style.  This library models five of them, and states what makes them
    correct:
    - tools/test.py runs the test suites: it reads status files, which say what
      outcome to expect of which test, runs the tests on several threads and judges
      the outputs;
    - tools/js2c.py writes the JavaScript library as C arrays, after expanding
      constants and macros;
    - tools/wafadmin is the build system waf: a build declares nodes and task
      generators, the generators make tasks, the manager hands out sets of tasks
      that may run at the same time, a runner runs them on several threads, and
      signatures decide which tasks need not run again; preproc.py finds the files
      a C file includes;
    - tools/cpplint.py checks the style of C++ files;
    - tools/closure_linter checks the style of JavaScript files and repairs it: the
      tokenizer makes a linked list of tokens, the metadata pass gives them their
      contexts, the rules report errors of the tokens, and the fixer changes the list
      and writes the file from it.

    ** The files

    Shared by all:
    - Prelude: exceptions and the error monad [res]; loops that may raise; tactics.
    - PyStr, PyPath: methods of Python strings, functions on Unix paths.
    - PyRe, CppRe: regular expressions, as far as test.py and js2c.py, and
      cpplint.py use them; both are executable and follow Python's order of
      search.
    - PyState: computations that change a state and may raise ([ST]).

    tools/test.py:
    - StatusExpr: [Expression] and its two evaluators; the sets of outcomes.
    - StatusParse: [Tokenizer], [Scanner], [ParseCondition].
    - StatusFile: patterns, rules, sections, [ReadConfigurationInto],
      [ClassifyTests].
    - TestRun: one test; the polling loop of [RunProcess]; verdicts.
    - TestPrint: what the progress indicators print.
    - TestProgress: [ProgressIndicator.Run] and [RunSingle] as a step relation on
      the queue, the lock and the counters; what is called with the lock held may raise,
      and the thread then ends without releasing it.
    - TestSuites: repositories, suites, options, [Main].

    tools/js2c.py: Js2c.

    tools/wafadmin:
    - WafTask (Task.py): groups of tasks, constraints, the three ways to hand out
      tasks, the manager.
    - WafRunner (Runner.py): producer and consumers as a step relation; its source
      of tasks is the list of sets that WafTask produces.
    - WafEnv (Environment.py): environments on a heap where lists are shared.
    - PpEval, PpMacro, PpScan (Tools/preproc.py): conditions; tokens and macros;
      lines, conditionals and the search for files, against the interface
      [FileTree].
    - WafNode (Node.py, Build.py): the tree of nodes and what the build knows of
      the folders.
    - WafSig (Task.py): [signature] and [runnable_status] against the interfaces
      [FileSystem] and [Digest]; WafRebuild: [post_run], the next build, the cache.
    - WafDeps (Task.py): the order of tasks from the files they read and write.
    - WafCommand (Task.py): rules and the commands made of them.
    - WafTaskGen (TaskGen.py, Build.py): the order of methods, posting, sequences,
      finding generators by name.
    - WafInstall (Build.py, Utils.py): paths of installation, copying, removal.
    - WafLink (Tools/ccroot.py, cc.py, cxx.py; TaskGen.py): the compilations of a generator,
      the libraries and objects that a link uses; WafLinkOrder: in what order, what
      posting compiles, and that it ends.

    tools/cpplint.py:
    - CppState: filters, counts, NOLINT comments, the order of includes, long
      functions.
    - CppLines: comments and strings are removed; [CloseExpression].
    - CppFile: names in the repository, header guards, kinds of includes.
    - CppChecks: comments, braces, CHECK macros, unsafe calls, lengths of functions.
    - CppClass: [CheckForNonStandardConstructs] and the stack of open classes.
    - CppStyle, CppLanguage: [CheckStyle] and [CheckLanguage] with all they call.
    - CppMain: needed headers, a file, the command line, [main].
    - CppReports: what every check keeps, hence what a whole run reports.

    tools/closure_linter/closure_linter:
    - ClTokens (common/tokens.py, javascripttokens.py, tokenutil.py): tokens on a
      heap, searches, insertion and deletion; [stream] is the well-formed list.
    - ClTokenizer (common/tokenizer.py, common/matcher.py, javascripttokenizer.py):
      matchers, modes, lines.
    - ClMeta (ecmametadatapass.py): contexts, implied semicolons and blocks; [analyse]
      (checkerbase.py) is the tokenizer followed by this pass.
    - ClIndent (indentation.py): the stack of indentations and the reports.
    - ClDoc (statetracker.py): flags of documentation, and the comparison of parameters.
    - ClErrors (errors.py, errorrules.py, common/error.py, common/position.py): what is
      reported, and where.
    - ClState (statetracker.py, javascriptstatetracker.py): blocks, functions,
      documentation and namespaces before a token.
    - ClRules (ecmalintrules.py), ClJsRules (javascriptlintrules.py): every rule, against
      the interface [ErrorHandler]; a handler may change the tokens while they are checked.
    - ClFixer (error_fixer.py): the fixes, and what is written.
    - ClChecker (checkerbase.py, checker.py, fixjsstyle.py): [CheckLines], [Check] and [Run],
      with the fixer and a list of events as handlers.
    - ClReports: what the rules keep and raise, hence what a whole check tells a handler that
      does not change the tokens ([PassiveHandler]).
    - ClPrinter (gjslint.py, common/errorprinter.py, common/simplefileflags.py): which
      files are checked, what is printed of the errors, the exit status.
    - ClFlags (../gflags.py): flags, their registry, files of flags, the command line;
      ClGjslint: the flags that gjslint defines, and the program from its command line on.

    ** How the models follow the code

    Functions and fields have the names of the source.  A Python exception is a
    value of [exn].  Where the state after an exception matters, because the exception is
    caught or the state is looked at later, a computation gives the new state also when it
    raises ([ST], in PyState, and the step relations); elsewhere, as on the tree of nodes
    (WafNode), in StatusFile and in WafTask, a function gives a state only when it returns,
    and what an exception leaves behind is not described.  A loop that need not end
    takes fuel and gives [OutOfFuel] when it runs out: theorems say how much is enough
    ([method_order_total], [signature_terminates], [post_terminates],
    [RepositoryName_total], [ExpandMacros_total], ...; the walks along tokens take one
    round for every token) or that none is ([banned_macro_diverges],
    [scanner_ValueError_loops], [five_slashes_hang], [svn_at_root_hangs]). Threads are
    step relations: a step is what happens between two points where another thread can
    look. Sets and dicts whose order the language leaves open are parameters or lists in
    any order. Numbers of Python do not overflow and are [Z] or [nat]. Strings are byte
    strings; where the source reads Unicode, the model covers ASCII.

    ** What is shown

    - Round trips: an expression, a rule of waf and the tokens of the preprocessor,
      printed and read again, are the same; a JavaScript file that is tokenized, analysed
      and written is the same but for the ends of its lines.
    - Test status: parsing and classification end, raise what they raise for
      stated reasons only, and give every test the outcomes its rules say; [Main]
      ends with 0 exactly when all went as expected.
    - Threads: in every interleaving the counters describe what was recorded, no test
      and no task is run twice, a test that is lost was that of a thread that raised, tasks
      wait for those before them, and every execution of the tests ends, or stops
      because a thread raised while it held the lock; it ends when none does.
    - Incremental builds: a task is skipped exactly when nothing has changed; a
      second build does nothing for a task whose outputs are built files other than its
      inputs; a task whose inputs differ has another signature, unless the two texts that
      are digested collide; a cache entry is complete or absent.
    - Scheduling: sets of tasks and methods of generators respect the declared
      order, contain everything once, and a failure means that the order is
      circular.
    - The preprocessor: conditionals select the branch that their tests select;
      conditions are grouped by the precedences of C where no chain of operators has more
      than two of its levels (and within the other bounds stated there), and are computed
      with the operators of Python.
    - Linking: when no generator uses itself, posting ends and a link gets exactly the
      libraries and the objects that are reached from it, each once, the objects being what
      posting has compiled; generators that use
      each other are never posted.
    - JavaScript: the tokens of a file stay linked, placed and named by their neighbours
      under analysis, insertion and deletion; a line is reported exactly when it starts
      at none of the indentations that the open brackets and statements allow; fixing
      it changes nothing else; the distance of parameter lists is the least number of
      edits; the check of a file ends, tells its handler of the file, its errors and its
      end in this order, and reports exactly the semicolons that are missing, unless a rule
      raises one of five exceptions; gjslint prints the errors of every file in the order of
      the source, and its exit status tells old errors from new ones; flags that are written
      as arguments are read as they were, so that every choice of options can be made.
    - The tree of nodes stays well formed under every sequence of operations.
    - Style checks: every report of every check has a listed category, is about a file of
      the run and is what the filters allow; the output of a run is exactly the reports and
      the notices for its files, and counts and the exit status agree with it; comments are removed to the end; classes are followed from
      declaration to end; includes are reported exactly when they are out of order.
    - Some theorems state what goes wrong where the code does not do what it means to;
      their comments say so.

    Theorems with hypotheses have a [_witness] lemma that applies them to a concrete
    input.

    ** Not modelled

    Of test.py, the Windows error mode and the option parser of the standard library;
    of waf, the configuration (Configure.py, Tools), which calls compilers, the command
    line (Scripting.py, Options.py), saving and loading the state of a build, globbing
    (ant_glob), and execution of commands; of Build.py also clean and install_files, of
    TaskGen.py exec_rule and declare_chain, of ccroot.py the paths of headers, import
    libraries, version numbers and installation; of preproc.py, the simple scanner.
    Of closure_linter, the effect of the debugging flags, the timing of gjslint, what
    gflags.py has for help, modules, numbers and enumerations, and htmlutil.py, whose parser is that of the standard
    library: StripTags and GetScriptLines are parameters, the latter with its exceptions.
    SCons is a vendored program, and the dependencies (V8, c-ares, http_parser, libev,
    libeio) are not Python. *)
From stdpp Require Export prelude strings gmap list relations pretty sorting.
From Stdlib Require Export Ascii.

(** ** Notations

    Boolean comparison of strings and of characters, which reduce on
    literals. *)
Declare Scope py_scope.
Delimit Scope py_scope with py.
Notation "s =s t" := (String.eqb s t) (at level 70, no associativity) : py_scope.
Notation "a =c b" := (Ascii.eqb a b) (at level 70, no associativity) : py_scope.
Open Scope py_scope.

(** ** Python exceptions and the error monad

    [exn] lists the exceptions the modelled Python code raises or lets
    through.  [OutOfFuel] is not a Python exception: it marks a loop or a
    recursion whose bound in the model was too small, and every theorem about
    a fuelled definition says which bound rules it out. *)

Inductive exn :=
| AttributeError | AssertionError | IndexError | KeyError | NameError
| TypeError | ValueError | ZeroDivisionError | IOError | OSError | RuntimeError
| StopIteration | FlagsError | IllegalFlagValue | UnrecognizedFlagError | DuplicateFlagError | WafError (msg : string) | ParseError (token : option nat) | SystemExit (code : Z) | OutOfFuel.

#[export] Instance exn_eq_dec : EqDecision exn.
Proof. solve_decision. Defined.

Inductive res (A : Type) :=
| Ok (a : A)
| Err (e : exn).
Arguments Ok {A} a.
Arguments Err {A} e.

#[export] Instance res_eq_dec {A} `{EqDecision A} : EqDecision (res A).
Proof. solve_decision. Defined.
#[export] Instance res_ret : MRet res := @Ok.
#[export] Instance res_bind : MBind res := λ A B f r,
  match r with Ok a => f a | Err e => Err e end.
#[export] Instance res_fmap : FMap res := λ A B f r,
  match r with Ok a => Ok (f a) | Err e => Err e end.

Definition is_ok {A} (r : res A) : bool := match r with Ok _ => true | Err _ => false end.

(** The value of a computation that is known to succeed, for examples. *)
Definition from_res {A} (d : A) (r : res A) : A := match r with Ok a => a | Err _ => d end.

(** A Python [assert]. *)
Definition py_assert (b : bool) : res unit := if b then Ok tt else Err AssertionError.

(** Python's [for x in l: acc = f(acc, x)] where [f] may raise. *)
Fixpoint res_fold {A B} (f : B → A → res B) (l : list A) (acc : B) : res B :=
  match l with
  | [] => Ok acc
  | x :: l' => b ← f acc x; res_fold f l' b
  end.

(** Python's [[f(x) for x in l]] where [f] may raise. *)
Fixpoint res_map {A B} (f : A → res B) (l : list A) : res (list B) :=
  match l with
  | [] => Ok []
  | x :: l' => y ← f x; ys ← res_map f l'; Ok (y :: ys)
  end.

(** Python's [[x for x in l if f(x)]] where [f] may raise. *)
Fixpoint res_filter {A} (f : A → res bool) (l : list A) : res (list A) :=
  match l with
  | [] => Ok []
  | x :: l' => b ← f x; ys ← res_filter f l'; Ok (if (b : bool) then x :: ys else ys)
  end.

(** ** Generic lemmas on the error monad *)

Lemma res_bind_Ok {A B} (r : res A) (f : A → res B) b :
  (x ← r; f x) = Ok b ↔ ∃ a, r = Ok a ∧ f a = Ok b.
Proof. destruct r; cbn; naive_solver. Qed.

Lemma res_bind_Err {A B} (r : res A) (f : A → res B) e :
  (x ← r; f x) = Err e ↔ r = Err e ∨ ∃ a, r = Ok a ∧ f a = Err e.
Proof. destruct r; cbn; naive_solver. Qed.

Lemma res_fold_app {A B} (f : B → A → res B) l1 l2 acc :
  res_fold f (l1 ++ l2) acc = (b ← res_fold f l1 acc; res_fold f l2 b).
Proof.
  revert acc. induction l1 as [|x l1 IH]; intros acc; [done|].
  cbn. destruct (f acc x); cbn; auto.
Qed.

Lemma res_map_Ok {A B} (f : A → res B) l ys :
  res_map f l = Ok ys ↔ Forall2 (λ x y, f x = Ok y) l ys.
Proof.
  revert ys. induction l as [|x l IH]; intros ys; cbn.
  - split; [intros [= <-]; constructor|inversion 1; done].
  - rewrite res_bind_Ok. split.
    + intros (y & Hy & (zs & Hzs & [= <-])%res_bind_Ok).
      constructor; [done|by apply IH].
    + inversion 1; subst. eexists; split; [done|].
      apply res_bind_Ok. eexists; split; [by apply IH|done].
Qed.

Lemma res_filter_pure {A} (f : A → res bool) (g : A → bool) l :
  (∀ x, x ∈ l → f x = Ok (g x)) → res_filter f l = Ok (filter (λ x, g x) l).
Proof.
  induction l as [|x l IH]; intros Hf; [done|].
  cbn. rewrite Hf by set_solver. cbn.
  rewrite IH by set_solver. cbn. by destruct (g x).
Qed.

Lemma res_filter_Ok {A} (f : A → res bool) l l' x :
  res_filter f l = Ok l' → x ∈ l' ↔ x ∈ l ∧ f x = Ok true.
Proof.
  revert l'. induction l as [|y l IH]; intros l'; cbn.
  - intros [= <-]. rewrite elem_of_nil. tauto.
  - rewrite res_bind_Ok. intros (b & Hb & (ys & Hys & [= <-])%res_bind_Ok).
    specialize (IH _ Hys). destruct b; rewrite ?elem_of_cons, IH.
    + split; [intros [->|[]]; auto|intros [[->|] ?]; auto].
    + split; [intros []; auto|intros [[->|] ?]; [congruence|auto]].
Qed.

Lemma res_filter_defined {A} (f : A → res bool) l l' x :
  res_filter f l = Ok l' → x ∈ l → ∃ b, f x = Ok b.
Proof.
  revert l'. induction l as [|y l IH]; intros l'; cbn; [by rewrite elem_of_nil|].
  rewrite res_bind_Ok. intros (b & Hb & (ys & Hys & _)%res_bind_Ok).
  rewrite elem_of_cons. intros [->|Hx]; [eauto|by eapply IH].
Qed.

Lemma elem_of_concat {A} (x : A) (ls : list (list A)) : x ∈ concat ls ↔ ∃ l, x ∈ l ∧ l ∈ ls.
Proof.
  induction ls as [|l ls IH]; cbn.
  - rewrite elem_of_nil. split; [done|]. intros (l & _ & H). by apply not_elem_of_nil in H.
  - rewrite elem_of_app, IH. setoid_rewrite elem_of_cons. naive_solver.
Qed.

(** A loop that keeps an invariant, when it ends without an exception. *)
Lemma res_fold_inv {A B} (f : B → A → res B) (I : list A → B → Prop) l acc acc' :
  I [] acc →
  (∀ done b x b', I done b → x ∈ l → f b x = Ok b' → I (done ++ [x]) b') →
  res_fold f l acc = Ok acc' → I l acc'.
Proof.
  intros H0 Hstep. cut (∀ done b, I done b → ∀ l', (∀ x, x ∈ l' → x ∈ l) →
    res_fold f l' b = Ok acc' → I (done ++ l') acc').
  { intros H. by apply (H [] acc H0 l). }
  intros done b Hb l'. revert done b Hb. induction l' as [|x l' IH]; intros done b Hb Hin; cbn.
  - intros [= <-]. by rewrite app_nil_r.
  - rewrite res_bind_Ok. intros (b' & Hb' & Hr).
    rewrite (cons_middle x done l'), app_assoc. eapply IH; [|set_solver|done].
    eapply Hstep; [done|set_solver|done].
Qed.

(** ** Automation *)

Create HintDb py.
Create Rewrite HintDb py.

(** Turn hypotheses [(x ← r; f x) = Ok y] into their parts. *)
Ltac res_inv :=
  repeat match goal with
  | H : Ok _ = Ok _ |- _ => injection H as H
  | H : Ok _ = Err _ |- _ => discriminate H
  | H : Err _ = Ok _ |- _ => discriminate H
  | H : mbind _ _ = Ok _ |- _ =>
      let a := fresh "a" in let Ha := fresh "Ha" in
      apply res_bind_Ok in H as (a & Ha & H)
  | H : py_assert ?b = Ok _ |- _ => destruct b eqn:?; cbn in H; try discriminate H; clear H
  end; subst.

(** Case analysis on the scrutinee of the goal's next [if] or [match]. *)
Ltac step_match :=
  match goal with
  | |- context [match ?x with _ => _ end] => destruct x eqn:?
  end.

#[export] Hint Rewrite @length_app @app_nil_r : py.
