(* ===== verification/PyStr.v ===== *)
(** * Python byte strings

    The [str] methods the modelled scripts use, on Stdlib's [string] (a
    Python 2 [str] is a byte string).  Character classes are those of the C
    locale. *)
From S2P Require Import Prelude.

(** ** Character classes *)

Definition char_in (lo hi : ascii) (a : ascii) : bool :=
  (nat_of_ascii lo <=? nat_of_ascii a) && (nat_of_ascii a <=? nat_of_ascii hi).

Definition is_digit : ascii → bool := char_in "0" "9".
Definition is_upper : ascii → bool := char_in "A" "Z".
Definition is_lower : ascii → bool := char_in "a" "z".
Definition is_alpha (a : ascii) : bool := is_upper a || is_lower a.
Definition is_space : ascii → bool := Ascii.is_space.

Definition char_lower (a : ascii) : ascii :=
  if is_upper a then ascii_of_nat (nat_of_ascii a + 32) else a.

(** ** Whole-string functions *)

Fixpoint str_forall (p : ascii → bool) (s : string) : bool :=
  match s with
  | EmptyString => true
  | String a s' => p a && str_forall p s'
  end.

Fixpoint str_map (f : ascii → ascii) (s : string) : string :=
  match s with
  | EmptyString => EmptyString
  | String a s' => String (f a) (str_map f s')
  end.

Fixpoint str_filter (p : ascii → bool) (s : string) : string :=
  match s with
  | EmptyString => EmptyString
  | String a s' => if p a then String a (str_filter p s') else str_filter p s'
  end.

(** [s.lower()] *)
Definition lower : string → string := str_map char_lower.

(** [s[:n]] and [s[n:]] for [n >= 0]. *)
Fixpoint str_take (n : nat) (s : string) : string :=
  match n, s with
  | S n', String a s' => String a (str_take n' s')
  | _, _ => EmptyString
  end.

Fixpoint str_drop (n : nat) (s : string) : string :=
  match n, s with
  | S n', String _ s' => str_drop n' s'
  | _, _ => s
  end.

(** [s[i:j]] for [0 <= i]. *)
Definition str_slice (i j : nat) (s : string) : string :=
  str_take (j - i) (str_drop i s).

(** [s[i]], [None] being Python's IndexError. *)
Definition str_get (i : nat) (s : string) : option ascii :=
  match str_drop i s with
  | String a _ => Some a
  | EmptyString => None
  end.

(** [c in s] for a one-character [c]. *)
Fixpoint str_mem (c : ascii) (s : string) : bool :=
  match s with
  | EmptyString => false
  | String a s' => (a =c c) || str_mem c s'
  end.

(** [s.lstrip()], [s.rstrip()], [s.strip()] *)
Fixpoint lstrip (s : string) : string :=
  match s with
  | EmptyString => EmptyString
  | String a s' => if is_space a then lstrip s' else s
  end.

Fixpoint rstrip (s : string) : string :=
  match s with
  | EmptyString => EmptyString
  | String a s' =>
      match rstrip s' with
      | EmptyString => if is_space a then EmptyString else String a EmptyString
      | t => String a t
      end
  end.

Definition strip (s : string) : string := lstrip (rstrip s).

(** [s.split(c)] for a one-character separator: never the empty list. *)
Fixpoint split_on (c : ascii) (s : string) : list string :=
  match s with
  | EmptyString => [EmptyString]
  | String a s' =>
      if a =c c then EmptyString :: split_on c s'
      else match split_on c s' with
           | [] => [String a EmptyString]
           | w :: ws => String a w :: ws
           end
  end.

(** [s.split()]: maximal runs of non-space characters. *)
Fixpoint words_go (cur : string) (s : string) : list string :=
  match s with
  | EmptyString => if (cur =s EmptyString) then [] else [cur]
  | String a s' =>
      if is_space a
      then (if (cur =s EmptyString) then [] else [cur]) ++ words_go EmptyString s'
      else words_go (cur +:+ String a EmptyString) s'
  end.
Definition split_ws (s : string) : list string := words_go EmptyString s.

(** [sep.join(l)] *)
Fixpoint join (sep : string) (l : list string) : string :=
  match l with
  | [] => EmptyString
  | [x] => x
  | x :: l' => x +:+ sep +:+ join sep l'
  end.

(** [s.startswith(p)], [s.endswith(p)] *)
Definition startswith (p s : string) : bool := String.prefix p s.
Definition endswith (p s : string) : bool :=
  (String.length p <=? String.length s) &&
  (str_drop (String.length s - String.length p) s =s p).

(** [s.find(sub)], [None] being Python's -1. *)
Fixpoint find (sub s : string) : option nat :=
  if String.prefix sub s then Some 0
  else match s with
       | EmptyString => None
       | String _ s' => S <$> find sub s'
       end.

(** [s.find(sub, start)] *)
Definition find_from (sub s : string) (start : nat) : option nat :=
  if start <=? String.length s then (λ i, start + i) <$> find sub (str_drop start s)
  else None.

(** [s.replace(old, new)]: left to right, without overlaps; an empty [old]
    matches between all characters. *)
Fixpoint replace_go (old new : string) (skip : nat) (s : string) : string :=
  match s with
  | EmptyString => EmptyString
  | String a s' =>
      match skip with
      | S k => replace_go old new k s'
      | 0 => if String.prefix old s
             then new +:+ replace_go old new (String.length old - 1) s'
             else String a (replace_go old new 0 s')
      end
  end.

Fixpoint replace_empty (new : string) (s : string) : string :=
  match s with
  | EmptyString => new
  | String a s' => new +:+ String a (replace_empty new s')
  end.

Definition replace (old new s : string) : string :=
  if (old =s EmptyString) then replace_empty new s
  else replace_go old new 0 s.

(** [str(n)] for a natural number. *)
Definition str_of_nat (n : nat) : string := pretty (N.of_nat n).

(** [str(z)], [%i] *)
Definition str_of_Z (z : Z) : string := pretty z.

(** ["\n"] and other control characters. *)
Definition nl : ascii := "010".
Definition cr : ascii := "013".
Definition nl_str : string := String nl EmptyString.

(** ** Lemmas *)

Lemma str_app_cons a s t : String a s +:+ t = String a (s +:+ t).
Proof. done. Qed.
Lemma str_app_nil_l s : EmptyString +:+ s = s.
Proof. done. Qed.
Lemma str_app_nil_r s : s +:+ EmptyString = s.
Proof. induction s as [|a s IH]; [done|]. by rewrite str_app_cons, IH. Qed.
Lemma str_app_assoc s t u : (s +:+ t) +:+ u = s +:+ (t +:+ u).
Proof. induction s as [|a s IH]; [done|]. by rewrite !str_app_cons, IH. Qed.
Lemma str_length_app s t : String.length (s +:+ t) = String.length s + String.length t.
Proof. induction s as [|a s IH]; [done|]. rewrite str_app_cons. cbn. by rewrite IH. Qed.
#[export] Hint Rewrite str_app_cons str_app_nil_l str_app_nil_r str_app_assoc
  str_length_app : py.

Lemma str_forall_app p s t : str_forall p (s +:+ t) = str_forall p s && str_forall p t.
Proof.
  induction s as [|a s IH]; [done|]. rewrite str_app_cons. cbn.
  by rewrite IH, andb_assoc.
Qed.

Lemma str_filter_app p s t : str_filter p (s +:+ t) = str_filter p s +:+ str_filter p t.
Proof.
  induction s as [|a s IH]; [done|]. rewrite str_app_cons. cbn.
  rewrite IH. by destruct (p a).
Qed.

Lemma str_drop_length n s : String.length (str_drop n s) = String.length s - n.
Proof. revert s. induction n; intros []; cbn; auto. Qed.

Lemma str_drop_all n s : String.length s ≤ n → str_drop n s = EmptyString.
Proof. revert s. induction n; intros [] ?; cbn in *; auto; [lia|]. apply IHn. lia. Qed.

Lemma str_drop_app s t : str_drop (String.length s) (s +:+ t) = t.
Proof. induction s as [|a s IH]; [done|]. exact IH. Qed.

Lemma str_take_app s t : str_take (String.length s) (s +:+ t) = s.
Proof.
  induction s as [|a s IH]; [by destruct t|].
  rewrite str_app_cons. cbn. by rewrite IH.
Qed.

Lemma str_take_drop n s : str_take n s +:+ str_drop n s = s.
Proof.
  revert s. induction n as [|n IH]; intros [|a s]; cbn; try done.
  by rewrite str_app_cons, IH.
Qed.

Lemma str_drop_drop n m s : str_drop n (str_drop m s) = str_drop (m + n) s.
Proof. revert s. induction m; intros []; cbn; auto. by destruct n. Qed.

Lemma lstrip_length s : String.length (lstrip s) ≤ String.length s.
Proof. induction s; cbn; [done|]. destruct (is_space _); cbn; lia. Qed.

Lemma lstrip_cons_nonspace a s : is_space a = false → lstrip (String a s) = String a s.
Proof. cbn. by intros ->. Qed.

Lemma prefix_app p s : String.prefix p (p +:+ s) = true.
Proof.
  induction p as [|a p IH]; [by destruct s|]. rewrite str_app_cons. cbn.
  destruct (ascii_dec a a); congruence.
Qed.

Lemma prefix_inv p s : String.prefix p s = true → s = p +:+ str_drop (String.length p) s.
Proof.
  revert s. induction p as [|a p IH]; intros s; [done|].
  destruct s as [|b s]; cbn; [done|].
  destruct (ascii_dec a b) as [->|]; [|done].
  intros H. rewrite str_app_cons. f_equal. auto.
Qed.

Lemma split_on_nonempty c s : split_on c s ≠ [].
Proof.
  induction s as [|a s IH]; cbn; [done|].
  destruct (a =c c); [done|]. by destruct (split_on c s).
Qed.

Lemma join_cons sep x y l : join sep (x :: y :: l) = x +:+ sep +:+ join sep (y :: l).
Proof. done. Qed.

Lemma join_cons_head sep a w ws :
  join sep (String a w :: ws) = String a (join sep (w :: ws)).
Proof. by destruct ws. Qed.

(** Splitting on a character and joining with it is the identity. *)
Lemma join_split_on c s : join (String c EmptyString) (split_on c s) = s.
Proof.
  induction s as [|a s IH]; [done|]. cbn [split_on].
  pose proof (split_on_nonempty c s) as Hne.
  destruct (Ascii.eqb_spec a c) as [->|Ha].
  - destruct (split_on c s) as [|w ws]; [done|].
    rewrite join_cons, IH. done.
  - destruct (split_on c s) as [|w ws]; [done|]. by rewrite join_cons_head, IH.
Qed.

(** Joining words without the separator and splitting gives them back. *)
Lemma split_on_app c w s :
  str_mem c w = false →
  split_on c (w +:+ String c s) = w :: split_on c s.
Proof.
  induction w as [|a w IH]; cbn.
  - intros _. rewrite str_app_nil_l. cbn. by rewrite Ascii.eqb_refl.
  - intros [Ha Hw]%orb_false_iff. rewrite str_app_cons. cbn.
    rewrite Ha. by rewrite IH.
Qed.

Lemma split_on_none c w : str_mem c w = false → split_on c w = [w].
Proof.
  induction w as [|a w IH]; cbn; [done|].
  intros [Ha Hw]%orb_false_iff. by rewrite Ha, IH.
Qed.

Lemma split_on_join c ws :
  ws ≠ [] → Forall (λ w, str_mem c w = false) ws →
  split_on c (join (String c EmptyString) ws) = ws.
Proof.
  intros Hne Hall. induction Hall as [|w ws Hw Hall IH]; [done|].
  destruct ws as [|w' ws].
  - by apply split_on_none.
  - rewrite join_cons. rewrite str_app_cons, str_app_nil_l.
    rewrite split_on_app by done. by rewrite IH.
Qed.

Lemma endswith_iff p s : endswith p s = true ↔ ∃ t, s = t +:+ p.
Proof.
  unfold endswith. rewrite andb_true_iff, Nat.leb_le, String.eqb_eq. split.
  - intros [Hl Hd]. exists (str_take (String.length s - String.length p) s).
    rewrite <- Hd at 2. by rewrite str_take_drop.
  - intros [t ->]. rewrite str_length_app. split; [lia|].
    replace (_ + _ - _) with (String.length t) by lia. apply str_drop_app.
Qed.

Lemma startswith_iff p s : startswith p s = true ↔ ∃ t, s = p +:+ t.
Proof.
  split.
  - intros H%prefix_inv. eauto.
  - intros [t ->]. apply prefix_app.
Qed.

(** Two splits of one string: the first parts are comparable. *)
Lemma str_app_split a b c d :
  a +:+ b = c +:+ d → String.length a ≤ String.length c → ∃ e, c = a +:+ e ∧ b = e +:+ d.
Proof.
  revert c. induction a as [|x a IH]; intros c; cbn.
  - rewrite str_app_nil_l. exists c. by rewrite str_app_nil_l.
  - destruct c as [|y c]; cbn; [lia|]. rewrite !str_app_cons. intros [= -> H] Hl.
    destruct (IH c H) as (e & -> & ->); [lia|]. exists e. by rewrite str_app_cons.
Qed.

Lemma prefix_length p s : String.prefix p s = true → String.length p ≤ String.length s.
Proof. intros H%prefix_inv. rewrite H, str_length_app. lia. Qed.

Lemma find_length sub s i : find sub s = Some i → i + String.length sub ≤ String.length s.
Proof.
  revert i. induction s as [|a s IH]; intros i; cbn [find].
  - destruct (String.prefix sub _) eqn:E; [|done]. intros [= <-].
    apply prefix_length in E. cbn in *. lia.
  - destruct (String.prefix sub _) eqn:E.
    + intros [= <-]. apply prefix_length in E. cbn in *. lia.
    + intros (j & Hj & ->)%fmap_Some. specialize (IH j Hj). cbn. lia.
Qed.

Lemma find_short sub s : String.length s < String.length sub → find sub s = None.
Proof.
  intros H. destruct (find sub s) as [i|] eqn:E; [|done]. apply find_length in E. lia.
Qed.

Lemma find_from_range sub s start i :
  find_from sub s start = Some i → start ≤ i ∧ i + String.length sub ≤ String.length s.
Proof.
  unfold find_from. destruct (Nat.leb_spec start (String.length s)); [|done].
  intros (j & Hj & ->)%fmap_Some. apply find_length in Hj.
  rewrite str_drop_length in Hj. lia.
Qed.

Lemma find_from_short sub s start :
  String.length s < start + String.length sub → find_from sub s start = None.
Proof.
  intros H. destruct (find_from sub s start) as [i|] eqn:E; [|done].
  apply find_from_range in E. lia.
Qed.

Lemma str_take_length n s : String.length (str_take n s) = n `min` String.length s.
Proof. revert n. induction s as [|a s IH]; intros [|n]; cbn; rewrite ?IH; lia. Qed.

Lemma str_slice_length i j s : String.length (str_slice i j s) ≤ j - i ∧
  String.length (str_slice i j s) ≤ String.length s - i.
Proof. unfold str_slice. rewrite str_take_length, str_drop_length. lia. Qed.

Lemma rstrip_length s : String.length (rstrip s) ≤ String.length s.
Proof.
  induction s as [|a s IH]; cbn; [done|].
  destruct (rstrip s); cbn in *; [destruct (is_space a); cbn; lia|lia].
Qed.

Lemma strip_length s : String.length (strip s) ≤ String.length s.
Proof. unfold strip. pose proof (lstrip_length (rstrip s)). pose proof (rstrip_length s). lia. Qed.

Lemma find_from_0 sub s : find_from sub s 0 = find sub s.
Proof.
  unfold find_from. cbn [Nat.leb].
  replace (str_drop 0 s) with s by by destruct s. by destruct (find sub s).
Qed.

(** The order of strings, byte by byte. *)
Fixpoint str_leb (s t : string) : bool :=
  match s, t with
  | EmptyString, _ => true
  | String _ _, EmptyString => false
  | String a s', String b t' =>
      (nat_of_ascii a <? nat_of_ascii b)%nat || (nat_of_ascii a =? nat_of_ascii b)%nat && str_leb s' t'
  end.
Definition str_le (s t : string) : Prop := str_leb s t = true.
#[export] Instance str_le_dec s t : Decision (str_le s t).
Proof. unfold str_le. apply _. Defined.

#[export] Instance str_le_trans : Transitive str_le.
Proof.
  unfold str_le. intros s t u. revert t u. induction s as [|a s IH]; intros [|b t] [|c u]; cbn [str_leb]; try done.
  rewrite !orb_true_iff, !andb_true_iff, !Nat.ltb_lt, !Nat.eqb_eq.
  intros [H1|[H1 H2]] [H3|[H3 H4]]; [left; lia|left; lia|left; lia|right]. split; [lia|by apply (IH t)].
Qed.
#[export] Instance str_le_total : Total str_le.
Proof.
  unfold str_le. intros s. induction s as [|a s IH]; intros [|b t]; cbn [str_leb]; auto.
  rewrite !orb_true_iff, !andb_true_iff, !Nat.ltb_lt, !Nat.eqb_eq.
  destruct (lt_eq_lt_dec (nat_of_ascii a) (nat_of_ascii b)) as [[?|He]|?]; [auto| |auto].
  destruct (IH t); auto.
Qed.
Lemma str_le_antisym s t : str_le s t → str_le t s → s = t.
Proof.
  unfold str_le. revert t. induction s as [|a s IH]; intros [|b t]; cbn [str_leb]; try done.
  rewrite !orb_true_iff, !andb_true_iff, !Nat.ltb_lt, !Nat.eqb_eq. intros [H1|[H1 H2]] [H3|[H3 H4]]; try lia.
  f_equal; [|by apply IH]. by rewrite <- (ascii_nat_embedding a), <- (ascii_nat_embedding b), H1.
Qed.

Lemma StronglySorted_lookup_le {A} (R : A → A → Prop) l i j x y :
  StronglySorted R l → l !! i = Some x → l !! j = Some y → i < j → R x y.
Proof.
  intros Hs. revert i j. induction Hs as [|z l _ IH Hz]; intros i j Hi Hj Hij; [done|].
  destruct j as [|j]; [lia|]. destruct i as [|i]; cbn in Hi, Hj.
  - simplify_eq. rewrite Forall_forall in Hz. apply Hz. by eapply list_elem_of_lookup_2.
  - apply (IH i j); [done|done|lia].
Qed.
