(* ===== verification/PyPath.v ===== *)
(** * Paths (os.path of Unix)

    The functions of Python's [posixpath] the modelled programs use, with the facts
    that going up shortens a path and leads to a prefix of it. *)
From S2P Require Import Prelude PyStr.

Definition slash : ascii := "/".

Definition path_join (x y : string) : string :=
  if startswith "/" y then y else if (x =s "") || endswith "/" x then x +:+ y else x +:+ "/" +:+ y.

(** [os.path.dirname] *)
Fixpoint upto_last_slash (s : string) : option string :=
  match s with
  | EmptyString => None
  | String a s' =>
      match upto_last_slash s' with
      | Some h => Some (String a h)
      | None => if Ascii.eqb a slash then Some (String a "") else None
      end
  end.
Fixpoint rstrip_slash (s : string) : string :=
  match s with
  | EmptyString => ""
  | String a s' => match rstrip_slash s' with
                   | EmptyString => if Ascii.eqb a slash then "" else String a ""
                   | r => String a r
                   end
  end.
Definition all_slashes (s : string) : bool := str_forall (Ascii.eqb slash) s.
Definition dirname (p : string) : string :=
  let head := default "" (upto_last_slash p) in
  if all_slashes head then head else rstrip_slash head.

(** [os.path.split(p)[1]] and [os.path.split] *)
Definition basename (p : string) : string := str_drop (String.length (default "" (upto_last_slash p))) p.
Definition path_split (p : string) : string * string := (dirname p, basename p).

(** The position of the last occurrence of a character, plus 1; 0 if there is none. *)
Fixpoint rindex (c : ascii) (s : string) : nat :=
  match s with
  | EmptyString => 0
  | String a s' => match rindex c s' with 0 => if Ascii.eqb a c then 1 else 0 | n => S n end
  end.
(** [os.path.splitext]: leading dots of the name do not start an extension. *)
Definition splitext (p : string) : string * string :=
  let sep := rindex "/" p in
  let dot := rindex "." p in
  if (sep <? dot)%nat && negb (str_forall (Ascii.eqb ".") (str_slice sep (dot - 1) p))
  then (str_take (dot - 1) p, str_drop (dot - 1) p) else (p, "").

(** [os.path.normpath] *)
Fixpoint norm_comps (rooted : bool) (comps new_comps : list string) : list string :=
  match comps with
  | [] => new_comps
  | c :: comps' =>
      if (c =s "") || (c =s ".") then norm_comps rooted comps' new_comps
      else if negb (c =s "..") || (negb rooted && bool_decide (new_comps = [])) || bool_decide (last new_comps = Some "..")
      then norm_comps rooted comps' (new_comps ++ [c])
      else norm_comps rooted comps' (List.removelast new_comps)
  end.
Definition normpath (p : string) : string :=
  if p =s "" then "." else
  let slashes := if startswith "/" p then if startswith "//" p && negb (startswith "///" p) then "//" else "/" else "" in
  let r := slashes +:+ join "/" (norm_comps (startswith "/" p) (split_on "/" p) []) in
  if r =s "" then "." else r.

(** [os.path.commonprefix] of two paths *)
Fixpoint commonprefix (s t : string) : string :=
  match s, t with
  | String a s', String b t' => if Ascii.eqb a b then String a (commonprefix s' t') else ""
  | _, _ => ""
  end.

Example splitext_demo : splitext "a.d/foo-inl.h" = ("a.d/foo-inl", ".h") ∧ splitext "a.d/.rc" = ("a.d/.rc", "").
Proof. by split. Qed.
Example normpath_demo : normpath "base/internal/../public" = "base/public" ∧ normpath "/../public" = "/public".
Proof. by split. Qed.

(** ** Lemmas *)

Definition prefix_of (p s : string) : Prop := ∃ r, s = p +:+ r.
#[export] Instance prefix_of_preorder : PreOrder prefix_of.
Proof.
  split.
  - intros s. exists "". by rewrite str_app_nil_r.
  - intros s1 s2 s3 [r1 ->] [r2 ->]. exists (r1 +:+ r2). by rewrite str_app_assoc.
Qed.

Lemma upto_last_slash_prefix s h : upto_last_slash s = Some h → prefix_of h s ∧ ∃ h', h = h' +:+ "/".
Proof.
  revert h. induction s as [|a s IH]; intros h; cbn; [done|].
  destruct (upto_last_slash s) as [h0|].
  - intros [= <-]. destruct (IH h0 eq_refl) as [[r Hr] [h' ->]]. split.
    + exists r. by rewrite Hr at 1.
    + by exists (String a h').
  - destruct (Ascii.eqb_spec a slash) as [->|]; [|done]. intros [= <-]. split; [by exists s|by exists ""].
Qed.
Lemma rstrip_slash_prefix s : prefix_of (rstrip_slash s) s.
Proof.
  induction s as [|a s [r Hr]]; [by exists ""|]. cbn. destruct (rstrip_slash s) as [|c t].
  - rewrite str_app_nil_l in Hr. subst r. destruct (Ascii.eqb a slash); [by exists (String a s)|by exists s].
  - exists r. by rewrite Hr at 1.
Qed.
Lemma rstrip_slash_slash s : rstrip_slash (s +:+ "/") ≠ s +:+ "/".
Proof.
  induction s as [|a s IH]; [done|]. rewrite str_app_cons. cbn [rstrip_slash].
  destruct (rstrip_slash (s +:+ "/")) as [|c t]; [|congruence].
  destruct (Ascii.eqb a slash); [done|]. intros [=]. by destruct s.
Qed.

Lemma dirname_prefix p : prefix_of (dirname p) p.
Proof.
  unfold dirname. destruct (upto_last_slash p) as [h|] eqn:E; cbn [default from_option id]; [|by exists p].
  apply upto_last_slash_prefix in E as [Hp _].
  destruct (all_slashes h); [done|]. etrans; [apply rstrip_slash_prefix|done].
Qed.
Lemma prefix_of_length p s : prefix_of p s → String.length p ≤ String.length s.
Proof. intros [r ->]. rewrite str_length_app. lia. Qed.
Lemma prefix_same_length p s : prefix_of p s → String.length s ≤ String.length p → p = s.
Proof.
  intros [r ->]. rewrite str_length_app. intros Hr. destruct r; [by rewrite str_app_nil_r|cbn in Hr; lia].
Qed.

(** Going up shortens a path, unless it is all slashes. *)
Lemma dirname_shorter p : p ≠ "" → all_slashes p = false → String.length (dirname p) < String.length p.
Proof.
  intros Hne Hs. destruct (decide (String.length p ≤ String.length (dirname p))) as [Hle|]; [|lia]. exfalso.
  pose proof (prefix_same_length _ _ (dirname_prefix p) Hle) as Hd. unfold dirname in Hd.
  destruct (upto_last_slash p) as [h|] eqn:E; cbn [default from_option id] in Hd; [|by subst].
  apply upto_last_slash_prefix in E as [Hp [h' ->]]. destruct (all_slashes (h' +:+ "/")) eqn:Eh; [congruence|].
  apply (rstrip_slash_slash h'). apply prefix_same_length; [apply rstrip_slash_prefix|].
  rewrite Hd. by apply prefix_of_length.
Qed.
Lemma commonprefix_prefix p s : prefix_of p s → commonprefix p s = p.
Proof.
  intros [r ->]. induction p as [|a p IH]; [by destruct r|]. rewrite str_app_cons. cbn. by rewrite Ascii.eqb_refl, IH.
Qed.
