(* ===== verification/PyRe.v ===== *)
(** * Python regular expressions

    The fragment of [re] the modelled scripts use: character classes, their
    greedy and lazy repetitions, groups that are not nested, and the two
    anchors.  [rmatch] is the backtracking matcher: it tries the alternatives
    in Python's order and returns the captures of the first complete match. *)
From S2P Require Import Prelude PyStr.

Inductive rx :=
| REps
| RCls (p : ascii → bool)
| RStar (p : ascii → bool)
| RLazy (p : ascii → bool)
| RSeq (r1 r2 : rx)
| RGrp (r : rx)
| RBol
| REol.

(** [$] matches at the end and before a final newline. *)
Definition at_eol (s : string) : bool := (s =s "") || (s =s nl_str).

(** Greedy and lazy repetition of a class; [k] is what follows, told whether
    the position is still the start of the text. *)
Fixpoint star_greedy {R} (p : ascii → bool) (k : bool → string → option R) (bol : bool) (s : string)
    : option R :=
  match s with
  | EmptyString => k bol s
  | String a s' =>
      if p a then match star_greedy p k false s' with
                  | Some x => Some x
                  | None => k bol s
                  end
      else k bol s
  end.

Fixpoint star_lazy {R} (p : ascii → bool) (k : bool → string → option R) (bol : bool) (s : string)
    : option R :=
  match k bol s with
  | Some x => Some x
  | None =>
      match s with
      | EmptyString => None
      | String a s' => if p a then star_lazy p k false s' else None
      end
  end.

(** The part of [s] before its suffix [s']. *)
Definition consumed (s s' : string) : string := str_take (String.length s - String.length s') s.

Fixpoint rmatch {R} (r : rx) (bol : bool) (s : string) (caps : list string)
    (k : bool → string → list string → option R) : option R :=
  match r with
  | REps => k bol s caps
  | RCls p =>
      match s with
      | EmptyString => None
      | String a s' => if p a then k false s' caps else None
      end
  | RStar p => star_greedy p (λ b s', k b s' caps) bol s
  | RLazy p => star_lazy p (λ b s', k b s' caps) bol s
  | RSeq r1 r2 => rmatch r1 bol s caps (λ b s' caps', rmatch r2 b s' caps' k)
  | RGrp r1 => rmatch r1 bol s caps (λ b s' caps', k b s' (caps' ++ [consumed s s']))
  | RBol => if bol then k bol s caps else None
  | REol => if at_eol s then k bol s caps else None
  end.

(** [pattern.match(s)]: the groups of the match at the start of [s]. *)
Definition re_match (r : rx) (s : string) : option (list string) :=
  rmatch r true s [] (λ _ _ caps, Some caps).

(** ** Building blocks *)

Definition cls_dot (a : ascii) : bool := negb (a =c nl).
Definition cls_not (l : list ascii) (a : ascii) : bool := negb (existsb (Ascii.eqb a) l).
Definition cls_word (a : ascii) : bool := is_alpha a || is_digit a || (a =c "_").
Definition RPlus (p : ascii → bool) : rx := RSeq (RCls p) (RStar p).
Fixpoint RLit (s : string) : rx :=
  match s with
  | EmptyString => REps
  | String a s' => RSeq (RCls (λ b, b =c a)) (RLit s')
  end.
Fixpoint RCat (l : list rx) : rx :=
  match l with
  | [] => REps
  | r :: l' => RSeq r (RCat l')
  end.

(** ** Relational semantics: what a match may consume *)

Inductive rx_run : rx → bool → string → list string → bool → string → list string → Prop :=
| run_eps b s c : rx_run REps b s c b s c
| run_cls p b a s c : p a = true → rx_run (RCls p) b (String a s) c false s c
| run_star_nil p b s c : rx_run (RStar p) b s c b s c
| run_star_cons p b a s c b' s' c' :
    p a = true → rx_run (RStar p) false s c b' s' c' →
    rx_run (RStar p) b (String a s) c b' s' c'
| run_lazy_nil p b s c : rx_run (RLazy p) b s c b s c
| run_lazy_cons p b a s c b' s' c' :
    p a = true → rx_run (RLazy p) false s c b' s' c' →
    rx_run (RLazy p) b (String a s) c b' s' c'
| run_seq r1 r2 b s c b1 s1 c1 b2 s2 c2 :
    rx_run r1 b s c b1 s1 c1 → rx_run r2 b1 s1 c1 b2 s2 c2 →
    rx_run (RSeq r1 r2) b s c b2 s2 c2
| run_grp r b s c b' s' c' :
    rx_run r b s c b' s' c' → rx_run (RGrp r) b s c b' s' (c' ++ [consumed s s'])
| run_bol s c : rx_run RBol true s c true s c
| run_eol b s c : at_eol s = true → rx_run REol b s c b s c.

#[export] Hint Constructors rx_run : py.

Section Matcher.
Context {R : Type}.

Lemma star_greedy_sound p (k : bool → string → option R) c b s x :
  star_greedy p k b s = Some x →
  ∃ b' s', rx_run (RStar p) b s c b' s' c ∧ k b' s' = Some x.
Proof.
  revert b. induction s as [|a s IH]; intros b; cbn; [eauto with py|].
  destruct (p a) eqn:Ha; [|eauto with py].
  destruct (star_greedy p k false s) as [y|] eqn:E; [|eauto with py].
  intros [= <-]. destruct (IH _ E) as (b' & s' & Hr & Hk). eauto 10 with py.
Qed.

Lemma star_lazy_sound p (k : bool → string → option R) c b s x :
  star_lazy p k b s = Some x →
  ∃ b' s', rx_run (RLazy p) b s c b' s' c ∧ k b' s' = Some x.
Proof.
  revert b. induction s as [|a s IH]; intros b; cbn.
  - destruct (k b "") eqn:E; [intros [= <-]; eauto with py|done].
  - destruct (k b (String a s)) eqn:E; [intros [= <-]; eauto with py|].
    destruct (p a) eqn:Ha; [|done].
    intros H. destruct (IH _ H) as (b' & s' & Hr & Hk). eauto 10 with py.
Qed.

(** A match found by the backtracking search is a run of the expression. *)
Lemma rmatch_sound r b s c (k : bool → string → list string → option R) x :
  rmatch r b s c k = Some x →
  ∃ b' s' c', rx_run r b s c b' s' c' ∧ k b' s' c' = Some x.
Proof.
  revert b s c k. induction r as [|p|p|p|r1 IH1 r2 IH2|r IH| |]; intros b s c k; cbn.
  - eauto 10 with py.
  - destruct s as [|a s]; [done|]. destruct (p a) eqn:Ha; [|done]. eauto 10 with py.
  - intros (b' & s' & ? & ?)%(star_greedy_sound _ _ c). eauto 10.
  - intros (b' & s' & ? & ?)%(star_lazy_sound _ _ c). eauto 10.
  - intros (b1 & s1 & c1 & H1 & (b2 & s2 & c2 & H2 & ?)%IH2)%IH1. eauto 10 with py.
  - intros (b' & s' & c' & H1 & ?)%IH. eauto 10 with py.
  - destruct b; [|done]. eauto 10 with py.
  - destruct (at_eol s) eqn:?; [|done]. eauto 10 with py.
Qed.

(** The search fails only when no run leads to success: backtracking is
    exhaustive. *)
Lemma rmatch_complete r b s c b' s' c' (k : bool → string → list string → option R) :
  rx_run r b s c b' s' c' → is_Some (k b' s' c') → is_Some (rmatch r b s c k).
Proof.
  intros H. revert k. induction H; intros k Hk; cbn.
  - done.
  - by rewrite H.
  - destruct s as [|a s]; cbn; [done|]. destruct (p a); [|done].
    by destruct (star_greedy _ _ _ _).
  - rewrite H. destruct (IHrx_run k Hk) as [x Hx]. cbn in Hx. by rewrite Hx.
  - destruct s as [|a s]; cbn; by destruct (k b _ c); destruct Hk.
  - destruct (k b (String a s) c); [done|]. rewrite H. by apply IHrx_run.
  - apply IHrx_run1. by apply IHrx_run2.
  - by apply IHrx_run.
  - done.
  - by rewrite H.
Qed.
End Matcher.

Lemma re_match_iff r s :
  is_Some (re_match r s) ↔ ∃ b' s' c', rx_run r true s [] b' s' c'.
Proof.
  split.
  - intros [x (b' & s' & c' & H & _)%rmatch_sound]. eauto.
  - intros (b' & s' & c' & H). by eapply rmatch_complete.
Qed.
