(* ===== verification/StatusExpr.v ===== *)
(** * Status expressions (tools/test.py)

    The outcome sets and the expression trees of the test-status language,
    with their evaluation.  An expression of a status file is used in two
    ways: a section header is evaluated to a boolean ([Evaluate]), the right
    hand side of a rule to a set of outcomes ([GetOutcomes]).  The Python
    classes are untyped: a method that a class lacks raises AttributeError, and
    that is a value of the model. *)
From S2P Require Import Prelude PyStr.

(** ** Outcome constants *)

Definition SKIP : string := "skip".
Definition FAIL : string := "fail".
Definition PASS : string := "pass".
Definition OKAY : string := "okay".
Definition TIMEOUT : string := "timeout".
Definition CRASH : string := "crash".
Definition SLOW : string := "slow".

(** ** Outcome sets: classes [ListSet], [Everything], [Nothing] *)

Inductive PySet :=
| ListSet (elms : list string)
| Everything
| Nothing.

#[export] Instance PySet_eq_dec : EqDecision PySet.
Proof. solve_decision. Defined.

Definition Intersect (self that : PySet) : PySet :=
  match self with
  | ListSet elms =>
      match that with
      | ListSet elms' => ListSet (filter (λ x, x ∈ elms') elms)
      | Everything => self
      | Nothing => Nothing
      end
  | Everything => that
  | Nothing => Nothing
  end.

Definition Union (self that : PySet) : PySet :=
  match self with
  | ListSet elms =>
      match that with
      | ListSet elms' => ListSet (elms ++ filter (λ x, x ∉ elms) elms')
      | Everything => Everything
      | Nothing => self
      end
  | Everything => Everything
  | Nothing => that
  end.

Definition IsEmpty (self : PySet) : bool :=
  match self with
  | ListSet elms => bool_decide (length elms = 0)
  | Everything => false
  | Nothing => true
  end.

(** ** Expressions *)

Inductive Expression :=
| Constant (value : bool)
| VariableRef (name : string)
| Outcome (name : string)
| Operation (lhs : Expression) (op : string) (rhs : Expression).

#[export] Instance Expression_eq_dec : EqDecision Expression.
Proof. solve_decision. Defined.

(** The operator tests of [Operation.Evaluate] and [Operation.GetOutcomes]. *)
Definition is_or (op : string) : bool := (op =s "||") || (op =s ",").

(** [Evaluate] and [GetOutcomes].  [depth] is the number of Python frames
    left before "maximum recursion depth exceeded" (a RuntimeError): only
    [Outcome.GetOutcomes], which looks a name up in [defs], is not
    structural. *)
Fixpoint Evaluate (depth : nat) (env : gmap string string) (defs : gmap string Expression)
    (e : Expression) : res bool :=
  match depth with
  | 0 => Err RuntimeError
  | S d =>
    match e with
    | Constant value => Ok value
    | VariableRef _ => Err AttributeError
    | Outcome _ => Err AttributeError
    | Operation lhs op rhs =>
        if is_or op then
          l ← Evaluate d env defs lhs;
          if (l : bool) then Ok true else Evaluate d env defs rhs
        else if (op =s "if") then Ok false
        else if (op =s "==") then
          l ← GetOutcomes d env defs lhs;
          r ← GetOutcomes d env defs rhs;
          Ok (negb (IsEmpty (Intersect l r)))
        else
          _ ← py_assert ((op =s "&&"));
          l ← Evaluate d env defs lhs;
          if (l : bool) then Evaluate d env defs rhs else Ok false
    end
  end
with GetOutcomes (depth : nat) (env : gmap string string) (defs : gmap string Expression)
    (e : Expression) : res PySet :=
  match depth with
  | 0 => Err RuntimeError
  | S d =>
    match e with
    | Constant _ => Err AttributeError
    | VariableRef name =>
        match env !! name with
        | Some v => Ok (ListSet [v])
        | None => Ok Nothing
        end
    | Outcome name =>
        match defs !! name with
        | Some e' => GetOutcomes d env defs e'
        | None => Ok (ListSet [name])
        end
    | Operation lhs op rhs =>
        if is_or op then
          l ← GetOutcomes d env defs lhs;
          r ← GetOutcomes d env defs rhs;
          Ok (Union l r)
        else if (op =s "if") then
          c ← Evaluate d env defs rhs;
          if (c : bool) then GetOutcomes d env defs lhs else Ok Nothing
        else
          _ ← py_assert ((op =s "&&"));
          l ← GetOutcomes d env defs lhs;
          r ← GetOutcomes d env defs rhs;
          Ok (Intersect l r)
    end
  end.

(** ** Specification of the sets: the outcomes a set stands for *)

Definition denotes (s : PySet) (x : string) : Prop :=
  match s with
  | ListSet elms => x ∈ elms
  | Everything => True
  | Nothing => False
  end.

#[export] Instance denotes_dec s x : Decision (denotes s x).
Proof. destruct s; cbn; apply _. Defined.

(** Two sets are equivalent when they stand for the same outcomes. *)
Definition set_equiv (a b : PySet) : Prop := ∀ x, denotes a x ↔ denotes b x.

Definition set_nodup (s : PySet) : Prop :=
  match s with ListSet elms => NoDup elms | _ => True end.

Lemma denotes_Intersect a b x : denotes (Intersect a b) x ↔ denotes a x ∧ denotes b x.
Proof. destruct a, b; cbn; rewrite ?list_elem_of_filter; tauto. Qed.

Lemma denotes_Union a b x : denotes (Union a b) x ↔ denotes a x ∨ denotes b x.
Proof.
  destruct a as [l| |], b as [l'| |]; cbn; rewrite ?elem_of_app, ?list_elem_of_filter; try tauto.
  split; [tauto|]. destruct (decide (x ∈ l)); tauto.
Qed.

Lemma IsEmpty_spec s : IsEmpty s = true ↔ ∀ x, ¬ denotes s x.
Proof.
  destruct s as [[|y l]| |]; cbn.
  - split; [intros _ x; apply not_elem_of_nil|done].
  - split; [done|]. intros H. exfalso. apply (H y). constructor.
  - split; [done|]. intros H. exfalso. exact (H "" I).
  - split; auto.
Qed.

Lemma IsEmpty_false s : negb (IsEmpty s) = true ↔ ∃ x, denotes s x.
Proof.
  destruct s as [[|y l]| |]; cbn.
  - split; [done|intros [x Hx]; by apply not_elem_of_nil in Hx].
  - split; [|done]. exists y. constructor.
  - split; [|done]. by exists "".
  - naive_solver.
Qed.

Lemma Intersect_nonempty a b :
  negb (IsEmpty (Intersect a b)) = true ↔ ∃ x, denotes a x ∧ denotes b x.
Proof. rewrite IsEmpty_false. by setoid_rewrite denotes_Intersect. Qed.

#[export] Instance set_equiv_equivalence : Equivalence set_equiv.
Proof. unfold set_equiv. split; intros ?; naive_solver. Qed.

#[export] Instance denotes_proper : Proper (set_equiv ==> eq ==> iff) denotes.
Proof. intros a a' Ha x ? <-. apply Ha. Qed.

#[export] Instance Intersect_proper : Proper (set_equiv ==> set_equiv ==> set_equiv) Intersect.
Proof. intros a a' Ha b b' Hb x. rewrite !denotes_Intersect, Ha, Hb. done. Qed.

#[export] Instance Union_proper : Proper (set_equiv ==> set_equiv ==> set_equiv) Union.
Proof. intros a a' Ha b b' Hb x. rewrite !denotes_Union, Ha, Hb. done. Qed.

#[export] Instance IsEmpty_proper : Proper (set_equiv ==> eq) IsEmpty.
Proof.
  intros a b Hab. apply eq_true_iff_eq. rewrite !IsEmpty_spec.
  split; intros H x; [rewrite <- Hab|rewrite Hab]; auto.
Qed.

#[export] Hint Rewrite denotes_Intersect denotes_Union : py.

Lemma set_nodup_Union a b : set_nodup a → set_nodup b → set_nodup (Union a b).
Proof.
  destruct a as [l| |], b as [l'| |]; cbn; try done. intros Hl Hl'.
  apply NoDup_app. split_and!; [done| |by apply NoDup_filter].
  intros x Hx. rewrite list_elem_of_filter. tauto.
Qed.

Lemma set_nodup_Intersect a b : set_nodup a → set_nodup b → set_nodup (Intersect a b).
Proof. destruct a, b; cbn; try done. intros. by apply NoDup_filter. Qed.

(** ** Declarative semantics

    [outcome env defs e x]: [x] is one of the outcomes [e] stands for;
    [holds env defs e]: the condition [e] is true.  Neither mentions the order
    of evaluation, the representation of sets or a recursion bound. *)

Inductive outcome (env : gmap string string) (defs : gmap string Expression) :
  Expression → string → Prop :=
| outcome_var n v : env !! n = Some v → outcome env defs (VariableRef n) v
| outcome_name n : defs !! n = None → outcome env defs (Outcome n) n
| outcome_def n e x : defs !! n = Some e → outcome env defs e x → outcome env defs (Outcome n) x
| outcome_or_l l op r x :
    is_or op = true → outcome env defs l x → outcome env defs (Operation l op r) x
| outcome_or_r l op r x :
    is_or op = true → outcome env defs r x → outcome env defs (Operation l op r) x
| outcome_if l c x :
    holds env defs c → outcome env defs l x → outcome env defs (Operation l "if" c) x
| outcome_and l r x :
    outcome env defs l x → outcome env defs r x → outcome env defs (Operation l "&&" r) x
with holds (env : gmap string string) (defs : gmap string Expression) : Expression → Prop :=
| holds_const : holds env defs (Constant true)
| holds_or_l l op r : is_or op = true → holds env defs l → holds env defs (Operation l op r)
| holds_or_r l op r : is_or op = true → holds env defs r → holds env defs (Operation l op r)
| holds_and l r : holds env defs l → holds env defs r → holds env defs (Operation l "&&" r)
| holds_eq l r x :
    outcome env defs l x → outcome env defs r x → holds env defs (Operation l "==" r).

(** ** Well-typed expressions

    [is_cond] are the conditions [Evaluate] is defined on, [is_set] the
    set-valued expressions [GetOutcomes] is defined on. *)

Definition is_and (op : string) : bool := (op =s "&&").

Fixpoint is_cond (e : Expression) : bool :=
  match e with
  | Constant _ => true
  | VariableRef _ | Outcome _ => false
  | Operation l op r =>
      if is_or op || is_and op then is_cond l && is_cond r
      else if (op =s "if") then true
      else if (op =s "==") then is_set l && is_set r
      else false
  end
with is_set (e : Expression) : bool :=
  match e with
  | Constant _ => false
  | VariableRef _ | Outcome _ => true
  | Operation l op r =>
      if is_or op || is_and op then is_set l && is_set r
      else if (op =s "if") then is_set l && is_cond r
      else false
  end.

(** The names an expression looks up in [defs], and the height of its tree. *)
Fixpoint refs (e : Expression) : list string :=
  match e with
  | Constant _ | VariableRef _ => []
  | Outcome n => [n]
  | Operation l _ r => refs l ++ refs r
  end.

Fixpoint height (e : Expression) : nat :=
  match e with
  | Operation l _ r => S (max (height l) (height r))
  | _ => 1
  end.

(** [defs] is typed and acyclic: a definition only mentions definitions of a
    smaller rank, and no tree is higher than [H]. *)
Record defs_ok (defs : gmap string Expression) (rank : string → nat) (H : nat) : Prop := {
  defs_typed : ∀ n e, defs !! n = Some e → is_set e = true;
  defs_ranked : ∀ n e m, defs !! n = Some e → m ∈ refs e → is_Some (defs !! m) → rank m < rank n;
  defs_height : ∀ n e, defs !! n = Some e → height e ≤ H }.

Ltac op_cases op :=
  unfold is_or, is_and in *;
  destruct (String.eqb_spec op "||") as [->|]; [cbn in *|
  destruct (String.eqb_spec op ",") as [->|]; [cbn in *|
  destruct (String.eqb_spec op "if") as [->|]; [cbn in *|
  destruct (String.eqb_spec op "==") as [->|]; [cbn in *|
  destruct (String.eqb_spec op "&&") as [->|]; cbn in *]]]].

Section Eval.
Context (env : gmap string string) (defs : gmap string Expression).

Lemma eval_mono d e :
  (∀ b, Evaluate d env defs e = Ok b → Evaluate (S d) env defs e = Ok b) ∧
  (∀ s, GetOutcomes d env defs e = Ok s → GetOutcomes (S d) env defs e = Ok s).
Proof.
  revert e. induction d as [|d IH]; intros e; [done|].
  destruct e as [v|n|n|l op r].
  - done.
  - done.
  - split; [done|]. intros s. cbn. destruct (defs !! n) as [e'|]; [|done]. apply IH.
  - destruct (IH l) as [IHl1 IHl2], (IH r) as [IHr1 IHr2].
    remember (S d) as d' eqn:Hd'.
    split; intros x Hx; rewrite Hd' in Hx; cbn in Hx |- *;
      repeat first
      [ match goal with
        | H : Evaluate d env defs l = Ok ?a |- _ => rewrite (IHl1 _ H); clear H
        | H : Evaluate d env defs r = Ok ?a |- _ => rewrite (IHr1 _ H); clear H
        | H : GetOutcomes d env defs l = Ok ?a |- _ => rewrite (IHl2 _ H); clear H
        | H : GetOutcomes d env defs r = Ok ?a |- _ => rewrite (IHr2 _ H); clear H
        end; cbn
      | progress res_inv
      | match goal with
        | H : context [if ?b then _ else _] |- _ => destruct b eqn:?; cbn in *
        end
      | done ].
Qed.

Lemma Evaluate_mono d d' e b :
  d ≤ d' → Evaluate d env defs e = Ok b → Evaluate d' env defs e = Ok b.
Proof. induction 1; [done|]. intros H'. by apply eval_mono, IHle. Qed.

Lemma GetOutcomes_mono d d' e s :
  d ≤ d' → GetOutcomes d env defs e = Ok s → GetOutcomes d' env defs e = Ok s.
Proof. induction 1; [done|]. intros H'. by apply eval_mono, IHle. Qed.

(** Typed conditions and sets evaluate, given frames for the tree and for
    the definitions below it. *)
Lemma eval_total rank H :
  defs_ok defs rank H → ∀ d e k, height e + H * k ≤ d →
  (∀ m, m ∈ refs e → is_Some (defs !! m) → rank m < k) →
  (is_cond e = true → ∃ b, Evaluate d env defs e = Ok b) ∧
  (is_set e = true → ∃ s, GetOutcomes d env defs e = Ok s).
Proof.
  intros [Ht Hr Hh]. induction d as [|d IH]; intros e k Hd Hk; [destruct e; cbn in *; lia|].
  destruct e as [v|n|n|l op r]; cbn [refs height is_cond is_set] in *.
  - split; [|done]. cbn. eauto.
  - split; [done|]. cbn. destruct (env !! n); eauto.
  - split; [done|]. cbn. destruct (defs !! n) as [e'|] eqn:Hn; [|eauto]. intros _.
    assert (rank n < k) by (apply Hk; [set_solver|rewrite Hn; eauto]).
    specialize (Hh _ _ Hn).
    apply (IH e' (rank n)); [nia|intros m; by eapply Hr|by eapply Ht].
  - destruct (IH l k) as [Hl1 Hl2]; [lia|set_solver|].
    destruct (IH r k) as [Hr1 Hr2]; [lia|set_solver|].
    op_cases op; split; rewrite ?andb_true_iff; try done; intros; destruct_and?;
      repeat match goal with
      | IH : is_cond ?x = true → _, Hx : is_cond ?x = true |- _ =>
          destruct (IH Hx) as [? ->]; clear IH; cbn
      | IH : is_set ?x = true → _, Hx : is_set ?x = true |- _ =>
          destruct (IH Hx) as [? ->]; clear IH; cbn
      | |- context [if ?b then _ else _] => destruct b
      end; eauto.
Qed.

Lemma holds_Operation l op r :
  holds env defs (Operation l op r) ↔
  (is_or op = true ∧ (holds env defs l ∨ holds env defs r)) ∨
  (op = "&&" ∧ holds env defs l ∧ holds env defs r) ∨
  (op = "==" ∧ ∃ x, outcome env defs l x ∧ outcome env defs r x).
Proof.
  split.
  - inversion 1; subst; eauto 10.
  - intros [[? [?|?]]|[(-> & ? & ?)|(-> & x & ? & ?)]];
      [by apply holds_or_l|by apply holds_or_r|by apply holds_and|by eapply holds_eq].
Qed.

Lemma outcome_Operation l op r x :
  outcome env defs (Operation l op r) x ↔
  (is_or op = true ∧ (outcome env defs l x ∨ outcome env defs r x)) ∨
  (op = "if" ∧ holds env defs r ∧ outcome env defs l x) ∨
  (op = "&&" ∧ outcome env defs l x ∧ outcome env defs r x).
Proof.
  split.
  - inversion 1; subst; eauto 10.
  - intros [[? [?|?]]|[(-> & ? & ?)|(-> & ? & ?)]];
      [by apply outcome_or_l|by apply outcome_or_r|by apply outcome_if|by apply outcome_and].
Qed.

(** What the evaluator returns is what the declarative semantics says. *)
Lemma eval_correct d e :
  (∀ b, Evaluate d env defs e = Ok b → b = true ↔ holds env defs e) ∧
  (∀ s, GetOutcomes d env defs e = Ok s → ∀ x, denotes s x ↔ outcome env defs e x).
Proof.
  revert e. induction d as [|d IH]; intros e; [done|].
  destruct e as [v|n|n|l op r].
  - split; [|done]. intros b [= <-]. split; [intros ->; constructor|by inversion 1].
  - split; [done|]. intros s. cbn. destruct (env !! n) eqn:Hn; intros [= <-] x; cbn.
    + rewrite list_elem_of_singleton. split; [intros ->; by constructor|inversion 1; congruence].
    + split; [done|inversion 1; congruence].
  - split; [done|]. intros s. cbn. destruct (defs !! n) as [e'|] eqn:Hn.
    + intros Hs x. rewrite (proj2 (IH e') _ Hs).
      split; [by econstructor|inversion 1; congruence].
    + intros [= <-] x. cbn. rewrite list_elem_of_singleton.
      split; [intros ->; by constructor|inversion 1; congruence].
  - destruct (IH l) as [El Gl], (IH r) as [Er Gr].
    split; [intros b Hb; rewrite holds_Operation | intros s Hs x; rewrite outcome_Operation];
      [cbn in Hb|cbn in Hs]; op_cases op; res_inv;
      repeat match goal with
      | H : Evaluate _ env defs _ = Ok ?b |- _ =>
          first [apply El in H|apply Er in H]; destruct b; res_inv
      end;
      repeat match goal with
      | H : GetOutcomes _ env defs l = Ok _ |- _ => pose proof (Gl _ H); clear H
      | H : GetOutcomes _ env defs r = Ok _ |- _ => pose proof (Gr _ H); clear H
      end; rewrite ?Intersect_nonempty, ?denotes_Union, ?denotes_Intersect;
      clear IH El Gl Er Gr; repeat match goal with
      | H : ∀ x, denotes _ x ↔ _ |- _ => setoid_rewrite H; clear H
      end; cbn; intuition congruence.
Qed.
End Eval.

Lemma GetOutcomes_nodup env defs d e s : GetOutcomes d env defs e = Ok s → set_nodup s.
Proof.
  revert e s. induction d as [|d IH]; intros e s; [done|].
  destruct e as [v|n|n|l op r]; cbn; [done| | |].
  - case_match; intros [= <-]; cbn; auto using NoDup_nil_2, NoDup_singleton.
  - case_match; [apply IH|intros [= <-]; apply NoDup_singleton].
  - repeat case_match; intros; res_inv;
      repeat case_match; res_inv; cbn; eauto using set_nodup_Union, set_nodup_Intersect.
Qed.

(** ** Properties *)

(** C20: a well-typed section condition over typed, acyclic definitions always
    evaluates (no AttributeError, no failed assert, no unbounded recursion), to
    one boolean that does not depend on the frames available beyond the stated
    bound, and that boolean is the condition's declarative meaning. *)
Theorem typed_condition_evaluates env defs rank H e k :
  defs_ok defs rank H →
  is_cond e = true →
  (∀ m, m ∈ refs e → is_Some (defs !! m) → rank m < k) →
  ∃ b, (b = true ↔ holds env defs e) ∧
    ∀ depth, height e + H * k ≤ depth → Evaluate depth env defs e = Ok b.
Proof.
  intros Hdefs He Hk.
  destruct (proj1 (eval_total env defs rank H Hdefs _ e k (Nat.le_refl _) Hk) He) as [b Hb].
  exists b. split; [by eapply eval_correct|].
  intros depth Hd. by eapply Evaluate_mono.
Qed.

Definition ex_defs : gmap string Expression :=
  {[ "flaky" := Operation (Outcome "pass") "||" (Outcome "fail") ]}.
Definition ex_cond : Expression :=
  Operation (Operation (VariableRef "mode") "==" (Outcome "debug")) "&&"
    (Operation (Outcome "flaky") "==" (Outcome "fail")).

Lemma ex_defs_ok : defs_ok ex_defs (λ _, 0) 2.
Proof.
  unfold ex_defs.
  split; [intros n e|intros n e m|intros n e]; rewrite lookup_singleton_Some.
  - by intros [_ <-].
  - intros [<- <-]. cbn. rewrite !elem_of_cons, elem_of_nil.
    intros [->|[->|[]]] [x Hx]; rewrite lookup_singleton_Some in Hx; naive_solver.
  - by intros [_ <-].
Defined.

Lemma typed_condition_evaluates_witness :
  ∃ b, (b = true ↔ holds {["mode" := "debug"]} ex_defs ex_cond) ∧
    ∀ depth, 5 ≤ depth → Evaluate depth {["mode" := "debug"]} ex_defs ex_cond = Ok b.
Proof.
  apply (typed_condition_evaluates _ _ (λ _, 0) 2 ex_cond 1).
  - apply ex_defs_ok.
  - reflexivity.
  - intros; lia.
Defined.

(** Whatever set [GetOutcomes] returns has no duplicates and holds
    exactly the outcomes the declarative semantics gives the expression. *)
Theorem outcomes_correct env defs depth e s :
  GetOutcomes depth env defs e = Ok s →
  set_nodup s ∧ ∀ x, denotes s x ↔ outcome env defs e x.
Proof. intros H. split; [by eapply GetOutcomes_nodup|by eapply eval_correct]. Qed.

Lemma outcomes_correct_witness :
  ∃ s, GetOutcomes 4 ∅ ex_defs (Operation (Outcome "flaky") "," (Outcome "pass")) = Ok s ∧
    set_nodup s ∧
    ∀ x, denotes s x ↔ outcome ∅ ex_defs (Operation (Outcome "flaky") "," (Outcome "pass")) x.
Proof.
  exists (ListSet ["pass"; "fail"]).
  split; [vm_compute; reflexivity|].
  apply (outcomes_correct ∅ ex_defs 4). vm_compute. reflexivity.
Defined.

(** Definitions that only alias each other in a cycle (such as
    [def a = a]) make [GetOutcomes] exhaust every recursion depth. *)
Theorem alias_cycle_diverges env (defs : gmap string Expression) (cycle : gset string) n depth :
  (∀ m, m ∈ cycle → ∃ m', m' ∈ cycle ∧ defs !! m = Some (Outcome m')) →
  n ∈ cycle →
  GetOutcomes depth env defs (Outcome n) = Err RuntimeError.
Proof.
  intros Hcycle. revert n. induction depth as [|d IH]; intros n Hn; [done|].
  cbn. destruct (Hcycle n Hn) as (m' & Hm' & ->). by apply IH.
Qed.

Lemma alias_cycle_diverges_witness :
  GetOutcomes 1000 ∅ {["a" := Outcome "b"; "b" := Outcome "a"]} (Outcome "a") = Err RuntimeError.
Proof.
  apply (alias_cycle_diverges ∅ _ {["a"; "b"]} "a").
  - intros m. rewrite elem_of_union, !elem_of_singleton. intros [->| ->].
    + exists "b". split; [set_solver|reflexivity].
    + exists "a". split; [set_solver|reflexivity].
  - set_solver.
Defined.
