(* ===== verification/StatusParse.v ===== *)
(** * The tokenizer and the parser of status expressions (tools/test.py)

    [Tokenizer], [Scanner] and the recursive-descent functions up to
    [ParseCondition].  The tokenizer keeps the Python object's [index] into
    [expr]; the scanner is represented by the tokens from [scan.index] on, so
    that [scan.Current()] on an exhausted scanner is Python's IndexError. *)
From S2P Require Import Prelude PyStr StatusExpr.

(** ** Tokenizer *)

Definition is_word_char (a : ascii) : bool := is_alpha a || is_digit a || (a =c "_").

Definition IsAlpha (str : string) : bool := str_forall is_word_char str.

(** [str.isspace()]: non-empty and only white space. *)
Definition isspace (s : string) : bool := negb (s =s "") && str_forall is_space s.

Record Tokenizer := mkTokenizer {
  tk_index : nat;
  tk_expr : string;
  tk_tokens : list string }.

(** The field [length] is [len(expr)] from the constructor on. *)
Definition tk_length (t : Tokenizer) : nat := String.length (tk_expr t).

Definition HasMore (t : Tokenizer) (length : nat) : bool :=
  tk_index t <? tk_length t + (length - 1).

Definition Current (t : Tokenizer) (length : nat) : string :=
  if HasMore t length then str_slice (tk_index t) (tk_index t + length) (tk_expr t) else "".

Definition Advance (t : Tokenizer) (count : nat) : Tokenizer :=
  mkTokenizer (tk_index t + count) (tk_expr t) (tk_tokens t).

Definition AddToken (t : Tokenizer) (token : string) : Tokenizer :=
  mkTokenizer (tk_index t) (tk_expr t) (tk_tokens t ++ [token]).

(** Each [while] of the class runs at most once per remaining character; the
    loops below take that number of rounds. *)
Definition remaining (t : Tokenizer) : nat := tk_length t - tk_index t.

Fixpoint SkipSpaces_loop (fuel : nat) (t : Tokenizer) : res Tokenizer :=
  match fuel with
  | 0 => Err OutOfFuel
  | S f =>
      if HasMore t 1 && isspace (Current t 1)
      then SkipSpaces_loop f (Advance t 1) else Ok t
  end.
Definition SkipSpaces (t : Tokenizer) : res Tokenizer := SkipSpaces_loop (S (remaining t)) t.

(** [while self.HasMore() and IsAlpha(self.Current()): buf += ...] *)
Fixpoint Word_loop (fuel : nat) (buf : string) (t : Tokenizer) : res (string * Tokenizer) :=
  match fuel with
  | 0 => Err OutOfFuel
  | S f =>
      if HasMore t 1 && IsAlpha (Current t 1)
      then Word_loop f (buf +:+ Current t 1) (Advance t 1) else Ok (buf, t)
  end.

(** One round of the main loop; [Ok None] is [return None]. *)
Definition Tokenize_round (t : Tokenizer) : res (option Tokenizer) :=
  t ← SkipSpaces t;
  if negb (HasMore t 1) then Ok None
  else if Current t 1 =s "(" then Ok (Some (Advance (AddToken t "(") 1))
  else if Current t 1 =s ")" then Ok (Some (Advance (AddToken t ")") 1))
  else if Current t 1 =s "$" then Ok (Some (Advance (AddToken t "$") 1))
  else if Current t 1 =s "," then Ok (Some (Advance (AddToken t ",") 1))
  else if IsAlpha (Current t 1) then
    '(buf, t) ← Word_loop (S (remaining t)) "" t;
    Ok (Some (AddToken t buf))
  else if Current t 2 =s "&&" then Ok (Some (Advance (AddToken t "&&") 2))
  else if Current t 2 =s "||" then Ok (Some (Advance (AddToken t "||") 2))
  else if Current t 2 =s "==" then Ok (Some (Advance (AddToken t "==") 2))
  else Ok None.

Fixpoint Tokenize_loop (fuel : nat) (t : Tokenizer) : res (option (list string)) :=
  match fuel with
  | 0 => Err OutOfFuel
  | S f =>
      if HasMore t 1 then
        r ← Tokenize_round t;
        match r with
        | None => Ok None
        | Some t' => Tokenize_loop f t'
        end
      else Ok (Some (tk_tokens t))
  end.

Definition Tokenize (expr : string) : res (option (list string)) :=
  let t := mkTokenizer 0 expr [] in Tokenize_loop (S (remaining t)) t.

(** ** Scanner and parser *)

Definition scan := list string.

Definition scan_HasMore (s : scan) : bool := match s with [] => false | _ => true end.
Definition scan_Current (s : scan) : res string :=
  match s with [] => Err IndexError | t :: _ => Ok t end.
Definition scan_Advance (s : scan) : scan := tail s.

Definition BINARIES : list string := ["=="].
Definition LOGICALS : list string := ["&&"; "||"; ","].
Definition mem_str (x : string) (l : list string) : bool := existsb (String.eqb x) l.

(** The condition [scan.HasMore() and scan.Current() in ops]. *)
Definition at_op (ops : list string) (s : scan) : bool :=
  match s with [] => false | t :: _ => mem_str t ops end.

(** The four mutually recursive functions, each with its [while] loop as a
    function of its own.  [fuel] bounds the nesting of calls and loop rounds;
    [ParseCondition] gives enough for any token list. *)
Fixpoint ParseAtomicExpression (fuel : nat) (s : scan) : res (option Expression * scan) :=
  match fuel with
  | 0 => Err OutOfFuel
  | S f =>
    c ← scan_Current s;
    if c =s "true" then Ok (Some (Constant true), scan_Advance s)
    else if c =s "false" then Ok (Some (Constant false), scan_Advance s)
    else if IsAlpha c then Ok (Some (Outcome (lower c)), scan_Advance s)
    else if c =s "$" then
      let s := scan_Advance s in
      c ← scan_Current s;
      if negb (IsAlpha c) then Ok (None, s)
      else Ok (Some (VariableRef (lower c)), scan_Advance s)
    else if c =s "(" then
      let s := scan_Advance s in
      '(result, s) ← ParseLogicalExpression f s;
      match result with
      | None => Ok (None, s)
      | Some e =>
          c ← scan_Current s;
          if c =s ")" then Ok (Some e, scan_Advance s) else Ok (None, s)
      end
    else Ok (None, s)
  end
with ParseOperatorExpression (fuel : nat) (s : scan) : res (option Expression * scan) :=
  match fuel with
  | 0 => Err OutOfFuel
  | S f =>
    '(lhs, s) ← ParseAtomicExpression f s;
    match lhs with
    | None => Ok (None, s)
    | Some lhs => Operator_loop f lhs s
    end
  end
with Operator_loop (fuel : nat) (lhs : Expression) (s : scan) : res (option Expression * scan) :=
  match fuel with
  | 0 => Err OutOfFuel
  | S f =>
    if at_op BINARIES s then
      op ← scan_Current s;
      '(rhs, s) ← ParseOperatorExpression f (scan_Advance s);
      match rhs with
      | None => Ok (None, s)
      | Some rhs => Operator_loop f (Operation lhs op rhs) s
      end
    else Ok (Some lhs, s)
  end
with ParseConditionalExpression (fuel : nat) (s : scan) : res (option Expression * scan) :=
  match fuel with
  | 0 => Err OutOfFuel
  | S f =>
    '(lhs, s) ← ParseOperatorExpression f s;
    match lhs with
    | None => Ok (None, s)
    | Some lhs => Conditional_loop f lhs s
    end
  end
with Conditional_loop (fuel : nat) (lhs : Expression) (s : scan) : res (option Expression * scan) :=
  match fuel with
  | 0 => Err OutOfFuel
  | S f =>
    if at_op ["if"] s then
      '(rhs, s) ← ParseOperatorExpression f (scan_Advance s);
      match rhs with
      | None => Ok (None, s)
      | Some rhs => Conditional_loop f (Operation lhs "if" rhs) s
      end
    else Ok (Some lhs, s)
  end
with ParseLogicalExpression (fuel : nat) (s : scan) : res (option Expression * scan) :=
  match fuel with
  | 0 => Err OutOfFuel
  | S f =>
    '(lhs, s) ← ParseConditionalExpression f s;
    match lhs with
    | None => Ok (None, s)
    | Some lhs => Logical_loop f lhs s
    end
  end
with Logical_loop (fuel : nat) (lhs : Expression) (s : scan) : res (option Expression * scan) :=
  match fuel with
  | 0 => Err OutOfFuel
  | S f =>
    if at_op LOGICALS s then
      op ← scan_Current s;
      '(rhs, s) ← ParseConditionalExpression f (scan_Advance s);
      match rhs with
      | None => Ok (None, s)
      | Some rhs => Logical_loop f (Operation lhs op rhs) s
      end
    else Ok (Some lhs, s)
  end.

Definition parse_fuel (toks : list string) : nat := 6 * length toks + 6.

Definition malformed (expr : string) : string := "Malformed expression: '" +:+ expr +:+ "'".

(** [ParseCondition]: what it prints and what it returns. *)
Definition ParseCondition (expr : string) : res (list string * option Expression) :=
  tokens ← Tokenize expr;
  match tokens with
  | None | Some [] => Ok ([malformed expr], None)
  | Some toks =>
      '(ast, s) ← ParseLogicalExpression (parse_fuel toks) toks;
      match ast with
      | None => Ok ([malformed expr], None)
      | Some e => if scan_HasMore s then Ok ([malformed expr], None) else Ok ([], Some e)
      end
  end.

(** ** A reference lexer on the remaining text

    [next_token s]: skip white space, then the first token and what follows it;
    [None] when there is no token.  [lex] iterates it. *)

Fixpoint span_word (s : string) : string * string :=
  match s with
  | EmptyString => ("", "")
  | String a s' =>
      if is_word_char a then let '(w, r) := span_word s' in (String a w, r) else ("", s)
  end.

Definition next_token (s : string) : option (string * string) :=
  match lstrip s with
  | EmptyString => None
  | String a s' =>
      if (a =c "(") || (a =c ")") || (a =c "$") || (a =c ",") then Some (String a "", s')
      else if is_word_char a then Some (span_word (String a s'))
      else match s' with
           | String b s'' =>
               if (a =c b) && ((a =c "&") || (a =c "|") || (a =c "="))
               then Some (String a (String b ""), s'') else None
           | EmptyString => None
           end
  end.

Fixpoint lex (fuel : nat) (s : string) : option (list string) :=
  match fuel with
  | 0 => None
  | S f =>
      match s with
      | EmptyString => Some []
      | _ => '(tok, s') ← next_token s; cons tok <$> lex f s'
      end
  end.

(** The tokens of the language. *)
Definition wf_token (t : string) : bool :=
  mem_str t ["("; ")"; "$"; ","; "&&"; "||"; "=="] || (negb (t =s "") && IsAlpha t).

(** ** The tokenizer refines the reference lexer *)

Definition tk_rest (t : Tokenizer) : string := str_drop (tk_index t) (tk_expr t).
Definition tk_inv (t : Tokenizer) : Prop := tk_index t ≤ tk_length t.

Lemma tk_rest_length t : String.length (tk_rest t) = remaining t.
Proof. apply str_drop_length. Qed.

Lemma HasMore_1 t : HasMore t 1 = negb (tk_rest t =s "").
Proof.
  unfold HasMore. pose proof (tk_rest_length t) as H. unfold remaining in H.
  destruct (tk_rest t) as [|a s]; cbn in *.
  - apply Nat.ltb_ge. lia.
  - apply Nat.ltb_lt. lia.
Qed.

Lemma Current_1 t : Current t 1 = str_take 1 (tk_rest t).
Proof.
  unfold Current. rewrite HasMore_1. unfold str_slice.
  replace (tk_index t + 1 - tk_index t) with 1 by lia.
  fold (tk_rest t). by destruct (tk_rest t).
Qed.

Lemma Current_2 t : tk_inv t → Current t 2 = str_take 2 (tk_rest t).
Proof.
  unfold tk_inv, Current, HasMore, str_slice. intros H.
  replace (tk_index t + 2 - tk_index t) with 2 by lia.
  rewrite (proj2 (Nat.ltb_lt _ _)) by lia. done.
Qed.

Lemma tk_rest_Advance t n : tk_rest (Advance t n) = str_drop n (tk_rest t).
Proof. unfold tk_rest. cbn. by rewrite str_drop_drop. Qed.

Lemma tk_inv_Advance t n : tk_inv t → n ≤ String.length (tk_rest t) → tk_inv (Advance t n).
Proof. rewrite tk_rest_length. unfold tk_inv, remaining. cbn. unfold tk_length. cbn. lia. Qed.

Lemma tk_rest_AddToken t s : tk_rest (AddToken t s) = tk_rest t.
Proof. done. Qed.

Lemma SkipSpaces_loop_S f t :
  SkipSpaces_loop (S f) t =
  if HasMore t 1 && isspace (Current t 1) then SkipSpaces_loop f (Advance t 1) else Ok t.
Proof. done. Qed.

Lemma Word_loop_S f buf t :
  Word_loop (S f) buf t =
  if HasMore t 1 && IsAlpha (Current t 1)
  then Word_loop f (buf +:+ Current t 1) (Advance t 1) else Ok (buf, t).
Proof. done. Qed.

Lemma isspace_take a s : isspace (str_take 1 (String a s)) = is_space a.
Proof. unfold isspace. cbn. apply andb_true_r. Qed.

Lemma IsAlpha_take a s : IsAlpha (str_take 1 (String a s)) = is_word_char a.
Proof. unfold IsAlpha. cbn. apply andb_true_r. Qed.

Lemma SkipSpaces_spec t :
  tk_inv t → ∃ t', SkipSpaces t = Ok t' ∧ tk_inv t' ∧ tk_rest t' = lstrip (tk_rest t) ∧
    tk_tokens t' = tk_tokens t.
Proof.
  unfold SkipSpaces. rewrite <- tk_rest_length.
  remember (tk_rest t) as s eqn:Hs. revert t Hs.
  induction s as [|a s IH]; intros t Hs Hinv;
    rewrite SkipSpaces_loop_S, HasMore_1, Current_1, <- Hs; [by exists t|].
  rewrite isspace_take. cbn [negb String.eqb andb lstrip String.length].
  destruct (is_space a) eqn:Ha; [|by exists t].
  destruct (IH (Advance t 1)) as (t' & ? & ? & ? & ?).
  - by rewrite tk_rest_Advance, <- Hs.
  - apply tk_inv_Advance; [done|]. rewrite <- Hs. cbn. lia.
  - by exists t'.
Qed.

Lemma Word_loop_spec s : ∀ t buf,
  tk_inv t → s = tk_rest t →
  ∃ t', Word_loop (S (String.length s)) buf t = Ok (buf +:+ fst (span_word s), t') ∧
    tk_inv t' ∧ tk_rest t' = snd (span_word s) ∧ tk_tokens t' = tk_tokens t.
Proof.
  induction s as [|a s IH]; intros t buf Hinv Hs;
    rewrite Word_loop_S, HasMore_1, Current_1, <- Hs.
  - exists t. cbn [negb String.eqb andb span_word fst snd]. by rewrite str_app_nil_r.
  - rewrite IsAlpha_take. cbn [negb String.eqb andb span_word String.length str_take].
    destruct (is_word_char a) eqn:Ha.
    + destruct (IH (Advance t 1) (buf +:+ String a "")) as (t' & HW & ? & ? & ?).
      { apply tk_inv_Advance; [done|]. rewrite <- Hs. cbn. lia. }
      { by rewrite tk_rest_Advance, <- Hs. }
      exists t'. rewrite HW.
      destruct (span_word s) as [w r]; cbn in *. by rewrite str_app_assoc.
    + exists t. cbn [fst snd]. by rewrite str_app_nil_r.
Qed.

(** One round of the loop reads [next_token] of the remaining text. *)
Lemma Tokenize_round_spec t :
  tk_inv t →
  match next_token (tk_rest t) with
  | None => Tokenize_round t = Ok None
  | Some (tok, s') => ∃ t', Tokenize_round t = Ok (Some t') ∧ tk_inv t' ∧
      tk_rest t' = s' ∧ tk_tokens t' = tk_tokens t ++ [tok]
  end.
Proof.
  intros Hinv. unfold Tokenize_round, next_token.
  destruct (SkipSpaces_spec t Hinv) as (u & -> & Hu & <- & <-). clear Hinv.
  cbn [mbind res_bind].
  rewrite HasMore_1, Current_1, (Current_2 u Hu).
  destruct (tk_rest u) as [|a s] eqn:Hs; [done|].
  assert (∀ tok s', tk_rest (Advance (AddToken u tok) 1) = s' ↔ s = s') as H1.
  { intros tok s'. by rewrite tk_rest_Advance, tk_rest_AddToken, Hs. }
  assert (∀ tok, tk_inv (Advance (AddToken u tok) 1)) as H2.
  { intros tok. apply tk_inv_Advance; [done|]. rewrite tk_rest_AddToken, Hs. cbn. lia. }
  cbn [negb String.eqb]. rewrite IsAlpha_take. cbn [str_take].
  unfold String.eqb; fold String.eqb.
  destruct (a =c "(") eqn:E1; [apply Ascii.eqb_eq in E1 as ->; cbn; eexists; split_and!; eauto; by apply H1|].
  destruct (a =c ")") eqn:E2; [apply Ascii.eqb_eq in E2 as ->; cbn; eexists; split_and!; eauto; by apply H1|].
  destruct (a =c "$") eqn:E3; [apply Ascii.eqb_eq in E3 as ->; cbn; eexists; split_and!; eauto; by apply H1|].
  destruct (a =c ",") eqn:E4; [apply Ascii.eqb_eq in E4 as ->; cbn; eexists; split_and!; eauto; by apply H1|].
  cbn [orb]. destruct (is_word_char a) eqn:Hw.
  - rewrite <- tk_rest_length, Hs.
    destruct (Word_loop_spec (String a s) u "" Hu (eq_sym Hs)) as (t' & -> & Ht' & Hr & Htk).
    destruct (span_word (String a s)) as [w r]. cbn. eexists; split_and!; eauto.
    cbn. by rewrite Htk.
  - destruct s as [|b s]; [by destruct (a =c "&"), (a =c "|"), (a =c "=")|].
    assert (∀ tok, ∃ t', Ok (Some (Advance (AddToken u tok) 2)) = Ok (Some t') ∧ tk_inv t' ∧
      tk_rest t' = s ∧ tk_tokens t' = tk_tokens u ++ [tok]) as H3.
    { intros tok. eexists. split_and!; eauto.
      - apply tk_inv_Advance; [done|]. rewrite tk_rest_AddToken, Hs. cbn. lia.
      - by rewrite tk_rest_Advance, tk_rest_AddToken, Hs. }
    rewrite (Ascii.eqb_sym a b).
    destruct (Ascii.eqb_spec a "&") as [->|];
      [cbn [String.eqb andb orb]; destruct (Ascii.eqb_spec b "&") as [->|]; [apply H3|done]|].
    destruct (Ascii.eqb_spec a "|") as [->|];
      [cbn [String.eqb andb orb]; destruct (Ascii.eqb_spec b "|") as [->|]; [apply H3|done]|].
    destruct (Ascii.eqb_spec a "=") as [->|];
      [cbn [String.eqb andb orb]; destruct (Ascii.eqb_spec b "=") as [->|]; [apply H3|done]|].
    cbn. by destruct (b =c a).
Qed.

Lemma span_word_length s : String.length (snd (span_word s)) ≤ String.length s.
Proof.
  induction s as [|a s IH]; cbn; [lia|].
  destruct (is_word_char a); cbn; [|lia]. destruct (span_word s); cbn in *. lia.
Qed.

Lemma next_token_shorter s tok s' :
  next_token s = Some (tok, s') → String.length s' < String.length s.
Proof.
  unfold next_token. pose proof (lstrip_length s) as Hl.
  destruct (lstrip s) as [|a u]; [done|]. cbn [String.length] in Hl.
  destruct (_ || _); [intros [= <- <-]; lia|].
  destruct (is_word_char a) eqn:Ha.
  - cbn. rewrite Ha. pose proof (span_word_length u).
    destruct (span_word u); cbn in *. intros [= <- <-]. lia.
  - destruct u as [|b u]; [done|]. cbn in Hl. destruct (_ && _); [|done].
    intros [= <- <-]. lia.
Qed.

Lemma Tokenize_loop_lex f t :
  tk_inv t → remaining t < f →
  Tokenize_loop f t = Ok (app (tk_tokens t) <$> lex f (tk_rest t)).
Proof.
  revert t. induction f as [|f IH]; intros t Hinv Hf; [lia|].
  cbn [Tokenize_loop lex]. rewrite HasMore_1.
  pose proof (Tokenize_round_spec t Hinv) as Hr.
  pose proof (next_token_shorter (tk_rest t)) as Hlen.
  rewrite tk_rest_length in Hlen.
  destruct (tk_rest t) as [|a s] eqn:Hs; cbn [negb String.eqb].
  - cbn. by rewrite app_nil_r.
  - destruct (next_token (String a s)) as [[tok s']|].
    + destruct Hr as (t' & -> & Ht' & Hr' & Htok). cbn [mbind res_bind option_bind].
      rewrite IH, Htok, Hr'; [|done|].
      * destruct (lex f s'); cbn; [|done]. by rewrite <- app_assoc.
      * rewrite <- tk_rest_length, Hr'. specialize (Hlen _ _ eq_refl). lia.
    + by rewrite Hr.
Qed.

Lemma Tokenize_lex expr : Tokenize expr = Ok (lex (S (String.length expr)) expr).
Proof.
  unfold Tokenize. rewrite Tokenize_loop_lex; [|unfold tk_inv; cbn; lia|lia].
  unfold remaining, tk_length. cbn. rewrite Nat.sub_0_r. f_equal.
  by destruct (match expr with EmptyString => _ | _ => _ end).
Qed.

(** ** The reference lexer against the token language *)

Definition nonspace (a : ascii) : bool := negb (is_space a).

Lemma word_char_nonspace a : is_word_char a = true → is_space a = false.
Proof. by destruct a as [[] [] [] [] [] [] [] []]. Qed.

Lemma str_filter_lstrip s : str_filter nonspace (lstrip s) = str_filter nonspace s.
Proof.
  induction s as [|a s IH]; cbn; [done|]. unfold nonspace at 2.
  destruct (is_space a) eqn:Ha; cbn; [done|]. unfold nonspace. by rewrite Ha.
Qed.

Lemma span_word_spec s :
  IsAlpha (fst (span_word s)) = true ∧
  str_filter nonspace s = fst (span_word s) +:+ str_filter nonspace (snd (span_word s)).
Proof.
  induction s as [|a s [IH1 IH2]]; [done|]. cbn [span_word].
  destruct (is_word_char a) eqn:Ha; [|done].
  destruct (span_word s) as [w r]; cbn in *. unfold nonspace at 1.
  rewrite (word_char_nonspace _ Ha). cbn. unfold IsAlpha in *. cbn.
  by rewrite Ha, IH1, IH2, str_app_cons.
Qed.

Lemma next_token_sound s tok s' :
  next_token s = Some (tok, s') →
  wf_token tok = true ∧ str_filter nonspace s = tok +:+ str_filter nonspace s'.
Proof.
  unfold next_token. rewrite <- (str_filter_lstrip s).
  destruct (lstrip s) as [|a u]; [done|].
  destruct ((a =c "(") || (a =c ")") || (a =c "$") || (a =c ",")) eqn:E.
  { intros [= <- <-]. rewrite !orb_true_iff, !Ascii.eqb_eq in E.
    by destruct E as [[[->| ->]| ->]| ->]. }
  destruct (is_word_char a) eqn:Ha.
  - pose proof (span_word_spec (String a u)) as [H1 H2].
    destruct (span_word (String a u)) as [w r] eqn:Hspan. intros [= <- <-].
    split; [|done]. unfold wf_token. cbn [fst] in H1. rewrite H1.
    cbn in Hspan. rewrite Ha in Hspan. destruct (span_word u).
    injection Hspan as <- <-. cbn. apply orb_true_r.
  - destruct u as [|b u]; [done|].
    destruct (_ && _) eqn:E2; [|done]. intros [= <- <-].
    rewrite andb_true_iff, !orb_true_iff, !Ascii.eqb_eq in E2.
    by destruct E2 as [-> [[->| ->]| ->]].
Qed.

Lemma join_nil_cons x l : join "" (x :: l) = x +:+ join "" l.
Proof. destruct l; cbn; by rewrite ?str_app_nil_r. Qed.

Lemma lex_sound f s toks :
  lex f s = Some toks →
  Forall (λ t, wf_token t = true) toks ∧ join "" toks = str_filter nonspace s.
Proof.
  revert s toks. induction f as [|f IH]; intros s toks; [done|].
  destruct s as [|a s]; [by intros [= <-]|]. cbn [lex].
  destruct (next_token (String a s)) as [[tok s']|] eqn:Hn; [|done]. cbn.
  destruct (lex f s') as [toks'|] eqn:Hl; cbn; [|done]. intros [= <-].
  destruct (IH _ _ Hl) as [H1 H2]. destruct (next_token_sound _ _ _ Hn) as [H3 H4].
  split; [by constructor|]. by rewrite join_nil_cons, H2, <- H4.
Qed.

(** Text after a token that cannot extend it. *)
Definition breaks (s : string) : Prop := s = "" ∨ ∃ s', s = String " " s'.

Lemma span_word_app w s : IsAlpha w = true → breaks s → span_word (w +:+ s) = (w, s).
Proof.
  intros Hw Hs. induction w as [|a w IH].
  - by destruct Hs as [->|[s' ->]].
  - unfold IsAlpha in *. cbn in Hw. apply andb_true_iff in Hw as [Ha Hw].
    rewrite str_app_cons. cbn. by rewrite Ha, IH.
Qed.

Lemma special_not_word a :
  is_word_char a = true → (a =c "(") || (a =c ")") || (a =c "$") || (a =c ",") = false.
Proof. by destruct a as [[] [] [] [] [] [] [] []]. Qed.

Lemma mem_str_elem x l : mem_str x l = true ↔ x ∈ l.
Proof.
  unfold mem_str. rewrite existsb_exists. setoid_rewrite String.eqb_eq.
  rewrite list_elem_of_In. naive_solver.
Qed.

Lemma next_token_complete tok s :
  wf_token tok = true → breaks s → next_token (tok +:+ s) = Some (tok, s).
Proof.
  unfold wf_token. rewrite orb_true_iff, mem_str_elem.
  intros [Htok|Htok] Hs.
  - repeat (apply elem_of_cons in Htok as [->|Htok]; [done|]). by apply not_elem_of_nil in Htok.
  - apply andb_true_iff in Htok as [Hne Htok].
    destruct tok as [|a w]; [done|]. unfold next_token.
    pose proof (span_word_app _ _ Htok Hs) as Hspan. rewrite str_app_cons in Hspan.
    unfold IsAlpha in Htok. cbn in Htok. apply andb_true_iff in Htok as [Ha _].
    rewrite str_app_cons, lstrip_cons_nonspace by by apply word_char_nonspace.
    by rewrite special_not_word, Ha, Hspan.
Qed.

Lemma lex_complete toks f :
  Forall (λ t, wf_token t = true) toks → String.length (join " " toks) < f →
  lex f (join " " toks) = Some toks ∧
  (toks ≠ [] → lex (S f) (String " " (join " " toks)) = Some toks).
Proof.
  intros Hall. revert f. induction Hall as [|tok toks Htok Hall IH]; intros f Hf.
  { split; [|done]. by destruct f; [lia|]. }
  assert (∀ g s, String.length (join " " (tok :: toks)) ≤ g →
    next_token s = next_token (join " " (tok :: toks)) → s ≠ "" →
    lex (S g) s = Some (tok :: toks)) as Hstep.
  { intros g s Hg Hs Hne. cbn [lex]. rewrite Hs. destruct s as [|a0 s0]; [done|]. clear Hs Hne.
    destruct tok as [|a w]; [done|]. destruct toks as [|t2 toks].
    - cbn [join]. rewrite <- (str_app_nil_r (String a w)).
      rewrite next_token_complete by (done || by left). cbn.
      cbn in Hg. rewrite str_app_nil_r. by destruct g; [lia|].
    - rewrite join_cons in Hg |- *. rewrite (str_app_cons _ "") in Hg |- *.
      rewrite str_app_nil_l in Hg |- *.
      rewrite next_token_complete by (done || by right; eexists). cbn [mbind option_bind].
      rewrite str_length_app in Hg. cbn [String.length] in Hg.
      destruct g as [|g]; [lia|].
      destruct (IH g) as [_ H2]; [lia|]. by rewrite H2. }
  assert (join " " (tok :: toks) ≠ "") as Hne by by destruct tok, toks.
  split.
  - destruct f as [|f]; [lia|]. apply Hstep; [lia|done|done].
  - intros _. apply Hstep; [lia|done|done].
Qed.

(** ** The parser's fuel is enough, and more fuel changes nothing *)

Section ParserFuel.

(** Facts about the seven functions at one fuel, from which the facts at the
    next one follow. *)
Record at_fuel (f : nat) (P : ∀ (needs : nat), scan → res (option Expression * scan) → Prop)
    (Q : scan → res (option Expression * scan) → Prop) : Prop := {
  af_A : ∀ s, P 1 s (ParseAtomicExpression f s);
  af_O : ∀ s, P 2 s (ParseOperatorExpression f s);
  af_OL : ∀ e s, Q s (Operator_loop f e s);
  af_C : ∀ s, P 3 s (ParseConditionalExpression f s);
  af_CL : ∀ e s, Q s (Conditional_loop f e s);
  af_L : ∀ s, P 4 s (ParseLogicalExpression f s);
  af_LL : ∀ e s, Q s (Logical_loop f e s) }.

(** What is left of the tokens: a successful parse consumes at least one. *)
Definition consumes (s : scan) (r : res (option Expression * scan)) : Prop :=
  ∀ o s', r = Ok (o, s') → length s' ≤ length s ∧ (is_Some o → length s' < length s).
Definition consumes_loop (s : scan) (r : res (option Expression * scan)) : Prop :=
  ∀ o s', r = Ok (o, s') → length s' ≤ length s.

Ltac parse_inv :=
  repeat match goal with
  | H : Ok _ = Ok _ |- _ => injection H as H
  | H : (_, _) = (_, _) |- _ => injection H as H
  | p : (_ * _)%type |- _ => destruct p
  | H : context [match ?o with Some _ => _ | None => _ end] |- _ => destruct o eqn:?
  | H : context [if ?b then _ else _] |- _ => destruct b eqn:?
  | H : scan_Current ?s = Ok _ |- _ => destruct s; [discriminate H|cbn in H]
  | _ => progress res_inv
  end.

Lemma at_op_nonempty ops s : at_op ops s = true → ∃ t s', s = t :: s'.
Proof. destruct s; [done|eauto]. Qed.

Lemma scan_Advance_length s : length (scan_Advance s) = length s - 1.
Proof. destruct s; cbn; lia. Qed.

Lemma parser_consumes f : at_fuel f (λ _, consumes) consumes_loop.
Proof.
  induction f as [|f [HA HO HOL HC HCL HL HLL]]; [by split|].
  unfold consumes, consumes_loop in *.
  split; intros; cbn in H; parse_inv; cbn in *;
    repeat match goal with
    | H : at_op _ _ = true |- _ => apply at_op_nonempty in H as (? & ? & ->); cbn in *
    | H : ParseAtomicExpression f _ = Ok _ |- _ => apply HA in H as [? H]
    | H : ParseOperatorExpression f _ = Ok _ |- _ => apply HO in H as [? H]
    | H : ParseConditionalExpression f _ = Ok _ |- _ => apply HC in H as [? H]
    | H : ParseLogicalExpression f _ = Ok _ |- _ => apply HL in H as [? H]
    | H : Operator_loop f _ _ = Ok _ |- _ => apply HOL in H
    | H : Conditional_loop f _ _ = Ok _ |- _ => apply HCL in H
    | H : Logical_loop f _ _ = Ok _ |- _ => apply HLL in H
    | H : is_Some (Some _) → _ |- _ => specialize (H ltac:(eauto))
    | H : is_Some None → _ |- _ => clear H
    end; rewrite ?scan_Advance_length; cbn in *; try lia;
    (split; [lia|intros [? [=]]; lia]).
Qed.

(** With the stated fuel no call runs out of it. *)
Definition fuelled (f needs : nat) (s : scan) (r : res (option Expression * scan)) : Prop :=
  6 * length s + needs ≤ f → r ≠ Err OutOfFuel.

Lemma parser_fuelled f : at_fuel f (fuelled f) (fuelled f 1).
Proof.
  induction f as [|f [HA HO HOL HC HCL HL HLL]]; [split; intros; unfold fuelled; lia|].
  destruct (parser_consumes f) as [CA CO COL CC CCL CL CLL].
  unfold fuelled, consumes, consumes_loop in *.
  split; intros; cbn;
    repeat match goal with
    | |- context [at_op ?o ?s] => destruct s; cbn in *; [done|]
    | |- context [scan_Current ?s] => destruct s; cbn in *; [done|]
    | |- context [scan_Advance ?s] => destruct s; cbn in *
    | |- context [if ?b then _ else _] => destruct b; [|try done]
    | |- ParseAtomicExpression f ?s ≫= _ ≠ _ =>
        specialize (HA s ltac:(cbn in *; lia));
        destruct (ParseAtomicExpression f s) as [[[] ?]|] eqn:E; cbn; [|done|congruence];
        apply CA in E as [? E]; specialize (E ltac:(eauto))
    | |- ParseOperatorExpression f ?s ≫= _ ≠ _ =>
        specialize (HO s ltac:(cbn in *; lia));
        destruct (ParseOperatorExpression f s) as [[[] ?]|] eqn:E; cbn; [|done|congruence];
        apply CO in E as [? E]; specialize (E ltac:(eauto))
    | |- ParseConditionalExpression f ?s ≫= _ ≠ _ =>
        specialize (HC s ltac:(cbn in *; lia));
        destruct (ParseConditionalExpression f s) as [[[] ?]|] eqn:E; cbn; [|done|congruence];
        apply CC in E as [? E]; specialize (E ltac:(eauto))
    | |- ParseLogicalExpression f ?s ≫= _ ≠ _ =>
        specialize (HL s ltac:(cbn in *; lia));
        destruct (ParseLogicalExpression f s) as [[[] ?]|] eqn:E; cbn; [|done|congruence];
        apply CL in E as [? E]; specialize (E ltac:(eauto))
    | |- Operator_loop f _ _ ≠ _ => apply HOL; cbn in *; lia
    | |- Conditional_loop f _ _ ≠ _ => apply HCL; cbn in *; lia
    | |- Logical_loop f _ _ ≠ _ => apply HLL; cbn in *; lia
    end; try done.
Qed.

(** Either out of fuel, or not changed by one more unit of it. *)
Definition stable {A} (x y : res A) : Prop := x = Err OutOfFuel ∨ y = x.

Record stable_at (f : nat) : Prop := {
  st_A : ∀ s, stable (ParseAtomicExpression f s) (ParseAtomicExpression (S f) s);
  st_O : ∀ s, stable (ParseOperatorExpression f s) (ParseOperatorExpression (S f) s);
  st_OL : ∀ e s, stable (Operator_loop f e s) (Operator_loop (S f) e s);
  st_C : ∀ s, stable (ParseConditionalExpression f s) (ParseConditionalExpression (S f) s);
  st_CL : ∀ e s, stable (Conditional_loop f e s) (Conditional_loop (S f) e s);
  st_L : ∀ s, stable (ParseLogicalExpression f s) (ParseLogicalExpression (S f) s);
  st_LL : ∀ e s, stable (Logical_loop f e s) (Logical_loop (S f) e s) }.

Lemma stable_bind {A B} (x y : res A) (k k' : A → res B) :
  stable x y → (∀ a, x = Ok a → stable (k a) (k' a)) → stable (x ≫= k) (y ≫= k').
Proof.
  intros [->| ->] Hk; [by left|]. destruct x as [a|e]; [by apply Hk|]. by right.
Qed.

Lemma stable_refl {A} (x : res A) : stable x x.
Proof. by right. Qed.

Lemma parser_stable f : stable_at f.
Proof.
  induction f as [|f [HA HO HOL HC HCL HL HLL]]; [by split; left|].
  remember (S f) as f' eqn:Hf'.
  split; intros; rewrite Hf' at 1; cbn;
    repeat first
    [ apply stable_refl | apply HA | apply HO | apply HOL | apply HC | apply HCL | apply HL | apply HLL
    | apply stable_bind; [|intros [[] ?] ?]
    | apply stable_bind; [|intros ? ?]
    | match goal with |- stable (if ?b then _ else _) _ => destruct b end ].
Qed.
End ParserFuel.

(** ** Eventual results: what a call returns given enough fuel *)

Definition yields {A} (P : nat → res A) (r : res A) : Prop := ∃ F, ∀ f, F ≤ f → P f = r.

Lemma yields_bind {A B} (P : nat → res A) (K : nat → A → res B) a r :
  yields P (Ok a) → yields (λ f, K f a) r → yields (λ f, x ← P f; K f x) r.
Proof.
  intros [F HF] [G HG]. exists (max F G). intros f Hf.
  rewrite HF by lia. cbn. apply HG. lia.
Qed.

(** A body guarded by [fuel], from its value at the next fuel. *)
Lemma yields_S {A} (P : nat → res A) r : yields (λ f, P (S f)) r → yields P r.
Proof.
  intros [F HF]. exists (S F). intros [|f] Hf; [lia|]. apply HF. lia.
Qed.

Lemma yields_const {A} (r : res A) : yields (λ _, r) r.
Proof. by exists 0. Qed.

Lemma ParseLogical_stable f f' s :
  f ≤ f' → ParseLogicalExpression f s ≠ Err OutOfFuel →
  ParseLogicalExpression f' s = ParseLogicalExpression f s.
Proof.
  induction 1 as [|f' Hle IH]; intros Hne; [done|].
  destruct (st_L _ (parser_stable f') s) as [H|H]; rewrite IH in H by done; congruence.
Qed.

Lemma ParseLogical_yields toks r :
  yields (λ f, ParseLogicalExpression f toks) r →
  ParseLogicalExpression (parse_fuel toks) toks = r.
Proof.
  intros [F HF]. rewrite <- (HF (max F (parse_fuel toks))) by lia. symmetry.
  apply ParseLogical_stable; [lia|].
  apply (af_L _ _ _ (parser_fuelled _)). unfold parse_fuel. lia.
Qed.

(** ** Printing expressions

    [print lvl e] are the tokens of [e] at a precedence level: 0 for atoms, 1
    for [==], 2 for [if], 3 for the logical operators; an expression of a
    higher level is put in parentheses. *)

Definition paren (b : bool) (toks : list string) : list string :=
  if b then "(" :: toks ++ [")"] else toks.

Fixpoint print (lvl : nat) (e : Expression) : list string :=
  match e with
  | Constant b => [if b then "true" else "false"]
  | VariableRef n => ["$"; n]
  | Outcome n => [n]
  | Operation l op r =>
      if op =s "==" then paren (lvl <? 1) (print 0 l ++ "==" :: print 1 r)
      else if op =s "if" then paren (lvl <? 2) (print 2 l ++ "if" :: print 1 r)
      else paren (lvl <? 3) (print 3 l ++ op :: print 2 r)
  end.

(** Names a printed expression may use: what the parser itself builds. *)
Definition wf_name (n : string) : bool := negb (n =s "") && IsAlpha n && (lower n =s n).

Fixpoint printable (e : Expression) : bool :=
  match e with
  | Constant _ => true
  | VariableRef n => wf_name n
  | Outcome n => wf_name n && negb (n =s "true") && negb (n =s "false")
  | Operation l op r =>
      mem_str op ["=="; "if"; "&&"; "||"; ","] && printable l && printable r
  end.

(** ** What the parser makes of a token list, at each level *)

Definition pA (toks : list string) (e : Expression) : Prop := ∀ rest,
  yields (λ f, ParseAtomicExpression f (toks ++ rest)) (Ok (Some e, rest)).
Definition pO (toks : list string) (e : Expression) : Prop := ∀ rest,
  at_op BINARIES rest = false →
  yields (λ f, ParseOperatorExpression f (toks ++ rest)) (Ok (Some e, rest)).
Definition pC (toks : list string) (e : Expression) : Prop := ∀ rest r,
  at_op BINARIES rest = false →
  yields (λ f, Conditional_loop f e rest) r →
  yields (λ f, ParseConditionalExpression f (toks ++ rest)) r.
Definition pL (toks : list string) (e : Expression) : Prop := ∀ rest r,
  at_op BINARIES rest = false → at_op ["if"] rest = false →
  yields (λ f, Logical_loop f e rest) r →
  yields (λ f, ParseLogicalExpression f (toks ++ rest)) r.

Lemma Operator_loop_stop e rest :
  at_op BINARIES rest = false → yields (λ f, Operator_loop f e rest) (Ok (Some e, rest)).
Proof. intros H. apply yields_S. cbn. rewrite H. apply yields_const. Qed.

Lemma Conditional_loop_stop e rest :
  at_op ["if"] rest = false → yields (λ f, Conditional_loop f e rest) (Ok (Some e, rest)).
Proof. intros H. apply yields_S. cbn. rewrite H. apply yields_const. Qed.

Lemma Logical_loop_stop e rest :
  at_op LOGICALS rest = false → yields (λ f, Logical_loop f e rest) (Ok (Some e, rest)).
Proof. intros H. apply yields_S. cbn. rewrite H. apply yields_const. Qed.

Lemma pO_of_pA toks e : pA toks e → pO toks e.
Proof.
  intros HA rest Hr. apply yields_S. cbn.
  eapply yields_bind; [apply HA|]. cbn. by apply Operator_loop_stop.
Qed.

Lemma pC_of_pO toks e : pO toks e → pC toks e.
Proof.
  intros HO rest r Hr Hl. apply yields_S. cbn.
  eapply yields_bind; [by apply HO|]. done.
Qed.

Lemma pL_of_pC toks e : pC toks e → pL toks e.
Proof.
  intros HC rest r Hr Hif Hl. apply yields_S. cbn.
  eapply yields_bind; [apply HC; [done|by apply Conditional_loop_stop]|]. done.
Qed.

Lemma pA_paren toks e : pL toks e → pA ("(" :: toks ++ [")"]) e.
Proof.
  intros HL rest. apply yields_S. cbn. rewrite <- app_assoc. cbn.
  eapply yields_bind; [apply HL; [done|done|by apply Logical_loop_stop]|].
  cbn. apply yields_const.
Qed.

Lemma pO_eq l r toks1 toks2 :
  pA toks1 l → pO toks2 r → pO (toks1 ++ "==" :: toks2) (Operation l "==" r).
Proof.
  intros Hl Hr rest Hrest. rewrite <- app_assoc. apply yields_S. cbn.
  eapply yields_bind; [apply Hl|]. cbn. apply yields_S. cbn.
  eapply yields_bind; [by apply Hr|]. cbn. by apply Operator_loop_stop.
Qed.

Lemma pC_if l r toks1 toks2 :
  pC toks1 l → pO toks2 r → pC (toks1 ++ "if" :: toks2) (Operation l "if" r).
Proof.
  intros Hl Hr rest x Hrest Hx. rewrite <- app_assoc. apply Hl; [done|].
  apply yields_S. cbn. eapply yields_bind; [by apply Hr|]. done.
Qed.

Lemma pL_logical l op r toks1 toks2 :
  mem_str op LOGICALS = true → pL toks1 l → pC toks2 r →
  pL (toks1 ++ op :: toks2) (Operation l op r).
Proof.
  intros Hop Hl Hr rest x Hrest Hif Hx. rewrite <- app_assoc.
  assert (mem_str op BINARIES = false ∧ mem_str op ["if"] = false) as [H1 H2].
  { apply mem_str_elem in Hop.
    by repeat (apply elem_of_cons in Hop as [->|Hop]; [done|]); apply not_elem_of_nil in Hop. }
  apply Hl; [done|done|]. apply yields_S. cbn -[mem_str]. rewrite Hop. cbn.
  eapply yields_bind; [apply Hr; [done|by apply Conditional_loop_stop]|]. done.
Qed.

Lemma pA_atom e : (∀ l op r, e ≠ Operation l op r) → printable e = true → pA (print 0 e) e.
Proof.
  intros He Hp rest. apply yields_S.
  destruct e as [[]|n|n|l op r]; cbn in Hp.
  - cbn. apply yields_const.
  - cbn. apply yields_const.
  - unfold wf_name in Hp. rewrite !andb_true_iff in Hp. destruct Hp as [[_ Ha] Hl].
    apply String.eqb_eq in Hl. cbn. rewrite Ha. cbn. rewrite Hl. apply yields_const.
  - unfold wf_name in Hp. rewrite !andb_true_iff, !negb_true_iff in Hp.
    destruct Hp as [[[[_ Ha] Hl] Ht] Hf].
    apply String.eqb_eq in Hl. cbn. rewrite Ht, Hf, Ha, Hl. apply yields_const.
  - by destruct (He l op r).
Qed.

Lemma print_correct e : printable e = true →
  pA (print 0 e) e ∧ pO (print 1 e) e ∧ pC (print 2 e) e ∧ pL (print 3 e) e.
Proof.
  assert (∀ a, (∀ l op r, a ≠ Operation l op r) → printable a = true →
    pA (print 0 a) a ∧ pO (print 0 a) a ∧ pC (print 0 a) a ∧ pL (print 0 a) a) as Hatom.
  { intros a Ha Hp. apply (pA_atom a Ha) in Hp.
    split_and!; auto using pO_of_pA, pC_of_pO, pL_of_pC. }
  induction e as [b|n|n|l IHl op r IHr]; intros Hp; [by apply Hatom..|].
  cbn [printable] in Hp. rewrite !andb_true_iff in Hp. destruct Hp as [[Hop Hl] Hr].
  destruct (IHl Hl) as (lA & lO & lC & lL), (IHr Hr) as (rA & rO & rC & rL). cbn [print].
  destruct (String.eqb_spec op "==") as [->|Hne1].
  { pose proof (pO_eq _ _ _ _ lA rO). cbn [Nat.ltb Nat.leb paren].
    split_and!; auto 10 using pC_of_pO, pL_of_pC, pA_paren. }
  destruct (String.eqb_spec op "if") as [->|Hne2].
  { pose proof (pC_if _ _ _ _ lC rO). cbn [Nat.ltb Nat.leb paren].
    split_and!; auto 10 using pL_of_pC, pO_of_pA, pA_paren. }
  assert (mem_str op LOGICALS = true) as Hlog.
  { apply mem_str_elem in Hop.
    by repeat (apply elem_of_cons in Hop as [->|Hop]; [done|]); apply not_elem_of_nil in Hop. }
  pose proof (pL_logical _ _ _ _ _ Hlog lL rC). cbn [Nat.ltb Nat.leb paren].
  split_and!; auto 10 using pO_of_pA, pA_paren, pC_of_pO.
Qed.

Lemma wf_name_token n : wf_name n = true → wf_token n = true.
Proof.
  unfold wf_name, wf_token. rewrite !andb_true_iff. intros [[-> ->] _]. apply orb_true_r.
Qed.

Lemma print_tokens e : printable e = true → ∀ lvl,
  print lvl e ≠ [] ∧ Forall (λ t, wf_token t = true) (print lvl e).
Proof.
  induction e as [[]|n|n|l IHl op r IHr]; intros Hp lvl; cbn -[mem_str] in Hp.
  1,2: split; [done|by repeat constructor].
  - split; [done|]. repeat constructor. by apply wf_name_token.
  - rewrite !andb_true_iff in Hp. split; [done|]. repeat constructor. apply wf_name_token; tauto.
  - rewrite !andb_true_iff in Hp. destruct Hp as [[Hop Hl] Hr].
    assert (wf_token op = true) as Hw.
    { apply mem_str_elem in Hop.
      by repeat (apply elem_of_cons in Hop as [->|Hop]; [done|]); apply not_elem_of_nil in Hop. }
    assert (∀ b x y, print x l ++ op :: print y r ≠ [] →
      paren b (print x l ++ op :: print y r) ≠ [] ∧
      Forall (λ t, wf_token t = true) (paren b (print x l ++ op :: print y r))) as Hg.
    { intros b x y Hne.
      assert (Forall (λ t, wf_token t = true) (print x l ++ op :: print y r)).
      { apply Forall_app. split; [by apply IHl|]. constructor; [done|by apply IHr]. }
      destruct b; cbn; [|done]. split; [done|]. constructor; [done|].
      apply Forall_app. split; [done|]. by repeat constructor. }
    assert (∀ x y, print x l ++ op :: print y r ≠ []) as Hne by (intros x y; by destruct (print x l)).
    cbn. destruct (String.eqb_spec op "==") as [->|]; [by apply Hg|].
    destruct (String.eqb_spec op "if") as [->|]; by apply Hg.
Qed.

Lemma yields_bind_Err {A B} (P : nat → res A) (K : nat → A → res B) e :
  yields P (Err e) → yields (λ f, x ← P f; K f x) (Err e).
Proof. intros [F HF]. exists F. intros f Hf. by rewrite HF. Qed.

Lemma ParseConditional_nil : yields (λ f, ParseConditionalExpression f []) (Err IndexError).
Proof.
  apply yields_S. cbn. apply yields_bind_Err. apply yields_S. cbn. apply yields_bind_Err.
  apply yields_S. cbn. apply yields_const.
Qed.

(** The parser raises nothing but IndexError. *)
Definition raises_index (r : res (option Expression * scan)) : Prop :=
  ∀ e, r = Err e → e = IndexError ∨ e = OutOfFuel.

Lemma raises_index_bind {A} (x : res A) k :
  (∀ e, x = Err e → e = IndexError ∨ e = OutOfFuel) → (∀ a, raises_index (k a)) →
  raises_index (x ≫= k).
Proof. intros Hx Hk e. destruct x; cbn; [apply Hk|intros [= ->]; by apply Hx]. Qed.

Lemma scan_Current_raises s e : scan_Current s = Err e → e = IndexError ∨ e = OutOfFuel.
Proof. destruct s; cbn; [|done]. intros [= <-]. by left. Qed.

Lemma parser_raises f : at_fuel f (λ _ _, raises_index) (λ _, raises_index).
Proof.
  induction f as [|f [HA HO HOL HC HCL HL HLL]].
  { split; intros; cbn; intros ? [= <-]; by right. }
  split; intros; cbn;
    repeat first
    [ apply HA | apply HO | apply HOL | apply HC | apply HCL | apply HL | apply HLL
    | apply raises_index_bind; [apply scan_Current_raises|intros]
    | apply raises_index_bind; [first [apply HA|apply HO|apply HC|apply HL]|intros [[] ?]]
    | match goal with |- raises_index (if ?b then _ else _) => destruct b end
    | by intros ? ? ].
Qed.

(** ** Properties *)

(** The index-based tokenizer is the reference lexer: it returns on every
    text, and when it accepts, its tokens are those of the language and their
    concatenation is the text without its white space. *)
Theorem Tokenize_correct expr :
  ∃ r, Tokenize expr = Ok r ∧ r = lex (S (String.length expr)) expr ∧
    ∀ toks, r = Some toks →
      Forall (λ t, wf_token t = true) toks ∧ join "" toks = str_filter nonspace expr.
Proof.
  eexists. split; [apply Tokenize_lex|]. split; [done|].
  intros toks H. by eapply lex_sound.
Qed.

(** C1: parsing inverts printing: an expression the parser can build, printed
    with the parentheses its precedences need and one space between tokens, is
    parsed back by [ParseCondition] to the same tree, with nothing printed. *)
Theorem ParseCondition_print e :
  printable e = true → ParseCondition (join " " (print 3 e)) = Ok ([], Some e).
Proof.
  intros Hp. destruct (print_tokens e Hp 3) as [Hne Hall].
  unfold ParseCondition. rewrite Tokenize_lex.
  rewrite (proj1 (lex_complete _ _ Hall (Nat.lt_succ_diag_r _))). cbn [mbind res_bind].
  destruct (print 3 e) as [|t toks] eqn:Hpr; [done|]. rewrite <- Hpr.
  assert (yields (λ f, ParseLogicalExpression f (print 3 e ++ [])) (Ok (Some e, []))) as Hy.
  { apply print_correct; [done..|by apply Logical_loop_stop]. }
  rewrite app_nil_r in Hy. by rewrite (ParseLogical_yields _ _ Hy).
Qed.

Lemma ParseCondition_print_witness :
  ParseCondition "( pass , fail ) if $ mode == debug || crash" =
  Ok ([], Some (Operation (Operation (Operation (Outcome "pass") "," (Outcome "fail")) "if"
    (Operation (VariableRef "mode") "==" (Outcome "debug"))) "||" (Outcome "crash"))).
Proof.
  apply (ParseCondition_print (Operation (Operation (Operation (Outcome "pass") "," (Outcome "fail")) "if"
    (Operation (VariableRef "mode") "==" (Outcome "debug"))) "||" (Outcome "crash"))).
  reflexivity.
Defined.

(** [ParseCondition] terminates on every text with one of three results:
    an expression and nothing printed, no expression and one diagnostic, or an
    IndexError. *)
Theorem ParseCondition_total expr :
  (∃ e, ParseCondition expr = Ok ([], Some e)) ∨
  ParseCondition expr = Ok ([malformed expr], None) ∨
  ParseCondition expr = Err IndexError.
Proof.
  unfold ParseCondition. rewrite Tokenize_lex. cbn [mbind res_bind].
  destruct (lex _ expr) as [[|t toks]|]; [by right; left| |by right; left].
  set (l := t :: toks).
  pose proof (af_L _ _ _ (parser_fuelled (parse_fuel l)) l) as Hf.
  pose proof (af_L _ _ _ (parser_raises (parse_fuel l)) l) as Hr.
  destruct (ParseLogicalExpression (parse_fuel l) l) as [[[e|] s]|e]; cbn.
  - destruct (scan_HasMore s); eauto.
  - eauto.
  - right; right. destruct (Hr e eq_refl) as [->| ->]; [done|].
    destruct Hf; [unfold parse_fuel; lia|done].
Qed.

(** An expression that ends in a logical operator is not reported as
    malformed: [ParseCondition] lets the scanner's IndexError through. *)
Theorem dangling_operator_raises e op :
  printable e = true → op ∈ LOGICALS →
  ParseCondition (join " " (print 3 e ++ [op])) = Err IndexError.
Proof.
  intros Hp Hop. destruct (print_tokens e Hp 3) as [Hne Hall].
  assert (Hlog := Hop). rewrite <- mem_str_elem in Hlog.
  assert (wf_token op = true ∧ at_op BINARIES [op] = false ∧ at_op ["if"] [op] = false)
    as (Hw & H1 & H2).
  { by repeat (apply elem_of_cons in Hop as [->|Hop]; [done|]); apply not_elem_of_nil in Hop. }
  assert (Forall (λ t, wf_token t = true) (print 3 e ++ [op])) as Hall'.
  { apply Forall_app. split; [done|]. by repeat constructor. }
  unfold ParseCondition. rewrite Tokenize_lex.
  rewrite (proj1 (lex_complete _ _ Hall' (Nat.lt_succ_diag_r _))). cbn [mbind res_bind].
  destruct (print 3 e ++ [op]) as [|t toks] eqn:Hpr; [by destruct (print 3 e)|]. rewrite <- Hpr.
  assert (yields (λ f, ParseLogicalExpression f (print 3 e ++ [op])) (Err IndexError)) as Hy.
  { apply print_correct; [done..|]. apply yields_S. cbn -[mem_str]. rewrite Hlog. cbn.
    apply yields_bind_Err, ParseConditional_nil. }
  by rewrite (ParseLogical_yields _ _ Hy).
Qed.

Lemma dangling_operator_raises_witness : ParseCondition "pass ||" = Err IndexError.
Proof.
  apply (dangling_operator_raises (Outcome "pass") "||"); [reflexivity|].
  apply mem_str_elem. reflexivity.
Defined.
