(* ===== verification/StatusFile.v ===== *)
(** * Status files and test classification (tools/test.py)

    [Pattern], [SplitPath], [Rule], [Section], [ReadConfigurationInto] and
    [Configuration.ClassifyTests], with [ReadLinesFrom] of
    deps/v8/tools/utils.py. *)
From S2P Require Import Prelude PyStr PyRe StatusExpr StatusParse.

(** ** Path patterns *)

(** The metacharacters of [re] other than [.] and [*]. *)
Definition re_meta : list ascii :=
  ["\"; "^"; "$"; "."; "|"; "?"; "*"; "+"; "("; ")"; "["; "]"; "{"; "}"]%char.
Definition is_meta (a : ascii) : bool := existsb (Ascii.eqb a) re_meta.

(** [re.compile] on patterns built from literal characters, [.], a [*] after
    one of these, and the two anchors; [None] on anything else. *)
Fixpoint re_compile (s : string) : option rx :=
  match s with
  | EmptyString => Some REps
  | String a s' =>
      if a =c "^" then RSeq RBol <$> re_compile s'
      else if a =c "$" then RSeq REol <$> re_compile s'
      else
        cls ← (if a =c "." then Some cls_dot
               else if is_meta a then None else Some (λ b, b =c a));
        match s' with
        | String b s'' =>
            if b =c "*" then RSeq (RStar cls) <$> re_compile s''
            else RSeq (RCls cls) <$> re_compile s'
        | EmptyString => Some (RSeq (RCls cls) REps)
        end
  end.

(** A [Pattern] is its text; compilation is cached by the Python class. *)
Definition pattern := string.

Section Patterns.

(** What [re] does with patterns outside the fragment above: [re_rest p s] is
    whether [re.compile(p).match(s)] succeeds. *)
Context (re_rest : string → string → bool).

Definition Pattern_match (p : pattern) (str : string) : bool :=
  let pattern := "^" +:+ replace "*" ".*" p +:+ "$" in
  match re_compile pattern with
  | Some r => bool_decide (is_Some (re_match r str))
  | None => re_rest pattern str
  end.

(** [Rule.Contains] and [TestConfiguration.Contains]. *)
Fixpoint Contains_loop (path : list pattern) (file : list string) : bool :=
  match path, file with
  | [], _ => true
  | p :: path', f :: file' => if Pattern_match p f then Contains_loop path' file' else false
  | _ :: _, [] => false
  end.
Definition Contains (path : list pattern) (file : list string) : bool :=
  if length file <? length path then false else Contains_loop path file.

End Patterns.

Definition SplitPath (s : string) : list pattern :=
  filter (λ w, 0 < String.length w) (strip <$> split_on "/" s).

(** ** Rules and sections *)

(** [rule_id] is the identity of the Rule object, by which Python's sets tell
    rules apart: the reader numbers the rules as it makes them. *)
Record Rule := mkRule {
  rule_id : nat;
  raw_path : string;
  path : list pattern;
  value : Expression }.

(** [condition] is [None] when [ParseCondition] rejected the header. *)
Record PySection := mkSection {
  condition : option Expression;
  rules : list Rule }.

#[export] Instance Rule_eq_dec : EqDecision Rule.
Proof. solve_decision. Defined.

Definition AddRule (s : PySection) (r : Rule) : PySection :=
  mkSection (condition s) (rules s ++ [r]).

Definition rule_count (sections : list PySection) : nat := length (concat (rules <$> sections)).

Definition Rule_GetOutcomes (depth : nat) (env : gmap string string)
    (defs : gmap string Expression) (r : Rule) : res (list string) :=
  s ← GetOutcomes depth env defs (value r);
  match s with
  | ListSet elms => Ok elms
  | _ => Err AssertionError
  end.

(** ** Reading a status file *)

(** [utils.ReadLinesFrom] on the text of the file. *)
Definition ReadLinesFrom (text : string) : list string :=
  filter (λ l, String.length l ≠ 0)
    ((λ line, strip (match find "#" line with
                     | Some i => str_take i line
                     | None => line
                     end)) <$> split_on nl text).

Definition HEADER_PATTERN : rx :=
  RCat [RLit "["; RGrp (RPlus (cls_not ["]"%char])); RLit "]"].
Definition RULE_PATTERN : rx :=
  RCat [RStar is_space; RGrp (RStar (cls_not [":"%char; " "%char])); RStar is_space; RLit ":";
        RGrp (RStar cls_dot)].
Definition DEF_PATTERN : rx :=
  RCat [RBol; RLit "def"; RStar is_space; RGrp (RPlus cls_word); RStar is_space; RLit "=";
        RGrp (RStar cls_dot); REol].
Definition cls_path (a : ascii) : bool :=
  cls_word a || (a =c "_") || (a =c ".") || (a =c "-") || (a =c "/").
Definition PREFIX_PATTERN : rx :=
  RCat [RBol; RStar is_space; RLit "prefix"; RPlus is_space; RGrp (RPlus cls_path); REol].

(** The variables of [ReadConfigurationInto]: the shared lists [sections] and
    [defs], the current [prefix] and the printed lines.  [current_section] is
    always the last element of [sections]. *)
Record ReadState := mkRead {
  rd_sections : list PySection;
  rd_defs : gmap string Expression;
  rd_prefix : list pattern;
  rd_out : list string }.

Definition rd_print (st : ReadState) (out : list string) : ReadState :=
  mkRead (rd_sections st) (rd_defs st) (rd_prefix st) (rd_out st ++ out).

Definition update_last (f : PySection → PySection) (l : list PySection) : list PySection :=
  match rev l with
  | [] => []
  | x :: l' => rev l' ++ [f x]
  end.

(** One line: the new state, and [false] for [return False]. *)
Definition ReadLine (st : ReadState) (line : string) : res (ReadState * bool) :=
  match re_match HEADER_PATTERN line with
  | Some [g1] =>
      '(out, condition) ← ParseCondition (strip g1);
      let st := rd_print st out in
      Ok (mkRead (rd_sections st ++ [mkSection condition []]) (rd_defs st) (rd_prefix st) (rd_out st),
          true)
  | _ =>
  match re_match RULE_PATTERN line with
  | Some [g1; g2] =>
      let path := rd_prefix st ++ SplitPath (strip g1) in
      '(out, value) ← ParseCondition (strip g2);
      let st := rd_print st out in
      match value with
      | None => Ok (st, false)
      | Some v =>
          Ok (mkRead (update_last (λ s, AddRule s (mkRule (rule_count (rd_sections st)) g1 path v)) (rd_sections st))
                (rd_defs st) (rd_prefix st) (rd_out st), true)
      end
  | _ =>
  match re_match DEF_PATTERN line with
  | Some [g1; g2] =>
      let name := lower g1 in
      '(out, value) ← ParseCondition (strip g2);
      let st := rd_print st out in
      match value with
      | None => Ok (st, false)
      | Some v =>
          Ok (mkRead (rd_sections st) (<[name := v]> (rd_defs st)) (rd_prefix st) (rd_out st), true)
      end
  | _ =>
  match re_match PREFIX_PATTERN line with
  | Some [g1] =>
      Ok (mkRead (rd_sections st) (rd_defs st) (SplitPath (strip g1)) (rd_out st), true)
  | _ => Ok (rd_print st ["Malformed line: '" +:+ line +:+ "'."], false)
  end end end end.

Fixpoint ReadLines_loop (st : ReadState) (lines : list string) : res (ReadState * bool) :=
  match lines with
  | [] => Ok (st, true)
  | line :: lines' =>
      '(st', go) ← ReadLine st line;
      if (go : bool) then ReadLines_loop st' lines' else Ok (st', false)
  end.

Definition ReadConfigurationInto (text : string) (sections : list PySection)
    (defs : gmap string Expression) : res (ReadState * bool) :=
  ReadLines_loop (mkRead (sections ++ [mkSection (Some (Constant true)) []]) defs [] [])
    (ReadLinesFrom text).

(** ** Classification *)

(** A test case, as far as classification sees it. *)
Record CasePath := mkCase { case_path : list string }.

(** [ClassifiedTest]; the code also stores the same set in [case.outcomes]. *)
Record ClassifiedTest := mkClassified {
  ct_case : CasePath;
  ct_outcomes : gset string }.

Section Classify.
Context (re_rest : string → string → bool).
Context (depth : nat) (env : gmap string string) (defs : gmap string Expression).

(** [s.condition.Evaluate(env, defs)]: None has no such method. *)
Definition section_enabled (s : PySection) : res bool :=
  match condition s with
  | None => Err AttributeError
  | Some c => Evaluate depth env defs c
  end.

(** The rules of a set of Rule objects are told apart by identity: their
    position in [all_rules]. *)
Definition indexed (all_rules : list Rule) : list (nat * Rule) := imap pair all_rules.

(** The inner loop over [matches]. *)
Definition case_outcomes (matches : list (nat * Rule)) : res (gset string) :=
  res_fold (λ acc ir, l ← Rule_GetOutcomes depth env defs (snd ir); Ok (acc ∪ list_to_set l))
    matches (∅ : gset string).

Record ClassifyState := mkCS {
  cs_result : list ClassifiedTest;
  cs_unused : gset nat;
  cs_all_outcomes : gset string }.

Definition classify_case (all_rules : list Rule) (st : ClassifyState) (case : CasePath)
    : res ClassifyState :=
  let matches := filter (λ ir, Contains re_rest (path (snd ir)) (case_path case)) (indexed all_rules) in
  outcomes ← case_outcomes matches;
  let unused := cs_unused st ∖ list_to_set (fst <$> matches) in
  let outcomes := if bool_decide (outcomes = ∅) then {[PASS]} else outcomes in
  Ok (mkCS (cs_result st ++ [mkClassified case outcomes]) unused (cs_all_outcomes st ∪ outcomes)).

(** The triple [(result, list(unused_rules), all_outcomes)]; the unused rules
    are returned in the order of [all_rules] (the source leaves it to the hash
    order of a set). *)
Definition ClassifyTests (sections : list PySection) (cases : list CasePath)
    : res (list ClassifiedTest * list Rule * gset string) :=
  sections ← res_filter section_enabled sections;
  let all_rules := concat (rules <$> sections) in
  st ← res_fold (classify_case all_rules) cases
         (mkCS [] (list_to_set (fst <$> indexed all_rules)) ∅);
  Ok (cs_result st, snd <$> filter (λ ir, fst ir ∈ cs_unused st) (indexed all_rules),
      cs_all_outcomes st).
End Classify.

(** ** The report ([PrintReport]) *)

Definition IsFlaky (o : gset string) : bool :=
  bool_decide (PASS ∈ o) && bool_decide (FAIL ∈ o) && negb (bool_decide (CRASH ∈ o))
  && negb (bool_decide (OKAY ∈ o)).
Definition IsFailOk (o : gset string) : bool :=
  bool_decide (size o = 2) && bool_decide (FAIL ∈ o) && bool_decide (OKAY ∈ o).

Record Report := mkReport {
  rp_total : nat; rp_skipped : nat; rp_nocrash : nat; rp_pass : nat; rp_fail_ok : nat; rp_fail : nat }.

Definition count_if (p : gset string → bool) (l : list ClassifiedTest) : nat :=
  length (filter (λ t, p (ct_outcomes t)) l).

Definition report_of (cases : list ClassifiedTest) : Report :=
  let unskipped := filter (λ c, SKIP ∉ ct_outcomes c) cases in
  mkReport (length cases) (length cases - length unskipped)
    (count_if IsFlaky unskipped)
    (count_if (λ o, bool_decide (o = {[PASS]})) unskipped)
    (count_if IsFailOk unskipped)
    (count_if (λ o, bool_decide (o = {[FAIL]})) unskipped).

Fixpoint str_repeat (n : nat) (s : string) : string :=
  match n with 0 => "" | S n' => s +:+ str_repeat n' s end.
(** [%4d] *)
Definition pad4 (n : nat) : string :=
  let s := str_of_nat n in str_repeat (4 - String.length s) " " +:+ s.

Definition PrintReport (cases : list ClassifiedTest) : list string :=
  let r := report_of cases in
  [ "Total: " +:+ str_of_nat (rp_total r) +:+ " tests";
    " * " +:+ pad4 (rp_skipped r) +:+ " tests will be skipped";
    " * " +:+ pad4 (rp_nocrash r) +:+ " tests are expected to be flaky but not crash";
    " * " +:+ pad4 (rp_pass r) +:+ " tests are expected to pass";
    " * " +:+ pad4 (rp_fail_ok r) +:+ " tests are expected to fail that we won't fix";
    " * " +:+ pad4 (rp_fail r) +:+ " tests are expected to fail that we should fix" ].

(** ** Patterns are globs *)

(** The glob language of patterns: [*] stands for any text, [.] for any one
    character, anything else for itself. *)
Inductive globs : string → string → Prop :=
| globs_nil : globs "" ""
| globs_star p s t : globs p t → globs (String "*" p) (s +:+ t)
| globs_any p a s : globs p s → globs (String "." p) (String a s)
| globs_lit a p s : a ≠ "*"%char → a ≠ "."%char → globs p s → globs (String a p) (String a s).

Definition plain_char (a : ascii) : bool := (a =c "*") || (a =c ".") || negb (is_meta a).

Fixpoint glob_rx (p : string) : rx :=
  match p with
  | EmptyString => RSeq REol REps
  | String a p' =>
      if a =c "*" then RSeq (RStar cls_dot) (glob_rx p')
      else if a =c "." then RSeq (RCls cls_dot) (glob_rx p')
      else RSeq (RCls (λ b, b =c a)) (glob_rx p')
  end.

Lemma replace_star_cons a p :
  replace "*" ".*" (String a p) =
  if a =c "*" then ".*" +:+ replace "*" ".*" p else String a (replace "*" ".*" p).
Proof.
  unfold replace. cbn [String.eqb replace_go String.prefix].
  rewrite Ascii.eqb_sym. destruct (Ascii.eqb_spec "*" a) as [<-|Hne].
  - destruct (ascii_dec "*" "*"); [|done]. by destruct p.
  - by destruct (ascii_dec "*" a).
Qed.

Lemma re_compile_glob p :
  str_forall plain_char p = true →
  re_compile (replace "*" ".*" p +:+ "$") = Some (glob_rx p) ∧
  ∀ s, replace "*" ".*" p +:+ "$" ≠ String "*" s.
Proof.
  induction p as [|a p IH]; [done|].
  cbn [str_forall]. intros [Ha [IH1 IH2]%IH]%andb_true_iff.
  rewrite replace_star_cons. cbn [glob_rx]. unfold plain_char in Ha.
  destruct (Ascii.eqb_spec a "*") as [->|Hs].
  - rewrite str_app_assoc, !str_app_cons, str_app_nil_l. cbn -[replace]. by rewrite IH1.
  - rewrite str_app_cons. split; [|congruence].
    assert (∀ cls, match replace "*" ".*" p +:+ "$" with
       | String b s'' => if b =c "*" then RSeq (RStar cls) <$> re_compile s''
                         else RSeq (RCls cls) <$> re_compile (replace "*" ".*" p +:+ "$")
       | EmptyString => Some (RSeq (RCls cls) REps) end = Some (RSeq (RCls cls) (glob_rx p))) as Hc.
    { intros cls. destruct (replace "*" ".*" p +:+ "$") as [|b s] eqn:E.
      - cbn in IH1. by injection IH1 as <-.
      - destruct (Ascii.eqb_spec b "*") as [->|]; [by destruct (IH2 s)|]. by rewrite IH1. }
    cbn [re_compile]. destruct (Ascii.eqb_spec a ".") as [->|Hd]; [apply Hc|].
    cbn [orb] in Ha. apply negb_true_iff in Ha.
    destruct (Ascii.eqb_spec a "^") as [->|]; [done|].
    destruct (Ascii.eqb_spec a "$") as [->|]; [done|]. rewrite Ha. apply Hc.
Qed.

Lemma star_run p b s c b' s' c' :
  rx_run (RStar p) b s c b' s' c' → c' = c ∧ ∃ u, s = u +:+ s' ∧ str_forall p u = true.
Proof.
  intros H. remember (RStar p) as r eqn:Hr. revert Hr.
  induction H; intros [= ->].
  - split; [done|]. by exists "".
  - destruct (IHrx_run eq_refl) as (-> & u & -> & Hu). split; [done|].
    exists (String a u). cbn. by rewrite H, Hu.
Qed.

Lemma run_star_app p u s c b :
  str_forall p u = true → ∃ b', rx_run (RStar p) b (u +:+ s) c b' s c.
Proof.
  revert b. induction u as [|a u IH]; intros b Hu; [eexists; constructor|].
  cbn in Hu. apply andb_true_iff in Hu as [Ha Hu]. rewrite str_app_cons.
  destruct (IH false Hu) as [b' Hb']. eexists. by econstructor.
Qed.

Lemma globs_star_inv p s :
  globs (String "*" p) s → ∃ u t, s = u +:+ t ∧ globs p t.
Proof. inversion 1; subst; [eauto|done]. Qed.

Lemma globs_any_inv p s : globs (String "." p) s → ∃ a t, s = String a t ∧ globs p t.
Proof. inversion 1; subst; [eauto|done]. Qed.

Lemma globs_lit_inv a p s :
  a ≠ "*"%char → a ≠ "."%char → globs (String a p) s → ∃ t, s = String a t ∧ globs p t.
Proof. intros ? ?. inversion 1; subst; [done..|eauto]. Qed.

(** Whether some run of an expression exists. *)
Definition runs (r : rx) (b : bool) (s : string) (c : list string) : Prop :=
  ∃ b' s' c', rx_run r b s c b' s' c'.

Lemma runs_seq_cls f r b s c :
  runs (RSeq (RCls f) r) b s c ↔ ∃ a t, s = String a t ∧ f a = true ∧ runs r false t c.
Proof.
  split.
  - intros (b' & s' & c' & H). inversion H; subst.
    match goal with H : rx_run (RCls _) _ _ _ _ _ _ |- _ => inversion H; subst end.
    do 2 eexists. split_and!; [done..|]. by do 3 eexists.
  - intros (a & t & -> & Ha & b' & s' & c' & H). do 3 eexists. eauto with py.
Qed.

Lemma runs_seq_star f r b s c :
  runs (RSeq (RStar f) r) b s c →
  ∃ u t b', s = u +:+ t ∧ str_forall f u = true ∧ runs r b' t c.
Proof.
  intros (b' & s' & c' & H). inversion H; subst.
  match goal with H : rx_run (RStar _) _ _ _ _ _ _ |- _ => apply star_run in H as (-> & u & -> & Hu) end.
  do 3 eexists. split_and!; [done..|]. by do 3 eexists.
Qed.

Lemma glob_rx_run p b s c :
  str_forall cls_dot s = true → runs (glob_rx p) b s c ↔ globs p s.
Proof.
  revert b s c. induction p as [|a p IH]; intros b s c Hs; cbn [glob_rx].
  - split.
    + intros (b' & s' & c' & H). inversion H; subst.
      match goal with H : rx_run REol _ _ _ _ _ _ |- _ => inversion H as [| | | | | | | | |? ? ? He]; subst end.
      unfold at_eol in He. apply orb_true_iff in He as [->%String.eqb_eq| ->%String.eqb_eq]; [constructor|done].
    + inversion 1; subst. do 3 eexists. eauto 10 with py.
  - destruct (Ascii.eqb_spec a "*") as [->|Hs1]; [|destruct (Ascii.eqb_spec a ".") as [->|Hs2]].
    + split.
      * intros (u & t & b' & -> & Hu & Hr)%runs_seq_star. constructor.
        rewrite str_forall_app in Hs. apply andb_true_iff in Hs as [_ Hs]. by apply IH in Hr.
      * intros (u & t & -> & Hg)%globs_star_inv.
        rewrite str_forall_app in Hs. apply andb_true_iff in Hs as [Hu Ht].
        destruct (run_star_app cls_dot u t c b Hu) as [b1 Hb1].
        destruct (proj2 (IH b1 t c Ht) Hg) as (b' & s' & c' & Hr). do 3 eexists. eauto with py.
    + rewrite runs_seq_cls. split.
      * intros (x & t & -> & Hx & Hr). cbn in Hs. apply andb_true_iff in Hs as [_ Hs].
        constructor. by apply IH in Hr.
      * intros (x & t & -> & Hg)%globs_any_inv. cbn in Hs. apply andb_true_iff in Hs as [Hx Ht].
        do 2 eexists. split_and!; [done..|]. by apply IH.
    + rewrite runs_seq_cls. split.
      * intros (x & t & -> & ->%Ascii.eqb_eq & Hr). cbn in Hs. apply andb_true_iff in Hs as [_ Hs].
        constructor; [done..|]. by apply IH in Hr.
      * intros (t & -> & Hg)%globs_lit_inv; [|done..]. cbn in Hs. apply andb_true_iff in Hs as [Hx Ht].
        do 2 eexists. split_and!; [done|apply Ascii.eqb_refl|]. by apply IH.
Qed.

(** On names without a newline, a pattern made of plain characters, [.] and
    [*] matches exactly as a glob: the compiled regular expression accepts a
    name iff the whole name is in the pattern's glob language. *)
Theorem Pattern_match_glob re_rest p s :
  str_forall plain_char p = true → str_mem nl s = false →
  Pattern_match re_rest p s = true ↔ globs p s.
Proof.
  intros Hp Hs.
  assert (str_forall cls_dot s = true) as Hdot.
  { clear Hp. induction s as [|a s IH]; [done|]. cbn in Hs |- *.
    apply orb_false_iff in Hs as [Ha Hs]. unfold cls_dot at 1. rewrite Ha. by apply IH. }
  unfold Pattern_match. rewrite str_app_cons, str_app_nil_l. cbn [re_compile Ascii.eqb Bool.eqb].
  rewrite (proj1 (re_compile_glob p Hp)). cbn [fmap option_fmap option_map].
  rewrite bool_decide_eq_true, re_match_iff.
  rewrite <- (glob_rx_run p true s [] Hdot). split.
  - intros (b' & s' & c' & H). inversion H; subst.
    match goal with H : rx_run RBol _ _ _ _ _ _ |- _ => inversion H; subst end.
    by do 3 eexists.
  - intros (b' & s' & c' & H). do 3 eexists. eauto with py.
Qed.

Lemma Pattern_match_glob_witness :
  Pattern_match (λ _ _, false) "test-*.js" "test-fs-read.js" = true ↔
  globs "test-*.js" "test-fs-read.js".
Proof. apply Pattern_match_glob; reflexivity. Defined.

(** ** Classification is the union of the matching rules *)

Section ClassifyFacts.
Context (re_rest : string → string → bool).
Context (depth : nat) (env : gmap string string) (defs : gmap string Expression).

Lemma Rule_GetOutcomes_spec r l :
  Rule_GetOutcomes depth env defs r = Ok l → ∀ x, x ∈ l ↔ outcome env defs (value r) x.
Proof.
  unfold Rule_GetOutcomes. rewrite res_bind_Ok. intros (s & Hs & H) x.
  destruct s as [elms| |]; [injection H as <-|done..].
  apply (proj2 (eval_correct env defs depth (value r)) _ Hs).
Qed.

Lemma case_outcomes_spec matches O :
  case_outcomes depth env defs matches = Ok O →
  ∀ x, x ∈ O ↔ ∃ i r, (i, r) ∈ matches ∧ outcome env defs (value r) x.
Proof.
  unfold case_outcomes. revert O.
  intros O. apply (res_fold_inv _ (λ done O, ∀ x, x ∈ O ↔
    ∃ i r, (i, r) ∈ done ∧ outcome env defs (value r) x)).
  - intros x. split; [set_solver|]. intros (i & r & H & _). by apply not_elem_of_nil in H.
  - intros done acc [i r] acc' Hacc _ (l & Hl & [= <-])%res_bind_Ok x. cbn in Hl.
    rewrite elem_of_union, elem_of_list_to_set, Hacc, (Rule_GetOutcomes_spec _ _ Hl).
    setoid_rewrite elem_of_app. setoid_rewrite list_elem_of_singleton. naive_solver.
Qed.

(** What the rules say of one case: the outcomes of the rules that contain
    it, or [PASS] when there are none. *)
Definition expected (all_rules : list Rule) (file : list string) (x : string) : Prop :=
  let ruled y := ∃ r, r ∈ all_rules ∧ Contains re_rest (path r) file = true ∧
                   outcome env defs (value r) y in
  ruled x ∨ (x = PASS ∧ ∀ y, ¬ ruled y).

Lemma elem_of_indexed all_rules r : r ∈ all_rules ↔ ∃ i, (i, r) ∈ indexed all_rules.
Proof.
  unfold indexed. setoid_rewrite elem_of_lookup_imap. rewrite list_elem_of_lookup.
  split; [|naive_solver]. intros [i Hi]. exists i, i, r. naive_solver.
Qed.

Lemma indexed_inj all_rules i r r' :
  (i, r) ∈ indexed all_rules → (i, r') ∈ indexed all_rules → r = r'.
Proof. unfold indexed. rewrite !elem_of_lookup_imap. naive_solver. Qed.

Record classify_inv (all_rules : list Rule) (done : list CasePath) (st : ClassifyState) : Prop := {
  ci_cases : ct_case <$> cs_result st = done;
  ci_outcomes : ∀ ct, ct ∈ cs_result st →
    ∀ x, x ∈ ct_outcomes ct ↔ expected all_rules (case_path (ct_case ct)) x;
  ci_unused : ∀ i r, (i, r) ∈ indexed all_rules →
    i ∈ cs_unused st ↔ ∀ c, c ∈ done → Contains re_rest (path r) (case_path c) = false;
  ci_all : ∀ x, x ∈ cs_all_outcomes st ↔ ∃ ct, ct ∈ cs_result st ∧ x ∈ ct_outcomes ct }.

Lemma case_outcomes_expected all_rules file O :
  case_outcomes depth env defs
    (filter (λ ir, Contains re_rest (path (snd ir)) file) (indexed all_rules)) = Ok O →
  ∀ x, x ∈ (if bool_decide (O = ∅) then {[PASS]} else O) ↔ expected all_rules file x.
Proof.
  intros HO.
  assert (∀ x, x ∈ O ↔ ∃ r, r ∈ all_rules ∧ Contains re_rest (path r) file = true ∧
            outcome env defs (value r) x) as H.
  { intros x. rewrite (case_outcomes_spec _ _ HO). setoid_rewrite elem_of_indexed.
    setoid_rewrite list_elem_of_filter. cbn. setoid_rewrite Is_true_true. naive_solver. }
  intros x. unfold expected. case_bool_decide as Hemp.
  - rewrite elem_of_singleton. subst O. setoid_rewrite <- H. set_solver.
  - rewrite <- H. split; [by left|]. intros [?|[-> Hno]]; [done|].
    destruct Hemp. apply set_eq. intros y. rewrite H. set_solver.
Qed.

Lemma classify_case_inv all_rules done st case st' :
  classify_inv all_rules done st →
  classify_case re_rest depth env defs all_rules st case = Ok st' →
  classify_inv all_rules (done ++ [case]) st'.
Proof.
  intros [Hc Ho Hu Ha]. unfold classify_case. rewrite res_bind_Ok. intros (O & HO & [= <-]).
  pose proof (case_outcomes_expected _ _ _ HO) as HE. split; cbn.
  - by rewrite fmap_app, Hc.
  - intros ct [Hct|Hct]%elem_of_app; [by apply Ho|].
    apply list_elem_of_singleton in Hct as ->. cbn. exact HE.
  - intros i r Hir. rewrite elem_of_difference, elem_of_list_to_set, list_elem_of_fmap, (Hu _ _ Hir).
    setoid_rewrite elem_of_app. setoid_rewrite list_elem_of_singleton. split.
    + intros [Hd Hn] c [Hcd| ->]; [by apply Hd|]. apply not_true_iff_false. intros HC.
      apply Hn. exists (i, r). split; [done|]. apply list_elem_of_filter. cbn.
      by rewrite Is_true_true.
    + intros H. split; [auto|]. intros ([i' r'] & -> & [HC Hin]%list_elem_of_filter).
      cbn in *. apply Is_true_true in HC. rewrite (indexed_inj _ _ _ _ Hir Hin) in H.
      specialize (H case ltac:(auto)). congruence.
  - intros x. rewrite elem_of_union, Ha. setoid_rewrite elem_of_app.
    setoid_rewrite list_elem_of_singleton. split.
    + intros [(ct & ? & ?)|Hx]; [eauto|]. eexists. split; [by right|done].
    + intros (ct & [Hct| ->] & Hx); [left; eauto|by right].
Qed.
End ClassifyFacts.

(** ** When classification cannot fail *)

(** A rule value that is a list of outcomes in every environment: some
    alternative of it is unconditional. *)
Fixpoint unconditional (env : gmap string string) (defs : gmap string Expression) (e : Expression) : bool :=
  match e with
  | Constant _ => false
  | VariableRef n => bool_decide (is_Some (env !! n))
  | Outcome n => bool_decide (defs !! n = None)
  | Operation l op r =>
      if is_or op then unconditional env defs l || unconditional env defs r
      else if is_and op then unconditional env defs l && unconditional env defs r
      else false
  end.

(** [Everything] is never built by the evaluator. *)
Lemma GetOutcomes_not_Everything env defs d e s :
  GetOutcomes d env defs e = Ok s → s ≠ Everything.
Proof.
  revert e s. induction d as [|d IH]; intros e s; [done|].
  destruct e as [v|n|n|l op r]; cbn; [done| | |].
  - case_match; by intros [= <-].
  - case_match; [apply IH|by intros [= <-]].
  - repeat case_match; intros; res_inv; repeat case_match; res_inv; try done;
      repeat match goal with H : GetOutcomes d env defs _ = Ok ?a |- _ =>
        apply IH in H; destruct a; try done end.
    all: eauto.
Qed.

Lemma unconditional_ListSet env defs d e s :
  GetOutcomes d env defs e = Ok s → unconditional env defs e = true → ∃ l, s = ListSet l.
Proof.
  revert e s. induction d as [|d IH]; intros e s; [done|].
  destruct e as [v|n|n|l op r]; cbn; [done| | |].
  - rewrite bool_decide_eq_true. intros Hs [v Hv]. rewrite Hv in Hs. injection Hs as <-. eauto.
  - rewrite bool_decide_eq_true. intros Hs Hn. rewrite Hn in Hs. injection Hs as <-. eauto.
  - op_cases op; intros Hs Hu; res_inv; try done.
    1,2: apply orb_true_iff in Hu;
      pose proof (GetOutcomes_not_Everything _ _ _ _ _ Ha);
      pose proof (GetOutcomes_not_Everything _ _ _ _ _ Ha0);
      destruct Hu as [Hu|Hu]; [destruct (IH _ _ Ha Hu) as [? ->]|destruct (IH _ _ Ha0 Hu) as [? ->]];
      [destruct a0|destruct a]; cbn; eauto; done.
    apply andb_true_iff in Hu as [Hu1 Hu2].
    destruct (IH _ _ Ha Hu1) as [? ->], (IH _ _ Ha0 Hu2) as [? ->]. cbn. eauto.
Qed.

(** ** Properties *)

(** C7: classification keeps the cases in order; the outcomes of a case are
    those of the enabled rules that contain its path, and [PASS] alone when no
    rule gives any; the unused rules are the enabled rules that contain no
    case; the third result is the union of all outcomes. *)
Theorem ClassifyTests_correct re_rest depth env defs sections cases result unused all :
  ClassifyTests re_rest depth env defs sections cases = Ok (result, unused, all) →
  ∃ enabled : list Rule,
    (∀ r, r ∈ enabled ↔ ∃ s c, s ∈ sections ∧ condition s = Some c ∧ holds env defs c ∧ r ∈ rules s) ∧
    ct_case <$> result = cases ∧
    (∀ ct x, ct ∈ result →
       x ∈ ct_outcomes ct ↔ expected re_rest env defs enabled (case_path (ct_case ct)) x) ∧
    (∀ r, r ∈ unused ↔ r ∈ enabled ∧
       ∀ c, c ∈ cases → Contains re_rest (path r) (case_path c) = false) ∧
    (∀ x, x ∈ all ↔ ∃ ct, ct ∈ result ∧ x ∈ ct_outcomes ct).
Proof.
  unfold ClassifyTests. rewrite res_bind_Ok.
  intros (secs & Hsecs & (st & Hst & [= <- <- <-])%res_bind_Ok).
  set (enabled := concat (rules <$> secs)) in *. exists enabled.
  apply (res_fold_inv _ (classify_inv re_rest env defs enabled)) in Hst as [Hc Ho Hu Ha].
  - split_and!; [|done|by intros; apply Ho| |done].
    + intros r. unfold enabled. rewrite elem_of_concat. setoid_rewrite list_elem_of_fmap.
      setoid_rewrite (λ s, res_filter_Ok _ _ _ s Hsecs). unfold section_enabled.
      split.
      * intros (l & Hr & s & -> & Hs & Hen). destruct (condition s) as [c|] eqn:Hcs; [|done].
        exists s, c. split_and!; [done..| |done]. by eapply eval_correct.
      * intros (s & c & Hs & Hcs & Hh & Hr). exists (rules s). split; [done|].
        exists s. split_and!; [done..|]. rewrite Hcs.
        destruct (res_filter_defined _ _ _ s Hsecs Hs) as [b Hb].
        unfold section_enabled in Hb. rewrite Hcs in Hb. rewrite Hb. f_equal.
        by eapply eval_correct.
    + intros r. rewrite list_elem_of_fmap. split.
      * intros ([i r'] & -> & [Hi Hir]%list_elem_of_filter). cbn in *.
        split; [apply elem_of_indexed; eauto|]. by apply (Hu i).
      * intros [[i Hi]%elem_of_indexed Hno]. exists (i, r). split; [done|].
        apply list_elem_of_filter. split; [|done]. cbn. by apply (Hu i r).
  - split; cbn; [done| | |].
    + intros ct Hct. by apply not_elem_of_nil in Hct.
    + intros i r Hir. rewrite elem_of_list_to_set, list_elem_of_fmap. split; [|intros _; by exists (i, r)].
      intros _ c Hcn. by apply not_elem_of_nil in Hcn.
    + intros x. split; [set_solver|]. intros (ct & Hct & _). by apply not_elem_of_nil in Hct.
  - intros done b x b' Hb _. by apply classify_case_inv.
Qed.

Definition ex_sections : list PySection :=
  [ mkSection (Some (Constant true)) [mkRule 0 "a/b*" ["a"; "b*"] (Operation (Outcome "fail") "," (Outcome "okay"))];
    mkSection (Some (Operation (VariableRef "mode") "==" (Outcome "debug"))) [mkRule 1 "c" ["c"] (Outcome "skip")] ].

Lemma ClassifyTests_correct_witness :
  ∃ result unused all,
    ClassifyTests (λ _ _, false) 10 {["mode" := "release"]} ∅ ex_sections
      [mkCase ["a"; "bc"]; mkCase ["c"]] = Ok (result, unused, all) ∧
    ct_case <$> result = [mkCase ["a"; "bc"]; mkCase ["c"]].
Proof.
  assert (is_ok (ClassifyTests (λ _ _, false) 10 {["mode" := "release"]} ∅ ex_sections
    [mkCase ["a"; "bc"]; mkCase ["c"]]) = true) as Hok by (vm_compute; reflexivity).
  destruct (ClassifyTests (λ _ _, false) 10 {["mode" := "release"]} ∅ ex_sections
    [mkCase ["a"; "bc"]; mkCase ["c"]]) as [[[result unused] all]|e] eqn:E; [|discriminate Hok].
  exists result, unused, all. split; [reflexivity|].
  destruct (ClassifyTests_correct _ _ _ _ _ _ _ _ _ E) as (enabled & _ & H & _). exact H.
Defined.

Lemma res_fold_total {A B} (f : B → A → res B) l :
  (∀ b x, x ∈ l → ∃ b', f b x = Ok b') → ∀ b, ∃ b', res_fold f l b = Ok b'.
Proof.
  induction l as [|x l IH]; intros Hf b; cbn; [eauto|].
  destruct (Hf b x) as [b' ->]; [set_solver|]. cbn. apply IH. set_solver.
Qed.

Lemma res_filter_total {A} (f : A → res bool) l :
  (∀ x, x ∈ l → ∃ b, f x = Ok b) → ∃ l', res_filter f l = Ok l'.
Proof.
  induction l as [|x l IH]; intros Hf; cbn; [eauto|].
  destruct (Hf x) as [b ->]; [set_solver|]. cbn.
  destruct IH as [l' ->]; [set_solver|]. cbn. eauto.
Qed.

(** Classification raises nothing when the definitions are typed and
    acyclic, every section header was parsed to a typed condition, and every
    rule has a typed value with an unconditional alternative. *)
Theorem ClassifyTests_total re_rest depth env defs rank H k sections cases :
  defs_ok defs rank H → (∀ n, is_Some (defs !! n) → rank n < k) →
  (∀ s, s ∈ sections → ∃ c, condition s = Some c ∧ is_cond c = true ∧ height c + H * k ≤ depth) →
  (∀ s r, s ∈ sections → r ∈ rules s →
     is_set (value r) = true ∧ unconditional env defs (value r) = true ∧
     height (value r) + H * k ≤ depth) →
  ∃ out, ClassifyTests re_rest depth env defs sections cases = Ok out.
Proof.
  intros Hd Hk Hc Hr. unfold ClassifyTests.
  destruct (res_filter_total (section_enabled depth env defs) sections) as [secs Hsecs].
  { intros s Hs. destruct (Hc s Hs) as (c & Hcs & Hty & Hh). unfold section_enabled. rewrite Hcs.
    apply (eval_total env defs rank H Hd depth c k); eauto. }
  rewrite Hsecs. cbn.
  destruct (res_fold_total (classify_case re_rest depth env defs (concat (rules <$> secs))) cases)
    with (b := mkCS [] (list_to_set (fst <$> indexed (concat (rules <$> secs)))) ∅ : ClassifyState)
    as [st ->]; [|eauto].
  intros b x _. unfold classify_case, case_outcomes.
  destruct (res_fold_total (λ (acc : gset string) ir, l ← Rule_GetOutcomes depth env defs (snd ir);
      Ok (acc ∪ list_to_set l))
    (filter (λ ir, Contains re_rest (path (snd ir)) (case_path x)) (indexed (concat (rules <$> secs)))))
    with (b := ∅ : gset string) as [O ->]; [|cbn; eauto].
  intros acc [i r] [_ Hir]%list_elem_of_filter.
  assert (r ∈ concat (rules <$> secs)) as Hin by (apply elem_of_indexed; eauto).
  apply elem_of_concat in Hin as (l & Hrl & (s & -> & Hs)%list_elem_of_fmap).
  apply (res_filter_Ok _ _ _ _ Hsecs) in Hs as [Hs _].
  destruct (Hr s r Hs Hrl) as (Hset & Hunc & Hh). cbn.
  destruct (proj2 (eval_total env defs rank H Hd depth (value r) k Hh ltac:(eauto)) Hset) as [v Hv].
  unfold Rule_GetOutcomes. rewrite Hv.
  destruct (unconditional_ListSet _ _ _ _ _ Hv Hunc) as [elms ->]. cbn. eauto.
Qed.

Lemma ClassifyTests_total_witness :
  ∃ out, ClassifyTests (λ _ _, false) 10 {["mode" := "release"]} ∅ ex_sections
    [mkCase ["a"; "bc"]; mkCase ["c"]] = Ok out.
Proof.
  apply (ClassifyTests_total _ _ _ _ (λ _, 0) 0 1).
  - split; intros n e *; by rewrite lookup_empty.
  - intros n [e He]. by rewrite lookup_empty in He.
  - intros s Hs. unfold ex_sections in Hs. repeat rewrite elem_of_cons in Hs.
    destruct Hs as [->|[->|Hs]]; [| |by apply not_elem_of_nil in Hs];
      eexists; split_and!; try reflexivity; vm_compute; lia.
  - intros s r Hs Hr. unfold ex_sections in Hs. repeat rewrite elem_of_cons in Hs.
    destruct Hs as [->|[->|Hs]]; [| |by apply not_elem_of_nil in Hs];
      cbn in Hr; apply list_elem_of_singleton in Hr as ->;
      split_and!; try reflexivity; vm_compute; lia.
Defined.

(** A rule whose only alternative is guarded by [if] raises an
    AssertionError as soon as its guard is false. *)
Theorem guarded_rule_asserts depth env defs rid raw pat l c :
  Evaluate depth env defs c = Ok false →
  Rule_GetOutcomes (S depth) env defs (mkRule rid raw pat (Operation l "if" c)) = Err AssertionError.
Proof. intros Hc. unfold Rule_GetOutcomes. cbn. by rewrite Hc. Qed.

Lemma guarded_rule_asserts_witness :
  Rule_GetOutcomes 5 {["mode" := "release"]} ∅
    (mkRule 0 "a" ["a"] (Operation (Outcome "fail") "if"
       (Operation (VariableRef "mode") "==" (Outcome "debug")))) = Err AssertionError.
Proof. apply guarded_rule_asserts. reflexivity. Defined.

(** A section header that does not parse is kept as a section without a
    condition; reading goes on, and classification then raises AttributeError
    for any tests. *)
Theorem malformed_header_breaks_classification re_rest depth env defs st line cond cases :
  re_match HEADER_PATTERN line = Some [cond] →
  ParseCondition (strip cond) = Ok ([malformed (strip cond)], None) →
  (∀ s, s ∈ rd_sections st → ∃ b, section_enabled depth env defs s = Ok b) →
  ∃ st', ReadLine st line = Ok (st', true) ∧
    ClassifyTests re_rest depth env defs (rd_sections st') cases = Err AttributeError.
Proof.
  intros Hm Hp Hs. unfold ReadLine. rewrite Hm, Hp. cbn. eexists. split; [done|]. cbn.
  unfold ClassifyTests.
  assert (res_filter (section_enabled depth env defs) (rd_sections st ++ [mkSection None []])
    = Err AttributeError) as ->; [|done].
  induction (rd_sections st) as [|s l IH]; [done|]. cbn.
  destruct (Hs s) as [b ->]; [set_solver|]. cbn. rewrite IH; [done|]. set_solver.
Qed.

Lemma malformed_header_witness :
  ∃ st', ReadLine (mkRead [mkSection (Some (Constant true)) []] ∅ [] []) "[ $mode = debug ]" = Ok (st', true) ∧
    ClassifyTests (λ _ _, false) 5 ∅ ∅ (rd_sections st') [] = Err AttributeError.
Proof.
  apply (malformed_header_breaks_classification _ _ _ _ _ _ " $mode = debug ").
  - reflexivity.
  - reflexivity.
  - intros s Hs. cbn in Hs. apply list_elem_of_singleton in Hs as ->. by exists true.
Defined.

Lemma count_if_le (p : gset string → bool) l : count_if p l ≤ length l.
Proof. apply length_filter. Qed.

Lemma count_if_cons p t l :
  count_if p (t :: l) = (if p (ct_outcomes t) then 1 else 0) + count_if p l.
Proof. unfold count_if. rewrite filter_cons. by destruct (p (ct_outcomes t)). Qed.

(** Predicates of which at most one holds count at most every element. *)
Lemma count_if_disjoint (ps : list (gset string → bool)) l :
  (∀ o, sum_list ((λ p : gset string → bool, if p o then 1 else 0) <$> ps) ≤ 1) →
  sum_list ((λ p, count_if p l) <$> ps) ≤ length l.
Proof.
  intros Hd. induction l as [|t l IH].
  - clear Hd. induction ps; cbn in *; lia.
  - specialize (Hd (ct_outcomes t)). cbn [length].
    enough (sum_list ((λ p, count_if p (t :: l)) <$> ps) =
      sum_list ((λ p : gset string → bool, if p (ct_outcomes t) then 1 else 0) <$> ps) +
      sum_list ((λ p, count_if p l) <$> ps)) by lia.
    clear. induction ps as [|p ps IH]; [done|]. rewrite !fmap_cons.
    cbn -[count_if] in *. rewrite count_if_cons. lia.
Qed.

Lemma IsFlaky_mem o : IsFlaky o = true → PASS ∈ o ∧ FAIL ∈ o ∧ OKAY ∉ o.
Proof.
  unfold IsFlaky. rewrite !andb_true_iff, !negb_true_iff, !bool_decide_eq_true, !bool_decide_eq_false.
  tauto.
Qed.
Lemma IsFailOk_mem o : IsFailOk o = true → FAIL ∈ o ∧ OKAY ∈ o.
Proof. unfold IsFailOk. rewrite !andb_true_iff, !bool_decide_eq_true. tauto. Qed.
Lemma pass_only_mem (o : gset string) : bool_decide (o = {[PASS]}) = true → PASS ∈ o ∧ FAIL ∉ o.
Proof. rewrite bool_decide_eq_true. intros ->. rewrite !elem_of_singleton. done. Qed.
Lemma fail_only_mem (o : gset string) :
  bool_decide (o = {[FAIL]}) = true → FAIL ∈ o ∧ PASS ∉ o ∧ OKAY ∉ o.
Proof. rewrite bool_decide_eq_true. intros ->. rewrite !elem_of_singleton. done. Qed.

Lemma report_groups_disjoint o :
  sum_list ((λ p : gset string → bool, if p o then 1 else 0) <$>
    [IsFlaky; (λ o, bool_decide (o = {[PASS]})); IsFailOk; (λ o, bool_decide (o = {[FAIL]}))]) ≤ 1.
Proof.
  cbn -[IsFlaky IsFailOk].
  pose proof (IsFlaky_mem o). pose proof (IsFailOk_mem o).
  pose proof (pass_only_mem o). pose proof (fail_only_mem o).
  destruct (IsFlaky o), (IsFailOk o), (bool_decide (o = {[PASS]})), (bool_decide (o = {[FAIL]}));
    cbn; try lia; exfalso; tauto.
Qed.

(** The report's lines count disjoint sets of tests: the skipped tests and
    the four groups add up to at most the total. *)
Theorem report_counts cases :
  let r := report_of cases in
  rp_total r = length cases ∧
  rp_skipped r = length (filter (λ c, SKIP ∈ ct_outcomes c) cases) ∧
  rp_skipped r + rp_nocrash r + rp_pass r + rp_fail_ok r + rp_fail r ≤ rp_total r.
Proof.
  cbn. set (un := filter (λ c, SKIP ∉ ct_outcomes c) cases).
  assert (length cases = length (filter (λ c, SKIP ∈ ct_outcomes c) cases) + length un) as Hlen.
  { unfold un. clear un. induction cases as [|c l IH]; [done|].
    rewrite !filter_cons. do 2 destruct (decide _); try done; cbn; lia. }
  split_and!; [done|lia|].
  pose proof (count_if_disjoint _ un report_groups_disjoint) as Hd. cbn in Hd. lia.
Qed.
