(* ===== verification/TestRun.v ===== *)
(** * Running one test (tools/test.py)

    [CommandOutput], [TestCase], [TestOutput], [RunProcess], [Execute] and
    [GetSpecialCommandProcessor].  The operating system is a parameter: the
    child process, the clock and the temporary files. *)
From S2P Require Import Prelude PyStr StatusExpr.
From Stdlib Require Import QArith.
Open Scope nat_scope.

(** ** Outputs *)

(** [failed] is the cache [TestCase.DidFail] fills. *)
Record CommandOutput := mkOutput {
  exit_code : Z;
  timed_out : bool;
  out_stdout : string;
  out_stderr : string;
  out_failed : option bool }.

Definition new_CommandOutput (exit_code : Z) (timed_out : bool) (stdout stderr : string) :=
  mkOutput exit_code timed_out stdout stderr None.

Definition set_failed (o : CommandOutput) (b : bool) : CommandOutput :=
  mkOutput (exit_code o) (timed_out o) (out_stdout o) (out_stderr o) (Some b).

(** The methods a test suite overrides in its subclass of [TestCase].  An
    override of [IsFailureOutput] may raise: that of test/message reads a file. *)
Class TestCaseMethods := {
  IsNegative : bool;
  IsFailureOutput : CommandOutput → res bool }.

(** The base class. *)
Definition base_IsNegative : bool := false.
Definition base_IsFailureOutput (o : CommandOutput) : res bool := Ok (negb (exit_code o =? 0)%Z).
Definition BaseTestCase : TestCaseMethods :=
  {| IsNegative := base_IsNegative; IsFailureOutput := base_IsFailureOutput |}.

Section Output.
Context `{TestCaseMethods}.

(** [DidFail] returns the cached verdict, computing it the first time. *)
Definition DidFail (o : CommandOutput) : res (bool * CommandOutput) :=
  match out_failed o with
  | Some b => Ok (b, o)
  | None => b ← IsFailureOutput o; Ok (b, set_failed o b)
  end.

Definition SIGABRT : Z := 6.

Definition HasCrashed (windows : bool) (o : CommandOutput) : bool :=
  if windows then
    negb (Z.land 0x80000000 (exit_code o) =? 0)%Z && (Z.land 0x3FFFFF00 (exit_code o) =? 0)%Z
  else if timed_out o then false
  else (exit_code o <? 0)%Z && negb (exit_code o =? - SIGABRT)%Z.

Definition HasTimedOut (o : CommandOutput) : bool := timed_out o.

Definition HasFailed (o : CommandOutput) : res (bool * CommandOutput) :=
  x ← DidFail o; let '(execution_failed, o) := x in
  Ok ((if IsNegative then negb execution_failed else execution_failed), o).

(** [UnexpectedOutput] for a test with expected [outcomes]; the outcome it
    determines is returned too. *)
Definition ActualOutcome (windows : bool) (o : CommandOutput) : res (string * CommandOutput) :=
  if HasCrashed windows o then Ok (CRASH, o)
  else if HasTimedOut o then Ok (TIMEOUT, o)
  else x ← HasFailed o; Ok ((if (x.1 : bool) then FAIL else PASS), x.2).

Definition UnexpectedOutput (windows : bool) (outcomes : gset string) (o : CommandOutput)
    : res (bool * CommandOutput) :=
  x ← ActualOutcome windows o; let '(outcome, o) := x in
  Ok (negb (bool_decide (outcome ∈ outcomes)), o).

Definition HasPreciousOutput (windows store_unexpected_output : bool) (outcomes : gset string)
    (o : CommandOutput) : res (bool * CommandOutput) :=
  x ← UnexpectedOutput windows outcomes o; let '(u, o) := x in Ok (u && store_unexpected_output, o).
End Output.

(** ** RunProcess *)

Definition MAX_SLEEP_TIME : Q := 1 # 10.
Definition INITIAL_SLEEP_TIME : Q := 1 # 10000.
Definition SLEEP_TIME_FACTOR : Q := 5 # 4.

(** What the loop observes: the result of the i-th [process.poll()], the i-th
    [time.time()] compared with [end_time], and the exit code [process.wait()]
    gives after the kill. *)
Record Process := mkProcess {
  poll : nat → option Z;
  now : nat → Q;
  wait : Z }.

(** The loop's variables; [lp_sleeps] are the arguments of [time.sleep], the
    latest first, and [lp_killed] whether [KillProcessWithID] was called. *)
Record LoopState := mkLoop {
  lp_round : nat;
  lp_exit_code : option Z;
  lp_timed_out : bool;
  lp_sleep_time : Q;
  lp_sleeps : list Q;
  lp_killed : bool }.

(** Multiplying by the factor, then capping at the maximum.  Times are exact
    rationals where Python has floats. *)
Definition next_sleep (q : Q) : Q :=
  let q' := Qred (q * SLEEP_TIME_FACTOR) in
  if negb (Qle_bool q' MAX_SLEEP_TIME) then MAX_SLEEP_TIME else q'.

Definition Run_body (p : Process) (end_time : option Q) (st : LoopState) : LoopState :=
  let i := lp_round st in
  let expired := match end_time with None => false | Some t => Qle_bool t (now p i) end in
  if expired then
    mkLoop (S i) (Some (wait p)) true (lp_sleep_time st) (lp_sleeps st) true
  else
    mkLoop (S i) (poll p i) (lp_timed_out st) (next_sleep (lp_sleep_time st))
      (lp_sleep_time st :: lp_sleeps st) (lp_killed st).

Fixpoint Run_loop (fuel : nat) (p : Process) (end_time : option Q) (st : LoopState) : res LoopState :=
  match lp_exit_code st with
  | Some _ => Ok st
  | None =>
      match fuel with
      | 0 => Err OutOfFuel
      | S f => Run_loop f p end_time (Run_body p end_time st)
      end
  end.

Definition loop_start : LoopState := mkLoop 0 None false INITIAL_SLEEP_TIME [] false.

(** [RunProcess], started at time [start] with the given [timeout]: the exit
    code and whether it timed out. *)
Definition RunProcess (fuel : nat) (p : Process) (start : Q) (timeout : option Q) : res (Z * bool) :=
  let end_time := (λ t, (start + t)%Q) <$> timeout in
  st ← Run_loop fuel p end_time loop_start;
  match lp_exit_code st with
  | Some c => Ok (c, lp_timed_out st)
  | None => Err OutOfFuel
  end.

(** [Execute]: the two temporary files' contents when the process has ended. *)
Definition Execute (fuel : nat) (p : Process) (start : Q) (timeout : option Q) (output errors : string)
    : res CommandOutput :=
  '(exit_code, timed_out) ← RunProcess fuel p start timeout;
  Ok (new_CommandOutput exit_code timed_out output errors).

Definition ExecuteNoCapture (fuel : nat) (p : Process) (start : Q) (timeout : option Q)
    : res CommandOutput :=
  '(exit_code, _) ← RunProcess fuel p start timeout;
  Ok (new_CommandOutput exit_code false "" "").

(** ** TestCase.Run: [try: result = ... finally: self.AfterRun(result)]

    [before], [run_command] and [after] are the overridable parts.  When
    [run_command] raises, evaluating [result] in the [finally] clause raises
    UnboundLocalError (a NameError), which replaces the first exception. *)
Definition TestCase_Run {A} (before : res unit) (run_command : res A) (after : A → res unit) : res A :=
  _ ← before;
  match run_command with
  | Ok result => _ ← after result; Ok result
  | Err _ => Err NameError
  end.

(** ** Special commands *)

Definition hex_digit (a : ascii) : option nat :=
  if is_digit a then Some (nat_of_ascii a - 48)
  else if char_in "a" "f" a then Some (nat_of_ascii a - 87)
  else if char_in "A" "F" a then Some (nat_of_ascii a - 55)
  else None.

(** [urllib.unquote] *)
Fixpoint unquote (s : string) : string :=
  match s with
  | EmptyString => EmptyString
  | String a s' =>
      if a =c "%" then
        match s' with
        | String h (String l s'') =>
            match hex_digit h, hex_digit l with
            | Some x, Some y => String (ascii_of_nat (16 * x + y)) (unquote s'')
            | _, _ => String a (unquote s')
            end
        | _ => String a (unquote s')
        end
      else String a (unquote s')
  end.

Definition GetSpecialCommandProcessor (value : option string) (args : list string) : list string :=
  match value with
  | None => args
  | Some v =>
      match find "@" v with
      | None => args
      | Some pos =>
          split_ws (unquote (str_take pos v)) ++ args ++ split_ws (unquote (str_drop (S pos) v))
      end
  end.

(** [EscapeCommand] *)
Definition EscapeCommand (command : list string) : string :=
  join " " ((λ part, if str_mem " " part
                      then String "034" (part +:+ String "034" "") else part) <$> command).

(** ** The verdict and its cache *)

Section Verdict.
Context `{TestCaseMethods}.

(** The output as the process left it. *)
Definition clear_failed (o : CommandOutput) : CommandOutput :=
  mkOutput (exit_code o) (timed_out o) (out_stdout o) (out_stderr o) None.

(** What an output means, without the cache. *)
Definition outcome_of (windows : bool) (o : CommandOutput) : res string :=
  if HasCrashed windows o then Ok CRASH
  else if timed_out o then Ok TIMEOUT
  else b ← IsFailureOutput (clear_failed o); Ok (if xorb IsNegative b then FAIL else PASS).

Definition cache_coherent (o : CommandOutput) : Prop :=
  match out_failed o with None => True | Some b => IsFailureOutput (clear_failed o) = Ok b end.

Lemma DidFail_spec o : cache_coherent o →
  match IsFailureOutput (clear_failed o) with
  | Ok b => DidFail o = Ok (b, set_failed o b)
  | Err e => DidFail o = Err e
  end.
Proof.
  unfold cache_coherent, DidFail. destruct o as [c t so se [b|]]; cbn; [by intros ->|].
  intros _. change (mkOutput c t so se None) with (clear_failed (mkOutput c t so se None)).
  by destruct (IsFailureOutput _).
Qed.

Lemma HasCrashed_ext windows o o' :
  exit_code o = exit_code o' → timed_out o = timed_out o' →
  HasCrashed windows o = HasCrashed windows o'.
Proof. unfold HasCrashed. by intros -> ->. Qed.

(** The outcome that is determined, and the output with the cache as it is left. *)
Lemma ActualOutcome_spec windows o : cache_coherent o →
  match outcome_of windows o with
  | Ok x => ∃ o', ActualOutcome windows o = Ok (x, o') ∧ cache_coherent o' ∧ ActualOutcome windows o' = Ok (x, o')
  | Err e => ActualOutcome windows o = Err e
  end.
Proof.
  intros Hc. unfold ActualOutcome, outcome_of, HasTimedOut, HasFailed.
  destruct (HasCrashed windows o) eqn:Hcr; [exists o; by rewrite Hcr|].
  destruct (timed_out o) eqn:Ht; [exists o; by rewrite Hcr, Ht|].
  pose proof (DidFail_spec o Hc) as Hd. destruct (IsFailureOutput (clear_failed o)) as [b|e] eqn:Ef; rewrite Hd; [|done].
  exists (set_failed o b). cbn. assert (Hcr' : HasCrashed windows (set_failed o b) = false) by by rewrite <-Hcr.
  rewrite Hcr', Ht. split_and!; [by destruct IsNegative, b|exact Ef|by destruct IsNegative, b].
Qed.

(** The verdict on an output is one of crash, timeout, fail and pass, in
    this order of precedence (fail and pass swapped for a negative test), and
    it is unexpected iff the test does not list it; it raises what
    [IsFailureOutput] raises.  Asking again, after the first call filled the
    cache, gives the same answer and does not raise. *)
Theorem UnexpectedOutput_stable windows outcomes o :
  cache_coherent o →
  match outcome_of windows o with
  | Ok x => ∃ u o', UnexpectedOutput windows outcomes o = Ok (u, o') ∧ (u = true ↔ x ∉ outcomes) ∧
      cache_coherent o' ∧ UnexpectedOutput windows outcomes o' = Ok (u, o')
  | Err e => UnexpectedOutput windows outcomes o = Err e
  end.
Proof.
  intros Hc. unfold UnexpectedOutput. pose proof (ActualOutcome_spec windows o Hc) as Ha.
  destruct (outcome_of windows o) as [x|e]; [|by rewrite Ha]. destruct Ha as (o' & -> & Hc' & Ha).
  exists (negb (bool_decide (x ∈ outcomes))), o'. cbn. rewrite Ha.
  split_and!; [done| |done|done]. by rewrite negb_true_iff, bool_decide_eq_false.
Qed.
End Verdict.

Lemma UnexpectedOutput_stable_witness :
  ∃ u o', @UnexpectedOutput BaseTestCase false {[PASS]} (new_CommandOutput 1 false "" "") = Ok (u, o') ∧
    (u = true ↔ FAIL ∉ ({[PASS]} : gset string)) ∧
    @cache_coherent BaseTestCase o' ∧ @UnexpectedOutput BaseTestCase false {[PASS]} o' = Ok (u, o').
Proof. apply (@UnexpectedOutput_stable BaseTestCase false {[PASS]} (new_CommandOutput 1 false "" "")). exact I. Defined.

(** A mask of [m] ones at bit [n] selects a field of the number. *)
Lemma land_field a n m :
  (0 ≤ n)%Z → (0 ≤ m)%Z →
  Z.land (Z.shiftl (Z.ones m) n) a = ((a / 2 ^ n) mod 2 ^ m * 2 ^ n)%Z.
Proof.
  intros Hn Hm. rewrite <- Z.shiftr_div_pow2, <- Z.land_ones, <- Z.shiftl_mul_pow2 by lia.
  apply Z.bits_inj'. intros i Hi. rewrite Z.land_spec, !Z.shiftl_spec by lia.
  destruct (decide (i < n)%Z).
  - assert (∀ x, Z.testbit x (i - n) = false) as Hneg by (intros; apply Z.testbit_neg_r; lia).
    by rewrite !Hneg.
  - rewrite Z.land_spec, Z.shiftr_spec by lia.
    replace (i - n + n)%Z with i by lia. apply andb_comm.
Qed.

(** On Windows an exit code counts as a crash exactly when, as an unsigned
    32-bit number, it is in one of the two blocks 0x80000000-0x800000FF and
    0xC0000000-0xC00000FF; elsewhere exactly when the process was killed by a
    signal other than SIGABRT and did not time out. *)
Theorem HasCrashed_ranges o :
  (0 ≤ exit_code o < 2 ^ 32)%Z →
  (HasCrashed true o = true ↔
     (0x80000000 ≤ exit_code o ≤ 0x800000FF)%Z ∨ (0xC0000000 ≤ exit_code o ≤ 0xC00000FF)%Z) ∧
  HasCrashed false o = false ∧
  (∀ c so se, HasCrashed false (new_CommandOutput c false so se) = true ↔ (c < 0 ∧ c ≠ -6)%Z).
Proof.
  intros Hc. split_and!.
  - unfold HasCrashed. rewrite andb_true_iff, negb_true_iff, Z.eqb_neq, Z.eqb_eq.
    change 0x80000000%Z with (Z.shiftl (Z.ones 1) 31).
    change 0x3FFFFF00%Z with (Z.shiftl (Z.ones 22) 8).
    rewrite !land_field by lia.
    change (Z.shiftl (Z.ones 1) 31) with 2147483648%Z.
    change (2 ^ 31)%Z with 2147483648%Z. change (2 ^ 1)%Z with 2%Z.
    change (2 ^ 8)%Z with 256%Z. change (2 ^ 22)%Z with 4194304%Z.
    change (2 ^ 32)%Z with 4294967296%Z in Hc.
    Z.to_euclidean_division_equations; lia.
  - unfold HasCrashed. destruct (timed_out o); [done|].
    apply andb_false_iff. left. apply Z.ltb_ge. lia.
  - intros c so se. unfold HasCrashed, SIGABRT. cbn.
    rewrite andb_true_iff, negb_true_iff, Z.ltb_lt, Z.eqb_neq. done.
Qed.

Lemma HasCrashed_ranges_witness :
  HasCrashed true (new_CommandOutput 0xC0000005 false "" "") = true.
Proof.
  apply (HasCrashed_ranges (new_CommandOutput 0xC0000005 false "" "")); cbn; lia.
Defined.

(** ** The polling loop *)

(** Whether the deadline has passed at round [i]. *)
Definition expired (p : Process) (end_time : option Q) (i : nat) : bool :=
  match end_time with None => false | Some t => Qle_bool t (now p i) end.

Lemma next_sleep_bounds q :
  (0 <= q)%Q → (q <= next_sleep q \/ next_sleep q == MAX_SLEEP_TIME)%Q ∧ (next_sleep q <= MAX_SLEEP_TIME)%Q.
Proof.
  intros Hq. unfold next_sleep. destruct (Qle_bool _ _) eqn:E; cbn [negb].
  - apply Qle_bool_iff in E. split; [left|done]. rewrite Qred_correct.
    unfold SLEEP_TIME_FACTOR. setoid_rewrite <- (Qmult_1_r q) at 1.
    rewrite !(Qmult_comm q). apply Qmult_le_compat_r; [done|done].
  - split; [by right|apply Qle_refl].
Qed.

(** Every sleep so far, and the next one, is between the two limits, and the
    next one is not shorter than any before. *)
Record sleeps_ok (st : LoopState) : Prop := {
  so_low : (INITIAL_SLEEP_TIME <= lp_sleep_time st)%Q;
  so_high : (lp_sleep_time st <= MAX_SLEEP_TIME)%Q;
  so_past : Forall (λ q, INITIAL_SLEEP_TIME <= q /\ q <= lp_sleep_time st)%Q (lp_sleeps st) }.

Lemma next_sleep_grows q :
  (INITIAL_SLEEP_TIME <= q)%Q → (q <= MAX_SLEEP_TIME)%Q → (q <= next_sleep q)%Q.
Proof.
  intros Hlo Hhi. assert (0 <= q)%Q as H0 by (eapply Qle_trans; [|exact Hlo]; done).
  destruct (next_sleep_bounds q H0) as [[H|H] _]; [done|]. by rewrite H.
Qed.

Lemma Run_body_sleeps p et st : sleeps_ok st → sleeps_ok (Run_body p et st).
Proof.
  intros [Hlo Hhi Hp]. unfold Run_body. fold (expired p et (lp_round st)).
  destruct (expired p et (lp_round st)); [by split|].
  pose proof (next_sleep_grows _ Hlo Hhi) as Hg.
  assert (0 <= lp_sleep_time st)%Q as H0 by (eapply Qle_trans; [|exact Hlo]; done).
  split; cbn.
  - by eapply Qle_trans.
  - by apply next_sleep_bounds.
  - constructor; [done|]. eapply Forall_impl; [exact Hp|]. cbn.
    intros x [? ?]. split; [done|]. by eapply Qle_trans.
Qed.

Lemma Run_body_running p et st :
  expired p et (lp_round st) = false →
  Run_body p et st =
  mkLoop (S (lp_round st)) (poll p (lp_round st)) (lp_timed_out st) (next_sleep (lp_sleep_time st))
    (lp_sleep_time st :: lp_sleeps st) (lp_killed st).
Proof. unfold Run_body, expired. by intros ->. Qed.

(** [n] rounds in which nothing happens. *)
Lemma Run_quiet p et n :
  (∀ i, i < n → expired p et i = false ∧ poll p i = None) →
  let st := Nat.iter n (Run_body p et) loop_start in
  lp_round st = n ∧ lp_exit_code st = None ∧ lp_timed_out st = false ∧ lp_killed st = false ∧
  length (lp_sleeps st) = n ∧ sleeps_ok st.
Proof.
  induction n as [|n IH]; intros Hq.
  - split_and!; done.
  - change (Nat.iter (S n) (Run_body p et) loop_start)
      with (Run_body p et (Nat.iter n (Run_body p et) loop_start)).
    destruct IH as (H1 & H2 & H3 & H4 & H5 & H6); [auto with lia|].
    destruct (Hq n) as [He Hp]; [lia|]. pose proof (Run_body_sleeps p et _ H6) as H7.
    rewrite <- H1 in He, Hp. rewrite (Run_body_running _ _ _ He), Hp in *.
    cbn [lp_round lp_exit_code lp_timed_out lp_killed lp_sleeps length]. split_and!; auto.
Qed.

Lemma Run_loop_quiet p et n f :
  (∀ i, i < n → expired p et i = false ∧ poll p i = None) →
  Run_loop (n + f) p et loop_start = Run_loop f p et (Nat.iter n (Run_body p et) loop_start).
Proof.
  revert f. induction n as [|n IH]; intros f Hq; [done|].
  rewrite Nat.add_succ_comm, IH by auto with lia.
  destruct (Run_quiet p et n) as (_ & H2 & _); [auto with lia|].
  cbn [Run_loop]. by rewrite H2.
Qed.

(** When nothing happens before round [n] and at round [n] either the
    deadline has passed or the process has exited, [RunProcess] returns after
    that round: a timeout (the process killed, the exit code that of the wait)
    if the deadline passed, the polled exit code otherwise.  It has slept once
    per quiet round, never longer than [MAX_SLEEP_TIME]. *)
Theorem RunProcess_result p start timeout n fuel :
  let et := (λ t, (start + t)%Q) <$> timeout in
  (∀ i, i < n → expired p et i = false ∧ poll p i = None) →
  expired p et n = true ∨ is_Some (poll p n) →
  n < fuel →
  ∃ st, Run_loop fuel p et loop_start = Ok st ∧ sleeps_ok st ∧
    lp_killed st = expired p et n ∧
    length (lp_sleeps st) = (if expired p et n then n else S n) ∧
    RunProcess fuel p start timeout =
      Ok (if expired p et n then (wait p, true) else (default 0%Z (poll p n), false)).
Proof.
  intros et Hq Hn Hf. unfold RunProcess. fold et.
  destruct (Run_quiet p et n Hq) as (H1 & H2 & H3 & H4 & H5 & H6).
  pose proof (Run_body_sleeps p et _ H6) as H7.
  replace fuel with (n + S (fuel - n - 1)) by lia. rewrite Run_loop_quiet by done.
  cbn [Run_loop]. rewrite H2.
  set (st := Nat.iter n (Run_body p et) loop_start) in *.
  assert (is_Some (lp_exit_code (Run_body p et st)) ∧
    lp_killed (Run_body p et st) = expired p et n ∧
    length (lp_sleeps (Run_body p et st)) = (if expired p et n then n else S n) ∧
    (default 0%Z (lp_exit_code (Run_body p et st)), lp_timed_out (Run_body p et st)) =
    (if expired p et n then (wait p, true) else (default 0%Z (poll p n), false))) as ([c Hc] & Hk & Hl & Hr).
  { unfold Run_body. fold (expired p et (lp_round st)). rewrite H1.
    destruct (expired p et n); cbn; [by rewrite H5; eauto|].
    rewrite H3, H4, H5. destruct Hn as [|Hn]; [done|]. eauto. }
  exists (Run_body p et st).
  assert (Run_loop (fuel - n - 1) p et (Run_body p et st) = Ok (Run_body p et st)) as ->.
  { destruct (fuel - n - 1); cbn; by rewrite Hc. }
  cbn. rewrite Hc in Hr |- *. cbn in Hr. by rewrite Hr.
Qed.

Definition ex_process : Process := mkProcess (λ i, if i <? 7 then None else Some 3%Z) (λ i, inject_Z (Z.of_nat i)) (-15).

Lemma RunProcess_result_witness :
  RunProcess 10 ex_process 0 None = Ok (3%Z, false) ∧
  RunProcess 10 ex_process 0 (Some (inject_Z 4)) = Ok ((-15)%Z, true).
Proof.
  split.
  - destruct (RunProcess_result ex_process 0 None 7 10) as (st & _ & _ & _ & _ & H).
    + intros i Hi. do 7 (destruct i as [|i]; [split; reflexivity|]). lia.
    + right. by exists 3%Z.
    + lia.
    + exact H.
  - destruct (RunProcess_result ex_process 0 (Some (inject_Z 4)) 4 10) as (st & _ & _ & _ & _ & H).
    + intros i Hi. do 4 (destruct i as [|i]; [split; reflexivity|]). lia.
    + by left.
    + lia.
    + exact H.
Defined.

(** An exception of the command never leaves [TestCase.Run] as itself: the
    [finally] clause reads the unassigned [result], so whatever was raised
    (an IOError, say) is replaced by an UnboundLocalError. *)
Theorem TestCase_Run_masks {A} (before : res unit) (e : exn) (after : A → res unit) :
  before = Ok tt → TestCase_Run before (Err e) after = Err NameError.
Proof. by intros ->. Qed.

Lemma TestCase_Run_masks_witness :
  TestCase_Run (Ok tt) (Err IOError : res nat) (λ _, Ok tt) = Err NameError.
Proof. apply TestCase_Run_masks. reflexivity. Defined.
