(* ===== verification/TestPrint.v ===== *)
(** * Progress indicators: what they print (tools/test.py)

    The classes [SimpleProgressIndicator] to [MonochromeProgressIndicator].
    Python 2's print statement is kept as an event, because a trailing comma
    makes it write no newline: [Println s] is [print s], [PrintComma s] is
    [print s,], [WriteOut s] is [sys.stdout.write(s)]. *)
From S2P Require Import Prelude PyStr StatusExpr StatusFile TestRun.

Inductive io := Println (s : string) | PrintComma (s : string) | WriteOut (s : string) | Flush.

(** ** Cases and outputs as the indicators see them *)

Record Case := mkTestCase {
  c_label : string;
  c_path : list string;
  c_outcomes : gset string;
  c_methods : TestCaseMethods }.

Record Output := mkTestOutput {
  o_test : Case;
  o_command : list string;
  o_output : CommandOutput }.

Section Platform.
Context (windows : bool).

(** [output.UnexpectedOutput()]: the verdict, and the output with its cache. *)
Definition judge (o : Output) : res (bool * Output) :=
  '(u, c) ← @UnexpectedOutput (c_methods (o_test o)) windows (c_outcomes (o_test o)) (o_output o);
  Ok (u, mkTestOutput (o_test o) (o_command o) c).
(** The verdict where there is one; the hooks below are called after it was determined. *)
Definition o_unexpected (o : Output) : bool := match judge o with Ok (u, _) => u | Err _ => false end.
Definition o_crashed (o : Output) : bool := HasCrashed windows (o_output o).
Definition o_timed_out (o : Output) : bool := HasTimedOut (o_output o).

(** The counters of [ProgressIndicator]. *)
Record Counters := mkCounters {
  succeeded : nat;
  remaining_cases : nat;
  total : nat;
  failed : list Output;
  crashed : nat }.

Definition init_counters (cases : list Case) : Counters :=
  mkCounters 0 (length cases) (length cases) [] 0.

Definition PrintFailureHeader (test : Case) : list io :=
  let negative_marker := if @IsNegative (c_methods test) then "[negative] " else "" in
  [ Println ("=== " +:+ c_label test +:+ " " +:+ negative_marker +:+ "===");
    Println ("Path: " +:+ join "/" (c_path test)) ].

(** ** SimpleProgressIndicator *)

Definition Simple_Starting (cases : list Case) : list io :=
  [Println ("Running " +:+ str_of_nat (length cases) +:+ " tests")].

Definition Simple_failure (f : Output) : list io :=
  PrintFailureHeader (o_test f)
  ++ (if out_stderr (o_output f) =s "" then []
      else [Println "--- stderr ---"; Println (strip (out_stderr (o_output f)))])
  ++ (if out_stdout (o_output f) =s "" then []
      else [Println "--- stdout ---"; Println (strip (out_stdout (o_output f)))])
  ++ [Println ("Command: " +:+ EscapeCommand (o_command f))]
  ++ (if o_crashed f then [Println "--- CRASHED ---"] else [])
  ++ (if o_timed_out f then [Println "--- TIMEOUT ---"] else []).

Definition Simple_Done (c : Counters) : list io :=
  [Println ""]
  ++ concat (Simple_failure <$> failed c)
  ++ (if length (failed c) =? 0 then
        [Println "==="; Println "=== All tests succeeded"; Println "==="]
      else
        [Println ""; Println "===";
         Println ("=== " +:+ str_of_nat (length (failed c)) +:+ " tests failed")]
        ++ (if 0 <? crashed c
            then [Println ("=== " +:+ str_of_nat (crashed c) +:+ " tests CRASHED")] else [])
        ++ [Println "==="]).

(** ** VerboseProgressIndicator *)

Definition Verbose_AboutToRun (case : Case) : list io :=
  [Println ("Starting " +:+ c_label case +:+ "..."); Flush].

Definition Verbose_HasRun (o : Output) : list io :=
  let outcome := if o_unexpected o then (if o_crashed o then "CRASH" else "FAIL") else "pass" in
  [Println ("Done running " +:+ c_label (o_test o) +:+ ": " +:+ outcome)].

(** ** DotsProgressIndicator *)

Definition Dots_HasRun (c : Counters) (o : Output) : list io :=
  let n := succeeded c + length (failed c) in
  (if (1 <? n) && (n mod 50 =? 1) then [WriteOut nl_str] else [])
  ++ (if o_unexpected o then
        (if o_crashed o then [WriteOut "C"; Flush]
         else if o_timed_out o then [WriteOut "T"; Flush] else [WriteOut "F"; Flush])
      else [WriteOut "."; Flush]).

(** ** CompactProgressIndicator *)

(** [Truncate(str, length)] for a length of at least 3. *)
Definition Truncate (str : string) (length : nat) : string :=
  if negb (length =? 0) && (length - 3 <? String.length str)
  then str_take (length - 3) str +:+ "..." else str.

(** [%02i] and [% 4d] *)
Definition fmt_02 (n : nat) : string :=
  let s := str_of_nat n in str_repeat (2 - String.length s) "0" +:+ s.
Definition fmt_sp4 (n : nat) : string :=
  let s := " " +:+ str_of_nat n in str_repeat (4 - String.length s) " " +:+ s.

Record Templates := mkTemplates {
  status_line : nat → nat → nat → nat → nat → string → string;
  tpl_stdout : string → string;
  tpl_stderr : string → string;
  ClearLine : nat → list io }.

Definition esc : ascii := "027".
Definition sgr (code : string) : string := String esc ("[" +:+ code +:+ "m").

Definition Color_templates : Templates := mkTemplates
  (λ mins secs remaining passed failed test,
     "[" +:+ fmt_02 mins +:+ ":" +:+ fmt_02 secs +:+ "|" +:+ sgr "34" +:+ "%" +:+ fmt_sp4 remaining
     +:+ sgr "0" +:+ "|" +:+ sgr "32" +:+ "+" +:+ fmt_sp4 passed +:+ sgr "0" +:+ "|" +:+ sgr "31"
     +:+ "-" +:+ fmt_sp4 failed +:+ sgr "0" +:+ "]: " +:+ test)
  (λ s, sgr "1" +:+ s +:+ sgr "0")
  (λ s, sgr "31" +:+ s +:+ sgr "0")
  (λ _, [PrintComma (String esc ("[1K" +:+ String cr ""))]).

Definition Mono_templates : Templates := mkTemplates
  (λ mins secs remaining passed failed test,
     "[" +:+ fmt_02 mins +:+ ":" +:+ fmt_02 secs +:+ "|%" +:+ fmt_sp4 remaining
     +:+ "|+" +:+ fmt_sp4 passed +:+ "|-" +:+ fmt_sp4 failed +:+ "]: " +:+ test)
  (λ s, s)
  (λ s, s)
  (λ last_line_length,
     [PrintComma (String cr (str_repeat last_line_length " " +:+ String cr ""))]).

(** [PrintProgress(name)], with [elapsed] whole seconds since the start; the
    new [last_status_length] and the output. *)
Definition PrintProgress (tpl : Templates) (c : Counters) (elapsed last_status_length : nat)
    (name : string) : nat * list io :=
  let status := status_line tpl (elapsed / 60) (elapsed mod 60)
                  ((total c - remaining_cases c) * 100 / total c)
                  (succeeded c) (length (failed c)) name in
  let status := Truncate status 78 in
  (String.length status, ClearLine tpl last_status_length ++ [PrintComma status; Flush]).

Definition Compact_Done (tpl : Templates) (c : Counters) (elapsed last : nat) : nat * list io :=
  PrintProgress tpl c elapsed last "Done".

Definition Compact_AboutToRun (tpl : Templates) (c : Counters) (elapsed last : nat) (case : Case)
    : nat * list io :=
  PrintProgress tpl c elapsed last (c_label case).

Definition Compact_HasRun (tpl : Templates) (last_status_length : nat) (o : Output) : list io :=
  if o_unexpected o then
    ClearLine tpl last_status_length ++ PrintFailureHeader (o_test o)
    ++ (let stdout := strip (out_stdout (o_output o)) in
        if stdout =s "" then [] else [Println (tpl_stdout tpl stdout)])
    ++ (let stderr := strip (out_stderr (o_output o)) in
        if stderr =s "" then [] else [Println (tpl_stderr tpl stderr)])
    ++ [Println ("Command: " +:+ EscapeCommand (o_command o))]
    ++ (if o_crashed o then [Println "--- CRASHED ---"] else [])
    ++ (if o_timed_out o then [Println "--- TIMEOUT ---"] else [])
  else [].
End Platform.

(** ** Properties *)

(** The status line of the compact indicators never exceeds 78 characters,
    and the length they remember for erasing it is the length they printed. *)
Theorem PrintProgress_fits tpl c elapsed last name :
  ∃ status, PrintProgress tpl c elapsed last name =
    (String.length status, ClearLine tpl last ++ [PrintComma status; Flush]) ∧
    String.length status ≤ 78.
Proof.
  unfold PrintProgress. eexists. split; [reflexivity|]. unfold Truncate.
  destruct (_ && _) eqn:E.
  - rewrite str_length_app, str_take_length. cbn [String.length]. lia.
  - cbn [negb Nat.eqb andb] in E. apply Nat.ltb_ge in E. lia.
Qed.
