(* ===== verification/TestProgress.v ===== *)
(** * Running the tests on several threads (tools/test.py)

    [ProgressIndicator.Run] starts [tasks - 1] threads and runs [RunSingle]
    on the main thread too.  The interleavings of their steps are a step
    relation on the shared state.  A step is what a thread does between two
    points where another thread can be observed: the test of
    [self.terminate], the atomic [queue.get_nowait], taking the lock, the body
    of a critical section with the release that ends it, and [case.Run].  The
    critical sections are not in a [try]: an exception in one ends the thread,
    and the lock is never released. *)
From S2P Require Import Prelude PyStr StatusExpr TestRun TestPrint.

(** What [case.Run()] does: it returns an output or raises. *)
Inductive RunResult := Returned (o : Output) | RaisedIOError | RaisedOther.

(** Where a thread is in [RunSingle]. *)
Inductive PC :=
| PLoop                       (* at [while not self.terminate] *)
| PGet                        (* at [self.queue.get_nowait()] *)
| PAcquire1 (case : Case)     (* waiting for the lock before [AboutToRun] *)
| PAbout (case : Case)        (* holding it *)
| PRun (case : Case)          (* at [case.Run()] *)
| PRan (case : Case) (o : Output)      (* at [if self.terminate] *)
| PAcquire2 (case : Case) (o : Output) (* waiting for the lock to record *)
| PRecord (case : Case) (o : Output)   (* holding it *)
| PDone                       (* returned *)
| PDead                       (* ended by an exception *)
| PDeadHolding (recorded : bool). (* ended by one while holding the lock; whether its case was counted *)

Record Shared := mkShared {
  sh_queue : list Case;
  sh_counters : Counters;
  sh_terminate : bool;
  sh_lock : option nat;
  sh_log : list io }.

Record State := mkState { shared : Shared; threads : list PC }.

Section Run.
Context (windows : bool).
(** The indicator's two hooks: what they may print, and whether they return or
    raise; and what each case may do when run. *)
Context (AboutToRun : Counters → Case → list io → bool → Prop) (HasRun : Counters → Output → list io → bool → Prop).
Context (can_run : Case → RunResult → Prop).

(** The recording section of [RunSingle], for an output that was judged. *)
Definition record_output (c : Counters) (o : Output) : Counters :=
  if o_unexpected windows o then
    mkCounters (succeeded c) (remaining_cases c - 1) (total c) (failed c ++ [o])
      (if o_crashed windows o then S (crashed c) else crashed c)
  else
    mkCounters (S (succeeded c)) (remaining_cases c - 1) (total c) (failed c) (crashed c).

Definition set_lock (sh : Shared) (l : option nat) : Shared :=
  mkShared (sh_queue sh) (sh_counters sh) (sh_terminate sh) l (sh_log sh).
Definition set_log (sh : Shared) (out : list io) : Shared :=
  mkShared (sh_queue sh) (sh_counters sh) (sh_terminate sh) (sh_lock sh) (sh_log sh ++ out).
Definition set_counters (sh : Shared) (c : Counters) : Shared :=
  mkShared (sh_queue sh) c (sh_terminate sh) (sh_lock sh) (sh_log sh).
Definition set_queue (sh : Shared) (q : list Case) : Shared :=
  mkShared q (sh_counters sh) (sh_terminate sh) (sh_lock sh) (sh_log sh).
Definition set_terminate (sh : Shared) : Shared :=
  mkShared (sh_queue sh) (sh_counters sh) true (sh_lock sh) (sh_log sh).

(** An exception that leaves [RunSingle]: on the main thread (number 0) [Run]
    catches it, sets [terminate] and raises it again; any other thread just
    ends. *)
Definition thread_dies (t : nat) (sh : Shared) : Shared :=
  if t =? 0 then set_terminate sh else sh.

(** One step of thread [t]: shared state and position before and after. *)
Inductive thread_step (t : nat) : Shared → PC → list Output → Shared → PC → Prop :=
| TS_stop sh : sh_terminate sh = true → thread_step t sh PLoop [] sh PDone
| TS_continue sh : sh_terminate sh = false → thread_step t sh PLoop [] sh PGet
| TS_empty sh : sh_queue sh = [] → thread_step t sh PGet [] sh PDone
| TS_get sh case q :
    sh_queue sh = case :: q → thread_step t sh PGet [] (set_queue sh q) (PAcquire1 case)
| TS_lock1 sh case :
    sh_lock sh = None → thread_step t sh (PAcquire1 case) [] (set_lock sh (Some t)) (PAbout case)
| TS_about sh case out :
    AboutToRun (sh_counters sh) case out true →
    thread_step t sh (PAbout case) [] (set_lock (set_log sh out) None) (PRun case)
| TS_about_raise sh case out :
    AboutToRun (sh_counters sh) case out false →
    thread_step t sh (PAbout case) [] (thread_dies t (set_log sh out)) (PDeadHolding false)
| TS_run sh case o :
    can_run case (Returned o) → thread_step t sh (PRun case) [o] sh (PRan case o)
| TS_ioerror_ok sh case :
    can_run case RaisedIOError → sh_terminate sh = true → thread_step t sh (PRun case) [] sh PDone
| TS_ioerror sh case :
    can_run case RaisedIOError → sh_terminate sh = false →
    thread_step t sh (PRun case) [] (thread_dies t sh) PDead
| TS_raise sh case :
    can_run case RaisedOther → thread_step t sh (PRun case) [] (thread_dies t sh) PDead
| TS_abandon sh case o : sh_terminate sh = true → thread_step t sh (PRan case o) [] sh PDone
| TS_keep sh case o : sh_terminate sh = false → thread_step t sh (PRan case o) [] sh (PAcquire2 case o)
| TS_lock2 sh case o :
    sh_lock sh = None → thread_step t sh (PAcquire2 case o) [] (set_lock sh (Some t)) (PRecord case o)
| TS_record sh case o u o' out :
    judge windows o = Ok (u, o') →
    let sh' := set_counters sh (record_output (sh_counters sh) o') in
    HasRun (sh_counters sh') o' out true →
    thread_step t sh (PRecord case o) [] (set_lock (set_log sh' out) None) PLoop
| TS_judge_raise sh case o e :
    judge windows o = Err e →
    thread_step t sh (PRecord case o) [] (thread_dies t sh) (PDeadHolding false)
| TS_hasrun_raise sh case o u o' out :
    judge windows o = Ok (u, o') →
    let sh' := set_counters sh (record_output (sh_counters sh) o') in
    HasRun (sh_counters sh') o' out false →
    thread_step t sh (PRecord case o) [] (thread_dies t (set_log sh' out)) (PDeadHolding true).

(** A step of some thread, with the outputs that [case.Run] returned in it. *)
Inductive lstep : State → list Output → State → Prop :=
| Step t st pc l sh' pc' :
    threads st !! t = Some pc →
    thread_step t (shared st) pc l sh' pc' →
    lstep st l (mkState sh' (<[t := pc']> (threads st))).
Definition step (st st' : State) : Prop := ∃ l, lstep st l st'.
(** An execution, with all outputs that were returned in it. *)
Inductive exec (st : State) : list Output → State → Prop :=
| exec_nil : exec st [] st
| exec_step returned st1 l st2 : exec st returned st1 → lstep st1 l st2 → exec st (returned ++ l) st2.

(** The state in which [Run(tasks)] has started all threads. *)
Definition initial (cases : list Case) (tasks : nat) : State :=
  mkState (mkShared cases (init_counters cases) false None []) (replicate (S (tasks - 1)) PLoop).

(** [return not self.failed] *)
Definition Run_returns (st : State) : bool := bool_decide (length (failed (sh_counters (shared st))) = 0).

(** ** The invariant *)

Definition in_flight (pc : PC) : list Case :=
  match pc with
  | PAcquire1 c | PAbout c | PRun c => [c]
  | PRan c _ | PAcquire2 c _ | PRecord c _ => [c]
  | _ => []
  end.

Definition holds_lock (pc : PC) : bool :=
  match pc with PAbout _ | PRecord _ _ | PDeadHolding _ => true | _ => false end.

(** A mark for a thread that ended by an exception before its case was counted. *)
Definition dead_mark (pc : PC) : list unit := match pc with PDead | PDeadHolding false => [tt] | _ => [] end.
Definition died (pc : PC) : bool := match pc with PDead | PDeadHolding _ => true | _ => false end.
Definition finished (pc : PC) : bool := match pc with PDone | PDead | PDeadHolding _ => true | _ => false end.
(** The output that a thread has to record. *)
Definition carried (pc : PC) : list Output :=
  match pc with PRan _ o | PAcquire2 _ o | PRecord _ o => [o] | _ => [] end.

(** The counters after the outputs [recorded], in that order. *)
Record counters_ok (cases : list Case) (c : Counters) (recorded : list Output) : Prop := {
  co_failed : failed c = filter (λ o, o_unexpected windows o) recorded;
  co_succeeded : succeeded c = length (filter (λ o, o_unexpected windows o = false) recorded);
  co_remaining : remaining_cases c + length recorded = length cases;
  co_total : total c = length cases;
  co_crashed : crashed c = length (filter (λ o, o_crashed windows o) (failed c)) }.

(** Where the cases are: in the queue, with a thread, recorded, or [lost] with
    a thread that ended before recording them. *)
Record flow_ok (cases : list Case) (sh : Shared) (ts : list PC)
    (recorded : list Output) (lost : list Case) : Prop := {
  fl_cases : cases ≡ₚ sh_queue sh ++ concat (in_flight <$> ts) ++ (o_test <$> recorded) ++ lost;
  fl_test : Forall (λ pc, match pc with PRan c o | PAcquire2 c o | PRecord c o => o_test o = c
                           | _ => True end) ts;
  fl_lost : sh_terminate sh = false → length lost = length (concat (dead_mark <$> ts));
  fl_term : sh_terminate sh = true → ∃ pc, ts !! 0 = Some pc ∧ died pc = true;
  fl_done : PDone ∈ ts → sh_terminate sh = true ∨ sh_queue sh = [] }.

(** Where the outputs that were returned are: judged and recorded, with a thread,
    or [dropped], because they could not be judged or the run was interrupted. *)
Definition judged_as (o o' : Output) : Prop := ∃ u, judge windows o = Ok (u, o').
Record outputs_ok (sh : Shared) (ts : list PC) (returned recorded dropped : list Output) : Prop := {
  ou_returned : ∃ raw, returned ≡ₚ raw ++ concat (carried <$> ts) ++ dropped ∧ Forall2 judged_as raw recorded;
  ou_dropped : sh_terminate sh = false → Forall (λ o, ∃ e, judge windows o = Err e) dropped }.

(** The lock is held exactly by the thread inside a critical section. *)
Definition lock_ok (sh : Shared) (ts : list PC) : Prop :=
  (∀ t pc, ts !! t = Some pc → holds_lock pc = true ↔ sh_lock sh = Some t) ∧
  (∀ t, sh_lock sh = Some t → t < length ts).

Definition inv (cases : list Case) (returned : list Output) (st : State) : Prop :=
  lock_ok (shared st) (threads st) ∧
  ∃ recorded lost dropped, counters_ok cases (sh_counters (shared st)) recorded ∧
    flow_ok cases (shared st) (threads st) recorded lost ∧
    outputs_ok (shared st) (threads st) returned recorded dropped.

(** ** Preservation *)

Lemma concat_insert {A} (f : PC → list A) (ts : list PC) t pc pc' :
  ts !! t = Some pc →
  ∃ rest, concat (f <$> ts) ≡ₚ f pc ++ rest ∧ concat (f <$> <[t := pc']> ts) ≡ₚ f pc' ++ rest.
Proof.
  intros Ht. exists (concat (f <$> take t ts) ++ concat (f <$> drop (S t) ts)).
  rewrite insert_take_drop by by eapply lookup_lt_Some.
  rewrite <- (take_drop_middle ts t pc Ht) at 1.
  rewrite !fmap_app, !fmap_cons, !concat_app. cbn [concat].
  split; apply Permutation_app_swap_app.
Qed.

Lemma elem_of_insert_inv {A} (l : list A) i x y : x ∈ <[i := y]> l → x = y ∨ x ∈ l.
Proof.
  rewrite !list_elem_of_lookup. intros [j Hj].
  destruct (decide (i = j)) as [->|Hne].
  - destruct (decide (j < length l)) as [Hlt|Hge].
    + rewrite list_lookup_insert_eq in Hj by done. left. congruence.
    + rewrite list_insert_ge in Hj by lia. eauto.
  - rewrite list_lookup_insert_ne in Hj by done. eauto.
Qed.

(** A [TestOutput] carries the test that was run. *)
Context (run_test : ∀ c o, can_run c (Returned o) → o_test o = c).

(** A judged output has its verdict, and is that of the same test. *)
Lemma judge_cached o u o' : judge windows o = Ok (u, o') →
  o_test o' = o_test o ∧ judge windows o' = Ok (u, o') ∧ o_unexpected windows o' = u.
Proof.
  assert (∀ m ws outcomes c u c', @UnexpectedOutput m ws outcomes c = Ok (u, c') → @UnexpectedOutput m ws outcomes c' = Ok (u, c')) as Hu.
  { intros m ws outcomes c u1 c'. unfold UnexpectedOutput, ActualOutcome, HasFailed, DidFail, HasTimedOut.
    destruct (HasCrashed ws c) eqn:Hc; cbn; [intros [= <- <-]; by rewrite Hc|].
    destruct (timed_out c) eqn:Ht; cbn; [intros [= <- <-]; by rewrite Hc, Ht|].
    destruct (out_failed c) as [b|] eqn:Hf; cbn; [intros [= <- <-]; by rewrite Hc, Ht, Hf|].
    destruct (IsFailureOutput c) as [b|e]; cbn; [|done]. intros [= <- <-].
    assert (HasCrashed ws (set_failed c b) = false) as -> by done. cbn. by rewrite Ht. }
  unfold judge. destruct (UnexpectedOutput _ _ _) as [[u1 c]|e] eqn:E; cbn; [|done]. intros [= -> <-].
  apply Hu in E. unfold o_unexpected, judge. cbn. by rewrite E.
Qed.

Local Ltac step_cases Hs :=
  destruct Hs; cbn in *; unfold thread_dies;
  repeat match goal with |- context [?x =? 0] => destruct (x =? 0) end; cbn in *.

Lemma lock_step t sh pc l sh' pc' ts :
  ts !! t = Some pc → lock_ok sh ts → thread_step t sh pc l sh' pc' → lock_ok sh' (<[t := pc']> ts).
Proof.
  intros Ht [Hl Hlen] Hs. pose proof (lookup_lt_Some _ _ _ Ht) as Hlt.
  pose proof (Hl t pc Ht) as Hlt'. split.
  - intros u pcu. destruct (decide (t = u)) as [<-|Hne].
    + rewrite list_lookup_insert_eq by done. intros [= <-]. step_cases Hs; naive_solver.
    + rewrite list_lookup_insert_ne by done. intros Hu. rewrite (Hl u pcu Hu).
      step_cases Hs; naive_solver.
  - intros u. rewrite length_insert. step_cases Hs; naive_solver.
Qed.

Lemma counters_record cases c recorded o :
  counters_ok cases c recorded → length recorded < length cases →
  counters_ok cases (record_output c o) (recorded ++ [o]).
Proof.
  intros [Hf Hs Hr Ht Hc] Hlen. unfold record_output.
  destruct (o_unexpected windows o) eqn:Hu; split; cbn;
    rewrite ?filter_app, ?length_app; cbn; rewrite ?filter_cons, ?Hu, ?Hs, ?Hc, ?Hf; cbn;
    rewrite ?app_nil_r; try lia; try done.
  all: try destruct (o_crashed windows o); case_decide; cbn in *; naive_solver lia.
Qed.

(** What a step records: the output as it was judged. *)
Definition records (pc pc' : PC) : list Output :=
  match pc, pc' with
  | PRecord _ o, (PLoop | PDeadHolding true) => match judge windows o with Ok (_, o') => [o'] | Err _ => [] end
  | _, _ => []
  end.

(** What a step moves: the case it takes off the queue, records or loses. *)
Lemma flow_step cases t sh pc l sh' pc' ts recorded lost :
  ts !! t = Some pc → thread_step t sh pc l sh' pc' → flow_ok cases sh ts recorded lost →
  ∃ lost', flow_ok cases sh' (<[t := pc']> ts) (recorded ++ records pc pc') lost'.
Proof.
  intros Ht Hs [Hc Htest Hlost Hterm Hdone].
  destruct (concat_insert in_flight ts t pc pc' Ht) as (rest & H1 & H2).
  destruct (concat_insert dead_mark ts t pc pc' Ht) as (dead & D1%Permutation_length & D2%Permutation_length).
  pose proof (Forall_lookup_1 _ _ _ _ Htest Ht) as Hpc.
  pose proof (lookup_lt_Some _ _ _ Ht) as Hlt.
  exists (match pc, pc' with
          | (PAbout c | PRun c | PRan c _ | PRecord c _), (PDone | PDead | PDeadHolding false) => c :: lost
          | _, _ => lost end).
  rewrite H1 in Hc. split.
  - rewrite H2, Hc. clear -Hs Hpc. step_cases Hs;
      repeat match goal with H : judge _ _ = Ok _ |- _ => destruct (judge_cached _ _ _ H) as [Htst _]; rewrite H; clear H end;
      rewrite ?fmap_app, ?app_nil_r; cbn [fmap list_fmap]; rewrite ?Htst, ?Hpc; try done.
    all: match goal with H : sh_queue _ = _ |- _ => rewrite H | _ => idtac end.
    all: try solve_Permutation.
  - apply Forall_insert; [done|]. step_cases Hs; auto.
  - rewrite D2. rewrite D1 in Hlost. clear -Hs Hlost. step_cases Hs; try done; naive_solver congruence.
  - intros Hx. destruct (decide (t = 0)) as [->|Hne].
    + rewrite list_lookup_insert_eq by done. exists pc'. split; [done|]. clear D1 D2 Hc Htest H1 H2.
      step_cases Hs; try done; destruct (Hterm Hx) as (pc0 & Hpc0 & Hd); rewrite Ht in Hpc0; by injection Hpc0 as <-.
    + rewrite list_lookup_insert_ne by done. apply Hterm. revert Hx. apply Nat.eqb_neq in Hne.
      clear -Hs Hne. destruct Hs; cbn; unfold thread_dies; rewrite ?Hne; done.
  - intros Hd. apply elem_of_insert_inv in Hd as [<-|Hd]; [inversion Hs; subst; cbn; auto|].
    destruct (Hdone Hd); [left|right]; step_cases Hs; congruence.
Qed.

Lemma outputs_step t sh pc l sh' pc' ts returned recorded dropped :
  ts !! t = Some pc → thread_step t sh pc l sh' pc' → outputs_ok sh ts returned recorded dropped →
  ∃ dropped', outputs_ok sh' (<[t := pc']> ts) (returned ++ l) (recorded ++ records pc pc') dropped'.
Proof.
  intros Ht Hs [(raw & Hr & Hj) Hd].
  destruct (concat_insert carried ts t pc pc' Ht) as (rest & H1 & H2). rewrite H1 in Hr.
  exists (match pc, pc' with
          | PRan _ o, PDone | PRecord _ o, PDeadHolding false => o :: dropped
          | _, _ => dropped end).
  split.
  - exists (raw ++ match pc, pc' with PRecord _ o, (PLoop | PDeadHolding true) => [o] | _, _ => [] end). split.
    + rewrite Hr, H2. clear -Hs. step_cases Hs; rewrite ?app_nil_r; try done; solve_Permutation.
    + apply Forall2_app; [done|]. clear -Hs. step_cases Hs; try constructor;
        match goal with H : judge _ _ = Ok _ |- _ => rewrite H; constructor; [by eexists|constructor] end.
  - clear -Hs Hd. step_cases Hs; try done; try naive_solver; intros Hx; try congruence; constructor; eauto.
Qed.

Lemma inv_step cases returned st l st' : inv cases returned st → lstep st l st' → inv cases (returned ++ l) st'.
Proof.
  intros Hinv Hstep. destruct Hstep as [t st pc l sh' pc' Ht Hs].
  destruct Hinv as (Hl & recorded & lost & dropped & Hc & Hf & Ho).
  split; [by eapply lock_step|].
  destruct (flow_step _ _ _ _ _ _ _ _ _ _ Ht Hs Hf) as [lost' Hf'].
  destruct (outputs_step _ _ _ _ _ _ _ _ _ _ Ht Hs Ho) as [dropped' Ho'].
  exists (recorded ++ records pc pc'), lost', dropped'. split_and!; [|done|done].
  assert (Hrec : ∀ o u o', judge windows o = Ok (u, o') → pc = PRecord (o_test o) o ∨ (∃ c, pc = PRecord c o) →
    records pc pc' = [o'] → counters_ok cases (record_output (sh_counters (shared st)) o') (recorded ++ records pc pc')).
  { intros o u o' _ _ E. rewrite E in *. apply counters_record; [done|].
    apply fl_cases, Permutation_length in Hf'. revert Hf'. rewrite !length_app, length_fmap, length_app. cbn. lia. }
  destruct Hs; cbn in *; unfold thread_dies; rewrite ?app_nil_r; try done;
    try (destruct (t =? 0); done).
  - rewrite H in *. by eapply Hrec; eauto.
  - destruct (t =? 0); cbn; rewrite H in *; by eapply Hrec; eauto.
Qed.

Lemma inv_initial cases tasks : inv cases [] (initial cases tasks).
Proof.
  assert (Hno : ∀ n, concat (in_flight <$> replicate n PLoop) = [] ∧
                      concat (dead_mark <$> replicate n PLoop) = [] ∧ concat (carried <$> replicate n PLoop) = []).
  { intros n. induction n as [|n (IH1 & IH2 & IH3)]; [done|]. cbn. by rewrite IH1, IH2, IH3. }
  split.
  - split; [|done]. intros t pc [-> ?]%lookup_replicate. done.
  - exists [], [], []. split_and!.
    + split; cbn; try done; lia.
    + destruct (Hno (S (tasks - 1))) as (E1 & E2 & _).
      split; cbn [initial shared threads sh_queue sh_terminate]; rewrite ?E1, ?E2; rewrite ?app_nil_r; try done.
      * by apply Forall_replicate.
      * intros [??]%elem_of_replicate. congruence.
    + split; [|done]. exists []. cbn [initial shared threads]. by rewrite (proj2 (proj2 (Hno _))).
Qed.

Lemma inv_exec cases tasks returned st : exec (initial cases tasks) returned st → inv cases returned st.
Proof. induction 1; eauto using inv_initial, inv_step. Qed.
Lemma exec_reachable st0 st : rtc step st0 st → ∃ returned, exec st0 returned st.
Proof.
  apply (rtc_ind_r (λ st, ∃ returned, exec st0 returned st)); [by exists []; constructor|].
  intros st1 st2 _ [l Hl] [returned IH]. exists (returned ++ l). by econstructor.
Qed.
Lemma inv_reachable cases tasks st : rtc step (initial cases tasks) st → ∃ returned, inv cases returned st.
Proof. intros [returned H]%exec_reachable. exists returned. by eapply inv_exec. Qed.

(** ** Termination and progress *)

Definition weight (pc : PC) : nat :=
  match pc with
  | PLoop => 2 | PGet => 1 | PAcquire1 _ => 8 | PAbout _ => 7 | PRun _ => 6 | PRan _ _ => 5
  | PAcquire2 _ _ => 4 | PRecord _ _ => 3 | PDone | PDead | PDeadHolding _ => 0
  end.

Definition measure (st : State) : nat :=
  8 * length (sh_queue (shared st)) + sum_list_with weight (threads st).

Lemma sum_insert (ts : list PC) t pc pc' :
  ts !! t = Some pc →
  sum_list_with weight (<[t := pc']> ts) + weight pc = sum_list_with weight ts + weight pc'.
Proof.
  revert t. induction ts as [|x ts IH]; intros [|t] Ht; try done; cbn in Ht.
  - simplify_eq. cbn. lia.
  - specialize (IH t Ht). change (<[S t := pc']> (x :: ts)) with (x :: <[t := pc']> ts).
    cbn [sum_list_with]. lia.
Qed.

Lemma measure_step st st' : step st st' → measure st' < measure st.
Proof.
  intros [l [t st0 pc l' sh' pc' Ht Hs]]. unfold measure. cbn [shared threads].
  pose proof (sum_insert _ _ _ pc' Ht) as Hsum.
  destruct Hs; cbn in Hsum |- *; unfold thread_dies; try destruct (t =? 0); cbn;
    repeat match goal with H : sh_queue _ = _ |- _ => rewrite H; cbn; clear H end; lia.
Qed.

Lemma measure_initial cases tasks :
  measure (initial cases tasks) = 8 * length cases + 2 * S (tasks - 1).
Proof.
  unfold measure, initial. cbn [shared threads sh_queue].
  assert (∀ n, sum_list_with weight (replicate n PLoop) = 2 * n) as ->; [|lia].
  intros n. induction n as [|n IH]; [done|]. cbn in IH |- *. lia.
Qed.

Lemma nsteps_measure n st st' : nsteps step n st st' → n + measure st' ≤ measure st.
Proof.
  induction 1 as [|n x y z Hs _ IH]; [lia|]. pose proof (measure_step _ _ Hs). lia.
Qed.

(** A thread that was ended by an exception holds the lock, and the others have
    ended or wait for it. *)
Definition waits (pc : PC) : bool := match pc with PAcquire1 _ | PAcquire2 _ _ => true | _ => false end.
Definition blocked (st : State) : Prop :=
  ∃ t b, threads st !! t = Some (PDeadHolding b) ∧ Forall (λ pc, finished pc || waits pc = true) (threads st).
Definition ended (st : State) : Prop := Forall (λ pc, finished pc = true) (threads st).

(** Every call gives some result. *)
Record calls_end : Prop := {
  run_ends c : ∃ r, can_run c r;
  about_ends n c : ∃ out b, AboutToRun n c out b;
  hasrun_ends n o : ∃ out b, HasRun n o out b }.

(** A thread that has not finished can step, unless it waits for the lock. *)
Lemma thread_progress t sh pc :
  calls_end → finished pc = false → (sh_lock sh = None ∨ waits pc = false) → ∃ l sh' pc', thread_step t sh pc l sh' pc'.
Proof.
  intros [Hrun Habout Hhas] Hfin Hlock. destruct pc as [| |case|case|case|case o|case o|case o| | |]; try done.
  - destruct (sh_terminate sh) eqn:?; eauto using thread_step.
  - destruct (sh_queue sh) eqn:?; eauto using thread_step.
  - destruct Hlock; [|done]. eauto using thread_step.
  - destruct (Habout (sh_counters sh) case) as (out & [] & ?); eauto using thread_step.
  - destruct (Hrun case) as [[] ?]; destruct (sh_terminate sh) eqn:?; eauto using thread_step.
  - destruct (sh_terminate sh) eqn:?; eauto using thread_step.
  - destruct Hlock; [|done]. eauto using thread_step.
  - destruct (judge windows o) as [[u o']|e] eqn:Hj; [|eauto using thread_step].
    destruct (Hhas (record_output (sh_counters sh) o') o') as (out & [] & ?);
      do 3 eexists; [eapply TS_record|eapply TS_hasrun_raise]; eauto.
Qed.

Lemma inv_progress cases returned st : calls_end → inv cases returned st → ended st ∨ blocked st ∨ ∃ st', step st st'.
Proof.
  intros Hcalls [[Hl Hlen] _]. unfold step.
  destruct (decide (Forall (λ pc, finished pc || (bool_decide (is_Some (sh_lock (shared st))) && waits pc) = true) (threads st))) as [Hall|Hn].
  - destruct (sh_lock (shared st)) as [t|] eqn:Hlock; cbn in Hall.
    + destruct (lookup_lt_is_Some_2 (threads st) t (Hlen t eq_refl)) as [pc Ht].
      pose proof (proj2 (Hl t pc Ht) eq_refl) as Hh. pose proof (Forall_lookup_1 _ _ _ _ Hall Ht) as Hpc.
      right. left. destruct pc as [| | | | | | | | | |b]; try done. by exists t, b.
    + left. eapply Forall_impl; [exact Hall|]. cbn. intros pc. by rewrite orb_false_r.
  - right. right. apply not_Forall_Exists in Hn; [|apply _].
    apply Exists_exists in Hn as (pc & [t Ht]%list_elem_of_lookup & [Hf Hw]%not_true_is_false%orb_false_iff).
    destruct (thread_progress t (shared st) pc) as (l & sh' & pc' & Hs); [done|done| |].
    + destruct (sh_lock (shared st)); [right|by left]. by destruct (waits pc).
    + eexists _, l. by econstructor.
Qed.

(** An execution goes on until all threads have ended or are blocked. *)
Lemma run_to_end cases returned st : calls_end → inv cases returned st → ∃ st', rtc step st st' ∧ (ended st' ∨ blocked st').
Proof.
  intros Hrun. remember (measure st) as n eqn:Hn. revert returned st Hn.
  induction n as [n IH] using lt_wf_ind. intros returned st -> Hinv.
  destruct (inv_progress cases returned st Hrun Hinv) as [|[|[st1 Hs]]]; [exists st; by split; [apply rtc_refl|left]|exists st; by split; [apply rtc_refl|right]|].
  pose proof Hs as [l Hl].
  destruct (IH _ (measure_step _ _ Hs) _ st1 eq_refl (inv_step _ _ _ _ _ Hinv Hl)) as (st' & Hr & Hf).
  exists st'. split; [by eapply rtc_l|done].
Qed.

(** Nothing happens any more when all threads have ended or are blocked. *)
Lemma blocked_stuck cases returned st st' : inv cases returned st → ended st ∨ blocked st → ¬ step st st'.
Proof.
  intros [[Hl _] _] He [l Hstep]. inversion Hstep as [t st0 pc l' sh' pc' Ht Hs]; subst.
  destruct He as [He|(u & b & Hu & Hall)].
  - pose proof (Forall_lookup_1 _ _ _ _ He Ht) as Hp. by destruct Hs.
  - assert (Hlock : sh_lock (shared st) = Some u) by by apply (Hl u _ Hu).
    pose proof (Forall_lookup_1 _ _ _ _ Hall Ht) as Hp. destruct Hs; done || congruence.
Qed.

(** Where no call in a critical section raises, no thread dies in one. *)
Definition sections_return : Prop :=
  (∀ n c out, ¬ AboutToRun n c out false) ∧ (∀ n o out, ¬ HasRun n o out false) ∧
  ∀ c o e, can_run c (Returned o) → judge windows o ≠ Err e.
Definition no_holder (st : State) : Prop :=
  Forall (λ pc, match pc with PDeadHolding _ => False | PRan c o | PAcquire2 c o | PRecord c o => ∀ e, judge windows o ≠ Err e | _ => True end) (threads st).
Lemma no_holder_step st st' : sections_return → no_holder st → step st st' → no_holder st'.
Proof.
  intros (Ha & Hh & Hj) Hn [l Hstep]. inversion Hstep as [t st0 pc l' sh' pc' Ht Hs]; subst. apply Forall_insert; [done|].
  pose proof (Forall_lookup_1 _ _ _ _ Hn Ht) as Hp. destruct Hs; cbn in *; naive_solver.
Qed.
Lemma no_holder_reachable cases tasks st : sections_return → rtc step (initial cases tasks) st → no_holder st.
Proof.
  intros Hr. apply (rtc_ind_r no_holder); [by apply Forall_replicate|]. intros st1 st2 _ Hs Hn. by eapply no_holder_step.
Qed.
Lemma no_holder_ended st : no_holder st → blocked st → False.
Proof. intros Hn (t & b & Ht & _). exact (Forall_lookup_1 _ _ _ _ Hn Ht). Qed.

Lemma all_finished_no_flight ts :
  Forall (λ pc, finished pc = true) ts → concat (in_flight <$> ts) = [] ∧ concat (carried <$> ts) = [].
Proof. induction 1 as [|pc ts Hpc _ [IH1 IH2]]; [done|]. cbn. rewrite IH1, IH2. by destruct pc. Qed.

(** ** Properties *)

(** C2: In every reachable state of every interleaving, at most one thread is inside
    a critical section; the counters describe exactly the outputs recorded so
    far ([failed] holds the unexpected ones in the order they were recorded,
    [crashed] counts the crashes among them and every other output is counted in
    [succeeded]); and each case of the list is exactly once in the queue, with a
    thread, recorded, or lost. *)
Theorem RunSingle_safe cases tasks st :
  rtc step (initial cases tasks) st →
  (∀ t u pct pcu, threads st !! t = Some pct → threads st !! u = Some pcu →
     holds_lock pct = true → holds_lock pcu = true → t = u) ∧
  ∃ recorded lost,
    counters_ok cases (sh_counters (shared st)) recorded ∧
    cases ≡ₚ sh_queue (shared st) ++ concat (in_flight <$> threads st) ++ (o_test <$> recorded) ++ lost.
Proof.
  intros (returned & [Hl _] & recorded & lost & dropped & Hc & Hf & _)%inv_reachable. split.
  - intros t u pct pcu Ht Hu H1 H2. apply (Hl _ _ Ht) in H1. apply (Hl _ _ Hu) in H2. congruence.
  - exists recorded, lost. split; [done|apply Hf].
Qed.

(** The output as it was judged, and whether it was unexpected. *)
Definition verdict (o : Output) : option (bool * Output) := match judge windows o with Ok x => Some x | Err _ => None end.
Definition failure (x : bool * Output) : option Output := if x.1 then Some x.2 else None.
Lemma verdict_judged raw recorded : Forall2 judged_as raw recorded →
  (omap verdict raw).*2 = recorded ∧ Forall (λ x, o_unexpected windows x.2 = x.1) (omap verdict raw).
Proof.
  induction 1 as [|o o' raw recorded [u Hu] _ [IH1 IH2]]; [done|]. assert (Hv : verdict o = Some (u, o')) by (unfold verdict; by rewrite Hu). cbn. rewrite !Hv. cbn.
  split; [by rewrite IH1|]. constructor; [|done]. exact (proj2 (proj2 (judge_cached _ _ _ Hu))).
Qed.
Lemma filter_failures (l : list (bool * Output)) : Forall (λ x, o_unexpected windows x.2 = x.1) l →
  filter (λ o, o_unexpected windows o) l.*2 = omap failure l ∧
  length (filter (λ o, o_unexpected windows o = false) l.*2) = length (filter (λ x, x.1 = false) l).
Proof.
  induction 1 as [|[u o] l Hx _ [IH1 IH2]]; [done|]. cbn [fst snd] in Hx. rewrite fmap_cons, !filter_cons. cbn [fst snd]. rewrite Hx.
  change (omap failure ((u, o) :: l)) with (match failure (u, o) with Some x => x :: omap failure l | None => omap failure l end).
  destruct u; repeat (case_decide; try done); cbn; rewrite ?IH1, ?IH2; done.
Qed.
Lemma judge_errors l : Forall (λ o, ∃ e, judge windows o = Err e) l → omap verdict l = [].
Proof. induction 1 as [|o l [e He] _ IH]; [done|]. assert (Hv : verdict o = None) by (unfold verdict; by rewrite He). cbn. by rewrite Hv. Qed.

(** C16: When [Run] returns (the main thread has ended its loop and all threads it
    joins have ended), the results are those of the outputs that [case.Run] has
    returned in this execution: each of them is that of another case of the list;
    [failed] holds exactly the unexpected ones, [crashed] counts the crashes among
    them, [succeeded] the expected ones, and [remaining] is what is missing
    from all cases; [Run] returns True exactly when no output that was returned
    was judged to be unexpected.  A case without an output that was judged is one
    of a thread that died. *)
Theorem Run_result cases tasks returned st :
  exec (initial cases tasks) returned st →
  threads st !! 0 = Some PDone → ended st →
  let verdicts := omap verdict returned in let c := sh_counters (shared st) in
  failed c ≡ₚ omap failure verdicts ∧
  succeeded c = length (filter (λ x, x.1 = false) verdicts) ∧
  crashed c = length (filter (λ o, o_crashed windows o) (omap failure verdicts)) ∧
  remaining_cases c + length verdicts = length cases ∧
  remaining_cases c = length (concat (dead_mark <$> threads st)) ∧
  (∃ lost, cases ≡ₚ ((λ x, o_test x.2) <$> verdicts) ++ lost) ∧
  (Run_returns st = true ↔ ∀ o o', o ∈ returned → judge windows o ≠ Ok (true, o')).
Proof.
  intros (_ & recorded & lost & dropped & Hc & Hf & [(raw & Hret & Hj) Hdrop])%inv_exec H0 Hfin.
  destruct Hf as [Hcases _ Hlost Hterm Hdone]. destruct (all_finished_no_flight _ Hfin) as [E1 E2].
  assert (Ht : sh_terminate (shared st) = false).
  { destruct (sh_terminate _); [|done]. destruct (Hterm eq_refl) as (pc & Hpc & Hd). rewrite H0 in Hpc. by injection Hpc as <-. }
  assert (Hq : sh_queue (shared st) = []).
  { destruct (Hdone (list_elem_of_lookup_2 _ _ _ H0)); [congruence|done]. }
  rewrite Hq, E1 in Hcases. rewrite E2 in Hret. cbn in Hcases, Hret.
  assert (Hv : omap verdict returned ≡ₚ omap verdict raw) by (rewrite Hret, omap_app, (judge_errors dropped) by auto; by rewrite app_nil_r).
  destruct (verdict_judged _ _ Hj) as [Hrec Hu]. destruct (filter_failures _ Hu) as [F1 F2]. rewrite Hrec in F1, F2.
  destruct Hc as [C1 C2 C3 C4 C5]. cbv zeta. assert (Hlen : length (omap verdict raw) = length recorded) by by rewrite <-Hrec, length_fmap.
  assert (Hfailed : failed (sh_counters (shared st)) ≡ₚ omap failure (omap verdict returned)) by by rewrite C1, F1, Hv.
  split_and!.
  - done.
  - by rewrite C2, F2, Hv.
  - by rewrite C5, Hfailed.
  - by rewrite Hv, Hlen.
  - rewrite <-Hlost by done. apply Permutation_length in Hcases. rewrite length_app, length_fmap in Hcases. lia.
  - exists lost. rewrite Hcases, Hv, <-Hrec, <-list_fmap_compose. done.
  - unfold Run_returns. rewrite bool_decide_eq_true, Hfailed, length_zero_iff_nil. split.
    + intros Hn o o' Ho Hjo. apply (not_elem_of_nil o'). rewrite <-Hn. apply list_elem_of_omap.
      exists (true, o'). split; [|done]. apply list_elem_of_omap. exists o. split; [done|]. unfold verdict. by rewrite Hjo.
    + intros Hall. destruct (omap failure (omap verdict returned)) as [|o' l] eqn:Hfl; [done|exfalso].
      assert (Ho : o' ∈ omap failure (omap verdict returned)) by (rewrite Hfl; left).
      apply list_elem_of_omap in Ho as ([u o1] & (o & Ho & Hvo)%list_elem_of_omap & Hfo). unfold verdict in Hvo.
      destruct u; [|done]. destruct (judge windows o) as [x|] eqn:Hjo; [|done]. injection Hvo as ->. by eapply Hall.
Qed.

(** C15: Every execution ends: none from the initial state takes more than eight
    steps per case and two per thread, and as long as a step is possible it can be
    continued until all threads have ended, or until a thread that died in a critical
    section holds the lock for ever and all others have ended or wait for it.
    The latter, in which [Run] does not return, can not happen where the hooks
    and the verdicts do not raise. *)
Theorem Run_terminates cases tasks st n :
  calls_end →
  nsteps step n (initial cases tasks) st →
  n ≤ 8 * length cases + 2 * S (tasks - 1) ∧
  ((∃ st', step st st') ↔ ¬ ended st ∧ ¬ blocked st) ∧
  (∃ st', rtc step st st' ∧ (ended st' ∨ blocked st')) ∧
  (sections_return → ∀ st', rtc step st st' → ¬ blocked st').
Proof.
  intros Hcalls Hn. pose proof (nsteps_measure _ _ _ Hn) as Hm. rewrite measure_initial in Hm.
  assert (Hr : rtc step (initial cases tasks) st) by (eapply rtc_nsteps_2; eauto).
  destruct (inv_reachable _ _ _ Hr) as [returned Hinv].
  split_and!; [lia| |by eapply run_to_end|].
  - split; [intros [st' Hs]; split; intros H; by eapply blocked_stuck; eauto|].
    intros [H1 H2]. destruct (inv_progress _ _ _ Hcalls Hinv) as [|[|]]; done.
  - intros Hs st' Hr' Hb. eapply no_holder_ended; [|exact Hb]. eapply no_holder_reachable; [done|]. by etrans.
Qed.

(** One step of a given thread, by computation. *)
Lemma step_then t st pc l sh' pc' returned st' :
  threads st !! t = Some pc → thread_step t (shared st) pc l sh' pc' →
  exec (mkState sh' (<[t := pc']> (threads st))) returned st' → exec st (l ++ returned) st'.
Proof.
  intros Ht Hs Hr. assert (H0 : exec st l (mkState sh' (<[t := pc']> (threads st)))).
  { change l with ([] ++ l). econstructor; [constructor|by econstructor]. }
  induction Hr as [|returned st1 l1 st2 _ IH Hl]; [by rewrite app_nil_r|]. rewrite app_assoc. by econstructor.
Qed.
Lemma exec_rtc st returned st' : exec st returned st' → rtc step st st'.
Proof. induction 1 as [|returned st1 l st2 _ IH Hl]; [done|]. eapply rtc_r; [exact IH|by exists l]. Qed.

(** A worker thread that is ended by an exception of [case.Run] goes unnoticed:
    with two threads and one case, [Run] can return True, the value for "no
    failures", though the only case was never recorded. *)
Theorem dead_worker_unnoticed case out :
  can_run case RaisedOther → AboutToRun (init_counters [case]) case out true →
  ∃ st, rtc step (initial [case] 2) st ∧ threads st = [PDone; PDead] ∧
    Run_returns st = true ∧ succeeded (sh_counters (shared st)) = 0 ∧
    remaining_cases (sh_counters (shared st)) = 1.
Proof.
  intros Hraise Hout. eexists. split; [eapply exec_rtc|repeat split].
  - eapply (step_then 1); [reflexivity|by constructor|].
    do 3 (eapply (step_then 1); [reflexivity|first [by apply TS_get | by apply TS_lock1 | by apply (TS_about _ _ _ out)]|]).
    eapply (step_then 1); [reflexivity|by apply TS_raise|].
    eapply (step_then 0); [reflexivity|by constructor|].
    eapply (step_then 0); [reflexivity|by apply TS_empty|]. constructor.
  - reflexivity.
  - reflexivity.
  - reflexivity.
  - reflexivity.
Qed.

(** A thread that dies in a critical section keeps the lock: with two threads and two cases
    the main thread waits for it for ever. *)
Theorem dead_worker_blocks case case' out :
  AboutToRun (init_counters [case; case']) case out false →
  ∃ st, rtc step (initial [case; case'] 2) st ∧ threads st = [PAcquire1 case'; PDeadHolding false] ∧ blocked st ∧ ¬ ∃ st', step st st'.
Proof.
  intros Hout.
  assert (H : exec (initial [case; case'] 2) [] (mkState (mkShared [] (init_counters [case; case']) false (Some 1) out) [PAcquire1 case'; PDeadHolding false])).
  { eapply (step_then 1 _ _ []); [reflexivity|by constructor|].
    eapply (step_then 1 _ _ []); [reflexivity|by apply TS_get|].
    eapply (step_then 1 _ _ []); [reflexivity|by apply TS_lock1|].
    eapply (step_then 1 _ _ []); [reflexivity|by apply (TS_about_raise _ _ _ out)|].
    eapply (step_then 0 _ _ []); [reflexivity|by constructor|].
    eapply (step_then 0 _ _ []); [reflexivity|by apply TS_get|]. constructor. }
  eexists. split; [by eapply exec_rtc|]. split; [done|].
  assert (Hb : blocked (mkState (mkShared [] (init_counters [case; case']) false (Some 1) out) [PAcquire1 case'; PDeadHolding false])).
  { exists 1, false. split; [done|]. by repeat constructor. }
  split; [done|]. intros [st' Hs]. eapply blocked_stuck; [by eapply inv_exec|by right|done].
Qed.
End Run.

(** ** Witnesses *)

Definition ex_case : Case := mkTestCase "release sample" ["simple"; "sample"] {[PASS]} BaseTestCase.
Definition ex_output (code : Z) : Output :=
  mkTestOutput ex_case ["node"; "sample.js"] (new_CommandOutput code false "" "").
Definition ex_judged (code : Z) : Output :=
  mkTestOutput ex_case ["node"; "sample.js"] (mkOutput code false "" "" (Some (negb (code =? 0)%Z))).
Definition ex_can_run (c : Case) (r : RunResult) : Prop :=
  match r with Returned o => o_test o = c | RaisedIOError => False | RaisedOther => True end.
(** Hooks that print what the verbose indicator prints, and return. *)
Definition ex_about (_ : Counters) (c : Case) (out : list io) (returns : bool) : Prop := out = Verbose_AboutToRun c ∧ returns = true.
Definition ex_has_run (_ : Counters) (o : Output) (out : list io) (returns : bool) : Prop := out = Verbose_HasRun false o ∧ returns = true.
Notation ex_step := (step false ex_about ex_has_run ex_can_run).
Notation ex_exec := (exec false ex_about ex_has_run ex_can_run).

(** One case that fails and one thread: the steps of the run. *)
Definition ex_final : State :=
  mkState (mkShared [] (mkCounters 0 0 1 [ex_judged 1] 0) false None
    [Println "Starting release sample..."; Flush; Println "Done running release sample: FAIL"]) [PDone].

Lemma ex_run : ex_exec (initial [ex_case] 1) [ex_output 1] ex_final.
Proof.
  eapply (step_then _ _ _ _ 0 _ _ []); [reflexivity|by constructor|].
  eapply (step_then _ _ _ _ 0 _ _ []); [reflexivity|by apply TS_get|].
  eapply (step_then _ _ _ _ 0 _ _ []); [reflexivity|by apply TS_lock1|].
  eapply (step_then _ _ _ _ 0 _ _ []); [reflexivity|by apply TS_about|].
  eapply (step_then _ _ _ _ 0 _ _ [ex_output 1] _ _ []); [reflexivity|by apply (TS_run _ _ _ _ _ _ _ (ex_output 1))|].
  do 2 (eapply (step_then _ _ _ _ 0 _ _ []); [reflexivity|by constructor|]).
  eapply (step_then _ _ _ _ 0 _ _ []); [reflexivity|by eapply (TS_record _ _ _ _ _ _ _ _ true (ex_judged 1))|].
  eapply (step_then _ _ _ _ 0 _ _ []); [reflexivity|by constructor|].
  eapply (step_then _ _ _ _ 0 _ _ []); [reflexivity|by apply TS_empty|].
  constructor.
Qed.

Lemma RunSingle_safe_witness : ∃ recorded lost,
  counters_ok false [ex_case] (mkCounters 0 0 1 [ex_judged 1] 0) recorded ∧
  [ex_case] ≡ₚ [] ++ [] ++ (o_test <$> recorded) ++ lost.
Proof.
  apply (RunSingle_safe false ex_about ex_has_run ex_can_run (λ _ _ H, H) [ex_case] 1 ex_final).
  exact (exec_rtc _ _ _ _ _ _ _ ex_run).
Defined.

Lemma Run_result_witness : [ex_judged 1] ≡ₚ omap failure (omap (verdict false) [ex_output 1]) ∧
  Run_returns ex_final = false ∧
  (Run_returns ex_final = true ↔ ∀ o o', o ∈ [ex_output 1] → judge false o ≠ Ok (true, o')).
Proof.
  destruct (Run_result false ex_about ex_has_run ex_can_run (λ _ _ H, H) [ex_case] 1 [ex_output 1] ex_final ex_run
    eq_refl ltac:(by repeat constructor)) as (H1 & _ & _ & _ & _ & _ & H7).
  exact (conj H1 (conj eq_refl H7)).
Defined.

Lemma ex_calls : calls_end ex_about ex_has_run ex_can_run.
Proof. constructor; [intros c; by exists RaisedOther|intros n c; by eexists _, true|intros n o; by eexists _, true]. Qed.
Lemma Run_terminates_witness : 0 ≤ 8 * 1 + 2 * 1 ∧
  ∃ st', rtc ex_step (initial [ex_case] 1) st' ∧ (ended st' ∨ blocked st').
Proof.
  destruct (Run_terminates false ex_about ex_has_run ex_can_run (λ _ _ H, H)
    [ex_case] 1 (initial [ex_case] 1) 0 ex_calls ltac:(constructor)) as (H1 & _ & H3 & _).
  split; [exact H1|exact H3].
Defined.

Lemma dead_worker_unnoticed_witness :
  ∃ st, rtc ex_step (initial [ex_case] 2) st ∧ threads st = [PDone; PDead] ∧
    Run_returns st = true ∧ succeeded (sh_counters (shared st)) = 0 ∧
    remaining_cases (sh_counters (shared st)) = 1.
Proof. apply (dead_worker_unnoticed false ex_about ex_has_run ex_can_run ex_case (Verbose_AboutToRun ex_case)); [exact I|by split]. Defined.

(** The file of the expected output of a message test may be missing. *)
Definition ex_message : Case := mkTestCase "release message" ["message"; "m"] {[PASS]} {| IsNegative := false; IsFailureOutput := λ _, Err IOError |}.
Example verdict_raises : judge false (mkTestOutput ex_message [] (new_CommandOutput 1 false "" "")) = Err IOError.
Proof. reflexivity. Qed.
Lemma dead_worker_blocks_witness :
  ∃ st, rtc (step false (λ _ _ _ b, b = false) ex_has_run ex_can_run) (initial [ex_case; ex_case] 2) st ∧ threads st = [PAcquire1 ex_case; PDeadHolding false] ∧
    blocked st ∧ ¬ ∃ st', step false (λ _ _ _ b, b = false) ex_has_run ex_can_run st st'.
Proof. apply (dead_worker_blocks false (λ _ _ _ b, b = false) ex_has_run ex_can_run (λ _ _ H, H) ex_case ex_case []). reflexivity. Defined.
