(* ===== verification/TestSuites.v ===== *)
(** * Suites, options and the main program (tools/test.py)

    [TestRepository] and [LiteralTestSuite] list the tests of the directories
    under test/, [Context] holds the settings of a run, [ProcessOptions] checks
    the command line and [Main] puts the parts together.  The file system, the
    configuration modules of the directories and the run itself are the record
    [World]; a suite's own test configuration is the record [Config], of which
    test/simple/testcfg.py is an instance. *)
From S2P Require Import Prelude PyStr StatusExpr StatusFile TestRun.
From Stdlib Require Import QArith Qround Lqa.
Open Scope nat_scope.

(** ** Suites *)

Definition CarCdr {A} (path : list A) : option A * list A :=
  match path with
  | [] => (None, [])
  | x :: rest => (Some x, rest)
  end.

(** A listed test: its path and the flags of its variant. *)
Record Test := mkTest {
  t_path : list string;
  t_mode : string;
  t_variant_flags : list string }.

(** What a testcfg module's configuration object offers. *)
Record Config := mkConfig {
  cfg_GetBuildRequirements : list string;
  cfg_ListTests : list string → list pattern → string → list Test;
  cfg_GetTestStatus : list PySection → gmap string Expression →
    res (list PySection * gmap string Expression * list string) }.

Definition VARIANT_FLAGS : list (list string) := [[]].

Record TestRepository := mkRepo {
  repo_name : string;
  repo_path : string;
  is_loaded : bool;
  config : option Config }.

Section Repositories.
Context (re_rest : string → string → bool).
(** [imp.load_module('testcfg', ...).GetConfiguration(context, path)] *)
Context (load : string → res Config).

(** The second component is the repository afterwards, also when loading
    raises: [is_loaded] is set before the attempt. *)
Definition GetConfiguration (r : TestRepository) : res (option Config) * TestRepository :=
  if is_loaded r then (Ok (config r), r)
  else
    match load (repo_path r) with
    | Ok c => (Ok (Some c), mkRepo (repo_name r) (repo_path r) true (Some c))
    | Err e => (Err e, mkRepo (repo_name r) (repo_path r) true (config r))
    end.

(** A method of the configuration: [None] has none. *)
Definition with_config {A} (r : TestRepository) (f : Config → res A) : res (A * TestRepository) :=
  let '(c, r') := GetConfiguration r in
  c ← c;
  match c with
  | None => Err AttributeError
  | Some c => a ← f c; Ok (a, r')
  end.

Definition Repository_GetBuildRequirements (r : TestRepository) : res (list string * TestRepository) :=
  with_config r (λ c, Ok (cfg_GetBuildRequirements c)).

Definition set_variant (v : list string) (t : Test) : Test := mkTest (t_path t) (t_mode t) v.

Definition AddTestsToList (result : list Test) (current_path : list string) (path : list pattern)
    (mode : string) (r : TestRepository) : res (list Test * TestRepository) :=
  res_fold (λ '(result, r) v,
      '(tests, r') ← with_config r (λ c, Ok (cfg_ListTests c current_path path mode));
      Ok (result ++ (set_variant v <$> tests), r'))
    VARIANT_FLAGS (result, r).

Definition Repository_GetTestStatus (sections : list PySection) (defs : gmap string Expression)
    (r : TestRepository)
    : res (list PySection * gmap string Expression * list string * TestRepository) :=
  with_config r (λ c, cfg_GetTestStatus c sections defs).

(** [not name or name.match(test.GetName())] *)
Definition name_selected (name : option pattern) (test_name : string) : bool :=
  match name with None => true | Some p => Pattern_match re_rest p test_name end.

(** The loops over [self.tests]: each repository is updated in place. *)
Fixpoint Suite_GetBuildRequirements (path : list pattern) (tests : list TestRepository)
    : res (list string * list TestRepository) :=
  match tests with
  | [] => Ok ([], [])
  | test :: tests' =>
      '(reqs, test') ← (if name_selected (fst (CarCdr path)) (repo_name test)
                        then Repository_GetBuildRequirements test else Ok ([], test));
      '(result, done) ← Suite_GetBuildRequirements path tests';
      Ok (reqs ++ result, test' :: done)
  end.

Fixpoint Suite_ListTests (current_path : list string) (path : list pattern) (mode : string)
    (result : list Test) (tests : list TestRepository) : res (list Test * list TestRepository) :=
  match tests with
  | [] => Ok (result, [])
  | test :: tests' =>
      let test_name := repo_name test in
      '(result, test') ← (if name_selected (fst (CarCdr path)) test_name
                          then AddTestsToList result (current_path ++ [test_name]) path mode test
                          else Ok (result, test));
      '(result, done) ← Suite_ListTests current_path path mode result tests';
      Ok (result, test' :: done)
  end.

Fixpoint Suite_GetTestStatus (sections : list PySection) (defs : gmap string Expression)
    (tests : list TestRepository)
    : res (list PySection * gmap string Expression * list string * list TestRepository) :=
  match tests with
  | [] => Ok (sections, defs, [], [])
  | test :: tests' =>
      '(sections, defs, out, test') ← Repository_GetTestStatus sections defs test;
      '(sections, defs, out', done) ← Suite_GetTestStatus sections defs tests';
      Ok (sections, defs, out ++ out', test' :: done)
  end.
End Repositories.

(** ** The simple suite's configuration (test/simple/testcfg.py) *)

(** [os.path.join] of two parts. *)
Definition path_join (a b : string) : string :=
  if startswith "/" b then b
  else if (a =s "") || endswith "/" a then a +:+ b
  else a +:+ "/" +:+ b.

Section Simple.
Context (re_rest : string → string → bool).
(** The directory's entries, and the text of its status file if it exists. *)
Context (root : string) (listdir : list string) (status_text : option string).

Definition SelectTest (name : string) : bool := startswith "test-" name && endswith ".js" name.
Definition Ls : list string :=
  (λ f, str_take (String.length f - 3) f) <$> filter (λ f, SelectTest f) listdir.

Definition Simple_ListTests (current_path : list string) (path : list pattern) (mode : string)
    : list Test :=
  (λ test, mkTest test mode []) <$>
    filter (λ test, Contains re_rest path test) ((λ t, current_path ++ [t]) <$> Ls).

Definition Simple_GetTestStatus (sections : list PySection) (defs : gmap string Expression)
    : res (list PySection * gmap string Expression * list string) :=
  match status_text with
  | None => Ok (sections, defs, [])
  | Some text =>
      '(st, _) ← ReadConfigurationInto text sections defs;
      Ok (rd_sections st, rd_defs st, rd_out st)
  end.

Definition SimpleTestConfiguration : Config :=
  mkConfig ["sample"; "sample=shell"] Simple_ListTests Simple_GetTestStatus.
End Simple.

(** ** Context *)

Definition FLAGS : gmap string (list string) :=
  {["debug" := ["--enable-slow-asserts"; "--debug-code"; "--verify-heap"]; "release" := []]}.
Definition TIMEOUT_SCALEFACTOR : gmap string Z := {["debug" := 4%Z; "release" := 1%Z]}.

(** Python's [d[k]]. *)
Definition dict_get {A} (d : gmap string A) (k : string) : res A :=
  match d !! k with Some v => Ok v | None => Err KeyError end.

Record Context_ := mkContext {
  ctx_workspace : string;
  ctx_timeout : Z;
  ctx_windows : bool;
  ctx_processor : list string → list string }.

Section Context_.
Context (abspath : string → string).

Definition GetVm (ctx : Context_) (mode : string) : string :=
  let name := if mode =s "debug" then "build/debug/node_g" else "build/default/node" in
  if ctx_windows ctx && negb (endswith ".exe" name) then abspath (name +:+ ".exe") else name.

Definition GetVmFlags (t : Test) (mode : string) : res (list string) :=
  f ← dict_get FLAGS mode; Ok (t_variant_flags t ++ f).

Definition GetVmCommand (ctx : Context_) (t : Test) (mode : string) : res (list string) :=
  f ← GetVmFlags t mode; Ok ([GetVm ctx mode] ++ f).

Definition GetTimeout (ctx : Context_) (mode : string) : res Z :=
  k ← dict_get TIMEOUT_SCALEFACTOR mode; Ok (ctx_timeout ctx * k)%Z.
End Context_.

(** The command line of [BuildRequirements]. *)
Definition BuildRequirements_command (ctx : Context_) (requirements : list string)
    (mode : list string) (scons_flags : list string) : list string :=
  ["scons"; "-Y"; ctx_workspace ctx; "mode=" +:+ join "," mode] ++ requirements ++ scons_flags.

(** ** Options *)

(** The options [Main] reads; [o_mode] is the text before [ProcessOptions]
    splits it. *)
Record Options := mkOptions {
  o_mode : string;
  o_arch : string;
  o_simulator : string;
  o_scons_flags : list string;
  o_snapshot : bool;
  o_no_build : bool;
  o_build_only : bool;
  o_report : bool;
  o_cat : bool;
  o_warn_unused : bool;
  o_time : bool;
  o_valgrind : bool;
  o_special_command : option string;
  o_timeout : Z;
  o_j : Z;
  o_suite : list string }.

(** The options after [ProcessOptions] has changed them. *)
Record Processed := mkProcessed {
  p_mode : list string;
  p_arch : string;
  p_scons_flags : list string }.

Fixpoint unknown_mode (modes : list string) : option string :=
  match modes with
  | [] => None
  | mode :: modes' => if negb (existsb (String.eqb mode) ["debug"; "release"]) then Some mode
                      else unknown_mode modes'
  end.

(** [None] is [return False]; the second component is what was printed. *)
Definition ProcessOptions (ARCH_GUESS : string) (o : Options) : option Processed * list string :=
  let mode := split_on "," (o_mode o) in
  match unknown_mode mode with
  | Some m => (None, ["Unknown mode " +:+ m])
  | None =>
      let snapshot flags := if o_snapshot o then flags ++ ["snapshot=on"] else flags in
      if negb (o_simulator o =s "none") then
        let finish arch :=
          (Some (mkProcessed mode arch
             (snapshot (o_scons_flags o ++ ["simulator=" +:+ o_simulator o]))), []) in
        if negb (o_simulator o =s o_arch o) then
          if o_arch o =s "none" then finish (o_simulator o)
          else (None, ["Architecture " +:+ o_arch o +:+ " does not match sim " +:+ o_simulator o])
        else finish (o_arch o)
      else
        let arch := if o_arch o =s "none" then ARCH_GUESS else o_arch o in
        (Some (mkProcessed mode arch (snapshot (o_scons_flags o ++ ["arch=" +:+ arch]))), [])
  end.

(** ** FormatTime *)

(** Python 2's [round] of a non-negative number: halves go up. *)
Definition py_round (q : Q) : Z := Qfloor (q + (1 # 2)).

(** Two or three digits, as [%M], [%S] and [%03i] print them. *)
Definition pad (w : nat) (n : Z) : string :=
  let s := str_of_Z n in str_repeat (w - String.length s) "0" +:+ s.

(** The three fields: minutes and seconds of [time.gmtime(d)], which drops the
    fraction, and the milliseconds.  [d] is an exact rational where Python has a
    float. *)
Definition time_fields (d : Q) : Z * Z * Z :=
  let millis := (py_round (d * 1000) mod 1000)%Z in
  let secs := Qfloor d in
  (((secs / 60) mod 60)%Z, (secs mod 60)%Z, millis).

Definition FormatTime (d : Q) : string :=
  let '(m, s, ms) := time_fields d in pad 2 m +:+ ":" +:+ pad 2 s +:+ "." +:+ pad 3 ms.

(** ** Main *)

(** What [RunTestCases] does with the cases: it returns whether all went as
    expected, is interrupted from the keyboard, or raises ([Run] raises the
    exceptions of its main thread again). *)
Inductive RunOutcome := RunReturns (ok : bool) | Interrupted | RunRaises (e : exn).

Record World := mkWorld {
  w_workspace : string;
  w_windows : bool;
  w_os : string;
  w_arch_guess : string;
  w_listdir : list string;                        (* of workspace/test *)
  w_is_suite : string → bool;                     (* a directory with a testcfg.py *)
  w_exists : string → bool;
  w_abspath : string → string;
  w_basename : string → string;
  w_load : string → res Config;
  w_scons : list string → bool;                   (* exit code 0 *)
  w_source : Test → string * string;              (* GetLabel(), GetSource() *)
  w_run : list ClassifiedTest → RunOutcome;
  w_duration : Q;
  w_durations : list (Q * string) }.              (* duration and label of each timed case *)

Definition BUILT_IN_TESTS : list string := ["simple"; "pummel"; "message"; "internet"].

Definition GetSuites (w : World) : list string := filter (λ f, w_is_suite w f) (w_listdir w).

Definition new_TestRepository (w : World) (path : string) : TestRepository :=
  let p := w_abspath w path in mkRepo (w_basename w p) p false None.

(** The loops over paths and modes. *)
Record ListState := mkLS {
  ls_repos : list TestRepository;
  ls_out : list string;
  ls_all_cases : list ClassifiedTest;
  ls_unclassified : list Test;
  ls_unused : option (list Rule) }.

Definition case_of (t : Test) : CasePath := mkCase (t_path t).

(** [sorted(..., CompareTime)]: longest first; the sort is stable. *)
Fixpoint insert_time (x : Q * string) (l : list (Q * string)) : list (Q * string) :=
  match l with
  | [] => [x]
  | y :: l' => if Qle_bool (fst x) (fst y) then y :: insert_time x l' else x :: l
  end.
Definition sort_times (l : list (Q * string)) : list (Q * string) :=
  fold_left (λ acc x, insert_time x acc) l [].

Section Main.
Context (re_rest : string → string → bool) (depth : nat) (w : World).

Definition run_env (mode arch simulator : string) : gmap string string :=
  {["mode" := mode; "system" := w_os w; "arch" := arch; "simulator" := simulator]}.

(** The body of [for path in paths: for mode in options.mode]. *)
Definition list_one (ctx : Context_) (sections : list PySection) (defs : gmap string Expression)
    (arch simulator : string) (st : ListState) (pm : list pattern * string) : res ListState :=
  let '(path, mode) := pm in
  let vm := GetVm (w_abspath w) ctx mode in
  if negb (w_exists w vm) then
    Ok (mkLS (ls_repos st) (ls_out st ++ ["Can't find shell executable: '" +:+ vm +:+ "'"])
          (ls_all_cases st) (ls_unclassified st) (ls_unused st))
  else
    '(test_list, repos) ← Suite_ListTests re_rest (w_load w) [] path mode [] (ls_repos st);
    '(cases, unused_rules, _) ←
      ClassifyTests re_rest depth (run_env mode arch simulator) defs sections (case_of <$> test_list);
    let unused := match ls_unused st with
                  | None => unused_rules
                  | Some g => filter (λ r, r ∈ unused_rules) g
                  end in
    Ok (mkLS repos (ls_out st) (ls_all_cases st ++ cases) (ls_unclassified st ++ test_list)
          (Some unused)).

Definition DoSkip (c : ClassifiedTest) : bool :=
  bool_decide (SKIP ∈ ct_outcomes c) || bool_decide (SLOW ∈ ct_outcomes c).

(** [--cat]: each path is shown once. *)
Fixpoint cat_loop (visited : list (list string)) (tests : list Test) : list string :=
  match tests with
  | [] => []
  | test :: tests' =>
      let key := t_path test in
      if bool_decide (key ∈ visited) then cat_loop visited tests'
      else
        let '(label, source) := w_source w test in
        ["--- begin source: " +:+ label +:+ " ---"; strip source;
         "--- end source: " +:+ label +:+ " ---"] ++ cat_loop (key :: visited) tests'
  end.

(** [for rule in globally_unused_rules]: None cannot be iterated. *)
Definition warn_unused (unused : option (list Rule)) : res (list string) :=
  match unused with
  | None => Err TypeError
  | Some l => Ok ((λ r, "Rule for '" +:+ join "/" (StatusFile.path r) +:+ "' was not used.") <$> l)
  end.

Definition time_report : list string :=
  "" :: ("--- Total time: " +:+ FormatTime (w_duration w) +:+ " ---") ::
  imap (λ i e, pad4 (S i) +:+ " (" +:+ FormatTime (fst e) +:+ ") " +:+ snd e)
    (take 20 (sort_times (w_durations w))).

(** The part of [Main] after the cases have been listed. *)
Definition Main_run (o : Options) (st : ListState) : res (Z * list string) :=
  if o_cat o then Ok (0%Z, ls_out st ++ cat_loop [] (ls_unclassified st))
  else
    warned ← (if o_warn_unused o then warn_unused (ls_unused st) else Ok []);
    let out := ls_out st ++ warned ++ (if o_report o then PrintReport (ls_all_cases st) else []) in
    let cases_to_run := filter (λ c, DoSkip c = false) (ls_all_cases st) in
    match cases_to_run with
    | [] => Ok (0%Z, out ++ ["No tests to run."])
    | _ =>
        match w_run w cases_to_run with
        | Interrupted => Ok (1%Z, out ++ ["Interrupted"])
        | RunRaises e => Err e
        | RunReturns ok =>
            Ok (if ok then 0%Z else 1%Z, out ++ (if o_time o then time_report else []))
        end
    end.

(** [if not options.no_build]: [None] when the build failed. *)
Definition Main_build (o : Options) (p : Processed) (ctx : Context_) (paths : list (list pattern))
    (repos : list TestRepository) : res (option (list TestRepository)) :=
  if o_no_build o then Ok (Some repos)
  else
    '(reqs, repos) ← res_fold (λ '(reqs, repos) path,
        '(r, repos') ← Suite_GetBuildRequirements re_rest (w_load w) path repos;
        Ok (reqs ++ r, repos')) paths ([] : list string, repos);
    let reqs := remove_dups reqs in
    match reqs with
    | [] => Ok (Some repos)
    | _ =>
        let flags := if negb (o_j o =? 1)%Z then p_scons_flags p ++ ["-j"; str_of_Z (o_j o)]
                     else p_scons_flags p in
        if w_scons w (BuildRequirements_command ctx reqs (p_mode p) flags)
        then Ok (Some repos) else Ok None
    end.

Definition Main (o : Options) (args : list string) : res (Z * list string) :=
  match ProcessOptions (w_arch_guess w) o with
  | (None, out) => Ok (1%Z, out)
  | (Some p, _) =>
      let repos := (λ name, new_TestRepository w (path_join (path_join (w_workspace w) "test") name))
                     <$> GetSuites w in
      let repos := repos ++ (new_TestRepository w <$> o_suite o) in
      let paths := SplitPath <$> (if decide (length args = 0) then BUILT_IN_TESTS else args) in
      let special := if o_valgrind o
        then Some ("python -u " +:+ path_join (path_join (w_workspace w) "tools") "run-valgrind.py"
                   +:+ " @")
        else o_special_command o in
      let ctx := mkContext (w_workspace w) (o_timeout o) (w_windows w)
                   (GetSpecialCommandProcessor special) in
      built ← Main_build o p ctx paths repos;
      match built with
      | None => Ok (1%Z, [])
      | Some repos =>
          if o_build_only o then Ok (0%Z, [])
          else
            '(sections, defs, out, repos) ← Suite_GetTestStatus (w_load w) [] ∅ repos;
            st ← res_fold (list_one ctx sections defs (p_arch p) (o_simulator o))
                   (path ← paths; mode ← p_mode p; [(path, mode)])
                   (mkLS repos out [] [] None);
            Main_run o st
      end
  end.
End Main.

(** ** Listing *)

Section ListingFacts.
Context (re_rest : string → string → bool) (load : string → res Config).

(** A repository whose configuration loads, and whose cache holds what loading
    gives. *)
Definition repo_ready (r : TestRepository) : Prop :=
  ∃ c, load (repo_path r) = Ok c ∧ (is_loaded r = true → config r = Some c).

Definition same_repo (r r' : TestRepository) : Prop :=
  repo_name r' = repo_name r ∧ repo_path r' = repo_path r.

Lemma with_config_ready {A} r c (f : Config → res A) :
  repo_ready r → load (repo_path r) = Ok c →
  ∃ r', repo_ready r' ∧ same_repo r r' ∧ with_config load r f = (a ← f c; Ok (a, r')).
Proof.
  intros (c' & Hl & Hc) Hl'. assert (c' = c) as -> by congruence.
  unfold with_config, GetConfiguration. destruct (is_loaded r) eqn:Hload.
  - exists r. split; [by exists c; auto|]. split; [done|]. cbn. by rewrite Hc.
  - exists (mkRepo (repo_name r) (repo_path r) true (Some c)).
    split; [by exists c|]. split; [done|]. by rewrite Hl.
Qed.

(** The tests of one repository, by the configuration on disk. *)
Definition repo_tests (current_path : list string) (path : list pattern) (mode : string)
    (r : TestRepository) : list Test :=
  if name_selected re_rest (head path) (repo_name r) then
    match load (repo_path r) with
    | Ok c => set_variant [] <$> cfg_ListTests c (current_path ++ [repo_name r]) path mode
    | Err _ => []
    end
  else [].

Lemma CarCdr_head {A} (path : list A) : fst (CarCdr path) = head path.
Proof. by destruct path. Qed.

Lemma ListTests_loop current_path path mode tests result :
  Forall repo_ready tests →
  ∃ tests', Suite_ListTests re_rest load current_path path mode result tests =
      Ok (result ++ concat (repo_tests current_path path mode <$> tests), tests') ∧
    Forall repo_ready tests' ∧ Forall2 same_repo tests tests'.
Proof.
  intros Hr. revert result. induction Hr as [|r tests Hrd Hr IH]; intros result.
  - exists []. cbn. rewrite app_nil_r. auto.
  - cbn [Suite_ListTests]. rewrite CarCdr_head.
    assert (Hone : ∃ r', repo_ready r' ∧ same_repo r r' ∧
      (if name_selected re_rest (head path) (repo_name r)
       then AddTestsToList load result (current_path ++ [repo_name r]) path mode r
       else Ok (result, r)) = Ok (result ++ repo_tests current_path path mode r, r')).
    { unfold repo_tests. destruct (name_selected _ _ _).
      - destruct Hrd as (c & Hl & Hc).
        destruct (with_config_ready r c (λ c, Ok (cfg_ListTests c (current_path ++ [repo_name r]) path mode)))
          as (r' & ? & ? & Hw); [by exists c|exact Hl|].
        exists r'. split; [done|]. split; [done|].
        unfold AddTestsToList. cbn. rewrite Hw. cbn. by rewrite Hl.
      - exists r. rewrite app_nil_r. done. }
    destruct Hone as (r' & Hrd' & Hsame & ->). cbn.
    destruct (IH (result ++ repo_tests current_path path mode r)) as (tests' & -> & ? & ?).
    exists (r' :: tests'). cbn. rewrite <- app_assoc. eauto.
Qed.

(** [LiteralTestSuite.ListTests] returns, for repositories whose testcfg loads,
    exactly the tests of the repositories whose name the first component of the
    path selects, in order and with empty variant flags, whatever part of them
    has been loaded before; afterwards the repositories are as good as before,
    so a second listing gives the same tests. *)
Theorem Suite_ListTests_correct current_path path mode tests :
  Forall repo_ready tests →
  ∃ tests', Suite_ListTests re_rest load current_path path mode [] tests =
      Ok (concat (repo_tests current_path path mode <$> tests), tests') ∧
    Forall repo_ready tests' ∧
    ∃ tests'', Suite_ListTests re_rest load current_path path mode [] tests' =
      Ok (concat (repo_tests current_path path mode <$> tests), tests'').
Proof.
  intros Hr. destruct (ListTests_loop current_path path mode tests [] Hr) as (tests' & H & Hr' & Hs).
  exists tests'. split; [done|]. split; [done|].
  destruct (ListTests_loop current_path path mode tests' [] Hr') as (tests'' & -> & _).
  exists tests''. f_equal. f_equal. cbn. f_equal.
  clear -Hs. induction Hs as [|r r' tests tests' [Hn Hp] _ IH]; [done|].
  rewrite !fmap_cons, IH. f_equal. unfold repo_tests. by rewrite Hn, Hp.
Qed.

Lemma SelectTest_iff f :
  SelectTest f = true ↔ ∃ name, f = "test-" +:+ name +:+ ".js".
Proof.
  unfold SelectTest. rewrite andb_true_iff, startswith_iff, endswith_iff. split.
  - intros [[r Hr] [t Ht]]. rewrite Hr in Ht. rewrite Hr.
    destruct (decide (String.length "test-" ≤ String.length t)) as [Hl|Hl].
    + destruct (str_app_split _ _ _ _ Ht Hl) as (e & -> & ->). by exists e.
    + exfalso. cbn in Hl. do 5 (destruct t as [|? t]; [discriminate|injection Ht as <- Ht]).
      cbn in Hl. lia.
  - intros [name ->]. split; [by eexists|]. exists ("test-" +:+ name). by rewrite str_app_assoc.
Qed.

(** The simple suite lists a test exactly when its directory has the file
    test-<name>.js and the requested path selects it. *)
Theorem Simple_ListTests_correct root_listdir current_path path mode p :
  p ∈ t_path <$> Simple_ListTests re_rest root_listdir current_path path mode ↔
  Contains re_rest path p = true ∧
  ∃ name, p = current_path ++ ["test-" +:+ name] ∧ ("test-" +:+ name +:+ ".js") ∈ root_listdir.
Proof.
  unfold Simple_ListTests. rewrite <- list_fmap_compose. cbn [compose t_path].
  rewrite list_elem_of_fmap. split.
  - intros (x & -> & [Hc Hx]%list_elem_of_filter). cbn. split; [by destruct (Contains _ _ _)|].
    apply list_elem_of_fmap in Hx as (t & -> & Ht). unfold Ls in Ht.
    apply list_elem_of_fmap in Ht as (f & -> & [Hs Hf]%list_elem_of_filter).
    destruct (proj1 (SelectTest_iff f) (Is_true_true_1 _ Hs)) as (name & ->).
    exists name. split; [|done]. do 2 f_equal. rewrite <- str_app_assoc, str_length_app.
    replace (_ + String.length ".js" - 3) with (String.length ("test-" +:+ name)) by (cbn; lia).
    apply str_take_app.
  - intros (Hc & name & -> & Hin). exists (current_path ++ ["test-" +:+ name]). split; [done|].
    apply list_elem_of_filter. split; [by rewrite Hc|].
    apply list_elem_of_fmap. exists ("test-" +:+ name). split; [done|].
    apply list_elem_of_fmap. exists ("test-" +:+ name +:+ ".js"). split.
    + rewrite <- str_app_assoc, str_length_app.
      replace (_ + String.length ".js" - 3) with (String.length ("test-" +:+ name)) by (cbn; lia).
      by rewrite str_take_app.
    + apply list_elem_of_filter. split; [|done].
      apply Is_true_true_2, SelectTest_iff. by exists name.
Qed.
End ListingFacts.

(** ** Options *)

Definition known_modes : list string := ["debug"; "release"].

Lemma known_mode_spec m : existsb (String.eqb m) known_modes = true ↔ m ∈ known_modes.
Proof.
  unfold known_modes. cbn. rewrite !orb_true_iff, !String.eqb_eq, !elem_of_cons, elem_of_nil.
  naive_solver.
Qed.

Lemma unknown_mode_None modes : unknown_mode modes = None ↔ Forall (λ m, m ∈ known_modes) modes.
Proof.
  induction modes as [|m modes IH]; cbn [unknown_mode]; [split; auto|].
  rewrite Forall_cons, <- known_mode_spec, <- IH. unfold known_modes.
  destruct (existsb _ _); cbn; naive_solver.
Qed.

(** The architecture and simulator agree. *)
Definition arch_ok (o : Options) : Prop :=
  o_simulator o = "none" ∨ o_arch o = "none" ∨ o_arch o = o_simulator o.

(** The options as [ProcessOptions] leaves them when it accepts. *)
Definition processed_of (guess : string) (o : Options) : Processed :=
  let sim := o_simulator o in
  let arch := if decide (o_arch o = "none") then (if decide (sim = "none") then guess else sim)
              else o_arch o in
  mkProcessed (split_on "," (o_mode o)) arch
    (o_scons_flags o
     ++ [if decide (sim = "none") then "arch=" +:+ arch else "simulator=" +:+ sim]
     ++ (if o_snapshot o then ["snapshot=on"] else [])).

Lemma ProcessOptions_Some guess o p out :
  ProcessOptions guess o = (Some p, out) →
  Forall (λ m, m ∈ known_modes) (split_on "," (o_mode o)) ∧ arch_ok o ∧ p = processed_of guess o.
Proof.
  unfold ProcessOptions, processed_of, arch_ok.
  destruct (unknown_mode _) eqn:Hm; [done|]. apply unknown_mode_None in Hm.
  destruct (String.eqb_spec (o_simulator o) "none") as [Hs|Hs],
    (String.eqb_spec (o_arch o) "none") as [Ha|Ha],
    (String.eqb_spec (o_simulator o) (o_arch o)) as [He|He]; cbn -[app];
    intros [= <-]; repeat case_decide; try congruence; destruct (o_snapshot o);
    rewrite <- ?app_assoc; auto.
Qed.

Lemma ProcessOptions_None guess o out :
  ProcessOptions guess o = (None, out) →
  length out = 1 ∧ ¬ (Forall (λ m, m ∈ known_modes) (split_on "," (o_mode o)) ∧ arch_ok o).
Proof.
  unfold ProcessOptions, arch_ok. rewrite <- unknown_mode_None.
  destruct (unknown_mode _) eqn:Hm; [intros [= <-]; naive_solver|].
  destruct (String.eqb_spec (o_simulator o) "none") as [Hs|Hs],
    (String.eqb_spec (o_arch o) "none") as [Ha|Ha],
    (String.eqb_spec (o_simulator o) (o_arch o)) as [He|He]; cbn -[app];
    intros [= <-]; naive_solver.
Qed.

Lemma mode_tables m : m ∈ known_modes → is_Some (FLAGS !! m) ∧ is_Some (TIMEOUT_SCALEFACTOR !! m).
Proof.
  unfold known_modes. rewrite !elem_of_cons, elem_of_nil.
  intros [->|[->|[]]]; vm_compute; eauto.
Qed.

(** [ProcessOptions] accepts exactly the options whose modes are all known and
    whose architecture and simulator do not contradict each other.  On
    acceptance it hands scons one flag for the simulator or the architecture
    (and one for the snapshot), and every mode it leaves has flags and a timeout,
    so no later lookup raises KeyError; on rejection it prints one line. *)
Theorem ProcessOptions_correct guess o :
  match ProcessOptions guess o with
  | (Some p, _) =>
      Forall (λ m, m ∈ known_modes) (p_mode p) ∧ arch_ok o ∧ p = processed_of guess o ∧
      ∀ m ctx t abspath, m ∈ p_mode p →
        is_ok (GetTimeout ctx m) = true ∧ is_ok (GetVmCommand abspath ctx t m) = true
  | (None, out) =>
      length out = 1 ∧ ¬ (Forall (λ m, m ∈ known_modes) (split_on "," (o_mode o)) ∧ arch_ok o)
  end.
Proof.
  destruct (ProcessOptions guess o) as [[p|] out] eqn:E; [|by eapply ProcessOptions_None].
  apply ProcessOptions_Some in E as (Hm & Ha & ->). split; [done|]. split; [done|]. split; [done|].
  intros m ctx t abspath Hin. rewrite Forall_forall in Hm.
  destruct (mode_tables m (Hm m Hin)) as [[f Hf] [k Hk]].
  unfold GetTimeout, GetVmCommand, GetVmFlags, dict_get. by rewrite Hf, Hk.
Qed.

(** ** Main *)

Section MainFacts.
Context (re_rest : string → string → bool) (depth : nat) (w : World).

(** Without an executable nothing is listed. *)
Lemma list_missing ctx sections defs arch sim pms st :
  (∀ f, w_exists w f = false) →
  ∃ out, res_fold (list_one re_rest depth w ctx sections defs arch sim) pms st =
    Ok (mkLS (ls_repos st) out (ls_all_cases st) (ls_unclassified st) (ls_unused st)).
Proof.
  intros Hex. revert st. induction pms as [|[path mode] pms IH]; intros st.
  - exists (ls_out st). by destruct st.
  - cbn [res_fold list_one]. rewrite Hex. cbn [negb mbind res_bind].
    destruct (IH (mkLS (ls_repos st)
      (ls_out st ++ ["Can't find shell executable: '" +:+ GetVm (w_abspath w) ctx mode +:+ "'"])
      (ls_all_cases st) (ls_unclassified st) (ls_unused st))) as [out ->]. by exists out.
Qed.

(** The suites have a status that reads. *)
Definition status_reads (o : Options) : Prop :=
  is_ok (Suite_GetTestStatus (w_load w) [] ∅
    (((λ name, new_TestRepository w (path_join (path_join (w_workspace w) "test") name))
       <$> GetSuites w) ++ (new_TestRepository w <$> o_suite o))) = true.

(** When the node executables have not been built, [Main] reports it but ends
    with exit status 0, success; and with --warn-unused it ends with a TypeError
    instead, because the set of unused rules was never initialised. *)
Theorem missing_shell o args p out :
  ProcessOptions (w_arch_guess w) o = (Some p, out) →
  o_no_build o = true → o_build_only o = false → o_cat o = false →
  status_reads o → (∀ f, w_exists w f = false) →
  if o_warn_unused o then Main re_rest depth w o args = Err TypeError
  else ∃ out', Main re_rest depth w o args = Ok (0%Z, out').
Proof.
  intros Hp Hnb Hbo Hc Hst Hex. unfold Main, status_reads, Main_build in *. rewrite Hp, Hnb, Hbo.
  cbn [mbind res_bind].
  destruct (Suite_GetTestStatus _ _ _ _) as [[[[sections defs] out1] repos]|]; [|done].
  cbn [mbind res_bind].
  match goal with |- context [res_fold ?f ?l ?st] =>
    destruct (list_missing (mkContext (w_workspace w) (o_timeout o) (w_windows w)
       (GetSpecialCommandProcessor (if o_valgrind o
        then Some ("python -u " +:+ path_join (path_join (w_workspace w) "tools") "run-valgrind.py"
                   +:+ " @") else o_special_command o)))
       sections defs (p_arch p) (o_simulator o) l st Hex) as [out2 ->] end.
  cbn [mbind res_bind]. unfold Main_run. rewrite Hc. cbn [ls_unused ls_all_cases ls_out].
  destruct (o_warn_unused o); cbn; eauto.
Qed.

Lemma ClassifyTests_cases env defs sections cases result unused all :
  ClassifyTests re_rest depth env defs sections cases = Ok (result, unused, all) →
  ct_case <$> result = cases.
Proof.
  unfold ClassifyTests. rewrite res_bind_Ok.
  intros (secs & _ & (st & Hst & [= <- _ _])%res_bind_Ok).
  apply (res_fold_inv _ (λ done st, ct_case <$> cs_result st = done)) in Hst; [done|done|].
  intros done b x b' Hb _. unfold classify_case. rewrite res_bind_Ok.
  intros (O & _ & [= <-]). cbn. by rewrite fmap_app, Hb.
Qed.

(** The tests a path selects in a mode, when the executable for it exists. *)
Definition selected_tests (ctx : Context_) (repos : list TestRepository)
    (pm : list pattern * string) : list Test :=
  if w_exists w (GetVm (w_abspath w) ctx (snd pm))
  then concat (repo_tests re_rest (w_load w) [] (fst pm) (snd pm) <$> repos) else [].

Lemma repo_tests_same repos repos' current_path path mode :
  Forall2 same_repo repos repos' →
  repo_tests re_rest (w_load w) current_path path mode <$> repos' =
  repo_tests re_rest (w_load w) current_path path mode <$> repos.
Proof.
  induction 1 as [|r r' l l' [Hn Hp] _ IH]; [done|].
  rewrite !fmap_cons, IH. f_equal. unfold repo_tests. by rewrite Hn, Hp.
Qed.

(** The cases of a path and a mode with their outcomes. *)
Definition classified (ctx : Context_) (repos : list TestRepository) (sections : list PySection) (defs : gmap string Expression)
    (arch simulator : string) (pm : list pattern * string) : res (list ClassifiedTest) :=
  if w_exists w (GetVm (w_abspath w) ctx (snd pm)) then
    r ← ClassifyTests re_rest depth (run_env w (snd pm) arch simulator) defs sections (case_of <$> selected_tests ctx repos pm);
    Ok (fst (fst r))
  else Ok [].

(** What the listing loop keeps, after the pairs [done]. *)
Record listing_inv (ctx : Context_) (repos : list TestRepository) (sections : list PySection) (defs : gmap string Expression)
    (arch simulator : string) (done : list (list pattern * string)) (st : ListState) : Prop := {
  li_ready : Forall (repo_ready (w_load w)) (ls_repos st);
  li_same : Forall2 same_repo repos (ls_repos st);
  li_tests : ls_unclassified st = concat (selected_tests ctx repos <$> done);
  li_cases : ∃ groups, Forall2 (λ pm cases, classified ctx repos sections defs arch simulator pm = Ok cases) done groups ∧ ls_all_cases st = concat groups }.

Lemma same_repo_trans l1 l2 l3 :
  Forall2 same_repo l1 l2 → Forall2 same_repo l2 l3 → Forall2 same_repo l1 l3.
Proof.
  intros H1. revert l3. induction H1 as [|a b l1 l2 [H1 H2] _ IH]; intros l3 H; inversion H; subst;
    constructor; auto.
  match goal with H : same_repo b _ |- _ => destruct H as [H3 H4] end.
  split; congruence.
Qed.

Lemma list_one_inv ctx repos sections defs arch sim done st pm st' :
  listing_inv ctx repos sections defs arch sim done st →
  list_one re_rest depth w ctx sections defs arch sim st pm = Ok st' →
  listing_inv ctx repos sections defs arch sim (done ++ [pm]) st'.
Proof.
  intros [Hr Hs Ht (groups & Hg & Hc)]. destruct pm as [path mode]. unfold list_one.
  destruct (w_exists w _) eqn:Hex; cbn [negb].
  - destruct (ListTests_loop re_rest (w_load w) [] path mode (ls_repos st) [] Hr)
      as (repos' & -> & Hr' & Hs').
    cbn [mbind res_bind]. intros ([[cases unused] all] & Hcl & [= <-])%res_bind_Ok. cbn [app] in Hcl.
    rewrite (repo_tests_same _ _ _ _ _ Hs) in Hcl |- *.
    assert (Hsel : selected_tests ctx repos (path, mode) = concat (repo_tests re_rest (w_load w) [] path mode <$> repos)) by (unfold selected_tests; cbn; by rewrite Hex).
    split; cbn.
    + done.
    + by eapply same_repo_trans.
    + rewrite fmap_app, concat_app, Ht. f_equal. cbn. by rewrite app_nil_r, Hsel.
    + exists (groups ++ [cases]). split; [|by rewrite concat_app, Hc; cbn; rewrite app_nil_r].
      apply Forall2_app; [done|]. constructor; [|constructor]. unfold classified. cbn [snd]. by rewrite Hex, Hsel, Hcl.
  - intros [= <-]. split; cbn; try done.
    + rewrite fmap_app, concat_app, Ht. cbn. unfold selected_tests. cbn. rewrite Hex.
      by rewrite app_nil_r.
    + exists (groups ++ [[]]). split; [|by rewrite concat_app, Hc; cbn; rewrite app_nil_r].
      apply Forall2_app; [done|]. constructor; [|constructor]. unfold classified. cbn [snd]. by rewrite Hex.
Qed.

Lemma GetTestStatus_ready sections defs repos sections' defs' out repos' :
  Forall (repo_ready (w_load w)) repos →
  Suite_GetTestStatus (w_load w) sections defs repos = Ok (sections', defs', out, repos') →
  Forall (repo_ready (w_load w)) repos' ∧ Forall2 same_repo repos repos'.
Proof.
  intros Hr. revert sections defs sections' defs' out repos'.
  induction Hr as [|r repos Hrd Hr IH]; intros sections defs sections' defs' out repos'; cbn.
  - intros [= _ _ _ <-]. auto.
  - unfold Repository_GetTestStatus. pose proof Hrd as (c & Hl & _).
    destruct (with_config_ready (w_load w) r c (λ c, cfg_GetTestStatus c sections defs) Hrd Hl)
      as (r' & Hrd' & Hsame & ->).
    destruct (cfg_GetTestStatus c sections defs) as [[[sec1 def1] out1]|]; [|done].
    cbn [mbind res_bind].
    intros ([[[sec2 def2] out2] done] & Hrest & [= _ _ _ <-])%res_bind_Ok.
    destruct (IH _ _ _ _ _ _ Hrest). auto.
Qed.

Definition main_repos (o : Options) : list TestRepository :=
  ((λ name, new_TestRepository w (path_join (path_join (w_workspace w) "test") name))
     <$> GetSuites w) ++ (new_TestRepository w <$> o_suite o).
Definition main_paths (args : list string) : list (list pattern) :=
  SplitPath <$> (if decide (length args = 0) then BUILT_IN_TESTS else args).
Definition main_context (o : Options) : Context_ :=
  mkContext (w_workspace w) (o_timeout o) (w_windows w)
    (GetSpecialCommandProcessor (if o_valgrind o
       then Some ("python -u " +:+ path_join (path_join (w_workspace w) "tools") "run-valgrind.py"
                  +:+ " @")
       else o_special_command o)).

(** The exit status of the last part of [Main]. *)
Definition run_status (to_run : list ClassifiedTest) (code : Z) : Prop :=
  match to_run with
  | [] => code = 0%Z
  | _ => match w_run w to_run with RunReturns ok => code = (if ok then 0%Z else 1%Z) | Interrupted => code = 1%Z | RunRaises _ => False end
  end.
Lemma Main_run_code o st code out :
  o_cat o = false → Main_run w o st = Ok (code, out) →
  run_status (filter (λ c, DoSkip c = false) (ls_all_cases st)) code.
Proof.
  intros Hc. unfold Main_run. rewrite Hc. rewrite res_bind_Ok. intros (warned & _ & H). cbn zeta in H.
  unfold run_status. revert H. destruct (filter _ _) as [|c l] eqn:Hf; [by intros [= <- _]|].
  by destruct (w_run w (c :: l)); intros [= <- _].
Qed.

End MainFacts.

(** ** FormatTime *)

(** The milliseconds the three printed fields stand for. *)
Definition shown_millis (d : Q) : Z :=
  let '(m, s, ms) := time_fields d in ((60 * m + s) * 1000 + ms)%Z.

Lemma shown_millis_eq d :
  shown_millis d = ((Qfloor d mod 3600) * 1000 + py_round (d * 1000) mod 1000)%Z.
Proof.
  unfold shown_millis, time_fields. f_equal. f_equal.
  rewrite (Z.rem_mul_r _ 60 60) by lia. lia.
Qed.

Lemma py_round_bounds q : (inject_Z (py_round q) - (1 # 2) <= q < inject_Z (py_round q) + (1 # 2))%Q.
Proof.
  unfold py_round. pose proof (Qfloor_le (q + (1 # 2))) as H1.
  pose proof (Qlt_floor (q + (1 # 2))) as H2. rewrite inject_Z_plus in H2.
  change (inject_Z 1) with 1%Q in H2. lra.
Qed.

Lemma round_range d :
  (1000 * Qfloor d ≤ py_round (d * 1000) ≤ 1000 * Qfloor d + 1000)%Z.
Proof.
  pose proof (py_round_bounds (d * 1000)) as [H1 H2].
  pose proof (Qfloor_le d) as H3. pose proof (Qlt_floor d) as H4. rewrite inject_Z_plus in H4.
  change (inject_Z 1) with 1%Q in H4.
  assert (inject_Z (1000 * Qfloor d - 1) < inject_Z (py_round (d * 1000)))%Q as Hlo.
  { unfold Z.sub. rewrite inject_Z_plus, inject_Z_mult. change (inject_Z 1000) with 1000%Q.
    change (inject_Z (- (1))) with (-1)%Q. lra. }
  assert (inject_Z (py_round (d * 1000)) < inject_Z (1000 * Qfloor d + 1001))%Q as Hhi.
  { rewrite inject_Z_plus, inject_Z_mult. change (inject_Z 1000) with 1000%Q.
    change (inject_Z 1001) with 1001%Q. lra. }
  rewrite <- Zlt_Qlt in Hlo. rewrite <- Zlt_Qlt in Hhi. lia.
Qed.

Lemma round_carry d :
  let r := py_round (d * 1000) in
  (r / 1000 = Qfloor d)%Z ∨ (r / 1000 = Qfloor d + 1 ∧ r mod 1000 = 0)%Z.
Proof.
  cbn zeta. pose proof (round_range d).
  pose proof (Z.div_mod (py_round (d * 1000)) 1000).
  pose proof (Z.mod_pos_bound (py_round (d * 1000)) 1000). lia.
Qed.

(** The time [FormatTime] prints is the time rounded to milliseconds, modulo one
    hour, unless rounding carries into the seconds: then the printed time is one
    second too small, because the seconds are truncated and only the
    milliseconds are rounded. *)
Theorem FormatTime_rounds d :
  let millis := py_round (d * 1000) in
  if (millis / 1000 =? Qfloor d)%Z then shown_millis d = (millis mod 3600000)%Z
  else shown_millis d = ((millis - 1000) mod 3600000)%Z ∧ (millis mod 1000 = 0)%Z.
Proof.
  cbn zeta. rewrite shown_millis_eq. destruct (Z.eqb_spec (py_round (d * 1000) / 1000) (Qfloor d)) as [He|Hne].
  - rewrite <- He, (Z.rem_mul_r _ 1000 3600) by lia. lia.
  - destruct (round_carry d) as [?|[Hk Hz]]; [done|].
    split; [|done]. rewrite Hz, (Z.rem_mul_r _ 1000 3600) by lia.
    replace (py_round (d * 1000) - 1000)%Z with (py_round (d * 1000) + (-1) * 1000)%Z by lia.
    rewrite Z.div_add, Z.mod_add, Hz, Hk by lia. replace (Qfloor d + 1 + -1)%Z with (Qfloor d) by lia. lia.
Qed.

Example FormatTime_carry : FormatTime (9996 # 10000) = "00:00.000".
Proof. reflexivity. Qed.

(** ** Witnesses *)

(** A workspace with one suite of two files; the regular expressions of the
    paths used are all in the modelled fragment. *)
Definition ex_config : Config :=
  SimpleTestConfiguration (λ _ _, false) ["test-fs.js"; "readme.txt"; "test-http.js"]
    (Some "simple/test-http: SKIP").
Definition ex_world (built : bool) : World :=
  mkWorld "/w" false "linux" "ia32" ["simple"; "fixtures"] (λ f, f =s "simple") (λ _, built)
    (λ p, p) (λ p, str_drop 8 p) (λ _, Ok ex_config) (λ _, true) (λ t, ("", ""))
    (λ cases, RunReturns (length cases =? 1)) 0 [].
Definition ex_options (warn : bool) : Options :=
  mkOptions "release" "none" "none" [] false true false false false warn false false None 60 1 [].

Lemma ex_repos_ready built : Forall (repo_ready (w_load (ex_world built))) (main_repos (ex_world built) (ex_options false)).
Proof. repeat constructor. by exists ex_config. Qed.

Lemma Suite_ListTests_correct_witness :
  ∃ tests', Suite_ListTests (λ _ _, false) (λ _, Ok ex_config) [] ["simple"] "release" []
      [mkRepo "simple" "/w/test/simple" false None] =
    Ok ([mkTest ["simple"; "test-fs"] "release" []; mkTest ["simple"; "test-http"] "release" []], tests').
Proof.
  destruct (Suite_ListTests_correct (λ _ _, false) (λ _, Ok ex_config) [] ["simple"] "release"
    [mkRepo "simple" "/w/test/simple" false None]) as (tests' & H & _).
  - constructor; [|constructor]. by exists ex_config.
  - exists tests'. exact H.
Defined.

Lemma missing_shell_witness :
  Main (λ _ _, false) 10 (ex_world false) (ex_options true) [] = Err TypeError ∧
  ∃ out, Main (λ _ _, false) 10 (ex_world false) (ex_options false) [] = Ok (0%Z, out).
Proof.
  split.
  - eapply (missing_shell (λ _ _, false) 10 (ex_world false) (ex_options true) []); reflexivity.
  - eapply (missing_shell (λ _ _, false) 10 (ex_world false) (ex_options false) []); reflexivity.
Defined.

