(* ===== verification/Js2c.v ===== *)
(** * Embedding JavaScript in C (tools/js2c.py)

    [JS2C] expands the constants and macros of macros.py in the modules and
    writes each as an array of character codes.  A Python dict is an
    association list in its iteration order, which the language leaves open:
    the theorems hold for every order.  [ExpandMacros] takes fuel, because the
    loop of the source need not end (see [self_growing_diverges]). *)
From S2P Require Import Prelude PyStr PyRe.

(** ** ToCArray *)

(** The loop: position of the next character, codes so far.  A character
    beyond ASCII prints its place and exits. *)
Fixpoint ToCArray_loop (filename : string) (lines : string) (row col : nat) (result : list string)
    : sum (string * exn) (list string) :=
  match lines with
  | EmptyString => inr result
  | String chr lines' =>
      let col := S col in
      let '(row, col) := if (chr =c nl) || (chr =c cr) then (S row, 0) else (row, col) in
      let value := nat_of_ascii chr in
      if 128 <=? value then
        inl ("non-ascii value " +:+ filename +:+ ":" +:+ str_of_nat row +:+ ":" +:+ str_of_nat col,
             SystemExit 1)
      else ToCArray_loop filename lines' row col (result ++ [str_of_nat value])
  end.

Definition ToCArray (filename lines : string) : sum (string * exn) string :=
  match ToCArray_loop filename lines 1 0 [] with
  | inl e => inl e
  | inr result => inr (join ", " (result ++ ["0"]))
  end.

(** [CompressScript]: the name [JavaScriptMinifier] is not bound in the module. *)
Definition CompressScript (lines : string) (do_jsmin : bool) : res string :=
  if do_jsmin then Err NameError else Ok lines.

(** ** Reading *)

(** [ReadLines] on the text of the file. *)
Definition ReadLines (text : string) : list string :=
  filter (λ l, 0 < String.length l)
    ((λ line, strip (match find "#" line with
                     | Some i => str_take i line
                     | None => line
                     end)) <$> split_on nl text).

(** [s.lstrip(c)] and [s.rstrip(c)] for one character. *)
Fixpoint lstrip_char (c : ascii) (s : string) : string :=
  match s with
  | EmptyString => EmptyString
  | String a s' => if a =c c then lstrip_char c s' else s
  end.
Fixpoint rstrip_char (c : ascii) (s : string) : string :=
  match s with
  | EmptyString => EmptyString
  | String a s' =>
      match rstrip_char c s' with
      | EmptyString => if a =c c then EmptyString else String a EmptyString
      | t => String a t
      end
  end.

(** [ParseValue]: a list of words in brackets, or the text itself. *)
Definition ParseValue (string : string) : sum (list String.string) String.string :=
  let s := strip string in
  if startswith "[" s && endswith "]" s then inl (split_ws (rstrip_char "]" (lstrip_char "[" s)))
  else inr s.

(** ** Dicts *)

Fixpoint dict_set {A} (d : list (string * A)) (k : string) (v : A) : list (string * A) :=
  match d with
  | [] => [(k, v)]
  | (k', v') :: d' => if k' =s k then (k', v) :: d' else (k', v') :: dict_set d' k v
  end.
Fixpoint dict_get {A} (d : list (string * A)) (k : string) : option A :=
  match d with
  | [] => None
  | (k', v') :: d' => if k' =s k then Some v' else dict_get d' k
  end.

(** ** Constants and macros *)

Definition ExpandConstants (lines : string) (constants : list (string * string)) : string :=
  fold_left (λ lines '(key, value), replace key value lines) constants lines.

(** The function of a Python macro is an evaluated lambda: it takes the values
    of the arguments and its result is converted with [str]. *)
Inductive Macro :=
| TextMacro (args : list string) (body : string)
| PythonMacro (args : list string) (fun_ : list string → res string).

Definition macro_args (m : Macro) : list string :=
  match m with TextMacro args _ | PythonMacro args _ => args end.

Definition expand (m : Macro) (mapping : list (string * string)) : res string :=
  match m with
  | TextMacro _ body => Ok (fold_left (λ result '(key, value), replace key value result) mapping body)
  | PythonMacro args fun_ =>
      args ← res_map (λ arg, match dict_get mapping arg with
                             | Some v => Ok v
                             | None => Err KeyError
                             end) args;
      fun_ args
  end.

Definition opens (c : ascii) : bool := (c =c "(") || (c =c "{") || (c =c "[").
Definition closes (c : ascii) : bool := (c =c ")") || (c =c "}") || (c =c "]").

(** The scan over the arguments; [rest] is [lines[end:]].  It returns the
    arguments ended by a comma, [last_match] and [end]. *)
Fixpoint scan_args (lines rest : string) (end_ last_match height : nat) (args : list string)
    : list string * nat * nat :=
  match rest with
  | EmptyString => (args, last_match, end_)
  | String c rest' =>
      if height =? 0 then (args, last_match, end_)
      else if (c =c ",") && (height =? 1) then
        scan_args lines rest' (S end_) (S end_) height (args ++ [str_slice last_match end_ lines])
      else
        let height := if opens c then S height else if closes c then height - 1 else height in
        scan_args lines rest' (S end_) last_match height args
  end.

Section Expand.
(** [ExpandMacros] for the arguments. *)
Context (rec : string → res string).

(** [add_arg]: [arg_index] is 0 at every call. *)
Definition add_arg (m : Macro) (mapping : list (string * string)) (str : string)
    : res (list (string * string)) :=
  replacement ← rec (strip str);
  match head (macro_args m) with
  | None => Err IndexError
  | Some key => Ok (dict_set mapping key replacement)
  end.

(** One round of the while loop: the call at [start] replaced, and [end]. *)
Definition expand_call (name : string) (m : Macro) (lines : string) (start : nat)
    : res (string * nat) :=
  let end_ := start + String.length name + 1 in
  let '(args, last_match, end_) := scan_args lines (str_drop end_ lines) end_ end_ 1 [] in
  mapping ← res_fold (add_arg m) (args ++ [str_slice last_match (end_ - 1) lines]) [];
  result ← expand m mapping;
  Ok (str_take start lines +:+ result +:+ str_drop end_ lines, end_).

Fixpoint macro_loop (fuel : nat) (name : string) (m : Macro) (lines : string) (start : option nat)
    : res string :=
  match start with
  | None => Ok lines
  | Some start =>
      match fuel with
      | 0 => Err OutOfFuel
      | S f =>
          '(lines, end_) ← expand_call name m lines start;
          macro_loop f name m lines (find_from (name +:+ "(") lines end_)
      end
  end.
End Expand.

Fixpoint ExpandMacros (fuel : nat) (macros : list (string * Macro)) (lines : string) : res string :=
  match fuel with
  | 0 => Err OutOfFuel
  | S f =>
      res_fold (λ lines '(name, m),
          macro_loop (ExpandMacros f macros) f name m lines (find_from (name +:+ "(") lines 0))
        macros lines
  end.

(** ** ReadMacros *)

Definition CONST_PATTERN : rx :=
  RCat [RBol; RLit "const"; RPlus is_space; RGrp (RPlus cls_word); RStar is_space; RLit "=";
        RStar is_space; RGrp (RStar (cls_not [";"%char])); RLit ";"; REol].
Definition MACRO_PATTERN : rx :=
  RCat [RBol; RLit "macro"; RPlus is_space; RGrp (RPlus cls_word); RStar is_space; RLit "(";
        RGrp (RStar (cls_not [")"%char])); RLit ")"; RStar is_space; RLit "="; RStar is_space;
        RGrp (RStar (cls_not [";"%char])); RLit ";"; REol].
Definition PYTHON_MACRO_PATTERN : rx :=
  RCat [RBol; RLit "python"; RPlus is_space; RLit "macro"; RPlus is_space; RGrp (RPlus cls_word);
        RStar is_space; RLit "("; RGrp (RStar (cls_not [")"%char])); RLit ")"; RStar is_space;
        RLit "="; RStar is_space; RGrp (RStar (cls_not [";"%char])); RLit ";"; REol].

Section Files.
(** [eval] of the text of a lambda: the function it denotes. *)
Context (py_eval : string → res (list string → res string)).

Definition Macros := (list (string * string) * list (string * Macro))%type.

(** One line.  [raise ("Illegal line: " + line)] raises a string, which Python
    refuses with a TypeError. *)
Definition ReadMacro (acc : Macros) (line : string) : res Macros :=
  let '(constants, macros) := acc in
  let line := match find "#" line with Some hash => str_take hash line | None => line end in
  let line := strip line in
  if String.length line =? 0 then Ok (constants, macros)
  else
    match re_match CONST_PATTERN line with
    | Some [name; value] => Ok (dict_set constants name (strip value), macros)
    | _ =>
        match re_match MACRO_PATTERN line with
        | Some [name; params; body] =>
            Ok (constants,
                dict_set macros name (TextMacro (strip <$> split_on "," params) (strip body)))
        | _ =>
            match re_match PYTHON_MACRO_PATTERN line with
            | Some [name; params; body] =>
                let args := strip <$> split_on "," params in
                fun_ ← py_eval ("lambda " +:+ join "," args +:+ ": " +:+ strip body);
                Ok (constants, dict_set macros name (PythonMacro args fun_))
            | _ => Err TypeError
            end
        end
    end.

Definition ReadMacros (lines : list string) : res Macros := res_fold ReadMacro lines ([], []).

(** ** JS2C *)

(** A double quote. *)
Definition dq : string := String "034" "".

Definition NATIVE_DECLARATION (id : string) : string :=
  "  { " +:+ dq +:+ id +:+ dq +:+ ", " +:+ id +:+ "_native, sizeof(" +:+ id +:+ "_native)-1 }," +:+ nl_str.
Definition SOURCE_DECLARATION (id data : string) : string :=
  "  const char " +:+ id +:+ "_native[] = { " +:+ data +:+ " };" +:+ nl_str.

(** [HEADER_TEMPLATE % {...}]: the keys the template uses must be in the dict. *)
Definition HEADER_TEMPLATE (d : list (string * string)) : res string :=
  match dict_get d "source_lines", dict_get d "native_lines" with
  | Some source_lines, Some native_lines =>
      Ok (join nl_str
        ["#ifndef node_natives_h"; "#define node_natives_h"; "namespace node {"; "";
         source_lines;
         "struct _native {"; "  const char* name;"; "  const char* source;"; "  size_t source_len;";
         "};"; ""; "static const struct _native natives[] = {"; "";
         native_lines;
         "  { NULL, NULL } /* sentinel */"; ""; "};"; ""; "}"; "#endif"; ""])
  | _, _ => Err KeyError
  end.

(** [os.path.split(p)[1]] *)
Definition basename (p : string) : string := default EmptyString (last (split_on "/" p)).

(** Python's [s[:-n]]. *)
Definition drop_end (n : nat) (s : string) : string := str_take (String.length s - n) s.

(** What [JS2C] does to the outside: the files it writes (a file opened for
    writing is emptied), the lines it prints, and the exception that ended
    it. *)
Record Effects := mkEffects {
  ef_writes : list (string * string);
  ef_out : list string;
  ef_result : res unit }.

(** The lists built by the loop over the modules. *)
Record Build := mkBuild {
  ids : list (string * nat);
  delay_ids : list (string * nat);
  source_lines : list string;
  source_lines_empty : list string;
  native_lines : list string }.

Context (read : string → res string) (fuel : nat).

(** The loop that locates the macros file. *)
Definition locate_macros (source : list string) : res (Macros * list string) :=
  res_fold (λ '(m, modules) s,
      if "macros.py" =s basename s then
        text ← read s; m ← ReadMacros (ReadLines text); Ok (m, modules)
      else Ok (m, modules ++ [s]))
    source (([], []), []).

Definition is_delay (s : string) : bool := endswith "-delay.js" s.

Definition module_id (s : string) : string :=
  let id := drop_end 3 (basename s) in if is_delay s then drop_end 6 id else id.

Definition jsmin_marker : string := "// jsminify this file, js2c: jsmin".

(** The text of a module after expansion. *)
Definition expand_module (m : Macros) (s : string) : res string :=
  lines ← read s;
  let do_jsmin := bool_decide (is_Some (find jsmin_marker lines)) in
  let lines := ExpandConstants lines (fst m) in
  lines ← ExpandMacros fuel (snd m) lines;
  CompressScript lines do_jsmin.

(** The loop over the modules; [inl] when an exception ends it. *)
Fixpoint build_modules (m : Macros) (b : Build) (modules : list string)
    : sum (list string * exn) Build :=
  match modules with
  | [] => inr b
  | s :: modules' =>
      match expand_module m s with
      | Err e => inl ([], e)
      | Ok lines =>
          match ToCArray s lines with
          | inl (msg, e) => inl ([msg], e)
          | inr data =>
              let id := module_id s in
              let entry := (id, String.length lines) in
              build_modules m
                (mkBuild (if is_delay s then ids b else ids b ++ [entry])
                   (if is_delay s then delay_ids b ++ [entry] else delay_ids b)
                   (source_lines b ++ [SOURCE_DECLARATION id data])
                   (source_lines_empty b ++ [SOURCE_DECLARATION id "0"])
                   (native_lines b ++ [NATIVE_DECLARATION id]))
                modules'
          end
      end
  end.

(** The dictionaries given to the template, less the keys it does not use (the
    counts and the cases of the index functions). *)
Definition first_dict (b : Build) : list (string * string) :=
  [("source_lines", join nl_str (source_lines b)); ("native_lines", join nl_str (native_lines b))].
Definition second_dict (b : Build) : list (string * string) :=
  [("source_lines", join nl_str (source_lines_empty b))].

(** One [open(target, "w")] and [write]. *)
Definition emit (target : string) (text : res string) (e : Effects) : Effects :=
  match ef_result e with
  | Err _ => e
  | Ok _ =>
      match text with
      | Ok t => mkEffects (ef_writes e ++ [(target, t)]) (ef_out e) (Ok tt)
      | Err x => mkEffects (ef_writes e ++ [(target, EmptyString)]) (ef_out e) (Err x)
      end
  end.

Definition JS2C (source target : list string) : Effects :=
  match locate_macros source with
  | Err e => mkEffects [] [] (Err e)
  | Ok (m, modules) =>
      match build_modules m (mkBuild [] [] [] [] []) modules with
      | inl (out, e) => mkEffects [] out (Err e)
      | inr b =>
          match target with
          | [] => mkEffects [] [] (Err IndexError)
          | t0 :: rest =>
              let e := emit t0 (HEADER_TEMPLATE (first_dict b)) (mkEffects [] [] (Ok tt)) in
              match rest with
              | [] => e
              | t1 :: _ => emit t1 (HEADER_TEMPLATE (second_dict b)) e
              end
          end
      end
  end.

(** [main]: the arguments after the program's name. *)
Definition main (argv : list string) : Effects :=
  match argv with
  | [] => mkEffects [] [] (Err IndexError)
  | natives :: source_files => JS2C source_files [natives]
  end.
End Files.

(** ** The array of a text *)

(** Reading a C initializer back: numbers separated by commas. *)
Fixpoint parse_dec (acc : nat) (s : string) : option nat :=
  match s with
  | EmptyString => Some acc
  | String a s' => if is_digit a then parse_dec (10 * acc + (nat_of_ascii a - 48)) s' else None
  end.
Definition parse_number (s : string) : option nat :=
  match strip s with EmptyString => None | t => parse_dec 0 t end.
Definition c_initializer (text : string) : option (list nat) :=
  mapM parse_number (split_on "," text).

Fixpoint codes (s : string) : list nat :=
  match s with EmptyString => [] | String a s' => nat_of_ascii a :: codes s' end.
Definition is_ascii (s : string) : bool := str_forall (λ a, nat_of_ascii a <? 128) s.

Lemma number_of_char a :
  let t := str_of_nat (nat_of_ascii a) in
  parse_number t = Some (nat_of_ascii a) ∧ parse_number (" " +:+ t) = Some (nat_of_ascii a) ∧
  str_mem "," t = false.
Proof. destruct a as [[] [] [] [] [] [] [] []]; vm_compute; auto. Qed.

Lemma join_sep x l : join ", " (x :: l) = join "," (x :: ((λ y, String " " y) <$> l)).
Proof.
  revert x. induction l as [|y l IH]; intros x; [done|].
  by rewrite fmap_cons, !join_cons, IH, join_cons_head.
Qed.

Lemma ToCArray_loop_ok filename s row col result :
  is_ascii s = true →
  ToCArray_loop filename s row col result = inr (result ++ (str_of_nat <$> codes s)).
Proof.
  revert row col result. induction s as [|a s IH]; intros row col result.
  - intros _. cbn. by rewrite app_nil_r.
  - cbn [is_ascii str_forall]. intros [Ha Hs]%andb_true_iff. cbn [ToCArray_loop codes].
    destruct (if (a =c nl) || (a =c cr) then _ else _) as [row' col'].
    replace (128 <=? nat_of_ascii a) with false by (symmetry; apply Nat.leb_gt, Nat.ltb_lt, Ha).
    rewrite IH by done. by rewrite fmap_cons, <- app_assoc.
Qed.

(** A list of codes, each that of a character. *)
Lemma parse_codes (l : list ascii) :
  mapM parse_number ((λ y, String " " y) <$> (str_of_nat <$> (nat_of_ascii <$> l)))
    = Some (nat_of_ascii <$> l) ∧
  Forall (λ w, str_mem "," w = false) ((λ y, String " " y) <$> (str_of_nat <$> (nat_of_ascii <$> l))).
Proof.
  induction l as [|a l [IH1 IH2]]; [by split|].
  destruct (number_of_char a) as (_ & H1 & H2). rewrite !fmap_cons. split.
  - cbn [mapM]. change (String " " (str_of_nat (nat_of_ascii a))) with (" " +:+ str_of_nat (nat_of_ascii a)).
    rewrite H1. cbn [mbind option_bind]. by rewrite IH1.
  - constructor; [|done]. cbn. done.
Qed.

Lemma codes_list s : codes s = nat_of_ascii <$> String.list_ascii_of_string s.
Proof. induction s as [|a s IH]; [done|]. cbn. by rewrite IH. Qed.

Lemma initializer_codes s :
  c_initializer (join ", " ((str_of_nat <$> codes s) ++ ["0"])) = Some (codes s ++ [0]).
Proof.
  assert (Heq : (str_of_nat <$> codes s) ++ ["0"] =
    str_of_nat <$> (nat_of_ascii <$> (String.list_ascii_of_string s ++ ["000"%char]))).
  { rewrite codes_list, !fmap_app. done. }
  assert (Hc : codes s ++ [0] = nat_of_ascii <$> (String.list_ascii_of_string s ++ ["000"%char])).
  { rewrite codes_list, fmap_app. done. }
  rewrite Heq, Hc. destruct (String.list_ascii_of_string s ++ ["000"%char]) as [|a l] eqn:E;
    [by destruct (String.list_ascii_of_string s)|].
  clear. rewrite !fmap_cons, join_sep. destruct (parse_codes l) as [H1 H2].
  destruct (number_of_char a) as (H3 & _ & H4). unfold c_initializer.
  rewrite split_on_join; [|done|by constructor].
  cbn [mapM]. rewrite H3. cbn [mbind option_bind]. by rewrite H1.
Qed.

(** The row and column of the character after the text [pre]. *)
Fixpoint position (pre : string) (row col : nat) : nat * nat :=
  match pre with
  | EmptyString => (row, S col)
  | String a pre' => if (a =c nl) || (a =c cr) then position pre' (S row) 0 else position pre' row (S col)
  end.

Lemma ToCArray_loop_bad filename pre c post row col result :
  is_ascii pre = true → (128 ≤ nat_of_ascii c) →
  ToCArray_loop filename (pre +:+ String c post) row col result =
    let '(r, k) := position pre row col in
    inl ("non-ascii value " +:+ filename +:+ ":" +:+ str_of_nat r +:+ ":" +:+ str_of_nat k, SystemExit 1).
Proof.
  intros Hpre Hc. revert row col result Hpre. induction pre as [|a pre IH]; intros row col result.
  - intros _. rewrite str_app_nil_l. cbn [ToCArray_loop position].
    assert ((c =c nl) || (c =c cr) = false) as ->.
    { apply orb_false_iff. rewrite !Ascii.eqb_neq. split; intros ->; vm_compute in Hc; lia. }
    rewrite (proj2 (Nat.leb_le _ _) Hc). done.
  - cbn [is_ascii str_forall]. intros [Ha Hs]%andb_true_iff. rewrite str_app_cons.
    cbn [ToCArray_loop position].
    replace (128 <=? nat_of_ascii a) with false by (symmetry; apply Nat.leb_gt, Nat.ltb_lt, Ha).
    destruct ((a =c nl) || (a =c cr)); by rewrite IH.
Qed.

Lemma first_bad s :
  is_ascii s = false →
  ∃ pre c post, s = pre +:+ String c post ∧ is_ascii pre = true ∧ 128 ≤ nat_of_ascii c.
Proof.
  induction s as [|a s IH]; [done|]. cbn [is_ascii str_forall].
  destruct (nat_of_ascii a <? 128) eqn:Ha; cbn.
  - intros (pre & c & post & -> & Hpre & Hc)%IH. exists (String a pre), c, post.
    rewrite str_app_cons. split_and!; try done.
    unfold is_ascii in *. cbn [str_forall]. by rewrite Ha.
  - intros _. exists EmptyString, a, s. split_and!; try done. by apply Nat.ltb_ge.
Qed.

(** The C array of an ASCII text, read as a C initializer, is the list of its
    character codes and a final 0, so [sizeof(array) - 1] is the text's length;
    a text with a character beyond ASCII makes [ToCArray] exit with status 1,
    naming the row and column of the first such character. *)
Theorem ToCArray_correct filename lines :
  (is_ascii lines = true ∧ ∃ data, ToCArray filename lines = inr data ∧
     c_initializer data = Some (codes lines ++ [0]) ∧
     (length <$> c_initializer data) = Some (String.length lines + 1)) ∨
  (∃ pre c post, lines = pre +:+ String c post ∧ is_ascii pre = true ∧ 128 ≤ nat_of_ascii c ∧
     ToCArray filename lines =
       let '(r, k) := position pre 1 0 in
       inl ("non-ascii value " +:+ filename +:+ ":" +:+ str_of_nat r +:+ ":" +:+ str_of_nat k,
            SystemExit 1)).
Proof.
  destruct (is_ascii lines) eqn:E; [left|right].
  - split; [done|]. unfold ToCArray. rewrite ToCArray_loop_ok by done.
    eexists. split; [done|]. cbn [app]. rewrite initializer_codes. split; [done|]. cbn.
    rewrite codes_list, length_app, length_fmap. do 2 f_equal.
    clear. induction lines; cbn; auto.
  - destruct (first_bad lines E) as (pre & c & post & -> & Hpre & Hc).
    exists pre, c, post. split_and!; try done. unfold ToCArray.
    rewrite ToCArray_loop_bad by done. by destruct (position pre 1 0).
Qed.

(** ** Macro expansion *)

Lemma add_args_last rec m k args l mapping :
  head (macro_args m) = Some k →
  res_fold (add_arg rec m) (args ++ [l]) [] = Ok mapping →
  ∃ v, rec (strip l) = Ok v ∧ mapping = [(k, v)].
Proof.
  intros Hk. rewrite res_fold_app, res_bind_Ok. intros (acc & Hacc & Hl).
  assert (Hshape : acc = [] ∨ ∃ v, acc = [(k, v)]).
  { apply (res_fold_inv _ (λ _ acc, acc = [] ∨ ∃ v, acc = [(k, v)])) in Hacc; [done|by left|].
    intros done b x b' Hb _. unfold add_arg. rewrite Hk, res_bind_Ok. intros (v & _ & [= <-]).
    right. exists v. destruct Hb as [->|[v' ->]]; cbn; [done|]. by rewrite String.eqb_refl. }
  cbn in Hl. unfold add_arg in Hl. rewrite Hk in Hl. apply res_bind_Ok in Hl as (acc' & Hl & [= <-]).
  apply res_bind_Ok in Hl as (v & Hv & [= <-]). exists v. split; [done|].
  destruct Hshape as [->|[v' ->]]; cbn; [done|]. by rewrite String.eqb_refl.
Qed.

(** A macro call binds only the macro's first parameter, to the last argument
    of the call: a Python macro of two different parameters never expands, and
    a text macro is expanded with its other parameters left as they stand. *)
Theorem macro_binds_first_only rec name k k2 ks lines start :
  k2 ≠ k →
  (∀ fun_ r, expand_call rec name (PythonMacro (k :: k2 :: ks) fun_) lines start ≠ Ok r) ∧
  (∀ body lines' end_, expand_call rec name (TextMacro (k :: k2 :: ks) body) lines start = Ok (lines', end_) →
     ∃ args last_match v,
       scan_args lines (str_drop (start + String.length name + 1) lines)
         (start + String.length name + 1) (start + String.length name + 1) 1 [] = (args, last_match, end_) ∧
       rec (strip (str_slice last_match (end_ - 1) lines)) = Ok v ∧
       lines' = str_take start lines +:+ replace k v body +:+ str_drop end_ lines).
Proof.
  intros Hne. unfold expand_call.
  destruct (scan_args _ _ _ _ _ _) as [[args last_match] end1]. split.
  - intros fun_ r. rewrite res_bind_Ok. intros (mapping & Hm & Hr).
    apply (add_args_last _ _ k) in Hm as (v & _ & ->); [|done].
    cbn in Hr. rewrite String.eqb_refl in Hr. cbn in Hr.
    rewrite (proj2 (String.eqb_neq k k2)) in Hr by congruence. done.
  - intros body lines' end_. rewrite res_bind_Ok. intros (mapping & Hm & Hr).
    apply (add_args_last _ _ k) in Hm as (v & Hv & ->); [|done].
    cbn in Hr. injection Hr as <- <-. exists args, last_match, v. done.
Qed.

Lemma macro_binds_first_only_witness :
  (∀ r, expand_call Ok "f" (PythonMacro ["a"; "b"] (λ _, Ok "")) "f(1, 2)" 0 ≠ Ok r) ∧
  expand_call Ok "f" (TextMacro ["a"; "b"] "[a|b]") "f(1, 2)" 0 = Ok ("[2|b]", 7).
Proof.
  split; [|reflexivity].
  apply (macro_binds_first_only Ok "f" "a" "b" [] "f(1, 2)" 0). discriminate.
Defined.

Lemma ExpandMacros_single f name m lines :
  ExpandMacros (S f) [(name, m)] lines =
  macro_loop (ExpandMacros f [(name, m)]) f name m lines (find (name +:+ "(") lines).
Proof.
  cbn [ExpandMacros res_fold]. rewrite find_from_0.
  by destruct (macro_loop _ _ _ _ _ _).
Qed.

(** *** Termination for macros that do not grow *)

Lemma scan_args_range n lines rest end_ last h args args' last' end' :
  scan_args lines rest end_ last h args = (args', last', end') →
  n ≤ last ≤ end_ → Forall (λ a, String.length a ≤ String.length lines - n) args →
  end_ ≤ end' ≤ end_ + String.length rest ∧ last ≤ last' ∧
  Forall (λ a, String.length a ≤ String.length lines - n) args'.
Proof.
  revert end_ last h args. induction rest as [|c rest IH]; intros end_ last h args; cbn [scan_args].
  - intros [= <- <- <-] Hl Ha. cbn. split_and!; [lia..|done].
  - destruct (h =? 0); [intros [= <- <- <-] Hl Ha; cbn; split_and!; [lia..|done]|].
    destruct ((c =c ",") && (h =? 1)); intros H Hl Ha.
    + apply IH in H as (H1 & H2 & H3); [cbn; split_and!; [lia..|done]|lia|].
      apply Forall_app. split; [done|]. constructor; [|done].
      pose proof (str_slice_length last end_ lines). lia.
    + apply IH in H as (H1 & H2 & H3); [cbn; split_and!; [lia..|done]|lia|done].
Qed.

(** A macro whose expansion is at most as long as its argument, its name and one
    parenthesis. *)
Definition non_growing (nm : string * Macro) : Prop :=
  ∃ k, head (macro_args (snd nm)) = Some k ∧
    ∀ v, ∃ r, expand (snd nm) [(k, v)] = Ok r ∧
      String.length r ≤ String.length v + String.length (fst nm) + 1.

Section NonGrowing.
(** The expansion of the arguments, up to a length. *)
Context (rec : string → res string) (bound : nat).
Context (rec_ok : ∀ s, String.length s < bound →
  ∃ out, rec s = Ok out ∧ String.length out ≤ String.length s).

Lemma add_args_ok m k args mapping :
  head (macro_args m) = Some k → Forall (λ a, String.length a < bound) args →
  ∃ mapping', res_fold (add_arg rec m) args mapping = Ok mapping'.
Proof.
  intros Hk Ha. revert mapping. induction Ha as [|a args Ha _ IH]; intros mapping; [eauto|].
  cbn [res_fold]. pose proof (strip_length a).
  destruct (rec_ok (strip a)) as (v & Hv & _); [lia|].
  assert (add_arg rec m mapping a = Ok (dict_set mapping k v)) as ->
    by (unfold add_arg; by rewrite Hv, Hk).
  apply IH.
Qed.

Lemma expand_call_ok name m lines start :
  non_growing (name, m) → String.length lines ≤ bound →
  start + String.length (name +:+ "(") ≤ String.length lines →
  ∃ lines' end_, expand_call rec name m lines start = Ok (lines', end_) ∧
    start < end_ ∧ String.length lines' ≤ String.length lines.
Proof.
  intros (k & Hk & Hexp) Hb Hs. rewrite str_length_app in Hs. cbn in Hk, Hexp, Hs.
  unfold expand_call. set (e0 := start + String.length name + 1) in *.
  destruct (scan_args _ _ _ _ _ _) as [[args last] end_] eqn:E.
  apply (scan_args_range e0) in E as (He & Hl & Ha); [|lia|done].
  rewrite str_drop_length in He.
  destruct (str_slice_length last (end_ - 1) lines) as [Hslice Hslice'].
  destruct (add_args_ok m k (args ++ [str_slice last (end_ - 1) lines]) [] Hk) as [mapping Hm].
  { apply Forall_app. split; [eapply Forall_impl; [exact Ha|cbn; lia]|].
    constructor; [lia|done]. }
  rewrite Hm. cbn [mbind res_bind].
  destruct (add_args_last _ _ _ _ _ _ Hk Hm) as (v & Hv & ->).
  pose proof (strip_length (str_slice last (end_ - 1) lines)).
  destruct (rec_ok (strip (str_slice last (end_ - 1) lines))) as (v' & Hv' & Hlen); [lia|].
  assert (v' = v) as -> by congruence.
  destruct (Hexp v) as (r & -> & Hr). cbn [mbind res_bind].
  eexists _, _. split; [done|]. split; [lia|].
  rewrite !str_length_app, str_take_length, str_drop_length. lia.
Qed.

Lemma macro_loop_ok name m n lines start :
  non_growing (name, m) → String.length lines ≤ bound →
  (∀ i, start = Some i → i + String.length (name +:+ "(") ≤ String.length lines ∧
     String.length lines - i ≤ n) →
  ∃ out, macro_loop rec n name m lines start = Ok out ∧ String.length out ≤ String.length lines.
Proof.
  intros Hng. revert lines start. induction n as [|n IH]; intros lines [i|] Hb Hi; try by eexists.
  - destruct (Hi i eq_refl) as [H1 H2]. rewrite str_length_app in H1. cbn in H1. lia.
  - destruct (Hi i eq_refl) as [H1 H2]. cbn [macro_loop].
    destruct (expand_call_ok name m lines i Hng Hb H1) as (lines' & end_ & -> & He & Hl).
    cbn [mbind res_bind].
    destruct (IH lines' (find_from (name +:+ "(") lines' end_)) as (out & Ho & Hol); [lia| |].
    + intros j [Hj1 Hj2]%find_from_range. lia.
    + exists out. split; [done|lia].
Qed.
End NonGrowing.

Lemma ExpandMacros_fold_ok f macros l lines :
  (∀ s, String.length s < f →
     ∃ out, ExpandMacros f macros s = Ok out ∧ String.length out ≤ String.length s) →
  Forall non_growing l → String.length lines ≤ f →
  ∃ out, res_fold (λ lines '(name, m),
      macro_loop (ExpandMacros f macros) f name m lines (find_from (name +:+ "(") lines 0)) l lines
    = Ok out ∧ String.length out ≤ String.length lines.
Proof.
  intros Hrec Hl. revert lines. induction Hl as [|[name m] l Hm _ IH]; intros lines Hlen; [by eexists|].
  cbn [res_fold].
  destruct (macro_loop_ok (ExpandMacros f macros) f Hrec name m f lines
    (find_from (name +:+ "(") lines 0) Hm Hlen) as (out & -> & Ho).
  - intros i [Hi1 Hi2]%find_from_range. lia.
  - cbn [mbind res_bind]. destruct (IH out) as (out' & -> & Ho'); [lia|].
    exists out'. split; [done|lia].
Qed.

(** [ExpandMacros] ends for macros that do not grow (among them all macros of
    node's own build, which have an empty body): fuel above the length of the
    text suffices, and the text does not get longer. *)
Theorem ExpandMacros_total macros lines fuel :
  Forall non_growing macros → String.length lines < fuel →
  ∃ out, ExpandMacros fuel macros lines = Ok out ∧ String.length out ≤ String.length lines.
Proof.
  intros Hng. revert lines. induction fuel as [|f IH]; intros lines Hlen; [lia|].
  cbn [ExpandMacros]. apply ExpandMacros_fold_ok; [exact IH|exact Hng|lia].
Qed.

Definition node_macros : list (string * Macro) :=
  [("debug", TextMacro ["x"] ""); ("assert", TextMacro ["x"] "")].

Lemma ExpandMacros_total_witness :
  ∃ out, ExpandMacros 30 node_macros "a;debug('b');assert(c);d" = Ok out ∧ String.length out ≤ 24.
Proof.
  apply (ExpandMacros_total node_macros "a;debug('b');assert(c);d" 30).
  - repeat constructor; exists "x"; (split; [reflexivity|]); intros v; exists "";
      (split; [reflexivity|cbn; lia]).
  - cbn. lia.
Defined.

(** *** A macro that contains a call of itself *)

Definition self_growing : list (string * Macro) := [("f", TextMacro ["x"] "f(x)f(x)")].
Fixpoint calls (n : nat) : string := match n with 0 => "" | S n => "f(a)" +:+ calls n end.

Lemma calls_length n : String.length (calls n) = 4 * n.
Proof. induction n as [|n IH]; [done|]. cbn [calls]. rewrite str_length_app, IH. cbn. lia. Qed.
Lemma calls_app n m : calls n +:+ calls m = calls (n + m).
Proof.
  induction n as [|n IH]; cbn [calls Nat.add]; [by rewrite str_app_nil_l|].
  by rewrite str_app_assoc, IH.
Qed.
Lemma calls_drop n m : n ≤ m → str_drop (4 * n) (calls m) = calls (m - n).
Proof.
  intros H. replace m with (n + (m - n)) at 1 by lia. rewrite <- calls_app, <- calls_length.
  apply str_drop_app.
Qed.

Lemma ExpandMacros_a fuel : ExpandMacros fuel self_growing "a" = Err OutOfFuel ∨
  ExpandMacros fuel self_growing "a" = Ok "a".
Proof. destruct fuel as [|[|fuel]]; auto. Qed.

Lemma self_growing_round rec n :
  expand_call rec "f" (TextMacro ["x"] "f(x)f(x)") (calls (S n)) (4 * n) =
    (v ← rec "a"; Ok (calls n +:+ replace "x" v "f(x)f(x)", 4 * S n)).
Proof.
  assert (Hd : ∀ k, str_drop (4 * n + k) (calls (S n)) = str_drop k "f(a)").
  { intros k. rewrite <- str_drop_drop, calls_drop by lia. by replace (S n - n) with 1 by lia. }
  assert (Ht : str_take (4 * n) (calls (S n)) = calls n).
  { replace (S n) with (n + 1) by lia. rewrite <- calls_app, <- calls_length. apply str_take_app. }
  assert (Hscan : ∀ ls e, scan_args ls "a)" e e 1 [] = ([], e, e + 2)).
  { intros ls e. cbn. do 2 f_equal. lia. }
  unfold expand_call. change (String.length "f") with 1.
  replace (4 * n + 1 + 1) with (4 * n + 2) by lia. rewrite Hd. change (str_drop 2 "f(a)") with "a)".
  rewrite Hscan. unfold str_slice. rewrite Hd.
  replace (4 * n + 2 + 2 - 1 - (4 * n + 2)) with 1 by lia.
  change (str_take 1 (str_drop 2 "f(a)")) with "a". cbn [app res_fold].
  unfold add_arg. change (strip "a") with "a". destruct (rec "a") as [v|e]; [|done].
  cbn [mbind res_bind head macro_args dict_set expand fold_left].
  rewrite Ht. replace (4 * n + 2 + 2) with (4 * n + 4) by lia. rewrite Hd.
  change (str_drop 4 "f(a)") with "". rewrite str_app_nil_r. do 2 f_equal. lia.
Qed.

Lemma self_growing_loop rec fuel n :
  rec "a" = Err OutOfFuel ∨ rec "a" = Ok "a" →
  macro_loop rec fuel "f" (TextMacro ["x"] "f(x)f(x)") (calls (S n)) (Some (4 * n)) = Err OutOfFuel.
Proof.
  intros Hrec. revert n. induction fuel as [|fuel IH]; intros n; [done|].
  cbn [macro_loop]. rewrite (self_growing_round rec n).
  destruct Hrec as [Hrec|Hrec]; rewrite Hrec; [done|]. cbn [mbind res_bind].
  change (replace "x" "a" "f(x)f(x)") with (calls 2). rewrite calls_app.
  replace (n + 2) with (S (S n)) by lia.
  assert (find_from ("f" +:+ "(") (calls (S (S n))) (4 * S n) = Some (4 * S n)) as ->; [|by apply IH].
  unfold find_from. rewrite calls_length.
  rewrite (proj2 (Nat.leb_le _ _)) by lia. rewrite calls_drop by lia.
  replace (S (S n) - S n) with 1 by lia. change (find ("f" +:+ "(") (calls 1)) with (Some 0).
  cbn [fmap option_fmap option_map]. f_equal. lia.
Qed.

(** The expansion of a macro whose body has two calls of itself never ends: no
    amount of fuel is enough. *)
Theorem self_growing_diverges fuel : ExpandMacros fuel self_growing "f(a)" = Err OutOfFuel.
Proof.
  destruct fuel as [|fuel]; [done|].
  pose proof (self_growing_loop (ExpandMacros fuel self_growing) fuel 0 (ExpandMacros_a fuel)) as H.
  cbn [ExpandMacros res_fold self_growing]. change (find_from ("f" +:+ "(") "f(a)" 0) with (Some 0).
  change (calls 1) with "f(a)" in H. change (4 * 0) with 0 in H. by rewrite H.
Qed.

(** *** One call *)

(** The nesting depth after a text, from depth [h]: [None] when the text has a
    comma at depth 1 or closes the last bracket. *)
Fixpoint nesting (h : nat) (s : string) : option nat :=
  match s with
  | EmptyString => Some h
  | String c s' =>
      if (c =c ",") && (h =? 1) then None
      else
        let h' := if opens c then S h else if closes c then h - 1 else h in
        if h' =? 0 then None else nesting h' s'
  end.

Lemma scan_one lines arg post e last h args :
  h ≠ 0 → nesting h arg = Some 1 →
  scan_args lines (arg +:+ String ")" post) e last h args = (args, last, e + String.length arg + 1).
Proof.
  revert e h. induction arg as [|c arg IH]; intros e h Hh; cbn [nesting].
  - intros [= ->]. rewrite str_app_nil_l. cbn.
    destruct post; cbn; do 2 f_equal; lia.
  - rewrite str_app_cons. cbn [scan_args]. destruct (Nat.eqb_spec h 0); [done|].
    destruct (_ && _); [done|].
    set (h' := if opens c then S h else if closes c then h - 1 else h).
    destruct (Nat.eqb_spec h' 0) as [|Hh']; [done|]. intros Hn. rewrite IH by done.
    do 2 f_equal. cbn. lia.
Qed.

(** A macro of one parameter or more, with text before and after the call. *)
Section Call.
Context (name k body pre arg post : string) (ks : list string).
Context (Hfind : find (name +:+ "(") (pre +:+ name +:+ "(" +:+ arg +:+ ")" +:+ post)
                 = Some (String.length pre)).
Context (Harg : nesting 1 arg = Some 1).
Context (Hinner : find (name +:+ "(") (strip arg) = None).

Let lines := pre +:+ name +:+ "(" +:+ arg +:+ ")" +:+ post.
Let out := pre +:+ replace k (strip arg) body +:+ post.
Let macros := [(name, TextMacro (k :: ks) body)].

Lemma expand_call_one fuel :
  expand_call (ExpandMacros (S fuel) macros) name (TextMacro (k :: ks) body) lines (String.length pre)
    = Ok (out, String.length pre + String.length name + String.length arg + 2).
Proof.
  assert (Hdrop : str_drop (String.length pre + String.length name + 1) lines = arg +:+ ")" +:+ post).
  { replace (_ + 1) with (String.length (pre +:+ name +:+ "("))
      by (rewrite !str_length_app; cbn; lia).
    assert (lines = (pre +:+ name +:+ "(") +:+ (arg +:+ ")" +:+ post)) as ->
      by (unfold lines; by rewrite !str_app_assoc).
    apply str_drop_app. }
  unfold expand_call. rewrite Hdrop. change (")" +:+ post) with (String ")" post).
  rewrite scan_one by done. cbn [app res_fold].
  set (e0 := String.length pre + String.length name + 1) in *.
  assert (Hslice : str_slice e0 (e0 + String.length arg + 1 - 1) lines = arg).
  { unfold str_slice. rewrite Hdrop. replace (_ - e0) with (String.length arg) by lia. apply str_take_app. }
  rewrite Hslice. unfold add_arg.
  assert (ExpandMacros (S fuel) macros (strip arg) = Ok (strip arg)) as ->.
  { unfold macros. rewrite ExpandMacros_single, Hinner. by destruct fuel. }
  cbn [mbind res_bind head macro_args dict_set expand fold_left].
  assert (str_drop (e0 + String.length arg + 1) lines = post) as ->.
  { replace (e0 + _ + 1) with (e0 + String.length (arg +:+ ")")) by (rewrite str_length_app; cbn; lia).
    rewrite <- str_drop_drop, Hdrop, <- str_app_assoc. apply str_drop_app. }
  assert (str_take (String.length pre) lines = pre) as -> by apply str_take_app.
  do 2 f_equal. unfold e0. lia.
Qed.

Lemma ExpandMacros_one fuel :
  find_from (name +:+ "(") out (String.length pre + String.length name + String.length arg + 2) = None →
  ExpandMacros (S (S fuel)) macros lines = Ok out.
Proof.
  intros Hrest. unfold macros. rewrite ExpandMacros_single. fold macros.
  unfold lines at 2. rewrite Hfind. cbn [macro_loop].
  rewrite expand_call_one. cbn [mbind res_bind]. rewrite Hrest. by destruct fuel.
Qed.
End Call.

(** A text with one call of a text macro, whose argument is balanced, without a
    comma at its own level and without a call inside, becomes the text with the
    call replaced by the body in which the parameter stands for the stripped
    argument; the text around the call is unchanged. *)
Theorem ExpandMacros_call name k ks body pre arg post fuel :
  let lines := pre +:+ name +:+ "(" +:+ arg +:+ ")" +:+ post in
  let out := pre +:+ replace k (strip arg) body +:+ post in
  find (name +:+ "(") lines = Some (String.length pre) →
  nesting 1 arg = Some 1 →
  find (name +:+ "(") (strip arg) = None →
  find_from (name +:+ "(") out (String.length pre + String.length name + String.length arg + 2) = None →
  2 ≤ fuel →
  ExpandMacros fuel [(name, TextMacro (k :: ks) body)] lines = Ok out.
Proof.
  cbn zeta. intros Hf Ha Hi Hr Hfuel. destruct fuel as [|[|fuel]]; [lia..|].
  by apply ExpandMacros_one.
Qed.

Lemma ExpandMacros_call_witness :
  ExpandMacros 2 [("SQ", TextMacro ["x"] "((x)*(x))")] "y = SQ( f(a, b) );"
    = Ok "y = ((f(a, b))*(f(a, b)));".
Proof.
  apply (ExpandMacros_call "SQ" "x" [] "((x)*(x))" "y = " " f(a, b) " ";" 2);
    try reflexivity; lia.
Defined.

(** After a call the search goes on at the call's old end, so when the expansion
    is shorter, text that moved before that position is never looked at: a call
    whose expansion and following text end before the old end of the call (plus
    the room for another call's name) leaves that following text unexpanded,
    whatever calls it holds. *)
Theorem short_expansion_skips name k ks body arg post fuel :
  let lines := name +:+ "(" +:+ arg +:+ ")" +:+ post in
  nesting 1 arg = Some 1 →
  find (name +:+ "(") (strip arg) = None →
  String.length (replace k (strip arg) body) + String.length post
    < 2 * String.length name + String.length arg + 3 →
  2 ≤ fuel →
  ExpandMacros fuel [(name, TextMacro (k :: ks) body)] lines = Ok (replace k (strip arg) body +:+ post).
Proof.
  cbn zeta. intros Ha Hi Hlen Hfuel. destruct fuel as [|[|fuel]]; [lia..|].
  rewrite <- (str_app_nil_l (name +:+ _)), <- (str_app_nil_l (replace _ _ _ +:+ _)).
  apply ExpandMacros_one; [|done..|].
  - rewrite str_app_nil_l. rewrite <- str_app_assoc.
    assert (Hp : String.prefix (name +:+ "(") ((name +:+ "(") +:+ arg +:+ ")" +:+ post) = true)
      by apply prefix_app.
    destruct ((name +:+ "(") +:+ arg +:+ ")" +:+ post); cbn [find]; by rewrite Hp.
  - apply find_from_short. rewrite !str_length_app. cbn. lia.
Qed.

Lemma short_expansion_skips_witness :
  ExpandMacros 9 [("debug", TextMacro ["x"] "")] "debug('one');debug('two');" = Ok ";debug('two');".
Proof.
  apply (short_expansion_skips "debug" "x" [] "" "'one'" ";debug('two');" 9);
    try reflexivity; cbn; lia.
Defined.

(** ** JS2C *)

Section JS2CFacts.
Context (py_eval : string → res (list string → res string)) (read : string → res string) (fuel : nat).

(** The declarations a list of expanded modules gives: identifier, text. *)
Definition declares (mod_text : string * string) (decl : string) : Prop :=
  ∃ data, decl = SOURCE_DECLARATION (module_id (fst mod_text)) data ∧
    c_initializer data = Some (codes (snd mod_text) ++ [0]).

Lemma ToCArray_data filename lines data :
  ToCArray filename lines = inr data → c_initializer data = Some (codes lines ++ [0]).
Proof.
  unfold ToCArray. destruct (is_ascii lines) eqn:E.
  - rewrite ToCArray_loop_ok by done. intros [= <-]. apply initializer_codes.
  - destruct (first_bad lines E) as (pre & c & post & -> & Hpre & Hc).
    rewrite ToCArray_loop_bad by done. by destruct (position pre 1 0).
Qed.

Lemma build_modules_ok m b modules b' :
  build_modules read fuel m b modules = inr b' →
  ∃ texts decls,
    Forall2 (λ s t, expand_module read fuel m s = Ok t) modules texts ∧
    Forall2 declares (zip modules texts) decls ∧
    source_lines b' = source_lines b ++ decls ∧
    native_lines b' = native_lines b ++ ((λ s, NATIVE_DECLARATION (module_id s)) <$> modules).
Proof.
  revert b. induction modules as [|s modules IH]; intros b; cbn [build_modules].
  - intros [= <-]. exists [], []. cbn. rewrite !app_nil_r. split_and!; constructor || done.
  - destruct (expand_module _ _ _ _) as [lines|] eqn:E; [|done].
    destruct (ToCArray s lines) as [[msg e]|data] eqn:Ec; [done|].
    intros (texts & decls & H1 & H2 & H3 & H4)%IH. cbn in H3, H4.
    exists (lines :: texts), (SOURCE_DECLARATION (module_id s) data :: decls).
    rewrite H3, H4, <- !app_assoc. split_and!; [by constructor| |done..].
    constructor; [|done]. exists data. split; [done|]. by eapply ToCArray_data.
Qed.

(** C14: A run of js2c that succeeds writes one file: the header with, for each
    module in order, a char array that is the module's text after expansion with
    a final 0, and the table of the modules' names in the same order. *)
Theorem main_correct natives sources writes out :
  main py_eval read fuel (natives :: sources) = mkEffects writes out (Ok tt) →
  ∃ m modules texts decls text,
    locate_macros py_eval read sources = Ok (m, modules) ∧
    Forall2 (λ s t, expand_module read fuel m s = Ok t) modules texts ∧
    Forall2 declares (zip modules texts) decls ∧
    HEADER_TEMPLATE [("source_lines", join nl_str decls);
      ("native_lines", join nl_str ((λ s, NATIVE_DECLARATION (module_id s)) <$> modules))] = Ok text ∧
    writes = [(natives, text)].
Proof.
  unfold main, JS2C. destruct (locate_macros _ _ _) as [[m modules]|] eqn:Em; [|done].
  destruct (build_modules _ _ _ _ _) as [[o e]|b] eqn:Eb; [done|].
  apply build_modules_ok in Eb as (texts & decls & H1 & H2 & H3 & H4). cbn in H3, H4.
  unfold emit, first_dict. rewrite H3, H4. cbn [ef_result ef_writes ef_out app].
  intros [= <- _]. exists m, modules, texts, decls. eexists. split_and!; done.
Qed.

(** Asking for a second output file never works: where one target succeeds, two
    end with a KeyError, because the dictionary for the second lacks the key
    native_lines; the first file is written and the second is left empty. *)
Theorem second_target_fails sources t0 t1 rest writes out :
  JS2C py_eval read fuel sources [t0] = mkEffects writes out (Ok tt) →
  JS2C py_eval read fuel sources (t0 :: t1 :: rest) =
    mkEffects (writes ++ [(t1, "")]) out (Err KeyError).
Proof.
  unfold JS2C. destruct (locate_macros _ _ _) as [[m modules]|] eqn:Em; [|done].
  destruct (build_modules _ _ _ _ _) as [[o e]|b]; [done|].
  unfold emit, first_dict, second_dict. cbn [ef_result ef_writes ef_out app].
  intros [= <- <-]. done.
Qed.

(** A module that asks for minification cannot be embedded: the minifier's class
    is named without its module, so the compression step raises NameError. *)
Theorem jsmin_fails m s lines out :
  read s = Ok lines → is_Some (find jsmin_marker lines) →
  ExpandMacros fuel (snd m) (ExpandConstants lines (fst m)) = Ok out →
  expand_module read fuel m s = Err NameError.
Proof.
  intros Hr Hm Ho. unfold expand_module. rewrite Hr. cbn [mbind res_bind]. rewrite Ho.
  cbn [mbind res_bind]. by rewrite bool_decide_eq_true_2.
Qed.
End JS2CFacts.

(** ** Witnesses *)

Definition ex_read (f : string) : res string :=
  if f =s "macros.py" then Ok ("const LIMIT = 10;" +:+ nl_str +:+ "macro debug(x) = ;" +:+ nl_str)
  else if f =s "lib/fs.js" then Ok ("a=LIMIT;debug('r');" +:+ nl_str)
  else if f =s "lib/net.js" then Ok jsmin_marker
  else Err IOError.
Definition ex_eval : string → res (list string → res string) := λ _, Err NameError.

Lemma main_correct_witness : ∃ m modules texts,
  locate_macros ex_eval ex_read ["macros.py"; "lib/fs.js"] = Ok (m, modules) ∧
  Forall2 (λ s t, expand_module ex_read 40 m s = Ok t) modules texts.
Proof.
  destruct (main_correct ex_eval ex_read 40 "natives.h" ["macros.py"; "lib/fs.js"] _ []
    ltac:(vm_compute; reflexivity)) as (m & modules & texts & decls & text & H1 & H2 & _).
  exists m, modules, texts. split; [exact H1|exact H2].
Defined.

Lemma second_target_fails_witness :
  ef_result (JS2C ex_eval ex_read 40 ["macros.py"; "lib/fs.js"] ["natives.h"; "empty.h"]) = Err KeyError.
Proof.
  rewrite (second_target_fails ex_eval ex_read 40 ["macros.py"; "lib/fs.js"] "natives.h" "empty.h" [] _ []
    ltac:(vm_compute; reflexivity)).
  reflexivity.
Defined.

Lemma jsmin_fails_witness : expand_module ex_read 40 ([], []) "lib/net.js" = Err NameError.
Proof.
  eapply (jsmin_fails ex_read 40 ([], []) "lib/net.js" jsmin_marker);
    [reflexivity|by eexists|reflexivity].
Defined.
