(* ===== verification/WafTask.v ===== *)
(** * Task groups and the task manager (tools/wafadmin/Task.py)

    [TaskGroup] puts the tasks with equal constraints together, derives an order
    between these constraint groups from their attributes, and hands out sets
    of tasks that may run in parallel.  The hash function and the iteration
    order of a Python dict are parameters: the theorems hold for all of them. *)
From S2P Require Import Prelude PyStr.

(** ** Tasks *)

(** An attribute is a string or a list. *)
Inductive Attr := AStr (s : string) | AList (l : list string).

Record Task := mkTask {
  tk_id : nat;                   (* the object's identity *)
  tk_class : string;             (* __class__.__name__ *)
  tk_before : option Attr;
  tk_after : option Attr;
  tk_ext_in : option Attr;
  tk_ext_out : option Attr;
  tk_maxjobs : Z;                (* of the instance *)
  tk_class_maxjobs : Z }.        (* of the class *)

#[export] Instance Attr_eq_dec : EqDecision Attr.
Proof. solve_decision. Defined.
#[export] Instance Task_eq_dec : EqDecision Task.
Proof. solve_decision. Defined.

(** What [hash_constraints] hashes. *)
Definition Constraints := (string * Attr * Attr * Attr * Attr * Z)%type.
Definition constraints_of (t : Task) : Constraints :=
  (tk_class t, default (AStr "") (tk_before t), default (AStr "") (tk_after t),
   default (AStr "") (tk_ext_in t), default (AStr "") (tk_ext_out t), tk_class_maxjobs t).

(** [Utils.to_list], the absent attribute being the empty tuple. *)
Definition to_list (a : option Attr) : list string :=
  match a with
  | None => []
  | Some (AStr s) => split_ws s
  | Some (AList l) => l
  end.

(** Python's [for k in a] and [k in a]: a string is its characters, and [in] a
    string looks for a substring. *)
Fixpoint chars (s : string) : list string :=
  match s with EmptyString => [] | String a s' => String a "" :: chars s' end.
Definition iterate (a : option Attr) : list string :=
  match a with
  | None => []
  | Some (AStr s) => chars s
  | Some (AList l) => l
  end.
Definition contains (k : string) (a : option Attr) : bool :=
  match a with
  | None => false
  | Some (AStr s) => bool_decide (is_Some (find k s))
  | Some (AList l) => bool_decide (k ∈ l)
  end.

Definition compare_exts (t1 t2 : Task) : Z :=
  if existsb (λ k, contains k (tk_ext_out t2)) (iterate (tk_ext_in t1)) then (-1)%Z
  else if existsb (λ k, contains k (tk_ext_out t1)) (iterate (tk_ext_in t2)) then 1%Z
  else 0%Z.

Definition compare_partial (t1 t2 : Task) : Z :=
  if bool_decide (tk_class t2 ∈ to_list (tk_after t1)) then (-1)%Z
  else if bool_decide (tk_class t2 ∈ to_list (tk_before t1)) then 1%Z
  else if bool_decide (tk_class t1 ∈ to_list (tk_after t2)) then 1%Z
  else if bool_decide (tk_class t1 ∈ to_list (tk_before t2)) then (-1)%Z
  else 0%Z.

(** [compare_exts(...) or compare_partial(...)] *)
Definition compare (t1 t2 : Task) : Z :=
  let v := compare_exts t1 t2 in if (v =? 0)%Z then compare_partial t1 t2 else v.

(** ** Groups *)

Record TaskGroup := mkGroup {
  tasks : list Task;
  cstr_groups : gmap Z (list Task);
  cstr_order : gmap Z (gset Z);
  temp_tasks : list Task;
  ready : bool;
  done : bool;                       (* of [tasks_with_inner_constraints] *)
  run_after : gmap nat (list nat) }. (* of each task, by identity *)

Definition new_TaskGroup (ts : list Task) : TaskGroup := mkGroup ts ∅ ∅ [] false false ∅.

Definition MAXJOBS : Z := 99999999.

Inductive Algo := NORMAL | JOBCONTROL | MAXPARALLEL | UnknownAlgo (name : string).

Section Group.
Context (hash : Constraints → Z).
(** The order in which a dict with these keys is iterated. *)
Context (dict_order : list Z → list Z).

Definition hash_constraints (t : Task) : Z := hash (constraints_of t).

Definition keys {A} (d : gmap Z A) : list Z := dict_order ((map_to_list d).*1).

(** [reset]: the tasks of the constraint groups and the postponed ones go back. *)
Definition reset (g : TaskGroup) : TaskGroup :=
  let ts := tasks g ++ concat ((λ k, default [] (cstr_groups g !! k)) <$> keys (cstr_groups g)) in
  mkGroup (temp_tasks g ++ ts) ∅ ∅ [] false (done g) (run_after g).

(** The DefaultDict lookups [cstr_groups[h].append(x)] and [cstr_order[a].add(b)]. *)
Definition group_add (d : gmap Z (list Task)) (x : Task) : gmap Z (list Task) :=
  let h := hash_constraints x in <[h := default [] (d !! h) ++ [x]]> d.
Definition make_cstr_groups (ts : list Task) : gmap Z (list Task) := fold_left group_add ts ∅.

Definition set_order (o : gmap Z (gset Z)) (a b : Z) : gmap Z (gset Z) :=
  <[a := {[b]} ∪ default ∅ (o !! a)]> o.

(** [cstr_groups[k][0]] *)
Definition group_head (d : gmap Z (list Task)) (k : Z) : res Task :=
  match d !! k ≫= head with Some t => Ok t | None => Err IndexError end.

(** The loops [for i ...: for j in xrange(i + 1, max)]. *)
Fixpoint pairs (l : list Z) : list (Z * Z) :=
  match l with
  | [] => []
  | x :: l' => ((λ y, (x, y)) <$> l') ++ pairs l'
  end.

Definition order_pair (d : gmap Z (list Task)) (o : gmap Z (gset Z)) (ij : Z * Z)
    : res (gmap Z (gset Z)) :=
  let '(ki, kj) := ij in
  t1 ← group_head d ki;
  t2 ← group_head d kj;
  let val := compare t1 t2 in
  Ok (if (0 <? val)%Z then set_order o ki kj else if (val <? 0)%Z then set_order o kj ki else o).

Definition extract_constraints (d : gmap Z (list Task)) : res (gmap Z (gset Z)) :=
  res_fold (order_pair d) (pairs (keys d)) ∅.

(** [prepare]; the hook [file_deps] does nothing unless it is replaced. *)
Definition prepare (g : TaskGroup) : res TaskGroup :=
  let d := make_cstr_groups (tasks g) in
  o ← extract_constraints d;
  Ok (mkGroup (tasks g) d o (temp_tasks g) true (done g) (run_after g)).

Definition prepared (g : TaskGroup) : res TaskGroup := if ready g then Ok g else prepare g.

(** Whether [u] is in one of the sets of [cstr_order.values()]. *)
Definition has_pred (o : gmap Z (gset Z)) (u : Z) : bool :=
  existsb (λ k : gset Z, bool_decide (u ∈ k)) ((map_to_list o).*2).

Definition repr_keys (l : list Z) : string := "[" +:+ join ", " (str_of_Z <$> l) +:+ "]".

Definition set_dicts (g : TaskGroup) (d : gmap Z (list Task)) (o : gmap Z (gset Z)) : TaskGroup :=
  mkGroup (tasks g) d o (temp_tasks g) (ready g) (done g) (run_after g).

Definition tasks_in_parallel (g : TaskGroup) : res (list Task * TaskGroup) :=
  g ← prepared g;
  let d := cstr_groups g in
  let unconnected := filter (λ u, has_pred (cstr_order g) u = false) (keys d) in
  let remainder := filter (λ u, has_pred (cstr_order g) u = true) (keys d) in
  let toreturn := concat ((λ y, default [] (d !! y)) <$> unconnected) in
  let o' := fold_left (λ o y, delete y o) unconnected (cstr_order g) in
  let d' := fold_left (λ d y, delete y d) unconnected d in
  match toreturn, remainder with
  | [], _ :: _ => Err (WafError ("circular order constraint detected " +:+ repr_keys remainder))
  | _, _ => Ok (toreturn, set_dicts g d' o')
  end.

(** The loop of [tasks_by_max_jobs]. *)
Definition max_jobs_step (st : Z * list Task * list Task) (t : Task) : Z * list Task * list Task :=
  let '(maxjobs, ret, remaining) := st in
  let m := tk_maxjobs t in
  if (maxjobs <? m)%Z then (maxjobs, ret, remaining ++ [t])
  else if (m <? maxjobs)%Z then (m, [t], remaining ++ ret)
  else (maxjobs, ret ++ [t], remaining).
Definition max_jobs_loop (ts : list Task) : Z * list Task * list Task :=
  fold_left max_jobs_step ts (MAXJOBS, [], []).

Definition set_temp (g : TaskGroup) (ts : list Task) : TaskGroup :=
  mkGroup (tasks g) (cstr_groups g) (cstr_order g) ts (ready g) (done g) (run_after g).

(** [None] stands for [(None, None)]. *)
Definition tasks_by_max_jobs (g : TaskGroup) : res (option (Z * list Task) * TaskGroup) :=
  g ← prepared g;
  g ← (match temp_tasks g with
       | [] => '(ts, g') ← tasks_in_parallel g; Ok (set_temp g' ts)
       | _ => Ok g
       end);
  match temp_tasks g with
  | [] => Ok (None, g)
  | ts => let '(maxjobs, ret, remaining) := max_jobs_loop ts in
          Ok (Some (maxjobs, ret), set_temp g remaining)
  end.

(** [n.set_run_after(m)] *)
Definition set_run_after (ra : gmap nat (list nat)) (n m : Task) : gmap nat (list nat) :=
  <[tk_id n := default [] (ra !! tk_id n) ++ [tk_id m]]> ra.

Definition inner_pairs (d : gmap Z (list Task)) (o : gmap Z (gset Z)) : list (Task * Task) :=
  p ← keys o; v ← elements (default ∅ (o !! p)); m ← default [] (d !! p); n ← default [] (d !! v);
  [(n, m)].

Definition tasks_with_inner_constraints (g : TaskGroup) : res (option (list Task) * TaskGroup) :=
  g ← prepared g;
  if done g then Ok (None, g)
  else
    let ra := fold_left (λ ra nm, set_run_after ra (fst nm) (snd nm))
                (inner_pairs (cstr_groups g) (cstr_order g)) (run_after g) in
    Ok (Some (tasks g), mkGroup (tasks g) ∅ ∅ (temp_tasks g) true true ra).

(** [get_next_set]; [None] stands for [()]. *)
Definition Group_get_next_set (algotype : Algo) (g : TaskGroup)
    : res (option (Z * list Task) * TaskGroup) :=
  '(maxj, ts, g) ←
    match algotype with
    | NORMAL => '(ts, g) ← tasks_in_parallel g; Ok (MAXJOBS, ts, g)
    | JOBCONTROL =>
        '(r, g) ← tasks_by_max_jobs g;
        Ok (match r with Some (maxj, ts) => (maxj, ts, g) | None => (0%Z, [], g) end)
    | MAXPARALLEL =>
        '(r, g) ← tasks_with_inner_constraints g; Ok (MAXJOBS, default [] r, g)
    | UnknownAlgo a => Err (WafError ("unknown algorithm type " +:+ a))
    end;
  Ok (match ts with [] => None | _ => Some (maxj, ts) end, g).

(** ** The manager *)

(** [log] records the calls of [process_install], by group. *)
Record TaskManager := mkManager {
  groups : list TaskGroup;
  groups_names : list (option string * nat);
  current_group : nat;
  tasks_done : list Task;
  install_log : list nat }.

Definition new_TaskManager : TaskManager := mkManager [] [] 0 [] [].

Fixpoint Manager_loop (fuel : nat) (algotype : Algo) (m : TaskManager)
    : res (option (Z * list Task) * TaskManager) :=
  match groups m !! current_group m with
  | None => Ok (None, m)
  | Some g =>
      match fuel with
      | 0 => Err OutOfFuel
      | S f =>
          '(r, g') ← Group_get_next_set algotype g;
          let gs := <[current_group m := g']> (groups m) in
          match r with
          | Some _ => Ok (r, mkManager gs (groups_names m) (current_group m) (tasks_done m) (install_log m))
          | None =>
              Manager_loop f algotype
                (mkManager gs (groups_names m) (S (current_group m)) (tasks_done m)
                   (install_log m ++ [current_group m]))
          end
      end
  end.
Definition get_next_set (algotype : Algo) (m : TaskManager)
    : res (option (Z * list Task) * TaskManager) :=
  Manager_loop (length (groups m) - current_group m) algotype m.

(** [add_group]: a name that is present is reported and taken over. *)
Definition add_group (name : option string) (set : bool) (m : TaskManager) : TaskManager * list string :=
  let clash := match name with
               | None => false
               | Some n => negb (n =s "") && bool_decide (name ∈ (groups_names m).*1)
               end in
  let i := length (groups m) in
  let names := (name, i) :: filter (λ p, fst p ≠ name) (groups_names m) in
  (mkManager (groups m ++ [new_TaskGroup []]) names (if set then i else current_group m)
     (tasks_done m) (install_log m),
   if clash then ["add_group: name " +:+ default "" name +:+ " already present"] else []).

Definition set_group (idx : sum string nat) (m : TaskManager) : res TaskManager :=
  let go i := mkManager (groups m) (groups_names m) i (tasks_done m) (install_log m) in
  match idx with
  | inl name =>
      match list_find (λ p, fst p = Some name) (groups_names m) with
      | Some (_, (_, i)) => Ok (go i)
      | None => Err KeyError
      end
  | inr i => Ok (go i)
  end.

Definition group_append (g : TaskGroup) (t : Task) : TaskGroup :=
  mkGroup (tasks g ++ [t]) (cstr_groups g) (cstr_order g) (temp_tasks g) (ready g) (done g) (run_after g).

Definition add_task (t : Task) (m : TaskManager) : res TaskManager :=
  let m := match groups m with [] => fst (add_group None true m) | _ => m end in
  match groups m !! current_group m with
  | None => Err IndexError
  | Some g => Ok (mkManager (<[current_group m := group_append g t]> (groups m)) (groups_names m)
                    (current_group m) (tasks_done m) (install_log m))
  end.

Definition total (m : TaskManager) : nat := sum_list_with (λ g, length (tasks g)) (groups m).

(** [add_finished], less the installation it starts when one is asked for. *)
Definition add_finished (t : Task) (m : TaskManager) : TaskManager :=
  mkManager (groups m) (groups_names m) (current_group m) (tasks_done m ++ [t]) (install_log m).
End Group.

(** ** Scheduling in the default mode *)

Section Schedule.
Context (hash : Constraints → Z) (dict_order : list Z → list Z).
Context (dict_order_perm : ∀ l, dict_order l ≡ₚ l).

Notation parallel := (tasks_in_parallel hash dict_order).

(** What the build does with a group: it asks for sets until there is none. *)
Fixpoint drain (fuel : nat) (g : TaskGroup) : res (list (list Task)) :=
  match fuel with
  | 0 => Err OutOfFuel
  | S f =>
      '(ts, g') ← parallel g;
      match ts with
      | [] => Ok []
      | _ => rest ← drain f g'; Ok (ts :: rest)
      end
  end.

Definition flat (d : gmap Z (list Task)) : list Task := map_to_list d ≫= snd.

Lemma elem_of_keys {A} (d : gmap Z A) k : k ∈ keys dict_order d ↔ is_Some (d !! k).
Proof.
  unfold keys. rewrite dict_order_perm, list_elem_of_fmap. split.
  - intros ([k' x] & -> & Hx%elem_of_map_to_list). by exists x.
  - intros [x Hx]. exists (k, x). split; [done|]. by apply elem_of_map_to_list.
Qed.

Lemma NoDup_keys {A} (d : gmap Z A) : NoDup (keys dict_order d).
Proof. unfold keys. rewrite dict_order_perm. apply NoDup_fst_map_to_list. Qed.

Lemma flat_delete d k l : d !! k = Some l → flat d ≡ₚ l ++ flat (delete k d).
Proof. intros H. unfold flat. by rewrite <- (map_to_list_delete d k l H). Qed.

Lemma flat_insert_new d k l : d !! k = None → flat (<[k := l]> d) ≡ₚ l ++ flat d.
Proof. intros H. unfold flat. by rewrite (map_to_list_insert d k l H). Qed.

Lemma elem_of_flat d x : x ∈ flat d ↔ ∃ k l, d !! k = Some l ∧ x ∈ l.
Proof.
  unfold flat. rewrite list_elem_of_bind. split.
  - intros ([k l] & Hx & Hin%elem_of_map_to_list). by exists k, l.
  - intros (k & l & Hk & Hx). exists (k, l). split; [done|]. by apply elem_of_map_to_list.
Qed.

Lemma has_pred_true o u : has_pred o u = true ↔ ∃ a s, o !! a = Some s ∧ u ∈ s.
Proof.
  unfold has_pred. rewrite existsb_exists. split.
  - intros (s & Hs%list_elem_of_In & Hu%bool_decide_eq_true).
    apply list_elem_of_fmap in Hs as ([a s'] & -> & Ha%elem_of_map_to_list).
    exists a, s'. split; [exact Ha|exact Hu].
  - intros (a & s & Ha & Hu). exists s. split; [|by apply bool_decide_eq_true_2].
    apply list_elem_of_In, list_elem_of_fmap. exists (a, s). split; [done|]. by apply elem_of_map_to_list.
Qed.

(** *** The constraint groups *)

Record groups_ok (ts : list Task) (d : gmap Z (list Task)) : Prop := {
  go_flat : flat d ≡ₚ ts;
  go_nonempty : ∀ k l, d !! k = Some l → l ≠ [];
  go_hash : ∀ k l x, d !! k = Some l → x ∈ l → hash_constraints hash x = k }.

Lemma group_add_ok ts d x : groups_ok ts d → groups_ok (ts ++ [x]) (group_add hash d x).
Proof.
  intros [Hf Hn Hh]. unfold group_add. set (h := hash_constraints hash x).
  split.
  - destruct (d !! h) as [l|] eqn:E; cbn.
    + rewrite <- insert_delete_eq, flat_insert_new by apply lookup_delete_eq.
      rewrite (flat_delete d h l E) in Hf. rewrite <- Hf. solve_Permutation.
    + rewrite flat_insert_new by done. rewrite Hf. solve_Permutation.
  - intros k l. rewrite lookup_insert_Some. intros [[<- <-]|[_ H]]; [by intros [_ ?]%app_eq_nil|eauto].
  - intros k l y. rewrite lookup_insert_Some. intros [[<- <-]|[_ H]] Hy; [|eauto].
    apply elem_of_app in Hy as [Hy|Hy%list_elem_of_singleton]; [|by subst].
    destruct (d !! h) as [l|] eqn:E; cbn in Hy; [eauto|by apply not_elem_of_nil in Hy].
Qed.

Lemma make_cstr_groups_ok ts : groups_ok ts (make_cstr_groups hash ts).
Proof.
  unfold make_cstr_groups.
  cut (∀ done d, groups_ok done d → groups_ok (done ++ ts) (fold_left (group_add hash) ts d)).
  { intros H. apply (H [] ∅). split.
    - unfold flat. by rewrite map_to_list_empty.
    - intros k l Hk. by rewrite lookup_empty in Hk.
    - intros k l x Hk. by rewrite lookup_empty in Hk. }
  induction ts as [|x ts IH]; intros done d Hd; [by rewrite app_nil_r|].
  cbn. rewrite (cons_middle x done ts), app_assoc. apply IH. by apply group_add_ok.
Qed.

(** *** The order *)

(** [a] comes before [b] in the dictionary's order of the keys. *)
Fixpoint occurs_before (l : list Z) (a b : Z) : Prop :=
  match l with
  | [] => False
  | x :: l' => (x = a ∧ b ∈ l') ∨ occurs_before l' a b
  end.

Lemma elem_of_pairs l a b : (a, b) ∈ pairs l ↔ occurs_before l a b.
Proof.
  induction l as [|x l IH]; cbn; [by rewrite elem_of_nil|].
  rewrite elem_of_app, IH, list_elem_of_fmap. naive_solver.
Qed.

(** What [extract_constraints] derives from the first tasks of two groups. *)
Definition derived (d : gmap Z (list Task)) (a b : Z) : Prop :=
  ∃ ta tb, d !! a ≫= head = Some ta ∧ d !! b ≫= head = Some tb ∧
    ((occurs_before (keys dict_order d) a b ∧ (0 < compare ta tb)%Z) ∨
     (occurs_before (keys dict_order d) b a ∧ (compare tb ta < 0)%Z)).

Definition row (o : gmap Z (gset Z)) (a : Z) : gset Z := default ∅ (o !! a).

Lemma row_set_order o a b x : row (set_order o a b) x = if decide (x = a) then {[b]} ∪ row o a else row o x.
Proof.
  unfold row, set_order. case_decide as E; [subst; by rewrite lookup_insert_eq|].
  by rewrite lookup_insert_ne by done.
Qed.

Lemma occurs_before_elem l a b : occurs_before l a b → a ∈ l ∧ b ∈ l.
Proof. induction l as [|x l IH]; cbn; [done|]. set_solver. Qed.

(** The relation between the pairs seen so far and the order. *)
Record order_inv (d : gmap Z (list Task)) (seen : list (Z * Z)) (o : gmap Z (gset Z)) : Prop := {
  oi_rows : ∀ a b, b ∈ row o a ↔ ∃ ta tb, d !! a ≫= head = Some ta ∧ d !! b ≫= head = Some tb ∧
    (((a, b) ∈ seen ∧ (0 < compare ta tb)%Z) ∨ ((b, a) ∈ seen ∧ (compare tb ta < 0)%Z));
  oi_dom : ∀ a, is_Some (o !! a) → is_Some (d !! a) }.

Lemma group_head_Ok d k t : group_head d k = Ok t ↔ d !! k ≫= head = Some t.
Proof. unfold group_head. destruct (d !! k ≫= head); naive_solver. Qed.

Lemma head_dom (d : gmap Z (list Task)) k t : d !! k ≫= head = Some t → is_Some (d !! k).
Proof. intros (l & -> & _)%bind_Some. by eexists. Qed.

Lemma order_pair_inv d seen o ij o' :
  order_inv d seen o → order_pair d o ij = Ok o' → order_inv d (seen ++ [ij]) o'.
Proof.
  intros [Hr Hd]. destruct ij as [i j]. unfold order_pair.
  rewrite res_bind_Ok. intros (t1 & H1%group_head_Ok & (t2 & H2%group_head_Ok & [= <-])%res_bind_Ok).
  split.
  - intros a b. setoid_rewrite elem_of_app. setoid_rewrite list_elem_of_singleton.
    destruct (Z.ltb_spec 0 (compare t1 t2)); [|destruct (Z.ltb_spec (compare t1 t2) 0)].
    + rewrite row_set_order. case_decide as E; [subst a|].
      * rewrite elem_of_union, elem_of_singleton, Hr. split.
        -- intros [->|(ta & tb & ?)]; [exists t1, t2; naive_solver|naive_solver].
        -- intros (ta & tb & Ha & Hb & [[[?|[= ->]] ?]|[[?|[= -> ->]] ?]]); simplify_eq;
             [right; naive_solver|by left|right; naive_solver|lia].
      * rewrite Hr. split; [naive_solver|].
        intros (ta & tb & Ha & Hb & [[[?|[= -> ->]] ?]|[[?|[= -> ->]] ?]]); simplify_eq; [naive_solver..|lia].
    + rewrite row_set_order. case_decide as E; [subst a|].
      * rewrite elem_of_union, elem_of_singleton, Hr. split.
        -- intros [->|(ta & tb & ?)]; [exists t2, t1; naive_solver|naive_solver].
        -- intros (ta & tb & Ha & Hb & [[[?|[= -> ->]] ?]|[[?|[= ->]] ?]]); simplify_eq;
             [right; naive_solver|lia|right; naive_solver|by left].
      * rewrite Hr. split; [naive_solver|].
        intros (ta & tb & Ha & Hb & [[[?|[= -> ->]] ?]|[[?|[= -> ->]] ?]]); simplify_eq; [naive_solver|lia|naive_solver..].
    + rewrite Hr. split; [naive_solver|].
      intros (ta & tb & Ha & Hb & [[[?|[= -> ->]] ?]|[[?|[= -> ->]] ?]]); simplify_eq;
        [naive_solver|lia|naive_solver|lia].
  - intros a. unfold set_order. apply head_dom in H1, H2.
    destruct (0 <? compare t1 t2)%Z; [|destruct (compare t1 t2 <? 0)%Z; [|apply Hd]].
    all: rewrite lookup_insert_is_Some; intros [<-|[_ ?]]; auto.
Qed.

Lemma extract_ok d :
  (∀ k l, d !! k = Some l → l ≠ []) →
  ∃ o, extract_constraints dict_order d = Ok o ∧
    (∀ a b, b ∈ row o a ↔ derived d a b) ∧ (∀ a, is_Some (o !! a) → is_Some (d !! a)).
Proof.
  intros Hn. unfold extract_constraints.
  assert (Hex : ∃ o, res_fold (order_pair d) (pairs (keys dict_order d)) ∅ = Ok o).
  { assert (Hin : ∀ ij, ij ∈ pairs (keys dict_order d) → is_Some (d !! fst ij) ∧ is_Some (d !! snd ij)).
    { intros [a b] [Ha Hb]%elem_of_pairs%occurs_before_elem. by rewrite <- !elem_of_keys. }
    revert Hin. generalize (∅ : gmap Z (gset Z)). induction (pairs _) as [|[i j] l IH]; intros o Hin; [by exists o|].
    cbn [res_fold order_pair]. destruct (Hin (i, j)) as [[l1 H1] [l2 H2]]; [left|].
    cbn in H1, H2. unfold group_head. rewrite H1, H2. cbn.
    destruct l1 as [|t1 l1]; [by destruct (Hn _ _ H1)|]. destruct l2 as [|t2 l2]; [by destruct (Hn _ _ H2)|].
    cbn. apply IH. intros ij Hij. apply Hin. by right. }
  destruct Hex as [o Ho]. exists o. split; [done|].
  apply (res_fold_inv _ (order_inv d)) in Ho as [Hr Hd].
  - split; [|done]. intros a b. rewrite Hr. unfold derived. by setoid_rewrite elem_of_pairs.
  - split; [|intros a [x Hx]; by rewrite lookup_empty in Hx].
    intros a b. unfold row. rewrite lookup_empty. cbn. rewrite elem_of_empty.
    split; [done|]. intros (ta & tb & _ & _ & [[H _]|[H _]]); by apply not_elem_of_nil in H.
  - intros seen b x b' Hb _. by apply order_pair_inv.
Qed.

(** *** One round *)

(** The dictionaries of a prepared group. *)
Record dicts_ok (d : gmap Z (list Task)) (o : gmap Z (gset Z)) : Prop := {
  do_nonempty : ∀ k l, d !! k = Some l → l ≠ [];
  do_dom : ∀ a, is_Some (o !! a) → is_Some (d !! a) }.

Definition unconnected (d : gmap Z (list Task)) (o : gmap Z (gset Z)) : list Z :=
  filter (λ u, has_pred o u = false) (keys dict_order d).
Definition batch (d : gmap Z (list Task)) (o : gmap Z (gset Z)) : list Task :=
  concat ((λ y, default [] (d !! y)) <$> unconnected d o).

Lemma lookup_fold_delete {A} (U : list Z) (d : gmap Z A) k :
  fold_left (λ d y, delete y d) U d !! k = if decide (k ∈ U) then None else d !! k.
Proof.
  revert d. induction U as [|y U IH]; intros d; cbn; [done|].
  rewrite IH. destruct (decide (k = y)) as [->|Hne].
  - rewrite lookup_delete_eq. rewrite (decide_True (P := y ∈ y :: U)) by set_solver. by case_decide.
  - rewrite lookup_delete_ne by done. repeat case_decide; set_solver.
Qed.

Lemma batch_split (U : list Z) d :
  NoDup U → (∀ k, k ∈ U → is_Some (d !! k)) →
  flat d ≡ₚ concat ((λ y, default [] (d !! y)) <$> U) ++ flat (fold_left (λ d y, delete y d) U d).
Proof.
  intros HU. revert d. induction HU as [|y U Hy HU IH]; intros d Hin; [done|].
  destruct (Hin y) as [l Hl]; [left|]. rewrite fmap_cons. cbn [concat fold_left]. rewrite Hl. cbn [default].
  rewrite (flat_delete d y l Hl), (IH (delete y d)).
  - assert (Heq : (λ y0, default [] (delete y d !! y0)) <$> U = (λ y0, default [] (d !! y0)) <$> U).
    { apply list_fmap_ext. intros i k Hk. f_equal.
      rewrite lookup_delete_ne; [done|]. intros ->. apply Hy. by eapply list_elem_of_lookup_2. }
    by rewrite Heq, <- app_assoc.
  - intros k Hk. rewrite lookup_delete_ne; [apply Hin; by right|]. congruence.
Qed.

Lemma elem_of_unconnected d o u :
  u ∈ unconnected d o ↔ is_Some (d !! u) ∧ ∀ a, u ∉ row o a.
Proof.
  unfold unconnected. rewrite list_elem_of_filter, elem_of_keys, <- not_true_iff_false, has_pred_true.
  split.
  - intros [Hn Hd]. split; [done|]. intros a Hu. apply Hn. unfold row in Hu.
    destruct (o !! a) as [s|] eqn:E; cbn in Hu; [eauto|set_solver].
  - intros [Hd Hn]. split; [|done]. intros (a & s & Ha & Hu). apply (Hn a). unfold row. by rewrite Ha.
Qed.

Definition next_dicts (d : gmap Z (list Task)) (o : gmap Z (gset Z)) : gmap Z (list Task) * gmap Z (gset Z) :=
  (fold_left (λ d y, delete y d) (unconnected d o) d, fold_left (λ o y, delete y o) (unconnected d o) o).

Lemma parallel_ready g :
  ready g = true →
  parallel g =
    match batch (cstr_groups g) (cstr_order g),
          filter (λ u, has_pred (cstr_order g) u = true) (keys dict_order (cstr_groups g)) with
    | [], (_ :: _) as r => Err (WafError ("circular order constraint detected " +:+ repr_keys r))
    | b, _ => Ok (b, set_dicts g (fst (next_dicts (cstr_groups g) (cstr_order g)))
                       (snd (next_dicts (cstr_groups g) (cstr_order g))))
    end.
Proof.
  intros Hr. unfold tasks_in_parallel, prepared. rewrite Hr. cbn [mbind res_bind].
  unfold batch, unconnected, next_dicts.
  destruct (concat _); [|done]. by destruct (filter (λ u, has_pred _ u = true) _).
Qed.

Lemma next_dicts_ok d o :
  dicts_ok d o → dicts_ok (fst (next_dicts d o)) (snd (next_dicts d o)).
Proof.
  intros [Hn Hd]. split; cbn.
  - intros k l. rewrite lookup_fold_delete. case_decide; [done|]. apply Hn.
  - intros a. rewrite !lookup_fold_delete. case_decide; [intros [? ?]; done|]. apply Hd.
Qed.

Lemma next_dicts_row d o a :
  a ∉ unconnected d o → row (snd (next_dicts d o)) a = row o a.
Proof. intros Ha. unfold row. cbn. rewrite lookup_fold_delete. by rewrite decide_False. Qed.

Lemma next_dicts_lookup d o k :
  k ∉ unconnected d o → fst (next_dicts d o) !! k = d !! k.
Proof. intros Hk. cbn. rewrite lookup_fold_delete. by rewrite decide_False. Qed.

Lemma batch_empty d o : dicts_ok d o → batch d o = [] → unconnected d o = [].
Proof.
  intros [Hn _]. unfold batch. destruct (unconnected d o) as [|u U] eqn:E; [done|].
  rewrite fmap_cons. cbn [concat]. intros [H _]%app_eq_nil.
  assert (Hu : u ∈ unconnected d o) by (rewrite E; left).
  apply elem_of_unconnected in Hu as [[l Hl] _]. rewrite Hl in H. cbn in H. by destruct (Hn _ _ Hl).
Qed.

Lemma keys_shrink d o :
  unconnected d o ≠ [] → size (fst (next_dicts d o)) < size d.
Proof.
  intros HU. destruct (unconnected d o) as [|u U] eqn:E; [done|].
  assert (Hu : u ∈ unconnected d o) by (rewrite E; left).
  apply elem_of_unconnected in Hu as [[l Hl] _].
  apply map_subset_size. apply map_subset_alt. split.
  - apply map_subseteq_spec. intros k x. cbn. rewrite lookup_fold_delete. by case_decide.
  - exists u. split; [|by exists l]. cbn. rewrite lookup_fold_delete, E. rewrite decide_True by left. done.
Qed.

(** *** Draining a prepared group *)

Inductive drain_view (f : nat) (g : TaskGroup) : Prop :=
| DV_batch g' :
    unconnected (cstr_groups g) (cstr_order g) ≠ [] →
    batch (cstr_groups g) (cstr_order g) ≠ [] →
    g' = set_dicts g (fst (next_dicts (cstr_groups g) (cstr_order g)))
                     (snd (next_dicts (cstr_groups g) (cstr_order g))) →
    drain (S f) g = (rest ← drain f g'; Ok (batch (cstr_groups g) (cstr_order g) :: rest)) →
    drain_view f g
| DV_end : cstr_groups g = ∅ → drain (S f) g = Ok [] → drain_view f g
| DV_stuck msg k :
    unconnected (cstr_groups g) (cstr_order g) = [] → is_Some (cstr_groups g !! k) →
    drain (S f) g = Err (WafError msg) → drain_view f g.

Lemma drain_cases f g :
  ready g = true → dicts_ok (cstr_groups g) (cstr_order g) → drain_view f g.
Proof.
  intros Hr Hok. set (d := cstr_groups g) in *. set (o := cstr_order g) in *.
  destruct (batch d o) as [|t b] eqn:Eb.
  - pose proof (batch_empty _ _ Hok Eb) as HU.
    destruct (filter (λ u, has_pred o u = true) (keys dict_order d)) as [|k r] eqn:Er.
    + apply DV_end.
      * apply map_empty. intros k. destruct (d !! k) as [l|] eqn:E; [|done]. exfalso.
        assert (Hk : k ∈ keys dict_order d) by (apply elem_of_keys; by exists l).
        destruct (has_pred o k) eqn:Hp.
        -- apply (not_elem_of_nil k). rewrite <- Er. apply list_elem_of_filter. by rewrite Hp.
        -- apply (not_elem_of_nil k). rewrite <- HU. unfold unconnected. apply list_elem_of_filter. by rewrite Hp.
      * cbn [drain]. rewrite parallel_ready by done. fold d o. by rewrite Eb, Er.
    + apply (DV_stuck _ _ ("circular order constraint detected " +:+ repr_keys (k :: r)) k HU).
      * apply elem_of_keys. assert (Hk : k ∈ filter (λ u, has_pred o u = true) (keys dict_order d))
          by (rewrite Er; left).
        apply list_elem_of_filter in Hk as [_ Hk]. exact Hk.
      * cbn [drain]. rewrite parallel_ready by done. fold d o. by rewrite Eb, Er.
  - eapply DV_batch; [|fold d o; by rewrite Eb|reflexivity|].
    + fold d o. intros HU. unfold batch in Eb. by rewrite HU in Eb.
    + cbn [drain]. rewrite parallel_ready by done. fold d o. rewrite Eb.
      by destruct (filter (λ u, has_pred o u = true) (keys dict_order d)).
Qed.

Lemma unconnected_sub d o :
  NoDup (unconnected d o) ∧ ∀ k, k ∈ unconnected d o → is_Some (d !! k).
Proof.
  split; [apply NoDup_filter, NoDup_keys|]. intros k Hk. by apply elem_of_unconnected in Hk as [? _].
Qed.

Lemma drain_all fuel g batches :
  ready g = true → dicts_ok (cstr_groups g) (cstr_order g) →
  drain fuel g = Ok batches → concat batches ≡ₚ flat (cstr_groups g) ∧ Forall (λ b, b ≠ []) batches.
Proof.
  revert g batches. induction fuel as [|f IH]; intros g batches Hr Hok; [done|].
  destruct (drain_cases f g Hr Hok) as [g' HU Hb Hg ->|Hd ->|msg k _ _ ->]; [| |done].
  - intros (rest & Hrest & [= <-])%res_bind_Ok.
    apply IH in Hrest as [Hc Hne]; [|by rewrite Hg|subst g'; by apply next_dicts_ok].
    split; [|by constructor]. cbn [concat]. rewrite Hc, Hg. cbn [cstr_groups set_dicts].
    destruct (unconnected_sub (cstr_groups g) (cstr_order g)) as [H1 H2].
    symmetry. by apply batch_split.
  - intros [= <-]. rewrite Hd. unfold flat. by rewrite map_to_list_empty.
Qed.

Lemma flat_key d k k' l l' x :
  NoDup (flat d) → d !! k = Some l → x ∈ l → d !! k' = Some l' → x ∈ l' → k = k'.
Proof.
  intros Hnd Hk Hx Hk' Hx'. destruct (decide (k = k')) as [|Hne]; [done|exfalso].
  rewrite (flat_delete d k l Hk) in Hnd. apply NoDup_app in Hnd as (_ & Hd & _).
  apply (Hd x Hx). apply elem_of_flat. exists k', l'. by rewrite lookup_delete_ne.
Qed.

Lemma elem_of_batch d o x : x ∈ batch d o ↔ ∃ k l, k ∈ unconnected d o ∧ d !! k = Some l ∧ x ∈ l.
Proof.
  unfold batch. rewrite elem_of_concat. setoid_rewrite list_elem_of_fmap. split.
  - intros (l & Hx & k & -> & Hk). pose proof (proj1 (elem_of_unconnected d o k) Hk) as [[l Hl] _].
    exists k, l. rewrite Hl in Hx. done.
  - intros (k & l & Hk & Hl & Hx). exists l. split; [done|]. exists k. by rewrite Hl.
Qed.

(** Tasks of ordered groups end up in batches of that order. *)
Lemma drain_ordered fuel g batches a b la lb x y i j bi bj :
  ready g = true → dicts_ok (cstr_groups g) (cstr_order g) → NoDup (flat (cstr_groups g)) →
  drain fuel g = Ok batches →
  b ∈ row (cstr_order g) a → cstr_groups g !! a = Some la → cstr_groups g !! b = Some lb →
  x ∈ la → y ∈ lb →
  batches !! i = Some bi → x ∈ bi → batches !! j = Some bj → y ∈ bj → i < j.
Proof.
  revert g batches i j. induction fuel as [|f IH]; intros g batches i j Hr Hok Hnd; [done|].
  destruct (drain_cases f g Hr Hok) as [g' HU Hb Hg ->|Hd ->|msg k _ _ ->]; [|by intros [= <-]|done].
  intros (rest & Hrest & [= <-])%res_bind_Ok Hord Ha Hbk Hx Hy Hi Hxi Hj Hyj.
  set (d := cstr_groups g) in *. set (o := cstr_order g) in *.
  assert (Hbn : b ∉ unconnected d o) by (rewrite elem_of_unconnected; naive_solver).
  assert (Hj0 : j ≠ 0).
  { intros ->. cbn in Hj. injection Hj as <-. apply elem_of_batch in Hyj as (k & l & Hk & Hl & Hyl).
    by rewrite (flat_key d k b l lb y Hnd Hl Hyl Hbk Hy) in Hk. }
  destruct i as [|i]; [lia|]. destruct j as [|j]; [done|]. cbn in Hi, Hj.
  destruct (unconnected_sub d o) as [HndU HsubU].
  pose proof (batch_split _ d HndU HsubU) as Hperm.
  assert (Hnd' : NoDup (flat (fst (next_dicts d o)))).
  { rewrite Hperm in Hnd. by apply NoDup_app in Hnd as (_ & _ & ?). }
  assert (Han : a ∉ unconnected d o).
  { intros Hau. rewrite Hperm in Hnd. apply NoDup_app in Hnd as (_ & Hdis & _).
    apply (Hdis x); [apply elem_of_batch; naive_solver|].
    destruct (drain_all f g' rest) as [Hc _]; [by subst g'|subst g'; by apply next_dicts_ok|done|].
    rewrite Hg in Hc. cbn [cstr_groups set_dicts] in Hc. fold d o in Hc. cbn [next_dicts fst] in Hc.
    rewrite <- Hc. apply elem_of_concat. exists bi. split; [done|]. by eapply list_elem_of_lookup_2. }
  assert (i < j); [|lia].
  eapply (IH g' rest i j); subst g'; try done; cbn [cstr_groups cstr_order set_dicts]; fold d o.
  - by apply next_dicts_ok.
  - by rewrite next_dicts_row.
  - by rewrite next_dicts_lookup.
  - by rewrite next_dicts_lookup.
Qed.

(** A set of groups each of which waits for another of the set. *)
Definition stuck (d : gmap Z (list Task)) (o : gmap Z (gset Z)) (S : gset Z) : Prop :=
  S ≠ ∅ ∧ ∀ b, b ∈ S → is_Some (d !! b) ∧ ∃ a, a ∈ S ∧ b ∈ row o a.

Lemma drain_total fuel g :
  ready g = true → dicts_ok (cstr_groups g) (cstr_order g) → size (cstr_groups g) < fuel →
  (∃ batches, drain fuel g = Ok batches) ∨
  (∃ msg S, drain fuel g = Err (WafError msg) ∧ stuck (cstr_groups g) (cstr_order g) S).
Proof.
  revert g. induction fuel as [|f IH]; intros g Hr Hok Hsz; [lia|].
  destruct (drain_cases f g Hr Hok) as [g' HU Hb Hg ->|Hd ->|msg k HU Hk ->]; set (d := cstr_groups g) in *; set (o := cstr_order g) in *.
  - pose proof (keys_shrink d o HU).
    destruct (IH g') as [[batches ->]|(msg & S & -> & HS & Hst)].
    + by subst g'.
    + subst g'. by apply next_dicts_ok.
    + subst g'. cbn [cstr_groups set_dicts]. fold d o. lia.
    + left. by eexists.
    + right. exists msg, S. split; [done|]. split; [done|]. subst g'. cbn [cstr_groups cstr_order set_dicts] in Hst.
      fold d o in Hst. intros b HbS. destruct (Hst b HbS) as [[l Hl] (a & HaS & Hba)].
      cbn in Hl. rewrite lookup_fold_delete in Hl. case_decide; [done|]. split; [by exists l|].
      exists a. split; [done|]. unfold row in Hba |- *. cbn in Hba. rewrite lookup_fold_delete in Hba.
      case_decide; [set_solver|done].
  - left. by exists [].
  - right. exists msg, (dom d). split; [done|]. split.
    + intros He. apply (not_elem_of_empty (C := gset Z) k). rewrite <- He. by apply elem_of_dom.
    + intros b Hbd%elem_of_dom. split; [done|].
      destruct (has_pred o b) eqn:Hp.
      * apply has_pred_true in Hp as (a & s & Ha & Hbs). exists a. split.
        -- apply elem_of_dom. destruct Hok as [_ Hdom]. apply Hdom. by exists s.
        -- unfold row. by rewrite Ha.
      * exfalso. apply (not_elem_of_nil b). rewrite <- HU. unfold unconnected.
        apply list_elem_of_filter. split; [done|]. by apply elem_of_keys.
Qed.

Lemma stuck_no_drain fuel g S batches :
  ready g = true → dicts_ok (cstr_groups g) (cstr_order g) →
  stuck (cstr_groups g) (cstr_order g) S → drain fuel g ≠ Ok batches.
Proof.
  revert g batches. induction fuel as [|f IH]; intros g batches Hr Hok [HS Hst]; [done|].
  destruct (drain_cases f g Hr Hok) as [g' HU Hb Hg ->|Hd ->|msg k HU Hk ->]; set (d := cstr_groups g) in *; set (o := cstr_order g) in *; [| |done].
  - intros (rest & Hrest & _)%res_bind_Ok. revert Hrest. apply IH; subst g'; try done; [by apply next_dicts_ok|].
    cbn [cstr_groups cstr_order set_dicts]. fold d o. split; [done|].
    assert (Hnu : ∀ b, b ∈ S → b ∉ unconnected d o).
    { intros b HbS Hbu. apply elem_of_unconnected in Hbu as [_ Hn].
      destruct (Hst b HbS) as [_ (a & _ & Ha)]. by apply (Hn a). }
    intros b HbS. destruct (Hst b HbS) as [Hbd (a & HaS & Hba)].
    rewrite next_dicts_lookup by auto. split; [done|]. exists a. split; [done|].
    by rewrite next_dicts_row by auto.
  - intros _. apply HS. apply set_eq. intros b. split; [|set_solver]. intros HbS.
    destruct (Hst b HbS) as [[l Hl] _]. by rewrite Hd, lookup_empty in Hl.
Qed.

(** *** A new group *)

Lemma prepare_new ts :
  ∃ o, prepare hash dict_order (new_TaskGroup ts) =
      Ok (mkGroup ts (make_cstr_groups hash ts) o [] true false ∅) ∧
    dicts_ok (make_cstr_groups hash ts) o ∧
    (∀ a b, b ∈ row o a ↔ derived (make_cstr_groups hash ts) a b).
Proof.
  destruct (make_cstr_groups_ok ts) as [_ Hn _].
  destruct (extract_ok (make_cstr_groups hash ts) Hn) as (o & Ho & Hrow & Hdom).
  exists o. unfold prepare. cbn [tasks new_TaskGroup]. rewrite Ho. done.
Qed.

Lemma drain_prepare fuel g g' :
  ready g = false → ready g' = true → prepare hash dict_order g = Ok g' → drain fuel g = drain fuel g'.
Proof.
  intros Hr Hr' Hp. destruct fuel as [|f]; [done|]. cbn [drain].
  replace (parallel g) with (parallel g'); [done|].
  unfold tasks_in_parallel, prepared. by rewrite Hr, Hr', Hp.
Qed.

Lemma drain_new ts :
  ∃ g, (∀ fuel, drain fuel (new_TaskGroup ts) = drain fuel g) ∧ ready g = true ∧
    cstr_groups g = make_cstr_groups hash ts ∧ dicts_ok (cstr_groups g) (cstr_order g) ∧
    (∀ a b, b ∈ row (cstr_order g) a ↔ derived (make_cstr_groups hash ts) a b).
Proof.
  destruct (prepare_new ts) as (o & Hp & Hok & Hrow).
  exists (mkGroup ts (make_cstr_groups hash ts) o [] true false ∅).
  split; [|done]. intros fuel. by apply drain_prepare.
Qed.

Lemma size_flat d : (∀ k l, d !! k = Some l → l ≠ []) → size d ≤ length (flat d).
Proof.
  intros Hn. unfold flat. rewrite <- length_map_to_list.
  assert (Hall : Forall (λ kl, snd kl ≠ []) (map_to_list d)).
  { apply Forall_forall. intros [k l] Hkl%elem_of_map_to_list. by eapply Hn. }
  induction Hall as [|[k l] m Hl _ IH]; [done|].
  rewrite bind_cons, length_app. cbn [length snd]. destruct l; [done|]. cbn [length]. lia.
Qed.

(** Tasks whose constraint hashes agree have the same attributes. *)
Definition same_attrs (x y : Task) : Prop :=
  tk_class x = tk_class y ∧ tk_before x = tk_before y ∧ tk_after x = tk_after y ∧
  tk_ext_in x = tk_ext_in y ∧ tk_ext_out x = tk_ext_out y.
Definition no_collision (ts : list Task) : Prop :=
  ∀ x y, x ∈ ts → y ∈ ts → hash_constraints hash x = hash_constraints hash y → same_attrs x y.

Lemma compare_same x x' y y' : same_attrs x x' → same_attrs y y' → compare x y = compare x' y'.
Proof.
  intros (Hc1 & Hb1 & Ha1 & Hi1 & Ho1) (Hc2 & Hb2 & Ha2 & Hi2 & Ho2).
  unfold compare, compare_exts, compare_partial. by rewrite Hc1, Hb1, Ha1, Hi1, Ho1, Hc2, Hb2, Ha2, Hi2, Ho2.
Qed.

Lemma occurs_before_total l a b : NoDup l → a ∈ l → b ∈ l → a ≠ b → occurs_before l a b ∨ occurs_before l b a.
Proof. intros Hl. induction Hl as [|x l Hx Hl IH]; cbn; set_solver. Qed.

(** The group of a task. *)
Lemma group_of ts x :
  x ∈ ts → ∃ l, make_cstr_groups hash ts !! hash_constraints hash x = Some l ∧ x ∈ l ∧
    ∃ t, head l = Some t ∧ t ∈ ts ∧ hash_constraints hash t = hash_constraints hash x.
Proof.
  destruct (make_cstr_groups_ok ts) as [Hf Hn Hh]. intros Hx. rewrite <- Hf in Hx.
  apply elem_of_flat in Hx as (k & l & Hk & Hx). pose proof (Hh _ _ _ Hk Hx) as <-.
  exists l. split; [done|]. split; [done|].
  destruct l as [|t l]; [by destruct (Hn _ _ Hk)|]. exists t. split; [done|]. split.
  - rewrite <- Hf. apply elem_of_flat. eexists _, _. split; [done|]. left.
  - eapply Hh; [done|]. left.
Qed.

(** Two tasks whose comparisons agree get the order the comparison gives. *)
Lemma declared_derived ts x y :
  no_collision ts → x ∈ ts → y ∈ ts → (0 < compare x y)%Z → (compare y x < 0)%Z →
  derived (make_cstr_groups hash ts) (hash_constraints hash x) (hash_constraints hash y).
Proof.
  intros Hnc Hx Hy Hxy Hyx.
  destruct (group_of ts x Hx) as (lx & Hlx & _ & tx & Hhx & Htx & Hex).
  destruct (group_of ts y Hy) as (ly & Hly & _ & ty & Hhy & Hty & Hey).
  assert (Sx : same_attrs tx x) by by apply Hnc. assert (Sy : same_attrs ty y) by by apply Hnc.
  assert (Hne : hash_constraints hash x ≠ hash_constraints hash y).
  { intros He. assert (Sxy : same_attrs x y) by by apply Hnc.
    rewrite (compare_same x y y y Sxy) in Hxy by done.
    rewrite (compare_same y y x y) in Hyx by done. lia. }
  exists tx, ty. rewrite Hlx, Hly. split; [done|]. split; [done|].
  rewrite (compare_same _ _ _ _ Sx Sy), (compare_same _ _ _ _ Sy Sx).
  destruct (occurs_before_total (keys dict_order (make_cstr_groups hash ts))
    (hash_constraints hash x) (hash_constraints hash y)); auto using NoDup_keys.
  - apply elem_of_keys. by eexists.
  - apply elem_of_keys. by eexists.
Qed.

(** C12: The sets a group hands out in the default mode, one after the other, contain
    every task of the group exactly once, and none of them is empty, for every
    hash function and every iteration order of the dictionaries. *)
Theorem schedule_complete ts fuel batches :
  drain fuel (new_TaskGroup ts) = Ok batches →
  concat batches ≡ₚ ts ∧ Forall (λ b, b ≠ []) batches.
Proof.
  destruct (drain_new ts) as (g & -> & Hr & Hg & Hok & _). intros H.
  destruct (drain_all fuel g batches Hr Hok H) as [Hc Hn]. split; [|done].
  rewrite Hc, Hg. apply make_cstr_groups_ok.
Qed.

(** C11: When the declared constraints (ext_in/ext_out, before/after) put task [x]
    before task [y], the sets respect it: [x] is in an earlier set than [y].
    The hashes of the constraints must not collide. *)
Theorem schedule_ordered ts fuel batches x y i j bi bj :
  NoDup ts → no_collision ts →
  drain fuel (new_TaskGroup ts) = Ok batches →
  (0 < compare x y)%Z → (compare y x < 0)%Z →
  batches !! i = Some bi → x ∈ bi → batches !! j = Some bj → y ∈ bj → i < j.
Proof.
  intros Hnd Hnc Hdr Hxy Hyx Hi Hxi Hj Hyj.
  destruct (drain_new ts) as (g & Heq & Hr & Hg & Hok & Hrow). rewrite Heq in Hdr.
  destruct (drain_all fuel g batches Hr Hok Hdr) as [Hc _].
  destruct (make_cstr_groups_ok ts) as [Hf _ _]. rewrite Hg in Hc.
  assert (Hin : ∀ z k b, batches !! k = Some b → z ∈ b → z ∈ ts).
  { intros z k b Hk Hz. rewrite <- Hf, <- Hc. apply elem_of_concat. exists b. split; [done|].
    by eapply list_elem_of_lookup_2. }
  pose proof (Hin x i bi Hi Hxi) as Hx. pose proof (Hin y j bj Hj Hyj) as Hy.
  destruct (group_of ts x Hx) as (lx & Hlx & Hxl & _).
  destruct (group_of ts y Hy) as (ly & Hly & Hyl & _).
  apply (drain_ordered fuel g batches (hash_constraints hash x) (hash_constraints hash y)
    lx ly x y i j bi bj); try done.
  - by rewrite Hg, Hf.
  - apply Hrow. by apply declared_derived.
  - by rewrite Hg.
  - by rewrite Hg.
Qed.

(** Handing out a group either succeeds or ends with the "circular order
    constraint" error, and the error means exactly what it says: there is a set
    of constraint groups in which each one waits for another one of the set. *)
Theorem schedule_circular ts :
  let d := make_cstr_groups hash ts in
  let circular := ∃ S : gset Z, S ≠ ∅ ∧
    ∀ b, b ∈ S → is_Some (d !! b) ∧ ∃ a, a ∈ S ∧ derived d a b in
  match drain (length ts + 1) (new_TaskGroup ts) with
  | Ok _ => ¬ circular
  | Err (WafError _) => circular
  | Err _ => False
  end.
Proof.
  cbn zeta. destruct (drain_new ts) as (g & -> & Hr & Hg & Hok & Hrow).
  assert (Hcirc : ∀ S : gset Z, stuck (cstr_groups g) (cstr_order g) S ↔ (S ≠ ∅ ∧
    ∀ b, b ∈ S → is_Some (make_cstr_groups hash ts !! b) ∧
      ∃ a, a ∈ S ∧ derived (make_cstr_groups hash ts) a b)).
  { intros S. unfold stuck. rewrite Hg. by setoid_rewrite Hrow. }
  destruct (drain_total (length ts + 1) g Hr Hok) as [[batches HE]|(msg & S & -> & HS)].
  - rewrite Hg. destruct (make_cstr_groups_ok ts) as [Hf Hn _].
    pose proof (size_flat _ Hn). rewrite Hf in H. lia.
  - rewrite HE. intros [S HS%Hcirc]. by apply (stuck_no_drain (length ts + 1) g S batches Hr Hok HS).
  - exists S. by apply Hcirc.
Qed.

(** *** Conflicting declarations of two tasks *)

Lemma occurs_before_asym l a b : NoDup l → occurs_before l a b → ¬ occurs_before l b a.
Proof.
  intros Hl. induction Hl as [|x l Hx Hl IH]; cbn; [done|].
  intros [[-> Hb]|Ha] [[-> Hb']|Hb'].
  - by apply Hx.
  - apply occurs_before_elem in Hb' as [_ ?]. by apply Hx.
  - apply occurs_before_elem in Ha as [_ ?]. by apply Hx.
  - by apply IH.
Qed.

Lemma derived_asym d a b : derived d a b → ¬ derived d b a.
Proof.
  intros (ta & tb & Ha & Hb & H1) (tb' & ta' & Hb' & Ha' & H2). simplify_eq.
  pose proof (occurs_before_asym (keys dict_order d) a b (NoDup_keys d)) as Hasym.
  pose proof (occurs_before_asym (keys dict_order d) b a (NoDup_keys d)) as Hasym'.
  destruct H1 as [[? ?]|[? ?]], H2 as [[? ?]|[? ?]]; try lia; tauto.
Qed.

(** A group of two tasks is never reported as circular, even when each of them is
    declared to run after the other: only the first conflicting declaration that
    is looked at counts, and which one that is depends on the order of a
    dictionary. *)
Theorem two_tasks_never_circular x y :
  ∃ batches, drain 3 (new_TaskGroup [x; y]) = Ok batches.
Proof.
  destruct (drain_new [x; y]) as (g & -> & Hr & Hg & Hok & Hrow).
  destruct (make_cstr_groups_ok [x; y]) as [Hf Hn Hh].
  destruct (drain_total 3 g Hr Hok) as [Hb|(msg & S & _ & HS & Hst)].
  - rewrite Hg. pose proof (size_flat _ Hn) as H. rewrite Hf in H. change (length [x; y]) with 2 in H. lia.
  - done.
  - exfalso. apply set_choose_L in HS as [b HbS].
    destruct (Hst b HbS) as [Hbd (a & HaS & Hab%Hrow)].
    destruct (Hst a HaS) as [Had (c & HcS & Hca%Hrow)].
    destruct (Hst c HcS) as [Hcd _]. rewrite Hg in Hbd, Had, Hcd.
    assert (Hk : ∀ k, is_Some (make_cstr_groups hash [x; y] !! k) →
      k = hash_constraints hash x ∨ k = hash_constraints hash y).
    { intros k [l Hl]. destruct l as [|t l]; [by destruct (Hn _ _ Hl)|].
      assert (Ht : t ∈ [x; y]) by (rewrite <- Hf; apply elem_of_flat; eexists _, _; split; [done|left]).
      rewrite <- (Hh _ _ t Hl) by left. set_solver. }
    assert (Hirr : ∀ k, ¬ derived (make_cstr_groups hash [x; y]) k k).
    { intros k Hkk. by apply (derived_asym _ _ _ Hkk). }
    assert (c = b) as ->.
    { destruct (Hk _ Hbd), (Hk _ Had), (Hk _ Hcd); subst; try done; exfalso; by eapply Hirr. }
    by apply (derived_asym _ _ _ Hab).
Qed.

(** *** The other modes *)

Lemma max_jobs_inv ts st :
  let '(mj, ret, rem) := st in
  Forall (λ t, tk_maxjobs t = mj) ret → Forall (λ t, (mj < tk_maxjobs t)%Z) rem →
  let '(mj', ret', rem') := fold_left max_jobs_step ts st in
  ret' ++ rem' ≡ₚ (ret ++ rem) ++ ts ∧ (mj' ≤ mj)%Z ∧
  Forall (λ t, tk_maxjobs t = mj') ret' ∧ Forall (λ t, (mj' < tk_maxjobs t)%Z) rem'.
Proof.
  revert st. induction ts as [|t ts IH]; intros [[mj ret] rem] Hret Hrem; cbn [fold_left].
  - rewrite app_nil_r. split_and!; try done.
  - unfold max_jobs_step at 2. destruct (Z.ltb_spec mj (tk_maxjobs t)); [|destruct (Z.ltb_spec (tk_maxjobs t) mj)].
    + specialize (IH (mj, ret, rem ++ [t]) Hret).
      destruct (fold_left max_jobs_step ts _) as [[mj' ret'] rem'].
      destruct IH as (Hp & ? & ? & ?); [apply Forall_app; auto|]. split_and!; try done.
      rewrite Hp. solve_Permutation.
    + specialize (IH (tk_maxjobs t, [t], rem ++ ret)).
      destruct (fold_left max_jobs_step ts _) as [[mj' ret'] rem'].
      destruct IH as (Hp & ? & ? & ?); [by constructor| |].
      * apply Forall_app. split; (eapply Forall_impl; [done|]); cbn; intros; lia.
      * split_and!; try done; [|lia]. rewrite Hp. solve_Permutation.
    + specialize (IH (mj, ret ++ [t], rem)).
      destruct (fold_left max_jobs_step ts _) as [[mj' ret'] rem'].
      destruct IH as (Hp & ? & ? & ?); [|done|].
      * apply Forall_app. split; [done|]. constructor; [lia|done].
      * split_and!; try done. rewrite Hp. solve_Permutation.
Qed.

(** The job-control mode splits the waiting tasks without losing any: those handed
    out all have the smallest job limit, which is the limit returned, and those
    kept back all allow more jobs. *)
Theorem tasks_by_max_jobs_correct ts :
  let '(maxjobs, ret, remaining) := max_jobs_loop ts in
  ret ++ remaining ≡ₚ ts ∧ (maxjobs ≤ MAXJOBS)%Z ∧
  Forall (λ t, tk_maxjobs t = maxjobs) ret ∧ Forall (λ t, (maxjobs < tk_maxjobs t)%Z) remaining.
Proof.
  unfold max_jobs_loop. pose proof (max_jobs_inv ts (MAXJOBS, [], [])) as H.
  destruct (fold_left max_jobs_step ts _) as [[mj ret] rem].
  by apply H; constructor.
Qed.

Lemma run_after_fold l ra n m :
  m ∈ default [] (fold_left (λ ra nm, set_run_after ra (fst nm) (snd nm)) l ra !! n) ↔
  m ∈ default [] (ra !! n) ∨ ∃ nm, nm ∈ l ∧ tk_id (fst nm) = n ∧ tk_id (snd nm) = m.
Proof.
  revert ra. induction l as [|[x y] l IH]; intros ra; cbn [fold_left fst snd].
  - split; [by left|]. intros [?|(nm & Hnm & _)]; [done|]. by apply not_elem_of_nil in Hnm.
  - rewrite IH. unfold set_run_after. setoid_rewrite elem_of_cons.
    destruct (decide (tk_id x = n)) as [<-|Hne].
    + rewrite lookup_insert_eq. cbn [default]. unfold id. rewrite elem_of_app, list_elem_of_singleton.
      split; [|naive_solver]. intros [[?| ->]|?]; [by left| |naive_solver]. right. exists (x, y). naive_solver.
    + rewrite lookup_insert_ne by done. naive_solver.
Qed.

Lemma elem_of_inner_pairs d o n m :
  (n, m) ∈ inner_pairs dict_order d o ↔
  ∃ p v lm ln, v ∈ row o p ∧ d !! p = Some lm ∧ m ∈ lm ∧ d !! v = Some ln ∧ n ∈ ln.
Proof.
  unfold inner_pairs. rewrite list_elem_of_bind. setoid_rewrite list_elem_of_bind.
  setoid_rewrite list_elem_of_bind. setoid_rewrite list_elem_of_bind.
  setoid_rewrite list_elem_of_singleton. setoid_rewrite elem_of_elements. split.
  - intros (p & (v & (m' & (n' & Heq & Hn) & Hm) & Hv) & _). injection Heq as <- <-. exists p, v.
    destruct (d !! p) as [lm|]; cbn in Hm; [|by apply not_elem_of_nil in Hm].
    destruct (d !! v) as [ln|]; cbn in Hn; [|by apply not_elem_of_nil in Hn].
    exists lm, ln. done.
  - intros (p & v & lm & ln & Hv & Hp & Hm & Hvn & Hn). exists p. split.
    + exists v. split; [|done]. exists m. rewrite Hp, Hvn. split; [|done]. by exists n.
    + apply elem_of_keys. unfold row in Hv. destruct (o !! p); [by eexists|set_solver].
Qed.

(** In the mode that hands out all tasks at once, every task of a group is told to
    run after exactly the tasks of the groups that are ordered before its own. *)
Theorem inner_constraints_correct ts n m :
  NoDup (tk_id <$> ts) → n ∈ ts → m ∈ ts →
  ∃ g', tasks_with_inner_constraints hash dict_order (new_TaskGroup ts) = Ok (Some ts, g') ∧
    (tk_id m ∈ default [] (run_after g' !! tk_id n) ↔
     derived (make_cstr_groups hash ts) (hash_constraints hash m) (hash_constraints hash n)).
Proof.
  intros Hid Hn Hm. destruct (prepare_new ts) as (o & Hp & _ & Hrow).
  destruct (make_cstr_groups_ok ts) as [Hf _ Hh].
  unfold tasks_with_inner_constraints, prepared. cbn [ready new_TaskGroup]. rewrite Hp. cbn [mbind res_bind done].
  eexists. split; [done|]. cbn [run_after]. rewrite run_after_fold, lookup_empty. cbn [default].
  assert (Hinj : ∀ x y, x ∈ ts → y ∈ ts → tk_id x = tk_id y → x = y).
  { intros x y [i Hi]%list_elem_of_lookup [j Hj]%list_elem_of_lookup He.
    assert (i = j); [|congruence]. eapply (NoDup_lookup _ _ _ (tk_id x)); [done| |].
    - by rewrite list_lookup_fmap, Hi.
    - rewrite list_lookup_fmap, Hj, He. done. }
  assert (Hts : ∀ k l x, make_cstr_groups hash ts !! k = Some l → x ∈ l → x ∈ ts).
  { intros k l x Hk Hx. rewrite <- Hf. apply elem_of_flat. by exists k, l. }
  split.
  - intros [Hno|([n' m'] & Hin & Hen & Hem)]; [by apply not_elem_of_nil in Hno|]. cbn in Hen, Hem.
    apply elem_of_inner_pairs in Hin as (p & v & lm & ln & Hv & Hp' & Hm' & Hv' & Hn').
    assert (n' = n) as -> by eauto. assert (m' = m) as -> by eauto.
    rewrite (Hh _ _ _ Hp' Hm'), (Hh _ _ _ Hv' Hn'). by apply Hrow.
  - intros Hd. right. exists (n, m). split; [|done].
    destruct (group_of ts n Hn) as (ln & Hln & Hnl & _). destruct (group_of ts m Hm) as (lm & Hlm & Hml & _).
    apply elem_of_inner_pairs. eexists _, _, lm, ln. split; [by apply Hrow|]. done.
Qed.
End Schedule.

(** ** The manager *)

Section ManagerFacts.
Context (hash : Constraints → Z) (dict_order : list Z → list Z) (algotype : Algo).
Notation group_next := (Group_get_next_set hash dict_order algotype).

(** Nothing in a group needs fuel. *)
Lemma prepared_no_fuel g : prepared hash dict_order g ≠ Err OutOfFuel.
Proof.
  unfold prepared, prepare. destruct (ready g); [done|].
  intros [H|(o & _ & H)]%res_bind_Err; [|done].
  revert H. unfold extract_constraints. generalize (∅ : gmap Z (gset Z)).
  induction (pairs _) as [|[i j] l IH]; intros o; [done|]. cbn [res_fold].
  intros [H|(o' & _ & H)]%res_bind_Err; [|by eapply IH].
  unfold order_pair, group_head in H.
  destruct (_ !! i ≫= head); [|done]. cbn in H. destruct (_ !! j ≫= head); done.
Qed.

Lemma parallel_no_fuel g : tasks_in_parallel hash dict_order g ≠ Err OutOfFuel.
Proof.
  unfold tasks_in_parallel. intros [H|(g' & _ & H)]%res_bind_Err; [by apply prepared_no_fuel in H|].
  destruct (concat _); [|done]. by destruct (filter (λ u, has_pred _ u = true) _).
Qed.

Lemma group_next_no_fuel g : group_next g ≠ Err OutOfFuel.
Proof.
  unfold Group_get_next_set. intros [H|([[? ?] ?] & _ & H)]%res_bind_Err; [|done].
  destruct algotype.
  - apply res_bind_Err in H as [H|([? ?] & _ & H)]; [by apply parallel_no_fuel in H|done].
  - apply res_bind_Err in H as [H|([? ?] & _ & H)]; [|done]. unfold tasks_by_max_jobs in H.
    apply res_bind_Err in H as [H|(g1 & _ & H)]; [by apply prepared_no_fuel in H|].
    apply res_bind_Err in H as [H|(g2 & _ & H)].
    + destruct (temp_tasks g1); [|done].
      apply res_bind_Err in H as [H|([? ?] & _ & H)]; [by apply parallel_no_fuel in H|done].
    + destruct (temp_tasks g2); [done|]. by destruct (max_jobs_loop _) as [[? ?] ?].
  - apply res_bind_Err in H as [H|([? ?] & _ & H)]; [|done]. unfold tasks_with_inner_constraints in H.
    apply res_bind_Err in H as [H|(g1 & _ & H)]; [by apply prepared_no_fuel in H|].
    by destruct (done g1).
  - done.
Qed.

(** What one call of [get_next_set] did, from [m] to [m']. *)
Record manager_step (m m' : TaskManager) (r : option (Z * list Task)) : Prop := {
  ms_forward : current_group m ≤ current_group m';
  ms_log : install_log m' = install_log m ++ seq (current_group m) (current_group m' - current_group m);
  ms_length : length (groups m') = length (groups m);
  ms_skipped : ∀ i g, current_group m ≤ i < current_group m' → groups m !! i = Some g →
    ∃ g', group_next g = Ok (None, g') ∧ groups m' !! i = Some g';
  ms_kept : ∀ i, i < current_group m → groups m' !! i = groups m !! i;
  ms_result : match r with
    | None => length (groups m) ≤ current_group m'
    | Some _ => ∃ g g', groups m !! current_group m' = Some g ∧ group_next g = Ok (r, g') ∧
                  groups m' !! current_group m' = Some g'
    end }.

Lemma Manager_loop_correct fuel m :
  length (groups m) - current_group m ≤ fuel →
  match Manager_loop hash dict_order fuel algotype m with
  | Err e => e ≠ OutOfFuel
  | Ok (r, m') => manager_step m m' r
  end.
Proof.
  revert m. induction fuel as [|f IH]; intros m Hf; cbn [Manager_loop];
    destruct (groups m !! current_group m) as [g|] eqn:Eg.
  - apply lookup_lt_Some in Eg. lia.
  - apply lookup_ge_None in Eg. split; try done; rewrite ?Nat.sub_diag, ?app_nil_r; try done; lia.
  - pose proof (lookup_lt_Some _ _ _ Eg) as Hlt.
    destruct (group_next g) as [[r g']|e] eqn:Er; cbn [mbind res_bind].
    2: { intros ->. by apply (group_next_no_fuel g). }
    destruct r as [r|].
    + split; cbn; rewrite ?Nat.sub_diag, ?app_nil_r, ?length_insert; try done; try lia.
      * intros i Hi. by rewrite list_lookup_insert_ne by lia.
      * exists g, g'. split_and!; try done. by rewrite list_lookup_insert_eq.
    + match goal with |- context [Manager_loop _ _ f _ ?m1] => set (m2 := m1) end.
      specialize (IH m2). destruct (Manager_loop _ _ f _ m2) as [[r m']|e].
      2: { apply IH. cbn. rewrite length_insert. lia. }
      destruct IH as [H1 H2 H3 H4 H5 H6]; [cbn; rewrite length_insert; lia|]. cbn in *.
      split.
      * lia.
      * rewrite H2, <- app_assoc. f_equal. replace (current_group m' - current_group m) with
          (S (current_group m' - S (current_group m))) by lia. done.
      * by rewrite H3, length_insert.
      * intros i gi Hi Hgi. destruct (decide (i = current_group m)) as [->|Hne].
        -- assert (gi = g) as -> by congruence. exists g'. split; [done|].
           rewrite H5 by lia. by rewrite list_lookup_insert_eq.
        -- apply H4; [lia|]. by rewrite list_lookup_insert_ne.
      * intros i Hi. rewrite H5 by lia. by rewrite list_lookup_insert_ne by lia.
      * destruct r as [r|]; [|by rewrite length_insert in H6].
        destruct H6 as (g1 & g1' & Hg1 & Hr & Hg1'). exists g1, g1'. split_and!; try done.
        by rewrite list_lookup_insert_ne in Hg1 by lia.
  - apply lookup_ge_None in Eg. split; try done; rewrite ?Nat.sub_diag, ?app_nil_r; try done; lia.
Qed.

(** The manager takes the groups strictly one after the other: a call of
    [get_next_set] returns the next set of the first group, from the current one
    on, that still has one; every group it passes had none left and has its
    installation functions called once, in order; and the loop always ends. *)
Theorem get_next_set_correct m :
  match get_next_set hash dict_order algotype m with
  | Err e => e ≠ OutOfFuel
  | Ok (r, m') => manager_step m m' r
  end.
Proof. by apply Manager_loop_correct. Qed.
End ManagerFacts.

(** ** Witnesses *)

(** A compiler, a linker that takes its output, and an unrelated task. *)
Definition ex_cc : Task := mkTask 0 "cc" None None (Some (AList [".c"])) (Some (AList [".o"])) MAXJOBS MAXJOBS.
Definition ex_link : Task := mkTask 1 "cc_link" None None (Some (AList [".o"])) None MAXJOBS MAXJOBS.
Definition ex_doc : Task := mkTask 2 "doc" None (Some (AStr "cc_link")) None None MAXJOBS MAXJOBS.
Definition ex_tasks : list Task := [ex_doc; ex_link; ex_cc].
(** A hash without collisions on these tasks. *)
Definition ex_hash (c : Constraints) : Z :=
  let '(name, _, _, _, _, _) := c in Z.of_nat (String.length name).
Definition ex_order (l : list Z) : list Z := l.
Lemma ex_order_perm l : ex_order l ≡ₚ l.
Proof. done. Qed.

Lemma schedule_complete_witness : concat [[ex_cc]; [ex_link]; [ex_doc]] ≡ₚ ex_tasks.
Proof.
  apply (schedule_complete ex_hash ex_order ex_order_perm ex_tasks 4).
  vm_compute. reflexivity.
Defined.

Lemma schedule_ordered_witness : 0 < 1.
Proof.
  apply (schedule_ordered ex_hash ex_order ex_order_perm ex_tasks 4
    [[ex_cc]; [ex_link]; [ex_doc]] ex_cc ex_link 0 1 [ex_cc] [ex_link]);
    try reflexivity; try by left.
  - repeat constructor; set_solver.
  - intros x y Hx Hy. unfold ex_tasks in *. set_unfold in Hx. set_unfold in Hy.
    destruct Hx as [->|[->|[->|[]]]], Hy as [->|[->|[->|[]]]]; intros He; try discriminate He;
      repeat split.
Defined.

Lemma inner_constraints_correct_witness :
  ∃ g', tasks_with_inner_constraints ex_hash ex_order (new_TaskGroup ex_tasks) = Ok (Some ex_tasks, g') ∧
    (0 ∈ default [] (run_after g' !! 1) ↔
     derived ex_order (make_cstr_groups ex_hash ex_tasks) 2 7).
Proof.
  apply (inner_constraints_correct ex_hash ex_order ex_order_perm ex_tasks ex_link ex_cc).
  - repeat constructor; set_solver.
  - set_solver.
  - set_solver.
Defined.

(** Three tasks that wait for each other in a circle. *)
Definition ex_circle : list Task :=
  [ mkTask 0 "a" None (Some (AStr "ccc")) None None MAXJOBS MAXJOBS;
    mkTask 1 "bb" None (Some (AStr "a")) None None MAXJOBS MAXJOBS;
    mkTask 2 "ccc" None (Some (AStr "bb")) None None MAXJOBS MAXJOBS ].

Lemma schedule_circular_witness :
  let d := make_cstr_groups ex_hash ex_circle in
  ∃ S : gset Z, S ≠ ∅ ∧ ∀ b, b ∈ S → is_Some (d !! b) ∧ ∃ a, a ∈ S ∧ derived ex_order d a b.
Proof. exact (schedule_circular ex_hash ex_order ex_order_perm ex_circle). Defined.

(** Two tasks that are each declared to run after the other. *)
Definition ex_t1 : Task := mkTask 0 "a" None (Some (AStr "bb")) None None MAXJOBS MAXJOBS.
Definition ex_t2 : Task := mkTask 1 "bb" None (Some (AStr "a")) None None MAXJOBS MAXJOBS.

Lemma two_tasks_never_circular_witness :
  compare ex_t1 ex_t2 = (-1)%Z ∧ compare ex_t2 ex_t1 = (-1)%Z ∧
  ∃ batches, drain ex_hash ex_order 3 (new_TaskGroup [ex_t1; ex_t2]) = Ok batches.
Proof.
  split; [reflexivity|]. split; [reflexivity|].
  apply (two_tasks_never_circular ex_hash ex_order ex_order_perm).
Defined.
