(* ===== verification/WafRunner.v ===== *)
(** * The parallel task runner (tools/wafadmin/Runner.py)

    [Parallel.start] is the producer: it takes tasks from the manager and puts
    those that may run in a queue; the [TaskConsumer] threads take them from the
    queue, run them and hand them back.  Their interleavings are a step relation.
    Tasks are numbers; the manager is the list of the sets of tasks that its
    [get_next_set] returns one after the other (WafTask.v shows what they are). *)
From S2P Require Import Prelude.

(** [tsk.hasrun] *)
Inductive HasRun := NOT_RUN | MISSING | CRASHED | EXCEPTION | SKIPPED | SUCCESS.
#[export] Instance HasRun_eq_dec : EqDecision HasRun.
Proof. solve_decision. Defined.

(** The answers of [runnable_status]; [StatusRaises] when it raises. *)
Inductive Status := ASK_LATER | SKIP_ME | RUN_ME | StatusRaises.

(** Where the producer is: in [start], and in the two loops of
    [refill_task_list]. *)
Inductive PC :=
| AtWhile      (* while not self.stop *)
| Refill1      (* while self.count > ... *)
| Refill2      (* while not self.outstanding *)
| Refill2b     (* after its [if self.count: self.get_out()] *)
| Next         (* tsk = self.get_next() *)
| Collect      (* while self.error and self.count *)
| Ended.

Record Parallel := mkParallel {
  pc : PC;
  sets : list (Z * list nat);         (* what the manager still has *)
  maxjobs : Z;
  outstanding : list nat;
  frozen : list nat;
  ready : list nat;                   (* TaskConsumer.ready *)
  running : list nat;                 (* held by a consumer *)
  out : list nat;
  finished : list nat;                (* manager.tasks_done *)
  count : nat;
  stop : bool;
  error : bool;
  hasrun : gmap nat HasRun;
  ran : list nat }.                   (* the tasks that were run, in order *)

Definition GAP : Z := 15.
Definition MAXJOBS : Z := 99999999.

Definition status_of (p : Parallel) (t : nat) : HasRun := default NOT_RUN (hasrun p !! t).

(** *** Updates *)
Definition set_pc (p : Parallel) (c : PC) : Parallel :=
  mkParallel c (sets p) (maxjobs p) (outstanding p) (frozen p) (ready p) (running p) (out p)
    (finished p) (count p) (stop p) (error p) (hasrun p) (ran p).
Definition set_lists (p : Parallel) (outs froz : list nat) : Parallel :=
  mkParallel (pc p) (sets p) (maxjobs p) outs froz (ready p) (running p) (out p)
    (finished p) (count p) (stop p) (error p) (hasrun p) (ran p).
Definition set_hasrun (p : Parallel) (t : nat) (h : HasRun) : Parallel :=
  mkParallel (pc p) (sets p) (maxjobs p) (outstanding p) (frozen p) (ready p) (running p) (out p)
    (finished p) (count p) (stop p) (error p) (<[t := h]> (hasrun p)) (ran p).
(** [self.manager.add_finished(tsk)] *)
Definition add_finished (p : Parallel) (t : nat) : Parallel :=
  mkParallel (pc p) (sets p) (maxjobs p) (outstanding p) (frozen p) (ready p) (running p) (out p)
    (finished p ++ [t]) (count p) (stop p) (error p) (hasrun p) (ran p).
Definition set_queues (p : Parallel) (rdy run o : list nat) : Parallel :=
  mkParallel (pc p) (sets p) (maxjobs p) (outstanding p) (frozen p) rdy run o
    (finished p) (count p) (stop p) (error p) (hasrun p) (ran p).
Definition set_count (p : Parallel) (n : nat) : Parallel :=
  mkParallel (pc p) (sets p) (maxjobs p) (outstanding p) (frozen p) (ready p) (running p) (out p)
    (finished p) n (stop p) (error p) (hasrun p) (ran p).
Definition set_sets (p : Parallel) (s : list (Z * list nat)) (mj : Z) : Parallel :=
  mkParallel (pc p) s mj (outstanding p) (frozen p) (ready p) (running p) (out p)
    (finished p) (count p) (stop p) (error p) (hasrun p) (ran p).
Definition set_ran (p : Parallel) (t : nat) : Parallel :=
  mkParallel (pc p) (sets p) (maxjobs p) (outstanding p) (frozen p) (ready p) (running p) (out p)
    (finished p) (count p) (stop p) (error p) (hasrun p) (ran p ++ [t]).

Section Runner.
Context (numjobs : nat) (keep : bool).
(** The attributes of the tasks: what they add when they are collected, and the
    tasks they wait for. *)
Context (more_tasks : nat → list nat) (run_after : nat → list nat).

(** [error_handler] *)
Definition error_handler (p : Parallel) : Parallel :=
  mkParallel (pc p) (sets p) (maxjobs p) (outstanding p) (frozen p) (ready p) (running p) (out p)
    (finished p) (count p) (stop p || negb keep) true (hasrun p) (ran p).

(** [get_out] for the task [ret] at the head of [self.out]. *)
Definition get_out (p : Parallel) (ret : nat) (rest : list nat) : Parallel :=
  let p := add_finished (set_queues p (ready p) (running p) rest) ret in
  let p := if stop p then p else set_lists p (outstanding p ++ more_tasks ret) (frozen p) in
  set_count p (count p - 1).

(** [Task.runnable_status]: a task asks for later as long as one of [run_after]
    has not run; otherwise the answer depends on the signatures, which are left
    open here. *)
Definition may_answer (p : Parallel) (t : nat) (s : Status) : Prop :=
  match s with
  | ASK_LATER => ∃ d, d ∈ run_after t ∧ status_of p d = NOT_RUN
  | _ => ∀ d, d ∈ run_after t → status_of p d ≠ NOT_RUN
  end.

Definition too_many (p : Parallel) : bool :=
  (Z.of_nat numjobs + GAP <? Z.of_nat (count p))%Z || (maxjobs p <=? Z.of_nat (count p))%Z.

(** The producer. *)
Inductive producer : Parallel → Parallel → Prop :=
| P_stop p : pc p = AtWhile → stop p = true → producer p (set_pc p Collect)
| P_go p : pc p = AtWhile → stop p = false → producer p (set_pc p Refill1)
| P_wait p t rest :
    pc p = Refill1 → too_many p = true → out p = t :: rest → producer p (get_out p t rest)
| P_enough p : pc p = Refill1 → too_many p = false → producer p (set_pc p Refill2)
| P_have p : pc p = Refill2 → outstanding p ≠ [] → producer p (set_pc p Next)
| P_take p t rest :
    pc p = Refill2 → outstanding p = [] → count p ≠ 0 → out p = t :: rest →
    producer p (set_pc (get_out p t rest) Refill2b)
| P_idle p : pc p = Refill2 → outstanding p = [] → count p = 0 → producer p (set_pc p Refill2b)
| P_unfreeze p :
    pc p = Refill2b → frozen p ≠ [] →
    producer p (set_pc (set_lists p (outstanding p ++ frozen p) []) Refill2)
| P_again p : pc p = Refill2b → frozen p = [] → count p ≠ 0 → producer p (set_pc p Refill2)
| P_next_set p jobs tmp s :
    pc p = Refill2b → frozen p = [] → count p = 0 → sets p = (jobs, tmp) :: s →
    producer p (set_pc (set_sets (set_lists p (outstanding p ++ tmp) (frozen p)) s jobs) Next)
| P_no_set p :
    pc p = Refill2b → frozen p = [] → count p = 0 → sets p = [] → producer p (set_pc p Next)
| P_none p : pc p = Next → outstanding p = [] → count p ≠ 0 → producer p (set_pc p AtWhile)
| P_break p : pc p = Next → outstanding p = [] → count p = 0 → producer p (set_pc p Collect)
| P_hasrun p t rest :
    pc p = Next → outstanding p = t :: rest → status_of p t ≠ NOT_RUN →
    producer p (set_pc (add_finished (set_lists p rest (frozen p)) t) AtWhile)
| P_raises_stopped p t rest :
    pc p = Next → outstanding p = t :: rest → status_of p t = NOT_RUN → may_answer p t StatusRaises →
    stop p && negb keep = true →
    producer p (set_pc (add_finished (set_hasrun (set_lists p rest (frozen p)) t SKIPPED) t) AtWhile)
| P_raises p t rest :
    pc p = Next → outstanding p = t :: rest → status_of p t = NOT_RUN → may_answer p t StatusRaises →
    stop p && negb keep = false →
    producer p (set_pc (set_hasrun (add_finished (error_handler (set_lists p rest (frozen p))) t) t
                          EXCEPTION) AtWhile)
| P_later p t rest (front : bool) :
    pc p = Next → outstanding p = t :: rest → status_of p t = NOT_RUN → may_answer p t ASK_LATER →
    producer p (set_pc (set_lists p rest (if front then t :: frozen p else frozen p ++ [t])) AtWhile)
| P_skip p t rest :
    pc p = Next → outstanding p = t :: rest → status_of p t = NOT_RUN → may_answer p t SKIP_ME →
    producer p (set_pc (add_finished (set_hasrun (set_lists p rest (frozen p)) t SKIPPED) t) AtWhile)
| P_run p t rest :
    pc p = Next → outstanding p = t :: rest → status_of p t = NOT_RUN → may_answer p t RUN_ME →
    producer p (set_pc (set_count (set_queues (set_lists p rest (frozen p))
                          (ready p ++ [t]) (running p) (out p)) (S (count p))) AtWhile)
| P_collect p t rest :
    pc p = Collect → error p = true → count p ≠ 0 → out p = t :: rest → producer p (get_out p t rest)
| P_end p : pc p = Collect → error p = false ∨ count p = 0 → producer p (set_pc p Ended).

(** How running a task can end: [SUCCESS]; [CRASHED], a return code other than 0;
    [EXCEPTION]; or [MISSING], the WafError [Task.post_run] raises after setting
    [hasrun]. *)
Definition ends_with (h : HasRun) : bool :=
  match h with SUCCESS | CRASHED | EXCEPTION | MISSING => true | _ => false end.

(** A consumer thread: takes a task (and hands it back at once when the build
    stops), or finishes the one it runs. *)
Inductive consumer : Parallel → Parallel → Prop :=
| C_stopped p t rest :
    ready p = t :: rest → length (running p) < numjobs → stop p = true →
    consumer p (set_queues p rest (running p) (out p ++ [t]))
| C_start p t rest :
    ready p = t :: rest → length (running p) < numjobs → stop p = false →
    consumer p (set_ran (set_queues p rest (t :: running p) (out p)) t)
| C_finish p t r1 r2 h :
    running p = r1 ++ t :: r2 → ends_with h = true →
    consumer p (let p' := set_queues (set_hasrun p t h) (ready p) (r1 ++ r2) (out p ++ [t]) in
                if decide (h = SUCCESS) then p' else error_handler p').

Definition step (p p' : Parallel) : Prop := producer p p' ∨ consumer p p'.

(** [Parallel(bld, j)], before [start]. *)
Definition initial (s : list (Z * list nat)) : Parallel :=
  mkParallel AtWhile s MAXJOBS [] [] [] [] [] [] 0 false false ∅ [].

(** ** Invariants *)

Local Ltac step_cases H :=
  destruct H as [H|H]; destruct H; cbn in *;
  unfold get_out, error_handler, set_pc, set_lists, set_hasrun, add_finished, set_queues, set_count,
    set_sets, set_ran in *; cbn in *;
  repeat match goal with
  | |- context [if stop ?p then _ else _] => destruct (stop p) eqn:?; cbn in *
  | |- context [if decide (?h = SUCCESS) then _ else _] => destruct (decide (h = SUCCESS)); cbn in *
  end.

(** The counter counts the tasks that are with the consumers. *)
Definition count_ok (p : Parallel) : Prop :=
  count p = length (ready p) + length (running p) + length (out p).

Lemma count_step p p' : count_ok p → step p p' → count_ok p'.
Proof.
  unfold count_ok. intros Hc Hs. step_cases Hs; try done;
    repeat match goal with
    | H : ready p = _ |- _ => rewrite H in Hc; clear H
    | H : running p = _ |- _ => rewrite H in Hc; clear H
    | H : out p = _ |- _ => rewrite H in Hc; clear H
    end; rewrite ?length_app in *; cbn in *; lia.
Qed.

(** Every task is in one place: in the pool of those not yet collected, among the
    finished ones, or in [rest], those that other tasks may still add; [junk]
    are those that will not be added any more. *)
Definition waiting (p : Parallel) : list nat :=
  outstanding p ++ frozen p ++ ready p ++ running p ++ out p.
Definition set_tasks (p : Parallel) : list nat := concat (snd <$> sets p).
Definition pool (p : Parallel) : list nat := waiting p ++ set_tasks p.

Definition flow_ok (U : list nat) (p : Parallel) : Prop :=
  ∃ rest junk, U ≡ₚ pool p ++ finished p ++ rest ∧
    rest ≡ₚ ((pool p ++ rest) ≫= more_tasks) ++ junk.

(** Tasks that move within the pool. *)
Lemma flow_move U p p' :
  pool p ≡ₚ pool p' → finished p' = finished p → flow_ok U p → flow_ok U p'.
Proof.
  intros Hw Hf (rest & junk & HU & Hr). exists rest, junk. by rewrite Hf, <- Hw.
Qed.

(** A task leaves the pool without adding tasks. *)
Lemma flow_finish U p p' t :
  pool p ≡ₚ t :: pool p' → finished p' = finished p ++ [t] → flow_ok U p → flow_ok U p'.
Proof.
  intros Hw Hf (rest & junk & HU & Hr). exists rest, (junk ++ more_tasks t). rewrite Hf. split.
  - rewrite HU, Hw. solve_Permutation.
  - etrans; [exact Hr|]. rewrite Hw. cbn [app]. rewrite bind_cons. solve_Permutation.
Qed.

(** A task leaves the pool and its tasks are added. *)
Lemma flow_add U p p' t q :
  pool p ≡ₚ t :: q → pool p' ≡ₚ q ++ more_tasks t → finished p' = finished p ++ [t] →
  flow_ok U p → flow_ok U p'.
Proof.
  intros Hw Hw' Hf (rest & junk & HU & Hr). set (rest' := ((q ++ rest) ≫= more_tasks) ++ junk).
  assert (Hrest : rest ≡ₚ more_tasks t ++ rest').
  { etrans; [exact Hr|]. rewrite Hw. cbn [app]. rewrite bind_cons, <- app_assoc. done. }
  exists rest', junk. rewrite Hf. split.
  - rewrite HU, Hw, Hw', Hrest. solve_Permutation.
  - rewrite Hw', <- app_assoc, <- Hrest. done.
Qed.

Local Ltac pool_perm :=
  unfold pool, waiting, set_tasks; cbn;
  repeat match goal with
  | H : outstanding ?p = _ |- _ => rewrite H; clear H
  | H : ready ?p = _ |- _ => rewrite H; clear H
  | H : running ?p = _ |- _ => rewrite H; clear H
  | H : out ?p = _ |- _ => rewrite H; clear H
  | H : sets ?p = _ |- _ => rewrite H; clear H
  | |- context [if ?b then _ :: _ else _] => destruct b
  end; cbn; solve_Permutation.

Lemma runner_flow_step U p p' : flow_ok U p → step p p' → flow_ok U p'.
Proof.
  intros Hf Hs. step_cases Hs.
  all: match goal with Hf : flow_ok ?U ?p |- _ => first
    [ apply (flow_move U p); [|reflexivity|exact Hf]; pool_perm
    | eapply (flow_finish U p); [|reflexivity|exact Hf]; pool_perm
    | match goal with H : out p = ?t :: ?rest |- _ =>
        apply (flow_add U p _ t (outstanding p ++ frozen p ++ ready p ++ running p ++ rest ++ set_tasks p));
          [| |reflexivity|exact Hf]; pool_perm
      end ] end.
Qed.

(** A task that has run stays so. *)
Lemma status_step p p' t : step p p' → status_of p t ≠ NOT_RUN → status_of p' t ≠ NOT_RUN.
Proof.
  unfold status_of. intros Hs Ht. step_cases Hs; try done.
  all: match goal with |- context [<[?x := _]> _ !! ?y] => destruct (decide (x = y)) as [->|] end.
  all: rewrite ?lookup_insert_eq, ?lookup_insert_ne by done; cbn; try done.
  all: match goal with H : ends_with ?h = true |- _ => by destruct h end.
Qed.

(** The tasks waited for have run before a task is made ready. *)
Definition order_ok (p : Parallel) : Prop :=
  ∀ t d, t ∈ ready p ++ ran p → d ∈ run_after t → status_of p d ≠ NOT_RUN.

(** A step makes a task ready or run only when it may. *)
Lemma ready_step p p' t :
  step p p' → t ∈ ready p' ++ ran p' →
  t ∈ ready p ++ ran p ∨ (∀ d, d ∈ run_after t → status_of p d ≠ NOT_RUN).
Proof.
  intros Hs. step_cases Hs; try (by left).
  all: repeat match goal with H : ready _ = _ |- _ => rewrite H; clear H end.
  all: rewrite ?elem_of_app, ?elem_of_cons, ?elem_of_nil in *; try naive_solver.
Qed.

Lemma order_step p p' : order_ok p → step p p' → order_ok p'.
Proof.
  intros Ho Hs t d Ht Hd. eapply status_step; [done|].
  destruct (ready_step p p' t Hs Ht) as [Hold|Hnew]; [by eapply Ho|by apply Hnew].
Qed.

(** Each task runs at most once. *)
Definition ran_ok (p : Parallel) : Prop :=
  NoDup (ran p) ∧ ∀ t, t ∈ ran p → t ∈ running p ++ out p ++ finished p.

Lemma flow_NoDup U p : NoDup U → flow_ok U p → NoDup (waiting p ++ finished p).
Proof.
  intros Hnd (rest & junk & HU & _).
  assert (HU' : U ≡ₚ (waiting p ++ finished p) ++ set_tasks p ++ rest)
    by (rewrite HU; unfold pool; solve_Permutation).
  rewrite HU' in Hnd. by apply NoDup_app in Hnd as [? _].
Qed.

Lemma ran_step U p p' : NoDup U → flow_ok U p → ran_ok p → step p p' → ran_ok p'.
Proof.
  intros Hnd Hf [Hr Hin] Hs. pose proof (flow_NoDup U p Hnd Hf) as Hd. unfold waiting in Hd.
  unfold ran_ok. step_cases Hs; try done.
  all: repeat match goal with
    | H : ready _ = _ |- _ => rewrite H in Hd; clear H
    | H : running _ = _ |- _ => rewrite H in Hin; clear H
    | H : out _ = _ |- _ => rewrite H in Hin; clear H end.
  all: try (split; [done|]; intros x Hx; specialize (Hin x Hx); set_solver).
  split.
  - apply NoDup_app. split; [done|]. split; [|by apply NoDup_singleton].
    intros x Hx ->%list_elem_of_singleton. apply Hin in Hx.
    assert (Hp : (outstanding p ++ frozen p ++ (t :: rest) ++ running p ++ out p) ++ finished p ≡ₚ
      t :: (running p ++ out p ++ finished p) ++ outstanding p ++ frozen p ++ rest) by solve_Permutation.
    rewrite Hp in Hd. apply NoDup_cons in Hd as [Hn _]. apply Hn. set_solver.
  - intros x [Hx| ->%list_elem_of_singleton]%elem_of_app; [specialize (Hin x Hx); set_solver|set_solver].
Qed.

(** Without an error all collected tasks went well. *)
Definition error_ok (p : Parallel) : Prop :=
  (stop p = true → error p = true) ∧
  (error p = false →
    (∀ t, status_of p t = NOT_RUN ∨ status_of p t = SUCCESS ∨ status_of p t = SKIPPED) ∧
    (∀ t, t ∈ out p ++ finished p → status_of p t ≠ NOT_RUN)).

Lemma error_step p p' : error_ok p → step p p' → error_ok p'.
Proof.
  intros [He Hok] Hs. split.
  - step_cases Hs; try done.
  - intros Herr. assert (Herr' : error p = false) by (clear Hok; revert Herr; step_cases Hs; done).
    destruct (Hok Herr') as [Hst Hfin]. split.
    + intros t. specialize (Hst t). unfold status_of in *. step_cases Hs; try done.
      all: match goal with |- context [<[?x := _]> _ !! ?y] => destruct (decide (x = y)) as [->|] end.
      all: rewrite ?lookup_insert_eq, ?lookup_insert_ne by done; cbn; auto.
    + intros t Ht. destruct (decide (t ∈ out p ++ finished p)) as [Hold|Hnew].
      { eapply status_step; [done|]. by apply Hfin. }
      clear Hok. revert Ht Herr. unfold status_of in *. step_cases Hs; intros Ht Herr; try done.
      all: match goal with
        | H : out _ = _, Hn : _ ∉ _ |- _ => exfalso; apply Hn; rewrite H; set_solver
        | H : stop _ = true, Hs : stop _ = true → _ |- _ => specialize (Hs H); congruence
        | Hn : ?x ∉ _, Hx : ?x ∈ _ |- context [<[?y := _]> _] =>
            assert (x = y) as -> by set_solver; rewrite lookup_insert_eq; cbn; congruence
        | Hn : ?x ∉ _, Hx : ?x ∈ _, H : status_of _ ?y ≠ _ |- _ =>
            assert (x = y) as -> by set_solver; done
        end.
Qed.

(** What holds at the producer's positions. *)
Definition pc_ok (p : Parallel) : Prop :=
  Forall (λ s, snd s ≠ []) (sets p) ∧
  match pc p with
  | Next => outstanding p = [] → sets p = [] ∧ frozen p = [] ∧ count p = 0
  | Collect | Ended =>
      stop p = true ∨ (outstanding p = [] ∧ frozen p = [] ∧ sets p = [] ∧ count p = 0)
  | _ => True
  end.

Lemma pc_step p p' : count_ok p → pc_ok p → step p p' → pc_ok p'.
Proof.
  intros Hc [Hne Hp] Hs. unfold count_ok in Hc. split.
  - step_cases Hs; try done. by match goal with H : sets _ = _ |- _ => rewrite H in Hne; inversion Hne end.
  - revert Hp. step_cases Hs; try done; intros Hp.
    all: repeat match goal with H : pc _ = _ |- _ => rewrite ?H in Hp; rewrite ?H; clear H end; auto.
    all: try (naive_solver; fail).
    + match goal with H : sets _ = _ |- _ => rewrite H in Hne end.
      intros [_ ->]%app_eq_nil. inversion Hne; subst. done.
    + destruct (pc p); auto; destruct Hp as [->|]; auto.
Qed.

(** ** Properties *)

Definition inv (U : list nat) (p : Parallel) : Prop :=
  count_ok p ∧ flow_ok U p ∧ order_ok p ∧ ran_ok p ∧ error_ok p ∧ pc_ok p.

Lemma runner_inv_step U p p' : NoDup U → inv U p → step p p' → inv U p'.
Proof.
  intros HU (H1 & H2 & H3 & H4 & H5 & H6) Hs. split_and!.
  - by eapply count_step.
  - by eapply runner_flow_step.
  - by eapply order_step.
  - by eapply ran_step.
  - by eapply error_step.
  - by eapply pc_step.
Qed.

(** The tasks of the build: those of the sets and those that tasks add, each
    introduced once. *)
Definition universe (U : list nat) (s : list (Z * list nat)) : Prop :=
  NoDup U ∧ U ≡ₚ concat (snd <$> s) ++ (U ≫= more_tasks) ∧ Forall (λ x, snd x ≠ []) s.

Lemma runner_inv_initial U s : universe U s → inv U (initial s).
Proof.
  intros (HU & Hperm & Hne). split_and!.
  - done.
  - exists (U ≫= more_tasks), []. unfold pool, waiting, set_tasks. cbn. split; [done|].
    rewrite app_nil_r. by rewrite <- Hperm.
  - intros t d Ht. by apply not_elem_of_nil in Ht.
  - split; [constructor|]. intros t Ht. by apply not_elem_of_nil in Ht.
  - split; [done|]. intros _. unfold status_of. cbn. split.
    + intros t. rewrite lookup_empty. by left.
    + intros t Ht. by apply not_elem_of_nil in Ht.
  - by split.
Qed.

Lemma runner_inv_reachable U s p : universe U s → rtc step (initial s) p → inv U p.
Proof.
  intros HU Hr. pose proof (runner_inv_initial U s HU) as H0. destruct HU as [Hnd _].
  revert H0. induction Hr as [|x y z Hs _ IH]; [done|]. intros Hx. apply IH. by eapply runner_inv_step.
Qed.

(** C3: In every interleaving of the producer with the consumer threads, the counter
    is the number of tasks with the consumers, no task is in two places, none is
    run twice, and a task is only made ready or run after every task it must run
    after has been run or skipped. *)
Theorem Parallel_safe U s p :
  universe U s → rtc step (initial s) p →
  count p = length (ready p) + length (running p) + length (out p) ∧
  NoDup (waiting p ++ finished p) ∧ NoDup (ran p) ∧
  (∀ t d, t ∈ ready p ++ ran p → d ∈ run_after t → status_of p d ≠ NOT_RUN).
Proof.
  intros HU Hr. destruct (runner_inv_reachable U s p HU Hr) as (H1 & H2 & H3 & H4 & _).
  split_and!; [done|by eapply flow_NoDup; [apply HU|]|apply H4|done].
Qed.

(** A task that is known stays known. *)
Lemma known_step p p' t : step p p' → t ∈ pool p ++ finished p → t ∈ pool p' ++ finished p'.
Proof.
  intros Hs. unfold pool, waiting, set_tasks. step_cases Hs; try done.
  all: repeat match goal with
    | H : outstanding _ = _ |- _ => rewrite H; clear H
    | H : ready _ = _ |- _ => rewrite H; clear H
    | H : running _ = _ |- _ => rewrite H; clear H
    | H : out _ = _ |- _ => rewrite H; clear H
    | H : sets _ = _ |- _ => rewrite H; clear H
    end; cbn; try (destruct front); set_solver.
Qed.

Lemma known_reachable s p t :
  rtc step (initial s) p → t ∈ concat (snd <$> s) → t ∈ pool p ++ finished p.
Proof.
  intros Hr Ht. assert (H0 : t ∈ pool (initial s) ++ finished (initial s)).
  { unfold pool, set_tasks. cbn. by rewrite app_nil_r. }
  revert H0. induction Hr as [|x y z Hs _ IH]; [done|]. intros Hx. apply IH. by eapply known_step.
Qed.

(** C17: When the runner ends, its final assertion holds; and when it ends without an
    error, every task of every set has been run with success or skipped, and
    none is left anywhere. *)
Theorem Parallel_end U s p :
  universe U s → rtc step (initial s) p → pc p = Ended →
  (count p = 0 ∨ stop p = true) ∧
  (error p = false → waiting p = [] ∧
     ∀ t, t ∈ concat (snd <$> s) → t ∈ finished p ∧ (status_of p t = SUCCESS ∨ status_of p t = SKIPPED)).
Proof.
  intros HU Hr Hpc. destruct (runner_inv_reachable U s p HU Hr) as (Hc & _ & _ & _ & [He Hok] & _ & Hp).
  rewrite Hpc in Hp. split; [destruct Hp as [|(_ & _ & _ & ?)]; auto|].
  intros Herr. destruct Hp as [Hstop|(Ho & Hf & Hs & Hn)]; [rewrite He in Herr by done; done|].
  unfold count_ok in Hc. rewrite Hn in Hc.
  assert (Hw : waiting p = []).
  { unfold waiting. rewrite Ho, Hf. destruct (ready p), (running p), (out p); cbn in Hc; try lia. done. }
  split; [done|]. intros t Ht. pose proof (known_reachable s p t Hr Ht) as Hk.
  unfold pool, set_tasks in Hk. rewrite Hw, Hs in Hk. cbn in Hk. split; [done|].
  destruct (Hok Herr) as [Hst Hfin]. specialize (Hfin t). destruct (Hst t) as [?|?]; [|done].
  destruct Hfin; [set_solver|done].
Qed.

(** The sets are barriers when no task adds tasks: the runner takes the next set
    from the manager only when no task is waiting, ready, running or to be
    collected, so all tasks of the earlier sets are finished. *)
Theorem sets_are_barriers U s p p' :
  (∀ t, more_tasks t = []) → universe U s → rtc step (initial s) p →
  step p p' → sets p' ≠ sets p → waiting p = [].
Proof.
  intros Hmore HU Hr Hs Hne.
  assert (Hb : pc p = Refill2b → outstanding p = []).
  { clear -Hmore Hr. apply rtc_ind_r with (P := λ p, pc p = Refill2b → outstanding p = []) in Hr; [done|done|].
    clear -Hmore. intros x y _ Hs IH. step_cases Hs; try done; rewrite ?Hmore, ?app_nil_r; auto; congruence. }
  destruct (runner_inv_reachable U s p HU Hr) as (Hc & _). unfold count_ok in Hc. unfold waiting.
  revert Hne. step_cases Hs; try done. intros _. rewrite Hb by done.
  repeat match goal with H : frozen _ = _ |- _ => rewrite H; clear H
         | H : count _ = 0 |- _ => rewrite H in Hc; clear H end.
  destruct (ready p), (running p), (out p); cbn in Hc; try lia. done.
Qed.
End Runner.

(** ** Tasks that add tasks *)

(** Task 0 of the first set adds task 2; the second set is task 1. *)
Definition ex_sets : list (Z * list nat) := [(MAXJOBS, [0]); (MAXJOBS, [1])].
Definition ex_more (t : nat) : list nat := if t =? 0 then [2] else [].
Definition no_more (t : nat) : list nat := [].
Definition no_after (t : nat) : list nat := [].
Definition ex_after (t : nat) : list nat := if t =? 1 then [0] else [].

(** One step to a state given in normal form. *)
Lemma step_to nj keep more after p q p' r :
  step nj keep more after p q → q = p' →
  rtc (step nj keep more after) p' r → rtc (step nj keep more after) p r.
Proof. intros Hs -> Hr. by eapply rtc_l. Qed.

Local Ltac go := eapply step_to; [left; first
  [ apply P_go; reflexivity | apply P_enough; reflexivity | apply P_idle; reflexivity
  | apply P_have; [reflexivity|discriminate]
  | eapply P_take; [reflexivity|reflexivity|discriminate|reflexivity]
  | eapply P_next_set; reflexivity | eapply P_no_set; reflexivity | apply P_break; reflexivity
  | apply P_end; [reflexivity|by right] ] | vm_compute; reflexivity |].
Local Ltac go_run := eapply step_to;
  [left; eapply P_run; [reflexivity|reflexivity|reflexivity|
     intros d Hd; vm_compute in Hd; repeat (apply elem_of_cons in Hd as [->|Hd]; [discriminate|]);
     by apply not_elem_of_nil in Hd] | vm_compute; reflexivity |].
Local Ltac consume :=
  eapply step_to; [right; eapply C_start; [reflexivity|cbn; lia|reflexivity] | vm_compute; reflexivity |];
  eapply step_to; [right; eapply (C_finish _ _ _ _ [] [] SUCCESS); reflexivity | vm_compute; reflexivity |].

(** With tasks that add tasks the sets are no barriers: the runner can make a task
    of the second set ready together with a task that the first set added and
    that has not run, though a group is not to begin until the previous one has
    finished. *)
Theorem added_tasks_overlap keep :
  ∃ p, rtc (step 1 keep ex_more no_after) (initial ex_sets) p ∧
    ready p = [2; 1] ∧ ran p = [0].
Proof.
  eexists. split; [|split].
  - unfold initial, ex_sets. go. go. go. go. go_run. go. go. consume. go. go. go_run. go. go. go. go_run.
    apply rtc_refl.
  - reflexivity.
  - reflexivity.
Qed.

(** ** Witnesses *)

(** A whole run of the two sets, task 1 waiting for task 0. *)
Definition ex_end : Parallel :=
  mkParallel Ended [] MAXJOBS [] [] [] [] [] [0; 1] 0 false false
    (<[1 := SUCCESS]> (<[0 := SUCCESS]> ∅)) [0; 1].

Lemma ex_universe : universe no_more [0; 1] ex_sets.
Proof. split_and!; [repeat constructor; set_solver|done|by repeat constructor]. Qed.

Lemma ex_complete_run : rtc (step 2 false no_more ex_after) (initial ex_sets) ex_end.
Proof.
  unfold initial, ex_sets. go. go. go. go. go_run. go. go. consume. go. go. go_run.
  go. go. consume. go. go. go. go. apply rtc_refl.
Qed.

Lemma Parallel_safe_witness : NoDup [0; 1] ∧ status_of ex_end 0 ≠ NOT_RUN.
Proof.
  destruct (Parallel_safe 2 false no_more ex_after [0; 1] ex_sets ex_end ex_universe ex_complete_run)
    as (_ & _ & H3 & H4).
  split; [exact H3|]. apply (H4 1 0); vm_compute; repeat constructor.
Defined.

Lemma Parallel_end_witness : 0 ∈ finished ex_end ∧ (status_of ex_end 0 = SUCCESS ∨ status_of ex_end 0 = SKIPPED).
Proof.
  destruct (Parallel_end 2 false no_more ex_after [0; 1] ex_sets ex_end ex_universe ex_complete_run eq_refl)
    as [_ H]. apply H; [reflexivity|]. vm_compute. repeat constructor.
Defined.

Lemma sets_are_barriers_witness : waiting (initial ex_sets) = [].
Proof.
  set (p := set_pc (initial ex_sets) Refill2b).
  change (waiting p = []).
  eapply (sets_are_barriers 2 false no_more ex_after [0; 1] ex_sets p _ (λ _, eq_refl) ex_universe).
  - unfold p, initial, ex_sets. go. go. go. apply rtc_refl.
  - left. eapply P_next_set; reflexivity.
  - discriminate.
Defined.
