(* ===== verification/WafEnv.v ===== *)
(** * Environments (tools/wafadmin/Environment.py)

    An [Environment] is a table of variables with an optional parent, to which
    lookups fall back.  Tables hold references to lists that are changed in
    place, and [copy] shares the parent, so the model has a heap: environments
    and lists are objects with an identity. *)
From S2P Require Import Prelude PyStr.

(** Elements of lists, and values of variables. *)
Inductive atom := ANone | AStr (s : string) | AInt (z : Z).
Inductive value := VAtom (a : atom) | VList (l : nat).

#[export] Instance atom_eq_dec : EqDecision atom.
Proof. solve_decision. Defined.
#[export] Instance value_eq_dec : EqDecision value.
Proof. solve_decision. Defined.

Record Environment := mkEnv {
  table : gmap string value;
  parent : option nat }.

(** The objects, and the next identities to give out. *)
Record Heap := mkHeap {
  envs : gmap nat Environment;
  lists : gmap nat (list atom);
  next_env : nat;
  next_list : nat }.

Definition empty_heap : Heap := mkHeap ∅ ∅ 0 0.

Definition VARIANT : string := "_VARIANT_".
Definition DEFAULT : string := "default".

(** ** Reading *)

Definition own (h : Heap) (e : nat) (key : string) : option value :=
  env ← envs h !! e; table env !! key.
Definition parent_of (h : Heap) (e : nat) : option nat := env ← envs h !! e; parent env.

(** The loop of [__getitem__]: a value that is None counts as missing. *)
Fixpoint getitem_loop (fuel : nat) (h : Heap) (e : nat) (key : string) : option value :=
  match fuel with
  | 0 => None
  | S f =>
      match own h e key with
      | Some (VAtom ANone) | None =>
          match parent_of h e with
          | Some p => getitem_loop f h p key
          | None => None
          end
      | Some x => Some x
      end
  end.

(** [__getitem__]; [None] stands for the new empty list it returns when the key
    is missing.  A parent is older than its copies, so [S e] rounds suffice. *)
Definition getitem (h : Heap) (e : nat) (key : string) : option value := getitem_loop (S e) h e key.

Fixpoint contains_loop (fuel : nat) (h : Heap) (e : nat) (key : string) : bool :=
  match fuel with
  | 0 => false
  | S f =>
      match own h e key with
      | Some _ => true
      | None => match parent_of h e with Some p => contains_loop f h p key | None => false end
      end
  end.
Definition contains (h : Heap) (e : nat) (key : string) : bool := contains_loop (S e) h e key.

Definition variant (h : Heap) (e : nat) : value := default (VAtom (AStr DEFAULT)) (getitem h e VARIANT).

(** What a reader of a value sees. *)
Inductive seen := SAtom (a : atom) | SList (l : list atom).
Definition see (h : Heap) (v : value) : seen :=
  match v with VAtom a => SAtom a | VList l => SList (default [] (lists h !! l)) end.
Definition view (h : Heap) (e : nat) (key : string) : seen :=
  match getitem h e key with Some v => see h v | None => SList [] end.

(** [' '.join(s)] needs strings. *)
Definition get_flat (h : Heap) (e : nat) (key : string) : res string :=
  match view h e key with
  | SAtom (AStr s) => Ok s
  | SAtom _ => Err TypeError
  | SList l => words ← res_map (λ a, match a with AStr s => Ok s | _ => Err TypeError end) l;
               Ok (join " " words)
  end.

Fixpoint merged_loop (fuel : nat) (h : Heap) (e : nat) : gmap string value :=
  match fuel with
  | 0 => ∅
  | S f =>
      match envs h !! e with
      | None => ∅
      | Some env => table env ∪ match parent env with Some p => merged_loop f h p | None => ∅ end
      end
  end.
Definition get_merged_dict (h : Heap) (e : nat) : gmap string value := merged_loop (S e) h e.

(** ** Writing *)

Definition alloc_env (h : Heap) (env : Environment) : nat * Heap :=
  (next_env h, mkHeap (<[next_env h := env]> (envs h)) (lists h) (S (next_env h)) (next_list h)).
Definition alloc_list (h : Heap) (l : list atom) : nat * Heap :=
  (next_list h, mkHeap (envs h) (<[next_list h := l]> (lists h)) (next_env h) (S (next_list h))).

Definition new_Environment (h : Heap) : nat * Heap := alloc_env h (mkEnv ∅ None).
Definition copy (h : Heap) (e : nat) : nat * Heap := alloc_env h (mkEnv ∅ (Some e)).

Definition set_table (h : Heap) (e : nat) (f : gmap string value → gmap string value) : Heap :=
  mkHeap (alter (λ env, mkEnv (f (table env)) (parent env)) e (envs h)) (lists h) (next_env h) (next_list h).
Definition set_list (h : Heap) (l : nat) (c : list atom) : Heap :=
  mkHeap (envs h) (<[l := c]> (lists h)) (next_env h) (next_list h).

Definition setitem (h : Heap) (e : nat) (key : string) (v : value) : Heap := set_table h e (<[key := v]>).
Definition delitem (h : Heap) (e : nat) (key : string) : res Heap :=
  match own h e key with
  | Some _ => Ok (set_table h e (delete key))
  | None => Err KeyError
  end.
Definition pop (h : Heap) (e : nat) (key : string) (dflt : option value) : res (value * Heap) :=
  match own h e key, dflt with
  | Some v, _ => Ok (v, set_table h e (delete key))
  | None, Some v => Ok (v, h)
  | None, None => Err KeyError
  end.
Definition set_variant (h : Heap) (e : nat) (name : string) : Heap := setitem h e VARIANT (VAtom (AStr name)).
Definition update (h : Heap) (e : nat) (d : list (string * value)) : Heap :=
  fold_left (λ h kv, setitem h e (fst kv) (snd kv)) d h.

(** [_get_list_value_for_modification]: the list object to change. *)
Definition get_list_for_modification (h : Heap) (e : nat) (key : string) : nat * Heap :=
  let '(l, h) :=
    match own h e key with
    | Some (VList l) => (l, h)
    | Some (VAtom a) => alloc_list h [a]
    | None =>
        match parent_of h e with
        | None => alloc_list h []
        | Some p => match view h p key with
                    | SList c => alloc_list h c
                    | SAtom a => alloc_list h [a]
                    end
        end
    end in
  (l, setitem h e key (VList l)).

(** The argument of the methods below, a list or not. *)
Definition items (h : Heap) (v : value) : list atom :=
  match v with VAtom a => [a] | VList l => default [] (lists h !! l) end.

Definition append_value (h : Heap) (e : nat) (var : string) (v : value) : Heap :=
  let '(l, h) := get_list_for_modification h e var in
  set_list h l (default [] (lists h !! l) ++ items h v).

Definition prepend_value (h : Heap) (e : nat) (var : string) (v : value) : Heap :=
  let '(l, h) := get_list_for_modification h e var in
  match v with
  | VList _ =>
      let '(l', h) := alloc_list h (items h v ++ default [] (lists h !! l)) in
      setitem h e var (VList l')
  | VAtom a => set_list h l (a :: default [] (lists h !! l))
  end.

Definition add_unique (c : list atom) (a : atom) : list atom :=
  if decide (a ∈ c) then c else c ++ [a].
Definition append_unique (h : Heap) (e : nat) (var : string) (v : value) : Heap :=
  let '(l, h) := get_list_for_modification h e var in
  set_list h l (fold_left add_unique (items h v) (default [] (lists h !! l))).

(** [detach]: the merged table with copies of its lists, and no parent. *)
Definition copy_entry (acc : gmap string value * Heap) (kv : string * value) : gmap string value * Heap :=
  let '(tbl, h) := acc in
  match snd kv with
  | VAtom a => (<[fst kv := VAtom a]> tbl, h)
  | VList l => let '(l', h') := alloc_list h (default [] (lists h !! l)) in (<[fst kv := VList l']> tbl, h')
  end.
Definition detach (h : Heap) (e : nat) : Heap :=
  match parent_of h e with
  | None => h
  | Some _ =>
      let '(tbl, h) := fold_left copy_entry (map_to_list (get_merged_dict h e)) (∅, h) in
      mkHeap (<[e := mkEnv tbl None]> (envs h)) (lists h) (next_env h) (next_list h)
  end.

(** ** Well-formed heaps *)

Record heap_ok (h : Heap) : Prop := {
  ho_parent : ∀ e p, parent_of h e = Some p → p < e ∧ is_Some (envs h !! p);
  ho_envs : ∀ e, is_Some (envs h !! e) → e < next_env h;
  ho_refs : ∀ e k l, own h e k = Some (VList l) → is_Some (lists h !! l);
  ho_lists : ∀ l, is_Some (lists h !! l) → l < next_list h;
  (** no two variables share a list *)
  ho_sep : ∀ e1 k1 e2 k2 l, own h e1 k1 = Some (VList l) → own h e2 k2 = Some (VList l) →
    e1 = e2 ∧ k1 = k2 }.

(** [e] is [e'] or one of the environments that [e'] falls back to. *)
Inductive ancestor (h : Heap) (e : nat) : nat → Prop :=
| anc_self : ancestor h e e
| anc_parent e' p : parent_of h e' = Some p → ancestor h e p → ancestor h e e'.

Lemma getitem_fuel h f1 f2 e k :
  heap_ok h → e < f1 → e < f2 → getitem_loop f1 h e k = getitem_loop f2 h e k.
Proof.
  intros Hok. revert f1 f2. induction e as [e IH] using lt_wf_ind. intros [|f1] [|f2] H1 H2; try lia.
  cbn. destruct (parent_of h e) as [p|] eqn:Ep; [|done].
  destruct (ho_parent h Hok e p Ep) as [Hp _]. rewrite (IH p Hp f1 f2) by lia. done.
Qed.

Lemma getitem_eq h e k :
  heap_ok h →
  getitem h e k = match own h e k with
                  | Some (VAtom ANone) | None =>
                      match parent_of h e with Some p => getitem h p k | None => None end
                  | Some x => Some x
                  end.
Proof.
  intros Hok. unfold getitem at 1. cbn [getitem_loop].
  destruct (parent_of h e) as [p|] eqn:Ep; [|done].
  destruct (ho_parent h Hok e p Ep) as [Hp _].
  rewrite (getitem_fuel h e (S p)) by (done || lia). done.
Qed.

Lemma getitem_source h e k v :
  heap_ok h → getitem h e k = Some v → ∃ e2, ancestor h e2 e ∧ own h e2 k = Some v.
Proof.
  intros Hok. induction e as [e IH] using lt_wf_ind. rewrite getitem_eq by done.
  destruct (own h e k) as [v'|] eqn:Eo.
  - destruct v' as [[]|]; try (intros [= <-]; exists e; split; [constructor|done]).
    destruct (parent_of h e) as [p|] eqn:Ep; [|done]. intros Hg.
    destruct (IH p) as (e2 & Ha & Ho); [by apply (ho_parent h Hok e p Ep)|done|].
    exists e2. split; [by econstructor|done].
  - destruct (parent_of h e) as [p|] eqn:Ep; [|done]. intros Hg.
    destruct (IH p) as (e2 & Ha & Ho); [by apply (ho_parent h Hok e p Ep)|done|].
    exists e2. split; [by econstructor|done].
Qed.

(** Two heaps with the same parents, whose variables [k] agree along the way. *)
Lemma getitem_agree h h' e k :
  heap_ok h → heap_ok h' → (∀ e, parent_of h' e = parent_of h e) →
  (∀ e2, ancestor h e2 e → own h' e2 k = own h e2 k) → getitem h' e k = getitem h e k.
Proof.
  intros Hok Hok' Hp. induction e as [e IH] using lt_wf_ind. intros Hown.
  rewrite !getitem_eq, Hp, (Hown e) by (done || constructor).
  assert (Hrec : ∀ p, parent_of h e = Some p → getitem h' p k = getitem h p k).
  { intros p Ep. apply IH; [by apply (ho_parent h Hok e p Ep)|].
    intros e2 Ha. apply Hown. by econstructor. }
  destruct (own h e k) as [[[]|]|]; try done; destruct (parent_of h e) as [p|]; try done; by apply Hrec.
Qed.

(** ** Writing one variable *)

(** [h'] is [h] in which variable [var] of [e] has become a list of its own. *)
Record wrote (h h' : Heap) (e : nat) (var : string) (l : nat) : Prop := {
  wr_own : ∀ e' k, own h' e' k = if decide (e' = e ∧ k = var) then Some (VList l) else own h e' k;
  wr_parent : ∀ e', parent_of h' e' = parent_of h e';
  wr_lists : ∀ l', l' ≠ l → lists h !! l' ≠ None → lists h' !! l' = lists h !! l';
  wr_list : is_Some (lists h' !! l);
  wr_owner : own h e var = Some (VList l) ∨ lists h !! l = None;
  wr_envs : ∀ e', is_Some (envs h' !! e') ↔ is_Some (envs h !! e');
  wr_bound : ∀ l', is_Some (lists h' !! l') → l' < next_list h';
  wr_next : next_env h' = next_env h }.

Lemma wrote_ok h h' e var l : heap_ok h → wrote h h' e var l → heap_ok h'.
Proof.
  intros [Hp He Hr Hl Hs] [Wo Wp Wl Wi Wn We Wb Wx]. split.
  - intros x p. rewrite Wp, We. apply Hp.
  - intros x. rewrite We, Wx. apply He.
  - intros x k l'. rewrite Wo. case_decide as Hd; [intros [= <-]; done|]. intros Hx.
    destruct (decide (l' = l)) as [->|Hne]; [done|].
    destruct (Hr _ _ _ Hx) as [c Hc]. rewrite Wl by (done || congruence). by exists c.
  - done.
  - assert (Hfresh : ∀ x k, own h x k = Some (VList l) → x = e ∧ k = var).
    { intros x k Hx. destruct Wn as [Wn|Wn]; [by eapply Hs|].
      destruct (Hr _ _ _ Hx) as [c Hc]. congruence. }
    intros e1 k1 e2 k2 l'. rewrite !Wo.
    case_decide as H1; case_decide as H2; intros Ha Hb.
    + destruct H1, H2. by subst.
    + injection Ha as <-. by destruct H2; apply Hfresh.
    + injection Hb as <-. by destruct H1; apply Hfresh.
    + by eapply Hs.
Qed.

(** The other variables, and environments that do not fall back to [e], see no
    difference. *)
Lemma wrote_frame h h' e var l e' k :
  heap_ok h → wrote h h' e var l → k ≠ var ∨ ¬ ancestor h e e' → view h' e' k = view h e' k.
Proof.
  intros Hok Hw Hne. pose proof (wrote_ok _ _ _ _ _ Hok Hw) as Hok'.
  destruct Hw as [Wo Wp Wl Wi Wn We Wb Wx]. unfold view.
  assert (Hg : getitem h' e' k = getitem h e' k).
  { apply getitem_agree; try done. intros e2 Ha. rewrite Wo, decide_False; [done|].
    intros [-> ->]. by destruct Hne. }
  rewrite Hg. destruct (getitem h e' k) as [[a|l']|] eqn:E; [done| |done]. cbn. f_equal. f_equal.
  apply getitem_source in E as (e2 & Ha & Ho); [|done]. apply Wl.
  - intros ->. destruct Wn as [Wn|Wn].
    + destruct (ho_sep h Hok _ _ _ _ _ Wn Ho) as [-> ->]. by destruct Hne.
    + destruct (ho_refs h Hok _ _ _ Ho) as [c Hc]. congruence.
  - destruct (ho_refs h Hok _ _ _ Ho) as [c Hc]. congruence.
Qed.

Lemma wrote_view h h' e var l :
  heap_ok h → wrote h h' e var l → view h' e var = SList (default [] (lists h' !! l)).
Proof.
  intros Hok Hw. pose proof (wrote_ok _ _ _ _ _ Hok Hw) as Hok'. unfold view.
  rewrite getitem_eq by done. destruct Hw as [Wo _ _ _ _ _ _ _]. by rewrite Wo, decide_True.
Qed.

(** ** The list operations *)

Definition as_list (s : seen) : list atom := match s with SList c => c | SAtom a => [a] end.

Lemma own_setitem h e key v e' k :
  is_Some (envs h !! e) →
  own (setitem h e key v) e' k = if decide (e' = e ∧ k = key) then Some v else own h e' k.
Proof.
  intros [env He]. unfold own, setitem, set_table. cbn [envs].
  destruct (decide (e' = e)) as [->|Hne].
  - rewrite lookup_alter_eq, He. cbn. destruct (decide (k = key)) as [->|Hk].
    + by rewrite decide_True, lookup_insert_eq by done.
    + by rewrite decide_False, lookup_insert_ne by naive_solver.
  - by rewrite decide_False, lookup_alter_ne by naive_solver.
Qed.

Lemma parent_setitem h e key v e' : parent_of (setitem h e key v) e' = parent_of h e'.
Proof.
  unfold parent_of, setitem, set_table. cbn [envs].
  destruct (decide (e' = e)) as [->|Hne].
  - rewrite lookup_alter_eq. by destruct (envs h !! e).
  - by rewrite lookup_alter_ne by done.
Qed.

Lemma envs_setitem h e key v e' : is_Some (envs (setitem h e key v) !! e') ↔ is_Some (envs h !! e').
Proof.
  unfold setitem, set_table. cbn [envs].
  destruct (decide (e' = e)) as [->|Hne].
  - rewrite lookup_alter_eq. destruct (envs h !! e); cbn; split; by intros [? ?].
  - by rewrite lookup_alter_ne by done.
Qed.

(** Storing a list in the variable: its own one, or a new one. *)
Lemma wrote_existing h e var l c :
  heap_ok h → is_Some (envs h !! e) → own h e var = Some (VList l) →
  wrote h (set_list (setitem h e var (VList l)) l c) e var l.
Proof.
  intros Hok He Ho. split; intros.
  - by apply own_setitem.
  - apply parent_setitem.
  - cbn [set_list lists]. by rewrite lookup_insert_ne by done.
  - cbn [set_list lists]. rewrite lookup_insert_eq. eauto.
  - by left.
  - apply envs_setitem.
  - revert H. cbn [set_list lists next_list setitem set_table].
    destruct (decide (l' = l)) as [->|Hne].
    + intros _. apply (ho_lists h Hok). by apply (ho_refs h Hok e var).
    + rewrite lookup_insert_ne by done. apply (ho_lists h Hok).
  - done.
Qed.

Lemma fresh_list h : heap_ok h → lists h !! next_list h = None.
Proof.
  intros Hok. destruct (lists h !! next_list h) eqn:E; [|done].
  assert (next_list h < next_list h); [|lia]. apply (ho_lists h Hok). eauto.
Qed.

Lemma wrote_fresh h e var c :
  heap_ok h → is_Some (envs h !! e) →
  wrote h (setitem (snd (alloc_list h c)) e var (VList (next_list h))) e var (next_list h).
Proof.
  intros Hok He. pose proof (fresh_list h Hok) as Hf. split; intros.
  - rewrite own_setitem by done. done.
  - rewrite parent_setitem. done.
  - cbn [setitem set_table alloc_list snd lists]. by rewrite lookup_insert_ne by done.
  - cbn [setitem set_table alloc_list snd lists]. rewrite lookup_insert_eq. eauto.
  - by right.
  - rewrite envs_setitem. done.
  - revert H. cbn [setitem set_table alloc_list snd lists next_list].
    destruct (decide (l' = next_list h)) as [->|Hne]; [lia|].
    rewrite lookup_insert_ne by done. intros Hl. apply (ho_lists h Hok) in Hl. lia.
  - done.
Qed.

Lemma list_for_modification h e var :
  heap_ok h → is_Some (envs h !! e) → own h e var ≠ Some (VAtom ANone) →
  let '(l, h1) := get_list_for_modification h e var in
  wrote h h1 e var l ∧ lists h1 !! l = Some (as_list (view h e var)) ∧
  (∀ l', is_Some (lists h !! l') → lists h1 !! l' = lists h !! l').
Proof.
  intros Hok He Hn. unfold get_list_for_modification.
  assert (Hfresh : ∀ c, as_list (view h e var) = c →
    wrote h (setitem (snd (alloc_list h c)) e var (VList (next_list h))) e var (next_list h) ∧
    lists (setitem (snd (alloc_list h c)) e var (VList (next_list h))) !! next_list h
      = Some (as_list (view h e var)) ∧
    (∀ l', is_Some (lists h !! l') →
      lists (setitem (snd (alloc_list h c)) e var (VList (next_list h))) !! l' = lists h !! l')).
  { intros c ->. split; [by apply wrote_fresh|]. split.
    - cbn [setitem set_table alloc_list snd lists]. by rewrite lookup_insert_eq.
    - intros l' [x Hx]. cbn [setitem set_table alloc_list snd lists].
      rewrite lookup_insert_ne; [done|]. intros <-. rewrite fresh_list in Hx by done. done. }
  unfold view in Hfresh |- *. rewrite getitem_eq in Hfresh |- * by done.
  destruct (own h e var) as [[a|l]|] eqn:Eo.
  - cbn [alloc_list]. apply (Hfresh [a]). by destruct a.
  - destruct (ho_refs h Hok _ _ _ Eo) as [c Hc]. split; [|split].
    + pose proof (wrote_existing h e var l c Hok He Eo) as Hw. unfold set_list in Hw.
      rewrite insert_id in Hw by done. done.
    + cbn. rewrite Hc. done.
    + done.
  - destruct (parent_of h e) as [p|] eqn:Ep; [|by apply (Hfresh [])].
    unfold view. destruct (getitem h p var) as [[a|l]|]; by apply Hfresh.
Qed.

(** Replacing the contents of the list after that. *)
Lemma wrote_set_list h h1 e var l c :
  wrote h h1 e var l → wrote h (set_list h1 l c) e var l.
Proof.
  intros [Wo Wp Wl Wi Wn We Wb Wx]. split; try done.
  - intros l' Hne Hl'. cbn [set_list lists]. rewrite lookup_insert_ne by done. by apply Wl.
  - cbn [set_list lists]. rewrite lookup_insert_eq. eauto.
  - intros l'. cbn [set_list lists next_list]. destruct (decide (l' = l)) as [->|Hne].
    + intros _. by apply Wb.
    + rewrite lookup_insert_ne by done. apply Wb.
Qed.

(** What an operation on one variable must do. *)
Definition changed_to (h h' : Heap) (e : nat) (var : string) (c : list atom) : Prop :=
  heap_ok h' ∧ view h' e var = SList c ∧
  (∀ e' k, k ≠ var ∨ ¬ ancestor h e e' → view h' e' k = view h e' k).

Lemma wrote_changed h h' e var l c :
  heap_ok h → wrote h h' e var l → lists h' !! l = Some c → changed_to h h' e var c.
Proof.
  intros Hok Hw Hc. split; [by eapply wrote_ok|]. split.
  - by rewrite (wrote_view _ _ _ _ _ Hok Hw), Hc.
  - intros. by eapply wrote_frame.
Qed.

(** The argument is a list object that exists. *)
Definition value_ok (h : Heap) (v : value) : Prop :=
  match v with VAtom _ => True | VList l => is_Some (lists h !! l) end.

Section ListOperations.
Context (h : Heap) (e : nat) (var : string) (v : value).
Hypothesis Hok : heap_ok h.
Hypothesis He : is_Some (envs h !! e).
Hypothesis Hnone : own h e var ≠ Some (VAtom ANone).
Hypothesis Hv : value_ok h v.

Lemma append_wrote :
  ∃ l, wrote h (append_value h e var v) e var l ∧
       lists (append_value h e var v) !! l = Some (as_list (view h e var) ++ items h v).
Proof using Hok He Hnone Hv.
  unfold append_value. pose proof (list_for_modification h e var Hok He Hnone) as Hl.
  destruct (get_list_for_modification h e var) as [l h1]. destruct Hl as (Hw & Hc & Hs).
  exists l. split; [by apply wrote_set_list|]. cbn [set_list lists].
  rewrite lookup_insert_eq, Hc. cbn. do 2 f_equal. destruct v as [a|l']; [done|].
  cbn in Hv |- *. by rewrite Hs.
Qed.

(** Appending to a variable makes it the inherited or own contents followed
    by the new items, in this environment and those that fall back to it, and
    changes nothing else: neither the parent nor another variable. *)
Theorem append_value_correct :
  changed_to h (append_value h e var v) e var (as_list (view h e var) ++ items h v).
Proof using Hok He Hnone Hv. destruct append_wrote as (l & Hw & Hc). by eapply wrote_changed. Qed.

(** Prepending puts the new items, in their order, in front; an argument
    that is a list is not changed by it. *)
Theorem prepend_value_correct :
  changed_to h (prepend_value h e var v) e var (items h v ++ as_list (view h e var)).
Proof using Hok He Hnone Hv.
  unfold prepend_value. pose proof (list_for_modification h e var Hok He Hnone) as Hl.
  destruct (get_list_for_modification h e var) as [l h1] eqn:E. destruct Hl as (Hw & Hc & Hs).
  destruct v as [a|l']; cbn [items].
  - eapply wrote_changed; [done|by apply wrote_set_list|]. cbn [set_list lists].
    by rewrite lookup_insert_eq, Hc.
  - cbn in Hv. rewrite Hc, Hs by done. cbn [default from_option alloc_list].
    assert (Hok1 : heap_ok h1) by by eapply wrote_ok.
    assert (He1 : is_Some (envs h1 !! e)) by by apply (wr_envs _ _ _ _ _ Hw).
    set (c := default [] (lists h !! l') ++ as_list (view h e var)).
    pose proof (wrote_fresh h1 e var c Hok1 He1) as Hw1.
    eapply (wrote_changed _ _ _ _ (next_list h1)) in Hok1 as (H1 & H2 & H3); [|exact Hw1|].
    2: { cbn [setitem set_table alloc_list snd lists]. by rewrite lookup_insert_eq. }
    split; [done|]. split; [done|]. intros e' k Hne. etrans; [apply H3|by eapply wrote_frame].
    destruct Hne as [Hne|Hne]; [by left|right]. intros Ha. apply Hne. clear -Ha Hw.
    induction Ha as [|e' p Hp Ha IH]; [constructor|].
    rewrite (wr_parent _ _ _ _ _ Hw) in Hp. by econstructor.
Qed.

(** Appending the items that are not there yet, each once. *)
Definition unique_extension (old new c : list atom) : Prop :=
  ∃ added, c = old ++ added ∧ NoDup added ∧ (∀ a, a ∈ added ↔ a ∈ new ∧ a ∉ old).

Lemma add_unique_extension old new :
  unique_extension old new (fold_left add_unique new old).
Proof using.
  clear. revert old. induction new as [|a new IH]; intros old.
  - exists []. rewrite app_nil_r. split; [done|]. split; [constructor|]. intros a. set_solver.
  - cbn [fold_left]. destruct (IH (add_unique old a)) as (added & -> & Hnd & Hin).
    unfold add_unique in *. case_decide as Ha.
    + exists added. split; [done|]. split; [done|]. intros b. rewrite Hin. set_solver.
    + exists (a :: added). rewrite <- app_assoc. split; [done|]. split.
      * constructor; [|done]. rewrite Hin. set_solver.
      * intros b. rewrite elem_of_cons, Hin, not_elem_of_app.
        destruct (decide (b = a)) as [->|]; set_solver.
Qed.

(** Appending with [append_unique] adds, after the old contents, exactly the
    items that were not there, each once. *)
Theorem append_unique_correct :
  ∃ c, changed_to h (append_unique h e var v) e var c ∧
       unique_extension (as_list (view h e var)) (items h v) c.
Proof using Hok He Hnone Hv.
  eexists. split; [|apply add_unique_extension].
  unfold append_unique. pose proof (list_for_modification h e var Hok He Hnone) as Hl.
  destruct (get_list_for_modification h e var) as [l h1]. destruct Hl as (Hw & Hc & Hs).
  eapply wrote_changed; [done|by apply wrote_set_list|]. cbn [set_list lists].
  rewrite lookup_insert_eq, Hc. cbn. do 2 f_equal. destruct v as [a|l']; [done|].
  cbn in Hv |- *. by rewrite Hs.
Qed.

End ListOperations.

(** ** Detaching *)

Lemma merged_fuel h f1 f2 e :
  heap_ok h → e < f1 → e < f2 → merged_loop f1 h e = merged_loop f2 h e.
Proof.
  intros Hok. revert f1 f2. induction e as [e IH] using lt_wf_ind. intros [|f1] [|f2] H1 H2; try lia.
  cbn. destruct (envs h !! e) as [env|] eqn:Ee; [|done]. destruct (parent env) as [p|] eqn:Ep; [|done].
  destruct (ho_parent h Hok e p) as [Hp _]; [unfold parent_of; by rewrite Ee|].
  rewrite (IH p Hp f1 f2) by lia. done.
Qed.

(** The merged table falls back to the parent as the reads do, except that a
    value that is None hides the parent's. *)
Lemma merged_lookup h e k :
  heap_ok h →
  get_merged_dict h e !! k = match own h e k with
                             | Some x => Some x
                             | None => match parent_of h e with
                                       | Some p => get_merged_dict h p !! k | None => None end
                             end.
Proof.
  intros Hok. unfold get_merged_dict at 1, own, parent_of. cbn [merged_loop].
  destruct (envs h !! e) as [env|] eqn:Ee; [|done]. cbn [mbind option_bind].
  destruct (parent env) as [p|] eqn:Ep.
  - destruct (ho_parent h Hok e p) as [Hp _]; [unfold parent_of; by rewrite Ee|].
    rewrite (merged_fuel h e (S p)) by (done || lia). fold (get_merged_dict h p).
    rewrite lookup_union. destruct (table env !! k), (get_merged_dict h p !! k); done.
  - rewrite (right_id_L ∅ (∪)). by destruct (table env !! k).
Qed.

Definition no_none (h : Heap) : Prop := ∀ e k, own h e k ≠ Some (VAtom ANone).

Lemma merged_getitem h e k : heap_ok h → no_none h → get_merged_dict h e !! k = getitem h e k.
Proof.
  intros Hok Hn. induction e as [e IH] using lt_wf_ind. rewrite merged_lookup, getitem_eq by done.
  specialize (Hn e k).
  assert (Hrec : ∀ p, parent_of h e = Some p → get_merged_dict h p !! k = getitem h p k).
  { intros p Ep. apply IH. by apply (ho_parent h Hok e p Ep). }
  destruct (own h e k) as [[[]|]|]; try done. destruct (parent_of h e); [|done]. by apply Hrec.
Qed.

(** [tbl] holds copies of the entries of [m], in lists newer than those of [h0]. *)
Record copied (h0 : Heap) (m tbl : gmap string value) (h : Heap) : Prop := {
  cp_envs : envs h = envs h0;
  cp_next : next_env h = next_env h0;
  cp_newer : next_list h0 ≤ next_list h;
  cp_old : ∀ l, l < next_list h0 → lists h !! l = lists h0 !! l;
  cp_bound : ∀ l, is_Some (lists h !! l) → l < next_list h;
  cp_entry : ∀ k, match m !! k, tbl !! k with
                  | None, None => True
                  | Some v, Some v' => see h v' = see h0 v
                  | _, _ => False
                  end;
  cp_ref : ∀ k l, tbl !! k = Some (VList l) → next_list h0 ≤ l ∧ is_Some (lists h !! l);
  cp_inj : ∀ k1 k2 l, tbl !! k1 = Some (VList l) → tbl !! k2 = Some (VList l) → k1 = k2 }.

Lemma copied_step h0 m tbl h k v tbl' h' :
  copied h0 m tbl h → value_ok h0 v → (∀ l, is_Some (lists h0 !! l) → l < next_list h0) →
  copy_entry (tbl, h) (k, v) = (tbl', h') → copied h0 (<[k := v]> m) tbl' h'.
Proof.
  intros [Ce Cn Cw Co Cb Ct Cr Ci] Hv Hb. destruct v as [a|l]; cbn; intros [= <- <-].
  - split; try done; intros k'; destruct (decide (k' = k)) as [->|Hne];
      rewrite ?lookup_insert_eq, ?lookup_insert_ne by done; try done; try apply Ct; try apply Cr.
    intros k2 l H1. destruct (decide (k2 = k)) as [->|]; rewrite ?lookup_insert_eq, ?lookup_insert_ne by done; [done|].
    by apply Ci.
  - assert (Hnew : ∀ k' l', tbl !! k' = Some (VList l') → l' ≠ next_list h).
    { intros k' l' Hk ->. apply Cr in Hk as [_ Hk]. apply Cb in Hk. lia. }
    split; cbn [envs lists next_env next_list]; try done; try lia.
    + intros l' Hl. rewrite lookup_insert_ne by lia. by apply Co.
    + intros l'. destruct (decide (l' = next_list h)) as [->|]; [lia|].
      rewrite lookup_insert_ne by done. intros Hl. apply Cb in Hl. lia.
    + intros k'. destruct (decide (k' = k)) as [->|]; rewrite ?lookup_insert_eq, ?lookup_insert_ne by done.
      * cbn. rewrite lookup_insert_eq. cbn. rewrite Co by by apply Hb. done.
      * specialize (Ct k'). destruct (m !! k'), (tbl !! k') as [[|l']|] eqn:Et; try done.
        rewrite <- Ct. cbn. rewrite lookup_insert_ne; [done|]. by apply not_eq_sym, (Hnew k').
    + intros k' l'. destruct (decide (k' = k)) as [->|]; rewrite ?lookup_insert_eq, ?lookup_insert_ne by done.
      * intros [= <-]. rewrite lookup_insert_eq. split; [lia|eauto].
      * intros Hk. rewrite lookup_insert_ne by (by apply not_eq_sym, (Hnew k')). by apply (Cr k').
    + intros k1 k2 l'.
      destruct (decide (k1 = k)) as [->|], (decide (k2 = k)) as [->|];
        rewrite ?lookup_insert_eq, ?lookup_insert_ne by done; try done.
      * intros [= <-] H2. by apply Hnew in H2.
      * intros H1 [= <-]. by apply Hnew in H1.
      * by apply Ci.
Qed.

Lemma copied_fold h0 kvs : ∀ m tbl h tbl' h',
  copied h0 m tbl h → Forall (λ kv, value_ok h0 (snd kv)) kvs →
  (∀ l, is_Some (lists h0 !! l) → l < next_list h0) →
  fold_left copy_entry kvs (tbl, h) = (tbl', h') →
  copied h0 (fold_left (λ m kv, <[fst kv := snd kv]> m) kvs m) tbl' h'.
Proof.
  induction kvs as [|[k v] kvs IH]; intros m tbl h tbl' h' Hc Hv Hb; cbn [fold_left].
  - by intros [= <- <-].
  - apply Forall_cons in Hv as [Hv Hvs]. destruct (copy_entry (tbl, h) (k, v)) as [t1 h1] eqn:E.
    intros Hf. eapply IH; try done. by eapply copied_step.
Qed.

Lemma fold_insert_list (m : gmap string value) :
  fold_left (λ m kv, <[fst kv := snd kv]> m) (map_to_list m) ∅ = m.
Proof.
  rewrite <- fold_left_rev_right.
  assert (Hg : ∀ kvs : list (string * value),
    fold_right (λ kv m, <[fst kv := snd kv]> m) (∅ : gmap string value) kvs = list_to_map kvs).
  { induction kvs as [|[k v] kvs IH]; [done|]. cbn. by rewrite IH. }
  rewrite Hg. etrans; [|apply list_to_map_to_list]. apply list_to_map_proper.
  - rewrite <- Permutation_rev. apply NoDup_fst_map_to_list.
  - by rewrite <- Permutation_rev.
Qed.

Lemma merged_source h e k v :
  heap_ok h → get_merged_dict h e !! k = Some v → ∃ e2, own h e2 k = Some v.
Proof.
  intros Hok. induction e as [e IH] using lt_wf_ind. rewrite merged_lookup by done.
  destruct (own h e k) as [v'|] eqn:Eo; [intros [= ->]; eauto|].
  destruct (parent_of h e) as [p|] eqn:Ep; [|done]. apply IH. by apply (ho_parent h Hok e p Ep).
Qed.

Lemma detach_copied h e p :
  heap_ok h → parent_of h e = Some p →
  ∃ tbl h1, copied h (get_merged_dict h e) tbl h1 ∧
            detach h e = mkHeap (<[e := mkEnv tbl None]> (envs h1)) (lists h1) (next_env h1) (next_list h1).
Proof.
  intros Hok Hp. unfold detach. rewrite Hp.
  destruct (fold_left copy_entry (map_to_list (get_merged_dict h e)) (∅, h)) as [tbl h1] eqn:E.
  exists tbl, h1. split; [|done]. rewrite <- (fold_insert_list (get_merged_dict h e)).
  eapply copied_fold; [| | |exact E].
  - split; try done. apply (ho_lists h Hok).
  - apply Forall_forall. intros [k [a|l]] Hin; [done|]. apply elem_of_map_to_list in Hin.
    apply merged_source in Hin as [e2 Ho]; [|done]. by apply (ho_refs h Hok e2 k).
  - apply (ho_lists h Hok).
Qed.

Lemma detach_own h e h1 tbl e' k :
  envs h1 = envs h →
  own (mkHeap (<[e := mkEnv tbl None]> (envs h1)) (lists h1) (next_env h1) (next_list h1)) e' k
  = if decide (e' = e) then tbl !! k else own h e' k.
Proof.
  intros Ee. unfold own. cbn [envs]. rewrite Ee. case_decide as Hd.
  - subst. by rewrite lookup_insert_eq.
  - by rewrite lookup_insert_ne by done.
Qed.

Lemma detach_parent h e h1 tbl e' :
  envs h1 = envs h →
  parent_of (mkHeap (<[e := mkEnv tbl None]> (envs h1)) (lists h1) (next_env h1) (next_list h1)) e'
  = if decide (e' = e) then None else parent_of h e'.
Proof.
  intros Ee. unfold parent_of. cbn [envs]. rewrite Ee. case_decide as Hd.
  - subst. by rewrite lookup_insert_eq.
  - by rewrite lookup_insert_ne by done.
Qed.

Lemma detach_ok h e p : heap_ok h → parent_of h e = Some p → heap_ok (detach h e).
Proof.
  intros Hok Hp. destruct (detach_copied h e p Hok Hp) as (tbl & h1 & Hc & ->).
  pose proof Hc as [Ce Cn Cw Co Cb Ct Cr Ci].
  assert (He : is_Some (envs h !! e)).
  { unfold parent_of in Hp. destruct (envs h !! e); [eauto|done]. }
  assert (Hold : ∀ x k l, own h x k = Some (VList l) → l < next_list h ∧ is_Some (lists h1 !! l)).
  { intros x k l Hx. apply (ho_refs h Hok) in Hx. pose proof (ho_lists h Hok _ Hx).
    by rewrite Co. }
  assert (Hdom : ∀ x, is_Some (<[e := mkEnv tbl None]> (envs h1) !! x) ↔ is_Some (envs h !! x)).
  { intros x. rewrite Ce. destruct (decide (x = e)) as [->|].
    - rewrite lookup_insert_eq. split; eauto.
    - by rewrite lookup_insert_ne. }
  split.
  - intros x q. rewrite (detach_parent h) by done. case_decide; [done|]. cbn [envs]. rewrite Hdom.
    apply (ho_parent h Hok).
  - intros x. cbn [envs next_env]. rewrite Hdom, Cn. apply (ho_envs h Hok).
  - intros x k l. rewrite (detach_own h) by done. cbn [lists]. case_decide; [by intros [_ ?]%Cr|].
    by intros [_ ?]%Hold.
  - done.
  - intros e1 k1 e2 k2 l. rewrite !(detach_own h) by done.
    case_decide as H1; case_decide as H2; intros Ha Hb.
    + subst. split; [done|]. by eapply Ci.
    + apply Cr in Ha as [Ha _]. apply Hold in Hb as [Hb _]. lia.
    + apply Cr in Hb as [Hb _]. apply Hold in Ha as [Ha _]. lia.
    + by eapply (ho_sep h Hok).
Qed.

Lemma detach_views h e p e' k :
  heap_ok h → no_none h → parent_of h e = Some p → view (detach h e) e' k = view h e' k.
Proof.
  intros Hok Hn Hp. pose proof (detach_ok h e p Hok Hp) as Hok'.
  pose proof (λ e k, merged_getitem h e k Hok Hn) as Hm.
  destruct (detach_copied h e p Hok Hp) as (tbl & h1 & Hc & Ed). rewrite Ed in Hok' |- *. clear Ed.
  pose proof Hc as [Ce Cn Cw Co Cb Ct Cr Ci].
  induction e' as [e' IH] using lt_wf_ind. unfold view. rewrite getitem_eq by done.
  rewrite (detach_own h), (detach_parent h) by done. case_decide as Hd.
  - subst e'. specialize (Ct k). rewrite Hm in Ct.
    destruct (getitem h e k) as [v|] eqn:Eg.
    + destruct (tbl !! k) as [v'|]; [|done].
      apply getitem_source in Eg as (e2 & _ & Ho); [|done]. pose proof (Hn e2 k) as Hnn.
      destruct v' as [[]|]; try done. exfalso. apply Hnn. rewrite Ho.
      destruct v; cbn in Ct; congruence.
    + by destruct (tbl !! k).
  - rewrite (getitem_eq h e') by done. pose proof (Hn e' k) as Hnn.
    assert (Hsee : ∀ v, own h e' k = Some v →
      see (mkHeap (<[e := mkEnv tbl None]> (envs h1)) (lists h1) (next_env h1) (next_list h1)) v = see h v).
    { intros [a|l] Hv; [done|]. cbn. rewrite Co; [done|]. apply (ho_lists h Hok). by eapply ho_refs. }
    destruct (own h e' k) as [[[]|l]|]; try done; try by apply Hsee.
    destruct (parent_of h e') as [q|] eqn:Eq; [|done]. apply IH. by apply (ho_parent h Hok e').
Qed.

(** When no variable holds None, detaching an environment cuts it off its
    parent without any environment, itself, its copies or its old ancestors,
    reading a different value; and what is later appended in the old parent is
    then not read through it. *)
Theorem detach_correct h e p var v :
  heap_ok h → no_none h → parent_of h e = Some p → value_ok (detach h e) v →
  heap_ok (detach h e) ∧ parent_of (detach h e) e = None ∧
  (∀ e' k, view (detach h e) e' k = view h e' k) ∧
  (∀ k, view (append_value (detach h e) p var v) e k = view h e k).
Proof.
  intros Hok Hn Hp Hv. pose proof (detach_ok h e p Hok Hp) as Hok'.
  assert (Hviews : ∀ e' k, view (detach h e) e' k = view h e' k) by (intros; by eapply detach_views).
  destruct (ho_parent h Hok e p Hp) as [Hlt Hsp].
  assert (Hpar : parent_of (detach h e) e = None).
  { destruct (detach_copied h e p Hok Hp) as (tbl & h1 & Hc & ->). destruct Hc.
    by rewrite (detach_parent h), decide_True. }
  split; [done|]. split; [done|]. split; [done|]. intros k. rewrite <- Hviews.
  assert (Hin : is_Some (envs (detach h e) !! p)).
  { destruct (detach_copied h e p Hok Hp) as (tbl & h1 & Hc & ->). destruct Hc. cbn [envs].
    rewrite lookup_insert_ne by lia. by rewrite cp_envs0. }
  assert (Hnp : own (detach h e) p var ≠ Some (VAtom ANone)).
  { destruct (detach_copied h e p Hok Hp) as (tbl & h1 & Hc & ->). destruct Hc.
    rewrite (detach_own h), decide_False by (done || lia). apply Hn. }
  destruct (append_wrote _ p var v Hok' Hin Hnp Hv) as (l & Hw & _).
  eapply wrote_frame; [done|exact Hw|]. right. intros Ha.
  inversion Ha; [lia|congruence].
Qed.

(** ** The other operations keep heaps well formed *)

Lemma empty_heap_ok : heap_ok empty_heap.
Proof. by split; intros *; unfold own, parent_of; cbn; try done; intros [? ?]. Qed.

Lemma alloc_env_ok h par :
  heap_ok h → (∀ p, par = Some p → is_Some (envs h !! p)) → heap_ok (snd (alloc_env h (mkEnv ∅ par))).
Proof.
  intros Hok Hp.
  assert (Ho : ∀ e k, own (snd (alloc_env h (mkEnv ∅ par))) e k = if decide (e = next_env h) then None else own h e k).
  { intros e k. unfold own. cbn. case_decide; subst; [by rewrite lookup_insert_eq|by rewrite lookup_insert_ne]. }
  assert (Hq : ∀ e, parent_of (snd (alloc_env h (mkEnv ∅ par))) e = if decide (e = next_env h) then par else parent_of h e).
  { intros e. unfold parent_of. cbn. case_decide; subst; [by rewrite lookup_insert_eq|by rewrite lookup_insert_ne]. }
  assert (He : ∀ e, is_Some (envs (snd (alloc_env h (mkEnv ∅ par))) !! e) ↔ e = next_env h ∨ is_Some (envs h !! e)).
  { intros e. cbn. destruct (decide (e = next_env h)) as [->|].
    - rewrite lookup_insert_eq. split; eauto.
    - rewrite lookup_insert_ne by done. naive_solver. }
  split.
  - intros e p. rewrite Hq, He. case_decide as Hd.
    + intros ->. specialize (Hp p eq_refl). subst e. split; [by apply (ho_envs h Hok)|by right].
    + intros Hx. apply (ho_parent h Hok) in Hx as [? ?]. auto.
  - intros e. rewrite He. cbn. intros [->|Hx]; [lia|]. apply (ho_envs h Hok) in Hx. lia.
  - intros e k l. rewrite Ho. case_decide; [done|]. apply (ho_refs h Hok).
  - apply (ho_lists h Hok).
  - intros e1 k1 e2 k2 l. rewrite !Ho. do 2 (case_decide; [done|]). apply (ho_sep h Hok).
Qed.

(** The operations that change a table entry, as one shape. *)
Lemma set_table_ok h e key (f : gmap string value → gmap string value) (v : option value) :
  heap_ok h → is_Some (envs h !! e) →
  (∀ t, f t !! key = v) → (∀ t k, k ≠ key → f t !! k = t !! k) →
  (∀ l, v = Some (VList l) → is_Some (lists h !! l) ∧
     ∀ e' k', own h e' k' = Some (VList l) → e' = e ∧ k' = key) →
  heap_ok (set_table h e f).
Proof.
  intros Hok [env He] Hkey Hother Hv.
  assert (Ho : ∀ e' k, own (set_table h e f) e' k = if decide (e' = e ∧ k = key) then v else own h e' k).
  { intros e' k. unfold own. cbn [set_table envs]. destruct (decide (e' = e)) as [->|].
    - rewrite lookup_alter_eq, He. cbn. destruct (decide (k = key)) as [->|].
      + by rewrite decide_True, Hkey.
      + by rewrite decide_False, Hother by naive_solver.
    - by rewrite decide_False, lookup_alter_ne by naive_solver. }
  assert (Hq : ∀ e', parent_of (set_table h e f) e' = parent_of h e').
  { intros e'. unfold parent_of. cbn [set_table envs]. destruct (decide (e' = e)) as [->|].
    - by rewrite lookup_alter_eq, He. - by rewrite lookup_alter_ne. }
  assert (Hx : ∀ e', is_Some (envs (set_table h e f) !! e') ↔ is_Some (envs h !! e')).
  { intros e'. cbn [set_table envs]. destruct (decide (e' = e)) as [->|].
    - rewrite lookup_alter_eq, He. split; cbn; eauto. - by rewrite lookup_alter_ne. }
  split.
  - intros e' p. rewrite Hq, Hx. apply (ho_parent h Hok).
  - intros e'. rewrite Hx. apply (ho_envs h Hok).
  - intros e' k l. rewrite Ho. case_decide; [by intros [? _]%Hv|]. apply (ho_refs h Hok).
  - apply (ho_lists h Hok).
  - intros e1 k1 e2 k2 l. rewrite !Ho.
    case_decide as H1; case_decide as H2; intros Ha Hb.
    + naive_solver.
    + apply Hv in Ha as [_ Ha]. apply Ha in Hb. naive_solver.
    + apply Hv in Hb as [_ Hb]. apply Hb in Ha. naive_solver.
    + by eapply (ho_sep h Hok).
Qed.

Lemma setitem_atom_ok h e key a : heap_ok h → is_Some (envs h !! e) → heap_ok (setitem h e key (VAtom a)).
Proof.
  intros Hok He. eapply (set_table_ok h e key _ (Some (VAtom a))); try done.
  - intros t. by rewrite lookup_insert_eq.
  - intros t k Hk. by rewrite lookup_insert_ne.
Qed.

Lemma delitem_ok h e key h' : heap_ok h → delitem h e key = Ok h' → heap_ok h'.
Proof.
  intros Hok. unfold delitem. destruct (own h e key) eqn:Eo; [|done]. intros [= <-].
  assert (He : is_Some (envs h !! e)).
  { unfold own in Eo. destruct (envs h !! e); [eauto|done]. }
  eapply (set_table_ok h e key _ None); try done.
  - intros t. by rewrite lookup_delete_eq.
  - intros t k Hk. by rewrite lookup_delete_ne.
Qed.

(** ** Examples *)

(** A parent that sets [CFLAGS], and its copy. *)
Definition ex_parent : Heap := append_value (snd (new_Environment empty_heap)) 0 "CFLAGS" (VAtom (AStr "-O2")).
Definition ex_heap : Heap := snd (copy ex_parent 0).

Lemma ex_parent_ok : heap_ok ex_parent.
Proof.
  assert (Hok : heap_ok (snd (new_Environment empty_heap))).
  { by apply (alloc_env_ok empty_heap None empty_heap_ok). }
  destruct (append_wrote _ 0 "CFLAGS" (VAtom (AStr "-O2")) Hok) as (l & Hw & _); [by eexists|done|done|].
  by eapply wrote_ok.
Qed.

Lemma ex_heap_ok : heap_ok ex_heap.
Proof. apply (alloc_env_ok ex_parent (Some 0) ex_parent_ok). intros p [= <-]. by eexists. Qed.

Lemma append_value_correct_witness :
  changed_to ex_heap (append_value ex_heap 1 "CFLAGS" (VAtom (AStr "-g"))) 1 "CFLAGS" [AStr "-O2"; AStr "-g"] ∧
  view (append_value ex_heap 1 "CFLAGS" (VAtom (AStr "-g"))) 0 "CFLAGS" = SList [AStr "-O2"].
Proof.
  split; [|reflexivity].
  apply (append_value_correct ex_heap 1 "CFLAGS" (VAtom (AStr "-g")) ex_heap_ok); [by eexists|done|done].
Defined.

Lemma prepend_value_correct_witness :
  changed_to ex_heap (prepend_value ex_heap 1 "CFLAGS" (VList 0)) 1 "CFLAGS" [AStr "-O2"; AStr "-O2"].
Proof.
  apply (prepend_value_correct ex_heap 1 "CFLAGS" (VList 0) ex_heap_ok); [by eexists|done|by eexists].
Defined.

Lemma append_unique_correct_witness :
  ∃ c, changed_to ex_heap (append_unique ex_heap 1 "CFLAGS" (VAtom (AStr "-O2"))) 1 "CFLAGS" c ∧
       unique_extension [AStr "-O2"] [AStr "-O2"] c.
Proof.
  apply (append_unique_correct ex_heap 1 "CFLAGS" (VAtom (AStr "-O2")) ex_heap_ok); [by eexists|done|done].
Defined.

Lemma no_none_spec h :
  map_Forall (λ _ env, map_Forall (λ _ v, v ≠ VAtom ANone) (table env)) (envs h) → no_none h.
Proof.
  intros Hn e k. unfold own. destruct (envs h !! e) as [env|] eqn:E; [|done]. cbn.
  intros Hk. by apply (Hn e env E k _ Hk).
Qed.

Lemma detach_correct_witness :
  view (detach ex_heap 1) 1 "CFLAGS" = SList [AStr "-O2"] ∧
  view (append_value (detach ex_heap 1) 0 "CFLAGS" (VAtom (AStr "-g"))) 1 "CFLAGS" = SList [AStr "-O2"].
Proof.
  assert (Hn : no_none ex_heap) by (apply no_none_spec, (bool_decide_unpack _); vm_compute; exact I).
  destruct (detach_correct ex_heap 1 0 "CFLAGS" (VAtom (AStr "-g")) ex_heap_ok Hn) as (_ & _ & H1 & H2);
    [reflexivity|exact I|].
  split; [rewrite H1|rewrite H2]; reflexivity.
Defined.

(** A value that is None reads as the parent's, but [detach] merges the
    tables without looking for None and so loses the parent's value. *)
Theorem detach_loses_shadowed :
  ∃ h e key, heap_ok h ∧ view h e key = SList [AStr "-O2"] ∧ view (detach h e) e key = SList [].
Proof.
  exists (setitem ex_heap 1 "CFLAGS" (VAtom ANone)), 1, "CFLAGS". split; [|by vm_compute].
  apply setitem_atom_ok; [apply ex_heap_ok|by eexists].
Qed.

(** [env['X'] = other['X']] makes two variables share one list object, and
    appending to the one then changes the other. *)
Theorem shared_list_leaks :
  ∃ h e1 e2 key v, e1 ≠ e2 ∧ parent_of h e1 = None ∧ parent_of h e2 = None ∧
    view (append_value h e2 key v) e1 key ≠ view h e1 key.
Proof.
  exists (setitem (snd (new_Environment ex_parent)) 1 "CFLAGS" (VList 0)), 0, 1, "CFLAGS", (VAtom (AStr "-g")).
  by vm_compute.
Qed.
