(* ===== verification/PpEval.v ===== *)
(** * Conditions of the C preprocessor scanner (tools/wafadmin/Tools/preproc.py)

    The tokens of [preproc.py] and the evaluation of [#if] conditions:
    [reduce_nums], [get_num], [get_term] and [reduce_eval].  The value of a
    number token is an int, a string of digits that was not converted yet, the
    pair [parse_char] returns for an octal escape, or None (a float with an
    exponent), as in the source. *)
From S2P Require Import Prelude PyStr.

Inductive toktype := NUM | OP | IDENT | STR.
Inductive tokval := TInt (z : Z) | TStr (s : string) | TTuple (l : list Z) | TNone.
Definition token : Type := toktype * tokval.

#[export] Instance toktype_eq_dec : EqDecision toktype.
Proof. solve_decision. Defined.
#[export] Instance tokval_eq_dec : EqDecision tokval.
Proof. solve_decision. Defined.

Definition PreprocError (msg : string) : exn := WafError msg.

(** ** Python's conversions *)

Definition digit_val (a : ascii) : Z :=
  if is_digit a then Z.of_nat (nat_of_ascii a) - 48
  else if char_in "a" "f" a then Z.of_nat (nat_of_ascii a) - 87
  else if char_in "A" "F" a then Z.of_nat (nat_of_ascii a) - 55
  else 99.
Fixpoint digits_val (base acc : Z) (s : string) : option Z :=
  match s with
  | EmptyString => Some acc
  | String a s' => if (digit_val a <? base)%Z then digits_val base (base * acc + digit_val a) s' else None
  end.

(** [int(s, base)]: blanks around, a sign, and [0x] in base 16. *)
Definition no_prefix (base : Z) (d : string) : string :=
  if (base =? 16)%Z && (startswith "0x" d || startswith "0X" d) then str_drop 2 d else d.
Definition of_digits (base : Z) (d : string) : res Z :=
  match no_prefix base d with
  | EmptyString => Err ValueError
  | d' => match digits_val base 0 d' with Some z => Ok z | None => Err ValueError end
  end.
Definition int_base (base : Z) (s : string) : res Z :=
  match strip s with
  | EmptyString => Err ValueError
  | String a d => if a =c "-" then z ← of_digits base d; Ok (- z)%Z
                  else of_digits base (if a =c "+" then d else String a d)
  end.

(** [int(v)]. *)
Definition to_int (v : tokval) : res Z :=
  match v with
  | TInt z => Ok z
  | TStr s => int_base 10 s
  | TTuple _ | TNone => Err TypeError
  end.

(** [bool(v)]: a string that is not empty is true, ['0'] included. *)
Definition truthy (v : tokval) : bool :=
  match v with
  | TInt z => negb (z =? 0)%Z
  | TStr s => negb (s =s "")
  | TTuple l => match l with [] => false | _ => true end
  | TNone => false
  end.

Definition b2z (b : bool) : Z := if b then 1%Z else 0%Z.

(** ** Operators *)

(** [prec]: the index of the line of [ops] that has the operator. *)
Definition prec (op : string) : option nat :=
  if existsb (String.eqb op) ["*"; "/"; "%"] then Some 0
  else if existsb (String.eqb op) ["+"; "-"] then Some 1
  else if existsb (String.eqb op) ["<<"; ">>"] then Some 2
  else if existsb (String.eqb op) ["<"; "<="; ">="; ">"] then Some 3
  else if existsb (String.eqb op) ["=="; "!="] then Some 4
  else if existsb (String.eqb op) ["&"; "|"; "^"] then Some 5
  else if existsb (String.eqb op) ["&&"; "||"] then Some 6
  else if op =s "," then Some 7
  else None.

(** The operation on integers. *)
Definition apply_op (a b : Z) (op : string) : res Z :=
  if op =s "%" then (if b =? 0 then Err ZeroDivisionError else Ok (a mod b))%Z
  else if op =s "+" then Ok (a + b)%Z
  else if op =s "-" then Ok (a - b)%Z
  else if op =s "*" then Ok (a * b)%Z
  else if op =s "/" then (if b =? 0 then Err ZeroDivisionError else Ok (a / b))%Z
  else if op =s "^" then Ok (Z.lxor a b)
  else if op =s "|" then Ok (Z.lor a b)
  else if op =s "||" then Ok (if a =? 0 then b else a)%Z
  else if op =s "&" then Ok (Z.land a b)
  else if op =s "&&" then Ok (if a =? 0 then a else b)%Z
  else if op =s "==" then Ok (b2z (a =? b)%Z)
  else if op =s "!=" then Ok (b2z (negb (a =? b)%Z))
  else if op =s "<=" then Ok (b2z (a <=? b)%Z)
  else if op =s "<" then Ok (b2z (a <? b)%Z)
  else if op =s ">" then Ok (b2z (b <? a)%Z)
  else if op =s ">=" then Ok (b2z (b <=? a)%Z)
  else if op =s "<<" then (if b <? 0 then Err ValueError else Ok (Z.shiftl a b))%Z
  else if op =s ">>" then (if b <? 0 then Err ValueError else Ok (Z.shiftr a b))%Z
  else Ok 0%Z.

Definition reduce_nums (val_1 val_2 : tokval) (val_op : string) : res Z :=
  a ← to_int val_1;
  b ← to_int val_2;
  apply_op a b val_op.

(** ** Terms *)

Definition op_tok (s : string) : token := (OP, TStr s).
Definition is_op (t : token) (s : string) : bool := bool_decide (t = op_tok s).

(** The loop of [get_num] that looks for the closing parenthesis: the tokens
    before it and those after it. *)
Fixpoint close_par (count_par : nat) (lst : list token) : option (list token * list token) :=
  match lst with
  | [] => None
  | t :: lst' =>
      if is_op t ")" then
        match count_par with
        | S (S _ as n) => '(a, b) ← close_par n lst'; Some (t :: a, b)
        | _ => Some ([], lst')
        end
      else if is_op t "(" then '(a, b) ← close_par (S count_par) lst'; Some (t :: a, b)
      else '(a, b) ← close_par count_par lst'; Some (t :: a, b)
  end.

(** The loop of [get_term] that looks for the colon of a conditional. *)
Fixpoint find_colon (count_par : Z) (lst : list token) : option (list token * list token) :=
  match lst with
  | [] => None
  | t :: lst' =>
      if is_op t ":" && (count_par =? 0)%Z then Some ([], lst')
      else
        let n := if is_op t ")" then (count_par - 1)%Z
                 else if is_op t "(" then (count_par + 1)%Z else count_par in
        '(a, b) ← find_colon n lst'; Some (t :: a, b)
  end.

Fixpoint get_num (fuel : nat) (lst : list token) : res (tokval * list token) :=
  match fuel with
  | 0 => Err OutOfFuel
  | S f =>
      match lst with
      | [] => Err (PreprocError "empty list for get_num")
      | (OP, v) :: lst' =>
          if bool_decide (v = TStr "(") then
            match close_par 1 lst' with
            | None => Err (PreprocError "rparen expected")
            | Some (inner, lst'') => '(num, _) ← get_term f inner; Ok (num, lst'')
            end
          else if bool_decide (v = TStr "+") then get_num f lst'
          else if bool_decide (v = TStr "-") then
            '(num, lst'') ← get_num f lst';
            z ← reduce_nums (TStr "-1") num "*"; Ok (TInt z, lst'')
          else if bool_decide (v = TStr "!") then
            '(num, lst'') ← get_num f lst';
            z ← to_int num; Ok (TInt (b2z (z =? 0)%Z), lst'')
          else if bool_decide (v = TStr "~") then Err NameError
          else Err (PreprocError "invalid op token for get_num")
      | (NUM, v) :: lst' => Ok (v, lst')
      | (IDENT, _) :: lst' => Ok (TInt 0, lst')
      | (STR, _) :: _ => Err (PreprocError "invalid token for get_num")
      end
  end
with get_term (fuel : nat) (lst : list token) : res (tokval * list token) :=
  match fuel with
  | 0 => Err OutOfFuel
  | S f =>
      match lst with
      | [] => Err (PreprocError "empty list for get_term")
      | _ =>
          '(num, lst1) ← get_num f lst;
          match lst1 with
          | [] => Ok (num, [])
          | (OP, TStr v) :: lst2 =>
              if (v =s "&&") && negb (truthy num) then Ok (num, [])
              else if (v =s "||") && truthy num then Ok (num, [])
              else if v =s "," then get_term f lst2
              else if v =s "?" then
                match find_colon 0 lst2 with
                | None => Err (PreprocError "rparen expected")
                | Some (yes, no) => n ← to_int num; get_term f (if (n =? 0)%Z then no else yes)
                end
              else
                '(num2, lst3) ← get_num f lst2;
                match lst3 with
                | [] => z ← reduce_nums num num2 v; get_term f [(NUM, TInt z)]
                | (p2, v2) :: lst4 =>
                    if bool_decide (p2 ≠ OP) then Err (PreprocError "op expected")
                    else
                      match (match v2 with TStr s2 => prec s2 | _ => None end), prec v with
                      | Some n2, Some n1 =>
                          if bool_decide (n1 ≤ n2) then
                            z ← reduce_nums num num2 v; get_term f ((NUM, TInt z) :: lst3)
                          else
                            '(num3, lst5) ← get_num f lst4;
                            z ← reduce_nums num2 num3 (match v2 with TStr s2 => s2 | _ => "" end);
                            get_term f ((NUM, num) :: (OP, TStr v) :: (NUM, TInt z) :: lst5)
                      | _, _ => Err KeyError
                      end
                end
          | _ => Err (PreprocError "cannot reduce")
          end
      end
  end.

Definition reduce_eval (lst : list token) : res tokval :=
  '(num, _) ← get_term (2 * length lst + 2) lst; Ok num.

(** ** Termination *)

Lemma close_par_split n lst a b : close_par n lst = Some (a, b) → lst = a ++ op_tok ")" :: b.
Proof.
  revert n a b. induction lst as [|t lst IH]; intros n a b; cbn [close_par]; [done|].
  unfold is_op. case_bool_decide as H1.
  - subst t. destruct n as [|[|n]]; try (intros [= <- <-]; done).
    destruct (close_par (S n) lst) as [[a' b']|] eqn:E; [|done]. intros [= <- <-]. by rewrite (IH _ _ _ E).
  - case_bool_decide as H2.
    + destruct (close_par (S n) lst) as [[a' b']|] eqn:E; [|done]. intros [= <- <-]. by rewrite (IH _ _ _ E).
    + destruct (close_par n lst) as [[a' b']|] eqn:E; [|done]. intros [= <- <-]. by rewrite (IH _ _ _ E).
Qed.

Lemma find_colon_split n lst a b : find_colon n lst = Some (a, b) → lst = a ++ op_tok ":" :: b.
Proof.
  revert n a b. induction lst as [|t lst IH]; intros n a b; cbn [find_colon]; [done|].
  unfold is_op at 1. case_bool_decide as H1; cbn [andb].
  - destruct (n =? 0)%Z; [intros [= <- <-]; by subst|].
    destruct (find_colon _ lst) as [[a' b']|] eqn:E; [|done]. intros [= <- <-]. by rewrite (IH _ _ _ E).
  - destruct (find_colon _ lst) as [[a' b']|] eqn:E; [|done]. intros [= <- <-]. by rewrite (IH _ _ _ E).
Qed.

Lemma get_num_shorter f : ∀ lst v rest, get_num f lst = Ok (v, rest) → length rest < length lst.
Proof.
  induction f as [|f IH]; intros lst v rest; [done|]. cbn [get_num].
  destruct lst as [|[[] v'] lst]; try done; try (intros [= <- <-]; cbn; lia).
  case_bool_decide.
  { destruct (close_par 1 lst) as [[a b]|] eqn:E; [|done]. apply close_par_split in E as ->.
    intros ([n r] & _ & [= <- <-])%res_bind_Ok. cbn. rewrite length_app. cbn. lia. }
  case_bool_decide. { intros Hr. apply IH in Hr. cbn. lia. }
  case_bool_decide.
  { intros ([n r] & Hr & (z & _ & [= <- <-])%res_bind_Ok)%res_bind_Ok. apply IH in Hr. cbn. lia. }
  case_bool_decide.
  { intros ([n r] & Hr & (z & _ & [= <- <-])%res_bind_Ok)%res_bind_Ok. apply IH in Hr. cbn. lia. }
  by case_bool_decide.
Qed.

(** The result of a fuelled definition that did not run out. *)
Definition fuelled {A} (r : res A) : Prop := r ≠ Err OutOfFuel.

Lemma fuelled_bind {A B} (r : res A) (f : A → res B) :
  fuelled r → (∀ a, r = Ok a → fuelled (f a)) → fuelled (x ← r; f x).
Proof. unfold fuelled. destruct r; cbn; [by intros _ H; apply H|]. intros H _ [= ->]. done. Qed.

Lemma int_base_fuelled b s : fuelled (int_base b s).
Proof.
  assert (Hd : ∀ d, fuelled (of_digits b d)).
  { intros d. unfold of_digits. destruct (no_prefix b d) as [|c d']; [done|]. by destruct (digits_val _ _ _). }
  unfold int_base. destruct (strip s) as [|a d]; [done|].
  destruct (a =c "-"); [|apply Hd]. apply fuelled_bind; [apply Hd|done].
Qed.

Lemma to_int_fuelled v : fuelled (to_int v).
Proof. destruct v; try done. apply int_base_fuelled. Qed.

Lemma reduce_nums_fuelled v1 v2 op : fuelled (reduce_nums v1 v2 op).
Proof.
  unfold reduce_nums. apply fuelled_bind; [apply to_int_fuelled|]. intros a _.
  apply fuelled_bind; [apply to_int_fuelled|]. intros b _. unfold apply_op.
  repeat match goal with |- fuelled (if ?c then _ else _) => destruct c end; done.
Qed.

#[export] Hint Resolve to_int_fuelled reduce_nums_fuelled : py.

Lemma terms_fuelled f :
  (∀ lst, 2 * length lst < f → fuelled (get_num f lst)) ∧
  (∀ lst, 2 * length lst + 1 < f → fuelled (get_term f lst)).
Proof.
  induction f as [|f [IHn IHt]]; [split; intros; lia|]. split; intros lst Hf.
  - cbn [get_num]. destruct lst as [|[[] v] lst]; try done. cbn in Hf.
    case_bool_decide.
    { destruct (close_par 1 lst) as [[a b]|] eqn:E; [|done]. apply close_par_split in E as ->.
      rewrite length_app in Hf. cbn in Hf.
      apply fuelled_bind; [apply IHt; lia|]. by intros []. }
    case_bool_decide. { apply IHn. lia. }
    case_bool_decide.
    { apply fuelled_bind; [apply IHn; lia|]. intros [n r] _. apply fuelled_bind; auto with py. done. }
    case_bool_decide.
    { apply fuelled_bind; [apply IHn; lia|]. intros [n r] _. apply fuelled_bind; auto with py. done. }
    by case_bool_decide.
  - cbn [get_term]. destruct lst as [|t lst]; [done|]. cbn [length] in Hf.
    apply fuelled_bind; [apply IHn; cbn; lia|]. intros [num lst1] H1. apply get_num_shorter in H1.
    destruct lst1 as [|[[] [z|v|u|]] lst2]; try done. cbn in H1.
    destruct (_ && _); [done|]. destruct (_ && _); [done|].
    destruct (v =s ","); [apply IHt; lia|]. destruct (v =s "?").
    { destruct (find_colon 0 lst2) as [[a b]|] eqn:E; [|done]. apply find_colon_split in E as ->.
      rewrite length_app in H1. cbn in H1. apply fuelled_bind; auto with py. intros n _.
      destruct (n =? 0)%Z; apply IHt; lia. }
    apply fuelled_bind; [apply IHn; lia|]. intros [num2 lst3] H3. apply get_num_shorter in H3.
    destruct lst3 as [|[p2 v2] lst4].
    { apply fuelled_bind; auto with py. intros z _. apply IHt. cbn in *. lia. }
    case_bool_decide; [done|]. cbn in H3.
    destruct (match v2 with TStr s2 => prec s2 | _ => None end), (prec v); try done.
    case_bool_decide.
    { apply fuelled_bind; auto with py. intros z _. apply IHt. cbn. lia. }
    apply fuelled_bind; [apply IHn; lia|]. intros [num3 lst5] H5. apply get_num_shorter in H5.
    apply fuelled_bind; auto with py. intros z _. apply IHt. cbn. lia.
Qed.

(** The evaluation of a condition always ends, with a value or an
    exception: the fuel given by the number of tokens suffices. *)
Theorem reduce_eval_total lst : fuelled (reduce_eval lst).
Proof.
  unfold reduce_eval. apply fuelled_bind; [|by intros []]. apply terms_fuelled. lia.
Qed.

(** ** Reference evaluation

    Conditions as trees: operands, and chains of operands with the binary
    operators between them, as they are written. *)
Inductive uexp :=
| UNum (v : tokval)
| UIdent (s : string)
| UPar (first : uexp) (rest : list (string * uexp))
| UPos (u : uexp)
| UNeg (u : uexp)
| UNot (u : uexp).

Lemma uexp_nested_ind (P : uexp → Prop) :
  (∀ v, P (UNum v)) → (∀ s, P (UIdent s)) →
  (∀ u rest, P u → Forall (λ ou, P (snd ou)) rest → P (UPar u rest)) →
  (∀ u, P u → P (UPos u)) → (∀ u, P u → P (UNeg u)) → (∀ u, P u → P (UNot u)) → ∀ u, P u.
Proof.
  intros Hn Hi Hp Hpos Hneg Hnot. fix IH 1. intros [v|s|u rest|u|u|u].
  - apply Hn.
  - apply Hi.
  - apply Hp; [apply IH|]. induction rest as [|[op u'] rest IHr]; constructor; [apply IH|exact IHr].
  - apply Hpos, IH.
  - apply Hneg, IH.
  - apply Hnot, IH.
Qed.

(** The tokens. *)
Fixpoint utoks (u : uexp) : list token :=
  match u with
  | UNum v => [(NUM, v)]
  | UIdent s => [(IDENT, TStr s)]
  | UPar u rest =>
      op_tok "(" :: utoks u ++
      (fix go r := match r with [] => [] | (op, u') :: r' => op_tok op :: utoks u' ++ go r' end) rest
      ++ [op_tok ")"]
  | UPos u => op_tok "+" :: utoks u
  | UNeg u => op_tok "-" :: utoks u
  | UNot u => op_tok "!" :: utoks u
  end.
Definition rest_toks (r : list (string * uexp)) : list token :=
  flat_map (λ ou, op_tok (fst ou) :: utoks (snd ou)) r.
Definition chain_toks (u : uexp) (r : list (string * uexp)) : list token := utoks u ++ rest_toks r.

(** The levels of C, from the operators that bind most tightly. *)
Definition cprec (op : string) : option nat :=
  if existsb (String.eqb op) ["*"; "/"; "%"] then Some 0
  else if existsb (String.eqb op) ["+"; "-"] then Some 1
  else if existsb (String.eqb op) ["<<"; ">>"] then Some 2
  else if existsb (String.eqb op) ["<"; "<="; ">="; ">"] then Some 3
  else if existsb (String.eqb op) ["=="; "!="] then Some 4
  else if op =s "&" then Some 5
  else if op =s "^" then Some 6
  else if op =s "|" then Some 7
  else if op =s "&&" then Some 8
  else if op =s "||" then Some 9
  else None.

(** Apply the operators of one level, from left to right. *)
Fixpoint pass (k : nat) (acc : Z) (rest : list (string * Z)) : option (Z * list (string * Z)) :=
  match rest with
  | [] => Some (acc, [])
  | (op, v) :: rest' =>
      if bool_decide (cprec op = Some k) then
        match apply_op acc v op with Ok z => pass k z rest' | Err _ => None end
      else '(v', r) ← pass k v rest'; Some (acc, (op, v') :: r)
  end.

(** The value of a chain: one level after the other. *)
Fixpoint passes (ks : list nat) (acc : Z) (rest : list (string * Z)) : option (Z * list (string * Z)) :=
  match ks with
  | [] => Some (acc, rest)
  | k :: ks' => '(a, r) ← pass k acc rest; passes ks' a r
  end.
Definition eval_chain (acc : Z) (rest : list (string * Z)) : option Z := fst <$> passes (seq 0 10) acc rest.

Fixpoint uval (u : uexp) : option Z :=
  match u with
  | UNum v => match to_int v with Ok z => Some z | Err _ => None end
  | UIdent _ => Some 0%Z
  | UPar u rest =>
      z ← uval u;
      zs ← (fix go r := match r with
                        | [] => Some []
                        | (op, u') :: r' => z' ← uval u'; zs' ← go r'; Some ((op, z') :: zs')
                        end) rest;
      eval_chain z zs
  | UPos u => uval u
  | UNeg u => Z.opp <$> uval u
  | UNot u => (λ z, b2z (z =? 0)%Z) <$> uval u
  end.
Fixpoint rest_vals (r : list (string * uexp)) : option (list (string * Z)) :=
  match r with
  | [] => Some []
  | (op, u) :: r' => z ← uval u; zs ← rest_vals r'; Some ((op, z) :: zs)
  end.
Definition chain_val (u : uexp) (r : list (string * uexp)) : option Z :=
  z ← uval u; zs ← rest_vals r; eval_chain z zs.

(** A number that was not converted. *)
Fixpoint literal (u : uexp) : bool :=
  match u with
  | UNum (TInt _) => false
  | UNum _ => true
  | UPos u => literal u
  | UPar u [] => literal u
  | _ => false
  end.

(** The level [prec] gives to a level of C. *)
Definition waf_level (c : nat) : nat := nth c [0; 1; 2; 3; 4; 5; 5; 5; 6; 6] 7.

(** At most two levels, which [prec] tells apart; a disjunction does not start
    with a bare number. *)
Definition two_levels (u : uexp) (r : list (string * uexp)) : Prop :=
  (∃ hi lo, waf_level hi < waf_level lo ∧ lo < 10 ∧
     Forall (λ ou, cprec (fst ou) = Some hi ∨ cprec (fst ou) = Some lo) r) ∧
  (Exists (λ ou, fst ou = "||") r → literal u = false).

Fixpoint simple (u : uexp) : Prop :=
  match u with
  | UPar u rest =>
      simple u ∧ two_levels u rest ∧
      (fix go r := match r with [] => True | (_, u') :: r' => simple u' ∧ go r' end) rest
  | UPos u | UNeg u | UNot u => simple u
  | _ => True
  end.
Definition simple_chain (u : uexp) (r : list (string * uexp)) : Prop :=
  simple u ∧ two_levels u r ∧ Forall (λ ou, simple (snd ou)) r.

Lemma utoks_par u r : utoks (UPar u r) = op_tok "(" :: chain_toks u r ++ [op_tok ")"].
Proof.
  unfold chain_toks, rest_toks. cbn [utoks]. f_equal. rewrite <- app_assoc. f_equal.
  f_equal. induction r as [|[op u'] r IH]; [done|]. cbn. by rewrite IH.
Qed.

Lemma uval_par u r : uval (UPar u r) = chain_val u r.
Proof.
  unfold chain_val. cbn [uval]. destruct (uval u) as [z|]; [|done]. cbn [mbind option_bind].
  match goal with |- (?x ≫= _) = _ => assert (x = rest_vals r) as ->; [|done] end.
  induction r as [|[op u'] r IH]; [done|]. cbn. by rewrite IH.
Qed.

Lemma simple_par u r : simple (UPar u r) → simple_chain u r.
Proof.
  cbn. intros (Hu & H2 & Hr). split; [done|]. split; [done|]. clear H2.
  induction r as [|[op u'] r IH]; [constructor|]. destruct Hr. constructor; auto.
Qed.

Lemma cprec_ops op k : cprec op = Some k →
  op ∈ ["*"; "/"; "%"; "+"; "-"; "<<"; ">>"; "<"; "<="; ">="; ">"; "=="; "!="; "&"; "^"; "|"; "&&"; "||"].
Proof.
  intros H. apply list_elem_of_In.
  destruct (existsb (String.eqb op)
    ["*"; "/"; "%"; "+"; "-"; "<<"; ">>"; "<"; "<="; ">="; ">"; "=="; "!="; "&"; "^"; "|"; "&&"; "||"]) eqn:E.
  - apply existsb_exists in E as (x & Hx & ->%String.eqb_eq). done.
  - exfalso. unfold cprec in H. cbn [existsb] in E, H.
    repeat match type of E with (?x || _) = false => apply orb_false_elim in E as [? E] end.
    repeat match goal with Hx : (op =s _) = false |- _ => rewrite Hx in H; clear Hx end.
    done.
Qed.

(** A check of a property of an operator, one by one. *)
Lemma cprec_check op k (p : string → nat → bool) :
  cprec op = Some k →
  forallb (λ o, match cprec o with Some c => p o c | None => true end)
    ["*"; "/"; "%"; "+"; "-"; "<<"; ">>"; "<"; "<="; ">="; ">"; "=="; "!="; "&"; "^"; "|"; "&&"; "||"] = true →
  p op k = true.
Proof.
  intros H Hall. pose proof (cprec_ops op k H) as Hin. rewrite list_elem_of_In in Hin.
  rewrite forallb_forall in Hall. specialize (Hall op Hin). by rewrite H in Hall.
Qed.

Lemma cprec_prec op k : cprec op = Some k → prec op = Some (waf_level k).
Proof.
  intros H. apply (bool_decide_eq_true_1 (prec op = Some (waf_level k))).
  apply (cprec_check op k (λ o c, bool_decide (prec o = Some (waf_level c))) H). by vm_compute.
Qed.

Lemma cprec_plain op k : cprec op = Some k →
  (op =s ",") = false ∧ (op =s "?") = false ∧ is_op (op_tok op) ")" = false ∧ is_op (op_tok op) "(" = false.
Proof.
  intros H.
  apply (cprec_check op k (λ o _, negb (o =s ",") && negb (o =s "?") &&
    negb (is_op (op_tok o) ")") && negb (is_op (op_tok o) "("))) in H; [|by vm_compute].
  rewrite !andb_true_iff, !negb_true_iff in H. naive_solver.
Qed.

Lemma cprec_logical op k : cprec op = Some k →
  (op =s "&&") = bool_decide (k = 8) ∧ (op =s "||") = bool_decide (k = 9).
Proof.
  intros H.
  apply (cprec_check op k (λ o c, Bool.eqb (o =s "&&") (bool_decide (c = 8)) && Bool.eqb (o =s "||") (bool_decide (c = 9)))) in H;
    [|by vm_compute].
  apply andb_true_iff in H as [H1%Bool.eqb_prop H2%Bool.eqb_prop]. done.
Qed.

(** Skipping balanced tokens. *)
Definition skipped_by (ts : list token) : Prop :=
  ∀ n l, 1 ≤ n → close_par n (ts ++ l) = ('(a, b) ← close_par n l; Some (ts ++ a, b)).

Lemma skipped_app ts1 ts2 : skipped_by ts1 → skipped_by ts2 → skipped_by (ts1 ++ ts2).
Proof.
  intros H1 H2 n l Hn. rewrite <- app_assoc, H1, H2 by done.
  destruct (close_par n l) as [[]|]; [|done]. cbn. by rewrite <- app_assoc.
Qed.

Lemma skipped_one t : is_op t ")" = false → is_op t "(" = false → skipped_by [t].
Proof. intros H1 H2 n l Hn. cbn. by rewrite H1, H2. Qed.

Lemma skipped_rest r :
  Forall (λ ou, skipped_by (utoks (snd ou))) r → Forall (λ ou, is_Some (cprec (fst ou))) r →
  skipped_by (rest_toks r).
Proof.
  induction 1 as [|[op u] r Hu _ IH]; intros Hops.
  - intros n l _. cbn. by destruct (close_par n l) as [[]|].
  - apply Forall_cons in Hops as [[k Hk] Hops]. apply cprec_plain in Hk as (_ & _ & H1 & H2).
    cbn [rest_toks flat_map fst snd]. apply (skipped_app [_]); [by apply skipped_one|].
    apply skipped_app; [done|by apply IH].
Qed.

Lemma skipped_par ts : skipped_by ts → skipped_by (op_tok "(" :: ts ++ [op_tok ")"]).
Proof.
  intros Ht n l Hn. cbn [app close_par].
  change (is_op (op_tok "(") ")") with false. change (is_op (op_tok "(") "(") with true. cbn iota.
  rewrite <- app_assoc, Ht by lia. cbn [app close_par].
  change (is_op (op_tok ")") ")") with true. cbn iota.
  destruct n as [|n]; [lia|]. destruct (close_par (S n) l) as [[]|]; [|done]. cbn. by rewrite <- app_assoc.
Qed.

Lemma two_levels_known u r : two_levels u r → Forall (λ ou, is_Some (cprec (fst ou))) r.
Proof. intros [(hi & lo & _ & _ & Ho) _]. eapply Forall_impl; [exact Ho|]. intros ou [->| ->]; eauto. Qed.

Lemma skipped_utoks u : simple u → skipped_by (utoks u).
Proof.
  induction u as [v|s|u r IHu IHr|u IH|u IH|u IH] using uexp_nested_ind; intros Hs.
  1-2: by apply skipped_one.
  2-4: by apply (skipped_app [_]); [apply skipped_one|apply IH].
  apply simple_par in Hs as (Hu & H2 & Hr). rewrite utoks_par. apply skipped_par, skipped_app; [by apply IHu|].
  apply skipped_rest; [|by eapply two_levels_known].
  rewrite Forall_forall in *. intros ou Hin. by apply IHr, Hr.
Qed.

Lemma close_par_chain u r l :
  simple_chain u r → close_par 1 (chain_toks u r ++ op_tok ")" :: l) = Some (chain_toks u r, l).
Proof.
  intros (Hu & H2 & Hr).
  assert (Hs : skipped_by (chain_toks u r)).
  { apply skipped_app; [by apply skipped_utoks|]. apply skipped_rest; [|by eapply two_levels_known].
    eapply Forall_impl; [exact Hr|]. intros ou. apply skipped_utoks. }
  rewrite Hs by lia. cbn [close_par]. change (is_op (op_tok ")") ")") with true. cbn.
  by rewrite app_nil_r.
Qed.

(** ** Two levels *)

Section TwoLevels.
Context (hi lo : nat).
Hypothesis Hlt : hi < lo.
Hypothesis Hlo : lo < 10.

Definition leveled (zs : list (string * Z)) : Prop :=
  Forall (λ oz, cprec (fst oz) = Some hi ∨ cprec (fst oz) = Some lo) zs.
Definition all_lo (zs : list (string * Z)) : Prop := Forall (λ oz, cprec (fst oz) = Some lo) zs.

Definition eval2 (acc : Z) (zs : list (string * Z)) : option Z :=
  '(a, r) ← pass hi acc zs; '(b, _) ← pass lo a r; Some b.

Lemma pass_none k acc zs : Forall (λ oz, cprec (fst oz) ≠ Some k) zs → pass k acc zs = Some (acc, zs).
Proof using.
  clear. intros H. revert acc. induction H as [|[op v] zs Hop _ IH]; intros acc; [done|].
  cbn [pass fst] in *. rewrite bool_decide_eq_false_2 by done. by rewrite IH.
Qed.

Lemma passes_none ks acc zs :
  (∀ k, k ∈ ks → Forall (λ oz, cprec (fst oz) ≠ Some k) zs) → passes ks acc zs = Some (acc, zs).
Proof using.
  clear. induction ks as [|k ks IH]; intros H; [done|]. cbn [passes]. rewrite pass_none by (apply H; set_solver).
  cbn. apply IH. intros k' Hk'. apply H. set_solver.
Qed.

Lemma pass_hi acc zs a r : leveled zs → pass hi acc zs = Some (a, r) → all_lo r.
Proof using Hlt.
  intros H. revert acc a r. induction H as [|[op v] zs Hop _ IH]; intros acc a r; cbn [pass fst] in *.
  - intros [= <- <-]. constructor.
  - case_bool_decide as Hd; [destruct (apply_op acc v op); [apply IH|done]|].
    destruct (pass hi v zs) as [[v' r']|] eqn:E; [|done]. intros [= <- <-].
    constructor; [cbn; naive_solver|]. by eapply IH.
Qed.

Lemma pass_lo_nil acc zs a r : all_lo zs → pass lo acc zs = Some (a, r) → r = [].
Proof using.
  clear. intros H. revert acc. induction H as [|[op v] zs Hop _ IH]; intros acc; cbn [pass fst] in *.
  - by intros [= _ <-].
  - rewrite bool_decide_eq_true_2 by done. destruct (apply_op acc v op); [apply IH|done].
Qed.

Lemma leveled_other k zs : leveled zs → k ≠ hi → k ≠ lo → Forall (λ oz, cprec (fst oz) ≠ Some k) zs.
Proof using. intros H H1 H2. eapply Forall_impl; [exact H|]. intros oz. naive_solver. Qed.

Lemma all_lo_leveled zs : all_lo zs → leveled zs.
Proof using. intros H. eapply Forall_impl; [exact H|]. auto. Qed.

Lemma passes_app ks1 ks2 acc zs :
  passes (ks1 ++ ks2) acc zs = ('(a, r) ← passes ks1 acc zs; passes ks2 a r).
Proof using.
  clear. revert acc zs. induction ks1 as [|k ks1 IH]; intros acc zs; [done|]. cbn.
  destruct (pass k acc zs) as [[a r]|]; [|done]. cbn. apply IH.
Qed.

Lemma eval_chain_two acc zs : leveled zs → eval_chain acc zs = eval2 acc zs.
Proof using Hlt Hlo.
  intros H. unfold eval_chain, eval2.
  assert (Hs : seq 0 10 = seq 0 hi ++ hi :: seq (S hi) (lo - S hi) ++ lo :: seq (S lo) (9 - lo)).
  { replace 10 with (hi + S (lo - S hi + S (9 - lo))) by lia. rewrite seq_app. cbn [Nat.add seq].
    rewrite seq_app. cbn [seq Nat.add]. do 4 f_equal; try lia. f_equal; lia. }
  rewrite Hs, passes_app, passes_none.
  2: { intros k Hk%elem_of_seq. apply leveled_other; try done; lia. }
  cbn [mbind option_bind passes]. destruct (pass hi acc zs) as [[a r]|] eqn:E; [|done]. cbn [mbind option_bind].
  apply pass_hi in E; [|done]. rewrite passes_app, passes_none.
  2: { intros k Hk%elem_of_seq. apply leveled_other; [by apply all_lo_leveled|lia|lia]. }
  cbn [mbind option_bind passes]. destruct (pass lo a r) as [[b r']|] eqn:E2; [|done]. cbn [mbind option_bind].
  apply pass_lo_nil in E2 as ->; [|done]. by rewrite passes_none by (intros; constructor).
Qed.

(** The three reductions of [get_term]. *)
Definition ap (a b : Z) (op : string) : option Z :=
  match apply_op a b op with Ok z => Some z | Err _ => None end.

Lemma eval2_hi z0 op z1 zs :
  cprec op = Some hi → eval2 z0 ((op, z1) :: zs) = (a ← ap z0 z1 op; eval2 a zs).
Proof using.
  intros H. unfold eval2, ap. cbn [pass]. rewrite bool_decide_eq_true_2 by done.
  by destruct (apply_op z0 z1 op).
Qed.

Lemma eval2_lo_hi z0 op z1 op2 z2 zs :
  cprec op = Some lo → cprec op2 = Some hi →
  eval2 z0 ((op, z1) :: (op2, z2) :: zs) = (a ← ap z1 z2 op2; eval2 z0 ((op, a) :: zs)).
Proof using Hlt Hlo.
  intros H H2. unfold eval2, ap. cbn [pass]. rewrite bool_decide_eq_false_2 by (rewrite H; intros [=]; lia).
  rewrite bool_decide_eq_true_2 by done. by destruct (apply_op z1 z2 op2).
Qed.

(** Operators of the lower level come next, or nothing. *)
Definition starts_lo (zs : list (string * Z)) : Prop :=
  match zs with [] => True | (op, _) :: _ => cprec op = Some lo end.

Lemma pass_hi_starts_lo zs : starts_lo zs →
  (∃ zs', ∀ acc, pass hi acc zs = Some (acc, zs')) ∨ (∀ acc, pass hi acc zs = None).
Proof using Hlt Hlo.
  destruct zs as [|[op v] zs]; intros H; [left; by exists []|]. cbn in H. cbn [pass].
  rewrite bool_decide_eq_false_2 by (rewrite H; intros [=]; lia).
  destruct (pass hi v zs) as [[v' r]|]; [left; by exists ((op, v') :: r)|by right].
Qed.

Lemma eval2_lo z0 op z1 zs :
  cprec op = Some lo → starts_lo zs → eval2 z0 ((op, z1) :: zs) = (a ← ap z0 z1 op; eval2 a zs).
Proof using Hlt Hlo.
  intros H Hs. unfold eval2, ap. cbn [pass]. rewrite bool_decide_eq_false_2 by (rewrite H; intros [=]; lia).
  destruct (pass_hi_starts_lo zs Hs) as [[zs' Hz]|Hz].
  - rewrite Hz. cbn [mbind option_bind pass]. rewrite bool_decide_eq_true_2 by done.
    destruct (apply_op z0 z1 op) as [a|]; [|done]. cbn [mbind option_bind]. by rewrite Hz.
  - rewrite Hz. cbn. destruct (apply_op z0 z1 op) as [a|]; [|done]. cbn. by rewrite Hz.
Qed.

(** A conjunction that starts with 0 is 0; a disjunction that starts with
    another value is that value. *)
Lemma pass_short k acc zs a r :
  Forall (λ oz, cprec (fst oz) = Some k) zs → (k = 8 ∧ acc = 0%Z) ∨ (k = 9 ∧ acc ≠ 0%Z) →
  pass k acc zs = Some (a, r) → a = acc.
Proof using.
  clear. intros H Hk. induction H as [|[op v] zs Hop _ IH]; cbn [pass fst] in *; [by intros [= <- _]|].
  rewrite bool_decide_eq_true_2 by done.
  destruct (cprec_logical op k Hop) as [Ha Ho]. clear Hop. destruct Hk as [[-> ->]|[-> Hz]].
  - apply String.eqb_eq in Ha as ->. cbn. apply IH.
  - apply String.eqb_eq in Ho as ->. cbn.
    destruct (Z.eqb_spec acc 0); [done|]. apply IH.
Qed.

Lemma eval2_short z0 op z1 zs z :
  leveled ((op, z1) :: zs) → cprec op = Some lo →
  (lo = 8 ∧ z0 = 0%Z) ∨ (lo = 9 ∧ z0 ≠ 0%Z) → eval2 z0 ((op, z1) :: zs) = Some z → z = z0.
Proof using Hlt Hlo.
  intros Hl Hop Hk. unfold eval2.
  destruct (pass hi z0 ((op, z1) :: zs)) as [[a r]|] eqn:E; [|done]. cbn.
  pose proof (pass_hi _ _ _ _ Hl E) as Hr.
  assert (a = z0) as ->.
  { cbn [pass] in E. rewrite bool_decide_eq_false_2 in E by (rewrite Hop; intros [=]; lia).
    destruct (pass hi z1 zs) as [[]|]; [|done]. by injection E. }
  destruct (pass lo z0 r) as [[b r']|] eqn:E2; [|done]. intros [= <-]. by eapply pass_short.
Qed.

End TwoLevels.

Lemma waf_level_max lo : lo < 10 → waf_level lo ≤ 6.
Proof. intros H. do 10 (destruct lo as [|lo]; [cbn; lia|]). lia. Qed.

Lemma waf_level_lt hi lo : waf_level hi < waf_level lo → lo < 10 → hi < lo.
Proof.
  intros H Hlo. do 10 (destruct lo as [|lo]; [do 10 (destruct hi as [|hi]; [cbn in *; lia|]); cbn in H;
    destruct hi; cbn in H; lia|]). lia.
Qed.

(** [get_num] reads an operand. *)
Definition num_ok (u : uexp) : Prop := ∀ fuel rest z,
  uval u = Some z → 2 * length (utoks u) < fuel →
  ∃ v, get_num fuel (utoks u ++ rest) = Ok (v, rest) ∧ to_int v = Ok z ∧ (literal u = false → v = TInt z).

Lemma num_ok_num v : num_ok (UNum v).
Proof.
  intros [|fuel] rest z Hz Hf; [cbn in Hf; lia|]. exists v. split; [done|]. cbn in Hz.
  destruct (to_int v) as [z'|] eqn:E; [|done]. injection Hz as ->. split; [done|].
  destruct v; try done. cbn in E. by injection E as ->.
Qed.

(** Unfolding [get_term] on an operand that an operator follows. *)
Lemma get_term_op f lst0 v0 op lst :
  get_num f lst0 = Ok (v0, op_tok op :: lst) →
  get_term (S f) lst0 =
    if (op =s "&&") && negb (truthy v0) then Ok (v0, [])
    else if (op =s "||") && truthy v0 then Ok (v0, [])
    else if op =s "," then get_term f lst
    else if op =s "?" then
      match find_colon 0 lst with
      | None => Err (PreprocError "rparen expected")
      | Some (yes, no) => n ← to_int v0; get_term f (if (n =? 0)%Z then no else yes)
      end
    else
      '(num2, lst3) ← get_num f lst;
      match lst3 with
      | [] => z ← reduce_nums v0 num2 op; get_term f [(NUM, TInt z)]
      | (p2, v2) :: lst4 =>
          if bool_decide (p2 ≠ OP) then Err (PreprocError "op expected")
          else
            match (match v2 with TStr s2 => prec s2 | _ => None end), prec op with
            | Some n2, Some n1 =>
                if bool_decide (n1 ≤ n2) then
                  z ← reduce_nums v0 num2 op; get_term f ((NUM, TInt z) :: lst3)
                else
                  '(num3, lst5) ← get_num f lst4;
                  z ← reduce_nums num2 num3 (match v2 with TStr s2 => s2 | _ => "" end);
                  get_term f ((NUM, v0) :: (OP, TStr op) :: (NUM, TInt z) :: lst5)
            | _, _ => Err KeyError
            end
      end.
Proof.
  intros Hn. cbn [get_term]. destruct lst0 as [|t l]; [by destruct f|]. by rewrite Hn.
Qed.

Lemma reduce_nums_ap v0 v1 z0 z1 op a :
  to_int v0 = Ok z0 → to_int v1 = Ok z1 → ap z0 z1 op = Some a → reduce_nums v0 v1 op = Ok a.
Proof.
  intros H0 H1. unfold reduce_nums, ap. rewrite H0, H1. cbn. destruct (apply_op z0 z1 op); [|done].
  by intros [= ->].
Qed.

Lemma not_truthy v z : to_int v = Ok z → truthy v = false → v = TInt 0 ∧ z = 0%Z.
Proof.
  destruct v as [x|[|c s]|l|]; cbn -[int_base]; try done. intros [= ->].
  intros Hz%negb_false_iff%Z.eqb_eq. by subst.
Qed.

Lemma eval2_step hi lo z0 op z1 zs :
  hi < lo → lo < 10 → cprec op = Some hi ∨ (cprec op = Some lo ∧ starts_lo lo zs) →
  eval2 hi lo z0 ((op, z1) :: zs) = (a ← ap z0 z1 op; eval2 hi lo a zs).
Proof. intros H H' [Ho|[Ho Hs]]; [by apply eval2_hi|by apply eval2_lo]. Qed.

Section Chains.
Context (hi lo : nat).
Hypothesis Hlevel : waf_level hi < waf_level lo.
Hypothesis Hlo : lo < 10.

Definition in_levels (op : string) : Prop := cprec op = Some hi ∨ cprec op = Some lo.

(** What [get_term] must return for a chain. *)
Definition term_ok (u : uexp) (r : list (string * uexp)) : Prop := ∀ fuel z,
  Forall (λ ou, in_levels (fst ou)) r → (Exists (λ ou, fst ou = "||") r → literal u = false) →
  chain_val u r = Some z → 2 * length (chain_toks u r) + 1 < fuel →
  ∃ v, get_term fuel (chain_toks u r) = Ok (v, []) ∧ to_int v = Ok z ∧
       (r ≠ [] ∨ literal u = false → v = TInt z).

Lemma term_ok_nil u : num_ok u → term_ok u [].
Proof using.
  clear. intros Hu [|fuel] z _ _ Hz Hf; [lia|]. unfold chain_toks in *. cbn [rest_toks flat_map] in *.
  rewrite app_nil_r in *.
  assert (Hv : uval u = Some z).
  { unfold chain_val in Hz. destruct (uval u); cbn in Hz; [|done]. done. }
  destruct (Hu fuel [] z Hv) as (v & Hn & Hi & Hl); [lia|]. rewrite app_nil_r in Hn.
  exists v. split; [|split; [done|naive_solver]].
  cbn [get_term]. destruct (utoks u); [by destruct fuel|]. by rewrite Hn.
Qed.

Lemma chain_val_cons u op u1 r z :
  Forall (λ ou, in_levels (fst ou)) ((op, u1) :: r) → chain_val u ((op, u1) :: r) = Some z →
  ∃ z0 z1 zs, uval u = Some z0 ∧ uval u1 = Some z1 ∧ rest_vals r = Some zs ∧
    leveled hi lo ((op, z1) :: zs) ∧ eval2 hi lo z0 ((op, z1) :: zs) = Some z.
Proof using Hlevel Hlo.
  intros Hf Hz. unfold chain_val in Hz. destruct (uval u) as [z0|]; [|done]. cbn [mbind option_bind rest_vals] in Hz.
  destruct (uval u1) as [z1|]; [|done]. cbn [mbind option_bind] in Hz.
  destruct (rest_vals r) as [zs|] eqn:Er; [|done]. cbn [mbind option_bind] in Hz.
  assert (Hl : leveled hi lo ((op, z1) :: zs)).
  { apply Forall_cons in Hf as [Ho Hf]. constructor; [done|]. clear Hz Ho. revert zs Er.
    induction r as [|[op2 u2] r IH]; intros zs Er; cbn in Er; [injection Er as <-; constructor|].
    destruct (uval u2); [|done]. destruct (rest_vals r) as [zs'|]; [|done]. injection Er as <-.
    apply Forall_cons in Hf as [Ho Hf]. constructor; [done|]. by apply IH. }
  exists z0, z1, zs. rewrite <- eval_chain_two; auto 10 using waf_level_lt.
Qed.

(** [get_term] past the first operand: a short cut, or the second operand. *)
Lemma term_head u op u1 r f z :
  num_ok u → num_ok u1 → Forall (λ ou, in_levels (fst ou)) ((op, u1) :: r) →
  (Exists (λ ou, fst ou = "||") ((op, u1) :: r) → literal u = false) →
  chain_val u ((op, u1) :: r) = Some z → 2 * length (chain_toks u ((op, u1) :: r)) < f →
  get_term (S f) (chain_toks u ((op, u1) :: r)) = Ok (TInt z, []) ∨
  ∃ v0 v1 z0 z1 zs, to_int v0 = Ok z0 ∧ to_int v1 = Ok z1 ∧ (literal u = false → v0 = TInt z0) ∧
    rest_vals r = Some zs ∧ leveled hi lo ((op, z1) :: zs) ∧ eval2 hi lo z0 ((op, z1) :: zs) = Some z ∧
    get_term (S f) (chain_toks u ((op, u1) :: r)) =
      match rest_toks r with
      | [] => a ← reduce_nums v0 v1 op; get_term f [(NUM, TInt a)]
      | (p2, v2) :: lst4 =>
          if bool_decide (p2 ≠ OP) then Err (PreprocError "op expected")
          else
            match (match v2 with TStr s2 => prec s2 | _ => None end), prec op with
            | Some n2, Some n1 =>
                if bool_decide (n1 ≤ n2) then
                  a ← reduce_nums v0 v1 op; get_term f ((NUM, TInt a) :: rest_toks r)
                else
                  '(num3, lst5) ← get_num f lst4;
                  a ← reduce_nums v1 num3 (match v2 with TStr s2 => s2 | _ => "" end);
                  get_term f ((NUM, v0) :: (OP, TStr op) :: (NUM, TInt a) :: lst5)
            | _, _ => Err KeyError
            end
      end.
Proof using Hlevel Hlo.
  intros Hu Hu1 Hlev Hlit Hz Hf. pose proof (waf_level_lt _ _ Hlevel Hlo) as Hlt.
  destruct (chain_val_cons _ _ _ _ _ Hlev Hz) as (z0 & z1 & zs & Hz0 & Hz1 & Hzs & Hl & Hev).
  apply Forall_cons in Hlev as [Hop Hlev]. cbn [fst] in Hop.
  assert (Hk : ∃ k, cprec op = Some k ∧ (k = hi ∨ k = lo)) by (destruct Hop; eauto). destruct Hk as (k & Hk & Hkk).
  unfold chain_toks in *. cbn [rest_toks flat_map fst snd] in *. fold (rest_toks r) in *.
  rewrite !length_app in Hf. cbn [length] in Hf. cbn [app].
  destruct (Hu f (op_tok op :: utoks u1 ++ rest_toks r) z0 Hz0) as (v0 & Hn0 & Hi0 & Hl0); [lia|].
  destruct (Hu1 f (rest_toks r) z1 Hz1) as (v1 & Hn1 & Hi1 & _); [lia|].
  rewrite (get_term_op _ _ _ _ _ Hn0), Hn1. cbn [mbind res_bind].
  destruct (cprec_plain op k Hk) as (-> & -> & _ & _).
  destruct (cprec_logical op k Hk) as [Ha Ho]. rewrite Ha, Ho.
  assert (Hmax : k = 8 ∨ k = 9 → k = lo).
  { intros H89. destruct Hkk as [->| ->]; [|done]. exfalso.
    pose proof (waf_level_max lo Hlo).
    assert (waf_level hi = 6) by (destruct H89 as [E|E]; by rewrite E). lia. }
  destruct (decide (k = 8 ∧ truthy v0 = false)) as [[-> Ht]|H8].
  { left. rewrite Ht. cbn. destruct (not_truthy v0 z0 Hi0 Ht) as [-> ->]. do 3 f_equal. symmetry.
    eapply (eval2_short hi lo); [done|done|done|rewrite Hk; f_equal; auto|left; split; [symmetry; auto|done]|done]. }
  rewrite (proj2 (andb_false_iff _ _)).
  2: { destruct (decide (k = 8)); [right|left; by rewrite bool_decide_eq_false_2].
       destruct (truthy v0); [done|]. by destruct H8. }
  destruct (decide (k = 9 ∧ truthy v0 = true)) as [[-> Ht]|H9].
  { left. rewrite Ht. cbn. rewrite Hl0 in Ht |- *.
    2-3: apply Hlit; constructor; cbn; by apply String.eqb_eq.
    cbn in Ht. do 3 f_equal. symmetry. apply negb_true_iff, Z.eqb_neq in Ht.
    eapply (eval2_short hi lo); [done|done|done|rewrite Hk; f_equal; auto|right; split; [symmetry; auto|done]|done]. }
  rewrite (proj2 (andb_false_iff _ _)).
  2: { destruct (decide (k = 9)); [right|left; by rewrite bool_decide_eq_false_2].
       destruct (truthy v0); [by destruct H9|done]. }
  right. by exists v0, v1, z0, z1, zs.
Qed.

(** The tokens left after a reduction are those of a chain again. *)
Lemma chain_toks_num v r : (NUM, v) :: rest_toks r = chain_toks (UNum v) r.
Proof using. done. Qed.

Lemma chain_val_num v z0 r zs z :
  to_int v = Ok z0 → rest_vals r = Some zs → leveled hi lo zs → eval2 hi lo z0 zs = Some z →
  chain_val (UNum v) r = Some z.
Proof using Hlevel Hlo.
  intros Hv Hr Hl Hz. unfold chain_val. cbn [uval]. rewrite Hv, Hr. cbn [mbind option_bind].
  rewrite (eval_chain_two hi lo); auto using waf_level_lt.
Qed.

Lemma utoks_nonempty u : 1 ≤ length (utoks u).
Proof using. clear. destruct u; cbn; lia. Qed.

Lemma term_ok_reduce u op u1 r :
  num_ok u → num_ok u1 →
  match r with [] => True | (op2, _) :: _ => cprec op = Some hi ∨ cprec op2 = Some lo end →
  (∀ a, term_ok (UNum (TInt a)) r) → term_ok u ((op, u1) :: r).
Proof using Hlevel Hlo.
  intros Hu Hu1 Hnext IH [|f] z Hlev Hlit Hz Hf; [lia|]. pose proof (waf_level_lt _ _ Hlevel Hlo) as Hlt.
  destruct (term_head u op u1 r f z Hu Hu1 Hlev Hlit Hz) as [Hg|Hg]; [lia|by exists (TInt z)|].
  destruct Hg as (v0 & v1 & z0 & z1 & zs & H0 & H1 & _ & Hr & Hl & Hev & Hg). rewrite Hg. clear Hg.
  apply Forall_cons in Hlev as [Hop Hlev]. pose proof Hl as [Hl1 Hl2]%Forall_cons.
  assert (Hstep : cprec op = Some hi ∨ (cprec op = Some lo ∧ starts_lo lo zs)).
  { destruct Hop as [Hop|Hop]; [by left|right; split; [done|]]. cbn [fst] in Hop.
    destruct r as [|[op2 u2] r]; cbn in Hr; [by injection Hr as <-|].
    destruct (uval u2); [|done]. destruct (rest_vals r); [|done]. injection Hr as <-. cbn.
    destruct Hnext as [Hn|Hn]; [|done]. rewrite Hop in Hn. injection Hn. lia. }
  rewrite (eval2_step hi lo) in Hev by done. destruct (ap z0 z1 op) as [a|] eqn:Ea; [|done]. cbn in Hev.
  rewrite (reduce_nums_ap v0 v1 z0 z1 op a) by done. cbn [mbind res_bind].
  assert (Hval : chain_val (UNum (TInt a)) r = Some z) by by eapply chain_val_num.
  assert (Hfuel : 2 * length (chain_toks (UNum (TInt a)) r) + 1 < f).
  { revert Hf. unfold chain_toks. rewrite !length_app. cbn. rewrite length_app.
    pose proof (utoks_nonempty u). pose proof (utoks_nonempty u1). unfold rest_toks. lia. }
  destruct (IH a f z Hlev (λ _, eq_refl) Hval Hfuel) as (v & Hg & Hv & Ht).
  exists v. split; [|split; [done|naive_solver]]. rewrite <- Hg.
  destruct r as [|[op2 u2] r]; [done|]. cbn [rest_toks flat_map fst snd app op_tok].
  rewrite bool_decide_eq_false_2 by naive_solver.
  apply Forall_cons in Hlev as [Hop2 _]. cbn [fst] in *.
  assert (Hp : ∃ n1 n2, prec op = Some n1 ∧ prec op2 = Some n2 ∧ n1 ≤ n2).
  { destruct Hop as [Hop|Hop], Hop2 as [Hop2|Hop2]; rewrite (cprec_prec _ _ Hop), (cprec_prec _ _ Hop2);
      do 2 eexists; split_and!; try done; try lia. exfalso.
    destruct Hnext as [Hn|Hn]; [rewrite Hop in Hn|rewrite Hop2 in Hn]; injection Hn; lia. }
  destruct Hp as (n1 & n2 & -> & -> & Hle). by rewrite bool_decide_eq_true_2.
Qed.

Lemma term_ok_climb u op u1 op2 u2 r :
  num_ok u → num_ok u1 → num_ok u2 → cprec op = Some lo → cprec op2 = Some hi →
  (∀ v a, term_ok (UNum v) ((op, UNum (TInt a)) :: r)) → term_ok u ((op, u1) :: (op2, u2) :: r).
Proof using Hlevel Hlo.
  intros Hu Hu1 Hu2 Hop Hop2 IH [|f] z Hlev Hlit Hz Hf; [lia|]. pose proof (waf_level_lt _ _ Hlevel Hlo) as Hlt.
  destruct (term_head u op u1 _ f z Hu Hu1 Hlev Hlit Hz) as [Hg|Hg]; [lia|by exists (TInt z)|].
  destruct Hg as (v0 & v1 & z0 & z1 & zs & H0 & H1 & Hl0 & Hr & Hl & Hev & Hg). rewrite Hg. clear Hg.
  cbn [rest_vals] in Hr. destruct (uval u2) as [z2|] eqn:E2; [|done]. cbn [mbind option_bind] in Hr.
  destruct (rest_vals r) as [zs'|] eqn:Er; [|done]. injection Hr as <-.
  rewrite (eval2_lo_hi hi lo) in Hev by done. destruct (ap z1 z2 op2) as [a|] eqn:Ea; [|done]. cbn [mbind option_bind] in Hev.
  cbn [rest_toks flat_map fst snd app op_tok]. fold (rest_toks r).
  rewrite bool_decide_eq_false_2 by naive_solver.
  rewrite (cprec_prec _ _ Hop), (cprec_prec _ _ Hop2), bool_decide_eq_false_2 by lia.
  assert (Hlen : 2 * (length (utoks u) + length (utoks u1) + length (utoks u2) + length (rest_toks r) + 2) < f).
  { revert Hf. unfold chain_toks, rest_toks. cbn [flat_map fst snd]. repeat (cbn; rewrite ?length_app).
    cbn. lia. }
  destruct (Hu2 f (rest_toks r) z2 E2) as (v2 & Hn2 & Hi2 & _); [lia|]. rewrite Hn2. cbn [mbind res_bind].
  rewrite (reduce_nums_ap v1 v2 z1 z2 op2 a) by done. cbn [mbind res_bind].
  apply Forall_cons in Hlev as [Hlop Hlev]. apply Forall_cons in Hlev as [_ Hlev].
  assert (Hlev' : leveled hi lo ((op, a) :: zs')).
  { apply Forall_cons in Hl as [? Hl]. apply Forall_cons in Hl as [? Hl]. by constructor. }
  destruct (IH v0 a f z) as (v & Hg & Hv & Ht).
  - by constructor.
  - intros Hex. assert (Hn : literal u = false).
    { apply Hlit. apply Exists_cons in Hex as [Hex|Hex]; [by left|right; by right]. }
    by rewrite (Hl0 Hn).
  - eapply chain_val_num; [done| |exact Hlev'|done]. cbn. by rewrite Er.
  - unfold chain_toks. cbn. fold (rest_toks r). pose proof (utoks_nonempty u). pose proof (utoks_nonempty u1).
    pose proof (utoks_nonempty u2). lia.
  - exists v. split; [exact Hg|]. split; [done|]. intros _. apply Ht. by left.
Qed.

Lemma term_ok_chain n : ∀ u r, length r ≤ n → num_ok u → Forall (λ ou, num_ok (snd ou)) r →
  Forall (λ ou, in_levels (fst ou)) r → term_ok u r.
Proof using Hlevel Hlo.
  induction n as [|n IH]; intros u r Hn Hu Hr Hlev.
  { destruct r; [by apply term_ok_nil|cbn in Hn; lia]. }
  destruct r as [|[op u1] r]; [by apply term_ok_nil|]. cbn in Hn.
  apply Forall_cons in Hr as [Hu1 Hr], Hlev as [Hop Hlev]. cbn [fst snd] in *.
  assert (Hred : ∀ a, term_ok (UNum (TInt a)) r).
  { intros a. apply IH; auto using num_ok_num. lia. }
  destruct r as [|[op2 u2] r]; [by apply term_ok_reduce|].
  apply Forall_cons in Hr as [Hu2 Hr], Hlev as [Hop2 Hlev]. cbn [fst snd] in *.
  destruct Hop as [Hop|Hop]; [apply term_ok_reduce; auto|].
  destruct Hop2 as [Hop2|Hop2]; [|apply term_ok_reduce; auto].
  apply term_ok_climb; try done. intros v a. apply IH; [cbn in *; lia|apply num_ok_num| |].
  - constructor; [apply num_ok_num|done].
  - constructor; [by right|done].
Qed.
End Chains.

Lemma chain_term u r :
  num_ok u → Forall (λ ou, num_ok (snd ou)) r → two_levels u r → ∀ fuel z,
  chain_val u r = Some z → 2 * length (chain_toks u r) + 1 < fuel →
  ∃ v, get_term fuel (chain_toks u r) = Ok (v, []) ∧ to_int v = Ok z ∧
       (r ≠ [] ∨ literal u = false → v = TInt z).
Proof.
  intros Hu Hr [(hi & lo & Hlevel & Hlo & Hops) Hlit] fuel z Hz Hf.
  by apply (term_ok_chain hi lo Hlevel Hlo (length r) u r (le_n _) Hu Hr Hops).
Qed.

Lemma num_ok_simple u : simple u → num_ok u.
Proof.
  induction u as [v|s|u r IHu IHr|u IH|u IH|u IH] using uexp_nested_ind; intros Hs.
  - apply num_ok_num.
  - intros [|f] rest z [= <-] Hf; [cbn in Hf; lia|]. by exists (TInt 0).
  - apply simple_par in Hs. intros [|f] rest z Hz Hf; [lia|].
    rewrite uval_par in Hz. rewrite utoks_par in Hf |- *. cbn [length] in Hf. rewrite length_app in Hf. cbn in Hf.
    pose proof Hs as (Hu & H2 & Hr).
    destruct (chain_term u r (IHu Hu)) with (fuel := f) (z := z) as (v & Hg & Hv & Ht); try done.
    { rewrite Forall_forall in *. intros ou Hin. by apply IHr, Hr. }
    { lia. }
    exists v. split; [|split; [done|]].
    + cbn [app get_num op_tok]. change (bool_decide (TStr "(" = TStr "(")) with true. cbn iota.
      rewrite <- app_assoc. cbn [app].
      by rewrite close_par_chain, Hg.
    + intros Hl. apply Ht. destruct r; [right|left]; done.
  - intros [|f] rest z Hz Hf; [lia|]. cbn in Hz, Hf, Hs. destruct (IH Hs f rest z Hz) as (v & Hn & Hv & Ht); [lia|].
    exists v. cbn [utoks app get_num]. by rewrite Hn.
  - intros [|f] rest z Hz Hf; [lia|]. cbn in Hf, Hs. cbn [uval] in Hz.
    destruct (uval u) as [z'|] eqn:E; [|done]. injection Hz as <-.
    destruct (IH Hs f rest z' E) as (v & Hn & Hv & Ht); [lia|].
    exists (TInt (- z')). cbn [utoks app get_num]. rewrite Hn. cbn [mbind res_bind]. split; [|done].
    change (bool_decide (TStr "-" = TStr "(")) with false. change (bool_decide (TStr "-" = TStr "+")) with false.
    change (bool_decide (TStr "-" = TStr "-")) with true. cbn iota.
    unfold reduce_nums. rewrite Hv. change (to_int (TStr "-1")) with (Ok (-1)%Z). cbn [mbind res_bind].
    change (apply_op (-1) z' "*") with (Ok (-1 * z')%Z). cbn [mbind res_bind]. repeat f_equal; lia.
  - intros [|f] rest z Hz Hf; [lia|]. cbn in Hf, Hs. cbn [uval] in Hz.
    destruct (uval u) as [z'|] eqn:E; [|done]. injection Hz as <-.
    destruct (IH Hs f rest z' E) as (v & Hn & Hv & Ht); [lia|].
    exists (TInt (b2z (z' =? 0)%Z)). cbn [utoks app get_num]. rewrite Hn. cbn [mbind res_bind]. split; [|done].
    change (bool_decide (TStr "!" = TStr "(")) with false. change (bool_decide (TStr "!" = TStr "+")) with false.
    change (bool_decide (TStr "!" = TStr "-")) with false. change (bool_decide (TStr "!" = TStr "!")) with true.
    cbn iota. by rewrite Hv.
Qed.


(** [#if defined(A) && VERSION >= 3], after [defined(A)] became 1 and
    [VERSION] became 5. *)
Definition ex_cond : list (string * uexp) := [("&&", UNum (TStr "5")); (">=", UNum (TStr "3"))].


(** Outside of that class the value can be wrong.  With three levels, only
    one operator of look-ahead groups [14 == 2 + 3 * 4] as [14 == (2 + 3) * 4];
    [A && B || 1] stops at the first operand that is 0, although the
    disjunction follows; [0 || 1] stops at the literal 0, a string that counts
    as true; and [~0] raises NameError. *)
Theorem reduce_eval_diverges :
  let three := [("==", UNum (TStr "2")); ("+", UNum (TStr "3")); ("*", UNum (TStr "4"))] in
  let mixed := [("&&", UIdent "B"); ("||", UNum (TStr "1"))] in
  let disj := [("||", UNum (TStr "1"))] in
  (chain_val (UNum (TStr "14")) three = Some 1%Z ∧
   reduce_eval (chain_toks (UNum (TStr "14")) three) = Ok (TInt 0)) ∧
  (chain_val (UIdent "A") mixed = Some 1%Z ∧ reduce_eval (chain_toks (UIdent "A") mixed) = Ok (TInt 0)) ∧
  (chain_val (UNum (TStr "0")) disj = Some 1%Z ∧
   reduce_eval (chain_toks (UNum (TStr "0")) disj) = Ok (TStr "0")) ∧
  reduce_eval [op_tok "~"; (NUM, TStr "0")] = Err NameError.
Proof. by vm_compute. Qed.

(** The operators are not those of C: [(2 && 3) == 1] is false, and [-7 / 2] is -4. *)
Example operators_of_python :
  reduce_eval (chain_toks (UPar (UNum (TStr "2")) [("&&", UNum (TStr "3"))]) [("==", UNum (TStr "1"))]) = Ok (TInt 0) ∧
  reduce_eval (chain_toks (UNeg (UNum (TStr "7"))) [("/", UNum (TStr "2"))]) = Ok (TInt (-4)).
Proof. by vm_compute. Qed.
