(* ===== verification/PpMacro.v ===== *)
(** * Tokens and macros of the C preprocessor scanner (tools/wafadmin/Tools/preproc.py)

    The lexer [tokenize], macro definitions ([extract_macro]), their expansion
    in a condition or an include ([reduce_tokens]) and [extract_include].
    [reduce_tokens] changes the list of tokens and the table of macros in
    place: the model passes both.  The position [i] of its loop splits the list
    into the part that is finished and the part to do; the source never changes
    what is before [i]. *)
From S2P Require Import Prelude PyStr PpEval.

(** ** The lexer *)

(** The longest prefix of characters in a class, and the rest. *)
Fixpoint span (p : ascii → bool) (s : string) : string * string :=
  match s with
  | EmptyString => (EmptyString, EmptyString)
  | String a s' => if p a then let '(u, v) := span p s' in (String a u, v) else (EmptyString, s)
  end.

Definition one_of (l : string) (a : ascii) : bool := str_mem a l.
Definition is_hex (a : ascii) : bool := is_digit a || char_in "a" "f" a || char_in "A" "F" a.
Definition is_word (a : ascii) : bool := is_alpha a || is_digit a || (a =c "_").
Definition quote : ascii := "034".
Definition squote : ascii := "039".
Definition backslash : ascii := "092".

(** [(\\.|[^\\q])*] and the closing [q]: the contents and the rest. *)
Fixpoint quoted (q : ascii) (s : string) : option (string * string) :=
  match s with
  | EmptyString => None
  | String a s' =>
      if a =c q then Some (EmptyString, s')
      else if a =c backslash then
        match s' with
        | String b s'' => if b =c nl then None
                          else '(u, v) ← quoted q s''; Some (String a (String b u), v)
        | EmptyString => None
        end
      else '(u, v) ← quoted q s'; Some (String a u, v)
  end.

(** The optional exponent [[Ee][+-]*?\d+]: what follows it. *)
Definition exponent (s : string) : option string :=
  match s with
  | String a s' =>
      if one_of "Ee" a then
        let '(_, s1) := span (one_of "+-") s' in
        let '(d, s2) := span is_digit s1 in
        if d =s "" then None else Some s2
      else None
  | EmptyString => None
  end.
Definition opt_exponent (s : string) : string := default s (exponent s).
Definition skip (p : ascii → bool) (s : string) : string := snd (span p s).

Definition parse_octal (txt : string) : res tokval :=
  let try i := if (i <? String.length txt) && str_forall is_digit (str_slice 1 (1 + i) txt)
               then Some (z ← int_base 8 (str_slice 1 (1 + i) txt); Ok (TTuple [Z.of_nat (1 + i); z])) else None in
  match try 3, try 2, try 1 with
  | Some r, _, _ | None, Some r, _ | None, None, Some r => r
  | None, None, None => Ok TNone
  end.

Definition chr_esc (c : ascii) : option Z :=
  if c =c "0" then Some 0%Z else if c =c "a" then Some 7%Z else if c =c "b" then Some 8%Z
  else if c =c "t" then Some 9%Z else if c =c "n" then Some 10%Z else if c =c "f" then Some 11%Z
  else if c =c "v" then Some 12%Z else if c =c "r" then Some 13%Z
  else if c =c backslash then Some 92%Z else if c =c squote then Some 39%Z else None.

Definition parse_char (txt : string) : res tokval :=
  match txt with
  | EmptyString => Err (PreprocError "attempted to parse a null char")
  | String a s =>
      if negb (a =c backslash) then
        match s with
        | EmptyString => Ok (TInt (Z.of_nat (nat_of_ascii a)))
        | _ => Err TypeError
        end
      else
        match s with
        | EmptyString => Err IndexError
        | String c s' =>
            if c =c "x" then z ← int_base 16 s'; Ok (TInt z)
            else if is_digit c then
              if (c =c "0") && (s' =s "") then Ok (TInt 0) else parse_octal txt
            else match chr_esc c with
                 | Some z => Ok (TInt z)
                 | None => Err (PreprocError "could not parse char literal")
                 end
        end
  end.

(** The number alternatives, in the order of the expression; [None] when none
    matches, otherwise the value and the rest. *)
Definition lex_hex (s : string) : option (res tokval * string) :=
  match s with
  | String a (String b s') =>
      if (a =c "0") && one_of "xX" b then
        let '(h, s1) := span is_hex s' in
        if h =s "" then None else Some (z ← int_base 16 h; Ok (TInt z), skip (one_of "uUlL") s1)
      else None
  | _ => None
  end.
Definition lex_char (s : string) : option (res tokval * string) :=
  match skip (one_of "L") s with
  | String q s' =>
      if q =c squote then
        '(c, rest) ← quoted squote s';
        if c =s "" then None else Some (parse_char c, rest)
      else None
  | EmptyString => None
  end.
Definition lex_exp (s : string) : option (res tokval * string) :=
  let '(d, s1) := span is_digit s in
  if d =s "" then None else s2 ← exponent s1; Some (Ok TNone, skip (one_of "fFlL") s2).
Definition lex_frac (s : string) : option (res tokval * string) :=
  let '(d, s1) := span is_digit s in
  match s1 with
  | String a s2 =>
      if a =c "." then
        let '(f, s3) := span is_digit s2 in
        if (d =s "") && (f =s "") then None
        else Some (Ok (TStr (d +:+ "." +:+ f)), skip (one_of "fFlL") (opt_exponent s3))
      else None
  | EmptyString => None
  end.
Definition leading_zero (d : string) : bool :=
  match d with String a (String _ _) => a =c "0" | _ => false end.
Definition lex_int (s : string) : option (res tokval * string) :=
  let '(d, s1) := span is_digit s in
  if d =s "" then None
  else
    let rest := skip (one_of "uUlL") s1 in
    let text := str_take (String.length s - String.length rest) s in
    Some (if leading_zero d then z ← int_base 8 text; Ok (TInt z) else Ok (TStr d), rest).

Definition or_else {A} (x y : option A) : option A := match x with Some _ => x | None => y end.
Definition lex_num (s : string) : option (res tokval * string) :=
  or_else (lex_hex s) (or_else (lex_char s) (or_else (lex_exp s) (or_else (lex_frac s) (lex_int s)))).

(** [L?"..."]; the value is the match without its first and last character. *)
Definition lex_str_body (s pre : string) : option (string * string) :=
  match s with
  | String q s' => if q =c quote then '(c, rest) ← quoted quote s'; Some (pre +:+ c, rest) else None
  | EmptyString => None
  end.
Definition lex_str (s : string) : option (string * string) :=
  match s with
  | String a s' => if a =c "L" then lex_str_body s' (String quote EmptyString) else lex_str_body s EmptyString
  | EmptyString => None
  end.

Definition lex_ident (s : string) : option (string * string) :=
  match s with
  | String a _ => if is_alpha a || (a =c "_") then Some (span is_word s) else None
  | EmptyString => None
  end.

Definition op_list : list string :=
  ["%:%:"; "<<="; ">>="; "..."; "<<"; "<%"; "<:"; "<="; ">>"; ">="; "++"; "+="; "--"; "->"; "-="; "*="; "/=";
   "%:"; "%="; "%>"; "=="; "&&"; "&="; "||"; "|="; "^="; ":>"; "!="; "##";
   "("; ")"; "{"; "}"; "["; "]"; "<"; ">"; "?"; "|"; "^"; "*"; "+"; "&"; "="; ":"; "!"; "#"; ";"; ","; "%"; "/";
   "-"; "~"; "."].
Definition lex_op (s : string) : option (string * string) :=
  o ← List.find (λ o, startswith o s) op_list; Some (o, str_drop (String.length o) s).

Definition g_optrans (s : string) : option string :=
  if s =s "not" then Some "!" else if s =s "and" then Some "&&" else if s =s "bitand" then Some "&"
  else if s =s "and_eq" then Some "&=" else if s =s "or" then Some "||" else if s =s "bitor" then Some "|"
  else if s =s "or_eq" then Some "|=" else if s =s "xor" then Some "^" else if s =s "xor_eq" then Some "^="
  else if s =s "compl" then Some "~" else None.

Definition ident_token (v : string) : token :=
  match g_optrans v with
  | Some o => (OP, TStr o)
  | None => if lower v =s "true" then (NUM, TInt 1)
            else if lower v =s "false" then (NUM, TInt 0) else (IDENT, TStr v)
  end.
Definition op_token (v : string) : token :=
  (OP, TStr (if v =s "%:" then "#" else if v =s "%:%:" then "##" else v)).

(** [re_clexer.finditer]: a match at the position, or one character further. *)
Fixpoint tokenize_loop (fuel : nat) (s : string) : res (list token) :=
  match fuel with
  | 0 => Err OutOfFuel
  | S f =>
      match s with
      | EmptyString => Ok []
      | String _ s' =>
          match lex_num s with
          | Some (v, rest) => v ← v; ts ← tokenize_loop f rest; Ok ((NUM, v) :: ts)
          | None =>
              match lex_str s with
              | Some (v, rest) => ts ← tokenize_loop f rest; Ok ((STR, TStr v) :: ts)
              | None =>
                  match lex_ident s with
                  | Some (v, rest) => ts ← tokenize_loop f rest; Ok (ident_token v :: ts)
                  | None =>
                      match lex_op s with
                      | Some (v, rest) => ts ← tokenize_loop f rest; Ok (op_token v :: ts)
                      | None => tokenize_loop f s'
                      end
                  end
              end
          end
      end
  end.
Definition tokenize (s : string) : res (list token) := tokenize_loop (S (String.length s)) s.

(** ** Macro definitions *)

(** A table entry: the text of the line, a macro without arguments, or one with
    the positions of its parameters. *)
Inductive macro :=
| MText (line : string)
| MObj (to_add : list token)
| MFun (arg_table : gmap string nat) (to_add : list token).
Notation macros := (gmap string macro).

(** [re_fun.search(txt)]: a name right before an opening parenthesis. *)
Definition re_fun (txt : string) : bool :=
  match lex_ident txt with
  | Some (_, String a _) => a =c "("
  | _ => false
  end.

Inductive param_state := PParen | PIdent | PComma.

(** The [while 1] loop over the parameters; [toks] are the tokens from [t[i+1]]
    on. *)
Fixpoint param_loop (prev : param_state) (pindex : nat) (params : gmap string nat) (toks : list token)
    : res (gmap string nat * list token) :=
  match toks with
  | [] => Err IndexError
  | (p, v) :: toks' =>
      let name := match v with TStr s => s | _ => "" end in
      match prev with
      | PParen =>
          if bool_decide (p = IDENT) then param_loop PIdent (S pindex) (<[name := pindex]> params) toks'
          else if is_op (p, v) ")" then Ok (params, toks')
          else Err (PreprocError "unexpected token (3)")
      | PIdent =>
          if is_op (p, v) "," then param_loop PComma pindex params toks'
          else if is_op (p, v) ")" then Ok (params, toks')
          else Err (PreprocError "comma or ... expected")
      | PComma =>
          if bool_decide (p = IDENT) then param_loop PIdent (S pindex) (<[name := pindex]> params) toks'
          else if is_op (p, v) "..." then Err (PreprocError "not implemented (1)")
          else Err (PreprocError "comma or ... expected (2)")
      end
  end.

Definition extract_macro (txt : string) : res (tokval * macro) :=
  t ← tokenize txt;
  if re_fun txt then
    match t with
    | (_, name) :: (p, _) :: toks =>
        if bool_decide (p ≠ OP) then Err (PreprocError "expected open parenthesis")
        else '(params, body) ← param_loop PParen 0 ∅ toks; Ok (name, MFun params body)
    | _ => Err IndexError
    end
  else
    match t with
    | (_, v) :: toks => Ok (v, MObj toks)
    | [] => Err IndexError
    end.

(** ** Expansion *)

Definition str_val (v : tokval) : string :=
  match v with
  | TInt z => str_of_Z z
  | TStr s => s
  | TTuple l => "(" +:+ join ", " (str_of_Z <$> l) +:+ ")"
  | TNone => "None"
  end.
Definition stringize (lst : list token) : string := join "" ((λ t, str_val (snd t)) <$> lst).

(** Python's [+] on values. *)
Definition val_add (v1 v2 : tokval) : res tokval :=
  match v1, v2 with
  | TInt a, TInt b => Ok (TInt (a + b)%Z)
  | TStr a, TStr b => Ok (TStr (a +:+ b))
  | TTuple a, TTuple b => Ok (TTuple (a ++ b))
  | _, _ => Err TypeError
  end.
Definition paste_tokens (t1 t2 : token) : res token :=
  let p1 := match fst t1, fst t2 with
            | OP, OP => Some OP
            | IDENT, IDENT | IDENT, NUM => Some IDENT
            | NUM, NUM => Some NUM
            | _, _ => None
            end in
  match p1 with
  | None => Err (PreprocError "tokens do not make a valid paste")
  | Some p => v ← val_add (snd t1) (snd t2); Ok (p, v)
  end.

Definition in_defs (v : tokval) (defs : macros) : bool :=
  match v with TStr s => bool_decide (is_Some (defs !! s)) | _ => false end.

(** The loop that collects the arguments of a call. *)
Fixpoint collect_args (count_paren : Z) (one_param : list token) (args : list (list token)) (lst : list token)
    : res (list (list token) * list token) :=
  match lst with
  | [] => Err (PreprocError "malformed macro")
  | (p2, v2) :: lst' =>
      if bool_decide (p2 = OP) && (count_paren =? 0)%Z then
        if bool_decide (v2 = TStr "(") then collect_args 1 (one_param ++ [(p2, v2)]) args lst'
        else if bool_decide (v2 = TStr ")") then
          Ok (match one_param with [] => args | _ => args ++ [one_param] end, lst')
        else if bool_decide (v2 = TStr ",") then
          match one_param with
          | [] => Err (PreprocError "empty param in funcall")
          | _ => collect_args 0 [] (args ++ [one_param]) lst'
          end
        else collect_args 0 (one_param ++ [(p2, v2)]) args lst'
      else
        let n := if bool_decide (v2 = TStr "(") then (count_paren + 1)%Z
                 else if bool_decide (v2 = TStr ")") then (count_paren - 1)%Z else count_paren in
        collect_args n (one_param ++ [(p2, v2)]) args lst'
  end.

(** Python's [l[start:]]; a negative start counts from the end. *)
Definition py_from {A} (start : Z) (l : list A) : list A :=
  drop (Z.to_nat (if (start <? 0)%Z then Z.max 0 (start + Z.of_nat (length l)) else start)) l.

(** The tokens of the variable arguments. *)
Definition va_tokens (st : nat) (args : list (list token)) : list token :=
  let x := py_from (Z.of_nat (length args) - Z.of_nat st + 1) args in
  removelast (flat_map (λ a, a ++ [op_tok ","]) x).

Definition va_strip (st pt : nat) (accu : list token) : list token :=
  match rev accu with
  | (_, v3) :: (_, v4) :: before =>
      if bool_decide (v3 = TStr "##") then
        rev (if bool_decide (v4 = TStr ",") && (pt <? st) then before else tail (rev accu))
      else accu
  | _ => accu
  end.

Definition replace_last (accu : list token) (t : token) : list token := removelast accu ++ [t].

Section Substitute.
(** The expansion of an argument, given by the recursive call. *)
Context (reduce : list token → macros → res (list token * macros)).
Context (arg_table : gmap string nat).

Definition arg_index (t : token) : option nat :=
  match t with (IDENT, TStr s) => arg_table !! s | _ => None end.
Definition nth_arg (args : list (list token)) (n : nat) : res (list token) :=
  match args !! n with Some a => Ok a | None => Err IndexError end.

(** The loop over the body of the macro; an argument that was expanded stays
    expanded in the list [args]. *)
Fixpoint subst_loop (fuel : nat) (to_add : list token) (args : list (list token)) (accu : list token) (defs : macros)
    : res (list token * macros) :=
  match fuel with
  | 0 => Err OutOfFuel
  | S f =>
      match to_add with
      | [] => Ok (accu, defs)
      | t :: rest =>
          if is_op t "#" then
            match rest with
            | t2 :: rest' =>
                match arg_index t2 with
                | Some n => toks ← nth_arg args n;
                            subst_loop f rest' args (accu ++ [(STR, TStr (stringize toks))]) defs
                | None => subst_loop f rest args (accu ++ [t]) defs
                end
            | [] => subst_loop f rest args (accu ++ [t]) defs
            end
          else if is_op t "##" then
            match last accu, rest with
            | Some t1, t2 :: rest' =>
                match arg_index t2 with
                | Some n =>
                    toks ← nth_arg args n;
                    match toks with
                    | tok0 :: toks' =>
                        p ← paste_tokens t1 tok0;
                        subst_loop f rest' args (replace_last accu p ++ toks') defs
                    | [] => subst_loop f rest' args (accu ++ [t]) defs
                    end
                | None =>
                    if bool_decide (t2 = (IDENT, TStr "__VA_ARGS__")) then
                      subst_loop f rest' args
                        (va_strip (size arg_table) (length args) accu ++ va_tokens (size arg_table) args) defs
                    else p ← paste_tokens t1 t2; subst_loop f rest' args (replace_last accu p) defs
                end
            | _, _ => subst_loop f rest args (accu ++ [t]) defs
            end
          else
            match arg_index t with
            | Some n =>
                toks ← nth_arg args n;
                '(toks', defs') ← reduce toks defs;
                subst_loop f rest (<[n := toks']> args) (accu ++ toks') defs'
            | None => subst_loop f rest args (accu ++ [t]) defs
            end
      end
  end.
End Substitute.

(** [del lst[i]] for [defined], and what replaces its operand. *)
Definition defined_value (v : tokval) (defs : macros) : token := (NUM, TInt (b2z (in_defs v defs))).

Fixpoint reduce_loop (fuel : nat) (finished todo : list token) (defs : macros) : res (list token * macros) :=
  match fuel with
  | 0 => Err OutOfFuel
  | S f =>
      match todo with
      | [] => Ok (finished, defs)
      | (p, v) :: rest =>
          if bool_decide ((p, v) = (IDENT, TStr "defined")) then
            match rest with
            | [] => Ok (finished, defs)
            | (p2, v2) :: rest' =>
                if bool_decide (p2 = IDENT) then reduce_loop f (finished ++ [defined_value v2 defs]) rest' defs
                else if is_op (p2, v2) "(" then
                  match rest' with
                  | (_, v3) :: _ :: rest'' => reduce_loop f (finished ++ [defined_value v3 defs]) rest'' defs
                  | _ => Err IndexError
                  end
                else Err (PreprocError "invalid define expression")
            end
          else if bool_decide (p = IDENT) && in_defs v defs then
            let name := match v with TStr s => s | _ => "" end in
            '(m, defs) ← match defs !! name with
                         | Some (MText line) => '(_, b) ← extract_macro line; Ok (b, <[name := b]> defs)
                         | Some m => Ok (m, defs)
                         | None => Err KeyError
                         end;
            match m with
            | MText _ => Err TypeError
            | MObj to_add => reduce_loop f (finished ++ to_add ++ take 1 rest) (drop 1 rest) defs
            | MFun arg_table to_add =>
                match rest with
                | [] => Err (PreprocError "expected '(' (got nothing)")
                | t2 :: rest' =>
                    if negb (is_op t2 "(") then Err (PreprocError "expected '('")
                    else
                      '(args, rest'') ← collect_args 0 [] [] rest';
                      '(accu, defs) ← subst_loop (reduce_loop f []) arg_table (S (length to_add)) to_add args [] defs;
                      '(accu, defs) ← reduce_loop f [] accu defs;
                      let lst := accu ++ rest'' in
                      reduce_loop f (finished ++ take 1 lst) (drop 1 lst) defs
                end
            end
          else reduce_loop f (finished ++ [(p, v)]) rest defs
      end
  end.

Definition reduce_tokens (fuel : nat) (lst : list token) (defs : macros) : res (list token * macros) :=
  reduce_loop fuel [] lst defs.

Definition eval_macro (fuel : nat) (lst : list token) (adefs : macros) : res (bool * macros) :=
  '(lst, adefs) ← reduce_tokens fuel lst adefs;
  match lst with
  | [] => Err (PreprocError "missing tokens to evaluate")
  | _ => v ← reduce_eval lst; z ← to_int v; Ok (negb (z =? 0)%Z, adefs)
  end.

(** ** Includes *)

(** What [extract_include] returns: a pair, or (for an include found by
    expansion between angle brackets) a bare string. *)
Inductive include := IncPair (kind inc : string) | IncString (s : string).

(** The text up to the last [c] of the line. *)
Fixpoint upto_last (c : ascii) (s : string) : option string :=
  match s with
  | EmptyString => None
  | String a s' =>
      if a =c nl then None
      else match upto_last c s' with
           | Some u => Some (String a u)
           | None => if a =c c then Some EmptyString else None
           end
  end.
(** [re_include.search(txt)]: the contents, when they are not empty. *)
Definition re_include (txt : string) : option include :=
  match lstrip txt with
  | String a s =>
      if a =c "<" then match upto_last ">" s with
                       | Some u => if u =s "" then None else Some (IncPair "<" u)
                       | None => None
                       end
      else if a =c quote then match upto_last quote s with
                              | Some u => if u =s "" then None else Some (IncPair (String quote EmptyString) u)
                              | None => None
                              end
      else None
  | EmptyString => None
  end.

Fixpoint lstrip_char (c : ascii) (s : string) : string :=
  match s with
  | String a s' => if a =c c then lstrip_char c s' else s
  | EmptyString => EmptyString
  end.
Fixpoint rstrip_char (c : ascii) (s : string) : string :=
  match s with
  | EmptyString => EmptyString
  | String a s' => match rstrip_char c s' with
                   | EmptyString => if a =c c then EmptyString else String a EmptyString
                   | r => String a r
                   end
  end.

Definition extract_include (fuel : nat) (txt : string) (defs : macros) : res (include * macros) :=
  match re_include txt with
  | Some i => Ok (i, defs)
  | None =>
      toks ← tokenize txt;
      '(toks, defs) ← reduce_tokens fuel toks defs;
      match toks with
      | [] => Err (PreprocError "could not parse include")
      | [(STR, v)] => Ok (IncPair (String quote EmptyString) (str_val v), defs)
      | [_] => Err (PreprocError "could not parse include.")
      | (_, v) :: _ =>
          if bool_decide (v = TStr "<") && bool_decide (snd <$> last toks = Some (TStr ">")) then
            Ok (IncString (rstrip_char ">" (lstrip_char "<" (stringize toks))), defs)
          else Err (PreprocError "could not parse include.")
      end
  end.

(** [(kind, inc) = extract_include(..)]: a string unpacks into its two
    characters. *)
Definition unpack (i : include) : res (string * string) :=
  match i with
  | IncPair k s => Ok (k, s)
  | IncString (String a (String b EmptyString)) => Ok (String a EmptyString, String b EmptyString)
  | IncString _ => Err ValueError
  end.

(** ** The lexer ends *)

Lemma span_app p s : fst (span p s) +:+ snd (span p s) = s.
Proof.
  induction s as [|a s IH]; [done|]. cbn. destruct (p a); [|done].
  destruct (span p s) as [u v]. cbn [fst snd] in *. by rewrite str_app_cons, IH.
Qed.

Lemma span_length p s : String.length (fst (span p s)) + String.length (snd (span p s)) = String.length s.
Proof. rewrite <- str_length_app, span_app. done. Qed.

Lemma skip_length p s : String.length (skip p s) ≤ String.length s.
Proof. unfold skip. pose proof (span_length p s). lia. Qed.

Lemma quoted_length q s u v : quoted q s = Some (u, v) → String.length v < String.length s.
Proof.
  revert u v. induction s as [s IH] using (induction_ltof1 _ String.length). unfold ltof in IH.
  intros u v. destruct s as [|a s]; [done|]. cbn [quoted]. destruct (a =c q); [intros [= <- <-]; cbn; lia|].
  destruct (a =c backslash).
  - destruct s as [|b s]; [done|]. destruct (b =c nl); [done|].
    destruct (quoted q s) as [[u' v']|] eqn:E; [|done]. intros [= <- <-].
    apply IH in E; cbn in *; lia.
  - destruct (quoted q s) as [[u' v']|] eqn:E; [|done]. intros [= <- <-]. apply IH in E; cbn in *; lia.
Qed.

Lemma exponent_length s s' : exponent s = Some s' → String.length s' < String.length s.
Proof.
  destruct s as [|a s]; [done|]. cbn [exponent]. destruct (one_of "Ee" a); [|done].
  pose proof (span_length (one_of "+-") s) as H1. destruct (span (one_of "+-") s) as [x s1].
  pose proof (span_length is_digit s1) as H2. destruct (span is_digit s1) as [d s2].
  destruct (d =s ""); [done|]. intros [= <-]. cbn in *. lia.
Qed.

Lemma nonempty_length s : (s =s "") = false → 1 ≤ String.length s.
Proof. destruct s; cbn; [done|lia]. Qed.

Lemma parse_char_fuelled c : fuelled (parse_char c).
Proof.
  unfold parse_char. destruct c as [|a s]; [done|]. destruct (negb _); [by destruct s|].
  destruct s as [|c s]; [done|]. destruct (c =c "x").
  { apply fuelled_bind; [apply int_base_fuelled|done]. }
  destruct (is_digit c); [|by destruct (chr_esc c)]. destruct (_ && _); [done|].
  unfold parse_octal. repeat (destruct (_ && _); [apply fuelled_bind; [apply int_base_fuelled|done]|]). done.
Qed.

Lemma lex_hex_ok s v rest : lex_hex s = Some (v, rest) → fuelled v ∧ String.length rest < String.length s.
Proof.
  unfold lex_hex. destruct s as [|a [|b s]]; try done. destruct (_ && _); [|done].
  pose proof (span_length is_hex s) as H. destruct (span is_hex s) as [h s1].
  destruct (h =s ""); [done|]. intros [= <- <-]. pose proof (skip_length (one_of "uUlL") s1).
  split; [apply fuelled_bind; [apply int_base_fuelled|done]|cbn in *; lia].
Qed.

Lemma lex_char_ok s v rest : lex_char s = Some (v, rest) → fuelled v ∧ String.length rest < String.length s.
Proof.
  unfold lex_char. pose proof (skip_length (one_of "L") s) as H.
  destruct (skip (one_of "L") s) as [|q s1]; [done|]. destruct (q =c squote); [|done].
  destruct (quoted squote s1) as [[c r']|] eqn:E; [|done]. cbn [mbind option_bind].
  destruct (c =s ""); [done|]. intros [= <- <-]. apply quoted_length in E.
  split; [apply parse_char_fuelled|cbn in *; lia].
Qed.

Lemma lex_exp_ok s v rest : lex_exp s = Some (v, rest) → fuelled v ∧ String.length rest < String.length s.
Proof.
  unfold lex_exp. pose proof (span_length is_digit s) as Hs. destruct (span is_digit s) as [d s1].
  destruct (d =s ""); [done|]. destruct (exponent s1) as [s2|] eqn:E; [|done]. intros [= <- <-].
  apply exponent_length in E. pose proof (skip_length (one_of "fFlL") s2). split; [done|cbn in *; lia].
Qed.

Lemma lex_frac_ok s v rest : lex_frac s = Some (v, rest) → fuelled v ∧ String.length rest < String.length s.
Proof.
  unfold lex_frac. pose proof (span_length is_digit s) as Hs. destruct (span is_digit s) as [d s1].
  destruct s1 as [|a s2]; [done|]. destruct (a =c ".") eqn:Ea; [|done].
  pose proof (span_length is_digit s2) as H2. destruct (span is_digit s2) as [f s3].
  destruct (_ && _); [done|]. intros [= <- <-].
  assert (String.length (opt_exponent s3) ≤ String.length s3).
  { unfold opt_exponent. destruct (exponent s3) eqn:E; cbn; [|lia]. apply exponent_length in E. lia. }
  pose proof (skip_length (one_of "fFlL") (opt_exponent s3)). split; [done|cbn in *; lia].
Qed.

Lemma lex_int_ok s v rest : lex_int s = Some (v, rest) → fuelled v ∧ String.length rest < String.length s.
Proof.
  unfold lex_int. pose proof (span_length is_digit s) as Hs. destruct (span is_digit s) as [d s1].
  destruct (d =s "") eqn:Ed; [done|]. intros [= <- <-].
  pose proof (skip_length (one_of "uUlL") s1). apply nonempty_length in Ed. split; [|cbn in *; lia].
  destruct (leading_zero d); [|done]. apply fuelled_bind; [apply int_base_fuelled|done].
Qed.

Lemma lex_num_ok s v rest : lex_num s = Some (v, rest) → fuelled v ∧ String.length rest < String.length s.
Proof.
  unfold lex_num, or_else.
  destruct (lex_hex s) as [[]|] eqn:E; [intros [= <- <-]; by apply lex_hex_ok|].
  destruct (lex_char s) as [[]|] eqn:E2; [intros [= <- <-]; by apply lex_char_ok|].
  destruct (lex_exp s) as [[]|] eqn:E3; [intros [= <- <-]; by apply lex_exp_ok|].
  destruct (lex_frac s) as [[]|] eqn:E4; [intros [= <- <-]; by apply lex_frac_ok|]. apply lex_int_ok.
Qed.

Lemma lex_str_shorter s v rest : lex_str s = Some (v, rest) → String.length rest < String.length s.
Proof.
  assert (Hb : ∀ s1 pre, lex_str_body s1 pre = Some (v, rest) → String.length rest < String.length s1).
  { intros [|q s1] pre; [done|]. cbn. destruct (q =c quote); [|done].
    destruct (quoted quote s1) as [[c r]|] eqn:E; [|done]. intros [= _ <-]. apply quoted_length in E. lia. }
  unfold lex_str. destruct s as [|a s]; [done|]. destruct (a =c "L"); intros H%Hb; cbn in *; lia.
Qed.

Lemma lex_ident_shorter s v rest : lex_ident s = Some (v, rest) → String.length rest < String.length s.
Proof.
  unfold lex_ident. destruct s as [|a s]; [done|]. destruct (is_alpha a || _) eqn:Ha; [|done]. cbn [span].
  assert (is_word a = true) as ->.
  { unfold is_word. destruct (is_alpha a); [done|]. cbn in *. rewrite Ha. by rewrite orb_true_r. }
  pose proof (span_length is_word s) as H. destruct (span is_word s) as [u w]. intros [= _ <-]. cbn in *. lia.
Qed.

Lemma lex_op_shorter s v rest : lex_op s = Some (v, rest) → String.length rest < String.length s.
Proof.
  unfold lex_op. destruct (List.find (λ o, startswith o s) op_list) as [o|] eqn:E; [|done]. intros [= _ <-].
  apply find_some in E as [Hin Hp]. apply prefix_length in Hp. rewrite str_drop_length.
  assert (1 ≤ String.length o); [|lia].
  assert (Hall : forallb (λ o, 1 <=? String.length o) op_list = true) by done.
  rewrite forallb_forall in Hall. by apply Nat.leb_le, Hall.
Qed.


(** The lexer ends on every text, with tokens or with the exception of a
    malformed literal. *)
Theorem tokenize_total s : fuelled (tokenize s).
Proof.
  unfold tokenize. generalize (Nat.lt_succ_diag_r (String.length s)). generalize (S (String.length s)) as f.
  intros f. revert s. induction f as [|f IH]; intros s Hf; [lia|]. cbn [tokenize_loop].
  destruct s as [|a s]; [done|]. set (s0 := String a s) in *.
  destruct (lex_num s0) as [[v rest]|] eqn:E1.
  { apply lex_num_ok in E1 as [Hv Hl]. apply fuelled_bind; [done|]. intros v' _.
    apply fuelled_bind; [apply IH; lia|done]. }
  destruct (lex_str s0) as [[v rest]|] eqn:E2.
  { apply lex_str_shorter in E2. apply fuelled_bind; [apply IH; lia|done]. }
  destruct (lex_ident s0) as [[v rest]|] eqn:E3.
  { apply lex_ident_shorter in E3. apply fuelled_bind; [apply IH; lia|done]. }
  destruct (lex_op s0) as [[v rest]|] eqn:E4.
  { apply lex_op_shorter in E4. apply fuelled_bind; [apply IH; lia|done]. }
  apply IH. cbn in Hf. lia.
Qed.

(** ** Printing and lexing *)

Definition print_token (t : token) : string :=
  match t with
  | (STR, v) => String quote (str_val v +:+ String quote EmptyString)
  | (_, v) => str_val v
  end.

(** The tokens that the lexer can produce as they are. *)
Definition lexable (t : token) : bool :=
  match t with
  | (IDENT, TStr s) =>
      match s with
      | String a _ => (is_alpha a || (a =c "_")) && str_forall is_word s
      | EmptyString => false
      end && bool_decide (ident_token s = (IDENT, TStr s))
  | (OP, TStr s) => existsb (String.eqb s) op_list && bool_decide (op_token s = (OP, TStr s))
  | (NUM, TStr s) => str_forall is_digit s && negb (s =s "") && negb (leading_zero s)
  | (STR, TStr s) => str_forall (λ a, negb (a =c quote) && negb (a =c backslash)) s
  | _ => false
  end.

(** The text ends or a blank follows. *)
Definition ends_word (s : string) : Prop := s = "" ∨ ∃ s', s = String " " s'.

Lemma span_all p w s :
  str_forall p w = true → ends_word s → p " "%char = false → span p (w +:+ s) = (w, s).
Proof.
  intros Hw Hs Hp. induction w as [|a w IH].
  - rewrite str_app_nil_l. destruct Hs as [->|[s' ->]]; [done|]. cbn. by rewrite Hp.
  - cbn [str_forall] in Hw. apply andb_true_iff in Hw as [Ha Hw]. rewrite str_app_cons. cbn [span].
    by rewrite Ha, IH.
Qed.

Lemma skip_end p s : ends_word s → p " "%char = false → skip p s = s.
Proof. intros [->|[s' ->]] Hp; [done|]. unfold skip. cbn. by rewrite Hp. Qed.

Lemma exponent_end s : ends_word s → exponent s = None.
Proof. by intros [->|[s' ->]]. Qed.

Lemma lex_num_digits d s :
  str_forall is_digit d = true → (d =s "") = false → leading_zero d = false → ends_word s →
  lex_num (d +:+ s) = Some (Ok (TStr d), s).
Proof.
  intros Hd Hne Hz Hs.
  assert (Hspan : span is_digit (d +:+ s) = (d, s)) by by apply span_all.
  destruct d as [|a d]; [done|]. cbn [str_forall] in Hd. apply andb_true_iff in Hd as [Ha Hd].
  assert (Hhex : lex_hex (String a d +:+ s) = None).
  { rewrite str_app_cons. destruct d as [|b d].
    - rewrite str_app_nil_l. destruct Hs as [->|[s' ->]]; [done|]. cbn. by rewrite andb_false_r.
    - rewrite str_app_cons. cbn [lex_hex leading_zero] in *. by rewrite Hz. }
  assert (Hchar : lex_char (String a d +:+ s) = None).
  { rewrite str_app_cons. unfold lex_char, skip. cbn [span].
    assert (one_of "L" a = false ∧ (a =c squote) = false) as [-> Hq].
    { clear -Ha. by destruct a as [[] [] [] [] [] [] [] []]. }
    cbn. by rewrite Hq. }
  unfold lex_num. rewrite Hhex, Hchar. unfold lex_exp, lex_frac, lex_int, or_else.
  rewrite Hspan, Hne, exponent_end, skip_end by done. cbn [mbind option_bind].
  rewrite Hz. by destruct Hs as [->|[s' ->]].
Qed.

Lemma lex_num_other a s :
  is_digit a = false → (a =c ".") = false → lex_char (String a s) = None → lex_num (String a s) = None.
Proof.
  intros Hd Hdot Hc. unfold lex_num, lex_hex, lex_exp, lex_frac, lex_int. rewrite Hc.
  assert (Ha0 : (a =c "0") = false) by (destruct a as [[] [] [] [] [] [] [] []]; done).
  cbn [span]. rewrite Hd. cbn. rewrite Ha0, Hdot. by destruct s.
Qed.

(** No quote follows the characters [L]. *)
Lemma lex_char_word w s : str_forall is_word w = true → ends_word s → lex_char (w +:+ s) = None.
Proof.
  intros Hw Hs. induction w as [|a w IH].
  - rewrite str_app_nil_l. by destruct Hs as [->|[s' ->]].
  - cbn [str_forall] in Hw. apply andb_true_iff in Hw as [Ha Hw]. specialize (IH Hw). rewrite str_app_cons.
    unfold lex_char, skip in *. cbn [span].
    destruct (one_of "L" a) eqn:HL.
    + destruct (span (one_of "L") (w +:+ s)) as [u v]. exact IH.
    + cbn. assert ((a =c squote) = false) as ->; [|done]. clear -Ha. by destruct a as [[] [] [] [] [] [] [] []].
Qed.

Lemma lex_char_plain a s : one_of "L" a = false → (a =c squote) = false → lex_char (String a s) = None.
Proof. intros HL Hq. unfold lex_char, skip. cbn [span]. rewrite HL. cbn. by rewrite Hq. Qed.

Lemma lex_str_plain a s : (a =c "L") = false → (a =c quote) = false → lex_str (String a s) = None.
Proof. intros HL Hq. unfold lex_str. rewrite HL. cbn. by rewrite Hq. Qed.

Lemma lex_str_word w s : str_forall is_word w = true → ends_word s → lex_str (w +:+ s) = None.
Proof.
  intros Hw Hs.
  assert (Hh : ∀ w, str_forall is_word w = true → ∀ pre, lex_str_body (w +:+ s) pre = None).
  { clear w Hw. intros [|a w] Hw pre; [rewrite str_app_nil_l; by destruct Hs as [->|[s' ->]]|].
    cbn [str_forall] in Hw. apply andb_true_iff in Hw as [Ha _]. rewrite str_app_cons. cbn.
    assert ((a =c quote) = false) as ->; [|done]. clear -Ha. by destruct a as [[] [] [] [] [] [] [] []]. }
  destruct w as [|a w]; [rewrite str_app_nil_l; by destruct Hs as [->|[s' ->]]|].
  pose proof (Hh _ Hw EmptyString) as H0. rewrite str_app_cons in *. unfold lex_str.
  destruct (a =c "L"); [|done]. apply Hh. cbn in Hw. by apply andb_true_iff in Hw as [_ Hw].
Qed.

Lemma quoted_plain s rest :
  str_forall (λ a, negb (a =c quote) && negb (a =c backslash)) s = true →
  quoted quote (s +:+ String quote rest) = Some (s, rest).
Proof.
  induction s as [|a s IH]; intros Hs; [done|]. cbn [str_forall] in Hs.
  apply andb_true_iff in Hs as [[H1 H2]%andb_true_iff Hs]. apply negb_true_iff in H1, H2.
  rewrite str_app_cons. cbn [quoted]. by rewrite H1, H2, IH.
Qed.

(** An operator is read whole: no operator has a blank in it. *)
Lemma prefix_end o w s : str_mem " "%char o = false → ends_word s → String.prefix o (w +:+ s) = String.prefix o w.
Proof.
  revert w. induction o as [|a o IH]; intros w Ho Hs.
  { by destruct w; destruct s. }
  cbn [str_mem] in Ho. apply orb_false_iff in Ho as [Ha Ho]. destruct w as [|b w].
  - rewrite str_app_nil_l. destruct Hs as [->|[s' ->]]; [done|]. cbn [String.prefix].
    destruct (ascii_dec a " ") as [->|]; [|done]. done.
  - rewrite str_app_cons. cbn [String.prefix]. destruct (ascii_dec a b); [|done]. by apply IH.
Qed.

Lemma lex_op_end w s : List.find (λ o, startswith o w) op_list = Some w → ends_word s → lex_op (w +:+ s) = Some (w, s).
Proof.
  intros Hf Hs. unfold lex_op.
  assert (Hfind : ∀ l, forallb (λ o, negb (str_mem " "%char o)) l = true →
    List.find (λ o, startswith o (w +:+ s)) l = List.find (λ o, startswith o w) l).
  { induction l as [|o l IH]; [done|]. cbn [forallb List.find]. intros [Ho Hl]%andb_true_iff.
    apply negb_true_iff in Ho. unfold startswith at 1 3. rewrite prefix_end by done. by rewrite IH. }
  rewrite Hfind, Hf by done. cbn. by rewrite str_drop_app.
Qed.

(** A property of all operators. *)
Lemma op_check (p : string → bool) s : existsb (String.eqb s) op_list = true → forallb p op_list = true → p s = true.
Proof.
  intros (o & Hin & ->%String.eqb_eq)%existsb_exists Hall. rewrite forallb_forall in Hall. by apply Hall.
Qed.

Definition op_head (s : string) : bool :=
  match s with
  | String a _ => negb (is_digit a) && negb (one_of "L" a) && negb (a =c squote) && negb (a =c "L") &&
                  negb (a =c quote) && negb (is_alpha a || (a =c "_"))
  | EmptyString => false
  end && bool_decide (List.find (λ o, startswith o s) op_list = Some s) &&
  match s with String a (String b _) => negb ((a =c ".") && is_digit b) | _ => true end.
Lemma op_head_all : forallb op_head op_list = true.
Proof. by vm_compute. Qed.

Lemma lex_num_op o s : existsb (String.eqb o) op_list = true → ends_word s → lex_num (o +:+ s) = None.
Proof.
  intros Ho Hs. pose proof (op_check op_head o Ho op_head_all) as Hh. unfold op_head in Hh.
  destruct o as [|a o]; [done|]. rewrite !andb_true_iff, !negb_true_iff in Hh.
  destruct Hh as [[[[[[[H1 H2] H3] H4] H5] H6] _] H7]. rewrite str_app_cons.
  destruct (a =c ".") eqn:Hdot; [|apply lex_num_other; auto using lex_char_plain].
  apply Ascii.eqb_eq in Hdot as ->. unfold lex_num. rewrite lex_char_plain by done.
  unfold lex_hex, lex_exp, lex_frac, lex_int, or_else. cbn [span]. rewrite H1.
  assert (span is_digit (o +:+ s) = ("", o +:+ s)) as Hsp.
  { destruct o as [|b o]; [rewrite str_app_nil_l; by destruct Hs as [->|[s' ->]]|].
    rewrite str_app_cons. cbn [span]. cbn in H7. apply negb_true_iff in H7. by rewrite H7. }
  rewrite Hsp. cbn. by destruct (o +:+ s).
Qed.

Lemma tokenize_loop_eq f s :
  tokenize_loop (S f) s =
    match s with
    | EmptyString => Ok []
    | String _ s' =>
        match lex_num s, lex_str s, lex_ident s, lex_op s with
        | Some (v, rest), _, _, _ => v ← v; ts ← tokenize_loop f rest; Ok ((NUM, v) :: ts)
        | None, Some (v, rest), _, _ => ts ← tokenize_loop f rest; Ok ((STR, TStr v) :: ts)
        | None, None, Some (v, rest), _ => ts ← tokenize_loop f rest; Ok (ident_token v :: ts)
        | None, None, None, Some (v, rest) => ts ← tokenize_loop f rest; Ok (op_token v :: ts)
        | None, None, None, None => tokenize_loop f s'
        end
    end.
Proof.
  cbn [tokenize_loop]. destruct s as [|a s]; [done|]. destruct (lex_num _) as [[]|]; [done|].
  destruct (lex_str _) as [[]|]; [done|]. by destruct (lex_ident _) as [[]|].
Qed.

Lemma lex_token t s f :
  lexable t = true → ends_word s →
  tokenize_loop (S f) (print_token t +:+ s) = (ts ← tokenize_loop f s; Ok (t :: ts)).
Proof.
  destruct t as [[] [z|w|l|]]; try done; intros Ht Hs; cbn [print_token str_val]; rewrite tokenize_loop_eq.
  - cbn in Ht. rewrite !andb_true_iff, !negb_true_iff in Ht. destruct Ht as [[Hd Hne] Hz].
    rewrite lex_num_digits by done. destruct w; [done|]. done.
  - cbn [lexable] in Ht. apply andb_true_iff in Ht as [Ho Ht%bool_decide_eq_true_1].
    pose proof (op_check op_head w Ho op_head_all) as Hh. unfold op_head in Hh.
    rewrite lex_num_op by done. destruct w as [|a w]; [done|].
    rewrite !andb_true_iff, !negb_true_iff in Hh.
    destruct Hh as [[[[[[[H1 H2] H3] H4] H5] H6] Hf%bool_decide_eq_true_1] H7].
    rewrite lex_op_end by done. rewrite str_app_cons, lex_str_plain by done. cbn [lex_ident]. rewrite H6, Ht. done.
  - cbn [lexable] in Ht. destruct w as [|a w]; [done|].
    apply andb_true_iff in Ht as [[Ha Hw]%andb_true_iff Ht%bool_decide_eq_true_1].
    rewrite lex_str_word by done.
    assert (Hn : lex_num (String a w +:+ s) = None).
    { rewrite str_app_cons. apply lex_num_other; try (clear -Ha; by destruct a as [[] [] [] [] [] [] [] []]).
      rewrite <- str_app_cons. by apply lex_char_word. }
    rewrite Hn. rewrite str_app_cons. unfold lex_ident. rewrite Ha, <- str_app_cons, span_all by done. by rewrite Ht.
  - cbn [lexable] in Ht. rewrite str_app_cons, str_app_assoc, str_app_cons, str_app_nil_l.
    rewrite lex_num_other by done. unfold lex_str.
    change (quote =c "L") with false. cbn iota. cbn [lex_str_body]. change (quote =c quote) with true. cbn iota.
    rewrite quoted_plain by done. cbn [mbind option_bind]. by rewrite str_app_nil_l.
Qed.

Lemma lex_blank f s : tokenize_loop (S f) (String " " s) = tokenize_loop f s.
Proof.
  rewrite tokenize_loop_eq. rewrite lex_num_other, lex_str_plain by done. cbn [lex_ident].
  change (is_alpha " " || (" "%char =c "_")) with false. cbn iota. done.
Qed.

(** Tokens printed with blanks between them are read back as they are. *)
Theorem tokenize_print ts :
  Forall (λ t, lexable t = true) ts → tokenize (join " " (print_token <$> ts)) = Ok ts.
Proof.
  intros Hts. unfold tokenize. generalize (Nat.lt_succ_diag_r (String.length (join " " (print_token <$> ts)))).
  generalize (S (String.length (join " " (print_token <$> ts)))) as f. intros f. revert f.
  induction Hts as [|t ts Ht Hts IH]; intros f Hf; [destruct f; [cbn in Hf; lia|done]|].
  destruct ts as [|t2 ts].
  - cbn [fmap list_fmap join] in *. destruct f as [|[|f]]; [lia| |].
    + exfalso. assert (Hne : print_token t ≠ "").
      { intros He. pose proof (lex_token t "" 0 Ht (or_introl eq_refl)) as H1. by rewrite He in H1. }
      destruct (print_token t); [done|cbn in Hf; lia].
    + pose proof (lex_token t "" (S f) Ht (or_introl eq_refl)) as H1. by rewrite str_app_nil_r in H1.
  - cbn [fmap list_fmap] in *. rewrite join_cons, (str_app_cons " "), str_app_nil_l in *.
    rewrite str_length_app in Hf. cbn [String.length] in Hf. destruct f as [|f]; [lia|]. rewrite lex_token; [|done|by right; eexists].
    assert (Hne : 1 ≤ String.length (print_token t)).
    { destruct (print_token t) eqn:E; [|cbn; lia].
      pose proof (lex_token t "" 0 Ht (or_introl eq_refl)) as H1. by rewrite E in H1. }
    destruct f as [|f]; [lia|]. rewrite lex_blank, IH by lia. done.
Qed.

(** ** Expansion of conditions *)

(** Tables that differ only in which entries were converted already. *)
Definition norm (m : macro) : res macro :=
  match m with MText line => '(_, b) ← extract_macro line; Ok b | m => Ok m end.
Definition same_macros (d1 d2 : macros) : Prop := ∀ x, norm <$> d1 !! x = norm <$> d2 !! x.

#[export] Instance same_macros_equiv : Equivalence same_macros.
Proof.
  split; [by intros d x|by intros d1 d2 H x|]. intros d1 d2 d3 H1 H2 x. by rewrite H1, H2.
Qed.

#[export] Instance in_defs_proper v : Proper (same_macros ==> eq) (in_defs v).
Proof.
  intros d1 d2 H. destruct v as [|s| |]; try done. cbn. apply bool_decide_ext. specialize (H s).
  rewrite <- !not_eq_None_Some. by destruct (d1 !! s), (d2 !! s).
Qed.

Lemma extract_macro_norm line v b : extract_macro line = Ok (v, b) → norm b = Ok b.
Proof.
  unfold extract_macro. intros (t & _ & H)%res_bind_Ok. destruct (re_fun line).
  - destruct t as [|[? n] [|[p ?] t]]; try done. destruct (bool_decide _); [done|].
    apply res_bind_Ok in H as ([ps body] & _ & [= <- <-]). done.
  - destruct t as [|[? ?] t]; [done|]. by injection H as <- <-.
Qed.

(** The parts of a condition: tokens that stand for themselves, tests of
    [defined], and macros without arguments, with the token after them. *)
Inductive item :=
| Plain (t : token)
| Defined (x : string) (paren : bool)
| Use (x : string) (next : option token).

Definition item_toks (i : item) : list token :=
  match i with
  | Plain t => [t]
  | Defined x true => [(IDENT, TStr "defined"); op_tok "("; (IDENT, TStr x); op_tok ")"]
  | Defined x false => [(IDENT, TStr "defined"); (IDENT, TStr x)]
  | Use x next => (IDENT, TStr x) :: option_list next
  end.

Definition body (defs : macros) (x : string) : list token :=
  match norm <$> defs !! x with Some (Ok (MObj toks)) => toks | _ => [] end.
(** What the source puts in its place. *)
Definition item_val (defs : macros) (i : item) : list token :=
  match i with
  | Plain t => [t]
  | Defined x _ => [defined_value (TStr x) defs]
  | Use x next => body defs x ++ option_list next
  end.

Definition item_ok (defs : macros) (i : item) : Prop :=
  match i with
  | Plain t => t ≠ (IDENT, TStr "defined") ∧ (fst t = IDENT → in_defs (snd t) defs = false)
  | Defined _ _ => True
  | Use x _ => x ≠ "defined" ∧ ∃ toks, norm <$> defs !! x = Some (Ok (MObj toks))
  end.
(** Only the last macro has no token after it. *)
Fixpoint uses_end (its : list item) : Prop :=
  match its with
  | [] => True
  | Use _ None :: its' => its' = []
  | _ :: its' => uses_end its'
  end.

#[export] Instance body_proper : Proper (same_macros ==> eq ==> eq) body.
Proof. intros d1 d2 H x ? <-. unfold body. by rewrite (H x). Qed.

Lemma item_val_proper d1 d2 i : same_macros d1 d2 → item_val d1 i = item_val d2 i.
Proof.
  intros H. destruct i as [t|x p|x n]; cbn; [done| |by rewrite H].
  unfold defined_value. by rewrite (in_defs_proper (TStr x) _ _ H).
Qed.

Lemma item_ok_proper d1 d2 i : same_macros d1 d2 → item_ok d1 i → item_ok d2 i.
Proof.
  intros H. destruct i as [t|x p|x n]; cbn; [|done|by rewrite (H x)].
  by rewrite (in_defs_proper (snd t) _ _ H).
Qed.

(** The entry of a macro without arguments, after its conversion. *)
Lemma lookup_object defs x toks :
  norm <$> defs !! x = Some (Ok (MObj toks)) →
  ∃ defs', same_macros defs defs' ∧ in_defs (TStr x) defs = true ∧
    match defs !! x with
    | Some (MText line) => '(_, b) ← extract_macro line; Ok (b, <[x := b]> defs)
    | Some m => Ok (m, defs)
    | None => Err KeyError
    end = Ok (MObj toks, defs').
Proof.
  intros H. destruct (defs !! x) as [m|] eqn:Ex; [|done].
  assert (Hin : in_defs (TStr x) defs = true).
  { cbn. rewrite Ex. by apply bool_decide_eq_true_2. }
  destruct m as [line|ts|ps ts]; cbn [fmap option_fmap option_map norm] in H.
  - injection H as H. apply res_bind_Ok in H as ([v b] & Hm & [= ->]).
    exists (<[x := MObj toks]> defs). rewrite Hm. split; [|done]. intros y.
    destruct (decide (y = x)) as [->|]; [|by rewrite lookup_insert_ne].
    rewrite lookup_insert_eq, Ex. cbn [fmap option_fmap option_map norm]. by rewrite Hm.
  - injection H as ->. by exists defs.
  - done.
Qed.

Lemma reduce_items its : ∀ fuel fin defs,
  Forall (item_ok defs) its → uses_end its → length its < fuel →
  ∃ defs', same_macros defs defs' ∧
    reduce_loop fuel fin (flat_map item_toks its) defs = Ok (fin ++ flat_map (item_val defs) its, defs').
Proof.
  induction its as [|i its IH]; intros [|f] fin defs Hok Hend Hf; cbn in Hf; try lia.
  { exists defs. cbn. by rewrite app_nil_r. }
  apply Forall_cons in Hok as [Hi Hok].
  assert (Hnext : ∀ f fin defs', length its < f → uses_end its → same_macros defs defs' →
    ∃ defs'', same_macros defs defs'' ∧
      reduce_loop f fin (flat_map item_toks its) defs' = Ok (fin ++ flat_map (item_val defs) its, defs'')).
  { intros f' fin' defs' Hf' He Hs. destruct (IH f' fin' defs') as (d & Hd & Hr); [|done|done|].
    - eapply Forall_impl; [exact Hok|]. intros j. by apply item_ok_proper.
    - exists d. split; [by etrans|]. rewrite Hr. do 3 f_equal. apply flat_map_ext. intros j.
      symmetry. by apply item_val_proper. }
  cbn [flat_map]. rewrite app_assoc. destruct i as [t|x paren|x next]; cbn [item_toks item_val].
  - destruct t as [p v]. destruct Hi as [Hd Hin]. cbn [fst snd] in Hin. cbn [app reduce_loop].
    rewrite bool_decide_eq_false_2 by done.
    assert (bool_decide (p = IDENT) && in_defs v defs = false) as ->.
    { case_bool_decide; [by rewrite Hin|done]. }
    by apply Hnext; [lia|cbn in Hend|].
  - destruct paren; cbn [app reduce_loop]; change (bool_decide ((IDENT, TStr "defined") = (IDENT, TStr "defined"))) with true;
      cbn iota.
    + change (bool_decide (OP = IDENT)) with false. change (is_op (OP, TStr "(") "(") with true. cbn iota.
      by apply Hnext; [lia| |].
    + change (bool_decide (IDENT = IDENT)) with true. cbn iota. by apply Hnext; [lia| |].
  - destruct Hi as [Hx [toks Ht]]. destruct (lookup_object defs x toks Ht) as (d & Hd & Hin & Hl).
    cbn [app reduce_loop]. rewrite bool_decide_eq_false_2 by (intros [= ->]; done).
    rewrite Hin. change (bool_decide (IDENT = IDENT)) with true. cbn [andb]. rewrite Hl. cbn [mbind res_bind].
    unfold body. rewrite Ht. destruct next as [t|]; cbn [option_list app take drop].
    + by apply Hnext; [lia| |].
    + cbn in Hend. subst its. destruct f as [|f]; [lia|]. exists d. split; [done|]. cbn. by rewrite !app_nil_r.
Qed.

(** Expansion as in C: a macro without arguments is replaced by its body, which is looked at
    again, without this macro; the operand of [defined] is not expanded. *)
Inductive c_expands (defs : macros) : gset string → list token → list token → Prop :=
| CE_nil h : c_expands defs h [] []
| CE_plain h t l l' : t ≠ (IDENT, TStr "defined") → (∀ x toks, t = (IDENT, TStr x) → norm <$> defs !! x = Some (Ok (MObj toks)) → x ∈ h) →
    c_expands defs h l l' → c_expands defs h (t :: l) (t :: l')
| CE_defined h x paren l l' : c_expands defs h l l' →
    c_expands defs h (item_toks (Defined x paren) ++ l) (defined_value (TStr x) defs :: l')
| CE_object h x toks b l l' : x ≠ "defined" → norm <$> defs !! x = Some (Ok (MObj toks)) → x ∉ h →
    c_expands defs ({[x]} ∪ h) toks b → c_expands defs h l l' → c_expands defs h ((IDENT, TStr x) :: l) (b ++ l').

(** Nothing to expand: no token is the name of a macro. *)
Definition inert (defs : macros) (t : token) : Prop := t ≠ (IDENT, TStr "defined") ∧ (fst t = IDENT → in_defs (snd t) defs = false).
(** What the source expands only once: the bodies of the macros, and the tokens after them, are inert. *)
Definition once_enough (defs : macros) (i : item) : Prop :=
  match i with Use x next => Forall (inert defs) (body defs x ++ option_list next) | _ => True end.

Lemma not_macro defs x toks : in_defs (TStr x) defs = false → norm <$> defs !! x = Some (Ok (MObj toks)) → False.
Proof. cbn. intros H%bool_decide_eq_false_1 Hx. apply H. by destruct (defs !! x). Qed.
Lemma expands_inert defs h t l r : inert defs t → c_expands defs h (t :: l) r → ∃ r', r = t :: r' ∧ c_expands defs h l r'.
Proof.
  intros [Hd Hn] H. inversion H as [|h' t' l0 l' Ht _ Hl|h' x paren l0 l' Hl|h' x toks b l0 l' Hx Hm _ _ Hl]; subst.
  - by exists l'.
  - destruct paren; cbn in *; simplify_eq.
  - exfalso. eapply not_macro; [|exact Hm]. by apply Hn.
Qed.
Lemma expands_inerts defs h ts l r : Forall (inert defs) ts → c_expands defs h (ts ++ l) r → ∃ r', r = ts ++ r' ∧ c_expands defs h l r'.
Proof.
  intros Ht. revert r. induction Ht as [|t ts Ht _ IH]; intros r H; [by exists r|].
  apply expands_inert in H as (r1 & -> & H); [|done]. apply IH in H as (r' & -> & H). by exists r'.
Qed.
Lemma expands_nil defs h r : c_expands defs h [] r → r = [].
Proof. inversion 1 as [| |h' x paren l0 l' _ E|]; [done|]. by destruct paren. Qed.
(** Where one expansion is enough, the expansion of C is what the items stand for. *)
Lemma expands_items defs its : ∀ r, Forall (item_ok defs) its → Forall (once_enough defs) its →
  c_expands defs ∅ (flat_map item_toks its) r → r = flat_map (item_val defs) its.
Proof.
  induction its as [|i its IH]; intros r Hok Honce H; [by eapply expands_nil|].
  apply Forall_cons in Hok as [Hi Hok]. apply Forall_cons in Honce as [Ho Honce]. cbn [flat_map] in H |- *.
  destruct i as [t|x paren|x next]; cbn [item_val].
  - apply expands_inert in H as (r' & -> & H); [|done]. cbn. by rewrite (IH r').
  - remember (item_toks (Defined x paren) ++ flat_map item_toks its) as ts eqn:E.
    destruct H as [|h t l l' Ht _ Hl|h y p l l' Hl|h y toks b l l' Hy _ _ _ Hl].
    + by destruct paren.
    + destruct paren; cbn in E; injection E as -> _; done.
    + assert (y = x ∧ l = flat_map item_toks its) as [-> ->] by (destruct paren, p; cbn in E; by simplify_eq). cbn. by rewrite (IH l').
    + destruct paren; cbn in E; injection E as -> _; done.
  - cbn [item_toks app] in H. destruct Hi as (Hx & toks & Hm).
    assert (Hb : body defs x = toks) by (unfold body; by rewrite Hm).
    cbn in Ho. rewrite Hb in Ho. apply Forall_app in Ho as [Ht Hnext].
    inversion H as [|h' t' l0 l' _ Hmac _|h' y paren l0 l' _ E|h' y toks' b l0 l' _ Hm' _ Hbody Hl]; subst.
    + exfalso. specialize (Hmac x _ eq_refl Hm). set_solver.
    + exfalso. destruct paren; cbn in *; simplify_eq.
    + assert (toks' = body defs x) as -> by congruence.
      rewrite <-(app_nil_r (body defs x)) in Hbody. apply expands_inerts in Hbody as (r1 & -> & ->%expands_nil); [|done].
      apply expands_inerts in Hl as (r2 & -> & Hl); [|done]. rewrite app_nil_r, <-app_assoc. f_equal. f_equal. by apply IH.
Qed.

(** C21: A condition over [defined] tests, numbers, operators, names and macros without
    arguments, where no body of these macros and no token after such a macro is
    itself the name of a macro: when its expansion as in C is a condition as in
    [reduce_eval_correct] (chains with at most two of C's levels, which the table of the source
    keeps apart; no disjunction that starts with a bare number), it holds exactly
    when the value by the precedences of C, with the operators of Python, is not 0. *)
Theorem eval_macro_correct its defs toks u r z fuel :
  Forall (item_ok defs) its → Forall (once_enough defs) its → uses_end its → length its < fuel →
  c_expands defs ∅ (flat_map item_toks its) toks → toks = chain_toks u r → simple_chain u r → chain_val u r = Some z →
  ∃ defs', same_macros defs defs' ∧
    eval_macro fuel (flat_map item_toks its) defs = Ok (negb (z =? 0)%Z, defs').
Proof.
  intros Hok Honce Hend Hf Hexp Htoks Hs Hz. apply expands_items in Hexp as ->; [|done|done]. rename Htoks into Hv. destruct (reduce_items its fuel [] defs Hok Hend Hf) as (d & Hd & Hr).
  exists d. split; [done|]. unfold eval_macro, reduce_tokens. rewrite Hr, Hv. cbn [app mbind res_bind].
  destruct Hs as (Hu & H2 & Hr').
  destruct (chain_term u r (num_ok_simple u Hu)) with (fuel := 2 * length (chain_toks u r) + 2) (z := z)
    as (v & Hg & Hi & _); try done; [|lia|].
  { eapply Forall_impl; [exact Hr'|]. intros ou. apply num_ok_simple. }
  assert (Hne : 1 ≤ length (chain_toks u r)).
  { unfold chain_toks. rewrite length_app. pose proof (utoks_nonempty u). lia. }
  unfold reduce_eval. destruct (chain_toks u r) as [|t ts] eqn:E; [cbn in Hne; lia|].
  rewrite Hg. cbn. by rewrite Hi.
Qed.

(** ** Examples *)

Lemma tokenize_print_witness :
  tokenize "defined ( HAVE_X ) && 42" =
    Ok [(IDENT, TStr "defined"); op_tok "("; (IDENT, TStr "HAVE_X"); op_tok ")"; op_tok "&&"; (NUM, TStr "42")].
Proof.
  exact (tokenize_print [(IDENT, TStr "defined"); op_tok "("; (IDENT, TStr "HAVE_X"); op_tok ")"; op_tok "&&"; (NUM, TStr "42")]
    ltac:(repeat constructor)).
Defined.

(** [#if defined(A) && VERSION >= 3] after [#define A] and [#define VERSION 5]. *)
Definition ex_defs : macros := <["A" := MText "A"]> (<["VERSION" := MText "VERSION 5"]> ∅).
Definition ex_items : list item :=
  [Defined "A" true; Plain (op_tok "&&"); Use "VERSION" (Some (op_tok ">=")); Plain (NUM, TStr "3")].

Lemma ex_expands : c_expands ex_defs ∅ (flat_map item_toks ex_items) (chain_toks (UNum (TInt 1)) ex_cond).
Proof.
  apply (CE_defined ex_defs ∅ "A" true). apply CE_plain; [discriminate|discriminate|].
  apply (CE_object ex_defs ∅ "VERSION" [(NUM, TStr "5")] [(NUM, TStr "5")]); [discriminate|vm_compute; reflexivity|set_solver| |].
  - apply CE_plain; [discriminate|discriminate|constructor].
  - apply CE_plain; [discriminate|discriminate|]. apply CE_plain; [discriminate|discriminate|constructor].
Qed.
Lemma eval_macro_correct_witness :
  ∃ defs', same_macros ex_defs defs' ∧ eval_macro 9 (flat_map item_toks ex_items) ex_defs = Ok (true, defs').
Proof.
  apply (eval_macro_correct ex_items ex_defs (chain_toks (UNum (TInt 1)) ex_cond) (UNum (TInt 1)) ex_cond 1%Z 9).
  - constructor; [exact I|]. constructor; [split; [discriminate|discriminate]|].
    constructor; [split; [discriminate|]; exists [(NUM, TStr "5")]; vm_compute; reflexivity|].
    constructor; [split; [discriminate|discriminate]|constructor].
  - constructor; [exact I|]. constructor; [exact I|]. constructor; [|constructor; [exact I|constructor]].
    constructor; [split; discriminate|]. constructor; [split; discriminate|constructor].
  - exact I.
  - cbn; lia.
  - exact ex_expands.
  - reflexivity.
  - split; [exact I|]. split.
    + split; [|by intros]. exists 3, 8. split; [cbn; lia|]. split; [lia|].
      constructor; [right; reflexivity|]. constructor; [left; reflexivity|constructor].
    + constructor; [exact I|]. constructor; [exact I|constructor].
  - reflexivity.
Defined.

(** The body of a macro without arguments is not expanded again: after
    [#define FOO BAR] and [#define BAR 1], [#if BAR] holds and [#if FOO] does
    not.  The token after such a macro is not expanded either: after
    [#define PLUS +], the condition [1 PLUS BAR == 2] is false. *)
Theorem object_macros_not_rescanned :
  let defs : macros := <["FOO" := MText "FOO BAR"]> (<["BAR" := MText "BAR 1"]> (<["PLUS" := MText "PLUS +"]> ∅)) in
  fst <$> eval_macro 9 [(IDENT, TStr "BAR")] defs = Ok true ∧
  fst <$> eval_macro 9 [(IDENT, TStr "FOO")] defs = Ok false ∧
  fst <$> eval_macro 9 [(NUM, TStr "1"); op_tok "+"; (IDENT, TStr "BAR"); op_tok "=="; (NUM, TStr "2")] defs = Ok true ∧
  fst <$> eval_macro 9 [(NUM, TStr "1"); (IDENT, TStr "PLUS"); (IDENT, TStr "BAR"); op_tok "=="; (NUM, TStr "2")] defs
    = Ok false.
Proof. by vm_compute. Qed.

(** A file name that a macro gives between angle brackets is lost: the
    function returns a string where its caller unpacks a pair. *)
Theorem include_by_macro_fails :
  let defs : macros := <["HDR" := MText "HDR <foo.h>"]> ∅ in
  ('(i, _) ← extract_include 9 "HDR" defs; Ok i) = Ok (IncString "foo.h") ∧
  ('(i, _) ← extract_include 9 "HDR" defs; unpack i) = Err ValueError.
Proof. by vm_compute. Qed.

Definition grow_body : list token := [(NUM, TStr "1"); (IDENT, TStr "A"); op_tok "("; (IDENT, TStr "x"); op_tok ")"].
Definition grow_defs : macros := <["f" := MFun {[ "x" := 0 ]} grow_body]> (<["A" := MObj [(IDENT, TStr "f")]]> ∅).
Definition grow_call : list token := [(IDENT, TStr "f"); op_tok "("; (NUM, TInt 2); op_tok ")"].

Lemma grow_step f fin :
  reduce_loop (S (6 + f)) fin grow_call grow_defs = reduce_loop (6 + f) (fin ++ [(NUM, TStr "1")]) grow_call grow_defs.
Proof. reflexivity. Qed.

(** Macros that are not allowed to expand again do: [reduce_tokens] takes a
    list [ban] of them and never looks at it.  After [#define A f] and
    [#define f(x) 1 A (x)], the expansion of [f(2)] puts a new call after each
    1 and goes on for ever. *)
Theorem banned_macro_diverges fuel : reduce_tokens fuel grow_call grow_defs = Err OutOfFuel.
Proof.
  unfold reduce_tokens. generalize (@nil token) as fin. induction fuel as [|fuel IH]; intros fin; [done|].
  destruct (decide (6 ≤ fuel)) as [H|H].
  - replace fuel with (6 + (fuel - 6)) in * by lia. rewrite grow_step. apply IH.
  - do 6 (destruct fuel as [|fuel]; [reflexivity|]). lia.
Qed.
