(* ===== verification/PpScan.v ===== *)
(** * Scanning C files for their includes (tools/wafadmin/Tools/preproc.py)

    [filter_comments] turns a file into its preprocessor lines; [c_parser]
    processes them with a stack of states for the conditionals, and collects
    the nodes and the names of the files that are included.  The nodes of the
    build and the contents of files are the interface [FileTree].  An exception
    inside [process_line] is swallowed by the loop of [start], but what was
    done before it stays: the operations return the new state and the
    exception. *)
From S2P Require Import Prelude PyStr PpEval PpMacro.

(** ** The lines of a file *)

(** [re_nl.sub('', code)]: a backslash at the end of a line. *)
Fixpoint join_lines (fuel : nat) (s : string) : string :=
  match fuel with
  | 0 => s
  | S f =>
      match s with
      | EmptyString => EmptyString
      | String a s' =>
          if a =c backslash then
            match snd (span (λ b, b =c cr) s') with
            | String b s'' => if b =c nl then join_lines f s'' else String a (join_lines f s')
            | EmptyString => String a (join_lines f s')
            end
          else String a (join_lines f s')
      end
  end.

(** What follows the first [*/]. *)
Fixpoint after_comment (s : string) : option string :=
  match s with
  | String a (String b s'' as s') => if (a =c "*") && (b =c "/") then Some s'' else after_comment s'
  | _ => None
  end.

(** [re_cpp.sub(repl, code)]: a comment becomes a blank, a [//] comment goes,
    strings and characters stay as they are. *)
Fixpoint strip_comments (fuel : nat) (s : string) : string :=
  match fuel with
  | 0 => s
  | S f =>
      match s with
      | EmptyString => EmptyString
      | String a s' =>
          let literal q :=
            match quoted q s' with
            | Some (u, rest) => String q (u +:+ String q (strip_comments f rest))
            | None => String a (strip_comments f s')
            end in
          if a =c "/" then
            match s' with
            | String b s'' =>
                if b =c "*" then
                  match after_comment s'' with
                  | Some rest => String " " (strip_comments f rest)
                  | None => String a (strip_comments f s')
                  end
                else if b =c "/" then strip_comments f (snd (span (λ c, negb (c =c nl)) s''))
                else String a (strip_comments f s')
            | EmptyString => String a EmptyString
            end
          else if a =c quote then literal quote
          else if a =c squote then literal squote
          else String a (strip_comments f s')
      end
  end.

Definition keywords : list string :=
  ["ifdef"; "ifndef"; "if"; "else"; "elif"; "endif"; "include"; "import"; "define"; "undef"; "pragma"].
Definition blank (a : ascii) : bool := one_of (String " " (String "009" EmptyString)) a.

(** [re_lines] on one line: the keyword as it is written, and the rest. *)
Definition re_lines (s : string) : option (string * string) :=
  let s1 := skip blank s in
  s2 ← (if startswith "#" s1 then Some (str_drop 1 s1)
        else if startswith "%:" s1 then Some (str_drop 2 s1) else None);
  let s3 := skip blank s2 in
  k ← List.find (λ k, startswith k (lower s3)) keywords;
  Some (str_take (String.length k) s3, skip blank (str_drop (String.length k) s3)).

Notation line := (string * string)%type.
Definition filter_comments (code : string) : list line :=
  let code := join_lines (String.length code) code in
  let code := strip_comments (String.length code) code in
  omap re_lines (split_on nl code).

Definition POPFILE : string := "-".
Definition recursion_limit : nat := 100.

(** ** The parser *)

Inductive cstate := accepted | ignored | undefined | skipped.
#[export] Instance cstate_eq_dec : EqDecision cstate.
Proof. solve_decision. Defined.

(** What the parser needs of nodes, and of the file system. *)
Class FileTree (node : Type) := {
  find_resource : node → string → option node;
  node_parent : node → node;
  node_abspath : node → string;
  readf : string → option string }.

Section Parser.
Context {node : Type} `{FileTree node}.

(** The attributes of [c_parser], and the cache of filtered lines of the build.
    The stacks have their top in front. *)
Record c_parser := mkParser {
  lines : list line;
  defs : macros;
  state : list cstate;
  count_files : nat;
  currentnode_stack : list node;
  nodepaths : list node;
  nodes : list node;
  names : list string;
  curfile : string;
  ban_includes : list string;
  parse_cache : gmap string (list line) }.

Definition set_lines (c : c_parser) l :=
  mkParser l (defs c) (state c) (count_files c) (currentnode_stack c) (nodepaths c) (nodes c) (names c) (curfile c)
    (ban_includes c) (parse_cache c).
Definition set_defs (c : c_parser) d :=
  mkParser (lines c) d (state c) (count_files c) (currentnode_stack c) (nodepaths c) (nodes c) (names c) (curfile c)
    (ban_includes c) (parse_cache c).
Definition set_state (c : c_parser) s :=
  mkParser (lines c) (defs c) s (count_files c) (currentnode_stack c) (nodepaths c) (nodes c) (names c) (curfile c)
    (ban_includes c) (parse_cache c).
Definition set_stack (c : c_parser) s :=
  mkParser (lines c) (defs c) (state c) (count_files c) s (nodepaths c) (nodes c) (names c) (curfile c)
    (ban_includes c) (parse_cache c).
Definition set_ban (c : c_parser) b :=
  mkParser (lines c) (defs c) (state c) (count_files c) (currentnode_stack c) (nodepaths c) (nodes c) (names c)
    (curfile c) b (parse_cache c).

(** [c_parser.__init__] and the cache that [start] takes from the build. *)
Definition new_parser (paths : list node) (cache : gmap string (list line)) : c_parser :=
  mkParser [] ∅ [] 0 [] paths [] [] "" [] cache.

Definition addlines (c : c_parser) (n : node) : c_parser * option exn :=
  let filepath := node_abspath n in
  let c := mkParser (lines c) (defs c) (state c) (S (count_files c)) (node_parent n :: currentnode_stack c)
    (nodepaths c) (nodes c) (names c) (curfile c) (ban_includes c) (parse_cache c) in
  if recursion_limit <? count_files c then (c, Some (PreprocError "recursion limit exceeded"))
  else
    match parse_cache c !! filepath with
    | Some lns => (set_lines c (lns ++ lines c), None)
    | None =>
        match readf filepath with
        | None => (c, Some (PreprocError "could not read the file"))
        | Some code =>
            let l := filter_comments code ++ [(POPFILE, "")] in
            (mkParser (l ++ lines c) (defs c) (state c) (count_files c) (currentnode_stack c) (nodepaths c) (nodes c)
               (names c) (curfile c) (ban_includes c) (<[filepath := l]> (parse_cache c)), None)
        end
    end.

(** The search in the folders of [nodepaths]. *)
Fixpoint find_in (paths : list node) (filename : string) : option node :=
  match paths with
  | [] => None
  | n :: paths' => match find_resource n filename with Some f => Some f | None => find_in paths' filename end
  end.

Definition tryfind (c : c_parser) (filename : string) : c_parser * option exn :=
  let c := mkParser (lines c) (defs c) (state c) (count_files c) (currentnode_stack c) (nodepaths c) (nodes c) (names c)
    filename (ban_includes c) (parse_cache c) in
  match currentnode_stack c with
  | [] => (c, Some IndexError)
  | top :: _ =>
      match find_in (top :: nodepaths c) filename with
      | None =>
          (mkParser (lines c) (defs c) (state c) (count_files c) (currentnode_stack c) (nodepaths c) (nodes c)
             (if bool_decide (filename ∈ names c) then names c else names c ++ [filename])
             (curfile c) (ban_includes c) (parse_cache c), None)
      | Some found =>
          let c := mkParser (lines c) (defs c) (state c) (count_files c) (currentnode_stack c) (nodepaths c)
            (nodes c ++ [found]) (names c) (curfile c) (ban_includes c) (parse_cache c) in
          if endswith ".moc" filename then (c, None) else addlines c found
      end
  end.

(** [re_mac.search(line)]: the name at the start of the line. *)
Definition re_mac (s : string) : option string := fst <$> lex_ident s.
Definition defined_name (s : string) (d : macros) : bool :=
  match re_mac s with Some x => bool_decide (is_Some (d !! x)) | None => false end.

Definition is_cond (token : string) : bool := existsb (String.eqb token) ["ifdef"; "ifndef"; "if"].
Definition is_branch (token : string) : bool := existsb (String.eqb token) ["else"; "elif"; "endif"].
Definition dead (st : list cstate) : bool := bool_decide (skipped ∈ st) || bool_decide (ignored ∈ st).

(** The state on the top of the stack changes; an empty stack raises. *)
Definition set_top (c : c_parser) (s : cstate) : c_parser * option exn :=
  match state c with
  | [] => (c, Some IndexError)
  | _ :: st => (set_state c (s :: st), None)
  end.

Section Fuel.
Context (fuel : nat).

(** [eval_macro(tokenize(line), self.defs)] *)
Definition eval_line (c : c_parser) (l : string) : c_parser * res bool :=
  match (t ← tokenize l; eval_macro fuel t (defs c)) with
  | Ok (b, d) => (set_defs c d, Ok b)
  | Err e => (c, Err e)
  end.

Definition process_include (c : c_parser) (token l : string) : c_parser * option exn :=
  match ('(i, d) ← extract_include fuel l (defs c); '(kind, inc) ← unpack i; Ok (inc, d)) with
  | Err e => (c, Some e)
  | Ok (inc, d) =>
      let c := set_defs c d in
      if bool_decide (inc ∈ ban_includes c) then (c, None)
      else
        let c := if token =s "import" then set_ban c (ban_includes c ++ [inc]) else c in
        tryfind c inc
  end.

(** The part of [process_line] after the guard. *)
Definition process_kind (c : c_parser) (token l : string) : c_parser * option exn :=
  if token =s "if" then
    let '(c, r) := eval_line c l in
    match r with
    | Ok b => set_top c (if b then accepted else ignored)
    | Err e => (c, Some e)
    end
  else if token =s "ifdef" then set_top c (if defined_name l (defs c) then accepted else ignored)
  else if token =s "ifndef" then set_top c (if defined_name l (defs c) then ignored else accepted)
  else if (token =s "include") || (token =s "import") then process_include c token l
  else if token =s "elif" then
    match state c with
    | [] => (c, Some IndexError)
    | accepted :: _ => set_top c skipped
    | ignored :: _ =>
        let '(c, r) := eval_line c l in
        match r with
        | Ok b => if (b : bool) then set_top c accepted else (c, None)
        | Err e => (c, Some e)
        end
    | _ => (c, None)
    end
  else if token =s "else" then
    match state c with
    | [] => (c, Some IndexError)
    | accepted :: _ => set_top c skipped
    | ignored :: _ => set_top c accepted
    | _ => (c, None)
    end
  else if token =s "define" then
    match re_mac l with
    | Some name => (set_defs c (<[name := MText l]> (defs c)), None)
    | None => (c, Some (PreprocError "invalid define line"))
    end
  else if token =s "undef" then
    match re_mac l with
    | Some name => (set_defs c (delete name (defs c)), None)
    | None => (c, None)
    end
  else if token =s "pragma" then
    if startswith "once" (lstrip (lower l)) then (set_ban c (ban_includes c ++ [curfile c]), None) else (c, None)
  else (c, None).

Definition process_line (c : c_parser) (token l : string) : c_parser * option exn :=
  let '(c, e) :=
    if is_cond token then (set_state c (undefined :: state c), None)
    else if token =s "endif" then
      match state c with
      | [] => (c, Some IndexError)
      | _ :: st => (set_state c st, None)
      end
    else (c, None) in
  match e with
  | Some e => (c, Some e)
  | None => if negb (is_branch token) && dead (state c) then (c, None) else process_kind c token l
  end.

(** One round of the loop of [start], on a line that was taken off. *)
Definition process (c : c_parser) (kl : line) : c_parser * option exn :=
  if fst kl =s POPFILE then
    match currentnode_stack c with
    | [] => (c, Some IndexError)
    | _ :: st => (set_stack c st, None)
    end
  else
    let '(c, e) := process_line c (fst kl) (snd kl) in
    (c, match e with Some OutOfFuel => Some OutOfFuel | _ => None end).

Fixpoint start_loop (rounds : nat) (c : c_parser) : res c_parser :=
  match lines c with
  | [] => Ok c
  | kl :: ls =>
      match rounds with
      | 0 => Err OutOfFuel
      | S r =>
          match process (set_lines c ls) kl with
          | (c', None) => start_loop r c'
          | (_, Some e) => Err e
          end
      end
  end.

Definition start (rounds : nat) (c : c_parser) (n : node) (deflines : list string) : res c_parser :=
  match addlines c n with
  | (_, Some e) => Err e
  | (c, None) => start_loop rounds (set_lines c (((λ x, ("define", x)) <$> deflines) ++ lines c))
  end.

Definition get_deps (rounds : nat) (n : node) (deflines : list string) (paths : list node)
    (cache : gmap string (list line)) : res (list node * list string) :=
  c ← start rounds (new_parser paths cache) n deflines;
  Ok (nodes c, names c).

(** ** The loop ends *)

(** The lines of one file: at most [M], and one end mark. *)
Definition file_lines (M : nat) (ls : list line) : Prop :=
  ∃ body, ls = body ++ [(POPFILE, "")] ∧ Forall (λ kl, fst kl ≠ POPFILE) body ∧ length ls ≤ M.
Definition cache_ok (M : nat) (c : c_parser) : Prop :=
  ∀ p ls, parse_cache c !! p = Some ls → file_lines M ls.

Lemma lower_length s : String.length (lower s) = String.length s.
Proof. induction s as [|a s IH]; [done|]. cbn. by rewrite <- IH. Qed.

Lemma re_lines_kind s kl : re_lines s = Some kl → fst kl ≠ POPFILE.
Proof.
  unfold re_lines. destruct (if startswith "#" _ then _ else _) as [s2|]; [|done]. cbn [mbind option_bind].
  destruct (List.find _ keywords) as [k|] eqn:E; [|done]. intros [= <-]. cbn [fst].
  apply find_some in E as [Hk Hp]. apply prefix_length in Hp. rewrite lower_length in Hp.
  assert (2 ≤ String.length k).
  { assert (Hall : forallb (λ k, 2 <=? String.length k) keywords = true) by done.
    rewrite forallb_forall in Hall. by apply Nat.leb_le, Hall. }
  intros He. apply (f_equal String.length) in He. rewrite str_take_length in He. cbn in He. lia.
Qed.

Lemma filter_comments_kinds code : Forall (λ kl, fst kl ≠ POPFILE) (filter_comments code).
Proof.
  apply Forall_forall. unfold filter_comments. intros kl Hin.
  apply list_elem_of_omap in Hin as (s & _ & Hs). by eapply re_lines_kind.
Qed.

Section Bound.
Context (M : nat).
Hypothesis HM : ∀ p code, readf p = Some code → length (filter_comments code) < M.

(** The effect of a line on the files: none, or one more file. *)
Definition eff (c c' : c_parser) : Prop :=
  (lines c' = lines c ∧ count_files c' = count_files c ∧ currentnode_stack c' = currentnode_stack c ∧
   parse_cache c' = parse_cache c) ∨
  (∃ n new, count_files c' = S (count_files c) ∧ currentnode_stack c' = n :: currentnode_stack c ∧
     lines c' = new ++ lines c ∧ (new = [] ∨ count_files c < recursion_limit ∧ file_lines M new) ∧ cache_ok M c').

Lemma eff_refl c : eff c c.
Proof using. by left. Qed.

Lemma eff_same c c1 c' :
  lines c1 = lines c → count_files c1 = count_files c → currentnode_stack c1 = currentnode_stack c →
  parse_cache c1 = parse_cache c → eff c1 c' → eff c c'.
Proof using. unfold eff. by intros <- <- <- <-. Qed.

Lemma addlines_eff c n : cache_ok M c → eff c (fst (addlines c n)).
Proof using HM.
  intros Hc. unfold addlines. cbn [count_files parse_cache]. right.
  destruct (recursion_limit <? S (count_files c)) eqn:E.
  { exists (node_parent n), []. cbn. auto 10. }
  apply Nat.ltb_ge in E. destruct (parse_cache c !! node_abspath n) as [lns|] eqn:El.
  { exists (node_parent n), lns. cbn. split_and!; try done. right. split; [lia|by eapply Hc]. }
  destruct (readf (node_abspath n)) as [code|] eqn:Er.
  2: { exists (node_parent n), []. cbn. auto 10. }
  assert (Hf : file_lines M (filter_comments code ++ [(POPFILE, "")])).
  { eexists. split; [done|]. split; [apply filter_comments_kinds|]. rewrite length_app. cbn. apply HM in Er. lia. }
  exists (node_parent n), (filter_comments code ++ [(POPFILE, "")]). cbn.
  split_and!; try done; [right; split; [lia|done]|]. intros p ls. cbn.
  destruct (decide (p = node_abspath n)) as [->|]; [rewrite lookup_insert_eq; by intros [= <-]|].
  rewrite lookup_insert_ne by done. apply Hc.
Qed.

Lemma tryfind_eff c f : cache_ok M c → eff c (fst (tryfind c f)).
Proof using HM.
  intros Hc. unfold tryfind. cbn [currentnode_stack nodepaths].
  destruct (currentnode_stack c) as [|top st] eqn:Es; [by left|].
  destruct (find_in _ f) as [found|]; [|left; by rewrite Es].
  destruct (endswith ".moc" f); [left; by rewrite Es|].
  by eapply eff_same; [| | | |by apply addlines_eff].
Qed.

Lemma set_top_eff c s : eff c (fst (set_top c s)).
Proof using. unfold set_top. by destruct (state c); left. Qed.

Lemma eval_line_eff c l c' r : eval_line c l = (c', r) →
  lines c' = lines c ∧ count_files c' = count_files c ∧ currentnode_stack c' = currentnode_stack c ∧
  parse_cache c' = parse_cache c ∧ state c' = state c.
Proof using.
  unfold eval_line. destruct (t ← tokenize l; _) as [[b d]|e]; by intros [= <- _].
Qed.

Lemma process_include_eff c token l : cache_ok M c → eff c (fst (process_include c token l)).
Proof using HM.
  intros Hc. unfold process_include. destruct ('(i, d) ← _; _) as [[inc d]|e]; [|by left].
  destruct (bool_decide (inc ∈ _)); [by left|].
  destruct (token =s "import"); (eapply eff_same; [| | | |by apply tryfind_eff]; done).
Qed.

Lemma process_kind_eff c token l : cache_ok M c → eff c (fst (process_kind c token l)).
Proof using HM.
  intros Hc. unfold process_kind.
  destruct (token =s "if").
  { destruct (eval_line c l) as [c' [b|e]] eqn:E; apply eval_line_eff in E as (? & ? & ? & ? & ?).
    - by eapply eff_same; [| | | |apply set_top_eff].
    - by left. }
  destruct (token =s "ifdef"); [apply set_top_eff|]. destruct (token =s "ifndef"); [apply set_top_eff|].
  destruct (_ || _); [by apply process_include_eff|].
  destruct (token =s "elif").
  { destruct (state c) as [|[] st]; try apply eff_refl; [apply set_top_eff|].
    destruct (eval_line c l) as [c' [[]|e]] eqn:E; apply eval_line_eff in E as (? & ? & ? & ? & ?); try by left.
    by eapply eff_same; [| | | |apply set_top_eff]. }
  destruct (token =s "else").
  { destruct (state c) as [|[] st]; try apply eff_refl; apply set_top_eff. }
  destruct (token =s "define"); [by destruct (re_mac l); left|].
  destruct (token =s "undef"); [by destruct (re_mac l); left|].
  destruct (token =s "pragma"); [|apply eff_refl]. destruct (startswith _ _); by left.
Qed.

Lemma process_line_eff c token l : cache_ok M c → eff c (fst (process_line c token l)).
Proof using HM.
  intros Hc. unfold process_line.
  destruct (is_cond token).
  { destruct (_ && _); [by left|]. by eapply eff_same; [| | | |apply process_kind_eff]. }
  destruct (token =s "endif").
  { destruct (state c) as [|s st]; [by left|]. destruct (_ && _); [by left|].
    by eapply eff_same; [| | | |apply process_kind_eff]. }
  destruct (_ && _); [by left|]. by apply process_kind_eff.
Qed.

(** What holds of the parser in the loop: files in the cache are well formed,
    and every end mark to come has its folder on the stack. *)
Definition pops (ls : list line) : nat := length (filter (λ kl, fst kl = POPFILE) ls).
Definition loop_inv (c : c_parser) : Prop := cache_ok M c ∧ pops (lines c) ≤ length (currentnode_stack c).
Definition measure (c : c_parser) : nat := length (lines c) + (recursion_limit - count_files c) * M.

Lemma pops_file ls rest : file_lines M ls → pops (ls ++ rest) = S (pops rest).
Proof using.
  intros (body & -> & Hb & _). unfold pops. rewrite <- app_assoc, filter_app, length_app.
  assert (filter (λ kl, fst kl = POPFILE) body = []) as ->.
  { clear -Hb. induction Hb as [|kl body Hk _ IH]; [done|]. by rewrite filter_cons_False. }
  cbn [app]. by rewrite filter_cons_True.
Qed.

Lemma process_inv c kl ls c' e :
  loop_inv c → lines c = kl :: ls → process (set_lines c ls) kl = (c', e) →
  (e = None ∧ loop_inv c' ∧ measure c' < measure c) ∨ e = Some OutOfFuel.
Proof using HM.
  intros [Hc Hp] Hl. unfold process. destruct (fst kl =s POPFILE) eqn:Ek.
  - apply String.eqb_eq in Ek. rewrite Hl in Hp. unfold pops in Hp.
    rewrite filter_cons_True in Hp by done. cbn [length] in Hp. cbn [set_lines currentnode_stack].
    destruct (currentnode_stack c) as [|top st] eqn:Es; cbn [length] in Hp; [lia|]. intros [= <- <-]. left.
    split; [done|]. split; [split; [done|]|].
    { cbn [set_stack set_lines currentnode_stack lines]. unfold pops. lia. }
    unfold measure. rewrite Hl. cbn. lia.
  - apply String.eqb_neq in Ek.
    pose proof (process_line_eff (set_lines c ls) (fst kl) (snd kl) Hc) as He.
    destruct (process_line (set_lines c ls) (fst kl) (snd kl)) as [c1 e1]. cbn [fst] in He. intros [= <- <-].
    destruct (decide (e1 = Some OutOfFuel)) as [->|Hne]; [by right|]. left.
    split; [by destruct e1 as [[]|]|].
    rewrite Hl in Hp. unfold pops in Hp. rewrite filter_cons_False in Hp by done. fold (pops ls) in Hp.
    assert (HM0 : 0 < M ∨ M = 0) by lia.
    destruct He as [(E1 & E2 & E3 & E4)|(n & new & E1 & E2 & E3 & E4 & E5)]; cbn in *.
    + split; [split; [unfold cache_ok; by rewrite E4|rewrite E1, E3; done]|].
      unfold measure. rewrite E1, E2, Hl. cbn. lia.
    + split.
      * split; [done|]. rewrite E2, E3. cbn. destruct E4 as [->|[_ Hf]]; [cbn [app]; lia|]. rewrite pops_file by done. lia.
      * unfold measure. rewrite E1, E3, Hl, length_app. cbn. destruct E4 as [->|[Hlt (b & Hb & _ & Hm)]].
        -- cbn. nia.
        -- cbn in Hlt. unfold recursion_limit in *. nia.
Qed.

(** Scanning a file ends.  The limit on included files bounds the rounds of
    the loop, whatever the files include; the only other outcome is a macro
    expansion that does not end within its fuel.  In particular the stack of
    folders is never popped when it is empty. *)
Theorem start_ends rounds c n deflines :
  cache_ok M c → lines c = [] → currentnode_stack c = [] → count_files c = 0 →
  length deflines + M * recursion_limit ≤ rounds →
  (∃ c', start rounds c n deflines = Ok c' ∧ lines c' = []) ∨
  start rounds c n deflines = Err (PreprocError "could not read the file") ∨
  start rounds c n deflines = Err OutOfFuel ∧ ∃ c1 kl ls,
    lines c1 = kl :: ls ∧ snd (process (set_lines c1 ls) kl) = Some OutOfFuel.
Proof using HM.
  intros Hc Hl Hs Hn Hr. unfold start. pose proof (addlines_eff c n Hc) as He.
  destruct (addlines c n) as [c1 e] eqn:Ea.
  assert (He1 : e = None ∨ e = Some (PreprocError "could not read the file")).
  { unfold addlines in Ea. cbn in Ea. rewrite Hn in Ea. cbn in Ea.
    destruct (parse_cache c !! _); [left; by injection Ea|]. destruct (readf _); injection Ea; auto. }
  destruct He1 as [->| ->]; [|by right; left].
  assert (Hnext : count_files c1 = 1).
  { unfold addlines in Ea. cbn in Ea. rewrite Hn in Ea. cbn in Ea.
    destruct (parse_cache c !! _); [by injection Ea as <-|]. destruct (readf _); [by injection Ea as <-|done]. }
  set (c2 := set_lines c1 _).
  assert (Hi : loop_inv c2 ∧ measure c2 ≤ rounds).
  { destruct He as [(_ & E2 & _)|(x & new & E1 & E2 & E3 & E4 & E5)]; [cbn in E2; lia|]. cbn in *.
    rewrite Hl, app_nil_r in E3.
    assert (Hd : pops (((λ x, ("define", x)) <$> deflines) ++ lines c1) = pops (lines c1)).
    { clear. induction deflines as [|d ds IH]; [done|]. cbn [fmap list_fmap app]. unfold pops.
      by rewrite filter_cons_False. }
    assert (Hlen : length (lines c1) ≤ M ∧ pops (lines c1) ≤ 1).
    { rewrite E3. destruct E4 as [->|[_ Hf]]; [cbn; lia|]. rewrite <- (app_nil_r new), pops_file by done.
      destruct Hf as (b & Hb & _ & Hm). rewrite app_nil_r. cbn. lia. }
    split; [split; [done|]|].
    - subst c2. cbn [set_lines lines currentnode_stack]. rewrite Hd, E2, Hs. cbn. lia.
    - subst c2. unfold measure. cbn [set_lines lines count_files]. rewrite length_app, length_fmap, E1.
      unfold recursion_limit in *. nia. }
  clearbody c2. clear -HM Hi. destruct Hi as [Hi Hm].
  revert c2 Hi Hm. induction rounds as [|r IH]; intros c Hi Hm.
  - left. exists c. cbn. destruct (lines c) eqn:E; [done|]. unfold measure in Hm. rewrite E in Hm. cbn [length Nat.add] in Hm. by inversion Hm.
  - cbn [start_loop]. destruct (lines c) as [|kl ls] eqn:El; [left; by exists c|].
    destruct (process (set_lines c ls) kl) as [c' e] eqn:Ep.
    destruct (process_inv c kl ls c' e Hi El Ep) as [(-> & Hi' & Hlt)| ->].
    + apply IH; [done|lia].
    + right. right. split; [done|]. exists c, kl, ls. by rewrite Ep.
Qed.
End Bound.

(** ** Conditional blocks

    A file as a structure: lines, and conditionals with their branches. *)
Inductive blocks :=
| BNil
| BLine (token l : string) (rest : blocks)
| BCond (kind l : string) (body : blocks) (branches : arms) (e : string) (rest : blocks)
with arms :=
| AEnd
| AElse (l : string) (body : blocks)
| AElif (l : string) (body : blocks) (rest : arms).

Scheme blocks_mut := Induction for blocks Sort Prop
with arms_mut := Induction for arms Sort Prop.
Combined Scheme blocks_arms_ind from blocks_mut, arms_mut.

Fixpoint flat (b : blocks) : list line :=
  match b with
  | BNil => []
  | BLine token l rest => (token, l) :: flat rest
  | BCond kind l body branches e rest =>
      (kind, l) :: flat body ++ flat_arms branches ++ ("endif", e) :: flat rest
  end
with flat_arms (a : arms) : list line :=
  match a with
  | AEnd => []
  | AElse l body => ("else", l) :: flat body
  | AElif l body rest => ("elif", l) :: flat body ++ flat_arms rest
  end.

(** The keywords of lines are not those of conditionals. *)
Definition plain (token : string) : bool := negb (is_cond token) && negb (is_branch token) && negb (token =s POPFILE).
Fixpoint wf (b : blocks) : bool :=
  match b with
  | BNil => true
  | BLine token _ rest => plain token && wf rest
  | BCond kind _ body branches _ rest => is_cond kind && wf body && wf_arms branches && wf rest
  end
with wf_arms (a : arms) : bool :=
  match a with
  | AEnd => true
  | AElse _ body => wf body
  | AElif _ body rest => wf body && wf_arms rest
  end.

(** The parser in a given state, with given lines to come. *)
Definition at_ (c : c_parser) (st : list cstate) (ls : list line) : c_parser := set_lines (set_state c st) ls.

(** The test of a conditional. *)
Definition cond (c : c_parser) (kind l : string) : c_parser * res bool :=
  if kind =s "if" then eval_line c l
  else (c, Ok (if kind =s "ifdef" then defined_name l (defs c) else negb (defined_name l (defs c)))).

(** What the lines of a structured file do: of a conditional, the first branch
    whose test holds; when the first test cannot be evaluated, every branch. *)
Inductive exec : blocks → c_parser → c_parser → Prop :=
| ex_nil c : exec BNil c c
| ex_line token l rest c c1 e c' :
    process_kind (at_ c [] []) token l = (c1, e) → e ≠ Some OutOfFuel → lines c1 = [] →
    exec rest c1 c' → exec (BLine token l rest) c c'
| ex_include token l rest c c1 file c2 top st c' :
    process_kind (at_ c [] []) token l = (c1, None) → lines c1 = flat file ++ [(POPFILE, "")] → wf file = true →
    exec file c1 c2 → currentnode_stack c2 = top :: st →
    exec rest (set_stack c2 st) c' → exec (BLine token l rest) c c'
| ex_true kind l body branches e rest c c1 c2 c' :
    cond c kind l = (c1, Ok true) → exec body c1 c2 → exec rest c2 c' →
    exec (BCond kind l body branches e rest) c c'
| ex_false kind l body branches e rest c c1 c2 c' :
    cond c kind l = (c1, Ok false) → choose branches c1 c2 → exec rest c2 c' →
    exec (BCond kind l body branches e rest) c c'
| ex_fail kind l body branches e rest c c1 x c2 c3 c' :
    cond c kind l = (c1, Err x) → x ≠ OutOfFuel → exec body c1 c2 → every branches c2 c3 → exec rest c3 c' →
    exec (BCond kind l body branches e rest) c c'
with choose : arms → c_parser → c_parser → Prop :=
| ch_end c : choose AEnd c c
| ch_else l body c c' : exec body c c' → choose (AElse l body) c c'
| ch_true l body rest c c1 c' : eval_line c l = (c1, Ok true) → exec body c1 c' → choose (AElif l body rest) c c'
| ch_false l body rest c c1 c' : eval_line c l = (c1, Ok false) → choose rest c1 c' → choose (AElif l body rest) c c'
| ch_fail l body rest c c1 x c' :
    eval_line c l = (c1, Err x) → x ≠ OutOfFuel → choose rest c1 c' → choose (AElif l body rest) c c'
with every : arms → c_parser → c_parser → Prop :=
| ev_end c : every AEnd c c
| ev_else l body c c' : exec body c c' → every (AElse l body) c c'
| ev_elif l body rest c c1 c' : exec body c c1 → every rest c1 c' → every (AElif l body rest) c c'.

Scheme exec_mut := Induction for exec Sort Prop
with choose_mut := Induction for choose Sort Prop
with every_mut := Induction for every Sort Prop.
Combined Scheme exec_arms_ind from exec_mut, choose_mut, every_mut.

(** One round of the loop. *)
Definition step (c c' : c_parser) : Prop :=
  ∃ kl ls, lines c = kl :: ls ∧ process (set_lines c ls) kl = (c', None).

Lemma step_line c st token l ls c1 e :
  token ≠ POPFILE → process_line (at_ c st ls) token l = (c1, e) → e ≠ Some OutOfFuel →
  step (at_ c st ((token, l) :: ls)) c1.
Proof using.
  intros Ht Hp He. exists (token, l), ls. split; [done|]. unfold process. cbn [fst snd].
  rewrite (proj2 (String.eqb_neq _ _) Ht).
  change (set_lines (at_ c st ((token, l) :: ls)) ls) with (at_ c st ls). rewrite Hp. by destruct e as [[]|].
Qed.

Lemma plain_inv token : plain token = true → is_cond token = false ∧ is_branch token = false ∧ token ≠ POPFILE.
Proof using.
  unfold plain. rewrite !andb_true_iff, !negb_true_iff. intros [[H1 H2] H3]. split_and!; try done.
  by apply String.eqb_neq.
Qed.

Lemma cond_inv kind : is_cond kind = true → kind = "ifdef" ∨ kind = "ifndef" ∨ kind = "if".
Proof using.
  unfold is_cond. cbn [existsb]. rewrite !orb_true_iff, !String.eqb_eq. naive_solver.
Qed.

Lemma branch_endif token : is_branch token = false → (token =s "endif") = false.
Proof using. unfold is_branch. cbn [existsb]. rewrite !orb_false_iff. naive_solver. Qed.

Lemma dead_cons_live s st : s = accepted ∨ s = undefined → dead (s :: st) = dead st.
Proof using.
  intros Hs. unfold dead.
  assert (∀ x, x = skipped ∨ x = ignored → bool_decide (x ∈ s :: st) = bool_decide (x ∈ st)) as Hx.
  { intros x Hx. apply bool_decide_ext. rewrite elem_of_cons. naive_solver. }
  rewrite !Hx by auto. done.
Qed.

Lemma dead_cons s st : dead st = true → dead (s :: st) = true.
Proof using.
  unfold dead. rewrite !orb_true_iff, !bool_decide_eq_true. rewrite !elem_of_cons. naive_solver.
Qed.

Lemma dead_top s st : s = skipped ∨ s = ignored → dead (s :: st) = true.
Proof using.
  unfold dead. rewrite orb_true_iff, !bool_decide_eq_true, !elem_of_cons. naive_solver.
Qed.

(** In a dead branch nothing happens. *)
Lemma skip_dead_both :
  (∀ b, wf b = true → ∀ c st K, dead st = true → rtc step (at_ c st (flat b ++ K)) (at_ c st K)) ∧
  (∀ a, wf_arms a = true → ∀ c s st K, s = skipped ∨ s = undefined → dead (s :: st) = true →
     rtc step (at_ c (s :: st) (flat_arms a ++ K)) (at_ c (s :: st) K)).
Proof using.
  apply blocks_arms_ind; cbn [wf wf_arms flat flat_arms].
  - intros _ c st K _. apply rtc_refl.
  - intros token l rest IH [Hp Hw]%andb_true_iff c st K Hd. apply plain_inv in Hp as (H1 & H2 & H3).
    eapply rtc_l; [|by apply IH]. eapply step_line with (e := None); try done.
    unfold process_line. rewrite H1, (branch_endif _ H2), H2. cbn [negb andb at_ set_lines set_state state].
    by rewrite Hd.
  - intros kind l body IHb a IHa e rest IHr [[[Hk Hw1]%andb_true_iff Hw2]%andb_true_iff Hw3]%andb_true_iff c st K Hd.
    cbn [app]. rewrite <- !app_assoc. cbn [app].
    assert (Hk' : kind ≠ POPFILE ∧ is_branch kind = false) by (apply cond_inv in Hk as [->|[->| ->]]; done).
    destruct Hk' as [Hk1 Hk2].
    eapply rtc_l. { eapply step_line with (e := None); try done. unfold process_line. rewrite Hk, Hk2.
      cbn [negb andb at_ set_lines set_state state]. rewrite dead_cons by done. reflexivity. }
    change (set_state (at_ c st ?l) ?s) with (at_ c s l).
    etrans; [apply (IHb Hw1); by apply dead_cons|].
    etrans; [apply (IHa Hw2); [by right|by apply dead_cons]|].
    eapply rtc_l; [|by apply IHr]. eapply step_line with (e := None); try done.
  - intros _ c s st K _ _. apply rtc_refl.
  - intros l body IH Hw c s st K Hs Hd. cbn [app].
    eapply rtc_l. { eapply step_line with (e := None) (c1 := at_ c (s :: st) (flat body ++ K)); try done.
      unfold process_line. change (is_cond "else") with false. change (is_branch "else") with true.
      change ("else" =s "endif") with false. cbn [negb andb]. unfold process_kind. cbn [String.eqb Ascii.eqb Bool.eqb].
      cbn [orb at_ set_lines set_state state]. by destruct Hs as [->| ->]. }
    by apply IH.
  - intros l body IHb rest IHr [Hw1 Hw2]%andb_true_iff c s st K Hs Hd. cbn [app]. rewrite <- app_assoc.
    eapply rtc_l. { eapply step_line with (e := None) (c1 := at_ c (s :: st) (flat body ++ flat_arms rest ++ K)); try done.
      unfold process_line. change (is_cond "elif") with false. change (is_branch "elif") with true.
      change ("elif" =s "endif") with false. cbn [negb andb]. unfold process_kind. cbn [String.eqb Ascii.eqb Bool.eqb].
      cbn [orb at_ set_lines set_state state]. by destruct Hs as [->| ->]. }
    etrans; [by apply IHb|]. by apply IHr.
Qed.

(** The state and the lines to come do not matter to the evaluation of a test,
    nor to a line that is not of a conditional. *)
Lemma eval_line_at c st K l : eval_line (at_ c st K) l = (at_ (fst (eval_line c l)) st K, snd (eval_line c l)).
Proof using. unfold eval_line. cbn [at_ set_lines set_state defs]. by destruct (t ← tokenize l; _) as [[]|]. Qed.

Lemma addlines_at c st K n : addlines (at_ c st K) n =
  (at_ (fst (addlines (at_ c [] []) n)) st (lines (fst (addlines (at_ c [] []) n)) ++ K), snd (addlines (at_ c [] []) n)).
Proof using.
  unfold addlines. cbn [at_ set_lines set_state count_files parse_cache].
  destruct (recursion_limit <? _); [done|]. destruct (parse_cache c !! _) as [lns|]; cbn; [by rewrite app_nil_r|].
  destruct (readf _); [|done]. cbn. unfold at_, set_lines, set_state. cbn. by rewrite app_nil_r.
Qed.

Lemma tryfind_at c st K f : tryfind (at_ c st K) f =
  (at_ (fst (tryfind (at_ c [] []) f)) st (lines (fst (tryfind (at_ c [] []) f)) ++ K), snd (tryfind (at_ c [] []) f)).
Proof using.
  unfold tryfind. cbn [at_ set_lines set_state currentnode_stack nodepaths nodes names].
  destruct (currentnode_stack c) as [|top stk]; [done|]. destruct (find_in _ f) as [found|]; [|done].
  destruct (endswith ".moc" f); [done|].
  set (c1 := mkParser [] (defs c) [] (count_files c) (top :: stk) (nodepaths c) (nodes c ++ [found]) (names c) f
    (ban_includes c) (parse_cache c)).
  exact (addlines_at c1 st K found).
Qed.

Lemma process_include_at c st K token l : process_include (at_ c st K) token l =
  (at_ (fst (process_include (at_ c [] []) token l)) st (lines (fst (process_include (at_ c [] []) token l)) ++ K),
   snd (process_include (at_ c [] []) token l)).
Proof using.
  unfold process_include. cbn [at_ set_lines set_state defs].
  destruct ('(i, d) ← extract_include fuel l (defs c); _) as [[inc d]|e]; [|done].
  cbn [set_defs ban_includes]. destruct (bool_decide (inc ∈ _)); [done|].
  destruct (token =s "import").
  - exact (tryfind_at (set_ban (set_defs c d) (ban_includes c ++ [inc])) st K inc).
  - exact (tryfind_at (set_defs c d) st K inc).
Qed.

Lemma process_kind_at c st K token l : plain token = true → process_kind (at_ c st K) token l =
  (at_ (fst (process_kind (at_ c [] []) token l)) st (lines (fst (process_kind (at_ c [] []) token l)) ++ K),
   snd (process_kind (at_ c [] []) token l)).
Proof using.
  intros (H1 & H2 & _)%plain_inv. unfold is_cond, is_branch in H1, H2. cbn [existsb] in H1, H2.
  apply orb_false_iff in H1 as [Hd [Hn [Hi _]%orb_false_iff]%orb_false_iff].
  apply orb_false_iff in H2 as [He [Hl _]%orb_false_iff].
  unfold process_kind. rewrite Hd, Hn, Hi, He, Hl.
  destruct (_ || _); [apply process_include_at|].
  destruct (token =s "define"); [by destruct (re_mac l)|]. destruct (token =s "undef"); [by destruct (re_mac l)|].
  destruct (token =s "pragma"); [|done]. by destruct (startswith _ _).
Qed.

Lemma step_plain c st K token l :
  plain token = true → dead st = false → snd (process_kind (at_ c [] []) token l) ≠ Some OutOfFuel →
  step (at_ c st ((token, l) :: K))
    (at_ (fst (process_kind (at_ c [] []) token l)) st (lines (fst (process_kind (at_ c [] []) token l)) ++ K)).
Proof using.
  intros Hp Hd He. pose proof Hp as (H1 & H2 & H3)%plain_inv. eapply step_line; [done| |exact He].
  unfold process_line. rewrite H1, (branch_endif _ H2), H2. cbn [negb andb at_ set_lines set_state state].
  rewrite Hd. by apply (process_kind_at c st K).
Qed.

(** The state a test leads to. *)
Definition test_state (r : res bool) : cstate :=
  match r with Ok true => accepted | Ok false => ignored | Err _ => undefined end.

Lemma step_cond c st K kind l c1 r :
  is_cond kind = true → dead st = false → cond c kind l = (c1, r) → r ≠ Err OutOfFuel →
  step (at_ c st ((kind, l) :: K)) (at_ c1 (test_state r :: st) K).
Proof using.
  intros Hk Hd Hc Hr.
  assert (Hb : is_branch kind = false ∧ kind ≠ POPFILE) by (apply cond_inv in Hk as [->|[->| ->]]; done).
  destruct Hb as [Hb Hpop].
  eapply step_line with (e := match r with Err x => Some x | Ok _ => None end); [done| |by destruct r as [|[]]; congruence].
  unfold process_line. rewrite Hk, Hb. cbn [negb andb at_ set_lines set_state state].
  rewrite dead_cons_live, Hd by auto. change (set_state (at_ c st K) (undefined :: st)) with (at_ c (undefined :: st) K).
  unfold cond in Hc. unfold process_kind.
  apply cond_inv in Hk as [->|[->| ->]]; cbn [String.eqb Ascii.eqb Bool.eqb] in *.
  - injection Hc as <- <-. by destruct (defined_name _ _).
  - injection Hc as <- <-. cbn [at_ set_lines set_state defs]. by destruct (defined_name _ _).
  - rewrite (eval_line_at c), Hc. cbn [fst snd]. by destruct r as [[]|x].
Qed.

Lemma step_else c s st K l :
  step (at_ c (s :: st) (("else", l) :: K))
    (at_ c ((match s with accepted => skipped | ignored => accepted | x => x end) :: st) K).
Proof using.
  eapply step_line with (e := None); [done| |done].
  unfold process_line. change (is_cond "else") with false. change (is_branch "else") with true.
  change ("else" =s "endif") with false. cbn [negb andb]. unfold process_kind. cbn [String.eqb Ascii.eqb Bool.eqb].
  cbn [orb at_ set_lines set_state state]. by destruct s.
Qed.

Lemma step_elif_not_ignored c s st K l : s ≠ ignored →
  step (at_ c (s :: st) (("elif", l) :: K)) (at_ c ((match s with accepted => skipped | x => x end) :: st) K).
Proof using.
  intros Hs. eapply step_line with (e := None); [done| |done].
  unfold process_line. change (is_cond "elif") with false. change (is_branch "elif") with true.
  change ("elif" =s "endif") with false. cbn [negb andb]. unfold process_kind. cbn [String.eqb Ascii.eqb Bool.eqb].
  cbn [orb at_ set_lines set_state state]. by destruct s.
Qed.

Lemma step_elif_ignored c st K l c1 r :
  eval_line c l = (c1, r) → r ≠ Err OutOfFuel →
  step (at_ c (ignored :: st) (("elif", l) :: K))
    (at_ c1 ((match r with Ok true => accepted | _ => ignored end) :: st) K).
Proof using.
  intros Hev Hr.
  eapply step_line with (e := match r with Err x => Some x | Ok _ => None end); [done| |by destruct r as [|[]]; congruence].
  unfold process_line. change (is_cond "elif") with false. change (is_branch "elif") with true.
  change ("elif" =s "endif") with false. cbn [negb andb]. unfold process_kind. cbn [String.eqb Ascii.eqb Bool.eqb orb].
  change (state (at_ c (ignored :: st) K)) with (ignored :: st). cbn iota.
  rewrite (eval_line_at c), Hev. cbn [fst snd]. by destruct r as [[]|x].
Qed.

Lemma step_endif c s st K e : step (at_ c (s :: st) (("endif", e) :: K)) (at_ c st K).
Proof using. by eapply step_line with (e := None). Qed.

(** The branches after one that was taken. *)
Lemma skip_arms a c st K : wf_arms a = true →
  ∃ s, rtc step (at_ c (accepted :: st) (flat_arms a ++ K)) (at_ c (s :: st) K).
Proof using.
  intros Hw. destruct a as [|l body|l body rest]; cbn [flat_arms wf_arms] in *.
  - exists accepted. apply rtc_refl.
  - exists skipped. cbn [app]. eapply rtc_l; [apply step_else|].
    apply (proj1 skip_dead_both); [done|by apply dead_top; left].
  - exists skipped. cbn [app]. rewrite <- app_assoc. apply andb_true_iff in Hw as [H1 H2].
    eapply rtc_l; [by apply step_elif_not_ignored|].
    etrans; [apply (proj1 skip_dead_both); [done|by apply dead_top; left]|].
    apply (proj2 skip_dead_both); [done|by left|by apply dead_top; left].
Qed.

Lemma exec_steps_all :
  (∀ b c c', exec b c c' → wf b = true → ∀ st K, dead st = false → rtc step (at_ c st (flat b ++ K)) (at_ c' st K)) ∧
  (∀ a c c', choose a c c' → wf_arms a = true → ∀ st K, dead st = false →
     ∃ s, rtc step (at_ c (ignored :: st) (flat_arms a ++ K)) (at_ c' (s :: st) K)) ∧
  (∀ a c c', every a c c' → wf_arms a = true → ∀ st K, dead st = false →
     rtc step (at_ c (undefined :: st) (flat_arms a ++ K)) (at_ c' (undefined :: st) K)).
Proof using.
  apply exec_arms_ind; cbn [flat flat_arms wf wf_arms].
  - intros c _ st K _. apply rtc_refl.
  - intros token l rest c c1 e c' Hk He Hl _ IH [Hp Hw]%andb_true_iff st K Hd. cbn [app].
    eapply rtc_l; [apply step_plain; [done|done|by rewrite Hk]|]. rewrite Hk. cbn [fst]. rewrite Hl. by apply IH.
  - intros token l rest c c1 file c2 top stk c' Hk Hl Hwf _ IHf Hs _ IH [Hp Hw]%andb_true_iff st K Hd. cbn [app].
    eapply rtc_l; [apply step_plain; [done|done|by rewrite Hk]|]. rewrite Hk. cbn [fst].
    rewrite Hl, <- app_assoc. cbn [app]. etrans; [by apply IHf|].
    eapply rtc_l; [|by apply (IH Hw)].
    exists (POPFILE, ""), (flat rest ++ K). split; [done|]. unfold process. cbn [fst snd]. cbn. by rewrite Hs.
  - intros kind l body a e rest c c1 c2 c' Hc _ IHb _ IHr [[[Hk Hw1]%andb_true_iff Hw2]%andb_true_iff Hw3]%andb_true_iff st K Hd.
    cbn [app]. rewrite <- !app_assoc. cbn [app].
    eapply rtc_l; [by eapply step_cond|]. cbn [test_state].
    etrans; [apply (IHb Hw1); by rewrite dead_cons_live; auto|].
    destruct (skip_arms a c2 st (("endif", e) :: flat rest ++ K) Hw2) as [s Hs]. etrans; [exact Hs|].
    eapply rtc_l; [apply step_endif|]. by apply IHr.
  - intros kind l body a e rest c c1 c2 c' Hc _ IHa _ IHr [[[Hk Hw1]%andb_true_iff Hw2]%andb_true_iff Hw3]%andb_true_iff st K Hd.
    cbn [app]. rewrite <- !app_assoc. cbn [app].
    eapply rtc_l; [by eapply step_cond|]. cbn [test_state].
    etrans; [apply (proj1 skip_dead_both); [done|by apply dead_top; right]|].
    destruct (IHa Hw2 st (("endif", e) :: flat rest ++ K) Hd) as [s Hs]. etrans; [exact Hs|].
    eapply rtc_l; [apply step_endif|]. by apply IHr.
  - intros kind l body a e rest c c1 x c2 c3 c' Hc Hx _ IHb _ IHa _ IHr
      [[[Hk Hw1]%andb_true_iff Hw2]%andb_true_iff Hw3]%andb_true_iff st K Hd.
    cbn [app]. rewrite <- !app_assoc. cbn [app].
    eapply rtc_l; [eapply step_cond; [done|done|done|congruence]|]. cbn [test_state].
    etrans; [apply (IHb Hw1); by rewrite dead_cons_live; auto|].
    etrans; [by apply (IHa Hw2)|].
    eapply rtc_l; [apply step_endif|]. by apply IHr.
  - intros c _ st K _. exists ignored. apply rtc_refl.
  - intros l body c c' _ IH Hw st K Hd. exists accepted. cbn [app].
    eapply rtc_l; [apply step_else|]. apply (IH Hw). by rewrite dead_cons_live; auto.
  - intros l body rest c c1 c' Hev _ IH [Hw1 Hw2]%andb_true_iff st K Hd. cbn [app]. rewrite <- app_assoc.
    destruct (skip_arms rest c' st K Hw2) as [s Hs]. exists s.
    eapply rtc_l; [by eapply step_elif_ignored|]. etrans; [|exact Hs].
    apply (IH Hw1). by rewrite dead_cons_live; auto.
  - intros l body rest c c1 c' Hev _ IH [Hw1 Hw2]%andb_true_iff st K Hd. cbn [app]. rewrite <- app_assoc.
    destruct (IH Hw2 st K Hd) as [s Hs]. exists s.
    eapply rtc_l; [by eapply step_elif_ignored|]. etrans; [|exact Hs].
    apply (proj1 skip_dead_both); [done|by apply dead_top; right].
  - intros l body rest c c1 x c' Hev Hx _ IH [Hw1 Hw2]%andb_true_iff st K Hd. cbn [app]. rewrite <- app_assoc.
    destruct (IH Hw2 st K Hd) as [s Hs]. exists s.
    eapply rtc_l; [eapply step_elif_ignored; [done|congruence]|]. etrans; [|exact Hs].
    apply (proj1 skip_dead_both); [done|by apply dead_top; right].
  - intros c _ st K _. apply rtc_refl.
  - intros l body c c' _ IH Hw st K Hd. cbn [app].
    eapply rtc_l; [apply step_else|]. apply (IH Hw). by rewrite dead_cons_live; auto.
  - intros l body rest c c1 c' _ IHb _ IHr [Hw1 Hw2]%andb_true_iff st K Hd. cbn [app]. rewrite <- app_assoc.
    eapply rtc_l; [by apply step_elif_not_ignored|].
    etrans; [apply (IHb Hw1); by rewrite dead_cons_live; auto|]. by apply IHr.
Qed.

Lemma steps_start_loop c c' : rtc step c c' → lines c' = [] → ∃ rounds, start_loop rounds c = Ok c'.
Proof using.
  induction 1 as [c|c c1 c' (kl & ls & Hl & Hp) _ IH]; intros Hend.
  - exists 0. cbn. by rewrite Hend.
  - destruct (IH Hend) as [r Hr]. exists (S r). cbn [start_loop]. by rewrite Hl, Hp.
Qed.

(** C8: The stack of states implements conditionals.  When the files have
    balanced conditionals, the loop ends in the state that running, of every
    conditional, the first branch whose test holds would give (all branches
    when the first test cannot be evaluated), nested files included. *)
Theorem start_refines_exec n c b c1 c' top st :
  addlines (at_ c [] []) n = (c1, None) → lines c1 = flat b ++ [(POPFILE, "")] → wf b = true →
  exec b c1 c' → currentnode_stack c' = top :: st →
  ∃ rounds, start rounds (at_ c [] []) n [] = Ok (at_ (set_stack c' st) [] []).
Proof using.
  intros Ha Hl Hw He Hs.
  assert (Hst : state c1 = []).
  { pose proof (addlines_at c [] [] n) as H1. rewrite Ha in H1. injection H1 as H1. by rewrite H1. }
  assert (Hrun : rtc step c1 (at_ (set_stack c' st) [] [])).
  { assert (c1 = at_ c1 [] (flat b ++ [(POPFILE, "")])) as -> by (destruct c1; cbn in *; by subst).
    eapply rtc_r; [by apply (proj1 exec_steps_all b _ _ He Hw)|].
    exists (POPFILE, ""), []. split; [done|]. unfold process. cbn. by rewrite Hs. }
  destruct (steps_start_loop _ _ Hrun eq_refl) as [r Hr]. exists r. unfold start. rewrite Ha. cbn [fmap list_fmap app].
  by destruct c1.
Qed.

End Fuel.
End Parser.
Arguments c_parser : clear implicits.

(** ** Examples *)

(** A file system of a few files: a node is its path. *)
Section Example.
Context (files : list (string * option string)).

Fixpoint dirname (s : string) : string :=
  match s with
  | EmptyString => EmptyString
  | String a s' => if str_mem "/" s then if (a =c "/") && negb (str_mem "/" s') then EmptyString else String a (dirname s')
                   else EmptyString
  end.
Definition ex_find (dir f : string) : option string :=
  let p := dir +:+ "/" +:+ f in if existsb (λ e, fst e =s p) files then Some p else None.
Definition ex_read (p : string) : option string :=
  match List.find (λ e, fst e =s p) files with Some (_, r) => r | None => None end.
End Example.

Definition ex_tree (files : list (string * option string)) : FileTree string := {|
  find_resource := ex_find files; node_parent := dirname; node_abspath := id; readf := ex_read files |}.

Definition join_nl (l : list string) : string := join nl_str l.
Definition qinclude (f : string) : string := "#include " +:+ String quote (f +:+ String quote "").

Definition ex_files : list (string * option string) :=
  [("/p/a.c", Some (join_nl ["#define X"; "#ifdef X"; qinclude "b.h"; "#else"; qinclude "no.h"; "#endif"]));
   ("/p/b.h", Some "#define Y 1")].

Definition ex_blocks : blocks :=
  BLine "define" "X"
    (BCond "ifdef" "X" (BLine "include" (String quote ("b.h" +:+ String quote "")) BNil)
       (AElse "" (BLine "include" (String quote ("no.h" +:+ String quote "")) BNil)) "" BNil).

#[local] Instance ex_inst : FileTree string := ex_tree ex_files.
Definition ex_start : c_parser string := at_ (new_parser [] ∅) [] [].

Lemma ex_exec : ∃ c', exec 50 ex_blocks (fst (addlines ex_start "/p/a.c")) c' ∧
  currentnode_stack c' = ["/p"] ∧ nodes c' = ["/p/b.h"] ∧ names c' = [].
Proof.
  eexists. split.
  { eapply ex_line; [vm_compute; reflexivity|done|reflexivity|].
    eapply ex_true; [vm_compute; reflexivity| |apply ex_nil].
    eapply (ex_include _ _ _ _ _ _ (BLine "define" "Y 1" BNil));
      [vm_compute; reflexivity|reflexivity|reflexivity
      |eapply ex_line; [vm_compute; reflexivity|done|reflexivity|apply ex_nil]|vm_compute; reflexivity|apply ex_nil]. }
  by vm_compute.
Qed.

Lemma start_refines_exec_witness :
  ∃ rounds c', start 50 rounds ex_start "/p/a.c" [] = Ok c' ∧ nodes c' = ["/p/b.h"] ∧ names c' = [].
Proof.
  destruct ex_exec as (c' & He & Hs & Hn & Hm).
  destruct (start_refines_exec 50 "/p/a.c" (new_parser [] ∅) ex_blocks (fst (addlines ex_start "/p/a.c")) c' "/p" [])
    as [r Hr]; [vm_compute; reflexivity..|exact He|exact Hs|].
  exists r. eexists. split; [exact Hr|]. by split.
Defined.

Lemma start_ends_witness :
  ∃ c', start 50 700 (new_parser [] ∅) "/p/a.c" [] = Ok c' ∧ lines c' = [].
Proof.
  assert (HM : ∀ p code, readf p = Some code → length (filter_comments code) < 6 + 1).
  { intros p code. cbn [readf ex_inst ex_tree]. unfold ex_read.
    destruct (List.find _ ex_files) as [[q r]|] eqn:E; [|done]. intros ->.
    apply find_some in E as [Hin _]. apply list_elem_of_In in Hin.
    unfold ex_files in Hin. rewrite !elem_of_cons in Hin.
    destruct Hin as [[= _ ->]|[[= _ ->]|Hin]]; [vm_compute; lia|vm_compute; lia|by apply not_elem_of_nil in Hin]. }
  assert (Hr : 0 + 7 * 100 ≤ 700) by lia.
  assert (Hc : cache_ok 7 (new_parser (node := string) [] ∅)) by by intros p ls.
  destruct (start_ends 50 7 HM 700 (new_parser [] ∅) "/p/a.c" [] Hc eq_refl eq_refl eq_refl Hr) as [(c' & Ho & Hl)|[Ho|[Ho _]]].
  - exists c'. split; assumption.
  - exfalso. vm_compute in Ho. discriminate Ho.
  - exfalso. vm_compute in Ho. discriminate Ho.
Defined.

(** A file that is found and cannot be read leaves its folder on the stack:
    the next include of the including file is looked up there.  Here [x.h] of
    [/p] is meant, and [/p/s/x.h] is found. *)
Theorem unreadable_include_moves_lookup :
  let tree := ex_tree [("/p/a.c", Some (join_nl [qinclude "s/gone.h"; qinclude "x.h"])); ("/p/x.h", Some "");
                       ("/p/s/gone.h", None); ("/p/s/x.h", Some "")] in
  get_deps (H := tree) 50 40 "/p/a.c" [] [] ∅ = Ok (["/p/s/gone.h"; "/p/s/x.h"], []).
Proof. by vm_compute. Qed.
