(* ===== verification/PyState.v ===== *)
(** * State and exceptions

    Methods that change objects and may raise: a computation takes the state and
    gives a value or an exception, with the state so far.  An exception keeps
    the changes made before it, as in Python. *)
From S2P Require Import Prelude.

Definition ST (S A : Type) : Type := S → res A * S.

#[export] Instance ST_ret {S} : MRet (ST S) := λ A a s, (Ok a, s).
#[export] Instance ST_bind {S} : MBind (ST S) := λ A B f m s,
  match m s with
  | (Ok a, s') => f a s'
  | (Err e, s') => (Err e, s')
  end.

Definition gets {S A} (f : S → A) : ST S A := λ s, (Ok (f s), s).
Definition modify {S} (f : S → S) : ST S unit := λ s, (Ok tt, f s).
Definition throw {S A} (e : exn) : ST S A := λ s, (Err e, s).
(** A computation without effect. *)
Definition lift {S A} (r : res A) : ST S A := λ s, (r, s).
(** [try]: the exception becomes a value. *)
Definition attempt {S A} (m : ST S A) : ST S (res A) := λ s, let '(r, s') := m s in (Ok r, s').

Fixpoint for_each {S A} (f : A → ST S unit) (l : list A) : ST S unit :=
  match l with
  | [] => mret tt
  | x :: l' => f x;; for_each f l'
  end.

(** ** Taking a run apart *)

Lemma st_bind {S A B} (m : ST S A) (f : A → ST S B) s :
  (x ← m; f x) s = match m s with (Ok a, s') => f a s' | (Err e, s') => (Err e, s') end.
Proof. done. Qed.

Lemma st_bind_Ok {S A B} (m : ST S A) (f : A → ST S B) s b s' :
  (x ← m; f x) s = (Ok b, s') ↔ ∃ a s1, m s = (Ok a, s1) ∧ f a s1 = (Ok b, s').
Proof. rewrite st_bind. destruct (m s) as [[a|e] s1]; naive_solver. Qed.

Lemma st_bind_Err {S A B} (m : ST S A) (f : A → ST S B) s e s' :
  (x ← m; f x) s = (Err e, s') ↔
  m s = (Err e, s') ∨ ∃ a s1, m s = (Ok a, s1) ∧ f a s1 = (Err e, s').
Proof. rewrite st_bind. destruct (m s) as [[a|e'] s1]; naive_solver. Qed.

Lemma st_bind_run {S A B} (m : ST S A) (f : A → ST S B) s a s1 :
  m s = (Ok a, s1) → (x ← m; f x) s = f a s1.
Proof. rewrite st_bind. by intros ->. Qed.

Lemma for_each_app {S A} (f : A → ST S unit) l1 l2 s :
  for_each f (l1 ++ l2) s = (for_each f l1;; for_each f l2) s.
Proof.
  revert s. induction l1 as [|x l1 IH]; intros s; [done|]. cbn [app for_each]. rewrite !st_bind.
  destruct (f x s) as [[?|?] s1]; [|done]. apply IH.
Qed.

(** A property that each round keeps. *)
Lemma for_each_inv {S A} (f : A → ST S unit) (I : S → Prop) l s r s' :
  (∀ x s r s', x ∈ l → I s → f x s = (r, s') → I s') → I s → for_each f l s = (r, s') → I s'.
Proof.
  revert s. induction l as [|x l IH]; intros s Hf Hs; cbn [for_each]; [by intros [= _ <-]|].
  rewrite st_bind. destruct (f x s) as [[[]|e] s1] eqn:E.
  - apply IH; [|by eapply Hf; [left| |]]. intros y s2 r2 s3 Hy. apply Hf. by right.
  - intros [= _ <-]. by eapply Hf; [left| |].
Qed.

(** Take a successful run apart. *)
Ltac st_inv :=
  repeat match goal with
  | H : (mbind _ _) _ = (Ok _, _) |- _ =>
      let a := fresh "a" in let s1 := fresh "st" in let Ha := fresh "Ha" in
      apply st_bind_Ok in H as (a & s1 & Ha & H)
  | H : gets _ _ = (_, _) |- _ => unfold gets in H; injection H as <- <-
  | H : modify _ _ = (_, _) |- _ => unfold modify in H; injection H as <- <-
  | H : mret _ _ = (_, _) |- _ => injection H as <- <-
  | H : throw _ _ = (_, _) |- _ => discriminate H
  end.

(** ** What a computation keeps

    From a state with [I], the computation ends in one with [I] that is related to the
    first by [R], and what it raises is in [P]. *)
Definition keeps {S A} (I : S → Prop) (R : S → S → Prop) (P : exn → Prop) (m : ST S A) : Prop :=
  ∀ s r s', I s → m s = (r, s') → I s' ∧ R s s' ∧ ∀ e, r = Err e → P e.

Section Keeps.
Context {S : Type} (I : S → Prop) (R : S → S → Prop) (P : exn → Prop) `{!PreOrder R}.

Lemma keeps_ret {A} (a : A) : keeps I R P (mret a : ST S A).
Proof. intros s r s' Hs [= <- <-]. by split_and!. Qed.
Lemma keeps_bind {A B} (m : ST S A) (f : A → ST S B) :
  keeps I R P m → (∀ a, keeps I R P (f a)) → keeps I R P (x ← m; f x).
Proof.
  intros Hm Hf s r s' Hs. rewrite st_bind. destruct (m s) as [[a|e] s1] eqn:E; destruct (Hm _ _ _ Hs E) as (Hs1 & H1 & He).
  - intros Hr. destruct (Hf a _ _ _ Hs1 Hr) as (? & ? & ?). split_and!; [done|by etrans|done].
  - intros [= <- <-]. split_and!; [done|done|]. intros e' [= <-]. by apply He.
Qed.
Lemma keeps_gets {A} (f : S → A) : keeps I R P (gets f).
Proof. intros s r s' Hs [= <- <-]. by split_and!. Qed.
Lemma keeps_throw {A} e : P e → keeps I R P (throw e : ST S A).
Proof. intros He s r s' Hs [= <- <-]. split_and!; [done|done|]. by intros e' [= <-]. Qed.
Lemma keeps_lift {A} (r : res A) : (∀ e, r = Err e → P e) → keeps I R P (lift r : ST S A).
Proof. intros Hr s r' s' Hs [= <- <-]. by split_and!. Qed.
Lemma keeps_modify f : (∀ s, I s → I (f s) ∧ R s (f s)) → keeps I R P (modify f).
Proof. intros Hf s r s' Hs [= <- <-]. destruct (Hf s Hs). by split_and!. Qed.
Lemma keeps_for_each {A} (f : A → ST S unit) l : (∀ x, x ∈ l → keeps I R P (f x)) → keeps I R P (for_each f l).
Proof.
  induction l as [|x l IH]; intros Hf; cbn [for_each]; [apply keeps_ret|]. apply keeps_bind; [apply Hf; set_solver|].
  intros _. apply IH. intros y Hy. apply Hf. set_solver.
Qed.

(** The same for the run from a given state. *)
Definition keeps_at (s : S) {A} (m : ST S A) : Prop := ∀ r s', m s = (r, s') → I s' ∧ R s s' ∧ ∀ e, r = Err e → P e.
Lemma keeps_at_keeps s {A} (m : ST S A) : I s → keeps I R P m → keeps_at s m.
Proof. intros Hs Hm r s' E. by eapply Hm. Qed.
Lemma keeps_at_bind s {A B} (m : ST S A) (f : A → ST S B) :
  keeps_at s m → (∀ a s1, I s1 → R s s1 → m s = (Ok a, s1) → keeps_at s1 (f a)) → keeps_at s (x ← m; f x).
Proof.
  intros Hm Hf r s' . rewrite st_bind. destruct (m s) as [[a|e] s1] eqn:E; destruct (Hm _ _ E) as (Hs1 & H1 & He).
  - intros Hr. destruct (Hf a _ Hs1 H1 eq_refl _ _ Hr) as (? & ? & ?). split_and!; [done|by etrans|done].
  - intros [= <- <-]. split_and!; [done|done|]. intros e' [= <-]. by apply He.
Qed.
Lemma keeps_at_gets s {A B} (g : S → A) (f : A → ST S B) : keeps_at s (f (g s)) → keeps_at s (x ← gets g; f x).
Proof. done. Qed.
Lemma keeps_at_ret s {A} (a : A) : I s → keeps_at s (mret a).
Proof. intros Hs. by apply keeps_at_keeps, keeps_ret. Qed.
Lemma keeps_at_throw s {A} e : I s → P e → keeps_at s (throw e : ST S A).
Proof. intros Hs He. by apply keeps_at_keeps, keeps_throw. Qed.
Lemma keeps_at_modify s f : I (f s) → R s (f s) → keeps_at s (modify f).
Proof. intros HI HR r s' [= <- <-]. by split_and!. Qed.
End Keeps.
