(* ===== verification/WafNode.v ===== *)
(** * Nodes of the build tree (tools/wafadmin/Node.py, tools/wafadmin/Build.py)

    A node stands for a file or a folder; the low bits of its id are its type.
    The build keeps the tree, the signatures of files, and what it knows of the
    folders it has listed.  The file system (listing, hashing, folder tests) is a
    parameter.  Absolute paths are computed each time: the cache of the source
    holds the same strings, since the name and the parent of a node never
    change. *)
From S2P Require Import Prelude PyStr.

Definition UNDEFINED : Z := 0.
Definition DIR : Z := 1.
Definition FILE : Z := 2.
Definition BUILD : Z := 3.

(** [childs] is an attribute of folders only. *)
Record Node := mkNode { name : string; parent : option Z; childs : option (gmap string Z) }.

(** Signatures are kept per variant; the sources have the variant 0, here
    [None]. *)
Notation variant_id := (option string).
Record BuildContext := mkBuild {
  id_nodes : Z;
  nodes : gmap Z Node;
  node_sigs : gmap variant_id (gmap Z string);
  cache_dir_contents : gmap Z (gset string);
  cache_scanned_folders : gset Z;
  lst_variants : list string;
  root : Z;
  srcnode : Z;
  bldnode : Z }.

(** [id & 3] *)
Definition get_type (i : Z) : Z := Z.land i 3.
(** [set_type]: [&] binds less tightly than [+] and [-]. *)
Definition set_type (i t : Z) : Z := Z.land (i + t - i) 3.

Definition with_nodes (b : BuildContext) n := mkBuild (id_nodes b) n (node_sigs b) (cache_dir_contents b)
  (cache_scanned_folders b) (lst_variants b) (root b) (srcnode b) (bldnode b).
Definition with_sigs (b : BuildContext) s := mkBuild (id_nodes b) (nodes b) s (cache_dir_contents b)
  (cache_scanned_folders b) (lst_variants b) (root b) (srcnode b) (bldnode b).
Definition with_contents (b : BuildContext) c := mkBuild (id_nodes b) (nodes b) (node_sigs b) c
  (cache_scanned_folders b) (lst_variants b) (root b) (srcnode b) (bldnode b).
Definition with_scanned (b : BuildContext) s := mkBuild (id_nodes b) (nodes b) (node_sigs b) (cache_dir_contents b)
  s (lst_variants b) (root b) (srcnode b) (bldnode b).

(** ** Attributes *)

Definition name_of (b : BuildContext) (i : Z) : string :=
  match nodes b !! i with Some n => name n | None => "" end.
Definition parent_of (b : BuildContext) (i : Z) : option Z := n ← nodes b !! i; parent n.
(** [node.childs], an AttributeError for a file. *)
Definition childs_of (b : BuildContext) (i : Z) : res (gmap string Z) :=
  match nodes b !! i with
  | Some (mkNode _ _ (Some c)) => Ok c
  | _ => Err AttributeError
  end.
Definition set_childs (b : BuildContext) (i : Z) (c : gmap string Z) : BuildContext :=
  with_nodes b (alter (λ n, mkNode (name n) (parent n) (Some c)) i (nodes b)).

Definition set_sig (b : BuildContext) (v : variant_id) (i : Z) (s : string) : BuildContext :=
  with_sigs b (<[v := <[i := s]> (default ∅ (node_sigs b !! v))]> (node_sigs b)).
Definition del_sig (b : BuildContext) (v : variant_id) (i : Z) : BuildContext :=
  with_sigs b (alter (delete i) v (node_sigs b)).
Definition get_sig (b : BuildContext) (v : variant_id) (i : Z) : option string :=
  sigs ← node_sigs b !! v; sigs !! i.

(** [Node.__init__]: the id is taken before the name is checked. *)
Definition take_id (b : BuildContext) : BuildContext :=
  mkBuild (id_nodes b + 4) (nodes b) (node_sigs b) (cache_dir_contents b) (cache_scanned_folders b)
    (lst_variants b) (root b) (srcnode b) (bldnode b).
Definition new_node (b : BuildContext) (nm : string) (par : option Z) (node_type : Z) : res Z * BuildContext :=
  let i := (id_nodes b + 4 + node_type)%Z in
  let b := take_id b in
  let n := mkNode nm par (if (node_type =? DIR)%Z then Some ∅ else None) in
  match par with
  | None => (Ok i, with_nodes b (<[i := n]> (nodes b)))
  | Some p =>
      match childs_of b p with
      | Err e => (Err e, b)
      | Ok c =>
          match c !! nm with
          | Some _ => (Err (WafError "node exists already"), b)
          | None => (Ok i, set_childs (with_nodes b (<[i := n]> (nodes b))) p (<[nm := i]> c))
          end
      end
  end.

Definition typed_child (t : Z) (b : BuildContext) (i : Z) (nm : string) : res (option Z) :=
  c ← childs_of b i;
  Ok (match c !! nm with Some x => if (get_type x =? t)%Z then Some x else None | None => None end).
Definition get_dir := typed_child DIR.
Definition get_file := typed_child FILE.
Definition get_build := typed_child BUILD.

Definition typed_childs (t : Z) (b : BuildContext) (i : Z) : res (list Z) :=
  c ← childs_of b i; Ok (filter (λ x, get_type x = t) (snd <$> map_to_list c)).
Definition dirs := typed_childs DIR.
Definition files := typed_childs FILE.

(** ** Positions in the tree

    The loops go up; a parent is older than its children, so its id is smaller
    and the id bounds the number of rounds. *)
Definition up_fuel (i : Z) : nat := S (Z.to_nat i).

Fixpoint height_loop (fuel : nat) (b : BuildContext) (d : option Z) (val : Z) : Z :=
  match fuel, d with
  | S f, Some i => height_loop f b (parent_of b i) (val + 1)
  | _, _ => val
  end.
Definition height (b : BuildContext) (i : Z) : Z := height_loop (up_fuel i) b (Some i) (-1).

(** [p = p.parent], [n] times; None raises when it is used again. *)
Fixpoint climb (b : BuildContext) (n : nat) (i : Z) : option Z :=
  match n with
  | 0 => Some i
  | S n' => p ← parent_of b i; climb b n' p
  end.

Fixpoint path_loop (b : BuildContext) (n : nat) (p : Z) (lst : list string) : res (list string) :=
  match n with
  | 0 => Ok lst
  | S n' => match parent_of b p with
            | Some q => path_loop b n' q (lst ++ [name_of b p])
            | None => match n' with 0 => Ok (lst ++ [name_of b p]) | _ => Err AttributeError end
            end
  end.

Definition os_path_join2 (x y : string) : string :=
  if startswith "/" y then y else if (x =s "") || endswith "/" x then x +:+ y else x +:+ "/" +:+ y.
Definition os_path_join (l : list string) : string :=
  match l with [] => "" | x :: l' => fold_left os_path_join2 l' x end.

Definition path_to_parent (b : BuildContext) (i par : Z) : res string :=
  lst ← path_loop b (Z.to_nat (height b i - height b par)) i [];
  Ok (os_path_join (rev lst)).

(** The loop of [find_ancestor] at the same height. *)
Fixpoint ancestor_loop (fuel : nat) (b : BuildContext) (cand cursor : Z) : res (option Z) :=
  match fuel with
  | 0 => Err OutOfFuel
  | S f =>
      match parent_of b cand, parent_of b cursor with
      | None, _ => Ok None
      | Some _, None => Err AttributeError
      | Some c, Some d => if (c =? d)%Z then Ok (Some c) else ancestor_loop f b c d
      end
  end.
Definition find_ancestor_from (b : BuildContext) (self node : Z) : res (option Z) :=
  match climb b (Z.to_nat (height b self - height b node)) self with
  | None => Err AttributeError
  | Some cand => if (cand =? node)%Z then Ok (Some cand) else ancestor_loop (up_fuel cand) b cand node
  end.
Definition find_ancestor (b : BuildContext) (self node : Z) : res (option Z) :=
  if (height b self - height b node <? 0)%Z then find_ancestor_from b node self
  else find_ancestor_from b self node.

(** The two loops of [relpath_gen], up to the ancestor. *)
Fixpoint relpath_loop (fuel : nat) (b : BuildContext) (f : Z → string) (cand ancestor : Z) : res (list string) :=
  match fuel with
  | 0 => Err OutOfFuel
  | S fl =>
      if (cand =? ancestor)%Z then Ok []
      else match parent_of b cand with
           | Some p => l ← relpath_loop fl b f p ancestor; Ok (f cand :: l)
           | None => Err AttributeError
           end
  end.
Definition relpath_list (b : BuildContext) (self from_node : Z) : res (list string) :=
  if (self =? from_node)%Z then Ok ["."]
  else if bool_decide (parent_of b from_node = Some self) then Ok [".."]
  else
    a ← find_ancestor b self from_node;
    match a with
    | None => Err AttributeError
    | Some ancestor =>
        l1 ← relpath_loop (up_fuel self) b (name_of b) self ancestor;
        l2 ← relpath_loop (up_fuel from_node) b (λ _, "..") from_node ancestor;
        Ok (rev (l1 ++ l2))
    end.
Definition relpath_gen (b : BuildContext) (self from_node : Z) : res string :=
  l ← relpath_list b self from_node; Ok (join "/" l).

Definition is_child_of (b : BuildContext) (self node : Z) : bool :=
  bool_decide (climb b (Z.to_nat (height b self - height b node)) self = Some node).

(** [variant(env)], for an environment that is given. *)
Definition node_variant (i : Z) (env_variant : string) : variant_id :=
  if (get_type i =? FILE)%Z then None else Some env_variant.

(** ** Paths *)

(** [abspath()] in the source tree, on posix. *)
Fixpoint src_abspath (fuel : nat) (b : BuildContext) (i : Z) : string :=
  match fuel with
  | 0 => ""
  | S f =>
      match parent_of b i with
      | None => "/"
      | Some p => if name_of b p =s "" then "/" +:+ name_of b i else src_abspath f b p +:+ "/" +:+ name_of b i
      end
  end.
Definition abspath0 (b : BuildContext) (i : Z) : string := src_abspath (up_fuel i) b i.

(** [abspath(env)]: [v] is [env.variant()], if an environment is given. *)
Definition abspath (b : BuildContext) (i : Z) (v : option string) : res string :=
  match v with
  | Some v => if (get_type i =? FILE)%Z || (v =s "") then Ok (abspath0 b i)
              else p ← path_to_parent b i (srcnode b); Ok (join "/" [abspath0 b (bldnode b); v; p])
  | None => Ok (abspath0 b i)
  end.

Definition bldpath (b : BuildContext) (i : Z) (v : string) : res string :=
  if (get_type i =? FILE)%Z then relpath_gen b i (bldnode b)
  else p ← path_to_parent b i (srcnode b);
       Ok (if p =s "" then v else v +:+ "/" +:+ p).
Definition srcpath (b : BuildContext) (i : Z) (v : string) : res string :=
  if (get_type i =? BUILD)%Z then bldpath b i v else relpath_gen b i (bldnode b).

(** The position of the last dot. *)
Fixpoint rfind_dot (s : string) : option nat :=
  match s with
  | EmptyString => None
  | String a s' => match rfind_dot s' with
                   | Some k => Some (S k)
                   | None => if a =c "." then Some 0 else None
                   end
  end.
Definition changed_name (nm ext : string) : string :=
  match rfind_dot nm with Some k => str_take k nm +:+ ext | None => nm +:+ ext end.
Definition suffix (b : BuildContext) (i : Z) : string :=
  str_drop (default 0 (rfind_dot (name_of b i))) (name_of b i).
Definition src_dir (b : BuildContext) (i : Z) (v : string) : res string :=
  match parent_of b i with Some p => srcpath b p v | None => Err AttributeError end.
Definition bld_dir (b : BuildContext) (i : Z) (v : string) : res string :=
  match parent_of b i with Some p => bldpath b p v | None => Err AttributeError end.

(** ** Looking at the disk *)

(** What the build asks of the file system. *)
Class FileSystem := {
  listdir : string → option (list string);
  h_file : string → option string;
  isdir : string → bool }.

Section Build.
Context `{FileSystem}.

(** [BuildContext.listdir_bld] *)
Definition listdir_bld (b : BuildContext) (parent_node : Z) (path v : string) : res BuildContext :=
  c ← childs_of b parent_node;
  match listdir path with
  | None => Err OSError
  | Some l =>
      let existing := filter (λ x, get_type x = BUILD) (snd <$> map_to_list c) in
      let ids_to_remove := filter (λ x, name_of b x ∉ l) existing in
      match node_sigs b !! Some v with
      | None => Err KeyError
      | Some _ => Ok (fold_left (λ b x, del_sig b (Some v) x) ids_to_remove b)
      end
  end.

(** The loop over the children in [rescan]: hash the sources that exist, forget
    the others. *)
Definition rescan_child (dir : Z) (lst : list string) (b : BuildContext) (x : Z) : res BuildContext :=
  if negb (get_type x =? FILE)%Z then Ok b
  else if bool_decide (name_of b x ∈ lst) then
    match h_file (abspath0 b x) with
    | Some s => Ok (set_sig b None x s)
    | None => Err (WafError "The file is not readable or has become a dir")
    end
  else
    let b := del_sig b None x in
    c ← childs_of b dir; Ok (set_childs b dir (delete (name_of b x) c)).

(** A listing of a build folder failed: forget its nodes, in all variants. *)
Definition forget_build (dir : Z) (b : BuildContext) (x : Z) : res BuildContext :=
  if negb (get_type x =? BUILD)%Z then Ok b
  else
    let b := with_sigs b ((delete x) <$> node_sigs b) in
    c ← childs_of b dir; Ok (set_childs b dir (delete (name_of b x) c)).

(** The loop over the variants; the build so far is kept when a listing
    fails. *)
Fixpoint list_variants (b : BuildContext) (dir : Z) (bldpath : string) (lst : list string) (vs : list string)
    : BuildContext * option exn :=
  match vs with
  | [] => (b, None)
  | v :: vs' =>
      match listdir_bld b dir (os_path_join (bldpath :: v :: lst)) v with
      | Ok b' => list_variants b' dir bldpath lst vs'
      | Err e => (b, Some e)
      end
  end.

(** [BuildContext.rescan] *)
Definition rescan (b : BuildContext) (dir : Z) : res BuildContext :=
  if bool_decide (dir ∈ cache_scanned_folders b) then Ok b
  else
    let b := with_scanned b ({[dir]} ∪ cache_scanned_folders b) in
    let lst := default [] (listdir (abspath0 b dir)) in
    let b := with_contents b (<[dir := list_to_set lst]> (cache_dir_contents b)) in
    c ← childs_of b dir;
    b ← res_fold (rescan_child dir lst) (snd <$> map_to_list c) b;
    sub ← path_loop b (Z.to_nat (height b dir - height b (srcnode b))) dir [];
    let '(b, e) := list_variants b dir (abspath0 b (bldnode b)) (rev sub) (lst_variants b) in
    match e with
    | None => Ok b
    | Some OSError =>
        c ← childs_of b dir;
        res_fold (forget_build dir) (snd <$> map_to_list c) b
    | Some e => Err e
    end.

(** [find_dir], over the list of names.  An exception of [rescan] gives no state, here and in
    the other functions on nodes. *)
Fixpoint find_dir (b : BuildContext) (current : Z) (lst : list string) : res (option Z * BuildContext) :=
  match lst with
  | [] => Ok (Some current, b)
  | nm :: lst' =>
      b ← rescan b current;
      if (bool_decide (parent_of b current = None) && (nm =s name_of b current)) || (nm =s "") || (nm =s ".") then
        find_dir b current lst'
      else if nm =s ".." then find_dir b (default current (parent_of b current)) lst'
      else
        c ← childs_of b current;
        match c !! nm with
        | Some i => if (get_type i =? DIR)%Z then find_dir b i lst' else Ok (None, b)
        | None =>
            if bool_decide (nm ∈ default ∅ (cache_dir_contents b !! current)) then
              let dirname := if name_of b current =s "" then "/" +:+ nm else abspath0 b current +:+ "/" +:+ nm in
              if isdir dirname then
                let '(r, b) := new_node b nm (Some current) DIR in
                i ← r; find_dir b i lst'
              else Ok (None, b)
            else if ((name_of b current =s "") && (String.length nm =? 2) &&
                     bool_decide (str_get 1 nm = Some ":"%char)) || startswith "\\" nm then
              let '(r, b) := new_node b nm (Some current) DIR in
              i ← r; find_dir b i lst'
            else Ok (None, b)
        end
  end.

(** The folder of a path: the node itself for a plain name. *)
Definition find_parent (b : BuildContext) (self : Z) (lst : list string) : res (option Z * BuildContext) :=
  match lst with
  | [_] => Ok (Some self, b)
  | _ => find_dir b self (removelast lst)
  end.
Definition last_name (lst : list string) : res string :=
  match last lst with Some nm => Ok nm | None => Err IndexError end.

Definition find_resource (b : BuildContext) (self : Z) (lst : list string) : res (option Z * BuildContext) :=
  '(p, b) ← find_parent b self lst;
  match p with
  | None => Ok (None, b)
  | Some par =>
      b ← rescan b par;
      nm ← last_name lst;
      c ← childs_of b par;
      match c !! nm with
      | Some i => Ok (if (get_type i =? FILE)%Z || (get_type i =? BUILD)%Z then Some i else None, b)
      | None =>
          match cache_dir_contents b !! par with
          | None => Err KeyError
          | Some cont =>
              if bool_decide (nm ∉ cont) then Ok (None, b)
              else
                match h_file (abspath0 b par +:+ "/" +:+ nm) with
                | None => Ok (None, b)
                | Some st =>
                    let '(r, b) := new_node b nm (Some par) FILE in
                    i ← r; Ok (Some i, set_sig b None i st)
                end
          end
      end
  end.

Definition find_or_declare (b : BuildContext) (self : Z) (lst : list string) : res (option Z * BuildContext) :=
  '(p, b) ← find_parent b self lst;
  match p with
  | None => Ok (None, b)
  | Some par =>
      b ← rescan b par;
      nm ← last_name lst;
      c ← childs_of b par;
      match c !! nm with
      | Some i => if (get_type i =? BUILD)%Z then Ok (Some i, b)
                  else Err (WafError "find_or_declare cannot return a build node")
      | None => let '(r, b) := new_node b nm (Some par) BUILD in i ← r; Ok (Some i, b)
      end
  end.

Fixpoint ensure_dir_node_from_path (b : BuildContext) (current : Z) (lst : list string) : res (Z * BuildContext) :=
  match lst with
  | [] => Ok (current, b)
  | nm :: lst' =>
      if (nm =s "") || (nm =s ".") then ensure_dir_node_from_path b current lst'
      else if nm =s ".." then ensure_dir_node_from_path b (default current (parent_of b current)) lst'
      else
        c ← childs_of b current;
        match c !! nm with
        | Some i => ensure_dir_node_from_path b i lst'
        | None => let '(r, b) := new_node b nm (Some current) DIR in i ← r; ensure_dir_node_from_path b i lst'
        end
  end.

Definition change_ext (b : BuildContext) (i : Z) (ext : string) : res (option Z * BuildContext) :=
  match parent_of b i with
  | Some p => find_or_declare b p [changed_name (name_of b i) ext]
  | None => Err AttributeError
  end.

(** [exclusive_build_node]: an OSError of the search is ignored. *)
Definition exclusive_build_node (b : BuildContext) (self : Z) (path : string) : res (Z * BuildContext) :=
  let lst := split_on "/" path in
  nm ← last_name lst;
  '(par, b) ←
    match lst with
    | [_] => Ok (self, b)
    | _ =>
        '(p, b) ← find_dir b self (removelast lst);
        match p with
        | Some p => b ← rescan b p; Ok (p, b)
        | None => '(p, b) ← ensure_dir_node_from_path b self (removelast lst); b ← rescan b p; Ok (p, b)
        end
    end;
  c ← childs_of b par;
  match c !! nm with
  | Some i => Ok (i, b)
  | None => let '(r, b) := new_node b nm (Some par) BUILD in i ← r; Ok (i, b)
  end.
End Build.

(** ** Well-formed trees *)

(** A parent is an older folder; a child has the name it is listed under and
    its folder as parent; the type in the id says which nodes are folders. *)
Record tree_ok (b : BuildContext) : Prop := {
  tk_next : (0 <= id_nodes b)%Z ∧ Z.land (id_nodes b) 3 = 0%Z;
  tk_id : ∀ i, is_Some (nodes b !! i) → (0 < i < id_nodes b + 4)%Z;
  tk_parent : ∀ i p, parent_of b i = Some p → (p < i)%Z ∧ is_ok (childs_of b p) = true;
  tk_child : ∀ p c nm i, childs_of b p = Ok c → c !! nm = Some i → parent_of b i = Some p ∧ name_of b i = nm;
  tk_type : ∀ i n, nodes b !! i = Some n → is_Some (childs n) ↔ get_type i = DIR }.

Lemma childs_node b p c : childs_of b p = Ok c ↔ ∃ n, nodes b !! p = Some n ∧ childs n = Some c.
Proof.
  unfold childs_of. destruct (nodes b !! p) as [[n q [c'|]]|]; split.
  - intros [= <-]. eauto.
  - intros (? & [= <-] & [= <-]). done.
  - done.
  - intros (? & [= <-] & [=]).
  - done.
  - intros (? & [=] & _).
Qed.

Lemma parent_node b i p : parent_of b i = Some p ↔ ∃ n, nodes b !! i = Some n ∧ parent n = Some p.
Proof. unfold parent_of. destruct (nodes b !! i) as [n|]; cbn; split; naive_solver. Qed.

Lemma parent_exists b i p : tree_ok b → parent_of b i = Some p → is_Some (nodes b !! i) ∧ is_Some (nodes b !! p).
Proof.
  intros Hok Hp. pose proof (tk_parent b Hok i p Hp) as [_ Hc]. apply parent_node in Hp as (n & -> & _).
  split; [eauto|]. unfold childs_of in Hc. destruct (nodes b !! p); [eauto|done].
Qed.

(** A change of the children of one folder. *)
Lemma set_childs_nodes b p c i :
  nodes (set_childs b p c) !! i =
    if decide (i = p) then (λ n, mkNode (name n) (parent n) (Some c)) <$> nodes b !! i else nodes b !! i.
Proof.
  cbn [set_childs with_nodes nodes]. case_decide as Hd; [subst; apply lookup_alter_eq|].
  apply lookup_alter_ne. congruence.
Qed.

Lemma set_childs_parent b p c i : parent_of (set_childs b p c) i = parent_of b i.
Proof. unfold parent_of. rewrite set_childs_nodes. case_decide; [|done]. by destruct (nodes b !! i). Qed.
Lemma set_childs_name b p c i : name_of (set_childs b p c) i = name_of b i.
Proof. unfold name_of. rewrite set_childs_nodes. case_decide; [|done]. by destruct (nodes b !! i). Qed.
Lemma set_childs_childs b p c i : is_ok (childs_of b p) = true →
  childs_of (set_childs b p c) i = if decide (i = p) then Ok c else childs_of b i.
Proof.
  intros Hc. unfold childs_of in *. rewrite set_childs_nodes. case_decide as Hd; [|done]. subst.
  by destruct (nodes b !! p).
Qed.

Lemma set_childs_ok b p c :
  tree_ok b → is_ok (childs_of b p) = true →
  (∀ nm i, c !! nm = Some i → parent_of b i = Some p ∧ name_of b i = nm) → tree_ok (set_childs b p c).
Proof.
  intros [Hn Hi Hp Hc Ht] Hok Hnew. split.
  - done.
  - intros i. rewrite set_childs_nodes. case_decide; [rewrite fmap_is_Some|]; apply Hi.
  - intros i q. rewrite set_childs_parent. intros Hq. apply Hp in Hq as [? Hq]. split; [done|].
    rewrite set_childs_childs by done. by case_decide.
  - intros q c' nm i. rewrite set_childs_childs, set_childs_parent, set_childs_name by done.
    case_decide; [intros [= <-]; subst; apply Hnew|apply Hc].
  - intros i n. rewrite set_childs_nodes. case_decide as Hd; [|apply Ht].
    destruct (nodes b !! i) as [n0|] eqn:E; [|done]. intros [= <-]. cbn.
    rewrite <- (Ht i n0 E). subst. split; [|eauto]. intros _.
    unfold childs_of in Hok. rewrite E in Hok. destruct n0 as [? ? [|]]; [eauto|done].
Qed.

Lemma delete_child_ok b p c nm :
  tree_ok b → childs_of b p = Ok c → tree_ok (set_childs b p (delete nm c)).
Proof.
  intros Hok Hc. apply set_childs_ok; [done|by rewrite Hc|]. intros nm' i Hi.
  apply lookup_delete_Some in Hi as [_ Hi]. by eapply tk_child.
Qed.

(** Changes of the rest of the build. *)
Lemma same_nodes_ok b b' : nodes b' = nodes b → id_nodes b' = id_nodes b → tree_ok b → tree_ok b'.
Proof.
  intros Hn Hi [H1 H2 H3 H4 H5].
  assert (Hp : ∀ i, parent_of b' i = parent_of b i) by (intros; unfold parent_of; by rewrite Hn).
  assert (Hc : ∀ i, childs_of b' i = childs_of b i) by (intros; unfold childs_of; by rewrite Hn).
  assert (Hm : ∀ i, name_of b' i = name_of b i) by (intros; unfold name_of; by rewrite Hn).
  split; rewrite ?Hn, ?Hi; try done.
  - intros i p. rewrite Hp, Hc. apply H3.
  - intros p c nm i. rewrite Hp, Hc, Hm. apply H4.
Qed.

Lemma land_3 i : Z.land i 3 = (i mod 4)%Z.
Proof. change 3%Z with (Z.ones 2). by rewrite Z.land_ones by lia. Qed.

Lemma land_new_id b t : tree_ok b → (0 <= t <= 3)%Z → get_type (id_nodes b + 4 + t) = t.
Proof.
  intros [[H0 Hl] _ _ _ _] Ht. unfold get_type. rewrite land_3 in *. Z.div_mod_to_equations. lia.
Qed.

Lemma new_node_fresh b t : tree_ok b → (0 <= t)%Z → nodes b !! (id_nodes b + 4 + t)%Z = None.
Proof.
  intros Hok Ht. destruct (nodes b !! (id_nodes b + 4 + t)%Z) eqn:E; [|done].
  pose proof (tk_id b Hok (id_nodes b + 4 + t)%Z) as H. destruct H; [eauto|]. lia.
Qed.

Lemma take_id_ok b : tree_ok b → tree_ok (take_id b).
Proof.
  intros [[H0 Hl] H2 H3 H4 H5]. split; cbn [take_id id_nodes nodes]; try done.
  - split; [lia|]. rewrite land_3 in *. Z.div_mod_to_equations. lia.
  - intros j Hj. apply H2 in Hj. lia.
Qed.

(** A new node that no folder lists yet. *)
Definition add_node (b : BuildContext) (i : Z) (n : Node) : BuildContext := with_nodes b (<[i := n]> (nodes b)).

Section AddNode.
Context (b : BuildContext) (i : Z) (n : Node).
Hypothesis Hfresh : nodes b !! i = None.

Lemma add_node_parent j : parent_of (add_node b i n) j = if decide (j = i) then parent n else parent_of b j.
Proof using.
  unfold parent_of. cbn [add_node with_nodes nodes]. case_decide; subst.
  - by rewrite lookup_insert_eq. - by rewrite lookup_insert_ne.
Qed.
Lemma add_node_name j : name_of (add_node b i n) j = if decide (j = i) then name n else name_of b j.
Proof using.
  unfold name_of. cbn [add_node with_nodes nodes]. case_decide; subst.
  - by rewrite lookup_insert_eq. - by rewrite lookup_insert_ne.
Qed.
Lemma add_node_childs j : childs_of (add_node b i n) j =
  if decide (j = i) then (match childs n with Some c => Ok c | None => Err AttributeError end) else childs_of b j.
Proof using.
  unfold childs_of. cbn [add_node with_nodes nodes]. case_decide; subst.
  - rewrite lookup_insert_eq. by destruct n as [? ? [|]]. - by rewrite lookup_insert_ne.
Qed.

Lemma fresh_not p c : childs_of b p = Ok c → p ≠ i.
Proof using Hfresh. intros Hc ->. unfold childs_of in Hc. by rewrite Hfresh in Hc. Qed.
Lemma fresh_not_child j p : parent_of b j = Some p → j ≠ i.
Proof using Hfresh. intros Hp ->. unfold parent_of in Hp. by rewrite Hfresh in Hp. Qed.

Lemma add_node_ok :
  tree_ok b → (0 < i < id_nodes b + 4)%Z → (childs n = if (get_type i =? DIR)%Z then Some ∅ else None) →
  (∀ p, parent n = Some p → (p < i)%Z ∧ is_ok (childs_of b p) = true) → tree_ok (add_node b i n).
Proof using Hfresh.
  intros [H1 H2 H3 H4 H5] Hi Hc Hp. split.
  - done.
  - intros j. cbn [add_node with_nodes nodes id_nodes]. destruct (decide (j = i)) as [->|Hne]; [done|].
    rewrite lookup_insert_ne by done. apply H2.
  - intros j p. rewrite add_node_parent, add_node_childs. intros Hj.
    assert (Hpp : (p < j)%Z ∧ is_ok (childs_of b p) = true) by (case_decide; subst; auto).
    destruct Hpp as [Hlt Hpc]. split; [done|]. destruct (childs_of b p) eqn:E; [|done].
    by rewrite decide_False by by eapply fresh_not.
  - intros p c nm j. rewrite add_node_childs, add_node_parent, add_node_name. case_decide as Hd.
    + rewrite Hc. destruct (get_type i =? DIR)%Z; [|done]. intros [= <-]. by rewrite lookup_empty.
    + intros Hpc Hj. pose proof (H4 _ _ _ _ Hpc Hj) as [Hpj Hnj].
      by rewrite !decide_False by by eapply fresh_not_child.
  - intros j m. cbn [add_node with_nodes nodes]. destruct (decide (j = i)) as [->|Hne].
    + rewrite lookup_insert_eq. intros [= <-]. rewrite Hc.
      destruct (Z.eqb_spec (get_type i) DIR); split; [done|eauto|intros [? [=]]|done].
    + rewrite lookup_insert_ne by done. apply H5.
Qed.
End AddNode.

Lemma new_node_cases b nm par t r b' :
  new_node b nm par t = (r, b') →
  let i := (id_nodes b + 4 + t)%Z in
  let n := mkNode nm par (if (t =? DIR)%Z then Some ∅ else None) in
  b' = take_id b ∧ (∃ e, r = Err e) ∨
  r = Ok i ∧ (par = None ∧ b' = add_node (take_id b) i n ∨
    ∃ p c, par = Some p ∧ childs_of b p = Ok c ∧ c !! nm = None ∧
           b' = set_childs (add_node (take_id b) i n) p (<[nm := i]> c)).
Proof.
  unfold new_node. cbn zeta. destruct par as [p|]; [|intros [= <- <-]; auto].
  change (childs_of (take_id b) p) with (childs_of b p).
  destruct (childs_of b p) as [c|e] eqn:Ec; [|intros [= <- <-]; eauto].
  destruct (c !! nm) eqn:E; [intros [= <- <-]; eauto|]. intros [= <- <-]. right. split; [done|]. right.
  exists p, c. split_and!; done.
Qed.

Lemma new_node_ok b nm par t r b' :
  tree_ok b → (0 < t <= 3)%Z → new_node b nm par t = (r, b') → tree_ok b'.
Proof.
  intros Hok Ht Hn. apply new_node_cases in Hn. cbn zeta in Hn.
  pose proof (land_new_id b t Hok ltac:(lia)) as Hty. pose proof (new_node_fresh b t Hok ltac:(lia)) as Hfr.
  set (i := (id_nodes b + 4 + t)%Z) in *. set (n := mkNode nm par _) in *.
  pose proof (take_id_ok b Hok) as Hok0. pose proof (tk_next b Hok) as [H0 _].
  assert (Hadd : (∀ p, par = Some p → is_ok (childs_of b p) = true) → tree_ok (add_node (take_id b) i n)).
  { intros Hpar. apply add_node_ok; [done|done| |by rewrite Hty|].
    - cbn [take_id id_nodes]. lia.
    - intros p Hp. specialize (Hpar p Hp). split; [|done].
      assert (Hpn : is_Some (nodes b !! p)) by (unfold childs_of in Hpar; destruct (nodes b !! p); [eauto|done]).
      apply (tk_id b Hok) in Hpn. lia. }
  destruct Hn as [[-> _]|[_ [[-> ->]|(p & c & -> & Hc & Hnm & ->)]]]; [done|by apply Hadd|].
  apply set_childs_ok.
  - apply Hadd. intros q [= <-]. by rewrite Hc.
  - rewrite add_node_childs, decide_False by by eapply fresh_not. change (childs_of (take_id b) p) with (childs_of b p).
    by rewrite Hc.
  - intros nm' j Hj. rewrite add_node_parent, add_node_name.
    apply lookup_insert_Some in Hj as [[<- <-]|[_ Hj]]; [by rewrite !decide_True|].
    pose proof (tk_child b Hok _ _ _ _ Hc Hj) as [Hpj Hnj].
    rewrite !decide_False by (eapply (fresh_not_child (take_id b)); [exact Hfr|exact Hpj]). done.
Qed.

(** ** What operations keep

    Nodes are never forgotten, renamed or moved; folders stay in the tree. *)
Record later (b b' : BuildContext) : Prop := {
  lt_node : ∀ i n, nodes b !! i = Some n →
    ∃ n', nodes b' !! i = Some n' ∧ name n' = name n ∧ parent n' = parent n ∧ (is_Some (childs n) ↔ is_Some (childs n'));
  lt_dir : ∀ p c nm i, childs_of b p = Ok c → c !! nm = Some i → get_type i = DIR →
    ∃ c', childs_of b' p = Ok c' ∧ c' !! nm = Some i;
  lt_scanned : cache_scanned_folders b ⊆ cache_scanned_folders b';
  lt_roots : root b' = root b ∧ srcnode b' = srcnode b ∧ bldnode b' = bldnode b }.

#[export] Instance later_preorder : PreOrder later.
Proof.
  split.
  - intros b. split; try done; intros; eauto 10.
  - intros b1 b2 b3 [N1 D1 S1 R1] [N2 D2 S2 R2]. split.
    + intros i n Hi. destruct (N1 i n Hi) as (n2 & Hi2 & ? & ? & ?). destruct (N2 i n2 Hi2) as (n3 & Hi3 & ? & ? & ?).
      exists n3. split_and!; try congruence. by etrans.
    + intros p c nm i Hc Hi Ht. destruct (D1 _ _ _ _ Hc Hi Ht) as (c2 & Hc2 & Hi2). by eapply D2.
    + set_solver.
    + naive_solver congruence.
Qed.

(** An operation keeps the tree well formed. *)
Definition good (b b' : BuildContext) : Prop := tree_ok b → tree_ok b' ∧ later b b'.

#[export] Instance good_preorder : PreOrder good.
Proof.
  split.
  - intros b Hok. done.
  - intros b1 b2 b3 H1 H2 Hok. destruct (H1 Hok) as [Hok2 Hl]. destruct (H2 Hok2) as [Hok3 Hl2].
    split; [done|by etrans].
Qed.

Lemma later_parent b b' i : later b b' → is_Some (nodes b !! i) → parent_of b' i = parent_of b i.
Proof.
  intros Hl [n Hn]. destruct (lt_node _ _ Hl i n Hn) as (n' & Hn' & _ & Hp & _). unfold parent_of.
  rewrite Hn, Hn'. done.
Qed.

Lemma same_nodes_good b b' :
  nodes b' = nodes b → id_nodes b' = id_nodes b → cache_scanned_folders b ⊆ cache_scanned_folders b' →
  root b' = root b ∧ srcnode b' = srcnode b ∧ bldnode b' = bldnode b → good b b'.
Proof.
  intros Hn Hi Hs Hr Hok. split; [by eapply same_nodes_ok|]. split; try done.
  - intros i n. rewrite Hn. eauto 10.
  - intros p c nm i Hc Hx _. unfold childs_of in *. rewrite Hn. eauto.
Qed.

(** A file is taken off its folder. *)
Lemma delete_child_good b p c x :
  childs_of b p = Ok c → get_type x ≠ DIR → parent_of b x = Some p → (∀ i, c !! name_of b x = Some i → i = x) →
  good b (set_childs b p (delete (name_of b x) c)).
Proof.
  intros Hc Hx Hp Hu Hok. split; [by apply delete_child_ok|]. split; try done.
  - intros i n Hn. rewrite set_childs_nodes. case_decide as Hd; [|eauto 10]. subst. rewrite Hn.
    eexists. split; [done|]. cbn. split_and!; try done. split; [eauto|intros _].
    unfold childs_of in Hc. rewrite Hn in Hc. destruct n as [? ? [|]]; [eauto|done].
  - intros q c' nm i Hc' Hi Ht. rewrite set_childs_childs by (by rewrite Hc). case_decide as Hd; [|eauto].
    subst q. rewrite Hc in Hc'. injection Hc' as <-. eexists. split; [done|].
    rewrite lookup_delete_ne; [done|]. intros He. rewrite <- He in Hi. apply Hu in Hi. by subst.
Qed.

Lemma new_node_good b nm par t r b' : (0 < t <= 3)%Z → new_node b nm par t = (r, b') → good b b'.
Proof.
  intros Ht Hn Hok. split; [by eapply new_node_ok|].
  apply new_node_cases in Hn. cbn zeta in Hn. pose proof (new_node_fresh b t Hok ltac:(lia)) as Hfr.
  set (i := (id_nodes b + 4 + t)%Z) in *. set (n := mkNode nm par _) in *.
  assert (Ht0 : later b (take_id b)) by (split; try done; eauto 10).
  assert (Ha : later b (add_node (take_id b) i n)).
  { split; try done.
    - intros j m Hj. exists m. split; [|done]. cbn. rewrite lookup_insert_ne; [done|congruence].
    - intros p c nm' j Hc Hj _. exists c. split; [|done]. rewrite add_node_childs, decide_False; [done|].
      by eapply fresh_not. }
  destruct Hn as [[-> _]|[_ [[-> ->]|(p & c & -> & Hc & Hnm & ->)]]]; [done|done|].
  assert (Hpi : p ≠ i) by by eapply (fresh_not b).
  etrans; [exact Ha|]. split; try done.
  - intros j m Hj. rewrite set_childs_nodes. case_decide as Hd; [|eauto 10]. subst. rewrite Hj.
    eexists. split; [done|]. cbn. split_and!; try done. split; [eauto|intros _].
    cbn in Hj. rewrite lookup_insert_ne in Hj by done. apply childs_node in Hc as (m' & Hm' & Hcm).
    rewrite Hj in Hm'. injection Hm' as <-. eauto.
  - intros q c' nm' j Hc' Hj _.
    assert (Hcp : childs_of (add_node (take_id b) i n) p = Ok c) by (rewrite add_node_childs, decide_False; done).
    rewrite set_childs_childs by (by rewrite Hcp). case_decide as Hd; [|eauto]. subst q.
    rewrite Hcp in Hc'. injection Hc' as <-. eexists. split; [done|]. rewrite lookup_insert_ne; [done|congruence].
Qed.

(** A loop of good rounds, for a property of the nodes that the rounds keep. *)
Lemma res_fold_good {A} (f : BuildContext → A → res BuildContext) (P : BuildContext → list A → Prop) l : ∀ b b',
  P b l →
  (∀ b x l b', tree_ok b → P b (x :: l) → f b x = Ok b' → good b b' ∧ P b' l) →
  res_fold f l b = Ok b' → good b b'.
Proof.
  induction l as [|x l IH]; intros b b' HP Hf; cbn; [by intros [= <-]|].
  intros (b1 & H1 & H2)%res_bind_Ok Hok. destruct (Hf b x l b1 Hok HP H1) as [Hg HP1].
  by apply (transitivity Hg (IH b1 b' HP1 Hf H2)).
Qed.

Section Operations.
Context `{FileSystem}.

(** The children still to treat in a loop over a folder. *)
Definition children_left (dir : Z) (b : BuildContext) (l : list Z) : Prop :=
  ∃ c, childs_of b dir = Ok c ∧ NoDup l ∧ ∀ x, x ∈ l → c !! name_of b x = Some x.

Lemma children_left_init b dir c :
  tree_ok b → childs_of b dir = Ok c → children_left dir b (snd <$> map_to_list c).
Proof using.
  intros Hok Hc. exists c. split; [done|].
  assert (Hin : ∀ x, x ∈ (snd <$> map_to_list c) → c !! name_of b x = Some x).
  { intros x ((nm & y) & -> & Hy)%list_elem_of_fmap. apply elem_of_map_to_list in Hy. cbn.
    destruct (tk_child b Hok _ _ _ _ Hc Hy) as [_ Hn]. by rewrite Hn. }
  split; [|done]. apply NoDup_fmap_2_strong; [|apply NoDup_map_to_list].
  intros [n1 x1] [n2 x2] H1%elem_of_map_to_list H2%elem_of_map_to_list [= ->]. f_equal.
  destruct (tk_child b Hok _ _ _ _ Hc H1) as [_ <-]. by destruct (tk_child b Hok _ _ _ _ Hc H2) as [_ <-].
Qed.

Lemma children_left_same dir b b' x l :
  nodes b' = nodes b → children_left dir b (x :: l) → children_left dir b' l.
Proof using.
  intros Hn (c & Hc & [_ Hd]%NoDup_cons & Hin). exists c. unfold childs_of, name_of in *. rewrite Hn.
  split; [done|]. split; [done|]. intros y Hy. apply Hin. by right.
Qed.

(** Taking the child [x] off, in a loop over the children. *)
Lemma children_left_delete dir b x l c b' :
  tree_ok b → nodes b' = nodes b → id_nodes b' = id_nodes b →
  cache_scanned_folders b ⊆ cache_scanned_folders b' →
  root b' = root b ∧ srcnode b' = srcnode b ∧ bldnode b' = bldnode b →
  children_left dir b (x :: l) → get_type x ≠ DIR → childs_of b' dir = Ok c →
  good b (set_childs b' dir (delete (name_of b' x) c)) ∧
  children_left dir (set_childs b' dir (delete (name_of b' x) c)) l.
Proof using.
  intros Hok Hn Hi Hs Hr (c0 & Hc0 & [Hx Hd]%NoDup_cons & Hin) Ht Hc.
  assert (Hsame : good b b') by by apply same_nodes_good.
  assert (Hc' : c0 = c). { unfold childs_of in *. rewrite Hn in Hc. rewrite Hc0 in Hc. by injection Hc. }
  subst c0. assert (Hnm : ∀ y, name_of b' y = name_of b y) by (intros; unfold name_of; by rewrite Hn).
  assert (Hxc : c !! name_of b x = Some x) by (apply Hin; by left).
  destruct (tk_child b Hok _ _ _ _ Hc0 Hxc) as [Hpx _].
  split.
  - etrans; [exact Hsame|]. apply delete_child_good; [done|done| |].
    + unfold parent_of in *. by rewrite Hn.
    + intros i Hi'. rewrite Hnm in Hi'. congruence.
  - exists (delete (name_of b' x) c). rewrite set_childs_childs by (by rewrite Hc). rewrite decide_True by done.
    split; [done|]. split; [done|]. intros y Hy. rewrite set_childs_name, !Hnm.
    assert (Hyc : c !! name_of b y = Some y) by (apply Hin; by right).
    rewrite lookup_delete_ne; [done|]. intros He. rewrite <- He in Hyc. congruence.
Qed.

Lemma rescan_child_good dir lst b x l b' :
  tree_ok b → children_left dir b (x :: l) → rescan_child dir lst b x = Ok b' → good b b' ∧ children_left dir b' l.
Proof using.
  intros Hok Hl. unfold rescan_child. destruct (Z.eqb_spec (get_type x) FILE) as [Ht|Ht]; cbn [negb].
  2: { intros [= <-]. split; [done|by eapply children_left_same]. }
  case_bool_decide.
  { destruct (h_file _) as [s|]; [|done]. intros [= <-].
    split; [by apply same_nodes_good|by eapply children_left_same]. }
  intros (c & Hc & [= <-])%res_bind_Ok.
  apply children_left_delete; try done. rewrite Ht. done.
Qed.

Lemma forget_build_good dir b x l b' :
  tree_ok b → children_left dir b (x :: l) → forget_build dir b x = Ok b' → good b b' ∧ children_left dir b' l.
Proof using.
  intros Hok Hl. unfold forget_build. destruct (Z.eqb_spec (get_type x) BUILD) as [Ht|Ht]; cbn [negb].
  2: { intros [= <-]. split; [done|by eapply children_left_same]. }
  intros (c & Hc & [= <-])%res_bind_Ok.
  apply children_left_delete; try done. rewrite Ht. done.
Qed.

Lemma listdir_bld_good b dir path v b' : listdir_bld b dir path v = Ok b' → good b b'.
Proof using.
  unfold listdir_bld. intros (c & _ & Hb)%res_bind_Ok. destruct (listdir path); [|done].
  destruct (node_sigs b !! Some v); [|done]. injection Hb as <-.
  generalize (filter (λ x, name_of b x ∉ l) (filter (λ x, get_type x = BUILD) (snd <$> map_to_list c))) as xs.
  intros xs. revert b. induction xs as [|x xs IH]; intros b; [done|]. cbn.
  etrans; [|apply IH]. by apply same_nodes_good.
Qed.

Lemma list_variants_good dir bp lst vs : ∀ b b' e, list_variants b dir bp lst vs = (b', e) → good b b'.
Proof using.
  induction vs as [|v vs IH]; intros b b' e; cbn [list_variants]; [by intros [= <- _]|].
  destruct (listdir_bld _ _ _ _) as [b1|] eqn:E; [|by intros [= <- _]].
  intros Hb. etrans; [by eapply listdir_bld_good|by eapply IH].
Qed.

Lemma rescan_good b dir b' : rescan b dir = Ok b' → good b b'.
Proof using.
  unfold rescan. case_bool_decide; [by intros [= <-]|].
  set (b1 := with_contents (with_scanned b _) _). set (lst := default [] _).
  assert (H1 : good b b1) by (apply same_nodes_good; [done|done|cbn; set_solver|done]).
  intros (c & Hc & (b2 & Hf & (sub & _ & Hr)%res_bind_Ok)%res_bind_Ok)%res_bind_Ok Hok.
  destruct (H1 Hok) as [Hok1 Hl1]. revert Hok Hok1 Hl1. intros Hok Hok1 Hl1.
  assert (H2 : good b1 b2).
  { eapply (res_fold_good _ (children_left dir)); [by apply children_left_init| |exact Hf].
    intros. by eapply rescan_child_good. }
  destruct (list_variants _ _ _ _ _) as [b3 e] eqn:Ev. apply list_variants_good in Ev.
  assert (H3 : good b b3) by (etrans; [exact H1|]; by etrans).
  destruct e as [[]|]; try done; [|injection Hr as <-; by apply H3].
  apply res_bind_Ok in Hr as (c3 & Hc3 & Hr). destruct (H3 Hok) as [Hok3 Hl3].
  assert (H4 : good b3 b').
  { eapply (res_fold_good _ (children_left dir)); [by apply children_left_init| |exact Hr].
    intros. by eapply forget_build_good. }
  by apply (transitivity H3 H4).
Qed.

Lemma find_dir_good lst : ∀ b i r b', find_dir b i lst = Ok (r, b') → good b b'.
Proof using.
  induction lst as [|nm lst IH]; intros b i r b'; cbn [find_dir]; [by intros [= _ <-]|].
  intros (b1 & H1%rescan_good & Hr)%res_bind_Ok. etrans; [exact H1|].
  destruct (_ || _); [by eapply IH|]. destruct (nm =s ".."); [by eapply IH|].
  apply res_bind_Ok in Hr as (c & Hc & Hr).
  assert (Hnew : ∀ r0 b2, new_node b1 nm (Some i) DIR = (r0, b2) →
    (x ← r0; find_dir b2 x lst) = Ok (r, b') → good b1 b').
  { intros r0 b2 Hn (x & _ & Hf)%res_bind_Ok. etrans; [eapply new_node_good; [|exact Hn]; by split|by eapply IH]. }
  destruct (c !! nm) as [j|].
  { destruct (_ =? _)%Z; [by eapply IH|by injection Hr as _ <-]. }
  case_bool_decide.
  { destruct (isdir _); [|by injection Hr as _ <-].
    destruct (new_node _ _ _ _) as [r0 b2] eqn:En. by eapply Hnew. }
  destruct (_ || _); [|by injection Hr as _ <-].
  destruct (new_node _ _ _ _) as [r0 b2] eqn:En. by eapply Hnew.
Qed.

Lemma find_parent_good b i lst r b' : find_parent b i lst = Ok (r, b') → good b b'.
Proof using.
  unfold find_parent. destruct lst as [|x [|y lst]]; try apply find_dir_good. by intros [= _ <-].
Qed.

Lemma find_resource_good b i lst r b' : find_resource b i lst = Ok (r, b') → good b b'.
Proof using.
  unfold find_resource. intros ([p b1] & H1%find_parent_good & Hr)%res_bind_Ok. etrans; [exact H1|].
  destruct p as [p|]; [|by injection Hr as _ <-].
  apply res_bind_Ok in Hr as (b2 & H2%rescan_good & (nm & _ & (c & _ & Hr)%res_bind_Ok)%res_bind_Ok).
  etrans; [exact H2|]. destruct (c !! nm); [by injection Hr as _ <-|].
  destruct (cache_dir_contents b2 !! p); [|done]. case_bool_decide; [by injection Hr as _ <-|].
  destruct (h_file _); [|by injection Hr as _ <-].
  destruct (new_node _ _ _ _) as [r0 b3] eqn:En. apply res_bind_Ok in Hr as (x & _ & [= _ <-]).
  etrans; [eapply new_node_good; [|exact En]; by split|by apply same_nodes_good].
Qed.

Lemma find_or_declare_good b i lst r b' : find_or_declare b i lst = Ok (r, b') → good b b'.
Proof using.
  unfold find_or_declare. intros ([p b1] & H1%find_parent_good & Hr)%res_bind_Ok. etrans; [exact H1|].
  destruct p as [p|]; [|by injection Hr as _ <-].
  apply res_bind_Ok in Hr as (b2 & H2%rescan_good & (nm & _ & (c & _ & Hr)%res_bind_Ok)%res_bind_Ok).
  etrans; [exact H2|]. destruct (c !! nm).
  { destruct (_ =? _)%Z; [by injection Hr as _ <-|done]. }
  destruct (new_node _ _ _ _) as [r0 b3] eqn:En. apply res_bind_Ok in Hr as (x & _ & [= _ <-]).
  eapply new_node_good; [|exact En]; by split.
Qed.

Lemma ensure_dir_good lst : ∀ b i r b', ensure_dir_node_from_path b i lst = Ok (r, b') → good b b'.
Proof using.
  induction lst as [|nm lst IH]; intros b i r b'; cbn [ensure_dir_node_from_path]; [by intros [= _ <-]|].
  destruct (_ || _); [by apply IH|]. destruct (nm =s ".."); [by apply IH|].
  intros (c & _ & Hr)%res_bind_Ok. destruct (c !! nm); [by eapply IH|].
  destruct (new_node _ _ _ _) as [r0 b3] eqn:En. apply res_bind_Ok in Hr as (x & _ & Hr).
  etrans; [eapply new_node_good; [|exact En]; by split|by eapply IH].
Qed.
End Operations.

(** ** Building the tree *)

Definition empty_build (variants : list string) : BuildContext :=
  mkBuild 0 ∅ (list_to_map ((None, ∅) :: ((λ v, (Some v, ∅)) <$> variants))) ∅ ∅ variants 0 0 0.

(** [BuildContext.load_dirs], without a cache file. *)
Definition load_dirs (b : BuildContext) (srcdir blddir : string) : res BuildContext :=
  if srcdir =s blddir then Err (WafError "build dir must be different from srcdir")
  else
    let '(r, b) := new_node b "" None DIR in
    rt ← r;
    '(src, b) ← ensure_dir_node_from_path b rt (split_on "/" srcdir);
    '(bld, b) ← ensure_dir_node_from_path b rt (split_on "/" blddir);
    Ok (mkBuild (id_nodes b) (nodes b) (node_sigs b) (cache_dir_contents b) (cache_scanned_folders b)
          (lst_variants b) rt src bld).

(** What scripts and tasks do with the tree. *)
Inductive node_step `{FileSystem} : BuildContext → BuildContext → Prop :=
| st_find_dir b i lst r b' : find_dir b i lst = Ok (r, b') → node_step b b'
| st_find_resource b i lst r b' : find_resource b i lst = Ok (r, b') → node_step b b'
| st_find_or_declare b i lst r b' : find_or_declare b i lst = Ok (r, b') → node_step b b'
| st_change_ext b i ext r b' : change_ext b i ext = Ok (r, b') → node_step b b'
| st_ensure b i lst r b' : ensure_dir_node_from_path b i lst = Ok (r, b') → node_step b b'
| st_exclusive b i path r b' : exclusive_build_node b i path = Ok (r, b') → node_step b b'
| st_rescan b i b' : rescan b i = Ok b' → node_step b b'
| st_set_sig b v i s : node_step b (set_sig b v i s).

Lemma empty_build_ok variants : tree_ok (empty_build variants).
Proof.
  split; unfold parent_of, childs_of; cbn [empty_build nodes id_nodes].
  - done.
  - intros i. rewrite lookup_empty. by intros [? ?].
  - intros i p. by rewrite lookup_empty.
  - intros p c nm i. by rewrite lookup_empty.
  - intros i n. by rewrite lookup_empty.
Qed.

Lemma load_dirs_ok b srcdir blddir b' : tree_ok b → load_dirs b srcdir blddir = Ok b' → tree_ok b'.
Proof.
  intros Hok. unfold load_dirs. destruct (srcdir =s blddir); [done|].
  destruct (new_node b "" None DIR) as [r b1] eqn:E1.
  assert (H1 : good b b1) by (eapply new_node_good; [|exact E1]; by split).
  intros (rt & -> & ([src b2] & H2%ensure_dir_good & ([bld b3] & H3%ensure_dir_good & [= <-])%res_bind_Ok)%res_bind_Ok)%res_bind_Ok.
  assert (H4 : good b b3) by (etrans; [exact H1|]; by etrans).
  eapply same_nodes_ok; [| |apply (H4 Hok)]; done.
Qed.

Lemma exclusive_good `{FileSystem} b i path r b' : exclusive_build_node b i path = Ok (r, b') → good b b'.
Proof.
  unfold exclusive_build_node. intros (nm & _ & ([p b1] & H1 & (c & _ & Hr)%res_bind_Ok)%res_bind_Ok)%res_bind_Ok.
  assert (Hg : good b b1).
  { assert (Hd : ∀ l, ('(p, b0) ← find_dir b i (removelast l);
      match p with
      | Some p => b ← rescan b0 p; Ok (p, b)
      | None => '(p, b) ← ensure_dir_node_from_path b0 i (removelast l); b ← rescan b p; Ok (p, b)
      end) = Ok (p, b1) → good b b1).
    { intros l ([q b2] & Hf%find_dir_good & Hq)%res_bind_Ok. etrans; [exact Hf|]. destruct q as [q|].
      - apply res_bind_Ok in Hq as (b3 & Hq%rescan_good & [= _ <-]). done.
      - apply res_bind_Ok in Hq as ([q b3] & Hq%ensure_dir_good & (b4 & H4%rescan_good & [= _ <-])%res_bind_Ok).
        by etrans. }
    destruct (split_on "/" path) as [|x [|y l]]; [by apply (Hd [])|by injection H1 as _ <-|by apply (Hd (x :: y :: l))]. }
  etrans; [exact Hg|]. destruct (c !! nm); [by injection Hr as _ <-|].
  destruct (new_node _ _ _ _) as [r0 b3] eqn:En. apply res_bind_Ok in Hr as (x & _ & [= _ <-]).
  eapply new_node_good; [|exact En]; by split.
Qed.

Lemma node_step_good `{FileSystem} b b' : node_step b b' → good b b'.
Proof.
  destruct 1; eauto using find_dir_good, find_resource_good, find_or_declare_good, ensure_dir_good, rescan_good,
    exclusive_good.
  - unfold change_ext in *. destruct (parent_of b i); [|done]. by eapply find_or_declare_good.
  - by apply same_nodes_good.
Qed.

(** ** What a listing does to the sources *)

(** Names and places do not change. *)
Definition same_tree (b b' : BuildContext) : Prop :=
  ∀ i, parent_of b' i = parent_of b i ∧ name_of b' i = name_of b i.

#[export] Instance same_tree_preorder : PreOrder same_tree.
Proof.
  split; [done|]. intros b1 b2 b3 H1 H2 i. destruct (H1 i), (H2 i). split; congruence.
Qed.

Lemma same_nodes_tree b b' : nodes b' = nodes b → same_tree b b'.
Proof. intros Hn i. unfold parent_of, name_of. by rewrite Hn. Qed.
Lemma set_childs_tree b p c : same_tree b (set_childs b p c).
Proof. intros i. by rewrite set_childs_parent, set_childs_name. Qed.

Lemma abspath0_same b b' i : same_tree b b' → abspath0 b' i = abspath0 b i.
Proof.
  intros Hs. unfold abspath0. generalize (up_fuel i) as f. intros f. revert i.
  induction f as [|f IH]; intros i; [done|]. cbn [src_abspath]. destruct (Hs i) as [-> ->].
  destruct (parent_of b i) as [p|]; [|done]. destruct (Hs p) as [_ ->]. by rewrite IH.
Qed.

Lemma get_sig_set b v i s w j :
  get_sig (set_sig b v i s) w j = if decide (w = v ∧ j = i) then Some s else get_sig b w j.
Proof.
  unfold get_sig, set_sig. cbn [with_sigs node_sigs].
  destruct (decide (w = v)) as [->|Hw]; [rewrite lookup_insert_eq|by rewrite lookup_insert_ne, decide_False by naive_solver].
  cbn. destruct (decide (j = i)) as [->|Hj].
  - rewrite lookup_insert_eq. by rewrite decide_True.
  - rewrite lookup_insert_ne, decide_False by naive_solver. by destruct (node_sigs b !! v).
Qed.
Lemma get_sig_del b v i w j :
  get_sig (del_sig b v i) w j = if decide (w = v ∧ j = i) then None else get_sig b w j.
Proof.
  unfold get_sig, del_sig. cbn [with_sigs node_sigs].
  destruct (decide (w = v)) as [->|Hw]; [rewrite lookup_alter_eq|by rewrite lookup_alter_ne, decide_False by naive_solver].
  destruct (decide (j = i)) as [->|Hj]; destruct (node_sigs b !! v) as [m|]; cbn; try (case_decide; naive_solver).
  - rewrite lookup_delete_eq. case_decide; naive_solver.
  - rewrite lookup_delete_ne, decide_False by naive_solver. done.
Qed.

Section Rescan.
Context `{FileSystem}.

Lemma child_name b dir c nm i : tree_ok b → childs_of b dir = Ok c → c !! nm = Some i → name_of b i = nm.
Proof using. intros Hok Hc Hi. by eapply tk_child. Qed.
Lemma listed_child b dir c x :
  tree_ok b → childs_of b dir = Ok c → x ∈ (snd <$> map_to_list c) → c !! name_of b x = Some x.
Proof using.
  intros Hok Hc Hx. destruct (children_left_init b dir c Hok Hc) as (c' & Hc' & _ & Hin). rewrite Hc in Hc'.
  injection Hc' as <-. by apply Hin.
Qed.

(** What the loop of [rescan] has done to the children treated so far. *)
Definition hashed (dir : Z) (lst : list string) (b0 : BuildContext) (c0 : gmap string Z) (treated : list Z)
    (b : BuildContext) : Prop :=
  same_tree b0 b ∧ ∃ c, childs_of b dir = Ok c ∧ ∀ nm i, c0 !! nm = Some i →
    c !! nm = (if decide (i ∈ treated ∧ get_type i = FILE ∧ nm ∉ lst) then None else Some i) ∧
    (i ∈ treated → get_type i = FILE →
     get_sig b None i = if decide (nm ∈ lst) then h_file (abspath0 b0 i) else None).

Lemma rescan_child_hashed dir lst b0 c0 treated b x b' :
  tree_ok b0 → childs_of b0 dir = Ok c0 → c0 !! name_of b0 x = Some x →
  hashed dir lst b0 c0 treated b → rescan_child dir lst b x = Ok b' → hashed dir lst b0 c0 (treated ++ [x]) b'.
Proof using.
  intros Hok Hc0 Hx (Hs & c & Hc & Hinv). destruct (Hs x) as [_ Hnx].
  unfold rescan_child. destruct (Z.eqb_spec (get_type x) FILE) as [Ht|Ht]; cbn [negb].
  2: { intros [= <-]. split; [done|]. exists c. split; [done|]. intros nm i Hi. destruct (Hinv nm i Hi) as [H1 H2].
       split.
       - rewrite H1. apply decide_ext. rewrite elem_of_app, list_elem_of_singleton. naive_solver.
       - rewrite elem_of_app, list_elem_of_singleton. intros [Hd| ->]; [by apply H2|done]. }
  rewrite Hnx, (abspath0_same b0 b x Hs).
  assert (Hname : ∀ nm i, c0 !! nm = Some i → i = x ↔ nm = name_of b0 x).
  { intros nm i Hi. pose proof (child_name b0 dir c0 nm i Hok Hc0 Hi) as Hn. split; [by intros ->|intros ->; congruence]. }
  case_bool_decide as Hl.
  - destruct (h_file _) as [s|] eqn:Eh; [|done]. intros [= <-].
    split; [etrans; [exact Hs|by apply same_nodes_tree]|]. exists c. split; [done|]. intros nm i Hi.
    destruct (Hinv nm i Hi) as [H1 H2]. rewrite get_sig_set. pose proof (Hname nm i Hi) as Hx'.
    assert (Hin : i ∈ treated ++ [x] ↔ i ∈ treated ∨ i = x) by by rewrite elem_of_app, list_elem_of_singleton.
    split.
    + rewrite H1. apply decide_ext. naive_solver.
    + rewrite Hin. intros Hd Hti. destruct (decide (i = x)) as [->|Hne].
      * rewrite (proj1 Hx' eq_refl), !decide_True by done. done.
      * rewrite decide_False by naive_solver. apply H2; [|done]. by destruct Hd.
  - intros (c' & Hc' & [= <-])%res_bind_Ok. change (childs_of b dir = Ok c') in Hc'. rewrite Hc in Hc'.
    injection Hc' as <-. change (name_of (del_sig b None x) x) with (name_of b x). rewrite Hnx. split.
    { etrans; [exact Hs|]. etrans; [by apply (same_nodes_tree b (del_sig b None x))|apply set_childs_tree]. }
    exists (delete (name_of b0 x) c). rewrite set_childs_childs by (change (is_ok (childs_of b dir) = true); by rewrite Hc).
    rewrite decide_True by done. split; [done|]. intros nm i Hi. destruct (Hinv nm i Hi) as [H1 H2].
    pose proof (Hname nm i Hi) as Hx'.
    assert (Hin : i ∈ treated ++ [x] ↔ i ∈ treated ∨ i = x) by by rewrite elem_of_app, list_elem_of_singleton.
    change (get_sig (set_childs (del_sig b None x) dir (delete (name_of b0 x) c)) None i)
      with (get_sig (del_sig b None x) None i). rewrite get_sig_del.
    destruct (decide (i = x)) as [->|Hne].
    + pose proof (proj1 Hx' eq_refl) as ->. split.
      * rewrite lookup_delete_eq, decide_True; [done|]. rewrite Hin. auto.
      * intros _ _. rewrite decide_True by done. by rewrite decide_False.
    + rewrite lookup_delete_ne by (intros <-; by apply Hne, Hx'). rewrite (decide_False (P := _ ∧ i = x)) by (intros [_ ?]; done).
      split; [rewrite H1; apply decide_ext; naive_solver|]. rewrite Hin. intros [Hd|]; [by apply H2|done].
Qed.

Lemma hashed_fold dir lst b0 c0 b b' :
  tree_ok b0 → childs_of b0 dir = Ok c0 → nodes b = nodes b0 →
  res_fold (rescan_child dir lst) (snd <$> map_to_list c0) b = Ok b' →
  hashed dir lst b0 c0 (snd <$> map_to_list c0) b'.
Proof using.
  intros Hok Hc0 Hn Hf. revert Hf. apply (res_fold_inv _ (hashed dir lst b0 c0)).
  - split; [by apply same_nodes_tree|]. exists c0. unfold childs_of in *. rewrite Hn. split; [done|].
    intros nm i Hi. rewrite decide_False by (intros [[]%elem_of_nil _]). split; [done|]. by intros []%elem_of_nil.
  - intros treated b1 x b2 Hh Hx. apply rescan_child_hashed; try done. by eapply listed_child.
Qed.

(** The rest of [rescan] leaves the sources alone. *)
Definition sources_kept (dir : Z) (b b' : BuildContext) : Prop :=
  same_tree b b' ∧ (∀ i, get_type i = FILE → get_sig b' None i = get_sig b None i) ∧
  ∀ c, childs_of b dir = Ok c → ∃ c', childs_of b' dir = Ok c' ∧
    (∀ nm, c !! nm = None → c' !! nm = None) ∧
    ∀ nm i, c !! nm = Some i → get_type i = FILE → c' !! nm = Some i.

#[export] Instance sources_kept_preorder dir : PreOrder (sources_kept dir).
Proof using.
  split.
  - intros b. split; [done|]. split; [done|]. eauto.
  - intros b1 b2 b3 (S1 & G1 & C1) (S2 & G2 & C2). split; [by etrans|]. split; [by intros; rewrite G2, G1|].
    intros c Hc. destruct (C1 c Hc) as (c2 & Hc2 & N2 & F2). destruct (C2 c2 Hc2) as (c3 & Hc3 & N3 & F3).
    exists c3. eauto 10.
Qed.

Lemma same_nodes_kept dir b b' :
  nodes b' = nodes b → (∀ i, get_type i = FILE → get_sig b' None i = get_sig b None i) → sources_kept dir b b'.
Proof using.
  intros Hn Hg. split; [by apply same_nodes_tree|]. split; [done|]. intros c Hc. exists c. unfold childs_of in *.
  by rewrite Hn.
Qed.

Lemma list_variants_kept dir d bp lst vs : ∀ b b' e, list_variants b d bp lst vs = (b', e) → sources_kept dir b b'.
Proof using.
  induction vs as [|v vs IH]; intros b b' e; cbn [list_variants]; [by intros [= <- _]|].
  destruct (listdir_bld _ _ _ _) as [b1|] eqn:E; [|by intros [= <- _]]. intros Hb. etrans; [|by eapply IH].
  unfold listdir_bld in E. apply res_bind_Ok in E as (c & _ & E). destruct (listdir _); [|done].
  destruct (node_sigs b !! Some v); [|done]. injection E as <-.
  generalize (filter (λ x, name_of b x ∉ l) (filter (λ x, get_type x = BUILD) (snd <$> map_to_list c))) as xs.
  intros xs. clear. revert b. induction xs as [|x xs IH]; intros b; [done|]. cbn. etrans; [|apply IH].
  apply same_nodes_kept; [done|]. intros i _. rewrite get_sig_del. by rewrite decide_False by naive_solver.
Qed.

Lemma forget_build_kept dir b0 c0 b x b' :
  tree_ok b0 → childs_of b0 dir = Ok c0 → c0 !! name_of b0 x = Some x →
  sources_kept dir b0 b → forget_build dir b x = Ok b' → sources_kept dir b0 b'.
Proof using.
  intros Hok Hc0 Hx (S & G & C). unfold forget_build. destruct (Z.eqb_spec (get_type x) BUILD) as [Ht|Ht]; cbn [negb].
  2: { by intros [= <-]. }
  destruct (C c0 Hc0) as (c & Hc & HN & HF). destruct (S x) as [_ Hnx].
  intros (c' & Hc' & [= <-])%res_bind_Ok. change (childs_of b dir = Ok c') in Hc'. rewrite Hc in Hc'. injection Hc' as <-.
  set (b1 := with_sigs b _). change (name_of b1 x) with (name_of b x). rewrite Hnx. split.
  { etrans; [exact S|]. etrans; [by apply (same_nodes_tree b b1)|apply set_childs_tree]. }
  split.
  - intros i Hi. rewrite <- (G i Hi). change (get_sig (set_childs b1 dir (delete (name_of b0 x) c)) None i)
      with (get_sig b1 None i). unfold b1, get_sig. cbn [with_sigs node_sigs]. rewrite lookup_fmap.
    destruct (node_sigs b !! None) as [m|]; [|done]. cbn. rewrite lookup_delete_ne; [done|]. intros ->. by rewrite Hi in Ht.
  - intros c1 Hc1. rewrite Hc0 in Hc1. injection Hc1 as <-. exists (delete (name_of b0 x) c).
    rewrite set_childs_childs, decide_True by (done || (change (is_ok (childs_of b dir) = true); by rewrite Hc)).
    split; [done|]. split.
    + intros nm Hnm. destruct (decide (nm = name_of b0 x)) as [->|]; [apply lookup_delete_eq|].
      rewrite lookup_delete_ne by done. by apply HN.
    + intros nm i Hi Hti. rewrite lookup_delete_ne by (intros <-; rewrite Hx in Hi; injection Hi as <-; by rewrite Hti in Ht).
      by apply HF.
Qed.
End Rescan.

(** Listing a folder brings the sources known in it in line with the disk: a
    file that is still there has the hash of its contents as signature, a file
    that has gone is off the folder and has no signature. *)
Theorem rescan_signatures `{FileSystem} b dir c b' :
  tree_ok b → dir ∉ cache_scanned_folders b → childs_of b dir = Ok c → rescan b dir = Ok b' →
  ∃ c', childs_of b' dir = Ok c' ∧ ∀ nm i, c !! nm = Some i → get_type i = FILE →
    if decide (nm ∈ default [] (listdir (abspath0 b dir)))
    then c' !! nm = Some i ∧ get_sig b' None i = h_file (abspath0 b i)
    else c' !! nm = None ∧ get_sig b' None i = None.
Proof.
  intros Hok Hd Hc. unfold rescan. rewrite bool_decide_false by done.
  rewrite (abspath0_same b (with_scanned b _) dir) by by apply same_nodes_tree.
  set (lst := default [] (listdir (abspath0 b dir))). set (b1 := with_contents (with_scanned b _) _).
  assert (Hok1 : tree_ok b1) by by apply (same_nodes_ok b).
  assert (Hc1 : childs_of b1 dir = Ok c) by done. rewrite Hc1. cbn [mbind res_bind].
  intros (b2 & Hf & (sub & _ & Hr)%res_bind_Ok)%res_bind_Ok.
  pose proof (hashed_fold dir lst b1 c b1 b2 Hok1 Hc1 eq_refl Hf) as (Hs2 & c2 & Hc2 & Hh).
  destruct (list_variants _ _ _ _ _) as [b3 e] eqn:Ev.
  assert (Hok3 : tree_ok b3).
  { apply list_variants_good in Ev. apply Ev. eapply (res_fold_good _ (children_left dir)); [| |exact Hf|done].
    - by apply children_left_init. - intros. by eapply rescan_child_good. }
  apply (list_variants_kept dir) in Ev as Hk.
  assert (Hk' : sources_kept dir b2 b').
  { destruct e as [[]|]; try done; [|by injection Hr as <-]. etrans; [exact Hk|].
    apply res_bind_Ok in Hr as (c3 & Hc3 & Hr). revert Hr. apply (res_fold_inv _ (λ _, sources_kept dir b3)); [done|].
    intros _ b4 x b5 H4 Hx. apply (forget_build_kept dir b3 c3); try done. by eapply listed_child. }
  destruct Hk' as (_ & Hg & Hck). destruct (Hck c2 Hc2) as (c' & Hc' & HN & HF). exists c'. split; [done|].
  intros nm i Hi Hti. destruct (Hh nm i Hi) as [H1 H2].
  assert (Hin : i ∈ (snd <$> map_to_list c)).
  { apply list_elem_of_fmap. exists (nm, i). split; [done|]. by apply elem_of_map_to_list. }
  rewrite (Hg i Hti), (H2 Hin Hti), (abspath0_same b b1) by by apply same_nodes_tree. case_decide as Hl.
  - rewrite decide_False in H1 by naive_solver. split; [by apply HF|done].
  - rewrite decide_True in H1 by done. split; [by apply HN|done].
Qed.

(** C10: From the folders the build starts with, every sequence of operations on
    nodes keeps the tree well formed: a child is listed under its name in its
    one parent, folders are exactly the nodes typed so, and nodes are neither
    renamed nor moved nor are folders ever dropped. *)
Theorem node_operations_invariant `{FileSystem} variants srcdir blddir b b' :
  load_dirs (empty_build variants) srcdir blddir = Ok b → rtc node_step b b' → tree_ok b' ∧ later b b'.
Proof.
  intros Hl Hs. apply load_dirs_ok in Hl as Hok; [|apply empty_build_ok].
  assert (Hg : good b b'); [|by apply Hg].
  clear Hl Hok. induction Hs as [|b b1 b' Hs _ IH]; [done|]. etrans; [by apply node_step_good|exact IH].
Qed.

(** ** Relative paths *)

Section Paths.
Context (b : BuildContext).
Hypothesis Hok : tree_ok b.

Lemma parent_lt i p : parent_of b i = Some p → (0 < p < i)%Z.
Proof using Hok.
  intros Hp. pose proof (parent_exists b i p Hok Hp) as [_ Hpn]. pose proof (tk_id b Hok p Hpn).
  pose proof (tk_parent b Hok i p Hp) as [? _]. lia.
Qed.

(** The number of folders above a node. *)
Fixpoint depth_loop (fuel : nat) (i : Z) : nat :=
  match fuel with
  | 0 => 0
  | S f => match parent_of b i with Some p => S (depth_loop f p) | None => 0 end
  end.
Definition depth (i : Z) : nat := depth_loop (up_fuel i) i.
Arguments depth : simpl never.

Lemma depth_fuel f1 f2 i : Z.to_nat i < f1 → Z.to_nat i < f2 → depth_loop f1 i = depth_loop f2 i.
Proof using Hok.
  revert f2 i. induction f1 as [|f1 IH]; intros [|f2] i H1 H2; try lia. cbn.
  destruct (parent_of b i) as [p|] eqn:Hp; [|done]. apply parent_lt in Hp. f_equal. apply IH; lia.
Qed.

Lemma depth_eq i : depth i = match parent_of b i with Some p => S (depth p) | None => 0 end.
Proof using Hok.
  unfold depth at 1, up_fuel. cbn [depth_loop]. destruct (parent_of b i) as [p|] eqn:Hp; [|done].
  apply parent_lt in Hp. f_equal. apply depth_fuel; unfold up_fuel; lia.
Qed.

Lemma height_loop_depth f i v : Z.to_nat i < f → height_loop f b (Some i) v = (v + 1 + Z.of_nat (depth i))%Z.
Proof using Hok.
  revert i v. induction f as [|f IH]; intros i v Hf; [lia|]. cbn [height_loop]. rewrite depth_eq.
  destruct (parent_of b i) as [p|] eqn:Hp.
  - apply parent_lt in Hp. rewrite IH by lia. lia.
  - destruct f; cbn; lia.
Qed.

Lemma height_depth i : height b i = Z.of_nat (depth i).
Proof using Hok. unfold height. rewrite height_loop_depth by (unfold up_fuel; lia). lia. Qed.

Lemma climb_S n i : climb b (S n) i = (p ← parent_of b i; climb b n p).
Proof using. done. Qed.

Lemma climb_add n m i : climb b (n + m) i = (a ← climb b n i; climb b m a).
Proof using.
  revert i. induction n as [|n IH]; intros i; [done|]. cbn [Nat.add climb].
  destruct (parent_of b i); [|done]. cbn. apply IH.
Qed.

Lemma climb_depth n i a : climb b n i = Some a → depth i = n + depth a.
Proof using Hok.
  revert i. induction n as [|n IH]; intros i; cbn; [by intros [= ->]|]. rewrite (depth_eq i).
  destruct (parent_of b i) as [p|]; [|done]. cbn. intros ->%IH. done.
Qed.

Lemma climb_total n i : n ≤ depth i → ∃ a, climb b n i = Some a.
Proof using Hok.
  revert i. induction n as [|n IH]; intros i Hn; [by exists i|]. rewrite depth_eq in Hn. cbn.
  destruct (parent_of b i) as [p|]; [|lia]. apply IH. lia.
Qed.

Lemma climb_lt n i a : climb b (S n) i = Some a → (a < i)%Z.
Proof using Hok.
  revert i. induction n as [|n IH]; intros i; rewrite climb_S.
  - destruct (parent_of b i) as [p|] eqn:Hp; [|done]. cbn. intros [= ->]. apply parent_lt in Hp. lia.
  - destruct (parent_of b i) as [p|] eqn:Hp; [|done]. intros Ha%IH. apply parent_lt in Hp. lia.
Qed.

(** The root above a node. *)
Definition top_of (i : Z) : option Z := climb b (depth i) i.

Lemma top_of_climb n i a : climb b n i = Some a → top_of i = top_of a.
Proof using Hok.
  intros Hc. unfold top_of. rewrite (climb_depth _ _ _ Hc), climb_add, Hc. done.
Qed.

(** The loop of [find_ancestor] stops at the first common folder. *)
Lemma ancestor_loop_spec f : ∀ c d,
  depth c = depth d → top_of c = top_of d → c ≠ d → Z.to_nat c < f →
  ∃ k a, ancestor_loop f b c d = Ok (Some a) ∧ climb b (S k) c = Some a ∧ climb b (S k) d = Some a ∧
         ∀ j, j ≤ k → climb b j c ≠ climb b j d.
Proof using Hok.
  induction f as [|f IH]; intros c d Hd Ht Hne Hf; [lia|]. cbn [ancestor_loop].
  pose proof Hd as Hd'. rewrite !depth_eq in Hd'.
  destruct (parent_of b c) as [p|] eqn:Ep.
  2: { destruct (parent_of b d); [done|]. unfold top_of in Ht. rewrite <- Hd in Ht.
       rewrite (depth_eq c), Ep in Ht. cbn in Ht. by injection Ht. }
  destruct (parent_of b d) as [q|] eqn:Eq; [|done]. injection Hd' as Hd'.
  destruct (Z.eqb_spec p q) as [->|Hpq].
  - exists 0, q. rewrite !climb_S, Ep, Eq. cbn. split_and!; try done.
    intros j Hj. assert (j = 0) as -> by lia. cbn. congruence.
  - assert (Htp : top_of p = top_of q).
    { by rewrite <- (top_of_climb 1 c p), <- (top_of_climb 1 d q) by (rewrite climb_S, ?Ep, ?Eq; done). }
    pose proof (parent_lt _ _ Ep). destruct (IH p q Hd' Htp Hpq ltac:(lia)) as (k & a & Hr & Hc1 & Hc2 & Hmin).
    exists (S k), a. rewrite (climb_S (S k) c), (climb_S (S k) d), Ep, Eq. split_and!; try done.
    intros [|j] Hj; cbn; [congruence|]. rewrite Ep, Eq. cbn. apply Hmin. lia.
Qed.

(** [a] is the nearest common folder of [i] and [j], [m] and [n] levels up. *)
Definition nearest (i j : Z) (m n : nat) (a : Z) : Prop :=
  climb b m i = Some a ∧ climb b n j = Some a ∧
  ∀ m' n' a', climb b m' i = Some a' → climb b n' j = Some a' → m ≤ m' ∧ n ≤ n'.

Lemma find_ancestor_from_spec i j :
  depth j ≤ depth i → top_of i = top_of j →
  ∃ m n a, find_ancestor_from b i j = Ok (Some a) ∧ nearest i j m n a.
Proof using Hok.
  intros Hd Ht. unfold find_ancestor_from. rewrite !height_depth.
  replace (Z.to_nat (Z.of_nat (depth i) - Z.of_nat (depth j))) with (depth i - depth j) by lia.
  destruct (climb_total (depth i - depth j) i) as [c Hc]; [lia|]. rewrite Hc.
  pose proof (climb_depth _ _ _ Hc) as Hdc.
  assert (Hlow : ∀ m' n' a', climb b m' i = Some a' → climb b n' j = Some a' → m' = depth i - depth j + n').
  { intros m' n' a' H1%climb_depth H2%climb_depth. lia. }
  destruct (Z.eqb_spec c j) as [->|Hne].
  - exists (depth i - depth j), 0, j. split; [done|]. split; [done|]. split; [done|].
    intros m' n' a' H1 H2. pose proof (Hlow _ _ _ H1 H2). lia.
  - destruct (ancestor_loop_spec (up_fuel c) c j) as (k & a & Hr & H1 & H2 & Hmin); try done; try (unfold up_fuel; lia).
    { by rewrite <- (top_of_climb _ _ _ Hc). }
    exists (depth i - depth j + S k), (S k), a. split; [done|]. split; [by rewrite climb_add, Hc|]. split; [done|].
    intros m' n' a' Ha1 Ha2. pose proof (Hlow _ _ _ Ha1 Ha2) as ->. rewrite climb_add, Hc in Ha1. cbn in Ha1.
    destruct (decide (n' ≤ k)) as [Hn|Hn]; [|lia]. by destruct (Hmin n' Hn); congruence.
Qed.

Lemma find_ancestor_spec i j : top_of i = top_of j →
  ∃ m n a, find_ancestor b i j = Ok (Some a) ∧ nearest i j m n a.
Proof using Hok.
  intros Ht. unfold find_ancestor. rewrite !height_depth.
  destruct (Z.ltb_spec (Z.of_nat (depth i) - Z.of_nat (depth j)) 0).
  - destruct (find_ancestor_from_spec j i) as (m & n & a & Hr & H1 & H2 & Hmin); [lia|done|].
    exists n, m, a. split; [done|]. split; [done|]. split; [done|].
    intros m' n' a' Ha1 Ha2. destruct (Hmin n' m' a'); done.
  - apply find_ancestor_from_spec; [lia|done].
Qed.

(** The nodes below the ancestor, from [i] up. *)
Fixpoint below (n : nat) (i : Z) : list Z :=
  match n with
  | 0 => []
  | S n' => i :: match parent_of b i with Some p => below n' p | None => [] end
  end.

Lemma relpath_loop_spec n : ∀ fuel f i a,
  climb b n i = Some a → Z.to_nat i < fuel → relpath_loop fuel b f i a = Ok (f <$> below n i).
Proof using Hok.
  induction n as [|n IH]; intros [|fuel] f i a Hc Hf; try lia; cbn [relpath_loop below].
  - injection Hc as ->. by rewrite Z.eqb_refl.
  - pose proof (climb_lt _ _ _ Hc) as Hlt. rewrite (proj2 (Z.eqb_neq i a)) by lia.
    cbn in Hc. destruct (parent_of b i) as [p|] eqn:Ep; [|done]. pose proof (parent_lt _ _ Ep).
    rewrite (IH fuel f p a) by (done || lia). done.
Qed.

Lemma below_const {A} (x : A) n i a : climb b n i = Some a → (λ _, x) <$> below n i = replicate n x.
Proof using.
  revert i. induction n as [|n IH]; intros i; [done|]. cbn. destruct (parent_of b i); [|done].
  intros Hc. cbn. f_equal. by apply IH.
Qed.

(** Following a relative path. *)
Definition walk1 (i : Z) (nm : string) : option Z :=
  if nm =s "." then Some i
  else if nm =s ".." then parent_of b i
  else match childs_of b i with Ok c => c !! nm | Err _ => None end.
Fixpoint walk (i : Z) (l : list string) : option Z :=
  match l with
  | [] => Some i
  | nm :: l' => j ← walk1 i nm; walk j l'
  end.

(** The node is in the tree: each folder above lists the one below, under an
    ordinary name. *)
Definition attached (i : Z) : Prop := ∀ k x p, climb b k i = Some x → parent_of b x = Some p →
  walk1 p (name_of b x) = Some x ∧ name_of b x ≠ "..".

Lemma walk_app i l1 l2 : walk i (l1 ++ l2) = (j ← walk i l1; walk j l2).
Proof using.
  revert i. induction l1 as [|nm l1 IH]; intros i; [done|]. cbn. destruct (walk1 i nm); [|done]. cbn. apply IH.
Qed.

Lemma walk_up n i a : climb b n i = Some a → walk i (replicate n "..") = Some a.
Proof using.
  revert i. induction n as [|n IH]; intros i; [done|]. cbn. unfold walk1. cbn.
  destruct (parent_of b i); [|done]. apply IH.
Qed.

Lemma walk_down n i a : attached i → climb b n i = Some a → walk a (rev (name_of b <$> below n i)) = Some i.
Proof using.
  revert i. induction n as [|n IH]; intros i Hat Hc; [cbn in *; congruence|].
  cbn in Hc. cbn [below fmap list_fmap rev]. destruct (parent_of b i) as [p|] eqn:Ep; [|done].
  rewrite walk_app. fold (below n p). rewrite (IH p); [| |exact Hc].
  - cbn. destruct (Hat 0 i p) as [-> _]; done.
  - intros k x q Hx Hq. apply (Hat (S k) x q); [|done]. cbn. by rewrite Ep.
Qed.

Lemma attached_top i : parent_of b i = None → attached i.
Proof using.
  intros Hi k x p Hk Hp. destruct k; cbn in Hk; [congruence|]. by rewrite Hi in Hk.
Qed.
Lemma attached_child i p :
  parent_of b i = Some p → walk1 p (name_of b i) = Some i → name_of b i ≠ ".." → attached p → attached i.
Proof using.
  intros Hi Hw Hn Hp k x q Hk Hq. destruct k; cbn in Hk; [by simplify_eq|].
  rewrite Hi in Hk. by apply (Hp k).
Qed.

End Paths.

(** The relative path from a node to another, followed from the first, leads
    to the second; it goes up to their nearest common folder and no further. *)
Theorem relpath_correct b self from_node :
  tree_ok b → attached b self → top_of b self = top_of b from_node →
  ∃ l, relpath_list b self from_node = Ok l ∧ walk b from_node l = Some self ∧
       (l = ["."] ∧ self = from_node ∨ ∃ m n a, nearest b self from_node m n a ∧ length l = m + n).
Proof.
  intros Hok Hat Ht. unfold relpath_list. destruct (Z.eqb_spec self from_node) as [->|Hne].
  { exists ["."]. split; [done|]. split; [done|]. by left. }
  case_bool_decide as Hp.
  { exists [".."]. split; [done|]. split; [cbn; unfold walk1; cbn; by rewrite Hp|]. right.
    exists 0, 1, self. split; [|done]. split; [done|]. split; [by rewrite climb_S, Hp|].
    intros m' n' a' H1 H2. split; [lia|]. destruct n'; [|lia]. cbn in H2. injection H2 as <-.
    destruct m' as [|m']; [cbn in H1; congruence|]. apply climb_lt in H1; [|done].
    apply parent_lt in Hp; [|done]. lia. }
  destruct (find_ancestor_spec b Hok self from_node Ht) as (m & n & a & Hr & Hn). pose proof Hn as (H1 & H2 & _).
  rewrite Hr. cbn [mbind res_bind].
  rewrite (relpath_loop_spec b Hok m _ _ _ _ H1) by (unfold up_fuel; lia). cbn [mbind res_bind].
  rewrite (relpath_loop_spec b Hok n _ _ _ _ H2) by (unfold up_fuel; lia). cbn [mbind res_bind].
  rewrite (below_const b ".." n _ _ H2). eexists. split; [done|]. rewrite rev_app_distr.
  assert (Hrep : rev (replicate n "..") = replicate n "..").
  { clear. induction n as [|n IH]; [done|]. cbn. rewrite IH. clear. induction n as [|n IH]; [done|]. cbn. by f_equal. }
  rewrite Hrep. split.
  - rewrite walk_app, (walk_up b n _ _ H2). cbn. by apply walk_down.
  - right. exists m, n, a. split; [done|]. rewrite length_app, length_rev, length_fmap, length_replicate.
    assert (Hlen : ∀ m i a, climb b m i = Some a → length (below b m i) = m).
    { clear. induction m as [|m IH]; intros i a; [done|]. cbn. destruct (parent_of b i); [|done].
      intros Hc. f_equal. by eapply IH. }
    rewrite (Hlen m self a H1). lia.
Qed.

(** [set_type] throws the number of the node away: the id becomes the type
    alone, whatever it was. *)
Theorem set_type_forgets_id i t : (0 <= t < 4)%Z → set_type i t = t.
Proof.
  intros Ht. unfold set_type. replace (i + t - i)%Z with t by lia.
  change 3%Z with (Z.ones 2). rewrite Z.land_ones by lia. apply Z.mod_small. cbn. lia.
Qed.
Lemma set_type_forgets_id_witness : set_type 22 BUILD = BUILD.
Proof. apply (set_type_forgets_id 22 BUILD). unfold BUILD. lia. Defined.

(** ** A small tree *)

Section Demo.
#[local] Instance demo_files : FileSystem := {
  listdir p := if p =s "/s" then Some ["a.c"; "d"] else if p =s "/s/d" then Some ["b.c"; "c.c"]
               else if p =s "/o/default/" then Some ["a.o"] else None;
  h_file p := if endswith ".c" p then Some ("md5 of " +:+ p) else None;
  isdir p := (p =s "/s") || (p =s "/s/d") }.

Definition demo_build : BuildContext := from_res (empty_build []) (load_dirs (empty_build ["default"]) "/s" "/o").
Definition demo_found : option Z * BuildContext :=
  from_res (None, demo_build) (find_resource demo_build (srcnode demo_build) ["d"; "b.c"]).
Definition demo_declared : option Z * BuildContext :=
  from_res (None, demo_build) (change_ext demo_found.2 (default 0%Z demo_found.1) ".o").

Example demo_results :
  demo_found.1 = Some 22%Z ∧ demo_declared.1 = Some 27%Z ∧
  relpath_gen demo_declared.2 22 (bldnode demo_build) = Ok "../s/d/b.c" ∧
  bldpath demo_declared.2 27 "default" = Ok "default/d/b.o" ∧
  abspath demo_declared.2 27 (Some "default") = Ok "/o/default/d/b.o".
Proof. vm_compute. done. Qed.

Lemma demo_loaded : load_dirs (empty_build ["default"]) "/s" "/o" = Ok demo_build.
Proof. vm_compute. reflexivity. Qed.
Lemma demo_step1 : node_step demo_build demo_found.2.
Proof. apply (st_find_resource _ (srcnode demo_build) ["d"; "b.c"] demo_found.1). vm_compute. reflexivity. Qed.
Lemma demo_step2 : node_step demo_found.2 demo_declared.2.
Proof. apply (st_change_ext _ 22 ".o" demo_declared.1). vm_compute. reflexivity. Qed.

Lemma node_operations_invariant_witness : tree_ok demo_declared.2 ∧ later demo_build demo_declared.2.
Proof.
  apply (node_operations_invariant ["default"] "/s" "/o" demo_build demo_declared.2).
  - exact demo_loaded.
  - eapply rtc_l; [exact demo_step1|]. apply rtc_once. exact demo_step2.
Defined.

Lemma demo_ok : tree_ok demo_declared.2.
Proof.
  apply (node_step_good _ _ demo_step2), (node_step_good _ _ demo_step1).
  exact (load_dirs_ok _ _ _ _ (empty_build_ok _) demo_loaded).
Qed.

Lemma relpath_correct_witness :
  ∃ l, relpath_list demo_declared.2 22 (bldnode demo_build) = Ok l ∧
       walk demo_declared.2 (bldnode demo_build) l = Some 22%Z ∧
       (l = ["."] ∧ 22%Z = bldnode demo_build ∨
        ∃ m n a, nearest demo_declared.2 22 (bldnode demo_build) m n a ∧ length l = m + n).
Proof.
  apply (relpath_correct demo_declared.2 22 (bldnode demo_build)).
  - apply demo_ok.
  - repeat (eapply attached_child; [vm_compute; reflexivity|vm_compute; reflexivity|vm_compute; discriminate|]).
    apply attached_top. vm_compute. reflexivity.
  - vm_compute. reflexivity.
Defined.

(** A later build, in which [b.c] has gone and [c.c] has changed. *)
#[local] Instance demo_later : FileSystem := {
  listdir p := if p =s "/s/d" then Some ["c.c"] else None;
  h_file p := Some "new md5";
  isdir p := false }.

Definition demo_two : option Z * BuildContext :=
  from_res (None, demo_build) (@find_resource demo_files demo_found.2 (srcnode demo_build) ["d"; "c.c"]).
Definition demo_again : BuildContext := with_scanned demo_two.2 ∅.
Definition demo_rescanned : BuildContext := from_res demo_again (@rescan demo_later demo_again 17).

Lemma demo_two_ok : tree_ok demo_again.
Proof.
  apply (same_nodes_ok demo_two.2); [done|done|].
  assert (Hs : @node_step demo_files demo_found.2 demo_two.2).
  { apply (st_find_resource _ (srcnode demo_build) ["d"; "c.c"] demo_two.1). vm_compute. reflexivity. }
  apply (node_step_good _ _ Hs), (node_step_good _ _ demo_step1).
  exact (load_dirs_ok _ _ _ _ (empty_build_ok _) demo_loaded).
Qed.

Lemma rescan_signatures_witness :
  ∃ c', childs_of demo_rescanned 17 = Ok c' ∧ ∀ nm i, from_res ∅ (childs_of demo_again 17) !! nm = Some i →
    get_type i = FILE →
    if decide (nm ∈ default [] (@listdir demo_later (abspath0 demo_again 17)))
    then c' !! nm = Some i ∧ get_sig demo_rescanned None i = @h_file demo_later (abspath0 demo_again i)
    else c' !! nm = None ∧ get_sig demo_rescanned None i = None.
Proof.
  apply (rescan_signatures (H := demo_later) demo_again 17 (from_res ∅ (childs_of demo_again 17)) demo_rescanned).
  - exact demo_two_ok.
  - unfold demo_again. cbn [with_scanned cache_scanned_folders]. apply not_elem_of_empty.
  - vm_compute. reflexivity.
  - vm_compute. reflexivity.
Defined.

Example demo_rescanned_result :
  (c ← childs_of demo_rescanned 17; Ok (c !! "b.c", c !! "c.c")) = Ok (None, Some 26%Z) ∧
  get_sig demo_again None 22 = Some "md5 of /s/d/b.c" ∧
  get_sig demo_rescanned None 22 = None ∧ get_sig demo_rescanned None 26 = Some "new md5".
Proof. vm_compute. done. Qed.
End Demo.
