(* ===== verification/WafSig.v ===== *)
(** * Signatures and status of tasks (tools/wafadmin/Task.py, hash_env_vars of Build.py)

    A task is run again when its signature has changed: a digest of the
    signatures of its inputs, of environment variables and of the files its
    scanner finds.  Methods are computations on the state of the build and of
    one task; exceptions keep the changes made before them.  The digest and the
    file system are parameters. *)
From S2P Require Import Prelude PyStr PyState WafRunner WafEnv WafNode.

Definition SIG_NIL : string := "iluvcuteoverload".

(** The signature of a task and its parts: all, explicit dependencies, implicit
    ones, variables. *)
Record Sigs := mkSigs { sig_all : string; sig_exp : string; sig_imp : string; sig_var : string }.

(** A manual dependency: a node, a string, or a function with what it
    returns. *)
Inductive ManualDep := DepNode (i : Z) | DepStr (s : string) | DepCall (s : string).

Record Task := mkTask {
  class_name : string;
  class_vars : list string;
  env : nat;
  inputs : list Z;
  outputs : list Z;
  dep_nodes : list Z;
  deps_nodes : list Z;
  dep_vars : list string;
  scan : option (BuildContext → res (list Z * list string) * BuildContext);
  hasrun : HasRun;
  uid : option string;
  cache_sig : option Sigs;
  cached : bool }.

(** The build, the task at work and its digest in progress: all that has been
    fed to it. *)
Record State := mkState {
  bld : BuildContext;
  heap : Heap;
  task_sigs : gmap string Sigs;
  node_deps : gmap string (list Z);
  raw_deps : gmap string (list string);
  deps_man : gmap Z (list ManualDep);
  cache_sig_vars : gmap (nat * list string) string;
  task : Task;
  m : string }.
Notation M := (ST State).

Definition with_bld (s : State) b := mkState b (heap s) (task_sigs s) (node_deps s) (raw_deps s) (deps_man s)
  (cache_sig_vars s) (task s) (m s).
Definition with_task_sigs (s : State) d := mkState (bld s) (heap s) d (node_deps s) (raw_deps s) (deps_man s)
  (cache_sig_vars s) (task s) (m s).
Definition with_deps (s : State) d r := mkState (bld s) (heap s) (task_sigs s) d r (deps_man s)
  (cache_sig_vars s) (task s) (m s).
Definition with_man (s : State) d := mkState (bld s) (heap s) (task_sigs s) (node_deps s) (raw_deps s) d
  (cache_sig_vars s) (task s) (m s).
Definition with_vars (s : State) d := mkState (bld s) (heap s) (task_sigs s) (node_deps s) (raw_deps s) (deps_man s)
  d (task s) (m s).
Definition with_task (s : State) t := mkState (bld s) (heap s) (task_sigs s) (node_deps s) (raw_deps s) (deps_man s)
  (cache_sig_vars s) t (m s).
Definition with_m (s : State) x := mkState (bld s) (heap s) (task_sigs s) (node_deps s) (raw_deps s) (deps_man s)
  (cache_sig_vars s) (task s) x.

Definition set_uid (t : Task) u := mkTask (class_name t) (class_vars t) (env t) (inputs t) (outputs t) (dep_nodes t)
  (deps_nodes t) (dep_vars t) (scan t) (hasrun t) (Some u) (cache_sig t) (cached t).
Definition set_cache_sig (t : Task) c := mkTask (class_name t) (class_vars t) (env t) (inputs t) (outputs t) (dep_nodes t)
  (deps_nodes t) (dep_vars t) (scan t) (hasrun t) (uid t) c (cached t).
Definition set_hasrun (t : Task) h := mkTask (class_name t) (class_vars t) (env t) (inputs t) (outputs t) (dep_nodes t)
  (deps_nodes t) (dep_vars t) (scan t) h (uid t) (cache_sig t) (cached t).
Definition set_cached (t : Task) := mkTask (class_name t) (class_vars t) (env t) (inputs t) (outputs t) (dep_nodes t)
  (deps_nodes t) (dep_vars t) (scan t) (hasrun t) (uid t) (cache_sig t) true.

(** [set_inputs] and [set_outputs], given a list; a single node is put in a
    list. *)
Definition set_inputs (t : Task) inp := mkTask (class_name t) (class_vars t) (env t) (inputs t ++ inp) (outputs t)
  (dep_nodes t) (deps_nodes t) (dep_vars t) (scan t) (hasrun t) (uid t) (cache_sig t) (cached t).
Definition set_outputs (t : Task) out := mkTask (class_name t) (class_vars t) (env t) (inputs t) (outputs t ++ out)
  (dep_nodes t) (deps_nodes t) (dep_vars t) (scan t) (hasrun t) (uid t) (cache_sig t) (cached t).

(** ** Values of variables as text *)

Definition hex_digit (n : nat) : ascii := default "0"%char (str_get n "0123456789abcdef").
Definition quote : ascii := "'".
Definition dquote : ascii := "034".

(** [repr] of a string, with the quote character [q]. *)
Definition repr_char (q a : ascii) : string :=
  let n := nat_of_ascii a in
  if Ascii.eqb a q || (a =c "\") then String "\" (String a "")
  else if (n =? 9)%nat then "\t" else if (n =? 10)%nat then "\n" else if (n =? 13)%nat then "\r"
  else if (n <? 32)%nat || (127 <=? n)%nat then String "\" (String "x" (String (hex_digit (n / 16)) (String (hex_digit (n mod 16)) "")))
  else String a "".
Fixpoint repr_body (q : ascii) (s : string) : string :=
  match s with EmptyString => "" | String a s' => repr_char q a +:+ repr_body q s' end.
Definition repr (s : string) : string :=
  let q := if str_mem quote s && negb (str_mem dquote s) then dquote else quote in
  String q (repr_body q s) +:+ String q "".
Definition str_atom (a : atom) : string := match a with ANone => "None" | AStr s => s | AInt z => str_of_Z z end.
Definition repr_atom (a : atom) : string := match a with AStr s => repr s | _ => str_atom a end.
Definition str_list (l : list string) : string := "[" +:+ join ", " l +:+ "]".
Definition str_seen (v : seen) : string :=
  match v with SAtom a => str_atom a | SList l => str_list (repr_atom <$> l) end.

(** [env.variant()], which names a table of signatures. *)
Definition variant_name (h : Heap) (e : nat) : res string :=
  match variant h e with VAtom (AStr s) => Ok s | _ => Err TypeError end.

#[export] Instance Status_eq_dec : EqDecision Status.
Proof. solve_decision. Defined.

(** Python's digest of a string. *)
Class Digest := md5 : string → string.
(** [os.stat] of a file succeeds. *)
Class Outputs := file_exists : string → bool.

Section Signatures.
Context `{FileSystem} `{Digest}.

(** [self.m.update], [self.m.digest]. *)
Definition up (x : string) : M unit := modify (λ s, with_m s (m s +:+ x)).
Definition digest : M string := gets (λ s, md5 (m s)).

Definition rescan_node (dir : Z) : M unit :=
  r ← gets (λ s, rescan (bld s) dir);
  match r with Ok b => modify (λ s, with_bld s b) | Err e => throw e end.
Definition parent_node (x : Z) : M Z :=
  p ← gets (λ s, parent_of (bld s) x);
  match p with Some p => mret p | None => throw AttributeError end.
Definition env_variant : M string := r ← gets (λ s, variant_name (heap s) (env (task s))); lift r.
(** [node.variant(env)] *)
Definition variant_of (x : Z) : M variant_id :=
  if (get_type x =? FILE)%Z then mret None else v ← env_variant; mret (Some v).
(** [bld.node_sigs[variant][x.id]] *)
Definition node_sig (v : variant_id) (x : Z) : M string :=
  r ← gets (λ s, get_sig (bld s) v x);
  match r with Some sg => mret sg | None => throw KeyError end.
Definition set_node_sig (v : variant_id) (x : Z) (sg : string) : M unit :=
  tables ← gets (λ s, node_sigs (bld s));
  match tables !! v with
  | Some _ => modify (λ s, with_bld s (set_sig (bld s) v x sg))
  | None => throw KeyError
  end.

Definition missing_sig : exn := WafError "Missing node signature".
Definition node_sig_or_missing (v : variant_id) (x : Z) : M string :=
  r ← attempt (node_sig v x);
  match r with Err KeyError => throw missing_sig | r => lift r end.

(** The folder is listed when it was not yet. *)
Definition rescan_parent (x : Z) : M unit :=
  p ← parent_node x;
  scanned ← gets (λ s, bool_decide (p ∈ cache_scanned_folders (bld s)));
  if (scanned : bool) then mret tt else rescan_node p.

(** [unique_id]: [p] is the folder of the node before. *)
Fixpoint unique_id_loop (l : list Z) (p : option Z) (acc : string) : M string :=
  match l with
  | [] => mret acc
  | x :: l' =>
      q ← parent_node x;
      path ← gets (λ s, abspath0 (bld s) q);
      nm ← gets (λ s, name_of (bld s) x);
      unique_id_loop l' (Some q) (acc +:+ (if bool_decide (p = Some q) then "" else path) +:+ nm)
  end.
Definition unique_id : M string :=
  t ← gets task;
  match uid t with
  | Some u => mret u
  | None =>
      v ← env_variant;
      acc ← unique_id_loop (inputs t ++ outputs t) None (class_name t +:+ v);
      let u := md5 acc in
      modify (λ s, with_task s (set_uid (task s) u));; mret u
  end.

(** ** Dependencies *)

Definition hash_env_vars (e : nat) (vars : list string) : M string :=
  c ← gets cache_sig_vars;
  match c !! (e, vars) with
  | Some r => mret r
  | None =>
      h ← gets heap;
      let r := md5 (str_list (repr <$> ((λ a, str_seen (view h e a)) <$> vars))) in
      modify (λ s, with_vars s (<[(e, vars) := r]> (cache_sig_vars s)));; mret r
  end.

Definition explicit_dep (x : Z) : M unit :=
  rescan_parent x;; v ← variant_of x; sg ← node_sig_or_missing v x; up sg.
Definition manual_dep (d : ManualDep) : M unit :=
  match d with
  | DepNode i => p ← parent_node i; rescan_node p;; v ← variant_of i; sg ← node_sig_or_missing v i; up sg
  | DepStr s | DepCall s => up s
  end.
(** The table is a DefaultDict: reading it stores the empty list. *)
Definition manual_deps_of (x : Z) : M unit :=
  d ← gets (λ s, default [] (deps_man s !! x));
  modify (λ s, with_man s (<[x := d]> (deps_man s)));; for_each manual_dep d.

Definition sig_explicit_deps : M string :=
  t ← gets task;
  for_each explicit_dep (inputs t ++ dep_nodes t);;
  man ← gets deps_man;
  (if decide (man = ∅) then mret tt else for_each manual_deps_of (inputs t ++ outputs t));;
  for_each (λ x, v ← variant_of x; sg ← node_sig v x; up sg) (deps_nodes t);;
  digest.

Definition sig_vars : M string :=
  t ← gets task;
  a ← hash_env_vars (env t) (class_vars t); up a;;
  (match dep_vars t with [] => mret tt | l => b ← hash_env_vars (env t) l; up b end);;
  digest.

Definition implicit_dep (k : Z) : M unit :=
  rescan_parent k;;
  (if (get_type k =? FILE)%Z then sg ← node_sig None k; up sg
   else v ← env_variant; sg ← node_sig (Some v) k; up sg).
Definition compute_sig_implicit_deps : M string :=
  u ← unique_id;
  deps ← gets (λ s, default [] (node_deps s !! u));
  for_each implicit_dep deps;; digest.

(** The scanner works on the nodes of the build. *)
Definition run_scan (f : BuildContext → res (list Z * list string) * BuildContext) : M (list Z * list string) :=
  r ← gets (λ s, f (bld s)); modify (λ s, with_bld s r.2);; lift r.1.

Definition sig_implicit_deps (f : BuildContext → res (list Z * list string) * BuildContext) : M string :=
  key ← unique_id;
  sigs ← gets task_sigs;
  match sigs !! key with
  | Some prev =>
      r ← attempt compute_sig_implicit_deps;
      let again : M string :=
        modify (λ s, with_task_sigs s (delete key (task_sigs s)));; throw ValueError in
      match r with
      | Ok sg => if sig_imp prev =s sg then mret (sig_imp prev) else again
      | Err KeyError | Err OSError => again
      | Err e => throw e
      end
  | None =>
      '(nodes, names) ← run_scan f;
      modify (λ s, with_deps s (<[key := nodes]> (node_deps s)) (<[key := names]> (raw_deps s)));;
      r ← attempt compute_sig_implicit_deps;
      match r with Err KeyError => throw missing_sig | r => lift r end
  end.

(** [signature]: a ValueError means that the dependencies must be scanned
    again; the whole computation is repeated. *)
Fixpoint signature_loop (fuel : nat) : M string :=
  match fuel with
  | 0 => throw OutOfFuel
  | S fuel' =>
      t ← gets task;
      match cache_sig t with
      | Some c => mret (sig_all c)
      | None =>
          modify (λ s, with_m s "");;
          exp_sig ← sig_explicit_deps;
          var_sig ← sig_vars;
          r ← match scan t with
              | None => mret (Ok SIG_NIL)
              | Some f => attempt (sig_implicit_deps f)
              end;
          match r with
          | Err ValueError => signature_loop fuel'
          | Err e => throw e
          | Ok imp_sig =>
              ret ← digest;
              modify (λ s, with_task s (set_cache_sig (task s) (Some (mkSigs ret exp_sig imp_sig var_sig))));; mret ret
          end
      end
  end.
Definition signature : M string := signature_loop 2.

(** ** Must the task run? *)

(** The outputs carry the signature. *)
Fixpoint outputs_match (sg : string) (l : list Z) : M bool :=
  match l with
  | [] => mret true
  | x :: l' =>
      v ← variant_of x;
      r ← gets (λ s, get_sig (bld s) v x);
      if decide (r = Some sg) then outputs_match sg l' else mret false
  end.

(** [after] holds the tasks in [run_after], as their [hasrun]. *)
Definition runnable_status (after : list HasRun) : M Status :=
  if bool_decide (NOT_RUN ∈ after) then mret ASK_LATER
  else
    new_sig ← signature;
    key ← unique_id;
    sigs ← gets task_sigs;
    match sigs !! key with
    | None => mret RUN_ME
    | Some prev =>
        t ← gets task;
        ok ← outputs_match new_sig (outputs t);
        mret (if negb ok then RUN_ME else if new_sig =s sig_all prev then SKIP_ME else RUN_ME)
    end.

Context `{Outputs}.

(** The loop of [post_run]: the variant is that of the environment. *)
Definition store_output (sg v : string) (x : Z) : M unit :=
  e ← env_variant;
  r ← gets (λ s, abspath (bld s) x (Some e));
  path ← lift r;
  if file_exists path then set_node_sig (Some v) x sg
  else modify (λ s, with_task s (set_hasrun (task s) MISSING));; throw (WafError "missing file").

(** [post_run], up to the file cache. *)
Definition post_run : M unit :=
  sg ← signature;
  v ← env_variant;
  t ← gets task;
  for_each (store_output sg v) (outputs t);;
  key ← unique_id;
  t ← gets task;
  match cache_sig t with
  | Some c => modify (λ s, with_task_sigs s (<[key := c]> (task_sigs s)))
  | None => throw AttributeError
  end.

(** [always_run], and the methods that [update_outputs] installs. *)
Definition always (after : list HasRun) : M Status := runnable_status after;; mret RUN_ME.

Definition update_output (x : Z) : M unit :=
  e ← env_variant;
  r ← gets (λ s, abspath (bld s) x (Some e));
  path ← lift r;
  match h_file path with
  | Some hash => set_node_sig (Some e) x hash
  | None => throw IOError
  end.
Definition update_post_run : M unit :=
  post_run;;
  t ← gets task;
  match outputs t with
  | [] => throw IndexError
  | outs => for_each update_output outs
  end.

Fixpoint outputs_known (e : string) (l : list Z) : M bool :=
  match l with
  | [] => mret true
  | x :: l' => r ← gets (λ s, get_sig (bld s) (Some e) x);
               match r with Some _ => outputs_known e l' | None => mret false end
  end.
Definition update_check : M Status :=
  t ← gets task;
  match outputs t with
  | [] => throw IndexError
  | outs =>
      new_sig ← signature;
      key ← unique_id;
      sigs ← gets task_sigs;
      match sigs !! key with
      | None => throw KeyError
      | Some prev =>
          if sig_all prev =s new_sig then
            e ← env_variant; ok ← outputs_known e outs; mret (if (ok : bool) then SKIP_ME else RUN_ME)
          else mret RUN_ME
      end
  end.
Definition update_runnable_status (after : list HasRun) : M Status :=
  status ← runnable_status after;
  if decide (status = RUN_ME) then
    r ← attempt update_check;
    match r with
    | Err KeyError | Err IndexError => mret RUN_ME
    | r => lift r
    end
  else mret status.
End Signatures.

(** ** What the computations leave alone *)

(** Every run of [c] relates the states before and after by [R], and raises only
    exceptions in [E]. *)
Definition effect {A} (R : State → State → Prop) (E : exn → Prop) (c : M A) : Prop :=
  ∀ s r s', c s = (r, s') → R s s' ∧ ∀ e, r = Err e → E e.

Section Effects.
Context (R : State → State → Prop) `{!PreOrder R} (E : exn → Prop).

Lemma effect_bind {A B} (c : M A) (f : A → M B) :
  effect R E c → (∀ a, effect R E (f a)) → effect R E (c ≫= f).
Proof using All.
  intros Hc Hf s r s'. rewrite st_bind. destruct (c s) as [[a|e] s1] eqn:Ec; apply Hc in Ec as [H1 H2].
  - intros Hr. destruct (Hf a _ _ _ Hr). split; [by etrans|done].
  - intros [= <- <-]. split; [done|]. intros ? [= <-]. auto.
Qed.
Lemma effect_ret {A} (a : A) : effect R E (mret a).
Proof using All. intros s r s' [= <- <-]. done. Qed.
Lemma effect_gets {A} (f : State → A) : effect R E (gets f).
Proof using All. intros s r s' [= <- <-]. done. Qed.
Lemma effect_modify (f : State → State) : (∀ s, R s (f s)) → effect R E (modify f).
Proof using. intros Hf s r s' [= <- <-]. done. Qed.
Lemma effect_throw {A} e : E e → effect R E (throw e : M A).
Proof using All. intros He s r s' [= <- <-]. split; [done|]. by intros ? [= <-]. Qed.
Lemma effect_lift {A} (x : res A) : (∀ e, x = Err e → E e) → effect R E (lift x).
Proof using All. intros He s r s' [= <- <-]. done. Qed.
Lemma effect_for_each {A} (f : A → M unit) l : (∀ x, effect R E (f x)) → effect R E (for_each f l).
Proof using All.
  intros Hf. induction l as [|x l IH]; [apply effect_ret|]. cbn. apply effect_bind; [done|]. by intros _.
Qed.
Lemma effect_attempt {A} (c : M A) (E' : exn → Prop) : effect R E' c → effect R E (attempt c).
Proof using All.
  intros Hc s r s'. unfold attempt. destruct (c s) as [x s1] eqn:Ec. intros [= <- <-]. apply Hc in Ec as [? _]. done.
Qed.
End Effects.

Lemma effect_weaken {A} (R R' : State → State → Prop) (E E' : exn → Prop) (c : M A) :
  (∀ s s', R s s' → R' s s') → (∀ e, E e → E' e) → effect R E c → effect R' E' c.
Proof. intros HR HE Hc s r s' H. apply Hc in H as [? ?]. eauto. Qed.

(** Case analysis through a computation. *)
Ltac effect_step :=
  lazymatch goal with
  | |- effect _ _ (mret _) => apply effect_ret; exact _
  | |- effect _ _ (gets _) => apply effect_gets; exact _
  | |- effect _ _ (throw _) => apply effect_throw; [exact _|]
  | |- effect _ _ (for_each _ _) => apply effect_for_each; [exact _|intros ?]
  | |- effect _ _ (attempt _) => eapply effect_attempt; [exact _|]
  | |- effect _ _ (mbind _ _) => apply effect_bind; [exact _| |intros ?]
  | |- effect _ _ (match ?x with _ => _ end) => destruct x eqn:?
  | |- effect _ _ (let _ := _ in _) => cbv zeta
  end.

(** The task, apart from what it remembers of its signature. *)
Definition erase (t : Task) : Task := mkTask (class_name t) (class_vars t) (env t) (inputs t) (outputs t) (dep_nodes t)
  (deps_nodes t) (dep_vars t) (scan t) (hasrun t) None None (cached t).

Record frame (s s' : State) : Prop := {
  fr_heap : heap s' = heap s;
  fr_task : erase (task s') = erase (task s);
  fr_uid : ∀ u, uid (task s) = Some u → uid (task s') = Some u }.

(** Computations that only gather text for the digest. *)
Record gathers (s s' : State) : Prop := {
  ga_frame : frame s s';
  ga_sigs : task_sigs s' = task_sigs s;
  ga_cache : cache_sig (task s') = cache_sig (task s) }.

#[export] Instance frame_preorder : PreOrder frame.
Proof. split; [by split|]. intros s1 s2 s3 [] []. split; [congruence|congruence|auto]. Qed.
#[export] Instance gathers_preorder : PreOrder gathers.
Proof. split; [by split|]. intros s1 s2 s3 [] []. split; [by etrans|congruence|congruence]. Qed.

(** Exceptions other than those of the rescan protocol. *)
Definition calm (e : exn) : Prop := e ≠ ValueError ∧ e ≠ OutOfFuel.

Create HintDb effects.
#[export] Hint Extern 1 (calm _) => (split; discriminate) : effects.

Ltac effects :=
  repeat first [ assumption | solve [auto with effects] | effect_step | progress cbn beta iota | done ].

Section Gathering.
Context `{FileSystem} `{Digest}.

Lemma gathers_m s x : gathers s (with_m s x).
Proof using. by split. Qed.
Lemma gathers_bld s b : gathers s (with_bld s b).
Proof using. by split. Qed.
Lemma gathers_vars s d : gathers s (with_vars s d).
Proof using. by split. Qed.
Lemma gathers_uid s u : uid (task s) = None → gathers s (with_task s (set_uid (task s) u)).
Proof using. intros Hu. split; [split|done|done]; try done. cbn. by rewrite Hu. Qed.


(** The exceptions of a listing. *)
Lemma res_fold_errors {A B} (E : exn → Prop) (f : B → A → res B) l :
  (∀ b x e, f b x = Err e → E e) → ∀ b e, res_fold f l b = Err e → E e.
Proof using.
  intros Hf. induction l as [|x l IH]; intros b e; cbn; [done|].
  intros [He|(b1 & _ & He)]%res_bind_Err; [by eapply Hf|by eapply IH].
Qed.
Lemma childs_of_errors b i e : childs_of b i = Err e → calm e.
Proof using. unfold childs_of. destruct (nodes b !! i) as [[? ? [|]]|]; by intros [= <-]. Qed.
Lemma path_loop_errors b n : ∀ p l e, path_loop b n p l = Err e → calm e.
Proof using.
  induction n as [|n IH]; intros p l e; cbn [path_loop]; [done|]. destruct (parent_of b p); [apply IH|].
  destruct n; [done|]. by intros [= <-].
Qed.
Lemma list_variants_errors dir bp lst vs : ∀ b b' e, list_variants b dir bp lst vs = (b', Some e) → calm e.
Proof using.
  induction vs as [|v vs IH]; intros b b' e; cbn [list_variants]; [done|].
  destruct (listdir_bld _ _ _ _) as [b1|e1] eqn:El; [apply IH|]. intros [= _ <-].
  unfold listdir_bld in El. apply res_bind_Err in El as [Hc|(c & _ & El)]; [by eapply childs_of_errors|].
  destruct (listdir _); [|by injection El as <-]. destruct (node_sigs b !! Some v); [done|by injection El as <-].
Qed.
Lemma rescan_errors b dir e : rescan b dir = Err e → calm e.
Proof using.
  unfold rescan. case_bool_decide; [done|]. set (b1 := with_contents _ _).
  intros [Hc|(c & _ & [Hf|(b2 & _ & [Hp|(sub & _ & Hr)]%res_bind_Err)]%res_bind_Err)]%res_bind_Err.
  - by eapply childs_of_errors.
  - revert Hf. apply res_fold_errors. clear. intros b0 x e0. unfold rescan_child. destruct (negb _); [done|].
    case_bool_decide; [destruct (h_file _); [done|by intros [= <-]]|].
    intros [Hc|(c & _ & [=])]%res_bind_Err. by eapply childs_of_errors.
  - by eapply path_loop_errors.
  - destruct (list_variants _ _ _ _ _) as [b3 o] eqn:Ev. destruct o as [e1|]; [|done].
    apply list_variants_errors in Ev.
    destruct e1; try (by injection Hr as <-). apply res_bind_Err in Hr as [Hc|(c3 & _ & Hf)].
    + by eapply childs_of_errors.
    + revert Hf. apply res_fold_errors. clear. intros b0 x e0. unfold forget_build. destruct (negb _); [done|].
      intros [Hc|(c & _ & [=])]%res_bind_Err. by eapply childs_of_errors.
Qed.

Lemma effect_up x : effect gathers calm (up x).
Proof using. apply effect_modify. intros s. apply gathers_m. Qed.
Lemma effect_digest : effect gathers calm digest.
Proof using. apply effect_gets. exact _. Qed.
Lemma effect_rescan_node dir : effect gathers calm (rescan_node dir).
Proof using.
  intros s r s'. unfold rescan_node. rewrite st_bind. cbn. destruct (rescan (bld s) dir) as [b|e] eqn:Er.
  - intros [= <- <-]. split; [apply gathers_bld|done].
  - intros [= <- <-]. split; [done|]. intros ? [= <-]. by eapply rescan_errors.
Qed.
#[local] Hint Resolve effect_up effect_digest effect_rescan_node : effects.


(** Computations that only read. *)
Notation reads c := (effect eq calm c).
Lemma reads_gathers {A} (c : M A) : reads c → effect gathers calm c.
Proof using. apply effect_weaken; [by intros s ? <-|done]. Qed.

Lemma reads_parent_node x : reads (parent_node x).
Proof using. unfold parent_node. effects. Qed.
Lemma reads_env_variant : reads env_variant.
Proof using.
  intros s r s' [= <- <-]. split; [done|]. intros e. unfold variant_name.
  destruct (variant _ _) as [[]|]; by intros [= <-].
Qed.
#[local] Hint Resolve reads_parent_node reads_env_variant : effects.
Lemma reads_variant_of x : reads (variant_of x).
Proof using. unfold variant_of. effects. Qed.
Lemma reads_node_sig v x : reads (node_sig v x).
Proof using. unfold node_sig. effects. Qed.
Lemma reads_node_sig_or_missing v x : reads (node_sig_or_missing v x).
Proof using.
  intros s r s'. unfold node_sig_or_missing, attempt. rewrite st_bind.
  destruct (node_sig v x s) as [y s1] eqn:En. pose proof (reads_node_sig v x s y s1 En) as [<- He].
  destruct y as [sg|[]]; intros [= <- <-]; (split; [done|]); try by intros ? [= <-].
  all: intros ? [= <-]; by apply He.
Qed.
Lemma reads_unique_id_loop l : ∀ p acc, reads (unique_id_loop l p acc).
Proof using. induction l as [|x l IH]; intros p acc; cbn [unique_id_loop]; effects. Qed.
#[local] Hint Resolve reads_variant_of reads_node_sig reads_node_sig_or_missing reads_unique_id_loop reads_gathers
  : effects.

Lemma effect_rescan_parent x : effect gathers calm (rescan_parent x).
Proof using. unfold rescan_parent. effects. Qed.
#[local] Hint Resolve effect_rescan_parent : effects.

Lemma effect_unique_id : effect gathers calm unique_id.
Proof using.
  intros s r s'. unfold unique_id. rewrite st_bind. cbn [gets].
  destruct (uid (task s)) as [u|] eqn:Hu; [by intros [= <- <-]|].
  rewrite st_bind. destruct (env_variant s) as [[v|e] s1] eqn:Ev; apply reads_env_variant in Ev as [<- He].
  2: { intros [= <- <-]. split; [done|]. intros ? [= <-]. auto. }
  rewrite st_bind. destruct (unique_id_loop _ _ _ s) as [[acc|e] s2] eqn:El; apply reads_unique_id_loop in El as [<- He2].
  2: { intros [= <- <-]. split; [done|]. intros ? [= <-]. auto. }
  intros [= <- <-]. split; [|done]. by apply gathers_uid.
Qed.
#[local] Hint Resolve effect_unique_id : effects.

Lemma effect_hash_env_vars e vars : effect gathers calm (hash_env_vars e vars).
Proof using.
  unfold hash_env_vars. effects. apply effect_modify. intros s. apply gathers_vars.
Qed.
#[local] Hint Resolve effect_hash_env_vars : effects.
Lemma effect_explicit_dep x : effect gathers calm (explicit_dep x).
Proof using. unfold explicit_dep. effects. Qed.
Lemma effect_manual_dep d : effect gathers calm (manual_dep d).
Proof using. unfold manual_dep. effects. Qed.
#[local] Hint Resolve effect_explicit_dep effect_manual_dep : effects.
Lemma effect_manual_deps_of x : effect gathers calm (manual_deps_of x).
Proof using. unfold manual_deps_of. effects. by apply effect_modify. Qed.
#[local] Hint Resolve effect_manual_deps_of : effects.
Lemma effect_sig_explicit_deps : effect gathers calm sig_explicit_deps.
Proof using. unfold sig_explicit_deps. effects. Qed.
Lemma effect_sig_vars : effect gathers calm sig_vars.
Proof using. unfold sig_vars. effects. Qed.
Lemma effect_implicit_dep k : effect gathers calm (implicit_dep k).
Proof using. unfold implicit_dep. effects. Qed.
#[local] Hint Resolve effect_sig_explicit_deps effect_sig_vars effect_implicit_dep : effects.
Lemma effect_compute : effect gathers calm compute_sig_implicit_deps.
Proof using. unfold compute_sig_implicit_deps. effects. Qed.

Lemma unique_id_known s u : uid (task s) = Some u → unique_id s = (Ok u, s).
Proof using. intros Hu. unfold unique_id. rewrite st_bind. cbn [gets]. by rewrite Hu. Qed.
Lemma unique_id_Ok s u s' : unique_id s = (Ok u, s') → uid (task s') = Some u.
Proof using.
  unfold unique_id. rewrite st_bind. cbn [gets]. destruct (uid (task s)) as [v|] eqn:Hu.
  - by intros [= <- <-].
  - intros Hr. st_inv. done.
Qed.

(** ** The second look at the dependencies *)

(** The scanner raises nothing the protocol gives a meaning to. *)
Definition scan_calm (t : Task) : Prop := ∀ f b e b', scan t = Some f → f b = (Err e, b') → calm e.
(** The signature of the run before has been dropped. *)
Definition forgotten (s : State) : Prop := ∃ u, uid (task s) = Some u ∧ task_sigs s !! u = None.

Lemma gathers_forgotten s s' : gathers s s' → forgotten s → forgotten s'.
Proof using.
  intros Hg (u & Hu & Hs). exists u. split; [by apply (fr_uid _ _ (ga_frame _ _ Hg))|].
  by rewrite (ga_sigs _ _ Hg).
Qed.

Lemma frame_fields s s' : frame s s' →
  scan (task s') = scan (task s) ∧ outputs (task s') = outputs (task s) ∧ inputs (task s') = inputs (task s) ∧
  env (task s') = env (task s) ∧ heap s' = heap s.
Proof using. intros [Hh Ht _]. unfold erase in Ht. by injection Ht. Qed.

Lemma run_scan_eq f s : run_scan f s = ((f (bld s)).1, with_bld s (f (bld s)).2).
Proof using. done. Qed.
Lemma frame_run_scan f : effect frame (λ _, True) (run_scan f).
Proof using. unfold run_scan. effects; [by apply effect_modify|]. apply effect_lift; [exact _|done]. Qed.
Lemma frame_compute : effect frame (λ _, True) compute_sig_implicit_deps.
Proof using. eapply effect_weaken; [| |exact effect_compute]; [by intros ? ? []|done]. Qed.
Lemma frame_unique_id : effect frame (λ _, True) unique_id.
Proof using. eapply effect_weaken; [| |exact effect_unique_id]; [by intros ? ? []|done]. Qed.
#[local] Hint Resolve frame_run_scan frame_compute frame_unique_id : effects.

Lemma frame_sig_implicit f : effect frame (λ _, True) (sig_implicit_deps f).
Proof using.
  unfold sig_implicit_deps. effects; try by apply effect_modify. all: apply effect_lift; [exact _|done].
Qed.

(** Without a signature of a run before, nothing calls for a second look. *)
Lemma sig_implicit_forgotten s f r s' :
  (∀ b e b', f b = (Err e, b') → calm e) → forgotten s → sig_implicit_deps f s = (r, s') →
  ∀ e, r = Err e → calm e.
Proof using.
  intros Hf (u & Hu & Hs). unfold sig_implicit_deps. rewrite (st_bind_run _ _ _ _ _ (unique_id_known s u Hu)).
  rewrite st_bind. cbn [gets]. rewrite Hs, st_bind, run_scan_eq.
  destruct (f (bld s)) as [[[nodes names]|e0] b] eqn:Ef; cbn [fst snd].
  - rewrite st_bind. cbn [modify]. rewrite st_bind. unfold attempt.
    match goal with |- context [compute_sig_implicit_deps ?s0] =>
      destruct (compute_sig_implicit_deps s0) as [y s2] eqn:Ec end. apply effect_compute in Ec as [_ He].
    destruct y as [sg|[]]; intros [= <- <-] e; try by intros [= <-]. all: intros [= <-]; by apply He.
  - intros [= <- <-] e [= <-]. by eapply Hf.
Qed.

Lemma sig_implicit_errors s f e s' :
  (∀ b e b', f b = (Err e, b') → calm e) → sig_implicit_deps f s = (Err e, s') →
  calm e ∨ e = ValueError ∧ forgotten s' ∧ cache_sig (task s') = cache_sig (task s).
Proof using.
  intros Hf. unfold sig_implicit_deps. rewrite st_bind. destruct (unique_id s) as [[key|e1] s1] eqn:Eu.
  2: { intros [= <- <-]. left. apply effect_unique_id in Eu as [_ He]. by apply He. }
  pose proof (effect_unique_id _ _ _ Eu) as [Hg1 _]. apply unique_id_Ok in Eu as Hu.
  rewrite st_bind. cbn [gets]. destruct (task_sigs s1 !! key) as [prev|] eqn:Ep.
  - rewrite st_bind. unfold attempt at 1. destruct (compute_sig_implicit_deps s1) as [y s2] eqn:Ec.
    apply effect_compute in Ec as [Hg2 He].
    assert (Hagain : ∀ e0 s0, (modify (λ s, with_task_sigs s (delete key (task_sigs s)));; throw ValueError) s2 =
      (Err e0 : res string, s0) → e0 = ValueError ∧ forgotten s0 ∧ cache_sig (task s0) = cache_sig (task s)).
    { intros e0 s0 [= <- <-]. split; [done|]. split.
      - exists key. cbn. split; [by apply (fr_uid _ _ (ga_frame _ _ Hg2))|]. apply lookup_delete_eq.
      - cbn. by rewrite (ga_cache _ _ Hg2), (ga_cache _ _ Hg1). }
    destruct y as [sg|e2].
    + destruct (_ =s _); [done|]. intros Hr. right. by apply Hagain.
    + destruct e2; intros Hr; try (right; by apply Hagain); left; injection Hr as <- _; by apply He.
  - intros Hr. left. eapply (sig_implicit_forgotten s1 f (Err e) s'); [done|by exists key| |done].
    unfold sig_implicit_deps. rewrite (st_bind_run _ _ _ _ _ (unique_id_known s1 key Hu)), st_bind. cbn [gets].
    by rewrite Ep.
Qed.

(** A round of [signature], up to its decision to start again. *)
Definition signature_round : M (res string) :=
  t ← gets task;
  modify (λ s, with_m s "");;
  exp_sig ← sig_explicit_deps;
  var_sig ← sig_vars;
  r ← match scan t with
      | None => mret (Ok SIG_NIL)
      | Some f => attempt (sig_implicit_deps f)
      end;
  match r with
  | Err ValueError => mret (Err ValueError)
  | Err e => throw e
  | Ok imp_sig =>
      ret ← digest;
      modify (λ s, with_task s (set_cache_sig (task s) (Some (mkSigs ret exp_sig imp_sig var_sig))));; mret (Ok ret)
  end.

Lemma signature_loop_S fuel s : cache_sig (task s) = None →
  signature_loop (S fuel) s =
    match signature_round s with
    | (Ok (Ok sg), s') => (Ok sg, s')
    | (Ok (Err ValueError), s') => signature_loop fuel s'
    | (Ok (Err e), s') | (Err e, s') => (Err e, s')
    end.
Proof using.
  intros Hc. cbn [signature_loop]. unfold signature_round. rewrite !st_bind. cbn [gets]. rewrite Hc, !st_bind.
  cbn [modify]. rewrite !st_bind. destruct (sig_explicit_deps _) as [[x|e] s1]; [|by destruct e].
  rewrite !st_bind. destruct (sig_vars s1) as [[y|e] s2]; [|by destruct e]. rewrite !st_bind.
  match goal with |- context [match ?c s2 with _ => _ end] => destruct (c s2) as [[[i|e]|e] s3] end;
    [done|by destruct e|by destruct e].
Qed.
Lemma signature_loop_cached fuel s c : cache_sig (task s) = Some c → signature_loop (S fuel) s = (Ok (sig_all c), s).
Proof using. intros Hc. cbn [signature_loop]. rewrite st_bind. cbn [gets]. by rewrite Hc. Qed.

Lemma signature_loop_again fuel s s' : cache_sig (task s) = None →
  signature_round s = (Ok (Err ValueError), s') → signature_loop (S fuel) s = signature_loop fuel s'.
Proof using. intros Hc Hr. by rewrite signature_loop_S, Hr. Qed.

(** Up to the implicit dependencies a round only gathers. *)
Lemma round_cases s r s' : signature_round s = (r, s') → scan_calm (task s) →
  match r with
  | Ok (Ok sg) => frame s s' ∧ ∃ c, cache_sig (task s') = Some c ∧ sig_all c = sg
  | Ok (Err e) => e = ValueError ∧ frame s s' ∧ forgotten s' ∧ ¬ forgotten s ∧ cache_sig (task s') = cache_sig (task s)
  | Err e => calm e
  end.
Proof using.
  intros Hr Hcalm. unfold signature_round in Hr. rewrite st_bind in Hr. cbn [gets] in Hr. rewrite st_bind in Hr.
  cbn [modify] in Hr. rewrite st_bind in Hr.
  pose proof (gathers_m s "") as Hg0.
  destruct (sig_explicit_deps (with_m s "")) as [[x|e] s1] eqn:E1; pose proof (effect_sig_explicit_deps _ _ _ E1) as [Hg1 He1].
  2: { injection Hr as <- <-. auto. }
  rewrite st_bind in Hr. destruct (sig_vars s1) as [[y|e] s2] eqn:E2; pose proof (effect_sig_vars _ _ _ E2) as [Hg2 He2].
  2: { injection Hr as <- <-. auto. }
  assert (Hg : gathers s s2) by (etrans; [exact Hg0|]; by etrans). rewrite st_bind in Hr. clear Hg0 Hg1 Hg2 He1 He2 E1 E2.
  destruct (scan (task s)) as [f|] eqn:Ef.
  2: { injection Hr as <- <-. split; [|by eexists]. etrans; [apply Hg|]. by split. }
  assert (Hf : ∀ b e b', f b = (Err e, b') → calm e) by (intros b e b'; by apply Hcalm).
  unfold attempt in Hr. destruct (sig_implicit_deps f s2) as [i s3] eqn:E3.
  apply frame_sig_implicit in E3 as Hfr. destruct Hfr as [Hfr _].
  assert (Hfr' : frame s s3) by (etrans; [apply Hg|done]).
  destruct i as [imp|e].
  - injection Hr as <- <-. split; [|by eexists]. etrans; [exact Hfr'|]. by split.
  - destruct (decide (e = ValueError)) as [->|Hne].
    + injection Hr as <- <-. destruct (sig_implicit_errors _ _ _ _ Hf E3) as [[]|(_ & Hfo & Hca)]; [done|].
      split; [done|]. split; [done|]. split; [done|]. split.
      * intros Hs%(gathers_forgotten s s2); [|done].
        destruct (sig_implicit_forgotten _ _ _ _ Hf Hs E3 ValueError eq_refl). done.
      * by rewrite Hca, (ga_cache _ _ Hg).
    + destruct (sig_implicit_errors _ _ _ _ Hf E3) as [Hce|(-> & _)]; [|done].
      by destruct e; try done; injection Hr as <- <-.
Qed.

Lemma scan_calm_frame s s' : frame s s' → scan_calm (task s) → scan_calm (task s').
Proof using. intros Hf Hs f b e b'. destruct (frame_fields _ _ Hf) as (-> & _). apply Hs. Qed.

(** [signature] computes or raises; when it returns, the task remembers. *)
Lemma signature_cases fuel s r s' :
  scan_calm (task s) → 2 ≤ fuel ∨ (1 ≤ fuel ∧ forgotten s) → signature_loop fuel s = (r, s') →
  match r with
  | Ok sg => frame s s' ∧ ∃ c, cache_sig (task s') = Some c ∧ sig_all c = sg
  | Err e => calm e
  end.
Proof using.
  revert s. induction fuel as [|fuel IH]; intros s Hs Hfuel; [lia|].
  destruct (cache_sig (task s)) as [c|] eqn:Hc.
  { rewrite (signature_loop_cached _ _ c Hc). intros [= <- <-]. split; [done|eauto]. }
  rewrite signature_loop_S by done. destruct (signature_round s) as [x s1] eqn:Er.
  pose proof (round_cases _ _ _ Er Hs) as Hx. destruct x as [[sg|e]|e].
  - by intros [= <- <-].
  - destruct Hx as (-> & Hfr & Hfo & Hnf & _). intros Hr.
    apply IH in Hr; [|by eapply scan_calm_frame|right; split; [naive_solver lia|done]].
    destruct r; [|done]. destruct Hr as [? ?]. split; [by etrans|done].
  - destruct e; by intros [= <- <-].
Qed.

Lemma signature_result s r s' : scan_calm (task s) → signature s = (r, s') →
  match r with
  | Ok sg => frame s s' ∧ ∃ c, cache_sig (task s') = Some c ∧ sig_all c = sg
  | Err e => calm e
  end.
Proof using. intros Hs Hr. apply (signature_cases 2 s r s' Hs); [lia|exact Hr]. Qed.

Lemma signature_loop_fuel f1 f2 s :
  scan_calm (task s) → (2 ≤ f1 ∧ 2 ≤ f2) ∨ (1 ≤ f1 ∧ 1 ≤ f2 ∧ forgotten s) →
  signature_loop f1 s = signature_loop f2 s.
Proof using.
  revert f2 s. induction f1 as [|f1 IH]; intros [|f2] s Hs Hfuel; try lia.
  destruct (cache_sig (task s)) as [c|] eqn:Hc; [by rewrite !(signature_loop_cached _ _ c Hc)|].
  rewrite !signature_loop_S by done. destruct (signature_round s) as [x s1] eqn:Er.
  pose proof (round_cases _ _ _ Er Hs) as Hx. destruct x as [[sg|e]|e]; [done| |done].
  destruct Hx as (-> & Hfr & Hfo & Hnf & _). apply IH; [by eapply scan_calm_frame|right; naive_solver lia].
Qed.
End Gathering.

(** C18: The signature is computed in at most two rounds, for a scanner that does
    not itself raise the ValueError that asks for another: more rounds change
    nothing, and the result is a signature, which the task remembers, or an
    exception of the build. *)
Theorem signature_terminates `{FileSystem, Digest} n s :
  scan_calm (task s) →
  signature_loop (2 + n) s = signature s ∧
  match signature s with
  | (Ok sg, s') => ∃ c, cache_sig (task s') = Some c ∧ sig_all c = sg
  | (Err e, _) => calm e
  end.
Proof.
  intros Hs. split; [apply signature_loop_fuel; [done|lia]|].
  destruct (signature s) as [r s'] eqn:Er. apply signature_result in Er; [|done]. destruct r; [|done]. apply Er.
Qed.

(** ** Status *)

(** The signature that the build has for a node, in the task's variant. *)
Definition read_sig (s : State) (x : Z) : option string :=
  if (get_type x =? FILE)%Z then get_sig (bld s) None x
  else match variant_name (heap s) (env (task s)) with Ok v => get_sig (bld s) (Some v) x | Err _ => None end.

Section Status.
Context `{FileSystem} `{Digest}.

Lemma variant_of_cases s x r s' : variant_of x s = (r, s') →
  s' = s ∧ match r with
           | Ok v => read_sig s x = get_sig (bld s) v x
           | Err _ => read_sig s x = None
           end.
Proof using.
  unfold variant_of, read_sig. destruct (get_type x =? FILE)%Z; [by intros [= <- <-]|].
  rewrite st_bind. unfold env_variant. rewrite st_bind. cbn [gets lift].
  destruct (variant_name _ _); by intros [= <- <-].
Qed.

Lemma outputs_match_cases sg l : ∀ s b s', outputs_match sg l s = (Ok b, s') →
  s' = s ∧ (b = true ↔ ∀ x, x ∈ l → read_sig s x = Some sg).
Proof using.
  induction l as [|x l IH]; intros s b s'; cbn [outputs_match].
  { intros [= <- <-]. split; [done|]. split; [by intros _ x []%elem_of_nil|done]. }
  rewrite st_bind. destruct (variant_of x s) as [[v|e] s1] eqn:Ev; [|done].
  apply variant_of_cases in Ev as [-> Hr]. rewrite st_bind. cbn [gets]. case_decide as Hd.
  - intros [-> Hb]%IH. split; [done|]. rewrite Hb. setoid_rewrite elem_of_cons. rewrite <- Hr in Hd. naive_solver.
  - intros [= <- <-]. split; [done|]. split; [done|]. intros Hall. destruct Hd. rewrite <- Hr. apply Hall. by left.
Qed.

(** A dropped signature stays dropped while the signature is computed again. *)
Definition stays_forgotten (s s' : State) : Prop :=
  ∀ u, uid (task s) = Some u → task_sigs s !! u = None → uid (task s') = Some u ∧ task_sigs s' !! u = None.
#[local] Instance stays_forgotten_preorder : PreOrder stays_forgotten.
Proof using. split; [by intros s u|]. intros s1 s2 s3 H1 H2 u Hu Hs. destruct (H1 u Hu Hs). by apply H2. Qed.

Lemma gathers_stays s s' : gathers s s' → stays_forgotten s s'.
Proof using.
  intros Hg u Hu Hs. split; [by apply (fr_uid _ _ (ga_frame _ _ Hg))|]. by rewrite (ga_sigs _ _ Hg).
Qed.
Lemma effect_stays {A} (c : M A) : effect gathers calm c → effect stays_forgotten (λ _, True) c.
Proof using. apply effect_weaken; [apply gathers_stays|done]. Qed.

Lemma stays_sig_implicit f : effect stays_forgotten (λ _, True) (sig_implicit_deps f).
Proof using.
  unfold sig_implicit_deps, run_scan. effects.
  all: try (apply effect_stays; apply effect_unique_id || apply effect_compute).
  all: try (apply effect_lift; [exact _|done]).
  all: apply effect_modify; intros s0 u Hu Hs; split; try done.
  all: cbn; by rewrite lookup_delete_None; right.
Qed.

Lemma stays_round : effect stays_forgotten (λ _, True) signature_round.
Proof using.
  unfold signature_round. effects.
  all: first [apply stays_sig_implicit | apply effect_stays, effect_sig_explicit_deps
    | apply effect_stays, effect_sig_vars | apply effect_stays, effect_digest
    | apply effect_modify; by intros s0 u].
Qed.
Lemma stays_signature fuel : effect stays_forgotten (λ _, True) (signature_loop fuel).
Proof using.
  induction fuel as [|fuel IH]; [cbn; effects|]. intros s r s' Hr.
  destruct (cache_sig (task s)) as [c|] eqn:Hc.
  { rewrite (signature_loop_cached _ _ c Hc) in Hr. injection Hr as <- <-. done. }
  rewrite signature_loop_S in Hr by done. destruct (signature_round s) as [x s1] eqn:Er.
  apply stays_round in Er as [H1 _].
  destruct x as [[sg|[]]|[]]; try (injection Hr as <- <-; done). apply IH in Hr as [H2 _]. split; [by etrans|done].
Qed.
End Status.

(** C4: A task that need not wait is skipped exactly when it has run before with
    the signature it has now and all its outputs carry that signature; otherwise
    it runs. *)
Theorem runnable_status_correct `{FileSystem, Digest} after s st s' :
  scan_calm (task s) → NOT_RUN ∉ after → runnable_status after s = (Ok st, s') →
  ∃ c u, cache_sig (task s') = Some c ∧ uid (task s') = Some u ∧ (st = SKIP_ME ∨ st = RUN_ME) ∧
    (st = SKIP_ME ↔ ∃ prev, task_sigs s' !! u = Some prev ∧ sig_all prev = sig_all c ∧
                            ∀ x, x ∈ outputs (task s') → read_sig s' x = Some (sig_all c)).
Proof.
  intros Hs Ha. unfold runnable_status. rewrite bool_decide_false by done. rewrite st_bind.
  destruct (signature s) as [[sg|e] s1] eqn:E1; [|done]. apply signature_result in E1 as (_ & c & Hc & <-); [|done].
  rewrite st_bind. destruct (unique_id s1) as [[u|e] s2] eqn:E2; [|done].
  pose proof (effect_unique_id _ _ _ E2) as [Hg _]. apply unique_id_Ok in E2. rewrite <- (ga_cache _ _ Hg) in Hc.
  rewrite st_bind. cbn [gets]. destruct (task_sigs s2 !! u) as [prev|] eqn:Ep.
  2: { intros [= <- <-]. exists c, u. rewrite Ep. naive_solver. }
  rewrite st_bind. cbn [gets]. rewrite st_bind.
  destruct (outputs_match (sig_all c) (outputs (task s2)) s2) as [[b|e] s3] eqn:Eo; [|done].
  apply outputs_match_cases in Eo as [-> Hb]. intros [= <- <-]. exists c, u. rewrite Ep.
  split_and!; try done; destruct b; cbn [negb]; try (destruct (String.eqb_spec (sig_all c) (sig_all prev))); auto.
  - split; [|done]. intros _. exists prev. split; [done|]. split; [done|]. by apply Hb.
  - split; [done|]. intros (prev' & [= <-] & He & _). congruence.
  - split; [done|]. intros (prev' & [= <-] & _ & Hall). by apply Hb in Hall.
  - split; [done|]. intros (prev' & [= <-] & _ & Hall). by apply Hb in Hall.
Qed.

(** When the files found by the scanner, or anything before them, have changed
    since the last run, the dependencies are scanned again and the task runs. *)
Theorem changed_dependencies_run `{FileSystem, Digest} after s s1 e st s' :
  scan_calm (task s) → NOT_RUN ∉ after → cache_sig (task s) = None →
  signature_round s = (Ok (Err e), s1) → runnable_status after s = (Ok st, s') → st = RUN_ME.
Proof.
  intros Hs Ha Hc Hr. unfold runnable_status. rewrite bool_decide_false by done. rewrite st_bind.
  apply round_cases in Hr as Hx; [|done]. destruct Hx as (-> & _ & (u & Hu & Hf) & _ & _).
  unfold signature. rewrite signature_loop_S, Hr by done.
  destruct (signature_loop 1 s1) as [[sg|e] s2] eqn:E1; [|done].
  apply stays_signature in E1 as [Hst _]. destruct (Hst u Hu Hf) as [Hu2 Hf2].
  rewrite st_bind, (unique_id_known _ _ Hu2), st_bind. cbn [gets]. rewrite Hf2. by intros [= <- _].
Qed.
