(* ===== verification/WafRebuild.v ===== *)
(** * Running a task twice (tools/wafadmin/Task.py)

    What is true after [post_run]: a second build skips the task, unless an
    input has changed; and the cache of output files.  Follows WafSig.v. *)
From S2P Require Import Prelude PyStr PyState WafRunner WafEnv WafNode WafSig.

(** ** The file cache *)

(** What [post_run] does to the cache folder. *)
Inductive CacheAction := MakeTemp | RemoveTree (d : string) | CopyIn (x : Z) (d : string) | Rename (d1 d2 : string)
  | Chmod (d : string).

(** [copied]: whether the copy of a node succeeds.  The copies stop at the first
    failure. *)
Fixpoint copy_outputs (copied : Z → bool) (tmpdir : string) (l : list Z) : list CacheAction * bool :=
  match l with
  | [] => ([], true)
  | x :: l' =>
      if copied x then let '(a, ok) := copy_outputs copied tmpdir l' in (CopyIn x tmpdir :: a, ok)
      else ([CopyIn x tmpdir], false)
  end.

(** The end of [post_run]: what it does, given [mkdtemp]'s folder and which
    copies and renames succeed; the failures of [rmtree] and [chmod] are
    ignored. *)
Definition cache_store (cache_global : option string) (nocache : bool) (t : Task) (ssig : string)
    (tmpdir : res string) (copied : Z → bool) (renamed : bool) : res (list CacheAction) :=
  match cache_global with
  | None => Ok []
  | Some dir =>
      if nocache || bool_decide (outputs t = []) || cached t then Ok []
      else
        let dname := os_path_join [dir; ssig] in
        tmp ← tmpdir;
        let '(a, ok) := copy_outputs copied tmp (outputs t) in
        Ok (MakeTemp :: RemoveTree dname :: a ++
            (if ok then Rename tmp dname :: (if renamed then [Chmod dname] else [RemoveTree tmp])
             else [RemoveTree tmp]))
  end.

Section Retrieve.
Context `{FileSystem} `{Digest}.

(** The second loop of [can_retrieve_cache], with the variant the first one
    ended with. *)
Definition restore_output (sg : string) (v : variant_id) (x : Z) : M unit := set_node_sig v x sg.

(** [can_retrieve_cache]: [t1] and [t2] are the times of the cached folder before
    and after the copies. *)
Definition can_retrieve_cache (cache_global : option string) (nocache : bool) (t1 t2 : option Z) (copied : Z → bool)
    : M bool :=
  t ← gets task;
  if bool_decide (cache_global = None) || nocache || bool_decide (outputs t = []) then mret false
  else
    sg ← signature;
    match t1 with
    | None => mret false
    | Some time1 =>
        if negb (forallb copied (outputs t)) then mret false
        else if decide (t2 = Some time1) then
          v ← variant_of (List.last (outputs t) 0%Z);
          for_each (restore_output sg v) (outputs t);;
          modify (λ s, with_task s (set_cached (task s)));; mret true
        else mret false
    end.
End Retrieve.

(** ** Tasks without a scanner *)

(** The concatenation of strings. *)
Fixpoint cat (l : list string) : string := match l with [] => "" | x :: l' => x +:+ cat l' end.
Lemma cat_app l1 l2 : cat (l1 ++ l2) = cat l1 +:+ cat l2.
Proof. induction l1 as [|x l1 IH]; [done|]. cbn [app cat].  rewrite IH. by rewrite str_app_assoc. Qed.

(** Strings of the same length can be told apart in a concatenation. *)
Lemma append_inj (x1 x2 y1 y2 : string) :
  String.length x1 = String.length x2 → x1 +:+ y1 = x2 +:+ y2 → x1 = x2 ∧ y1 = y2.
Proof.
  revert x2. induction x1 as [|a x1 IH]; intros [|b x2]; try done. intros [= Hl] [= -> H].
  destruct (IH x2 Hl H) as [-> ->]. done.
Qed.
Lemma cat_inj n (l1 l2 : list string) y1 y2 :
  length l1 = length l2 → Forall (λ x, String.length x = n) l1 → Forall (λ x, String.length x = n) l2 →
  cat l1 +:+ y1 = cat l2 +:+ y2 → l1 = l2.
Proof.
  revert l2. induction l1 as [|x l1 IH]; intros [|x2 l2]; try done. intros [= Hl] [Hx H1]%Forall_cons [Hx2 H2]%Forall_cons.
  cbn [cat].  rewrite !str_app_assoc. intros Hc. apply append_inj in Hc as [-> Hc]; [|congruence].
  f_equal. by apply IH.
Qed.

Definition vars_digest `{Digest} (h : Heap) (e : nat) (vars : list string) : string :=
  md5 (str_list (repr <$> ((λ a, str_seen (view h e a)) <$> vars))).

(** The text that stands for the variables. *)
Definition vars_text `{Digest} (s : State) : string :=
  vars_digest (heap s) (env (task s)) (class_vars (task s)) +:+
  match dep_vars (task s) with [] => "" | l => vars_digest (heap s) (env (task s)) l end.

(** Everything a task without a scanner depends on is known: the folders have been
    listed, the signatures read are [l1] and [l2], and hashes of variables kept
    from before are up to date. *)
Record settled `{Digest} (s : State) (l1 l2 : list string) : Prop := {
  se_cache : cache_sig (task s) = None;
  se_scan : scan (task s) = None;
  se_man : deps_man s = ∅;
  se_listed : ∀ x, x ∈ inputs (task s) ++ dep_nodes (task s) →
    ∃ p, parent_of (bld s) x = Some p ∧ p ∈ cache_scanned_folders (bld s);
  se_inputs : Forall2 (λ x sg, read_sig s x = Some sg) (inputs (task s) ++ dep_nodes (task s)) l1;
  se_deps : Forall2 (λ x sg, read_sig s x = Some sg) (deps_nodes (task s)) l2;
  se_vars : ∀ e l r, cache_sig_vars s !! (e, l) = Some r → r = vars_digest (heap s) e l }.

Section Settled.
Context `{FileSystem} `{Digest}.

Lemma node_sig_run s x sg : read_sig s x = Some sg → (v ← variant_of x; node_sig v x) s = (Ok sg, s).
Proof using.
  intros Hr. rewrite st_bind. destruct (variant_of x s) as [r s1] eqn:Ev. apply variant_of_cases in Ev as [-> Hv].
  destruct r as [v|e]; [|congruence]. unfold node_sig. rewrite st_bind. cbn [gets]. by rewrite <- Hv, Hr.
Qed.

Lemma rescan_parent_run s x :
  (∃ p, parent_of (bld s) x = Some p ∧ p ∈ cache_scanned_folders (bld s)) → rescan_parent x s = (Ok tt, s).
Proof using.
  intros (p & Hp & Hl). unfold rescan_parent, parent_node. rewrite st_bind, st_bind. cbn [gets]. rewrite Hp.
  cbn [mret ST_ret]. rewrite st_bind. cbn [gets]. by rewrite bool_decide_true.
Qed.

Lemma explicit_dep_run s x sg :
  (∃ p, parent_of (bld s) x = Some p ∧ p ∈ cache_scanned_folders (bld s)) → read_sig s x = Some sg →
  explicit_dep x s = (Ok tt, with_m s (m s +:+ sg)).
Proof using.
  intros Hl Hr. unfold explicit_dep. rewrite st_bind, (rescan_parent_run s x Hl).
  apply node_sig_run in Hr. rewrite st_bind in Hr. rewrite st_bind. destruct (variant_of x s) as [[v|e] s1]; [|done].
  rewrite st_bind. unfold node_sig_or_missing, attempt. by rewrite st_bind, Hr.
Qed.

Lemma explicit_deps_run l sgs : ∀ s,
  (∀ x, x ∈ l → ∃ p, parent_of (bld s) x = Some p ∧ p ∈ cache_scanned_folders (bld s)) →
  Forall2 (λ x sg, read_sig s x = Some sg) l sgs →
  for_each explicit_dep l s = (Ok tt, with_m s (m s +:+ cat sgs)).
Proof using.
  revert sgs. induction l as [|x l IH]; intros sgs s Hl Hr; inversion Hr as [|? sg ? sgs' Hx Hrest]; subst.
  - cbn. by rewrite str_app_nil_r; destruct s.
  - cbn [for_each]. rewrite st_bind, (explicit_dep_run s x sg) by (done || (apply Hl; by left)).
    rewrite (IH sgs').
    + cbn [with_m m cat].  by rewrite str_app_assoc.
    + intros y Hy. apply Hl. by right.
    + exact Hrest.
Qed.

Lemma deps_run l sgs : ∀ s, Forall2 (λ x sg, read_sig s x = Some sg) l sgs →
  for_each (λ x, v ← variant_of x; sg ← node_sig v x; up sg) l s = (Ok tt, with_m s (m s +:+ cat sgs)).
Proof using.
  revert sgs. induction l as [|x l IH]; intros sgs s Hr; inversion Hr as [|? sg ? sgs' Hx Hrest]; subst.
  - cbn. by rewrite str_app_nil_r; destruct s.
  - cbn [for_each]. apply node_sig_run in Hx. rewrite st_bind in Hx. rewrite !st_bind.
    destruct (variant_of x s) as [[v|e] s1]; [|done]. rewrite st_bind, Hx. cbn [up modify]. rewrite (IH sgs').
    + cbn [with_m m cat].  by rewrite str_app_assoc.
    + exact Hrest.
Qed.
End Settled.

(** ** A second build *)

Section Again.
Context `{FileSystem} `{Digest}.

Definition vars_fresh (s : State) : Prop :=
  ∀ e l r, cache_sig_vars s !! (e, l) = Some r → r = vars_digest (heap s) e l.

Lemma hash_env_vars_run s e l : vars_fresh s →
  ∃ d, hash_env_vars e l s = (Ok (vars_digest (heap s) e l), with_vars s d) ∧ vars_fresh (with_vars s d).
Proof using.
  intros Hv. unfold hash_env_vars. rewrite st_bind. cbn [gets].
  destruct (cache_sig_vars s !! (e, l)) as [r|] eqn:Er.
  - exists (cache_sig_vars s). rewrite (Hv _ _ _ Er). split; [by destruct s|exact Hv].
  - eexists. rewrite st_bind. cbn [gets]. split; [done|]. intros e' l' r'. cbn [with_vars cache_sig_vars heap].
    intros [[[= <- <-] <-]|[_ ?]]%lookup_insert_Some; [done|by apply Hv].
Qed.

Lemma sig_vars_run s : vars_fresh s →
  ∃ d, sig_vars s = (Ok (md5 (m s +:+ vars_text s)), with_m (with_vars s d) (m s +:+ vars_text s)) ∧
       vars_fresh (with_vars s d).
Proof using.
  intros Hv. unfold sig_vars, vars_text. rewrite st_bind. cbn [gets].
  destruct (hash_env_vars_run s (env (task s)) (class_vars (task s)) Hv) as (d & Hr & Hd).
  rewrite st_bind, Hr, st_bind. cbn [up modify]. rewrite st_bind.
  destruct (dep_vars (task s)) as [|v l].
  - exists d. cbn. by rewrite str_app_nil_r.
  - destruct (hash_env_vars_run (with_m (with_vars s d) (m s +:+ vars_digest (heap s) (env (task s)) (class_vars (task s))))
      (env (task s)) (v :: l) Hd) as (d2 & Hr2 & Hd2).
    rewrite st_bind. cbn in Hr2 |- *. rewrite Hr2. exists d2. cbn. by rewrite str_app_assoc.
Qed.

(** The signature of a settled task, and what changes when it is computed. *)
Lemma signature_settled s l1 l2 :
  settled s l1 l2 →
  ∃ d c, signature s = (Ok (md5 (cat l1 +:+ cat l2 +:+ vars_text s)),
      with_task (with_m (with_vars s d) (cat l1 +:+ cat l2 +:+ vars_text s)) (set_cache_sig (task s) (Some c))) ∧
    sig_all c = md5 (cat l1 +:+ cat l2 +:+ vars_text s).
Proof using.
  intros [Hc Hs Hm Hl H1 H2 Hv]. unfold signature. rewrite signature_loop_S by done. unfold signature_round.
  rewrite st_bind. cbn [gets]. rewrite st_bind. cbn [modify]. rewrite st_bind. unfold sig_explicit_deps.
  rewrite st_bind. cbn [gets]. rewrite st_bind, (explicit_deps_run _ l1 (with_m s "")) by done.
  rewrite st_bind. cbn [gets]. rewrite st_bind. cbn [with_m deps_man]. rewrite Hm, decide_True by done.
  cbn [mret ST_ret]. rewrite st_bind. rewrite (deps_run _ l2) by done. unfold digest at 1. cbn [gets].
  cbn [with_m m]. rewrite str_app_nil_l.
  rewrite st_bind.
  match goal with |- context [sig_vars ?s1] =>
    destruct (sig_vars_run s1) as (d & Hr & _); [exact Hv|]; rewrite Hr end.
  rewrite st_bind, Hs. cbn [mret ST_ret].
  exists d. eexists. rewrite st_bind. cbn. rewrite !str_app_assoc. done.
Qed.
End Again.

(** C6: For a task without a scanner and manual dependencies whose inputs have signatures
    of one length, two runs that give the same signature had the same
    signatures of inputs, or the texts that these two runs digest are different and have
    the same digest: such a task is not skipped when an input has changed, unless the
    change makes the digest collide. *)
Theorem signature_detects_changes `{FileSystem, Digest} n s1 l1 l1' s2 l2 l2' sg s1' s2' :
  settled s1 l1 l1' → settled s2 l2 l2' →
  inputs (task s1) ++ dep_nodes (task s1) = inputs (task s2) ++ dep_nodes (task s2) →
  (∀ x sg, x ∈ inputs (task s1) ++ dep_nodes (task s1) → read_sig s1 x = Some sg → String.length sg = n) →
  (∀ x sg, x ∈ inputs (task s2) ++ dep_nodes (task s2) → read_sig s2 x = Some sg → String.length sg = n) →
  signature s1 = (Ok sg, s1') → signature s2 = (Ok sg, s2') →
  (∀ x, x ∈ inputs (task s1) → read_sig s1 x = read_sig s2 x) ∨
  (m s1' ≠ m s2' ∧ md5 (m s1') = sg ∧ md5 (m s2') = sg).
Proof.
  intros Hs1 Hs2 Hin Hn1 Hn2 R1 R2.
  destruct (signature_settled _ _ _ Hs1) as (? & ? & E1 & _). destruct (signature_settled _ _ _ Hs2) as (? & ? & E2 & _).
  rewrite R1 in E1. rewrite R2 in E2. injection E1 as Hg1 ->. injection E2 as Hg2 ->. cbn [m with_task with_m].
  destruct (decide (cat l1 +:+ cat l1' +:+ vars_text s1 = cat l2 +:+ cat l2' +:+ vars_text s2)) as [Hg|Hne]; [left|by right].
  intros z Hz. pose proof (se_inputs _ _ _ Hs1) as F1. pose proof (se_inputs _ _ _ Hs2) as F2. rewrite <- Hin in F2.
  apply (cat_inj n) in Hg as ->.
  - assert (Hz' : z ∈ inputs (task s1) ++ dep_nodes (task s1)) by (apply elem_of_app; by left).
    apply list_elem_of_lookup in Hz' as [k Hk].
    destruct (Forall2_lookup_l _ _ _ _ _ F1 Hk) as (g1 & Hg1' & ->).
    destruct (Forall2_lookup_l _ _ _ _ _ F2 Hk) as (g2 & Hg2' & ->). congruence.
  - apply Forall2_length in F1, F2. congruence.
  - eapply Forall2_Forall_r in F1; [exact F1|]. apply Forall_forall. intros y Hy g. by apply Hn1.
  - eapply Forall2_Forall_r in F2; [exact F2|]. rewrite Hin. apply Forall_forall. intros y Hy g. by apply Hn2.
Qed.

(** ** After the run *)

Section AfterRun.
Context `{FileSystem} `{Digest} `{Outputs}.

Lemma env_variant_run s v : variant_name (heap s) (env (task s)) = Ok v → env_variant s = (Ok v, s).
Proof using. intros Hv. unfold env_variant. rewrite st_bind. cbn [gets lift]. by rewrite Hv. Qed.
Lemma env_variant_Ok s v s' : env_variant s = (Ok v, s') → s' = s ∧ variant_name (heap s) (env (task s)) = Ok v.
Proof using. unfold env_variant. rewrite st_bind. cbn [gets lift]. by intros [= -> <-]. Qed.

Lemma store_output_Ok sg v x s s' : store_output sg v x s = (Ok tt, s') →
  s' = with_bld s (set_sig (bld s) (Some v) x sg).
Proof using.
  unfold store_output. intros Hr. apply st_bind_Ok in Hr as (e & s1 & [-> _]%env_variant_Ok & Hr).
  rewrite st_bind in Hr. cbn [gets] in Hr. apply st_bind_Ok in Hr as (path & s2 & Hp & Hr).
  unfold lift in Hp. injection Hp as _ <-. destruct (file_exists path).
  - unfold set_node_sig in Hr. rewrite st_bind in Hr. cbn [gets] in Hr.
    destruct (node_sigs (bld s) !! Some v); [|done]. by injection Hr as <-.
  - by rewrite st_bind in Hr.
Qed.

Fixpoint store_sigs (sg v : string) (l : list Z) (b : BuildContext) : BuildContext :=
  match l with [] => b | x :: l' => store_sigs sg v l' (set_sig b (Some v) x sg) end.

Lemma store_outputs_Ok sg v l : ∀ s s', for_each (store_output sg v) l s = (Ok tt, s') →
  s' = with_bld s (store_sigs sg v l (bld s)).
Proof using.
  induction l as [|x l IH]; intros s s'; cbn [for_each].
  - intros [= <-]. by destruct s.
  - intros ([] & s1 & ->%store_output_Ok & ->%IH)%st_bind_Ok. done.
Qed.

Lemma store_sigs_get sg v l : ∀ b w y,
  get_sig (store_sigs sg v l b) w y = if decide (w = Some v ∧ y ∈ l) then Some sg else get_sig b w y.
Proof using.
  induction l as [|x l IH]; intros b w y; cbn.
  - rewrite decide_False; [done|]. intros [_ []%elem_of_nil].
  - rewrite IH, get_sig_set. repeat case_decide; try done; set_solver.
Qed.
Lemma store_sigs_nodes sg v l : ∀ b, nodes (store_sigs sg v l b) = nodes b.
Proof using. induction l as [|x l IH]; intros b; cbn; [done|]. by rewrite IH. Qed.

Lemma store_sigs_scanned sg v l : ∀ b, cache_scanned_folders (store_sigs sg v l b) = cache_scanned_folders b.
Proof using. induction l as [|x l IH]; intros b; cbn; [done|]. by rewrite IH. Qed.

(** The unique id depends on the tree and the task only. *)
Lemma unique_id_loop_same l : ∀ p acc s s2 r s1, same_tree (bld s) (bld s2) →
  unique_id_loop l p acc s = (r, s1) → unique_id_loop l p acc s2 = (r, s2).
Proof using.
  induction l as [|x l IH]; intros p acc s s2 r s1 Ht; cbn [unique_id_loop].
  - by intros [= <- <-].
  - unfold parent_node. rewrite !st_bind. cbn [gets]. destruct (Ht x) as [-> _].
    destruct (parent_of (bld s) x) as [q|]; [|by intros [= <- <-]]. cbn [mret ST_ret].
    rewrite !st_bind. cbn [gets]. rewrite !st_bind. cbn [gets]. rewrite (abspath0_same _ _ q Ht).
    destruct (Ht x) as [_ ->]. by apply IH.
Qed.

Lemma unique_id_same s s2 u s1 :
  uid (task s) = None → uid (task s2) = None → erase (task s2) = erase (task s) → heap s2 = heap s →
  same_tree (bld s) (bld s2) → unique_id s = (Ok u, s1) →
  s1 = with_task s (set_uid (task s) u) ∧ unique_id s2 = (Ok u, with_task s2 (set_uid (task s2) u)).
Proof using.
  intros Hu Hu2 He Hh Ht. unfold erase in He. injection He as E1 E2 E3 E4 E5 E6 E7 E8 E9 E10 E11.
  unfold unique_id. rewrite !st_bind. cbn [gets]. rewrite Hu, Hu2. intros Hr.
  apply st_bind_Ok in Hr as (v & s3 & [-> Hv]%env_variant_Ok & Hr).
  rewrite st_bind, (env_variant_run s2 v) by (by rewrite E3, Hh).
  apply st_bind_Ok in Hr as (acc & s4 & Hl & Hr).
  pose proof (unique_id_loop_same _ _ _ _ s2 _ _ Ht Hl) as Hl2. apply reads_unique_id_loop in Hl as [<- _].
  rewrite st_bind, E1, E4, E5, Hl2. injection Hr as <- <-. done.
Qed.

Lemma outputs_match_run sg l s : (∀ x, x ∈ l → read_sig s x = Some sg) → outputs_match sg l s = (Ok true, s).
Proof using.
  induction l as [|x l IH]; intros Hl; [done|]. cbn [outputs_match]. rewrite st_bind.
  destruct (variant_of x s) as [r s1] eqn:Ev. apply variant_of_cases in Ev as [-> Hv].
  assert (Hx : read_sig s x = Some sg) by (apply Hl; by left). destruct r as [v|e]; [|congruence].
  rewrite st_bind. cbn [gets]. rewrite <- Hv, Hx, decide_True by done. apply IH. intros y Hy. apply Hl. by right.
Qed.

(** The build as the next run of waf finds it, when nothing has changed. *)
Record next_build (s s2 : State) : Prop := {
  nb_tree : same_tree (bld s) (bld s2);
  nb_sigs : ∀ v x, get_sig (bld s2) v x = get_sig (bld s) v x;
  nb_scanned : cache_scanned_folders (bld s) ⊆ cache_scanned_folders (bld s2);
  nb_heap : heap s2 = heap s;
  nb_task_sigs : task_sigs s2 = task_sigs s;
  nb_man : deps_man s2 = ∅;
  nb_vars : cache_sig_vars s2 = ∅;
  nb_task : task s2 = erase (task s) }.

(** The state that a new run of waf starts from, with what has been saved. *)
Definition reload (s : State) : State :=
  mkState (bld s) (heap s) (task_sigs s) ∅ ∅ ∅ ∅ (erase (task s)) "".
Lemma reload_next s : next_build s (reload s).
Proof using. by split. Qed.

(** What [post_run] leaves, for a settled task. *)
Lemma post_run_Ok s l1 l2 s' : settled s l1 l2 → uid (task s) = None → post_run s = (Ok tt, s') →
  ∃ v u c, variant_name (heap s) (env (task s)) = Ok v ∧ sig_all c = md5 (cat l1 +:+ cat l2 +:+ vars_text s) ∧
    let b' := store_sigs (sig_all c) v (outputs (task s)) (bld s) in
    bld s' = b' ∧ cache_scanned_folders b' = cache_scanned_folders (bld s) ∧ heap s' = heap s ∧ task_sigs s' = <[u := c]> (task_sigs s) ∧ erase (task s') = erase (task s) ∧
    ∀ s2, uid (task s2) = None → erase (task s2) = erase (task s) → heap s2 = heap s → same_tree b' (bld s2) →
          unique_id s2 = (Ok u, with_task s2 (set_uid (task s2) u)).
Proof using.
  intros Hset Hu. destruct (signature_settled _ _ _ Hset) as (d & c & Hsig & Hc).
  unfold post_run. rewrite st_bind, Hsig. set (sg := md5 _) in *. set (s1 := with_task _ _). intros Hr.
  apply st_bind_Ok in Hr as (v & s2 & [-> Hv]%env_variant_Ok & Hr). rewrite st_bind in Hr. cbn [gets] in Hr.
  apply st_bind_Ok in Hr as ([] & s2 & ->%store_outputs_Ok & Hr).
  apply st_bind_Ok in Hr as (u & s3 & Huid & Hr). rewrite st_bind in Hr. cbn [gets] in Hr.
  match type of Huid with unique_id ?s2 = _ =>
    destruct (unique_id_same s2 s2 u s3 Hu Hu eq_refl eq_refl (reflexivity _) Huid) as [-> _] end.
  cbn in Hr. injection Hr as <-. exists v, u, c. rewrite Hc. split_and!; try done; [apply store_sigs_scanned|].
  intros s4 Hu4 He4 Hh4 Ht4. eapply (unique_id_same _ s4); [| | | | |exact Huid]; done.
Qed.

(** The task of the next build is settled, with the same signatures to read, when
    only signatures of its outputs have changed. *)
Lemma settled_next s l1 l2 v s2 :
  settled s l1 l2 → variant_name (heap s) (env (task s)) = Ok v →
  (∀ w x, w ≠ Some v ∨ x ∉ outputs (task s) → get_sig (bld s2) w x = get_sig (bld s) w x) →
  same_tree (bld s) (bld s2) → cache_scanned_folders (bld s) ⊆ cache_scanned_folders (bld s2) →
  heap s2 = heap s → deps_man s2 = ∅ → cache_sig_vars s2 = ∅ → task s2 = erase (task s) →
  (∀ x, x ∈ outputs (task s) → get_type x ≠ FILE ∧ x ∉ inputs (task s) ++ dep_nodes (task s) ++ deps_nodes (task s)) →
  settled s2 l1 l2 ∧ vars_text s2 = vars_text s.
Proof using.
  intros [S1 S2 S3 S4 S5 S6 S7] Hv Hg Ht Hs Hh Hm Hvs Htk Hout.
  split; [|unfold vars_text; by rewrite Hh, Htk].
  assert (Hkeep : ∀ l gs, (∀ x, x ∈ l → x ∈ inputs (task s) ++ dep_nodes (task s) ++ deps_nodes (task s)) →
    Forall2 (λ x sg, read_sig s x = Some sg) l gs → Forall2 (λ x sg, read_sig s2 x = Some sg) l gs).
  { intros l gs Hl HF. apply Forall2_same_length_lookup. apply Forall2_same_length_lookup in HF as [Hlen HF].
    split; [done|]. intros i x g Hx Hgx. rewrite <- (HF i x g Hx Hgx). unfold read_sig. rewrite Hh, Htk.
    cbn [erase env]. rewrite Hv. apply list_elem_of_lookup_2, Hl in Hx.
    destruct (_ =? _)%Z; apply Hg; [by left|]. right. intros Ho. by destruct (Hout x Ho). }
  split; rewrite ?Htk; try done.
  - cbn [erase inputs dep_nodes]. intros x Hx. destruct (S4 x Hx) as (p & Hpx & Hps). exists p.
    destruct (Ht x) as [-> _]. split; [done|by apply Hs].
  - apply Hkeep; [|exact S5]. intros x. cbn. rewrite !elem_of_app. tauto.
  - apply Hkeep; [|exact S6]. intros x. cbn. rewrite !elem_of_app. tauto.
  - intros e l r. rewrite Hvs. by rewrite lookup_empty.
Qed.

(** Its status, when it has the signature of the run before. *)
Lemma status_next s2 l1 l2 u c after :
  settled s2 l1 l2 → sig_all c = md5 (cat l1 +:+ cat l2 +:+ vars_text s2) → task_sigs s2 !! u = Some c →
  (∀ s, uid (task s) = None → erase (task s) = erase (task s2) → heap s = heap s2 → bld s = bld s2 →
        unique_id s = (Ok u, with_task s (set_uid (task s) u))) →
  uid (task s2) = None → NOT_RUN ∉ after → (∃ v, variant_name (heap s2) (env (task s2)) = Ok v) →
  ∃ s3 st, runnable_status after s2 = (Ok st, s3) ∧ (st = SKIP_ME ∨ st = RUN_ME) ∧
    ((∀ x, x ∈ outputs (task s2) → read_sig s2 x = Some (sig_all c)) → st = SKIP_ME) ∧
    frame s2 s3 ∧ bld s3 = bld s2 ∧ task_sigs s3 = task_sigs s2 ∧
    uid (task s3) = Some u ∧ ∃ c3, cache_sig (task s3) = Some c3 ∧ sig_all c3 = sig_all c.
Proof using.
  intros Hset Hc Hts Huid Hu Ha [v Hv]. destruct (signature_settled _ _ _ Hset) as (d & c2 & Hsig & Hc2).
  rewrite <- Hc in Hsig, Hc2.
  unfold runnable_status. rewrite bool_decide_false by done. rewrite st_bind, Hsig, st_bind, Huid by done.
  rewrite st_bind. cbn [gets with_task with_m with_vars task_sigs]. rewrite Hts, st_bind. cbn [gets]. rewrite st_bind.
  match goal with |- context [outputs_match _ _ ?s0] => set (s3 := s0) end.
  assert (Hm : ∃ b, outputs_match (sig_all c) (outputs (task s3)) s3 = (Ok b, s3)).
  { generalize (outputs (task s3)) as l. intros l. induction l as [|x l IH]; [by eexists|]. cbn [outputs_match].
    rewrite st_bind. destruct (variant_of x s3) as [[w|e] s4] eqn:Ew.
    - apply variant_of_cases in Ew as [-> _]. rewrite st_bind. cbn [gets]. case_decide; [done|by eexists].
    - unfold variant_of in Ew. destruct (_ =? _)%Z; [done|].
      rewrite st_bind, (env_variant_run s3 v) in Ew by done. done. }
  destruct Hm as [b Hm]. rewrite Hm. pose proof (outputs_match_cases _ _ _ _ _ Hm) as [_ Hb].
  do 2 eexists. split; [done|]. rewrite String.eqb_refl. split; [destruct b; auto|]. split.
  - intros Hall. assert (b = true) as -> by (apply Hb; exact Hall). done.
  - split; [|split_and!; try done; by exists c2]. split; [done|done|]. by rewrite Hu.
Qed.
End AfterRun.


(** ** Marking the outputs with their contents *)

Section Contents.
Context `{FileSystem} `{Digest} `{Outputs}.

(** The outputs have a signature, whatever it is. *)
Lemma outputs_known_run e l s :
  (∀ x, x ∈ l → is_Some (get_sig (bld s) (Some e) x)) → outputs_known e l s = (Ok true, s).
Proof using.
  induction l as [|x l IH]; intros Hl; [done|]. cbn [outputs_known]. rewrite st_bind. cbn [gets].
  destruct (Hl x) as [y ->]; [by left|]. apply IH. intros z Hz. apply Hl. by right.
Qed.

Lemma update_output_Ok e x s s' : variant_name (heap s) (env (task s)) = Ok e → update_output x s = (Ok tt, s') →
  ∃ hash, s' = with_bld s (set_sig (bld s) (Some e) x hash).
Proof using.
  intros He. unfold update_output. rewrite st_bind, (env_variant_run s e He). intros Hr.
  rewrite st_bind in Hr. cbn [gets] in Hr. apply st_bind_Ok in Hr as (path & s2 & Hp & Hr).
  unfold lift in Hp. injection Hp as _ <-. destruct (h_file path) as [hash|]; [|done]. exists hash.
  unfold set_node_sig in Hr. rewrite st_bind in Hr. cbn [gets] in Hr.
  destruct (node_sigs (bld s) !! Some e); [|done]. by injection Hr as <-.
Qed.

Lemma update_outputs_Ok e l : ∀ s s', variant_name (heap s) (env (task s)) = Ok e →
  for_each update_output l s = (Ok tt, s') →
  ∃ b, s' = with_bld s b ∧ same_tree (bld s) b ∧ cache_scanned_folders b = cache_scanned_folders (bld s) ∧
    (∀ x, x ∈ l → is_Some (get_sig b (Some e) x)) ∧
    (∀ x, is_Some (get_sig (bld s) (Some e) x) → is_Some (get_sig b (Some e) x)) ∧
    ∀ w x, w ≠ Some e ∨ x ∉ l → get_sig b w x = get_sig (bld s) w x.
Proof using.
  induction l as [|x l IH]; intros s s' He; cbn [for_each].
  - intros [= <-]. exists (bld s). split; [by destruct s|]. split_and!; try done. by intros x []%elem_of_nil.
  - intros ([] & s1 & Hx & Hr)%st_bind_Ok. apply update_output_Ok with (e := e) in Hx as (hash & ->); [|done].
    apply IH in Hr as (b & -> & Ht & Hsc & Hin & Hmono & Hkeep); [|done]. exists b. cbn in *. split_and!; try done.
    + intros y [->|Hy]%elem_of_cons; [|auto]. apply Hmono. rewrite get_sig_set, decide_True by done. eauto.
    + intros y Hy. apply Hmono. rewrite get_sig_set. case_decide; eauto.
    + intros w y Hw. rewrite Hkeep, get_sig_set by set_solver. rewrite decide_False; [done|]. set_solver.
Qed.
End Contents.

(** With [update_outputs], too, the next build skips a task that nothing has
    changed for, although its outputs carry hashes of their contents and not its
    signature. *)
Theorem update_outputs_skips `{FileSystem, Digest, Outputs} s l1 l2 s' s2 after :
  settled s l1 l2 → uid (task s) = None → update_post_run s = (Ok tt, s') → next_build s' s2 → NOT_RUN ∉ after →
  (∀ x, x ∈ outputs (task s) → get_type x ≠ FILE ∧ x ∉ inputs (task s) ++ dep_nodes (task s) ++ deps_nodes (task s)) →
  ∃ s3, update_runnable_status after s2 = (Ok SKIP_ME, s3).
Proof.
  intros Hset Hu Hup Hnb Ha Hout. unfold update_post_run in Hup.
  apply st_bind_Ok in Hup as ([] & s1 & Hp & Hup). rewrite st_bind in Hup. cbn [gets] in Hup.
  destruct (post_run_Ok _ _ _ _ Hset Hu Hp) as (v & u & c & Hv & Hc & Hb & Hsc & Hh & Hts & He & Huid).
  destruct Hnb as [Nt Ng Ns Nh Nts Nm Nv Ntk].
  assert (Ho1 : outputs (task s1) = outputs (task s) ∧ env (task s1) = env (task s)) by (unfold erase in He; by injection He).
  destruct Ho1 as [Ho1 Hen1]. rewrite Ho1 in Hup.
  assert (Hv1 : variant_name (heap s1) (env (task s1)) = Ok v) by by rewrite Hh, Hen1.
  destruct (decide (outputs (task s) = [])) as [Hnil|Hnil]; [by rewrite Hnil in Hup|].
  assert (Hup' : for_each update_output (outputs (task s)) s1 = (Ok tt, s')) by (destruct (outputs (task s)); done).
  apply (update_outputs_Ok v) in Hup' as (b & -> & Ht & Hscb & Hin & _ & Hkeep); [|done].
  cbn [with_bld bld heap task task_sigs] in Nt, Ng, Ns, Nh, Nts, Ntk. rewrite He in Ntk.
  rewrite Hh in Nh. rewrite Hts in Nts. rewrite Hscb, Hb, Hsc in Ns.
  assert (Htree : same_tree (bld s1) (bld s2)) by by etrans.
  destruct (settled_next s l1 l2 v s2) as [Hset2 Hvt]; try done.
  { intros w x Hwx. rewrite Ng, Hkeep, Hb, store_sigs_get, decide_False by tauto. done. }
  { etrans; [|exact Htree]. rewrite Hb. apply same_nodes_tree, store_sigs_nodes. }
  rewrite <- Hvt in Hc.
  destruct (status_next s2 l1 l2 u c after) as (s3 & st & Hr & Hst & _ & Hfr & Hb3 & Hts3 & Hu3 & c3 & Hc3 & Hcc); try done.
  { by rewrite Nts, lookup_insert_eq. }
  { intros s0 Hu0 He0 Hh0 Hb0. apply Huid; [done|by rewrite He0, Ntk|congruence|]. rewrite Hb0. by rewrite <- Hb. }
  { by rewrite Ntk. }
  { exists v. by rewrite Nh, Ntk. }
  unfold update_runnable_status. rewrite st_bind, Hr. destruct Hst as [-> | ->]; [by eexists|].
  rewrite decide_True by done. rewrite st_bind. destruct (frame_fields _ _ Hfr) as (_ & Ho3 & _ & Hen3 & Hh3).
  rewrite Ntk in Ho3, Hen3. cbn [erase outputs env] in Ho3, Hen3. unfold attempt, update_check.
  rewrite st_bind. cbn [gets]. rewrite Ho3. destruct (outputs (task s)) as [|o outs] eqn:Eo; [done|].
  rewrite st_bind. unfold signature. rewrite (signature_loop_cached _ _ c3 Hc3), st_bind, (unique_id_known _ _ Hu3).
  rewrite st_bind. cbn [gets]. rewrite Hts3, Nts, lookup_insert_eq, Hcc, String.eqb_refl.
  rewrite st_bind, (env_variant_run s3 v) by (by rewrite Hh3, Hen3, Nh). rewrite st_bind, outputs_known_run; [by eexists|].
  intros x Hx. rewrite Hb3, Ng. by apply Hin.
Qed.

(** ** The cache of outputs *)

Lemma copy_outputs_spec copied tmp l :
  let '(a, ok) := copy_outputs copied tmp l in
  (ok = true ↔ ∀ x, x ∈ l → copied x = true) ∧ (ok = true → a = (λ x, CopyIn x tmp) <$> l) ∧
  ∀ act, act ∈ a → ∃ x, act = CopyIn x tmp.
Proof.
  induction l as [|x l IH]; cbn [copy_outputs].
  - split_and!; [|done|by intros ? []%elem_of_nil]. split; [by intros _ ? []%elem_of_nil|done].
  - destruct (copied x) eqn:Ex.
    + destruct (copy_outputs copied tmp l) as [a ok]. destruct IH as (H1 & H2 & H3). split_and!.
      * rewrite H1. setoid_rewrite elem_of_cons. naive_solver.
      * intros Hok. by rewrite (H2 Hok).
      * intros act [->|Ha]%elem_of_cons; eauto.
    + split_and!; [|done|].
      * split; [done|]. intros Hall. rewrite <- Ex. apply Hall. by left.
      * intros act ->%list_elem_of_singleton. eauto.
Qed.

(** An entry of the cache appears at once and complete: files are only ever
    copied to a temporary folder, and that folder takes the name of the
    signature only after every output was copied; it is removed otherwise. *)
Theorem cache_store_atomic dir nocache t ssig tmp copied renamed acts :
  cache_store (Some dir) nocache t ssig (Ok tmp) copied renamed = Ok acts →
  let dname := os_path_join [dir; ssig] in
  (∀ x d, CopyIn x d ∈ acts → d = tmp) ∧
  (∀ d1 d2, Rename d1 d2 ∈ acts → d1 = tmp ∧ d2 = dname ∧ (∀ x, x ∈ outputs t → copied x = true) ∧
    ∃ l1 l2, acts = l1 ++ ((λ x, CopyIn x tmp) <$> outputs t) ++ Rename d1 d2 :: l2) ∧
  (acts ≠ [] → (∃ x, x ∈ outputs t ∧ copied x = false) → RemoveTree tmp ∈ acts ∧ Rename tmp dname ∉ acts).
Proof.
  cbn zeta. unfold cache_store. destruct (_ || _); cbn zeta.
  { intros [= <-]. split_and!; [by intros ? ? []%elem_of_nil|by intros ? ? []%elem_of_nil|done]. }
  cbn [mbind res_bind]. pose proof (copy_outputs_spec copied tmp (outputs t)) as Hspec.
  destruct (copy_outputs copied tmp (outputs t)) as [a ok]. destruct Hspec as (Hok & Ha & Hin).
  set (dname := os_path_join [dir; ssig]). intros [= <-].
  assert (Hcopy : ∀ act, act ∈ a → ∃ x, act = CopyIn x tmp) by exact Hin. split_and!.
  - intros x d. rewrite !elem_of_cons, elem_of_app. intros [?|[?|[Hx|Hx]]]; try done.
    + apply Hcopy in Hx as (y & [= _ ->]). done.
    + destruct ok, renamed; set_solver.
  - intros d1 d2. rewrite !elem_of_cons, elem_of_app. intros [?|[?|[Hx|Hx]]]; try done.
    + by apply Hcopy in Hx as (y & ?).
    + destruct ok.
      * assert (d1 = tmp ∧ d2 = dname) as [-> ->] by (destruct renamed; set_solver).
        split_and!; [done|done|by apply Hok|]. rewrite (Ha eq_refl). by eexists [_; _], _.
      * set_solver.
  - intros _ (x & Hx & Hc). destruct ok; [by rewrite (proj1 Hok eq_refl x Hx) in Hc|].
    split; [set_solver|]. rewrite !elem_of_cons, elem_of_app. intros [?|[?|[Hr|Hr]]]; try done.
    + by apply Hcopy in Hr as (y & ?).
    + set_solver.
Qed.

Section Restore.
Context `{FileSystem} `{Digest}.
Lemma set_node_sig_Ok v x sg s s' : set_node_sig v x sg s = (Ok tt, s') → s' = with_bld s (set_sig (bld s) v x sg).
Proof using.
  unfold set_node_sig. rewrite st_bind. cbn [gets]. destruct (node_sigs (bld s) !! v); [|done]. by intros [= <-].
Qed.
Lemma restore_Ok sg v l : ∀ s s', for_each (restore_output sg v) l s = (Ok tt, s') →
  (∀ x, x ∈ l → get_sig (bld s') v x = Some sg) ∧
  (∀ w x, get_sig (bld s) w x = Some sg → get_sig (bld s') w x = Some sg) ∧
  heap s' = heap s ∧ task s' = task s.
Proof using.
  induction l as [|x l IH]; intros s s'; cbn [for_each].
  - intros [= <-]. split_and!; try done. by intros ? []%elem_of_nil.
  - intros ([] & s1 & ->%set_node_sig_Ok & Hr)%st_bind_Ok. apply IH in Hr as (Hin & Hmono & Hh & Ht).
    split_and!; try done.
    + intros y [->|Hy]%elem_of_cons; [|by apply Hin]. apply Hmono. cbn. by rewrite get_sig_set, decide_True.
    + intros w y Hy. apply Hmono. cbn. rewrite get_sig_set. by case_decide.
Qed.
End Restore.

(** Outputs are taken from the cache only when all copies succeed and the
    folder has not changed meanwhile; they then carry the signature of the task,
    which is marked, if they are all in the task's variant. *)
Theorem retrieved_outputs_marked `{FileSystem, Digest} dir nocache t1 t2 copied s s' :
  scan_calm (task s) → (∀ x, x ∈ outputs (task s) → get_type x ≠ FILE) →
  can_retrieve_cache dir nocache t1 t2 copied s = (Ok true, s') →
  (∃ time, t1 = Some time ∧ t2 = Some time) ∧ (∀ x, x ∈ outputs (task s) → copied x = true) ∧
  cached (task s') = true ∧
  ∃ c, cache_sig (task s') = Some c ∧ ∀ x, x ∈ outputs (task s) → read_sig s' x = Some (sig_all c).
Proof.
  intros Hcalm Hty. unfold can_retrieve_cache. rewrite st_bind. cbn [gets]. destruct (_ || _ || _) eqn:Eg; [done|].
  intros (sg & s1 & Hs & Hr)%st_bind_Ok. apply signature_result in Hs as (Hfr & c & Hc & <-); [|done].
  destruct t1 as [time|]; [|done]. destruct (forallb copied (outputs (task s))) eqn:Ef; [|done]. cbn [negb] in Hr.
  case_decide as Ht; [|done]. apply st_bind_Ok in Hr as (v & s2 & Hv & Hr).
  apply variant_of_cases in Hv as Hv'. destruct Hv' as [-> _]. apply st_bind_Ok in Hr as ([] & s3 & Hf & Hr).
  injection Hr as <-. apply restore_Ok in Hf as (Hin & _ & Hh & Htk).
  split; [by exists time|]. split; [|split; [done|]].
  - intros x Hx. eapply forallb_forall in Ef; [exact Ef|]. by apply list_elem_of_In.
  - exists c. cbn [with_task task set_cached cache_sig]. rewrite Htk. split; [done|]. intros x Hx.
    rewrite <- (Hin x Hx). unfold read_sig. cbn [with_task heap task set_cached env bld].
    rewrite (proj2 (Z.eqb_neq _ _) (Hty x Hx)), Hh. unfold variant_of in Hv.
    assert (Hlast : get_type (List.last (outputs (task s)) 0%Z) ≠ FILE).
    { destruct (outputs (task s)) as [|o l]; [done|]. apply Hty. apply list_elem_of_In.
      destruct (@exists_last _ (o :: l)) as (l' & y & ->); [done|]. rewrite last_last. apply in_app_iff. right. by left. }
    rewrite (proj2 (Z.eqb_neq _ _) Hlast) in Hv. apply st_bind_Ok in Hv as (e & s4 & [-> ->]%env_variant_Ok & [= <-]). done.
Qed.

(** ** Behaviours that go wrong, on small builds *)

Section DemoTasks.
#[local] Existing Instance demo_files.
#[local] Instance demo_digest : Digest := λ s, s.
#[local] Instance demo_exists : Outputs := λ _, true.

Definition demo_heap : Heap := (WafEnv.new_Environment empty_heap).2.
(** Compiling [d/b.c] (node 22) to [d/b.o] (node 27). *)
Definition demo_task : Task := mkTask "cc" ["CCFLAGS"] 0 [22%Z] [27%Z] [] [] [] None NOT_RUN None None false.
Definition demo_state : State := mkState demo_declared.2 demo_heap ∅ ∅ ∅ ∅ ∅ demo_task "".
Definition demo_after : State := (post_run demo_state).2.

(** A task that lists a source file, node 22, among its outputs. *)
Definition demo_file_task : Task := mkTask "touch" [] 0 [] [22%Z] [] [] [] None NOT_RUN None None false.
Definition demo_file_state : State := mkState demo_declared.2 demo_heap ∅ ∅ ∅ ∅ ∅ demo_file_task "".

(** A scanner that raises ValueError. *)
Definition bad_scanner : BuildContext → res (list Z * list string) * BuildContext := λ b, (Err ValueError, b).
Definition bad_state : State := mkState demo_declared.2 demo_heap ∅ ∅ ∅ ∅ ∅
  (mkTask "cc" [] 0 [] [] [] [] [] (Some bad_scanner) NOT_RUN (Some "id") None false) "".

(** A task that has run, with a scanner that finds nothing. *)
Definition demo_scanner : BuildContext → res (list Z * list string) * BuildContext := λ b, (Ok ([], []), b).
Definition demo_scan_state : State := mkState demo_declared.2 demo_heap {["id" := mkSigs "x" "x" "x" "x"]} ∅ ∅ ∅ ∅
  (mkTask "cc" [] 0 [22%Z] [27%Z] [] [] [] (Some demo_scanner) NOT_RUN (Some "id") None false) "".

Lemma demo_settled : settled demo_state ["md5 of /s/d/b.c"] [].
Proof.
  split; try done.
  - intros x Hx. cbn in Hx. apply list_elem_of_singleton in Hx as ->. exists 17%Z.
    split; [vm_compute; reflexivity|]. apply (bool_decide_unpack _). vm_compute. reflexivity.
  - constructor; [vm_compute; reflexivity|constructor].
Qed.

(** A task with a source file among its outputs is never up to date: [post_run]
    stamps the file in the variant of the environment, and the next status looks
    for the stamp among the sources. *)
Theorem source_outputs_always_run :
  ∃ s', post_run demo_file_state = (Ok tt, s') ∧ (runnable_status [] s').1 = Ok RUN_ME ∧
        get_sig (bld s') (Some "default") 22 = Some "[]" ∧ get_sig (bld s') None 22 = Some "md5 of /s/d/b.c".
Proof. eexists. split; [vm_compute; reflexivity|]. vm_compute. done. Qed.

(** After a round with [bad_scanner] the next round starts from the same state. *)
Definition bad_again : State := (signature_round bad_state).2.
Lemma bad_round : signature_round bad_again = (Ok (Err ValueError), bad_again).
Proof. vm_compute. reflexivity. Qed.
Lemma bad_loop n : (signature_loop n bad_again).1 = Err OutOfFuel.
Proof.
  induction n as [|n IH]; [done|].
  rewrite (signature_loop_again n bad_again bad_again) by (exact bad_round || (vm_compute; reflexivity)). exact IH.
Qed.
Lemma bad_first : signature_round bad_state = (Ok (Err ValueError), bad_again).
Proof. vm_compute. reflexivity. Qed.

(** A scanner that raises ValueError keeps [signature] busy for ever: no number
    of rounds is enough. *)
Theorem scanner_ValueError_loops n : (signature_loop n bad_state).1 = Err OutOfFuel.
Proof.
  destruct n as [|n]; [done|].
  rewrite (signature_loop_again n bad_state bad_again) by (exact bad_first || reflexivity). exact (bad_loop n).
Qed.

(** When a source file comes last, the object file is stamped among the sources. *)
Definition demo_mixed : State := mkState demo_declared.2 demo_heap ∅ ∅ ∅ ∅ ∅
  (mkTask "gen" [] 0 [] [27%Z; 22%Z] [] [] [] None NOT_RUN None None false) "".
Example retrieved_in_wrong_variant :
  let r := can_retrieve_cache (Some "/cache") false (Some 5%Z) (Some 5%Z) (λ _, true) demo_mixed in
  r.1 = Ok true ∧ get_sig (bld r.2) None 27 = Some "[]" ∧ get_sig (bld r.2) (Some "default") 27 = None.
Proof. vm_compute. done. Qed.

(** ** Witnesses *)

Lemma demo_outputs x : x ∈ outputs demo_task →
  get_type x ≠ FILE ∧ x ∉ inputs demo_task ++ dep_nodes demo_task ++ deps_nodes demo_task.
Proof.
  cbn. intros ->%list_elem_of_singleton. split; [done|]. intros ?%list_elem_of_singleton. done.
Qed.
Lemma demo_ran : post_run demo_state = (Ok tt, demo_after).
Proof. vm_compute. reflexivity. Qed.
Lemma no_wait : NOT_RUN ∉ ([] : list HasRun).
Proof. apply not_elem_of_nil. Qed.
Lemma demo_calm : scan_calm (task demo_scan_state).
Proof. intros f b e b'. cbn. intros [= <-]. done. Qed.

(** The same task in two sessions, the second of which has seen another task. *)
Definition demo_later : State := mkState demo_declared.2 demo_heap {["other" := mkSigs "x" "x" "x" "x"]} ∅ ∅ ∅ ∅ demo_task "".
Lemma demo_later_settled : settled demo_later ["md5 of /s/d/b.c"] [].
Proof. destruct demo_settled. by split. Qed.
Lemma demo_sig_length s x sg : read_sig s 22 = Some "md5 of /s/d/b.c" → inputs (task s) ++ dep_nodes (task s) = [22%Z] →
  x ∈ inputs (task s) ++ dep_nodes (task s) → read_sig s x = Some sg → String.length sg = 15.
Proof. intros Hr -> ->%list_elem_of_singleton. rewrite Hr. by intros [= <-]. Qed.
Lemma signature_detects_changes_witness : ∃ sg, (signature demo_state).1 = Ok sg ∧ (signature demo_later).1 = Ok sg ∧
  ((∀ x, x ∈ [22%Z] → read_sig demo_state x = read_sig demo_later x) ∨
   (m (signature demo_state).2 ≠ m (signature demo_later).2 ∧ md5 (m (signature demo_state).2) = sg ∧ md5 (m (signature demo_later).2) = sg)).
Proof.
  exists (from_res "" (signature demo_state).1). split; [vm_compute; reflexivity|]. split; [vm_compute; reflexivity|].
  apply (signature_detects_changes 15 demo_state ["md5 of /s/d/b.c"] [] demo_later ["md5 of /s/d/b.c"] []).
  - exact demo_settled.
  - exact demo_later_settled.
  - reflexivity.
  - intros x sg. apply demo_sig_length; [vm_compute; reflexivity|reflexivity].
  - intros x sg. apply demo_sig_length; [vm_compute; reflexivity|reflexivity].
  - vm_compute. reflexivity.
  - vm_compute. reflexivity.
Defined.


(** The compiler's output has contents now. *)
#[local] Instance demo_compiled : FileSystem := {
  listdir := @listdir demo_files; isdir := @isdir demo_files; h_file p := Some ("md5 of " +:+ p) }.
Definition demo_updated : State := (@update_post_run demo_compiled _ _ demo_state).2.

Lemma update_outputs_skips_witness :
  ∃ s3, @update_runnable_status demo_compiled _ [] (reload demo_updated) = (Ok SKIP_ME, s3).
Proof.
  apply (update_outputs_skips (H := demo_compiled) demo_state ["md5 of /s/d/b.c"] [] demo_updated (reload demo_updated) []).
  - exact demo_settled.
  - reflexivity.
  - vm_compute. reflexivity.
  - exact (reload_next demo_updated).
  - exact no_wait.
  - exact demo_outputs.
Defined.

Lemma signature_terminates_witness :
  signature_loop (2 + 5) demo_scan_state = signature demo_scan_state ∧
  match signature demo_scan_state with
  | (Ok sg, s') => ∃ c, cache_sig (task s') = Some c ∧ sig_all c = sg
  | (Err e, _) => calm e
  end.
Proof. apply (signature_terminates 5 demo_scan_state). exact demo_calm. Defined.

Definition demo_status : res Status * State := runnable_status [] demo_scan_state.
Lemma runnable_status_correct_witness :
  ∃ c u, cache_sig (task demo_status.2) = Some c ∧ uid (task demo_status.2) = Some u ∧
    (RUN_ME = SKIP_ME ∨ RUN_ME = RUN_ME) ∧
    (RUN_ME = SKIP_ME ↔ ∃ prev, task_sigs demo_status.2 !! u = Some prev ∧ sig_all prev = sig_all c ∧
       ∀ x, x ∈ outputs (task demo_status.2) → read_sig demo_status.2 x = Some (sig_all c)).
Proof.
  apply (runnable_status_correct [] demo_scan_state RUN_ME demo_status.2).
  - exact demo_calm.
  - exact no_wait.
  - vm_compute. reflexivity.
Defined.

Lemma changed_dependencies_run_witness : RUN_ME = RUN_ME.
Proof.
  apply (changed_dependencies_run [] demo_scan_state (signature_round demo_scan_state).2 ValueError RUN_ME demo_status.2).
  - exact demo_calm.
  - exact no_wait.
  - reflexivity.
  - vm_compute. reflexivity.
  - vm_compute. reflexivity.
Defined.

Lemma cache_store_atomic_witness :
  let acts := MakeTemp :: RemoveTree "/cache/aa" :: [CopyIn 27 "/tmp"] ++ [RemoveTree "/tmp"] in
  (∀ x d, CopyIn x d ∈ acts → d = "/tmp") ∧
  (∀ d1 d2, Rename d1 d2 ∈ acts → d1 = "/tmp" ∧ d2 = "/cache/aa" ∧
    (∀ x, x ∈ outputs demo_task → (λ _, false) x = true) ∧
    ∃ l1 l2, acts = l1 ++ ((λ x, CopyIn x "/tmp") <$> outputs demo_task) ++ Rename d1 d2 :: l2) ∧
  (acts ≠ [] → (∃ x, x ∈ outputs demo_task ∧ (λ _, false) x = false) →
    RemoveTree "/tmp" ∈ acts ∧ Rename "/tmp" "/cache/aa" ∉ acts).
Proof. apply (cache_store_atomic "/cache" false demo_task "aa" "/tmp" (λ _, false) true). vm_compute. reflexivity. Defined.

Definition demo_retrieved : State :=
  (can_retrieve_cache (Some "/cache") false (Some 5%Z) (Some 5%Z) (λ _, true) demo_state).2.
Lemma retrieved_outputs_marked_witness :
  (∃ time, Some 5%Z = Some time ∧ Some 5%Z = Some time) ∧ (∀ x, x ∈ outputs (task demo_state) → (λ _, true) x = true) ∧
  cached (task demo_retrieved) = true ∧
  ∃ c, cache_sig (task demo_retrieved) = Some c ∧
       ∀ x, x ∈ outputs (task demo_state) → read_sig demo_retrieved x = Some (sig_all c).
Proof.
  apply (retrieved_outputs_marked (Some "/cache") false (Some 5%Z) (Some 5%Z) (λ _, true) demo_state demo_retrieved).
  - intros f b e b' [=].
  - intros x Hx. by apply demo_outputs.
  - vm_compute. reflexivity.
Defined.
End DemoTasks.
