(* ===== verification/WafDeps.v ===== *)
(** * Order from files (extract_outputs and extract_deps of tools/wafadmin/Task.py)

    For builds that run all tasks in parallel, the order between tasks is
    inferred: a task runs after those that produce its inputs, or the files its
    scanner finds. *)
From S2P Require Import Prelude PyStr PyState WafRunner WafEnv WafNode WafSig.

(** A task as these functions see it; [io_id] is the object. *)
Record Io := mkIo { io_id : nat; io_variant : string; io_ins : list Z; io_outs : list Z }.
(** [task.run_after] of each task. *)
Notation order := (gmap nat (list nat)).

Definition set_run_after (ra : order) (a b : nat) : order := <[a := default [] (ra !! a) ++ [b]]> ra.
Definition set_all (ra : order) (edges : list (nat * nat)) : order :=
  fold_left (λ ra e, set_run_after ra e.1 e.2) edges ra.

(** [try: d[k].append(x) except KeyError: d[k] = [x]] *)
Definition dict_append `{Countable K} (d : gmap K (list nat)) (k : K) (x : nat) : gmap K (list nat) :=
  <[k := default [] (d !! k) ++ [x]]> d.
Definition append_all `{Countable K} (x : nat) (ks : list K) (d : gmap K (list nat)) : gmap K (list nat) :=
  fold_left (λ d k, dict_append d k x) ks d.

(** [extract_outputs]: for each variant, the tasks that read and that write each
    node. *)
Notation io_tables := (gmap string (gmap Z (list nat) * gmap Z (list nat))).
Definition io_step (v : io_tables) (x : Io) : io_tables :=
  let '(ins, outs) := default (∅, ∅) (v !! io_variant x) in
  <[io_variant x := (append_all (io_id x) (io_ins x) ins, append_all (io_id x) (io_outs x) outs)]> v.
Definition tables (tasks : list Io) : io_tables := fold_left io_step tasks ∅.
(** The calls of [set_run_after], in the order in which Python runs through its
    sets. *)
Definition pairs (l1 l2 : list nat) : list (nat * nat) := a ← l1; b ← l2; [(a, b)].
Definition table_edges (io : gmap Z (list nat) * gmap Z (list nat)) : list (nat * nat) :=
  k ← elements (dom (fst io) ∩ dom (snd io));
  pairs (default [] (fst io !! k)) (default [] (snd io !! k)).
Definition extract_outputs (tasks : list Io) (ra : order) : order :=
  set_all ra ((snd <$> map_to_list (tables tasks)) ≫= table_edges).

(** [extract_deps]: [deps] holds the nodes that the scanners have found for each
    task. *)
Definition out_to_task (tasks : list Io) : gmap (string * Z) nat :=
  fold_left (λ d x, fold_left (λ d n, <[(io_variant x, n) := io_id x]> d) (io_outs x) d) tasks ∅.
Definition dep_to_task (tasks : list (Io * list Z)) : gmap (string * Z) (list nat) :=
  fold_left (λ d xd, append_all (io_id (fst xd)) ((io_variant (fst xd),.) <$> snd xd) d) tasks ∅.
Definition dep_edges (tasks : list (Io * list Z)) : list (nat * nat) :=
  let outs := out_to_task (fst <$> tasks) in
  let deps := dep_to_task tasks in
  idx ← elements (dom deps ∩ dom outs);
  match outs !! idx with Some b => (λ a, (a, b)) <$> default [] (deps !! idx) | None => [] end.
Definition extract_deps (tasks : list (Io * list Z)) (ra : order) : order :=
  set_all (extract_outputs (fst <$> tasks) ra) (dep_edges tasks).

(** How [extract_deps] obtains the nodes: it computes the signatures for what the
    scanners store, ignores any exception, and forgets the signatures. *)
Section Gather.
Context `{FileSystem} `{Digest}.
Fixpoint gather_deps (tasks : list Task) (s : State) : res (list (Task * list Z)) * State :=
  match tasks with
  | [] => (Ok [], s)
  | t :: tasks' =>
      let '(_, s) := signature (with_task s t) in
      match unique_id s with
      | (Err e, s) => (Err e, s)
      | (Ok u, s) =>
          let t' := set_cache_sig (task s) None in
          let deps := default [] (node_deps s !! u) in
          let '(r, s) := gather_deps tasks' s in
          (l ← r; Ok ((t', deps) :: l), s)
      end
  end.
End Gather.

(** ** Lemmas *)

Lemma set_all_elem edges : ∀ ra a b,
  b ∈ default [] (set_all ra edges !! a) ↔ b ∈ default [] (ra !! a) ∨ (a, b) ∈ edges.
Proof.
  induction edges as [|[x y] edges IH]; intros ra a b.
  - cbn. rewrite elem_of_nil. tauto.
  - change (set_all ra ((x, y) :: edges)) with (set_all (set_run_after ra x y) edges). rewrite IH, elem_of_cons. unfold set_run_after. cbn [fst snd].
    destruct (decide (a = x)) as [->|Hne].
    + rewrite lookup_insert_eq. cbn. rewrite elem_of_app, list_elem_of_singleton. naive_solver.
    + rewrite lookup_insert_ne by done. naive_solver.
Qed.

Lemma append_all_elem `{Countable K} x (ks : list K) : ∀ d k y,
  y ∈ default [] (append_all x ks d !! k) ↔ y ∈ default [] (d !! k) ∨ y = x ∧ k ∈ ks.
Proof.
  induction ks as [|k' ks IH]; intros d k y.
  - cbn. rewrite elem_of_nil. tauto.
  - change (append_all x (k' :: ks) d) with (append_all x ks (dict_append d k' x)). rewrite IH, elem_of_cons. unfold dict_append.
    destruct (decide (k = k')) as [->|Hne].
    + rewrite lookup_insert_eq. cbn. rewrite elem_of_app, list_elem_of_singleton. naive_solver.
    + rewrite lookup_insert_ne by done. naive_solver.
Qed.

Lemma elem_of_io_pairs l1 l2 a b : (a, b) ∈ pairs l1 l2 ↔ a ∈ l1 ∧ b ∈ l2.
Proof.
  unfold pairs. rewrite list_elem_of_bind. split.
  - intros (a' & (b' & [= -> ->]%list_elem_of_singleton & Hb)%list_elem_of_bind & Ha). done.
  - intros [Ha Hb]. exists a. split; [|done]. apply list_elem_of_bind. exists b. split; [by left|done].
Qed.

(** Who reads and who writes a node, in a table. *)
Definition readers (v : io_tables) (vt : string) (k : Z) : list nat :=
  default [] (fst (default (∅, ∅) (v !! vt)) !! k).
Definition writers (v : io_tables) (vt : string) (k : Z) : list nat :=
  default [] (snd (default (∅, ∅) (v !! vt)) !! k).

Lemma tables_elem tasks vt k a :
  (a ∈ readers (tables tasks) vt k ↔ ∃ x, x ∈ tasks ∧ io_id x = a ∧ io_variant x = vt ∧ k ∈ io_ins x) ∧
  (a ∈ writers (tables tasks) vt k ↔ ∃ x, x ∈ tasks ∧ io_id x = a ∧ io_variant x = vt ∧ k ∈ io_outs x).
Proof.
  assert (Hgen : ∀ v, 
    (a ∈ readers (fold_left io_step tasks v) vt k ↔
      a ∈ readers v vt k ∨ ∃ x, x ∈ tasks ∧ io_id x = a ∧ io_variant x = vt ∧ k ∈ io_ins x) ∧
    (a ∈ writers (fold_left io_step tasks v) vt k ↔
      a ∈ writers v vt k ∨ ∃ x, x ∈ tasks ∧ io_id x = a ∧ io_variant x = vt ∧ k ∈ io_outs x)).
  { induction tasks as [|x tasks IH]; intros v; cbn [fold_left].
    - split; split; auto; intros [?|(x & []%elem_of_nil & _)]; done.
    - destruct (IH (io_step v x)) as [-> ->].
      assert (Hstep : (a ∈ readers (io_step v x) vt k ↔ a ∈ readers v vt k ∨ io_id x = a ∧ io_variant x = vt ∧ k ∈ io_ins x) ∧
                      (a ∈ writers (io_step v x) vt k ↔ a ∈ writers v vt k ∨ io_id x = a ∧ io_variant x = vt ∧ k ∈ io_outs x)).
      { unfold readers, writers, io_step.
        destruct (decide (vt = io_variant x)) as [->|Hne];
          destruct (default (∅, ∅) (v !! io_variant x)) as [ins outs].
        - rewrite lookup_insert_eq. cbn [default from_option id fst snd]. rewrite !append_all_elem. naive_solver.
        - rewrite lookup_insert_ne by done. naive_solver. }
      destruct Hstep as [-> ->]. setoid_rewrite elem_of_cons. naive_solver. }
  destruct (Hgen ∅) as [H1 H2]. unfold tables. rewrite H1, H2. unfold readers, writers. rewrite lookup_empty. cbn.
  rewrite lookup_empty, elem_of_nil. naive_solver.
Qed.

Lemma table_edges_elem io a b :
  (a, b) ∈ table_edges io ↔ ∃ k, a ∈ default [] (fst io !! k) ∧ b ∈ default [] (snd io !! k).
Proof.
  unfold table_edges. rewrite list_elem_of_bind. setoid_rewrite elem_of_io_pairs. split.
  - intros (k & [Ha Hb] & _). eauto.
  - intros (k & Ha & Hb). exists k. split; [done|]. apply elem_of_elements, elem_of_intersection.
    rewrite !elem_of_dom. destruct (fst io !! k), (snd io !! k); try (by apply elem_of_nil in Ha);
      try (by apply elem_of_nil in Hb). eauto.
Qed.

(** A task is made to run after another exactly when it reads, in the same
    variant, a node that the other writes; the order set before is kept. *)
Theorem extract_outputs_correct tasks ra a b :
  b ∈ default [] (extract_outputs tasks ra !! a) ↔
  b ∈ default [] (ra !! a) ∨
  ∃ x y k, x ∈ tasks ∧ y ∈ tasks ∧ io_id x = a ∧ io_id y = b ∧ io_variant x = io_variant y ∧
           k ∈ io_ins x ∧ k ∈ io_outs y.
Proof.
  unfold extract_outputs. rewrite set_all_elem. f_equiv. rewrite list_elem_of_bind. split.
  - intros (io' & (k & Ha & Hb)%table_edges_elem & ((vt & io) & -> & Hin)%list_elem_of_fmap).
    apply elem_of_map_to_list in Hin. cbn [snd] in *.
    assert (Hr : a ∈ readers (tables tasks) vt k) by (unfold readers; by rewrite Hin).
    assert (Hw : b ∈ writers (tables tasks) vt k) by (unfold writers; by rewrite Hin).
    apply tables_elem in Hr as (x & Hx & <- & Hvx & Hkx). apply tables_elem in Hw as (y & Hy & <- & Hvy & Hky).
    exists x, y, k. split_and!; congruence.
  - intros (x & y & k & Hx & Hy & <- & <- & Hv & Hkx & Hky).
    assert (Hr : io_id x ∈ readers (tables tasks) (io_variant x) k) by (apply tables_elem; eauto).
    assert (Hw : io_id y ∈ writers (tables tasks) (io_variant x) k) by (apply tables_elem; eauto).
    unfold readers in Hr. unfold writers in Hw. destruct (tables tasks !! io_variant x) as [io|] eqn:Eio.
    + exists io. split; [apply table_edges_elem; eauto|]. apply list_elem_of_fmap. exists (io_variant x, io).
      split; [done|]. by apply elem_of_map_to_list.
    + cbn in Hr. rewrite lookup_empty in Hr. by apply elem_of_nil in Hr.
Qed.

Lemma out_to_task_last tasks v k b : out_to_task tasks !! (v, k) = Some b ↔
  ∃ l1 x l2, tasks = l1 ++ x :: l2 ∧ io_id x = b ∧ io_variant x = v ∧ k ∈ io_outs x ∧
    ∀ y, y ∈ l2 → io_variant y = v → k ∉ io_outs y.
Proof.
  unfold out_to_task. induction tasks as [|x tasks IH] using rev_ind.
  { cbn. split; [done|]. intros (l1 & x & l2 & He & _). by destruct l1. }
  rewrite fold_left_app. cbn [fold_left].
  assert (Hins : ∀ (l : list Z) (d : gmap (string * Z) nat), fold_left (λ d n, <[(io_variant x, n) := io_id x]> d) l d !! (v, k) =
    if decide (io_variant x = v ∧ k ∈ l) then Some (io_id x) else d !! (v, k)).
  { induction l as [|n l IHl]; intros d; cbn [fold_left].
    - rewrite decide_False; [done|]. intros [_ []%elem_of_nil].
    - rewrite IHl. destruct (decide (io_variant x = v ∧ n = k)) as [[Hv ->]|Hne].
      + rewrite Hv, lookup_insert_eq. destruct (decide (v = v ∧ k ∈ l)), (decide (v = v ∧ k ∈ k :: l)) as [|Hn];
          try done; destruct Hn; (split; [done|by left]).
      + rewrite lookup_insert_ne by (intros [=]; auto). apply decide_ext. rewrite elem_of_cons. naive_solver. }
  rewrite Hins. destruct (decide (io_variant x = v ∧ k ∈ io_outs x)) as [Hd|Hd].
  - split.
    + intros [= <-]. exists tasks, x, []. split_and!; try apply Hd; try done. by intros y []%elem_of_nil.
    + intros (l1 & y & l2 & He & <- & Hv & Hk & Hlast). destruct l2 as [|z l2 _] using rev_ind.
      * apply app_inj_tail in He as [_ ->]. done.
      * rewrite app_comm_cons, app_assoc in He. apply app_inj_tail in He as [_ <-].
        destruct (Hlast x); [|apply Hd|apply Hd]. apply elem_of_app. right. by left.
  - rewrite IH. split.
    + intros (l1 & y & l2 & -> & Hb & Hv & Hk & Hlast). exists l1, y, (l2 ++ [x]). split_and!; try done.
      * by rewrite <- app_assoc.
      * intros z [Hz| ->%list_elem_of_singleton]%elem_of_app; [by apply Hlast|]. naive_solver.
    + intros (l1 & y & l2 & He & Hb & Hv & Hk & Hlast). destruct l2 as [|z l2 _] using rev_ind.
      * apply app_inj_tail in He as [_ ->]. naive_solver.
      * rewrite app_comm_cons, app_assoc in He. apply app_inj_tail in He as [-> <-].
        exists l1, y, l2. split_and!; try done. intros w Hw. apply Hlast, elem_of_app. by left.
Qed.

Lemma dep_to_task_elem tasks v k a : a ∈ default [] (dep_to_task tasks !! (v, k)) ↔
  ∃ x d, (x, d) ∈ tasks ∧ io_id x = a ∧ io_variant x = v ∧ k ∈ d.
Proof.
  unfold dep_to_task.
  assert (Hgen : ∀ m, a ∈ default [] (fold_left (λ d xd, append_all (io_id (fst xd)) ((io_variant (fst xd),.) <$> snd xd) d)
      tasks m !! (v, k)) ↔
    a ∈ default [] (m !! (v, k)) ∨ ∃ x d, (x, d) ∈ tasks ∧ io_id x = a ∧ io_variant x = v ∧ k ∈ d).
  { induction tasks as [|[x d] tasks IH]; intros m; cbn [fold_left].
    - split; [auto|]. intros [?|(x & d & []%elem_of_nil & _)]. done.
    - rewrite IH, append_all_elem. cbn [fst snd]. setoid_rewrite elem_of_cons. rewrite list_elem_of_fmap. split.
      + intros [[?|[-> (n & [= -> ->] & Hn)]]|(y & e & ? & ?)]; [auto| |]; right; eauto 10.
      + intros [?|(y & e & [[= -> ->]|Hin] & <- & <- & Hk)]; [auto| |]; [left; right|right]; eauto 10. }
  rewrite Hgen, lookup_empty. cbn. rewrite elem_of_nil. tauto.
Qed.

(** Besides the order from inputs and outputs, a task runs after the last task
    listed that produces a file its scanner has found, in its variant. *)
Theorem extract_deps_correct tasks ra a b :
  b ∈ default [] (extract_deps tasks ra !! a) ↔
  b ∈ default [] (extract_outputs (fst <$> tasks) ra !! a) ∨
  ∃ x d k l1 y l2, (x, d) ∈ tasks ∧ io_id x = a ∧ k ∈ d ∧
    (fst <$> tasks) = l1 ++ y :: l2 ∧ io_id y = b ∧ io_variant y = io_variant x ∧ k ∈ io_outs y ∧
    ∀ z, z ∈ l2 → io_variant z = io_variant x → k ∉ io_outs z.
Proof.
  unfold extract_deps. rewrite set_all_elem. f_equiv. unfold dep_edges. rewrite list_elem_of_bind. split.
  - intros ([v k] & Hin & _). destruct (out_to_task (fst <$> tasks) !! (v, k)) as [b'|] eqn:Eo; [|by apply elem_of_nil in Hin].
    apply list_elem_of_fmap in Hin as (a' & [= -> ->] & Ha). apply dep_to_task_elem in Ha as (x & d & Hx & <- & <- & Hk).
    apply out_to_task_last in Eo as (l1 & y & l2 & ? & ? & ? & ? & ?). exists x, d, k, l1, y, l2. done.
  - intros (x & d & k & l1 & y & l2 & Hx & <- & Hk & Hl & <- & Hv & Hky & Hlast). exists (io_variant x, k).
    assert (Ho : out_to_task (fst <$> tasks) !! (io_variant x, k) = Some (io_id y)).
    { apply out_to_task_last. exists l1, y, l2. done. }
    assert (Ha : io_id x ∈ default [] (dep_to_task tasks !! (io_variant x, k))) by (apply dep_to_task_elem; by exists x, d).
    rewrite Ho. split.
    + apply list_elem_of_fmap. eauto.
    + apply elem_of_elements, elem_of_intersection. rewrite !elem_of_dom. split; [|eauto].
      destruct (dep_to_task tasks !! _); [eauto|]. by apply elem_of_nil in Ha.
Qed.

(** A task that writes one of its own inputs is made to wait for itself; until
    it has run its status is to ask later, so it never runs. *)
Theorem own_input_waits_forever `{FileSystem, Digest} x ra k (runs : nat → HasRun) s :
  k ∈ io_ins x → k ∈ io_outs x → runs (io_id x) = NOT_RUN →
  runnable_status (runs <$> default [] (extract_outputs [x] ra !! io_id x)) s = (Ok ASK_LATER, s).
Proof.
  intros Hi Ho Hr. unfold runnable_status. rewrite bool_decide_true; [done|]. rewrite <- Hr.
  apply list_elem_of_fmap_2. unfold extract_outputs. apply set_all_elem. right. apply list_elem_of_bind.
  assert (Hin : io_id x ∈ readers (tables [x]) (io_variant x) k) by (apply tables_elem; exists x; set_solver).
  assert (Hout : io_id x ∈ writers (tables [x]) (io_variant x) k) by (apply tables_elem; exists x; set_solver).
  unfold readers in Hin. unfold writers in Hout. destruct (tables [x] !! io_variant x) as [io|] eqn:Eio.
  - exists io. split; [apply table_edges_elem; eauto|]. apply list_elem_of_fmap. exists (io_variant x, io).
    split; [done|]. by apply elem_of_map_to_list.
  - cbn in Hin. rewrite lookup_empty in Hin. by apply elem_of_nil in Hin.
Qed.

(** ** Witness *)

Section Witness.
#[local] Existing Instance demo_files.
#[local] Instance demo_digest : Digest := λ s, s.
Definition demo_io : Io := mkIo 0 "default" [22%Z] [22%Z].
Definition demo_state : State := mkState demo_declared.2 empty_heap ∅ ∅ ∅ ∅ ∅
  (mkTask "sed" [] 0 [22%Z] [22%Z] [] [] [] None NOT_RUN None None false) "".
Lemma own_input_waits_forever_witness :
  runnable_status ((λ _, NOT_RUN) <$> default [] (extract_outputs [demo_io] ∅ !! 0)) demo_state = (Ok ASK_LATER, demo_state).
Proof. apply (own_input_waits_forever demo_io ∅ 22 (λ _, NOT_RUN) demo_state); [by left|by left|reflexivity]. Defined.
End Witness.
