(* ===== verification/WafCommand.v ===== *)
(** * Commands of rules (compile_fun, compile_fun_shell and compile_fun_noshell of tools/wafadmin/Task.py)

    A rule such as [${CC} -o ${TGT} ${SRC}] is compiled to a function that builds
    the command of a task: a string for the shell, or a list of arguments.  The
    generated function is represented by what it evaluates. *)
From S2P Require Import Prelude PyStr WafEnv WafNode.

(** ** Reading the line

    [reg_act] matches a backslash, two dollars, or [${var code}]. *)
Inductive piece := PChar (a : ascii) | PBackslash | PDollar | PSubst (var code : string).

Definition backslash : ascii := "\".
Definition is_word (a : ascii) : bool := is_alpha a || is_digit a || (a =c "_").

Fixpoint take_word (s : string) : string * string :=
  match s with
  | String a s' => if is_word a then let '(w, r) := take_word s' in (String a w, r) else ("", s)
  | EmptyString => ("", "")
  end.
(** [.*?\}]: up to the first brace, on the same line. *)
Fixpoint take_code (s : string) : option (string * string) :=
  match s with
  | EmptyString => None
  | String a s' =>
      if a =c "}" then Some ("", s')
      else if Ascii.eqb a nl then None
      else '(c, r) ← take_code s'; Some (String a c, r)
  end.
Definition take_subst (s : string) : option (string * string * string) :=
  let '(var, r) := take_word s in
  if var =s "" then None else '(code, r) ← take_code r; Some (var, code, r).

Fixpoint pieces_loop (fuel : nat) (s : string) : list piece :=
  match fuel, s with
  | S f, String a s' =>
      if Ascii.eqb a backslash then PBackslash :: pieces_loop f s'
      else if a =c "$" then
        match s' with
        | String c s'' =>
            if c =c "$" then PDollar :: pieces_loop f s''
            else if c =c "{" then
              match take_subst s'' with
              | Some (var, code, r) => PSubst var code :: pieces_loop f r
              | None => PChar a :: pieces_loop f s'
              end
            else PChar a :: pieces_loop f s'
        | EmptyString => [PChar a]
        end
      else PChar a :: pieces_loop f s'
  | _, _ => []
  end.
Definition pieces (line : string) : list piece := pieces_loop (String.length line) line.

(** ** For the shell *)

(** What stands for [${var code}] in the generated function. *)
Inductive param := SrcAttr (code : string) | Srcs | TgtAttr (code : string) | Tgts | EnvVar (var : string).
Definition param_of (var code : string) : param :=
  if var =s "SRC" then (if code =s "" then Srcs else SrcAttr code)
  else if var =s "TGT" then (if code =s "" then Tgts else TgtAttr code)
  else EnvVar var.
Definition params_of (ps : list piece) : list param :=
  omap (λ p, match p with PSubst var code => Some (param_of var code) | _ => None end) ps.
Definition add_var (dvars : list string) (p : param) : list string :=
  match p with
  | EnvVar var => if bool_decide (var ∈ dvars) then dvars else dvars ++ [var]
  | _ => dvars
  end.
Definition dvars_of (ps : list piece) : list string := fold_left add_var (params_of ps) [].

(** The format string: a backslash is doubled for the literal in which it is
    put, so that it is a backslash of the command.  (A line that holds a triple
    quote would end the literal; such lines are not considered.) *)
Definition shell_piece (p : piece) : string :=
  match p with PChar a => String a "" | PBackslash => String backslash "" | PDollar => "$" | PSubst _ _ => "%s" end.
Definition concat_str (l : list string) : string := foldr String.append "" l.

(** [%] on strings.  Only [%s] and [%%] are modelled; the theorems are about
    lines without other conversions. *)
Fixpoint py_format (s : string) (args : list string) : res string :=
  match s with
  | EmptyString => match args with [] => Ok "" | _ => Err TypeError end
  | String a s' =>
      if a =c "%" then
        match s' with
        | String c s'' =>
            if c =c "s" then
              match args with v :: args' => r ← py_format s'' args'; Ok (v +:+ r) | [] => Err TypeError end
            else if c =c "%" then r ← py_format s'' args; Ok (String a r)
            else Err ValueError
        | EmptyString => Err ValueError
        end
      else r ← py_format s' args; Ok (String a r)
  end.

Section Commands.
(** The task: its nodes, the environment, and the values of expressions such as
    [task.inputs[0].abspath()], which are Python code in the rule. *)
Context (b : BuildContext) (h : Heap) (env : nat) (v : string) (ins outs : list Z)
  (attr : bool → string → res string).

Definition param_value (p : param) : res string :=
  match p with
  | SrcAttr code => attr true code
  | TgtAttr code => attr false code
  | Srcs => l ← res_map (λ a, srcpath b a v) ins; Ok (join " " l)
  | Tgts => l ← res_map (λ a, bldpath b a v) outs; Ok (join " " l)
  | EnvVar var => get_flat h env var
  end.

(** [compile_fun_shell]: the command that the function executes. *)
Definition compile_fun_shell (line : string) : res string :=
  let ps := pieces line in
  let fmt := " " +:+ concat_str (shell_piece <$> ps) +:+ " " in
  match params_of ps with
  | [] => Ok fmt
  | l => vals ← res_map param_value l; py_format fmt vals
  end.

(** ** Without a shell *)

(** The replacement function returns None for a backslash, which leaves
    nothing. *)
Definition noshell_piece (p : piece) : string :=
  match p with PChar a => String a "" | PBackslash => "" | PDollar => "$" | PSubst _ _ => "" end.
(** The texts before the substitutions, with these, and the text after. *)
Fixpoint noshell_parts (ps : list piece) (cur : string) : list (string * param) * string :=
  match ps with
  | [] => ([], cur)
  | PSubst var code :: ps' => let '(l, r) := noshell_parts ps' "" in ((cur, param_of var code) :: l, r)
  | p :: ps' => noshell_parts ps' (cur +:+ noshell_piece p)
  end.

(** [shlex.split] of a text without backslashes: [q] is the open quote, [cur] the
    word being read. *)
Definition dquote : ascii := "034".
Definition is_quote (a : ascii) : bool := (a =c "'") || Ascii.eqb a dquote.
Fixpoint shlex_go (q : option ascii) (cur : option string) (s : string) : res (list string) :=
  match s with
  | EmptyString =>
      match q with Some _ => Err ValueError | None => Ok (option_list cur) end
  | String a s' =>
      match q with
      | Some c => if Ascii.eqb a c then shlex_go None cur s'
                  else shlex_go q (Some (default "" cur +:+ String a "")) s'
      | None =>
          if is_space a then l ← shlex_go None None s'; Ok (option_list cur ++ l)
          else if is_quote a then shlex_go (Some a) (Some (default "" cur)) s'
          else shlex_go None (Some (default "" cur +:+ String a "")) s'
      end
  end.
Definition shlex_split (s : string) : res (list string) := shlex_go None None s.

Definition atom_str (a : atom) : res string := match a with AStr s => Ok s | _ => Err TypeError end.
(** An element of a list of arguments: what is false is left out below, and a
    number cannot be executed. *)
Definition elem_str (a : atom) : res string :=
  match a with
  | AStr s => Ok s
  | ANone => Ok ""
  | AInt z => if (z =? 0)%Z then Ok "" else Err TypeError
  end.
Definition param_args (p : param) : res (list string) :=
  match p with
  | SrcAttr code => x ← attr true code; Ok [x]
  | TgtAttr code => x ← attr false code; Ok [x]
  | Srcs => res_map (λ a, srcpath b a v) ins
  | Tgts => res_map (λ a, bldpath b a v) outs
  | EnvVar var => match view h env var with
                  | SAtom a => x ← atom_str a; Ok [x]
                  | SList l => res_map elem_str l
                  end
  end.

(** [compile_fun_noshell]: the arguments that the function executes; empty ones
    are left out. *)
Definition compile_fun_noshell (line : string) : res (list string) :=
  let '(parts, final) := noshell_parts (pieces line) "" in
  l ← res_map (λ tp, args ← param_args (snd tp); Ok (split_ws (fst tp) ++ args)) parts;
  last ← (if final =s "" then Ok [] else shlex_split final);
  Ok (filter (λ x, x ≠ "") (concat l ++ last)).
End Commands.

(** [compile_fun]: whether a shell is used, on posix. *)
Definition found_after_start (sub line : string) : bool :=
  match find sub line with Some (S _) => true | _ => false end.
Definition use_shell (line : string) (shell : option bool) : bool :=
  if found_after_start "<" line || found_after_start ">" line || found_after_start "&&" line then true
  else default true shell.

(** ** Reading is lossless *)

Definition print_piece (p : piece) : string :=
  match p with
  | PChar a => String a ""
  | PBackslash => String backslash ""
  | PDollar => "$$"
  | PSubst var code => "${" +:+ var +:+ code +:+ "}"
  end.

Lemma take_word_app s w r : take_word s = (w, r) → s = w +:+ r.
Proof.
  revert w r. induction s as [|a s IH]; intros w r; cbn; [by intros [= <- <-]|].
  destruct (is_word a); [|by intros [= <- <-]]. destruct (take_word s) as [w' r'].
  intros [= <- <-]. by rewrite (IH w' r').
Qed.
Lemma take_code_app s c r : take_code s = Some (c, r) → s = c +:+ "}" +:+ r.
Proof.
  revert c r. induction s as [|a s IH]; intros c r; cbn; [done|].
  destruct (Ascii.eqb_spec a "}") as [->|]; [by intros [= <- <-]|]. destruct (Ascii.eqb a nl); [done|].
  destruct (take_code s) as [[c' r']|]; [|done]. intros [= <- <-]. by rewrite (IH c' r').
Qed.
Lemma take_subst_app s var code r : take_subst s = Some (var, code, r) → s = var +:+ code +:+ "}" +:+ r.
Proof.
  unfold take_subst. destruct (take_word s) as [w r0] eqn:Ew. destruct (w =s ""); [done|].
  destruct (take_code r0) as [[c r1]|] eqn:Ec; [|done]. intros [= <- <- <-].
  apply take_word_app in Ew as ->. by apply take_code_app in Ec as ->.
Qed.

Lemma pieces_loop_print fuel : ∀ s, String.length s ≤ fuel → concat_str (print_piece <$> pieces_loop fuel s) = s.
Proof.
  induction fuel as [|fuel IH]; intros [|a s] Hs; cbn in Hs; try lia; [done|done|]. cbn [pieces_loop].
  assert (Hplain : concat_str (print_piece <$> PChar a :: pieces_loop fuel s) = String a s).
  { cbn. f_equal. apply IH. lia. }
  destruct (Ascii.eqb_spec a backslash) as [->|_]; [exact Hplain|].
  destruct (Ascii.eqb_spec a "$") as [->|_]; [|exact Hplain].
  destruct s as [|c s]; [done|]. cbn in Hs.
  destruct (Ascii.eqb_spec c "$") as [->|_].
  { change (String "$" (String "$" (concat_str (print_piece <$> pieces_loop fuel s))) = String "$" (String "$" s)).
    rewrite IH; [done|lia]. }
  destruct (Ascii.eqb_spec c "{") as [->|_]; [|exact Hplain].
  destruct (take_subst s) as [[[var code] r]|] eqn:Et; [|exact Hplain]. apply take_subst_app in Et as ->.
  cbn [fmap list_fmap concat_str foldr print_piece]. fold (concat_str (print_piece <$> pieces_loop fuel r)).
  rewrite IH.
  - by rewrite !str_app_assoc.
  - rewrite !str_length_app in Hs. cbn in Hs. lia.
Qed.

(** Reading a rule loses nothing: its pieces, written again, are the rule. *)
Theorem pieces_print line : concat_str (print_piece <$> pieces line) = line.
Proof. by apply pieces_loop_print. Qed.

(** ** The shell's command *)

Section Expand.
Context (b : BuildContext) (h : Heap) (env : nat) (v : string) (ins outs : list Z)
  (attr : bool → string → res string).

(** What a rule means: each piece in turn, with the value of a substitution. *)
Definition expand_piece (p : piece) : res string :=
  match p with
  | PSubst var code => param_value b h env v ins outs attr (param_of var code)
  | _ => Ok (shell_piece p)
  end.
Definition shell_expand (ps : list piece) : res string :=
  l ← res_map expand_piece ps; Ok (concat_str l).

Lemma format_pieces ps : PChar "%" ∉ ps → ∀ vals,
  res_map (param_value b h env v ins outs attr) (params_of ps) = Ok vals →
  ∃ s, shell_expand ps = Ok s ∧ py_format (concat_str (shell_piece <$> ps) +:+ " ") vals = Ok (s +:+ " ").
Proof.
  induction ps as [|p ps IH]; intros Hp vals.
  - intros [= <-]. by exists "".
  - apply not_elem_of_cons in Hp as [Hp Hps]. specialize (IH Hps).
    assert (Hchar : ∀ a, (a ≠ "%"%char) → res_map (param_value b h env v ins outs attr) (params_of ps) = Ok vals →
      expand_piece p = Ok (String a "") → shell_piece p = String a "" →
      ∃ s, shell_expand (p :: ps) = Ok s ∧
           py_format (concat_str (shell_piece <$> p :: ps) +:+ " ") vals = Ok (s +:+ " ")).
    { intros a Ha Hr He Hs. destruct (IH vals Hr) as (s & Hs1 & Hs2). exists (String a s). split.
      - unfold shell_expand in *. cbn [res_map]. rewrite He. cbn [mbind res_bind].
        apply res_bind_Ok in Hs1 as (l & -> & [= <-]). done.
      - cbn [fmap list_fmap concat_str foldr]. fold (concat_str (shell_piece <$> ps)).
        rewrite Hs, !str_app_cons, str_app_nil_l. cbn [py_format].
        by rewrite (proj2 (Ascii.eqb_neq _ _) Ha), Hs2. }
    destruct p as [a| | |var code]; cbn [params_of omap list_omap]; intros Hr.
    + apply (Hchar a); try done. by intros ->.
    + by apply (Hchar backslash).
    + by apply (Hchar "$"%char).
    + cbn [res_map] in Hr. apply res_bind_Ok in Hr as (x & Hx & (xs & Hxs & [= <-])%res_bind_Ok).
      destruct (IH xs Hxs) as (s & Hs1 & Hs2). exists (x +:+ s). split.
      * unfold shell_expand in *. cbn [res_map expand_piece]. rewrite Hx. cbn [mbind res_bind].
        apply res_bind_Ok in Hs1 as (l & -> & [= <-]). done.
      * cbn [fmap list_fmap concat_str foldr shell_piece]. fold (concat_str (shell_piece <$> ps)).
        rewrite !str_app_cons, str_app_nil_l. cbn. rewrite Hs2. cbn. by rewrite str_app_assoc.
Qed.
Lemma no_params ps : params_of ps = [] → shell_expand ps = Ok (concat_str (shell_piece <$> ps)).
Proof.
  induction ps as [|p ps IH]; intros Hp; [done|]. unfold shell_expand in *.
  assert (He : expand_piece p = Ok (shell_piece p)) by (by destruct p).
  cbn [res_map]. rewrite He. cbn [mbind res_bind].
  assert (Hps : params_of ps = []) by (destruct p; done).
  specialize (IH Hps). apply res_bind_Ok in IH as (l & -> & [= Hl]).
  cbn [mbind res_bind fmap list_fmap concat_str foldr]. by fold (concat_str l); rewrite Hl.
Qed.
Lemma expand_error ps e :
  res_map (param_value b h env v ins outs attr) (params_of ps) = Err e → shell_expand ps = Err e.
Proof.
  unfold shell_expand. induction ps as [|p ps IH]; [done|]. cbn [res_map].
  destruct p as [a| | |var code]; cbn [params_of omap list_omap res_map expand_piece]; intros Hr;
    try (cbn [mbind res_bind]; apply IH in Hr; apply res_bind_Err in Hr as [->|(? & _ & [=])]; done).
  apply res_bind_Err in Hr as [->|(x & -> & Hr)]; [done|].
  apply res_bind_Err in Hr as [Hr|(? & _ & [=])]. apply IH in Hr. cbn [mbind res_bind].
  by apply res_bind_Err in Hr as [->|(? & _ & [=])].
Qed.
End Expand.

(** The command given to the shell is the rule with the value of each variable
    in its place, or the error of the first value that cannot be computed, for
    rules without a percent sign. *)
Theorem shell_command_correct b h env v ins outs attr line :
  PChar "%" ∉ pieces line →
  compile_fun_shell b h env v ins outs attr line =
    (s ← shell_expand b h env v ins outs attr (pieces line); Ok (" " +:+ s +:+ " ")).
Proof.
  intros Hp. unfold compile_fun_shell. destruct (params_of (pieces line)) as [|p l] eqn:El.
  - by rewrite no_params.
  - destruct (res_map (param_value b h env v ins outs attr) (p :: l)) as [vals|e] eqn:Er; rewrite <- El in Er.
    + destruct (format_pieces b h env v ins outs attr _ Hp vals Er) as (s & -> & Hs).
      cbn [mbind res_bind]. rewrite !str_app_cons, !str_app_nil_l. cbn. by rewrite Hs.
    + by rewrite (expand_error b h env v ins outs attr _ e Er).
Qed.

(** A percent sign is taken for a conversion as soon as the rule has a
    variable: the task fails before its command runs, while the same rule without
    variables works. *)
Theorem percent_in_rule_fails b h env v ins outs attr :
  get_flat h env "FLAGS" = Ok "x" →
  compile_fun_shell b h env v ins outs attr "make -DP=5%${FLAGS}" = Err TypeError ∧
  compile_fun_shell b h env v ins outs attr "make -DP=5%" = Ok " make -DP=5% ".
Proof.
  intros Hf. split; [|reflexivity]. unfold compile_fun_shell.
  replace (params_of (pieces "make -DP=5%${FLAGS}")) with [EnvVar "FLAGS"] by reflexivity.
  cbn [res_map param_value]. rewrite Hf. reflexivity.
Qed.

(** Without a shell, the backslashes of a rule disappear. *)
Theorem noshell_drops_backslashes b h env v ins outs attr :
  compile_fun_noshell b h env v ins outs attr "echo a\b" = Ok ["echo"; "ab"] ∧
  compile_fun_shell b h env v ins outs attr "echo a\b" = Ok " echo a\b ".
Proof. done. Qed.

(** The variables a rule is found to depend on are those it substitutes, each
    once: a change of any of them changes the signature of the task. *)
Theorem dvars_correct line :
  NoDup (dvars_of (pieces line)) ∧
  ∀ var, var ∈ dvars_of (pieces line) ↔ ∃ code, PSubst var code ∈ pieces line ∧ var ≠ "SRC" ∧ var ≠ "TGT".
Proof.
  assert (Hfold : ∀ l dv, NoDup dv → NoDup (fold_left add_var l dv) ∧
    ∀ var, var ∈ fold_left add_var l dv ↔ var ∈ dv ∨ EnvVar var ∈ l).
  { induction l as [|p l IH]; intros dv Hd; cbn [fold_left].
    - split; [done|]. intros var. rewrite elem_of_nil. tauto.
    - assert (Hs : NoDup (add_var dv p) ∧ ∀ var, var ∈ add_var dv p ↔ var ∈ dv ∨ p = EnvVar var).
      { destruct p; cbn [add_var]; try (split; [done|]; intros ?; naive_solver).
        case_bool_decide as Hv; [split; [done|]; naive_solver|]. split.
        - apply NoDup_app. split; [done|]. split; [|apply NoDup_singleton]. by intros x Hx ->%list_elem_of_singleton.
        - intros x. rewrite elem_of_app, list_elem_of_singleton. naive_solver. }
      destruct Hs as [Hd' Hin]. destruct (IH (add_var dv p) Hd') as [H1 H2]. split; [done|].
      intros x. rewrite H2, Hin, elem_of_cons. naive_solver. }
  unfold dvars_of. destruct (Hfold (params_of (pieces line)) [] (NoDup_nil_2)) as [H1 H2]. split; [done|].
  intros var. rewrite H2, elem_of_nil. unfold params_of. rewrite list_elem_of_omap. split.
  - intros [[]|(p & Hp & He)]. destruct p as [| | |w code]; try done. injection He as He. unfold param_of in He.
    destruct (String.eqb_spec w "SRC"); [by destruct (code =s "")|].
    destruct (String.eqb_spec w "TGT"); [by destruct (code =s "")|]. injection He as ->. eauto.
  - intros (code & Hp & Hs & Ht). right. exists (PSubst var code). split; [done|]. unfold param_of.
    by rewrite (proj2 (String.eqb_neq _ _) Hs), (proj2 (String.eqb_neq _ _) Ht).
Qed.

(** ** Witnesses *)

Section Witnesses.
Definition demo_env : Heap := setitem (new_Environment empty_heap).2 0 "FLAGS" (VAtom (AStr "x")).

Lemma shell_command_correct_witness :
  compile_fun_shell (empty_build []) demo_env 0 "default" [] [] (λ _ _, Err AttributeError) "cc ${FLAGS} $$HOME" =
  (s ← shell_expand (empty_build []) demo_env 0 "default" [] [] (λ _ _, Err AttributeError) (pieces "cc ${FLAGS} $$HOME");
   Ok (" " +:+ s +:+ " ")).
Proof.
  apply shell_command_correct. intros Hin. vm_compute in Hin.
  repeat (apply elem_of_cons in Hin as [Hin|Hin]; [discriminate Hin|]). by apply elem_of_nil in Hin.
Defined.
Example shell_command_result :
  compile_fun_shell (empty_build []) demo_env 0 "default" [] [] (λ _ _, Err AttributeError) "cc ${FLAGS} $$HOME" =
  Ok " cc x $HOME ".
Proof. vm_compute. reflexivity. Qed.

Lemma percent_in_rule_fails_witness :
  compile_fun_shell (empty_build []) demo_env 0 "default" [] [] (λ _ _, Err AttributeError) "make -DP=5%${FLAGS}" =
    Err TypeError ∧
  compile_fun_shell (empty_build []) demo_env 0 "default" [] [] (λ _ _, Err AttributeError) "make -DP=5%" =
    Ok " make -DP=5% ".
Proof. apply percent_in_rule_fails. vm_compute. reflexivity. Defined.
End Witnesses.
