(* ===== verification/WafTaskGen.v ===== *)
(** * Task generators (tools/wafadmin/TaskGen.py, name_to_obj and flush of Build.py)

    A task generator runs a set of methods in an order that respects a table of
    precedences; the methods may change the list of methods while it is being
    run.  Sets and dicts are lists in the order in which Python runs through
    them, whatever it is. *)
From S2P Require Import Prelude PyStr.

(** Method names that must come before a method. *)
Notation prec_table := (list (string * list string)).

Definition prec_get (tbl : prec_table) (x : string) : option (list string) :=
  snd <$> List.find (λ kv, fst kv =s x) tbl.
(** [x in y] for some [y] in [prec.values()] *)
Definition blocked (x : string) (tbl : prec_table) : bool :=
  existsb (λ kv, bool_decide (x ∈ snd kv)) tbl.

(** ** Registration *)

(** [task_gen.prec[x]], a DefaultDict. *)
Definition prec_add (tbl : prec_table) (x m : string) : prec_table :=
  match prec_get tbl x with
  | None => tbl ++ [(x, [m])]
  | Some l => if bool_decide (m ∈ l) then tbl
              else (λ kv, if fst kv =s x then (x, snd kv ++ [m]) else kv) <$> tbl
  end.
Definition before (k : list string) (func : string) (tbl : prec_table) : prec_table :=
  fold_left (λ t fun_name, prec_add t fun_name func) k tbl.
Definition after (k : list string) (func : string) (tbl : prec_table) : prec_table :=
  fold_left (λ t fun_name, prec_add t func fun_name) k tbl.
Fixpoint declare_order_loop (k : list string) (tbl : prec_table) : prec_table :=
  match k with
  | f1 :: ((f2 :: _) as k') => declare_order_loop k' (prec_add tbl f2 f1)
  | _ => tbl
  end.
Definition declare_order (k : list string) (tbl : prec_table) : res prec_table :=
  _ ← py_assert (1 <? length k)%nat; Ok (declare_order_loop k tbl).

(** [feature] and [bind_feature]: methods bound to a feature. *)
Definition add_traits (traits : gmap string (gset string)) (name : string) (methods : list string) :=
  <[name := default ∅ (traits !! name) ∪ list_to_set methods]> traits.
Definition bind_feature := add_traits.
Definition feature (k : list string) (func : string) (traits : gmap string (gset string)) :=
  fold_left (λ t name, add_traits t name [func]) k traits.

(** ** The order of the methods *)

(** [tmp] with its last element first; [out] already reversed. *)
Fixpoint push_free (nlst : list string) (tbl : prec_table) (tmp : list string) : list string :=
  match nlst with
  | [] => tmp
  | x :: nlst' => push_free nlst' tbl (if blocked x tbl then tmp else x :: tmp)
  end.

Fixpoint sort_loop (fuel : nat) (keys : list string) (prec : prec_table) (tmp out : list string)
    : res (list string * prec_table) :=
  match fuel with
  | 0 => Err OutOfFuel
  | S f =>
      match tmp with
      | [] => Ok (out, prec)
      | e :: tmp =>
          let out := if bool_decide (e ∈ keys) then e :: out else out in
          match prec_get prec e with
          | None => sort_loop f keys prec tmp out
          | Some nlst =>
              let prec := filter (λ kv, fst kv ≠ e) prec in
              sort_loop f keys prec (push_free nlst prec tmp) out
          end
      end
  end.

(** Each round takes a name that no other takes. *)
Definition sort_fuel (keys : list string) (tbl : prec_table) : nat :=
  S (length keys + length (concat (snd <$> tbl))).
(** The table of the methods that are run. *)
Definition restrict (keys : list string) (tbl : prec_table) : prec_table :=
  filter (λ kv : string * list string, fst kv ∈ keys) tbl.
Definition sort_methods (keys : list string) (prec_tbl : prec_table) : res (list string) :=
  let prec := restrict keys prec_tbl in
  let tmp := reverse (filter (λ a, blocked a prec = false) keys) in
  '(out, prec) ← sort_loop (sort_fuel keys prec) keys prec tmp [];
  match prec with [] => Ok out | _ => Err (WafError "graph has a cycle") end.

(** ** Lemmas *)

Lemma blocked_true x tbl : blocked x tbl = true ↔ ∃ y l, (y, l) ∈ tbl ∧ x ∈ l.
Proof.
  unfold blocked. rewrite existsb_exists. split.
  - intros ([y l] & Hin%list_elem_of_In & Hx%bool_decide_eq_true). eauto.
  - intros (y & l & Hin & Hx). exists (y, l). split; [by apply list_elem_of_In|]. by apply bool_decide_eq_true.
Qed.

(** The keys of a dict are distinct. *)
Definition dict_ok (tbl : prec_table) : Prop := NoDup (fst <$> tbl) ∧ ∀ y l, (y, l) ∈ tbl → NoDup l.

Lemma prec_get_Some tbl x l : NoDup (fst <$> tbl) → prec_get tbl x = Some l ↔ (x, l) ∈ tbl.
Proof.
  unfold prec_get. induction tbl as [|[y l'] tbl IH]; intros Hd; cbn.
  - split; [done|]. by intros ?%elem_of_nil.
  - apply NoDup_cons in Hd as [Hy Hd]. destruct (String.eqb_spec y x) as [->|Hne]; cbn.
    + split; [intros [= <-]; by left|]. intros [[= ->]|Hin]%elem_of_cons; [done|].
      destruct Hy. apply list_elem_of_fmap. by exists (x, l).
    + rewrite (IH Hd), elem_of_cons. split; [by right|]. intros [[= <- <-]|?]; done.
Qed.

Lemma prec_get_None tbl x : NoDup (fst <$> tbl) → prec_get tbl x = None → ∀ l, (x, l) ∉ tbl.
Proof. intros Hd Hn l Hin. apply prec_get_Some in Hin; [congruence|done]. Qed.

Lemma NoDup_filter_fst (P : string * list string → Prop) `{∀ kv, Decision (P kv)} (tbl : prec_table) :
  NoDup (fst <$> tbl) → NoDup (fst <$> filter P tbl).
Proof.
  intros Hd. induction tbl as [|kv tbl IH]; [done|]. apply NoDup_cons in Hd as [Hy Hd]. rewrite filter_cons.
  case_decide; [|by apply IH]. cbn. apply NoDup_cons. split; [|by apply IH].
  intros (kv' & He & [_ Hin]%list_elem_of_filter)%list_elem_of_fmap. destruct Hy. apply list_elem_of_fmap. eauto.
Qed.

Lemma push_free_spec tbl nlst : ∀ tmp x,
  x ∈ push_free nlst tbl tmp ↔ x ∈ tmp ∨ x ∈ nlst ∧ blocked x tbl = false.
Proof.
  induction nlst as [|y nlst IH]; intros tmp x; cbn [push_free].
  - rewrite elem_of_nil. tauto.
  - rewrite IH, (elem_of_cons nlst). destruct (blocked y tbl) eqn:E; rewrite ?(elem_of_cons tmp); split.
    + tauto.
    + intros [?|[[->|?] ?]]; [auto|congruence|auto].
    + intros [[->|?]|[??]]; auto.
    + intros [?|[[->|?] ?]]; auto.
Qed.
Lemma push_free_NoDup tbl nlst : ∀ tmp,
  NoDup nlst → NoDup tmp → (∀ x, x ∈ nlst → x ∉ tmp) → NoDup (push_free nlst tbl tmp).
Proof.
  induction nlst as [|y nlst IH]; intros tmp Hn Ht Hd; cbn [push_free]; [done|].
  apply NoDup_cons in Hn as [Hy Hn]. apply IH; [done| |].
  - destruct (blocked y tbl); [done|]. apply NoDup_cons. split; [apply Hd; by left|done].
  - intros x Hx. destruct (blocked y tbl); [apply Hd; by right|].
    intros [->|Hin]%elem_of_cons; [done|]. by apply (Hd x); [right|].
Qed.

(** ** The loop *)

Section Sort.
Context (keys : list string) (tbl : prec_table).
Hypothesis Hkeys : NoDup keys.
Hypothesis Htbl : dict_ok tbl.
Hypothesis Hsub : ∀ y l, (y, l) ∈ tbl → y ∈ keys.

(** [dn]: the names taken so far, the last one first. *)
Record sort_inv (prec : prec_table) (tmp dn out : list string) : Prop := {
  si_prec : ∀ y l, (y, l) ∈ prec ↔ (y, l) ∈ tbl ∧ y ∉ dn;
  si_dict : NoDup (fst <$> prec);
  si_nodup : NoDup (dn ++ tmp);
  si_free : ∀ x, x ∈ dn ++ tmp → blocked x prec = false;
  si_all : ∀ x, x ∈ keys → x ∈ dn ++ tmp ∨ blocked x prec = true;
  si_univ : ∀ x, x ∈ dn ++ tmp → x ∈ keys ++ concat (snd <$> tbl);
  si_out : out = filter (λ x, x ∈ keys) dn;
  si_order : ∀ b l a dn1 dn2, (b, l) ∈ tbl → a ∈ l → dn = dn1 ++ b :: dn2 → a ∉ b :: dn2 }.

Lemma sort_inv_init : sort_inv tbl (reverse (filter (λ a, blocked a tbl = false) keys)) [] [].
Proof using Hkeys Htbl.
  split; cbn [app].
  - intros y l. split; [|by intros []]. intros Hin. split; [done|]. apply not_elem_of_nil.
  - apply Htbl.
  - rewrite reverse_Permutation. by apply NoDup_filter.
  - intros x. rewrite elem_of_reverse. by intros [? _]%list_elem_of_filter.
  - intros x Hx. destruct (blocked x tbl) eqn:E; [by right|left]. rewrite elem_of_reverse.
    by apply list_elem_of_filter.
  - intros x. rewrite elem_of_reverse. intros [_ ?]%list_elem_of_filter. apply elem_of_app. by left.
  - done.
  - intros b l a dn1 dn2 _ _ He. by destruct dn1.
Qed.

(** A name is taken. *)
Lemma sort_inv_step prec e tmp dn out :
  sort_inv prec (e :: tmp) dn out →
  let out' := if bool_decide (e ∈ keys) then e :: out else out in
  let prec' := filter (λ kv, fst kv ≠ e) prec in
  match prec_get prec e with
  | None => sort_inv prec tmp (e :: dn) out'
  | Some nlst => sort_inv prec' (push_free nlst prec' tmp) (e :: dn) out'
  end.
Proof using Hkeys Htbl Hsub.
  intros [Hp Hd Hn Hf Ha Hu Ho Hor] out' prec'.
  assert (Hperm : e :: dn ++ tmp ≡ₚ dn ++ e :: tmp) by apply Permutation_middle.
  assert (He : e ∈ dn ++ e :: tmp) by (rewrite <- Hperm; by left).
  assert (Hedn : e ∉ dn).
  { rewrite <- Hperm in Hn. apply NoDup_cons in Hn as [Hn _]. intros Hin. apply Hn, elem_of_app. by left. }
  assert (Hout : out' = filter (λ x, x ∈ keys) (e :: dn)).
  { unfold out'. rewrite filter_cons, <- Ho. case_bool_decide; by case_decide. }
  assert (Horder : ∀ b l a dn1 dn2, (b, l) ∈ tbl → a ∈ l → e :: dn = dn1 ++ b :: dn2 → a ∉ b :: dn2).
  { intros b l a [|e' dn1] dn2 Hb Hal; intros [= -> Hdn]; [|by eapply Hor].
    assert (Hbl : blocked a prec = true) by (apply blocked_true; exists b, l; split; [by apply Hp|done]).
    subst dn2. intros Hin. rewrite (Hf a) in Hbl; [done|]. rewrite <- Hperm.
    apply elem_of_cons in Hin as [->|Hin]; [by left|]. right. apply elem_of_app. by left. }
  destruct (prec_get prec e) as [nlst|] eqn:Eg.
  - apply prec_get_Some in Eg; [|done].
    assert (Hp' : ∀ y l, (y, l) ∈ prec' ↔ (y, l) ∈ tbl ∧ y ∉ e :: dn).
    { intros y l. unfold prec'. rewrite list_elem_of_filter, Hp, elem_of_cons. cbn. tauto. }
    assert (Hmono : ∀ x, blocked x prec' = true → blocked x prec = true).
    { intros x. rewrite !blocked_true. intros (y & l & Hin & Hx). exists y, l. split; [|done].
      by apply list_elem_of_filter in Hin as [_ ?]. }
    assert (Hnl : ∀ x, x ∈ nlst → x ∉ dn ++ e :: tmp).
    { intros x Hx Hin. apply Hf in Hin. assert (blocked x prec = true); [|congruence].
      apply blocked_true. eauto. }
    split; try done.
    + by apply NoDup_filter_fst.
    + cbn. apply NoDup_cons. rewrite <- Hperm in Hn. apply NoDup_cons in Hn as [He2 Hn]. split.
      * rewrite elem_of_app, push_free_spec. rewrite elem_of_app in He2. intros [?|[?|[Hin _]]]; try tauto.
        by destruct (Hnl e Hin).
      * apply NoDup_app in Hn as (Hn1 & Hn2 & Hn3). apply NoDup_app. split; [done|]. split.
        -- intros x Hx. rewrite push_free_spec. intros [Hin|[Hin _]]; [by apply (Hn2 x)|].
           apply (Hnl x Hin), elem_of_app. by left.
        -- apply push_free_NoDup; [|done|].
           ++ apply Htbl with e. by apply Hp in Eg as [? _].
           ++ intros x Hx Hin. apply (Hnl x Hx). rewrite elem_of_app, elem_of_cons. auto.
    + intros x. cbn. rewrite elem_of_cons, elem_of_app, push_free_spec.
      assert (Hold : x ∈ dn ++ e :: tmp → blocked x prec' = false).
      { intros Hin. apply Hf in Hin. destruct (blocked x prec') eqn:E; [|done]. apply Hmono in E. congruence. }
      rewrite elem_of_app, elem_of_cons in Hold. tauto.
    + intros x Hx. cbn. rewrite elem_of_cons, elem_of_app, push_free_spec.
      destruct (Ha x Hx) as [Hin|Hb]; [rewrite elem_of_app, elem_of_cons in Hin; tauto|].
      destruct (blocked x prec') eqn:E; [by right|]. left. right. right. right. split; [|done].
      apply blocked_true in Hb as (y & l & Hin & Hxl). destruct (decide (y = e)) as [->|Hne].
      * apply Hp in Hin as [Hin _]. apply Hp in Eg as [Eg _].
        assert (l = nlst) as ->; [|done]. apply prec_get_Some in Hin, Eg; try apply Htbl. congruence.
      * assert (blocked x prec' = true); [|congruence]. apply blocked_true. exists y, l.
        split; [by apply list_elem_of_filter|done].
    + intros x. cbn. rewrite elem_of_cons, elem_of_app, push_free_spec. intros Hin.
      assert (Hx : x ∈ dn ++ e :: tmp ∨ x ∈ nlst) by (rewrite elem_of_app, elem_of_cons; tauto).
      destruct Hx as [Hx|Hx]; [by apply Hu|]. apply elem_of_app. right. apply elem_of_concat. exists nlst.
      split; [done|]. apply list_elem_of_fmap. exists (e, nlst). split; [done|]. by apply Hp in Eg as [? _].
  - pose proof (prec_get_None _ _ Hd Eg) as Hno. split; try done.
    + intros y l. rewrite elem_of_cons, Hp. split; [|tauto]. intros [Hy Hyd]. split; [done|].
      intros [->|?]; [|done]. apply (Hno l). by apply Hp.
    + cbn. by rewrite Hperm.
    + intros x. cbn. rewrite Hperm. apply Hf.
    + intros x. cbn. rewrite Hperm. apply Ha.
    + intros x. cbn. rewrite Hperm. apply Hu.
Qed.

Lemma sort_loop_inv fuel : ∀ prec tmp dn out,
  sort_inv prec tmp dn out → length (keys ++ concat (snd <$> tbl)) < fuel + length dn →
  ∃ out' prec' dn', sort_loop fuel keys prec tmp out = Ok (out', prec') ∧ sort_inv prec' [] dn' out'.
Proof using Hkeys Htbl Hsub.
  induction fuel as [|fuel IH]; intros prec tmp dn out Hi Hfuel.
  - exfalso. pose proof (si_nodup _ _ _ _ Hi) as Hn. apply NoDup_app in Hn as (Hn & _ & _).
    assert (Hle : length dn ≤ length (keys ++ concat (snd <$> tbl))); [|lia].
    apply NoDup_incl_length; [by apply NoDup_ListNoDup|]. intros x Hx%list_elem_of_In. apply list_elem_of_In.
    apply (si_univ _ _ _ _ Hi), elem_of_app. by left.
  - destruct tmp as [|e tmp]; cbn [sort_loop]; [by exists out, prec, dn|].
    pose proof (sort_inv_step _ _ _ _ _ Hi) as Hs. cbn zeta in Hs.
    destruct (prec_get prec e) as [nlst|]; (eapply IH; [exact Hs|]); cbn [length]; lia.
Qed.
End Sort.

(** The constraints between the methods that are run. *)
Definition must_precede (keys : list string) (tbl : prec_table) (a b : string) : Prop :=
  a ∈ keys ∧ b ∈ keys ∧ ∃ l, (b, l) ∈ tbl ∧ a ∈ l.

Lemma restrict_ok keys tbl : dict_ok tbl →
  dict_ok (restrict keys tbl) ∧
  ∀ y l, (y, l) ∈ restrict keys tbl → y ∈ keys.
Proof.
  intros [H1 H2]. split; [split|].
  - by apply NoDup_filter_fst.
  - intros y l [_ Hin]%list_elem_of_filter. by eapply H2.
  - intros y l Hin. unfold restrict in Hin. by apply list_elem_of_filter in Hin as [? _].
Qed.

(** [sort_methods] through the invariant of its loop. *)
Lemma sort_methods_inv keys tbl : NoDup keys → dict_ok tbl →
  let prec := restrict keys tbl in
  ∃ out prec' dn, sort_inv keys prec prec' [] dn out ∧
    sort_methods keys tbl = match prec' with [] => Ok out | _ => Err (WafError "graph has a cycle") end.
Proof.
  intros Hk Ht prec. destruct (restrict_ok keys tbl Ht) as [Hp Hs]. fold prec in Hp, Hs.
  destruct (sort_loop_inv keys prec Hk Hp Hs (sort_fuel keys prec) prec
    (reverse (filter (λ a, blocked a prec = false) keys)) [] []) as (out & prec' & dn & Hr & Hi).
  - by apply sort_inv_init.
  - unfold sort_fuel. rewrite length_app. cbn. lia.
  - exists out, prec', dn. split; [done|]. unfold sort_methods. fold prec. by rewrite Hr.
Qed.

Lemma filter_split (P : string → Prop) `{∀ x, Decision (P x)} l l1 b l2 :
  P b → l = l1 ++ b :: l2 → filter P l = filter P l1 ++ b :: filter P l2.
Proof. intros Hb ->. rewrite filter_app, filter_cons. by rewrite decide_True. Qed.

Lemma sorted_order keys tbl out : NoDup keys → dict_ok tbl → sort_methods keys tbl = Ok out →
  out ≡ₚ keys ∧ ∀ a b, must_precede keys tbl a b → ∃ l1 l2 l3, out = l1 ++ a :: l2 ++ b :: l3.
Proof.
  intros Hk Ht. destruct (sort_methods_inv keys tbl Hk Ht) as (out' & prec' & dn & Hi & ->).
  destruct prec' as [|]; [|done]. intros [= ->]. destruct Hi as [Hp Hd Hn Hf Ha Hu -> Hor].
  rewrite app_nil_r in Hn.
  assert (Hin : ∀ x, x ∈ keys → x ∈ dn).
  { intros x Hx. destruct (Ha x Hx) as [Hin|Hb]; [by rewrite app_nil_r in Hin|done]. }
  split.
  - apply NoDup_Permutation; [by apply NoDup_filter|done|]. intros x. rewrite list_elem_of_filter. naive_solver.
  - intros a b (Hak & Hbk & l & Hbl & Hal).
    assert (Hbt : (b, l) ∈ restrict keys tbl) by by apply list_elem_of_filter.
    pose proof (Hin b Hbk) as Hbd. apply list_elem_of_split in Hbd as (dn1 & dn2 & Hdn).
    pose proof (Hor _ _ _ _ _ Hbt Hal Hdn) as Hna. pose proof (Hin a Hak) as Had. rewrite Hdn in Had.
    apply elem_of_app in Had as [Had|]; [|done]. apply list_elem_of_split in Had as (dn0 & dn3 & Hdn1).
    exists (filter (λ x, x ∈ keys) dn0), (filter (λ x, x ∈ keys) dn3), (filter (λ x, x ∈ keys) dn2).
    rewrite (filter_split _ _ _ _ _ Hbk Hdn), (filter_split _ _ _ _ _ Hak Hdn1), <- app_assoc. done.
Qed.

Lemma rank_bound {A} (f : A → nat) (l : list A) : ∃ n, ∀ x, x ∈ l → f x < n.
Proof.
  induction l as [|x l [n IH]]; [exists 0; by intros ? ?%elem_of_nil|].
  exists (S (max (f x) n)). intros y [->|Hy]%elem_of_cons; [lia|]. apply IH in Hy. lia.
Qed.

(** C19: The methods of a task generator are all put in order, each once, and every
    method comes after those that the table of precedences puts before it. *)
Theorem method_order_correct keys tbl out :
  NoDup keys → dict_ok tbl → sort_methods keys tbl = Ok out →
  out ≡ₚ keys ∧ ∀ a b, must_precede keys tbl a b → ∃ i j, i < j ∧ out !! i = Some a ∧ out !! j = Some b.
Proof.
  intros Hk Ht Hs. destruct (sorted_order _ _ _ Hk Ht Hs) as [Hp Ho]. split; [done|].
  intros a b Hab. destruct (Ho a b Hab) as (l1 & l2 & l3 & ->). exists (length l1), (length (l1 ++ a :: l2)).
  rewrite length_app. cbn [length]. split; [lia|]. split.
  - by apply list_lookup_middle.
  - replace (l1 ++ a :: l2 ++ b :: l3) with ((l1 ++ a :: l2) ++ b :: l3) by by rewrite <- app_assoc.
    apply list_lookup_middle. by rewrite length_app.
Qed.

(** Ordering the methods always ends; it fails exactly when the constraints
    between them have a cycle, that is when no ranking of the methods respects
    them. *)
Theorem method_order_total keys tbl :
  NoDup keys → dict_ok tbl →
  (sort_methods keys tbl = Err (WafError "graph has a cycle") ∨ is_ok (sort_methods keys tbl) = true) ∧
  (is_ok (sort_methods keys tbl) = true ↔
   ∃ rank : string → nat, ∀ a b, must_precede keys tbl a b → rank a < rank b).
Proof.
  intros Hk Ht. destruct (sort_methods_inv keys tbl Hk Ht) as (out & prec' & dn & Hi & Hr). split.
  { rewrite Hr. destruct prec'; auto. }
  split.
  - intros Hok. destruct (sort_methods keys tbl) as [o|] eqn:Es; [|done].
    destruct (sorted_order _ _ _ Hk Ht Es) as [Hp Ho]. assert (Hd : NoDup o) by by rewrite Hp.
    exists (λ x, default 0 (fst <$> list_find (λ y, y = x) o)). intros a b Hab.
    destruct (Ho a b Hab) as (l1 & l2 & l3 & ->).
    assert (Hfind : ∀ (l : list string) x l', NoDup (l ++ x :: l') → list_find (λ y, y = x) (l ++ x :: l') = Some (length l, x)).
    { intros l x l' Hnd. apply list_find_Some. split; [by apply list_lookup_middle|]. split; [done|].
      intros i y Hy Hlt ->. rewrite lookup_app_l in Hy by done. apply NoDup_app in Hnd as (_ & Hnd & _).
      apply (Hnd x); [by eapply list_elem_of_lookup_2|by left]. }
    rewrite (Hfind l1 a (l2 ++ b :: l3) Hd).
    replace (l1 ++ a :: l2 ++ b :: l3) with ((l1 ++ a :: l2) ++ b :: l3) in * by by rewrite <- app_assoc.
    rewrite (Hfind (l1 ++ a :: l2) b l3 Hd). cbn. rewrite length_app. cbn. lia.
  - intros [rank Hrank]. rewrite Hr. destruct prec' as [|[y0 l0] prec']; [done|]. exfalso.
    set (prec := (y0, l0) :: prec') in *. destruct Hi as [Hp Hd Hn Hf Ha Hu _ _].
    destruct (rank_bound (rank ∘ fst) prec) as [N HN].
    assert (Hup : ∀ n, ∃ y l, (y, l) ∈ prec ∧ n ≤ rank y).
    { induction n as [|n (y & l & Hin & Hn')]; [exists y0, l0; split; [by left|lia]|].
      pose proof (proj1 (Hp y l) Hin) as [[Hyk Hyt]%list_elem_of_filter Hydn].
      destruct (Ha y Hyk) as [Hyd|Hb]; [by rewrite app_nil_r in Hyd|].
      apply blocked_true in Hb as (y' & l' & Hin' & Hyl'). exists y', l'. split; [done|].
      pose proof (proj1 (Hp y' l') Hin') as [[Hyk' Hyt']%list_elem_of_filter _].
      assert (rank y < rank y'); [|lia]. apply Hrank. split; [done|]. split; [done|]. by exists l'. }
    destruct (Hup N) as (y & l & Hin & HNy). apply HN in Hin. cbn in Hin. lia.
Qed.

(** ** Running the methods

    [for x in out: getattr(self, x)()], where [out] is the object [self.meths]:
    a method that changes the list changes what is run next. *)

Section Run.
Context {W : Type} (meths : W → list string) (call : string → option (W → res W)).

Fixpoint run_methods (fuel : nat) (i : nat) (w : W) : res W :=
  match fuel with
  | 0 => Err OutOfFuel
  | S f =>
      match meths w !! i with
      | None => Ok w
      | Some x =>
          match call x with
          | None => Err (WafError "tried to retrieve which is not a valid method")
          | Some v => w ← v w; run_methods f (S i) w
          end
      end
  end.

(** The methods one after the other. *)
Fixpoint run_list (l : list string) (w : W) : res W :=
  match l with
  | [] => Ok w
  | x :: l' =>
      match call x with
      | None => Err (WafError "tried to retrieve which is not a valid method")
      | Some v => w ← v w; run_list l' w
      end
  end.

(** A method that leaves the list of methods alone. *)
Definition keeps_meths (x : string) : Prop := ∀ v w w', call x = Some v → v w = Ok w' → meths w' = meths w.

Lemma run_list_app l1 l2 w : run_list (l1 ++ l2) w = (w ← run_list l1 w; run_list l2 w).
Proof using.
  revert w. induction l1 as [|x l1 IH]; intros w; [done|]. cbn. destruct (call x) as [v|]; [|done].
  destruct (v w); cbn; [apply IH|done].
Qed.
Lemma run_list_meths l : ∀ w w', (∀ x, x ∈ l → keeps_meths x) → run_list l w = Ok w' → meths w' = meths w.
Proof using.
  induction l as [|x l IH]; intros w w' Hk; cbn; [by intros [= <-]|]. destruct (call x) as [v|] eqn:Ec; [|done].
  intros (w1 & Hv & Hr)%res_bind_Ok. rewrite (IH w1 w'); [|set_solver|done]. by eapply (Hk x); [left| |].
Qed.

(** A stretch of methods that leave the list alone. *)
Lemma run_stretch l : ∀ fuel l1 l2 w, (∀ x, x ∈ l → keeps_meths x) → meths w = l1 ++ l ++ l2 →
  run_methods (length l + fuel) (length l1) w = (w ← run_list l w; run_methods fuel (length (l1 ++ l)) w).
Proof using.
  induction l as [|x l IH]; intros fuel l1 l2 w Hk Hm; cbn [length Nat.add run_list].
  - cbn. by rewrite app_nil_r.
  - cbn [run_methods]. rewrite Hm. cbn [app]. rewrite list_lookup_middle by done.
    destruct (call x) as [v|] eqn:Ec; [|done]. destruct (v w) as [w1|] eqn:Ev; [|done]. cbn [mbind res_bind].
    replace (S (length l1)) with (length (l1 ++ [x])) by (rewrite length_app; cbn; lia).
    rewrite (IH fuel (l1 ++ [x]) l2 w1).
    + rewrite <- app_assoc. done.
    + intros y Hy. apply Hk. by right.
    + rewrite (Hk x (list_elem_of_here _ _) v w w1 Ec Ev), Hm, <- app_assoc. done.
Qed.

Lemma run_end fuel w : run_methods (S fuel) (length (meths w)) w = Ok w.
Proof using. cbn. rewrite lookup_ge_None_2 by lia. done. Qed.
End Run.

(** [self.meths.remove(m)], when [m] is there. *)
Fixpoint remove_first (m : string) (l : list string) : list string :=
  match l with [] => [] | x :: l' => if x =s m then l' else x :: remove_first m l' end.

Lemma remove_first_middle m l1 l2 : m ∉ l1 → remove_first m (l1 ++ m :: l2) = l1 ++ l2.
Proof.
  induction l1 as [|x l1 IH]; intros Hm; cbn; [by rewrite String.eqb_refl|].
  destruct (String.eqb_spec x m) as [->|]; [set_solver|]. rewrite IH; [done|set_solver].
Qed.

(** A rule replaces the processing of the sources: when [exec_rule], which
    takes [apply_core] off the list, comes before it, all the methods are run
    in order but for [apply_core]. *)
Theorem rule_replaces_core {W} (meths : W → list string) call l1 l2 l3 w fuel :
  meths w = l1 ++ "exec_rule" :: l2 ++ "apply_core" :: l3 → NoDup (meths w) →
  (∀ x, x ∈ l1 ++ l2 ++ l3 → keeps_meths meths call x) →
  (∀ v w w', call "exec_rule" = Some v → v w = Ok w' → meths w' = remove_first "apply_core" (meths w)) →
  length (meths w) < fuel →
  run_methods meths call fuel 0 w = run_list call (l1 ++ "exec_rule" :: l2 ++ l3) w.
Proof.
  intros Hm Hd Hk Hrule Hf. rewrite Hm in Hf, Hd. rewrite !length_app in Hf. cbn in Hf. rewrite length_app in Hf. cbn in Hf.
  replace fuel with (length l1 + S (length (l2 ++ l3) + S (fuel - length l1 - length l2 - length l3 - 2)))
    by (rewrite length_app; lia).
  change 0 with (length (@nil string)). rewrite (run_stretch meths call l1 _ [] ("exec_rule" :: l2 ++ "apply_core" :: l3) w); [|set_solver|exact Hm].
  rewrite run_list_app. destruct (run_list call l1 w) as [w1|] eqn:E1; [|done]. cbn [mbind res_bind app run_list].
  apply (run_list_meths meths) in E1 as Hm1; [|set_solver]. rewrite Hm in Hm1.
  cbn [run_methods]. rewrite Hm1, list_lookup_middle by done. destruct (call "exec_rule") as [v|] eqn:Ec; [|done].
  destruct (v w1) as [w2|] eqn:Ev; [|done]. cbn [mbind res_bind].
  assert (Hm2 : meths w2 = l1 ++ "exec_rule" :: l2 ++ l3).
  { rewrite (Hrule v w1 w2 eq_refl Ev), Hm1.
    change (l1 ++ "exec_rule" :: l2 ++ "apply_core" :: l3) with (l1 ++ ("exec_rule" :: l2) ++ "apply_core" :: l3).
    rewrite app_assoc, remove_first_middle; [by rewrite <- app_assoc|].
    rewrite app_comm_cons, app_assoc in Hd. apply NoDup_app in Hd as (_ & Hd & _). intros Hin. apply (Hd _ Hin). by left. }
  replace (S (length l1)) with (length (l1 ++ ["exec_rule"])) by (rewrite length_app; cbn; lia).
  rewrite (run_stretch meths call (l2 ++ l3) _ (l1 ++ ["exec_rule"]) [] w2).
  - destruct (run_list call (l2 ++ l3) w2) as [w3|] eqn:E3; [|done]. cbn [mbind res_bind].
    apply (run_list_meths meths) in E3 as Hm3; [|set_solver].
    assert (Hlen : length ((l1 ++ ["exec_rule"]) ++ l2 ++ l3) = length (meths w3)).
    { rewrite Hm3, Hm2, !length_app. cbn. rewrite !length_app. lia. }
    rewrite Hlen. apply run_end.
  - set_solver.
  - by rewrite Hm2, app_nil_r, <- app_assoc.
Qed.

(** ** The whole of [apply] and [post] *)

Definition apply_keys (meths features : list string) (traits : gmap string (gset string)) : list string :=
  elements (list_to_set meths ∪ ⋃ ((λ x, default ∅ (traits !! x)) <$> (features ++ ["*"]))).

Section Apply.
Context {W : Type} (meths : W → list string) (set_meths : W → list string → W)
  (features : W → list string) (own_prec : W → prec_table)
  (posted : W → bool) (set_posted : W → W) (call : string → option (W → res W)).

Definition apply (traits : gmap string (gset string)) (class_prec : prec_table) (fuel : nat) (w : W) : res W :=
  let prec_tbl := match own_prec w with [] => class_prec | p => p end in
  out ← sort_methods (apply_keys (meths w) (features w) traits) prec_tbl;
  run_methods meths call fuel 0 (set_meths w out).

Definition post (traits : gmap string (gset string)) (class_prec : prec_table) (fuel : nat) (w : W) : res W :=
  if posted w then Ok w else w ← apply traits class_prec fuel w; Ok (set_posted w).
End Apply.

(** Attributes whose names are corrected by [__setattr__]. *)
Definition typos : list (string * string) :=
  [("sources", "source"); ("targets", "target"); ("include", "includes"); ("define", "defines");
   ("importpath", "importpaths"); ("install_var", "install_path"); ("install_subdir", "install_path");
   ("inst_var", "install_path"); ("inst_dir", "install_path"); ("feature", "features")].
Definition real_attr (name : string) : string :=
  default name (snd <$> List.find (λ kv, fst kv =s name) typos).
Definition setattr {V} (d : gmap string V) (name : string) (attr : V) : gmap string V := <[real_attr name := attr]> d.

(** ** [sequence_order] *)

(** The generator posted before in the sequence, the tasks of the generators, and
    the order between tasks. *)
Record Sequence := mkSeq {
  prev : option nat;
  gen_tasks : gmap nat (list nat);
  run_after : gmap nat (list nat) }.

Definition set_run_after (s : Sequence) (y x : nat) : Sequence :=
  mkSeq (prev s) (gen_tasks s) (<[y := default [] (run_after s !! y) ++ [x]]> (run_after s)).
Definition tasks_of (s : Sequence) (g : nat) : list nat := default [] (gen_tasks s !! g).

(** The second part of [sequence_order], for the generator [self]. *)
Definition seq_link (self : nat) (seq_start : bool) (post : nat → Sequence → res Sequence) (s : Sequence)
    : res Sequence :=
  if seq_start then Ok s
  else
    s ← match prev s with
        | None => Ok s
        | Some p =>
            s ← post p s;
            Ok (fold_left (λ s x, fold_left (λ s y, set_run_after s y x) (tasks_of s self) s) (tasks_of s p) s)
        end;
    Ok (mkSeq (Some self) (gen_tasks s) (run_after s)).

(** [sequence_order]: when it is not last it comes back at the end. *)
Definition sequence_order {W} (meths : W → list string) (set_meths : W → list string → W) (link : W → res W) (w : W)
    : res W :=
  match last (meths w) with
  | Some m => if m =s "sequence_order" then link w else Ok (set_meths w (meths w ++ ["sequence_order"]))
  | None => link w
  end.

(** [sequence_order] does its work after all the other methods, wherever the
    order has put it. *)
Theorem sequence_order_runs_last {W} (meths : W → list string) set_meths link call l1 l2 m w fuel :
  (∀ w l, meths (set_meths w l) = l) →
  meths w = l1 ++ "sequence_order" :: l2 ++ [m] → "sequence_order" ∉ l1 ++ l2 ++ [m] →
  (∀ x, x ∈ l1 ++ l2 ++ [m] → keeps_meths meths call x) →
  call "sequence_order" = Some (sequence_order meths set_meths link) →
  (∀ w w', link w = Ok w' → meths w' = meths w) →
  length (meths w) + 1 < fuel →
  run_methods meths call fuel 0 w =
    (w1 ← run_list call l1 w;
     w2 ← run_list call (l2 ++ [m]) (set_meths w1 (meths w ++ ["sequence_order"]));
     link w2).
Proof.
  intros Hset Hm Hno Hk Hcall Hlink Hf. rewrite Hm in Hf. rewrite !length_app in Hf. cbn in Hf. rewrite length_app in Hf.
  cbn in Hf.
  replace fuel with (length l1 + S (length (l2 ++ [m]) + S (S (fuel - length l1 - length l2 - 4))))
    by (rewrite length_app; cbn; lia).
  change 0 with (length (@nil string)).
  rewrite (run_stretch meths call l1 _ [] ("sequence_order" :: l2 ++ [m]) w); [|set_solver|exact Hm].
  destruct (run_list call l1 w) as [w1|] eqn:E1; [|done]. cbn [mbind res_bind app].
  apply (run_list_meths meths) in E1 as Hm1; [|set_solver]. rewrite <- Hm1 in *. clear Hm1. rename Hm into Hm1.
  assert (Hml : m ≠ "sequence_order") by set_solver.
  assert (Hstep : sequence_order meths set_meths link w1 = Ok (set_meths w1 (meths w1 ++ ["sequence_order"]))).
  { unfold sequence_order. rewrite Hm1. replace (l1 ++ "sequence_order" :: l2 ++ [m])
      with ((l1 ++ "sequence_order" :: l2) ++ [m]) by by rewrite <- app_assoc.
    rewrite last_snoc. by destruct (String.eqb_spec m "sequence_order"). }
  cbn [run_methods]. rewrite Hm1 at 1. rewrite list_lookup_middle, Hcall, Hstep by done. cbn [mbind res_bind].
  set (w2 := set_meths w1 _).
  assert (Hm2 : meths w2 = (l1 ++ ["sequence_order"]) ++ (l2 ++ [m]) ++ ["sequence_order"]).
  { unfold w2. rewrite Hset, Hm1. by simplify_list_eq. }
  replace (S (length l1)) with (length (l1 ++ ["sequence_order"])) by (rewrite length_app; cbn; lia).
  rewrite (run_stretch meths call (l2 ++ [m]) _ (l1 ++ ["sequence_order"]) ["sequence_order"] w2); [|set_solver|exact Hm2].
  destruct (run_list call (l2 ++ [m]) w2) as [w3|] eqn:E3; [|done]. cbn [mbind res_bind].
  apply (run_list_meths meths) in E3 as Hm3; [|set_solver]. rewrite Hm2, app_assoc in Hm3.
  set (l := (l1 ++ ["sequence_order"]) ++ l2 ++ [m]) in *.
  assert (Hlast : sequence_order meths set_meths link w3 = link w3).
  { unfold sequence_order. by rewrite Hm3, last_snoc. }
  cbn [run_methods]. rewrite Hm3, list_lookup_middle, Hcall, Hlast by done.
  destruct (link w3) as [w4|] eqn:E4; [|done]. cbn [mbind res_bind]. apply Hlink in E4. rewrite Hm3 in E4.
  rewrite E4, lookup_ge_None_2; [done|]. rewrite length_app. cbn. lia.
Qed.

Lemma set_run_after_mono s y x y' x' :
  x' ∈ default [] (run_after s !! y') → x' ∈ default [] (run_after (set_run_after s y x) !! y').
Proof.
  cbn. destruct (decide (y' = y)) as [->|]; [rewrite lookup_insert_eq|by rewrite lookup_insert_ne].
  cbn. rewrite elem_of_app. auto.
Qed.
Lemma link_inner x ys : ∀ s, let s' := fold_left (λ s y, set_run_after s y x) ys s in
  prev s' = prev s ∧ gen_tasks s' = gen_tasks s ∧
  (∀ y z, z ∈ default [] (run_after s !! y) → z ∈ default [] (run_after s' !! y)) ∧
  ∀ y, y ∈ ys → x ∈ default [] (run_after s' !! y).
Proof.
  induction ys as [|y ys IH]; intros s; cbn [fold_left]; [split_and!; try done; by intros ? ?%elem_of_nil|].
  destruct (IH (set_run_after s y x)) as (H1 & H2 & H3 & H4). split_and!; try done.
  - intros y' z Hz. by apply H3, set_run_after_mono.
  - intros y' [->|Hy]%elem_of_cons; [|by apply H4]. apply H3. cbn. rewrite lookup_insert_eq. cbn. set_solver.
Qed.
Lemma link_outer self xs : ∀ s,
  let s' := fold_left (λ s x, fold_left (λ s y, set_run_after s y x) (tasks_of s self) s) xs s in
  gen_tasks s' = gen_tasks s ∧
  (∀ y z, z ∈ default [] (run_after s !! y) → z ∈ default [] (run_after s' !! y)) ∧
  ∀ x y, x ∈ xs → y ∈ tasks_of s self → x ∈ default [] (run_after s' !! y).
Proof.
  induction xs as [|x xs IH]; intros s; cbn [fold_left]; [split_and!; try done; by intros ? ? ?%elem_of_nil|].
  pose proof (link_inner x (tasks_of s self) s) as (_ & G & M & I). set (s1 := fold_left _ (tasks_of s self) s) in *.
  destruct (IH s1) as (H1 & H2 & H3). split_and!; [congruence|auto|].
  intros x' y [->|Hx]%elem_of_cons Hy; [by apply H2, I|]. apply H3; [done|]. unfold tasks_of. by rewrite G.
Qed.

(** In a sequence, all the tasks of a generator are to run after all the tasks
    of the one before, and the generator is remembered for the next. *)
Theorem sequence_links_tasks self p post s s1 s' :
  prev s = Some p → post p s = Ok s1 → seq_link self false post s = Ok s' →
  prev s' = Some self ∧
  ∀ x y, x ∈ tasks_of s1 p → y ∈ tasks_of s1 self → x ∈ default [] (run_after s' !! y).
Proof.
  intros Hp Hpost. unfold seq_link. rewrite Hp, Hpost. cbn [mbind res_bind]. intros [= <-]. split; [done|].
  intros x y Hx Hy. cbn. by apply (link_outer self (tasks_of s1 p) s1).
Qed.

(** A generator with [seq_start] does not start a new sequence: it is not
    remembered, and the next generator is put after the last one of the old
    sequence, not after it. *)
Theorem seq_start_not_recorded :
  let old := mkSeq (Some 0) {[0 := [10]; 1 := [11]; 2 := [12]]} ∅ in
  let posted := λ (_ : nat) s, Ok s in
  (s ← seq_link 1 true posted old; seq_link 2 false posted s) =
    Ok (mkSeq (Some 2) (gen_tasks old) {[12 := [10]]}).
Proof. vm_compute. reflexivity. Qed.

(** ** Sources *)

Section Core.
Context {W : Type}.
(** What is found for a file name or an extension: the hook, and its effect. *)
Context (hook : string → option (string + Z → W → res W)) (find : string → W → res (option Z * W))
  (allnodes : W → list Z) (add_node : W → Z → W) (suffix : W → Z → string).

(** The first loop of [apply_core]. *)
Fixpoint core_sources (l : list string) (w : W) : res W :=
  match l with
  | [] => Ok w
  | filename :: l' =>
      w ← match hook filename with
          | Some x => x (inl filename) w
          | None =>
              '(node, w) ← find filename w;
              match node with
              | None => Err (WafError "source not found")
              | Some node => Ok (add_node w node)
              end
          end;
      core_sources l' w
  end.
(** The second loop: hooks may add nodes to the list being run through. *)
Fixpoint core_nodes (fuel : nat) (i : nat) (w : W) : res W :=
  match fuel with
  | 0 => Err OutOfFuel
  | S f =>
      match allnodes w !! i with
      | None => Ok w
      | Some node =>
          match hook (suffix w node) with
          | None => Err (WafError "Cannot guess how to process")
          | Some x => w ← x (inr node) w; core_nodes f (S i) w
          end
      end
  end.
Definition apply_core (source : list string) (fuel : nat) (w : W) : res W :=
  w ← core_sources source w; core_nodes fuel 0 w.

(** Hooks add to the list of nodes at most [k] nodes, of a lower rank than the
    one they process. *)
Context (rank : Z → nat) (k : nat).
Hypothesis Hhook : ∀ ext x node w w', hook ext = Some x → x (inr node) w = Ok w' →
  ∃ new, allnodes w' = allnodes w ++ new ∧ length new ≤ k ∧ ∀ n, n ∈ new → rank n < rank node.
Hypothesis Hfuel : ∀ ext x node w, hook ext = Some x → x (inr node) w ≠ Err OutOfFuel.

(** The rounds that a node of rank [r] may lead to. *)
Fixpoint rounds (r : nat) : nat := match r with 0 => 1 | S r' => S (k * rounds r') end.
Definition total_rounds (l : list Z) : nat := sum_list ((rounds ∘ rank) <$> l).

Lemma rounds_pos r : 1 ≤ rounds r.
Proof using. destruct r; cbn; lia. Qed.
Lemma rounds_mono r1 r2 : r1 ≤ r2 → rounds r1 ≤ rounds r2.
Proof using.
  intros Hr. induction Hr as [|r2 Hr IH]; [done|]. etrans; [exact IH|]. clear.
  induction r2 as [|r2 IH]; cbn; [lia|]. cbn in IH. nia.
Qed.
Lemma total_rounds_app l1 l2 : total_rounds (l1 ++ l2) = total_rounds l1 + total_rounds l2.
Proof using. unfold total_rounds. rewrite fmap_app. apply sum_list_with_app. Qed.
Lemma total_rounds_bound l r : (∀ n, n ∈ l → rank n < r) → total_rounds l ≤ length l * rounds (pred r).
Proof using.
  unfold total_rounds. induction l as [|n l IH]; intros Hl; [done|]. cbn.
  assert (Hn : rank n < r) by (apply Hl; by left). pose proof (rounds_mono (rank n) (pred r) ltac:(lia)).
  specialize (IH (λ m Hm, Hl m (list_elem_of_further _ _ _ Hm))). cbn in *. lia.
Qed.

Lemma core_nodes_fuel fuel : ∀ i w, total_rounds (drop i (allnodes w)) < fuel → core_nodes fuel i w ≠ Err OutOfFuel.
Proof using Hhook Hfuel.
  induction fuel as [|fuel IH]; intros i w Ht; [lia|]. cbn [core_nodes].
  destruct (allnodes w !! i) as [node|] eqn:Ei; [|done].
  destruct (hook (suffix w node)) as [x|] eqn:Eh; [|done].
  destruct (x (inr node) w) as [w'|e] eqn:Ex; cbn [mbind res_bind]; [|by rewrite <- Ex; eapply Hfuel].
  apply IH. destruct (Hhook _ _ _ _ _ Eh Ex) as (new & Hn & Hlen & Hrank). rewrite Hn.
  rewrite (drop_S _ node i Ei) in Ht. rewrite drop_app_le by (apply lookup_lt_Some in Ei; lia).
  change (node :: drop (S i) (allnodes w)) with ([node] ++ drop (S i) (allnodes w)) in Ht.
  rewrite total_rounds_app in Ht |- *. pose proof (total_rounds_bound new (rank node) Hrank) as Hb.
  assert (Hone : total_rounds [node] = rounds (rank node)) by (unfold total_rounds; cbn; lia).
  destruct (rank node) as [|r] eqn:Er.
  - destruct new as [|n new]; [cbn in *; lia|]. by destruct (Nat.nlt_0_r _ (Hrank n (list_elem_of_here _ _))).
  - cbn [pred] in Hb. cbn [rounds] in Hone. nia.
Qed.
End Core.

(** Processing the sources ends when each hook turns a node into at most [k]
    nodes of a lower rank, as a chain of file extensions does. *)
Theorem apply_core_terminates {W} hook find (allnodes : W → list Z) add_node suffix (rank : Z → nat) k source w w1 :
  (∀ ext x node w w', hook ext = Some x → x (inr node) w = Ok w' →
   ∃ new, allnodes w' = allnodes w ++ new ∧ length new ≤ k ∧ ∀ n, n ∈ new → rank n < rank node) →
  (∀ ext x node w, hook ext = Some x → x (inr node) w ≠ Err OutOfFuel) →
  core_sources hook find add_node source w = Ok w1 →
  ∃ fuel, ∀ n, fuel ≤ n → apply_core hook find allnodes add_node suffix source n w ≠ Err OutOfFuel.
Proof.
  intros Hh Hf Hs. exists (S (total_rounds rank k (allnodes w1))). intros n Hn. unfold apply_core. rewrite Hs.
  cbn [mbind res_bind]. apply (core_nodes_fuel hook allnodes suffix rank k Hh Hf). rewrite drop_0. lia.
Qed.

(** ** Names of generators *)

Record GenInfo := mkGenInfo { gi_variant : string; gi_name : string; gi_target : list string }.

Definition gi_key (x : GenInfo) : string :=
  gi_variant x +:+ "_" +:+ (if gi_name x =s "" then join " " (gi_target x) else gi_name x).
(** The index of [name_to_obj]: a generator with a name replaces, one without
    does not. *)
Definition index_step (cache : gmap string nat) (ix : nat * GenInfo) : gmap string nat :=
  let '(i, x) := ix in
  if gi_name x =s "" then
    match cache !! gi_key x with Some _ => cache | None => <[gi_key x := i]> cache end
  else <[gi_key x := i]> cache.
Definition build_index (gens : list GenInfo) : gmap string nat :=
  fold_left index_step (imap pair gens) ∅.
Definition name_to_obj (gens : list GenInfo) (name variant : string) : option nat :=
  build_index gens !! (variant +:+ "_" +:+ name).

(** [flush] with [compile_targets]: the generators to post, in the order of the
    groups; [envs] holds the variants. *)
Definition find_targets (gens : list GenInfo) (envs : list string) (target_name : string) : list nat :=
  omap (name_to_obj gens (strip target_name)) envs.
Definition flush_targets (gens : list GenInfo) (groups : list (list nat)) (envs : list string) (compile_targets : string)
    : res (list nat) :=
  let names := split_on "," compile_targets in
  if existsb (λ n, bool_decide (find_targets gens envs n = [])) names
  then Err (WafError "target does not exist")
  else let to_compile := concat (find_targets gens envs <$> names) in
       Ok (filter (λ g, g ∈ to_compile) (concat groups)).
(** [flush] for a launch folder: [below] tells which generators are under it. *)
Definition flush_folder (groups : list (list nat)) (below : nat → bool) : list nat :=
  filter (λ g, below g = true) (concat groups).

Lemma build_index_snoc gens x : build_index (gens ++ [x]) = index_step (build_index gens) (length gens, x).
Proof.
  unfold build_index. rewrite imap_app, fold_left_app. cbn. by rewrite Nat.add_0_r.
Qed.

Lemma build_index_sound gens k i : build_index gens !! k = Some i → ∃ x, gens !! i = Some x ∧ gi_key x = k.
Proof.
  induction gens as [|x gens IH] using rev_ind; [done|]. rewrite build_index_snoc. unfold index_step.
  assert (Hold : build_index gens !! k = Some i → ∃ y, (gens ++ [x]) !! i = Some y ∧ gi_key y = k).
  { intros Hb. apply IH in Hb as (y & Hy & Hk). exists y. split; [by apply lookup_app_l_Some|done]. }
  assert (Hnew : <[gi_key x := length gens]> (build_index gens) !! k = Some i →
                 ∃ y, (gens ++ [x]) !! i = Some y ∧ gi_key y = k).
  { intros [[<- <-]|[_ Hb]]%lookup_insert_Some; [|by apply Hold]. exists x. split; [|done]. by apply list_lookup_middle. }
  destruct (gi_name x =s ""); [|exact Hnew]. destruct (build_index gens !! gi_key x); [exact Hold|exact Hnew].
Qed.

Lemma build_index_complete gens x i : gens !! i = Some x → is_Some (build_index gens !! gi_key x).
Proof.
  induction gens as [|y gens IH] using rev_ind; [done|]. rewrite build_index_snoc. unfold index_step.
  assert (Hins : is_Some (build_index gens !! gi_key x) ∨ gi_key y = gi_key x →
                 is_Some (<[gi_key y := length gens]> (build_index gens) !! gi_key x)).
  { intros [Hs| ->]; [by apply lookup_insert_is_Some'; right|]. rewrite lookup_insert_eq. eauto. }
  intros [Hx|[Hlen Hx]]%lookup_app_Some.
  - apply IH in Hx. destruct (gi_name y =s ""); [|auto]. destruct (build_index gens !! gi_key y); auto.
  - apply list_lookup_singleton_Some in Hx as [_ ->]. destruct (gi_name x =s ""); [|auto].
    destruct (build_index gens !! gi_key x) eqn:E; [|auto]. by rewrite E.
Qed.

(** A name finds the generator it belongs to, in its variant, when no other
    has the same key; and finds nothing else. *)
Theorem name_to_obj_correct gens name variant i :
  (∀ j k x y, gens !! j = Some x → gens !! k = Some y → gi_key x = gi_key y → j = k) →
  name_to_obj gens name variant = Some i ↔ ∃ x, gens !! i = Some x ∧ gi_key x = variant +:+ "_" +:+ name.
Proof.
  intros Hu. unfold name_to_obj. split; [apply build_index_sound|]. intros (x & Hx & <-).
  destruct (build_index_complete gens x i Hx) as [j Hj]. rewrite Hj. f_equal.
  apply build_index_sound in Hj as (y & Hy & Hk). by eapply Hu.
Qed.

(** The key of a generator does not tell its variant from its name: two
    generators of different names and variants can hide each other. *)
Theorem names_collide :
  let gens := [mkGenInfo "x" "y_z" []; mkGenInfo "x_y" "z" []] in
  name_to_obj gens "y_z" "x" = Some 1 ∧ name_to_obj gens "z" "x_y" = Some 1.
Proof. vm_compute. done. Qed.

(** With a list of targets, the generators posted are those of the targets,
    in the order of the groups, and every target has one. *)
Theorem flush_targets_correct gens groups envs targets l :
  flush_targets gens groups envs targets = Ok l →
  l `sublist_of` concat groups ∧
  (∀ g, g ∈ l ↔ g ∈ concat groups ∧
     ∃ t e, t ∈ split_on "," targets ∧ e ∈ envs ∧ name_to_obj gens (strip t) e = Some g) ∧
  ∀ t, t ∈ split_on "," targets → ∃ e g, e ∈ envs ∧ name_to_obj gens (strip t) e = Some g.
Proof.
  unfold flush_targets. destruct (existsb _ _) eqn:Ee; [done|]. intros [= <-]. split_and!.
  - apply sublist_filter.
  - intros g. rewrite list_elem_of_filter, elem_of_concat. split.
    + intros [(ls & Hg & (t & -> & Ht)%list_elem_of_fmap) Hin]. split; [done|].
      apply list_elem_of_omap in Hg as (e & He & Hg). eauto.
    + intros [Hin (t & e & Ht & He & Hg)]. split; [|done]. exists (find_targets gens envs t).
      split; [|by apply list_elem_of_fmap_2]. apply list_elem_of_omap. eauto.
  - intros t Ht. assert (Hne : find_targets gens envs t ≠ []).
    { intros Hnil. assert (Ht' : existsb (λ n, bool_decide (find_targets gens envs n = [])) (split_on "," targets) = true).
      { apply existsb_exists. exists t. split; [by apply list_elem_of_In|]. by apply bool_decide_eq_true. }
      congruence. }
    destruct (find_targets gens envs t) as [|g ls] eqn:Ef; [done|].
    assert (Hg : g ∈ find_targets gens envs t) by (rewrite Ef; by left).
    apply list_elem_of_omap in Hg as (e & He & Hg). eauto.
Qed.

(** ** Witnesses *)

Section Witnesses.
Definition demo_keys : list string := ["apply_core"; "exec_rule"; "apply_link"; "default_cc"].
Definition demo_prec : prec_table :=
  after ["apply_core"] "apply_link" (before ["apply_core"] "exec_rule" (before ["apply_core"] "default_cc" [])).

Lemma demo_keys_ok : NoDup demo_keys.
Proof. apply (bool_decide_unpack _). vm_compute. reflexivity. Qed.
Lemma demo_prec_ok : dict_ok demo_prec.
Proof.
  split; [apply (bool_decide_unpack _); vm_compute; reflexivity|].
  intros y l Hin. vm_compute in Hin. apply (bool_decide_unpack _).
  repeat (apply elem_of_cons in Hin as [[= -> ->]|Hin]; [vm_compute; reflexivity|]). by apply elem_of_nil in Hin.
Qed.

Lemma method_order_correct_witness :
  ["default_cc"; "exec_rule"; "apply_core"; "apply_link"] ≡ₚ demo_keys ∧
  ∀ a b, must_precede demo_keys demo_prec a b →
    ∃ i j, i < j ∧ ["default_cc"; "exec_rule"; "apply_core"; "apply_link"] !! i = Some a ∧
           ["default_cc"; "exec_rule"; "apply_core"; "apply_link"] !! j = Some b.
Proof.
  apply (method_order_correct demo_keys demo_prec).
  - exact demo_keys_ok.
  - exact demo_prec_ok.
  - vm_compute. reflexivity.
Defined.

Lemma method_order_total_witness :
  (sort_methods demo_keys demo_prec = Err (WafError "graph has a cycle") ∨ is_ok (sort_methods demo_keys demo_prec) = true) ∧
  (is_ok (sort_methods demo_keys demo_prec) = true ↔
   ∃ rank : string → nat, ∀ a b, must_precede demo_keys demo_prec a b → rank a < rank b).
Proof. apply (method_order_total demo_keys demo_prec); [exact demo_keys_ok|exact demo_prec_ok]. Defined.

Example cycle_found :
  sort_methods ["a"; "b"] (before ["a"] "b" (before ["b"] "a" [])) = Err (WafError "graph has a cycle").
Proof. reflexivity. Qed.

(** A world that is the list of methods and what has been run. *)
Notation demo_world := (list string * list string)%type.
Definition demo_call (x : string) : option (demo_world → res demo_world) :=
  if x =s "exec_rule" then Some (λ w, Ok (remove_first "apply_core" w.1, w.2 ++ [x]))
  else if x =s "sequence_order" then
    Some (sequence_order fst (λ w l, (l, w.2)) (λ w, Ok (w.1, w.2 ++ ["link"])))
  else Some (λ w, Ok (w.1, w.2 ++ [x])).

Lemma demo_keeps x : x ≠ "exec_rule" → x ≠ "sequence_order" → keeps_meths fst demo_call x.
Proof.
  intros H1 H2 v w w'. unfold demo_call. destruct (String.eqb_spec x "exec_rule"); [done|].
  destruct (String.eqb_spec x "sequence_order"); [done|]. by intros [= <-] [= <-].
Qed.
Lemma demo_keeps_all (l : list string) x : "exec_rule" ∉ l → "sequence_order" ∉ l → x ∈ l → keeps_meths fst demo_call x.
Proof. intros H1 H2 Hx. apply demo_keeps; intros ->; done. Qed.

Lemma rule_replaces_core_witness :
  run_methods fst demo_call 9 0 (["default_cc"; "exec_rule"; "apply_link"; "apply_core"; "end"], []) =
  run_list demo_call (["default_cc"] ++ "exec_rule" :: ["apply_link"] ++ ["end"])
    (["default_cc"; "exec_rule"; "apply_link"; "apply_core"; "end"], []).
Proof.
  apply (rule_replaces_core fst demo_call ["default_cc"] ["apply_link"] ["end"]).
  - reflexivity.
  - apply (bool_decide_unpack _). vm_compute. reflexivity.
  - intros x. apply demo_keeps_all; apply (bool_decide_unpack _); vm_compute; reflexivity.
  - intros v w w' [= <-] [= <-]. done.
  - cbn. lia.
Defined.

Lemma sequence_order_runs_last_witness :
  run_methods fst demo_call 9 0 (["a"; "sequence_order"; "b"; "c"], []) =
  (w1 ← run_list demo_call ["a"] (["a"; "sequence_order"; "b"; "c"], []);
   w2 ← run_list demo_call ["b"; "c"] ((["a"; "sequence_order"; "b"; "c"] ++ ["sequence_order"]), w1.2);
   Ok (w2.1, w2.2 ++ ["link"])).
Proof.
  apply (sequence_order_runs_last fst (λ w l, (l, w.2)) (λ w, Ok (w.1, w.2 ++ ["link"])) demo_call ["a"] ["b"] "c").
  - done.
  - reflexivity.
  - apply (bool_decide_unpack _). vm_compute. reflexivity.
  - intros x. apply demo_keeps_all; apply (bool_decide_unpack _); vm_compute; reflexivity.
  - reflexivity.
  - by intros w w' [= <-].
  - cbn. lia.
Defined.

Definition demo_seq : Sequence := mkSeq (Some 0) {[0 := [10]; 1 := [11; 12]]} ∅.
Lemma sequence_links_tasks_witness :
  prev (from_res demo_seq (seq_link 1 false (λ _ s, Ok s) demo_seq)) = Some 1 ∧
  ∀ x y, x ∈ tasks_of demo_seq 0 → y ∈ tasks_of demo_seq 1 →
    x ∈ default [] (run_after (from_res demo_seq (seq_link 1 false (λ _ s, Ok s) demo_seq)) !! y).
Proof.
  apply (sequence_links_tasks 1 0 (λ _ s, Ok s) demo_seq demo_seq).
  - reflexivity.
  - reflexivity.
  - vm_compute. reflexivity.
Defined.

(** A chain [.y] to [.c] to [.o]: node 3 gives node 2, which gives node 1. *)
Definition demo_hook (ext : string) : option (string + Z → list Z → res (list Z)) :=
  if ext =s ".x" then
    Some (λ a w, match a with inr n => Ok (if (1 <? n)%Z then w ++ [(n - 1)%Z] else w) | inl _ => Err TypeError end)
  else None.
Lemma apply_core_terminates_witness :
  ∃ fuel, ∀ n, fuel ≤ n →
    apply_core demo_hook (λ _ w, Ok (Some 3%Z, w)) id (λ w n, w ++ [n]) (λ _ _, ".x") ["a.y"] n [] ≠ Err OutOfFuel.
Proof.
  apply (apply_core_terminates demo_hook _ id (λ w n, w ++ [n]) (λ _ _, ".x") Z.to_nat 1 ["a.y"] [] [3%Z]).
  - intros ext x node w w'. unfold demo_hook. destruct (ext =s ".x"); [|done]. intros [= <-] [= <-].
    destruct (Z.ltb_spec 1 node).
    + exists [(node - 1)%Z]. split; [done|]. split; [done|]. intros n ->%list_elem_of_singleton. lia.
    + exists []. split; [by rewrite app_nil_r|]. split; [cbn; lia|]. by intros n ?%elem_of_nil.
  - intros ext x node w. unfold demo_hook. destruct (ext =s ".x"); [|done]. by intros [= <-].
  - reflexivity.
Defined.

Definition demo_gens : list GenInfo := [mkGenInfo "default" "" ["lib"]; mkGenInfo "default" "app" []].
Lemma name_to_obj_correct_witness :
  name_to_obj demo_gens "app" "default" = Some 1 ↔
  ∃ x, demo_gens !! 1 = Some x ∧ gi_key x = "default" +:+ "_" +:+ "app".
Proof.
  apply (name_to_obj_correct demo_gens "app" "default" 1).
  intros [|[|j]] [|[|k]] x y; cbn; try done; intros [= <-] [= <-]; vm_compute; discriminate.
Defined.

Lemma flush_targets_correct_witness :
  [1] `sublist_of` concat [[0]; [1]] ∧
  (∀ g, g ∈ [1] ↔ g ∈ concat [[0]; [1]] ∧
     ∃ t e, t ∈ split_on "," " app" ∧ e ∈ ["default"] ∧ name_to_obj demo_gens (strip t) e = Some g) ∧
  ∀ t, t ∈ split_on "," " app" → ∃ e g, e ∈ ["default"] ∧ name_to_obj demo_gens (strip t) e = Some g.
Proof. apply (flush_targets_correct demo_gens [[0]; [1]] ["default"] " app" [1]). vm_compute. reflexivity. Defined.
End Witnesses.
