(* ===== verification/WafInstall.v ===== *)
(** * Installing files (install, do_install, get_install_path and symlink_as of tools/wafadmin/Build.py, subst_vars of tools/wafadmin/Utils.py)

    Installation paths have variables in them and go below a destination folder;
    a file is copied unless it is already there; uninstalling removes the files,
    then the folders that are left empty.  The file system is a map from paths to
    files. *)
From S2P Require Import Prelude PyStr PyPath WafEnv.

(** ** Paths *)

Definition backslash : ascii := "\".

(** [reg_subst]: two backslashes, two dollars, or [${name}]. *)
Fixpoint upto_brace (s : string) : option (string * string) :=
  match s with
  | EmptyString => None
  | String a s' => if a =c "}" then Some ("", s') else '(n, r) ← upto_brace s'; Some (String a n, r)
  end.

Section Subst.
Context (get_flat : string → res string).
Fixpoint repl_loop (fuel : nat) (s : string) : res string :=
  match fuel, s with
  | S f, String a s' =>
      let plain := r ← repl_loop f s'; Ok (String a r) in
      match s' with
      | String c s'' =>
          if Ascii.eqb a backslash && Ascii.eqb c backslash then r ← repl_loop f s''; Ok (String backslash r)
          else if (a =c "$") && (c =c "$") then r ← repl_loop f s''; Ok (String a r)
          else if (a =c "$") && (c =c "{") then
            match upto_brace s'' with
            | Some (n, rest) =>
                if n =s "" then plain else v ← get_flat n; r ← repl_loop f rest; Ok (v +:+ r)
            | None => plain
            end
          else plain
      | EmptyString => Ok (String a "")
      end
  | _, _ => Ok ""
  end.
Definition subst_vars (expr : string) : res string := repl_loop (S (String.length expr)) expr.

(** [self.red]: an optional drive letter, then slashes and backslashes. *)
Fixpoint strip_slashes (s : string) : string :=
  match s with
  | String a s' => if Ascii.eqb a slash || Ascii.eqb a backslash then strip_slashes s' else s
  | EmptyString => ""
  end.
Definition strip_root (s : string) : string :=
  match s with
  | String a (String c s') => if is_alpha a && (c =c ":") then strip_slashes s' else strip_slashes s
  | _ => strip_slashes s
  end.

Definition get_install_path (destdir path : string) : res string :=
  destpath ← subst_vars path;
  Ok (if destdir =s "" then destpath else path_join destdir (strip_root destpath)).
End Subst.

(** ** Files *)

Record File := mkFile { f_mtime : Z; f_size : Z; f_mode : Z; f_data : string }.
Record Disk := mkDisk { disk : gmap string File; uninstall : list string }.
Definition with_disk (d : Disk) m := mkDisk m (uninstall d).

(** [do_install]: the disk as it is left, also by an exception. *)
Definition do_install (is_install : Z) (force : bool) (d : Disk) (src tgt : string) (chmod : Z)
    : res (option bool) * Disk :=
  if (0 <? is_install)%Z then
    let uptodate :=
      match disk d !! tgt, disk d !! src with
      | Some st1, Some st2 => (f_mtime st2 <=? f_mtime st1)%Z && (f_size st1 =? f_size st2)%Z
      | _, _ => false
      end in
    if negb force && uptodate then (Ok (Some false), d)
    else
      let d := with_disk d (delete tgt (disk d)) in
      match disk d !! src with
      | None => (Err (WafError "Could not install the file"), d)
      | Some f => (Ok (Some true), with_disk d (<[tgt := mkFile (f_mtime f) (f_size f) chmod (f_data f)]> (disk d)))
      end
  else if (is_install <? 0)%Z then
    (Ok (Some true), mkDisk (delete tgt (disk d)) (uninstall d ++ [tgt]))
  else (Ok None, d).

(** The folders to remove after uninstalling: those of the files, and the ones
    above as long as their names have more than four characters. *)
Fixpoint parents_loop (fuel : nat) (x : string) (nlst : list string) : res (list string) :=
  match fuel with
  | 0 => Err OutOfFuel
  | S f =>
      if (4 <? String.length x)%nat then
        parents_loop f (dirname x) (if bool_decide (x ∈ nlst) then nlst else nlst ++ [x])
      else Ok nlst
  end.
Definition add_new (l : list string) (x : string) : list string := if bool_decide (x ∈ l) then l else l ++ [x].

(** [l.sort(); l.reverse()] *)
Definition sort_desc (l : list string) : list string := reverse (merge_sort str_le l).

Definition empty_dirs (files : list string) : res (list string) :=
  let lst := sort_desc (fold_left (λ l x, add_new l (dirname x)) files []) in
  nlst ← res_fold (λ nlst y, parents_loop (S (String.length y)) y nlst) lst [];
  Ok (sort_desc nlst).

(** [symlink_as], without its messages: [links] are the symbolic links; the target
    of a removed link is forgotten. *)
Definition symlink_as (is_install : Z) (links : gmap string string) (files : gset string) (tgt src : string)
    : Z * gmap string string * gset string :=
  if (0 <? is_install)%Z then
    if bool_decide (links !! tgt = Some src) then (0%Z, links, files)
    else (0%Z, <[tgt := src]> links, files ∖ {[tgt]})
  else
    if bool_decide (is_Some (links !! tgt)) || bool_decide (tgt ∈ files)
    then (0%Z, delete tgt links, files ∖ {[tgt]}) else (1%Z, links, files).

(** ** Lemmas on paths *)

Lemma all_slashes_long p : all_slashes p = true → 4 < String.length p → prefix_of "/////" p.
Proof.
  unfold all_slashes. intros Hs Hl. do 5 (destruct p as [|? p]; [cbn in Hl; lia|]).
  cbn [str_forall] in Hs. repeat (apply andb_true_iff in Hs as [?%Ascii.eqb_eq Hs]; subst). by exists p.
Qed.

Lemma parents_loop_ok y fuel : ∀ x nlst, ¬ prefix_of "/////" y → prefix_of x y → String.length x < fuel →
  ∃ nlst', parents_loop fuel x nlst = Ok nlst' ∧ nlst ⊆ nlst' ∧ (4 < String.length x → x ∈ nlst') ∧
           ∀ d, d ∈ nlst' → d ∈ nlst ∨ prefix_of d x ∧ 4 < String.length d.
Proof.
  induction fuel as [|fuel IH]; intros x nlst Hy Hx Hf; [lia|]. cbn [parents_loop].
  destruct (Nat.ltb_spec 4 (String.length x)) as [Hl|Hl].
  2: { exists nlst. split_and!; try done; [lia|auto]. }
  assert (Hs : all_slashes x = false).
  { destruct (all_slashes x) eqn:E; [|done]. destruct Hy. etrans; [by apply all_slashes_long|done]. }
  assert (Hd : String.length (dirname x) < String.length x) by (apply dirname_shorter; [by intros ->; cbn in Hl; lia|done]).
  set (nlst1 := if bool_decide (x ∈ nlst) then nlst else nlst ++ [x]).
  assert (Hn1 : nlst ⊆ nlst1 ∧ x ∈ nlst1 ∧ ∀ d, d ∈ nlst1 → d ∈ nlst ∨ d = x).
  { unfold nlst1. case_bool_decide; [split_and!; auto|]. split_and!; [set_solver|set_solver|].
    intros d [?| ->%list_elem_of_singleton]%elem_of_app; auto. }
  destruct Hn1 as (Hsub & Hin & Hnew).
  destruct (IH (dirname x) nlst1 Hy) as (nlst' & Hr & H1 & H2 & H3); [by etrans; [apply dirname_prefix|]|lia|].
  exists nlst'. split_and!; [done|set_solver|auto|].
  intros d [Hd'|[Hp Hl']]%H3.
  - apply Hnew in Hd' as [?| ->]; [by left|right; by split].
  - right. split; [|done]. etrans; [exact Hp|apply dirname_prefix].
Qed.

(** ** The order of folders *)

Lemma prefix_le p s : prefix_of p s → str_le p s.
Proof.
  intros [r ->]. unfold str_le. induction p as [|a p IH]; [done|].
  rewrite str_app_cons. cbn [str_leb]. by rewrite IH, Nat.eqb_refl, orb_true_r.
Qed.

(** In a list in descending order, what is above a folder comes after it. *)
Lemma sort_desc_order l i j p s :
  prefix_of p s → p ≠ s → sort_desc l !! i = Some p → sort_desc l !! j = Some s → j < i.
Proof.
  intros Hp Hne Hi Hj. unfold sort_desc in *.
  pose proof (StronglySorted_merge_sort str_le l) as Hs.
  apply reverse_lookup_Some in Hi as [Hi Hil]. apply reverse_lookup_Some in Hj as [Hj Hjl].
  destruct (decide (i ≤ j)) as [Hij|]; [|lia]. exfalso. destruct (decide (i = j)) as [->|Hij']; [congruence|].
  set (L := merge_sort str_le l) in *.
  apply Hne, str_le_antisym; [by apply prefix_le|].
  apply (StronglySorted_lookup_le str_le L (length L - S j) (length L - S i) s p Hs Hj Hi). lia.
Qed.

(** ** Theorems *)

Section SubstLemmas.
Context (get_flat : string → res string).

Lemma upto_brace_app s n r : upto_brace s = Some (n, r) → s = n +:+ "}" +:+ r.
Proof.
  revert n r. induction s as [|a s IH]; intros n r; cbn; [done|].
  destruct (Ascii.eqb_spec a "}") as [->|]; [by intros [= <- <-]|].
  destruct (upto_brace s) as [[n' r']|]; [|done]. intros [= <- <-]. by rewrite (IH n' r').
Qed.
Lemma upto_brace_find n r : str_mem "}" n = false → upto_brace (n +:+ "}" +:+ r) = Some (n, r).
Proof.
  induction n as [|a n IH]; cbn [str_mem]; [done|]. rewrite orb_false_iff. intros [Ha Hn].
  rewrite str_app_cons. cbn [upto_brace]. rewrite IH by done. cbn. destruct (Ascii.eqb_spec a "}") as [->|]; [by cbn in Ha|done].
Qed.

Lemma repl_loop_fuel f1 : ∀ f2 s, String.length s < f1 → String.length s < f2 →
  repl_loop get_flat f1 s = repl_loop get_flat f2 s.
Proof.
  induction f1 as [|f1 IH]; intros [|f2] s H1 H2; try lia. destruct s as [|a s]; [done|]. cbn in H1, H2.
  cbn [repl_loop]. destruct s as [|c s]; [done|]. cbn in H1, H2.
  assert (E1 : repl_loop get_flat f1 (String c s) = repl_loop get_flat f2 (String c s)) by (apply IH; cbn; lia).
  assert (E2 : repl_loop get_flat f1 s = repl_loop get_flat f2 s) by (apply IH; lia).
  rewrite E1, E2. destruct (_ && _); [done|]. destruct (_ && _); [done|]. destruct (_ && _); [|done].
  destruct (upto_brace s) as [[n r]|] eqn:Eb; [|done]. destruct (n =s ""); [done|].
  apply upto_brace_app in Eb as ->. rewrite (IH f2 r); [done| |]; rewrite !str_length_app in *; cbn in *; lia.
Qed.

(** Characters that start nothing. *)
Definition plain_char (a : ascii) : bool := negb (a =c "$") && negb (Ascii.eqb a backslash).

Lemma subst_vars_cons a s : plain_char a = true →
  subst_vars get_flat (String a s) = (r ← subst_vars get_flat s; Ok (String a r)).
Proof.
  unfold plain_char. rewrite andb_true_iff, !negb_true_iff. intros [H1 H2]. unfold subst_vars at 1.
  cbn [String.length]. cbn [repl_loop]. destruct s as [|c s]; [done|]. rewrite H1, H2. cbn [andb]. done.
Qed.

Lemma repl_loop_brace f s n r : upto_brace s = Some (n, r) → n ≠ "" →
  repl_loop get_flat (S f) (String "$" (String "{" s)) =
    (v ← get_flat n; r' ← repl_loop get_flat f r; Ok (v +:+ r')).
Proof. intros E Hn. cbn -[upto_brace]. by rewrite E, (proj2 (String.eqb_neq _ _) Hn). Qed.
Lemma subst_vars_brace n rest : n ≠ "" → str_mem "}" n = false →
  subst_vars get_flat ("${" +:+ n +:+ "}" +:+ rest) =
    (v ← get_flat n; r ← subst_vars get_flat rest; Ok ("" +:+ v +:+ r)).
Proof.
  intros Hn Hb. unfold subst_vars at 1. rewrite !str_app_cons, str_app_nil_l.
  rewrite (repl_loop_brace _ _ n rest); [|by rewrite <- upto_brace_find by done|done].
  destruct (get_flat n) as [v|e]; [|done]. cbn [mbind res_bind].
  rewrite (repl_loop_fuel _ (S (String.length rest)) rest); [done| |lia].
  rewrite str_app_nil_l. cbn [String.length]. rewrite !str_length_app. cbn. lia.
Qed.
End SubstLemmas.

(** A variable in a path is replaced by its value, and the text around it is
    left alone. *)
Theorem subst_vars_correct get_flat text name rest :
  str_forall plain_char text = true → name ≠ "" → str_mem "}" name = false →
  subst_vars get_flat (text +:+ "${" +:+ name +:+ "}" +:+ rest) =
    (v ← get_flat name; r ← subst_vars get_flat rest; Ok (text +:+ v +:+ r)).
Proof.
  intros Ht Hn Hb. induction text as [|a text IH].
  - rewrite str_app_nil_l. apply (subst_vars_brace get_flat name rest Hn Hb).
  - cbn in Ht. apply andb_true_iff in Ht as [Ha Ht]. rewrite str_app_cons, subst_vars_cons, (IH Ht) by done.
    destruct (get_flat name) as [v|]; [|done]. cbn [mbind res_bind]. by destruct (subst_vars get_flat rest) as [r|].
Qed.
Lemma subst_vars_correct_witness :
  subst_vars (λ n, if n =s "PREFIX" then Ok "/usr" else Err KeyError) "${PREFIX}/bin" = Ok "/usr/bin".
Proof.
  exact (subst_vars_correct (λ n, if n =s "PREFIX" then Ok "/usr" else Err KeyError) "" "PREFIX" "/bin"
    eq_refl ltac:(done) eq_refl).
Defined.

(** With a destination folder, files are installed below it, also when the path
    is absolute or has a drive. *)
Theorem install_path_in_destdir get_flat destdir path p :
  destdir ≠ "" → get_install_path get_flat destdir path = Ok p → prefix_of destdir p.
Proof.
  intros Hd. unfold get_install_path. intros (x & _ & [= <-])%res_bind_Ok. rewrite (proj2 (String.eqb_neq _ _) Hd).
  assert (Hstrip : ∀ s, startswith "/" (strip_slashes s) = false).
  { induction s as [|a s IH]; [done|]. cbn [strip_slashes]. destruct (Ascii.eqb_spec a slash) as [->|Ha]; [done|].
    destruct (Ascii.eqb a backslash); [done|].
    apply not_true_is_false. intros [t [=]]%startswith_iff. by apply Ha. }
  assert (Hroot : startswith "/" (strip_root x) = false).
  { unfold strip_root. destruct x as [|a [|c x]]; try apply Hstrip. destruct (_ && _); apply Hstrip. }
  unfold path_join. rewrite Hroot. destruct (_ || _); by eexists.
Qed.
Lemma install_path_in_destdir_witness : prefix_of "/tmp/d" "/tmp/d/usr/bin".
Proof. apply (install_path_in_destdir (λ _, Ok "/usr") "/tmp/d" "${PREFIX}/bin"); [done|reflexivity]. Defined.

(** A file that has been installed is not copied again: the copy keeps the time
    of its source, which is then taken for up to date. *)
Theorem install_again_is_noop d d' force src tgt mode :
  src ≠ tgt → do_install 1 force d src tgt mode = (Ok (Some true), d') →
  do_install 1 false d' src tgt mode = (Ok (Some false), d') ∧
  ∃ f, disk d !! src = Some f ∧ disk d' !! tgt = Some (mkFile (f_mtime f) (f_size f) mode (f_data f)) ∧
       ∀ p, p ≠ tgt → disk d' !! p = disk d !! p.
Proof.
  intros Hne. unfold do_install at 1. cbn [Z.ltb Z.compare]. destruct (negb force && _); [done|].
  cbn [with_disk disk]. rewrite lookup_delete_ne by done. destruct (disk d !! src) as [f|] eqn:Ef; [|done].
  intros [= <-]. cbn [with_disk disk]. split.
  - unfold do_install. cbn. rewrite lookup_insert_eq, lookup_insert_ne, lookup_delete_ne, Ef by done. cbn.
    by rewrite Z.leb_refl, Z.eqb_refl.
  - exists f. split; [done|]. split; [by rewrite lookup_insert_eq|]. intros p Hp.
    by rewrite lookup_insert_ne, lookup_delete_ne.
Qed.
Definition demo_disk : Disk := mkDisk {[ "node" := mkFile 7 3 420 "elf" ]} [].
Lemma install_again_is_noop_witness : ∃ d, do_install 1 false d "node" "/bin/node" 493 = (Ok (Some false), d).
Proof.
  exists (do_install 1 false demo_disk "node" "/bin/node" 493).2.
  apply (install_again_is_noop demo_disk _ false "node" "/bin/node" 493); [done|reflexivity].
Defined.

(** When the source is missing, the installation fails, and the file that was
    installed before is gone. *)
Theorem install_missing_source d force src tgt mode :
  src ≠ tgt → disk d !! src = None →
  ∃ d', do_install 1 force d src tgt mode = (Err (WafError "Could not install the file"), d') ∧
        disk d' !! tgt = None.
Proof.
  intros Hne Hs. unfold do_install. cbn [Z.ltb Z.compare]. rewrite Hs.
  replace (negb force && _) with false by (destruct (disk d !! tgt); by rewrite andb_false_r).
  cbn [with_disk disk]. rewrite lookup_delete_ne, Hs by done. eexists. split; [done|]. cbn. apply lookup_delete_eq.
Qed.
Lemma install_missing_source_witness :
  ∃ d, do_install 1 false demo_disk "gone" "node" 493 = (Err (WafError "Could not install the file"), d).
Proof.
  destruct (install_missing_source demo_disk false "gone" "node" 493) as (d & Hd & _); [done|reflexivity|by exists d].
Defined.

Lemma elem_of_folders files d :
  d ∈ fold_left (λ l x, add_new l (dirname x)) files [] ↔ ∃ f, f ∈ files ∧ d = dirname f.
Proof.
  assert (Hg : ∀ l0, d ∈ fold_left (λ l x, add_new l (dirname x)) files l0 ↔
    d ∈ l0 ∨ ∃ f, f ∈ files ∧ d = dirname f).
  { induction files as [|x files IH]; intros l0; cbn [fold_left].
    - split; [auto|]. intros [?|(f & []%elem_of_nil & _)]. done.
    - rewrite IH. unfold add_new. setoid_rewrite elem_of_cons. case_bool_decide.
      + naive_solver.
      + rewrite elem_of_app, list_elem_of_singleton. naive_solver. }
  rewrite Hg, elem_of_nil. tauto.
Qed.
Lemma elem_of_sort_desc l d : d ∈ sort_desc l ↔ d ∈ l.
Proof. unfold sort_desc. by rewrite elem_of_reverse, merge_sort_Permutation. Qed.

Lemma parents_fold lst : ∀ nl, (∀ y, y ∈ lst → ¬ prefix_of "/////" y) →
  ∃ nl', res_fold (λ nlst y, parents_loop (S (String.length y)) y nlst) lst nl = Ok nl' ∧ nl ⊆ nl' ∧
    (∀ y, y ∈ lst → 4 < String.length y → y ∈ nl') ∧
    ∀ d, d ∈ nl' → d ∈ nl ∨ 4 < String.length d ∧ ∃ y, y ∈ lst ∧ prefix_of d y.
Proof.
  induction lst as [|y lst IH]; intros nl Hy; cbn [res_fold].
  - exists nl. split_and!; auto. by intros y []%elem_of_nil.
  - destruct (parents_loop_ok y (S (String.length y)) y nl) as (nl1 & -> & H1 & H2 & H3); [apply Hy; by left|done|lia|].
    cbn [mbind res_bind].
    destruct (IH nl1) as (nl2 & -> & G1 & G2 & G3); [intros z Hz; apply Hy; by right|].
    exists nl2. split_and!; [done|set_solver| |].
    + intros z [->|Hz]%elem_of_cons Hl; [apply G1, H2, Hl|by apply G2].
    + intros d [Hd|(Hl & z & Hz & Hp)]%G3.
      * apply H3 in Hd as [?|[? ?]]; [auto|]. right. split; [done|]. exists y. split; [by left|done].
      * right. split; [done|]. exists z. split; [by right|done].
Qed.

(** After uninstalling, the folders of the files are all tried, for paths that
    do not start with five slashes; nothing else than folders of the files is tried,
    and each folder before the ones above it. *)
Theorem empty_dirs_correct files :
  (∀ f, f ∈ files → ¬ prefix_of "/////" f) →
  ∃ l, empty_dirs files = Ok l ∧
    (∀ f, f ∈ files → 4 < String.length (dirname f) → dirname f ∈ l) ∧
    (∀ d, d ∈ l → 4 < String.length d ∧ ∃ f, f ∈ files ∧ prefix_of d f) ∧
    ∀ i j p s, prefix_of p s → p ≠ s → l !! i = Some p → l !! j = Some s → j < i.
Proof.
  intros Hf. unfold empty_dirs. set (dirs := fold_left _ files []).
  assert (Hdirs : ∀ d, d ∈ sort_desc dirs ↔ ∃ f, f ∈ files ∧ d = dirname f).
  { intros d. rewrite elem_of_sort_desc. apply elem_of_folders. }
  destruct (parents_fold (sort_desc dirs) []) as (nl & -> & _ & Hin & Hout).
  { intros y Hy Hp. rewrite Hdirs in Hy. destruct Hy as (f & Hff & ->). apply (Hf f Hff).
    etrans; [exact Hp|apply dirname_prefix]. }
  exists (sort_desc nl). split; [done|]. split_and!.
  - intros f Hff Hl. apply elem_of_sort_desc, Hin; [|done]. apply Hdirs. eauto.
  - intros d Hd. rewrite elem_of_sort_desc in Hd. apply Hout in Hd as [[]%elem_of_nil|(Hl & y & Hy & Hp)]. split; [done|].
    rewrite Hdirs in Hy. destruct Hy as (f & Hff & ->). exists f. split; [done|].
    etrans; [exact Hp|apply dirname_prefix].
  - intros i j p s. apply sort_desc_order.
Qed.
Lemma empty_dirs_correct_witness :
  ∃ l, empty_dirs ["/usr/lib/node/waf"; "/usr/bin/node"] = Ok l ∧ "/usr/lib" ∈ l.
Proof.
  destruct (empty_dirs_correct ["/usr/lib/node/waf"; "/usr/bin/node"]) as (l & Hl & _).
  { intros f Hf [r Hr]. rewrite !elem_of_cons, elem_of_nil in Hf. destruct Hf as [->|[->|[]]]; discriminate. }
  exists l. split; [exact Hl|]. vm_compute in Hl. injection Hl as <-. apply elem_of_cons. right. apply elem_of_cons. by left.
Defined.

(** Uninstalling from a path of five slashes never ends. *)
Theorem five_slashes_hang n nlst : parents_loop n "/////" nlst = Err OutOfFuel.
Proof. revert nlst. induction n as [|n IH]; intros nlst; [done|]. cbn. apply IH. Qed.
