(* ===== verification/WafLink.v ===== *)
(** * Libraries of C programs (tools/wafadmin/Tools/ccroot.py)

    What a program is compiled from and linked with: [apply_core] makes a task for each
    source (the hooks are in Tools/cc.py and Tools/cxx.py); [apply_lib_vars] goes through
    the libraries of the project that a generator uses, and those that they use, posts
    them and collects their flags; [apply_objdeps] does the same for object files;
    [apply_obj_vars] makes the flags of the linker.  Posting a generator runs its methods, so these functions
    call each other through [post]. *)
From S2P Require Import Prelude PyStr PyPath PyState WafNode.

(** An attribute that is text or a list; [to_list] splits the text. *)
Inductive names := Text (s : string) | Names (l : list string).
Definition to_list (n : names) : list string := match n with Text s => split_ws s | Names l => l end.
(** [l.reverse()] on what [to_list] gives: the list of the attribute itself is reversed. *)
Definition reversed_in_place (n : names) : names := match n with Text s => Text s | Names l => Names (reverse l) end.

(** The methods that this file is about, in the order that the precedences give
    (WafTaskGen); the others do not change what is modelled. *)
Inductive method := apply_core_ | apply_link_ | apply_lib_vars_ | apply_objdeps_ | apply_obj_vars_ | other_.
#[export] Instance method_eq : EqDecision method.
Proof. solve_decision. Defined.
(** What the extension of a source file, or its name, is mapped to. *)
Inductive hook := c_hook_ | cxx_hook_ | other_hook.
Definition is_compiler (h : hook) : bool := match h with c_hook_ | cxx_hook_ => true | other_hook => false end.

Record Task := mkTask { inputs : list string; outputs : list string; run_after : list nat; dep_nodes : list string }.
(** What a generator compiles: its folder and sources, and the compilations that were
    made. [compiled_tasks] has the numbers of the tasks. *)
Record Sources := mkSources {
  path : string;
  source : names;
  obj_ext : option string;
  idx : nat;
  mappings : gmap string hook;
  allnodes : list string;
  compiled_tasks : list nat }.
Record Gen := mkGen {
  features : list string;
  target : string;
  uselib : list string;
  uselib_local : list string;
  add_objects : names;
  export_incdirs : list string;
  p_flag_vars : list string;
  own : Sources;
  meths : list method;
  link_task : option nat;
  env : gmap string (list string);
  posted : bool }.
Record World := mkWorld { gens : gmap string Gen; tasks : list Task }.

Definition with_env (g : Gen) e :=
  mkGen (features g) (target g) (uselib g) (uselib_local g) (add_objects g) (export_incdirs g) (p_flag_vars g) (own g)
    (meths g) (link_task g) e (posted g).
Definition with_uselib (g : Gen) u :=
  mkGen (features g) (target g) u (uselib_local g) (add_objects g) (export_incdirs g) (p_flag_vars g) (own g)
    (meths g) (link_task g) (env g) (posted g).
Definition with_objects (g : Gen) a :=
  mkGen (features g) (target g) (uselib g) (uselib_local g) a (export_incdirs g) (p_flag_vars g) (own g)
    (meths g) (link_task g) (env g) (posted g).
Definition with_link (g : Gen) t :=
  mkGen (features g) (target g) (uselib g) (uselib_local g) (add_objects g) (export_incdirs g) (p_flag_vars g) (own g)
    (meths g) t (env g) (posted g).
Definition with_posted (g : Gen) :=
  mkGen (features g) (target g) (uselib g) (uselib_local g) (add_objects g) (export_incdirs g) (p_flag_vars g) (own g)
    (meths g) (link_task g) (env g) true.
Definition with_own (g : Gen) s :=
  mkGen (features g) (target g) (uselib g) (uselib_local g) (add_objects g) (export_incdirs g) (p_flag_vars g) s
    (meths g) (link_task g) (env g) (posted g).
Definition add_node (node : string) (g : Gen) : Gen :=
  let s := own g in with_own g (mkSources (path s) (source s) (obj_ext s) (idx s) (mappings s) (allnodes s ++ [node]) (compiled_tasks s)).
Definition add_compiled (t : nat) (g : Gen) : Gen :=
  let s := own g in with_own g (mkSources (path s) (source s) (obj_ext s) (idx s) (mappings s) (allnodes s) (compiled_tasks s ++ [t])).
Definition set_gen (x : string) (f : Gen → Gen) : ST World unit := modify (λ w, mkWorld (alter f x (gens w)) (tasks w)).
Definition set_task (t : nat) (f : Task → Task) : ST World unit := modify (λ w, mkWorld (gens w) (alter f t (tasks w))).
(** The generator itself, which exists. *)
Definition the_gen (x : string) : ST World Gen :=
  o ← gets (λ w, gens w !! x); match o with Some g => mret g | None => throw AttributeError end.

Definition task_outputs (w : World) (t : nat) : list string := default [] (outputs <$> tasks w !! t).
(** [bld.task_manager] and the list of the generator get a new task; its number is given. *)
Definition create_task (ins outs : list string) : ST World nat :=
  n ← gets (λ w, length (tasks w));
  modify (λ w, mkWorld (gens w) (tasks w ++ [mkTask ins outs [] []]));;
  mret n.

(** ** The environment of a generator *)

Definition Env : Type := gmap string (list string).
Definition env_get (e : Env) (k : string) : list string := default [] (e !! k).
Definition append_value (k : string) (v : list string) (e : Env) : Env := <[k := env_get e k ++ v]> e.
Definition prepend_value (k : string) (v : list string) (e : Env) : Env := <[k := v ++ env_get e k]> e.
Definition append_unique (k : string) (v : list string) (e : Env) : Env :=
  <[k := fold_left (λ l x, if bool_decide (x ∈ l) then l else l ++ [x]) v (env_get e k)]> e.
Definition is_truthy (l : list string) : bool := negb (bool_decide (l = [])).

Definition is_static (g : Gen) : bool := bool_decide ("cstaticlib" ∈ features g).
Definition is_shared (g : Gen) : bool := bool_decide ("cshlib" ∈ features g) || bool_decide ("cprogram" ∈ features g).
Definition link_name (g : Gen) : string := basename (target g).

Section Link.
(** The folder of a node in the build; a folder below the one of a generator. *)
Context (bldpath : string → string) (find_dir : string → string → option string).
(** The node of the target of a generator. *)
Context (target_node : Gen → string).

(** The node of a source file, from the folder of a generator; what the class maps. *)
Context (find_resource : string → string → option string) (class_mappings : gmap string hook).

(** ** Sources *)

Definition get_hook (s : Sources) (ext : string) : option hook :=
  match mappings s !! ext with Some h => Some h | None => class_mappings !! ext end.
(** The node in the same folder whose name has another extension; the end of the name
    from its last dot, or the name. *)
Definition change_ext (node ext : string) : string :=
  str_take (String.length node - String.length (basename node)) node +:+ changed_name (basename node) ext.
Definition node_suffix (node : string) : string := str_drop (default 0 (rfind_dot (basename node))) (basename node).
Definition object_ext (s : Sources) : string :=
  match obj_ext s with Some e => if e =s "" then "_" +:+ str_of_nat (idx s) +:+ ".o" else e | None => "_" +:+ str_of_nat (idx s) +:+ ".o" end.
Definition c_hook (self node : string) : ST World unit :=
  g ← the_gen self;
  n ← create_task [node] [change_ext node (object_ext (own g))];
  set_gen self (add_compiled n).
(** A file name that is mapped itself is given to the hook as text, which has no [change_ext]. *)
Definition core_file (self filename : string) : ST World unit :=
  g ← the_gen self;
  match get_hook (own g) filename with
  | Some h => if is_compiler h then throw AttributeError else mret tt
  | None =>
      match find_resource (path (own g)) filename with
      | None => throw (WafError ("source not found: '" +:+ filename +:+ "' in '" +:+ path (own g) +:+ "'"))
      | Some node => set_gen self (add_node node)
      end
  end.
(** The message goes on with the mappings. *)
Definition core_node (self node : string) : ST World unit :=
  g ← the_gen self;
  match get_hook (own g) (node_suffix node) with
  | None => throw (WafError ("Cannot guess how to process " +:+ node))
  | Some h => if is_compiler h then c_hook self node else mret tt
  end.
Definition apply_core (self : string) : ST World unit :=
  g ← the_gen self;
  for_each (core_file self) (to_list (source (own g)));;
  g ← the_gen self;
  for_each (core_node self) (allnodes (own g)).

(** The task is there, without inputs, also when one of the compilations has no output. *)
Definition apply_link (self : string) : ST World unit :=
  g ← the_gen self;
  outs ← gets (λ w, task_outputs w <$> compiled_tasks (own g));
  if forallb is_truthy outs then
    n ← create_task (hd "" <$> outs) [target_node g];
    set_gen self (λ g, with_link g (Some n))
  else create_task [] [];; throw IndexError.

Section Methods.
Context (post : string → ST World unit).

(** [self.name_to_obj(x).features], which is not there for an unknown name. *)
Fixpoint not_static (ls : list string) : ST World (list string) :=
  match ls with
  | [] => mret []
  | x :: ls' =>
      o ← gets (λ w, gens w !! x);
      match o with
      | None => throw AttributeError
      | Some g => rest ← not_static ls'; mret (if is_static g then rest else x :: rest)
      end
  end.
(** What the libraries of a library add to the list. *)
Definition local_libs (y : Gen) : ST World (list string) :=
  if is_shared y then not_static (uselib_local y) else mret (uselib_local y).
(** The flags for a library that is linked, and the order of the tasks. *)
Definition lib_flags (y : Gen) (e : Env) : Env :=
  if is_static y then append_value "STATICLIB" [link_name y] e
  else if is_shared y then append_value "LIB" [link_name y] e else e.
Definition use_link (self : string) (y : Gen) : ST World unit :=
  match link_task y with
  | None => mret tt
  | Some t =>
      set_gen self (λ g, with_env g (lib_flags y (env g)));;
      g ← the_gen self;
      match link_task g with
      | None => throw AttributeError
      | Some st =>
          outs ← gets (λ w, task_outputs w t);
          set_task st (λ k, mkTask (inputs k) (outputs k) (run_after k ++ [t]) (dep_nodes k ++ outs));;
          match outs with
          | [] => throw IndexError
          | o :: _ =>
              set_gen self (λ g, with_env g
                (if bool_decide (bldpath o ∈ env_get (env g) "LIBPATH") then env g else prepend_value "LIBPATH" [bldpath o] (env g)))
          end
      end
  end.
Definition add_uselib (g : Gen) (v : string) : Gen :=
  if is_truthy (env_get (env g) ("STATICLIB_" +:+ v)) || bool_decide (v ∈ uselib g) then g else with_uselib g (v :: uselib g).
Fixpoint export_dirs (self lib lib_target : string) (dirs : list string) : ST World unit :=
  match dirs with
  | [] => mret tt
  | x :: dirs' =>
      match find_dir lib x with
      | None => throw (WafError ("object '" +:+ lib_target +:+ "': invalid folder '" +:+ x +:+ "' in export_incdirs"))
      | Some node => set_gen self (λ g, with_env g (append_unique "INC_PATHS" [node] (env g)));; export_dirs self lib lib_target dirs'
      end
  end.
(** [while tmp]; [seen] is in the order of the visits. *)
Fixpoint visit_libs (fuel : nat) (self : string) (tmp seen : list string) : ST World (list string) :=
  match fuel with
  | 0 => throw OutOfFuel
  | S n =>
      match tmp with
      | [] => mret seen
      | lib_name :: tmp =>
          if bool_decide (lib_name ∈ seen) then visit_libs n self tmp seen
          else
            o ← gets (λ w, gens w !! lib_name);
            match o with
            | None => throw (WafError ("object '" +:+ lib_name +:+ "' was not found in uselib_local (required by '" +:+ self +:+ "')"))
            | Some _ =>
                post lib_name;;
                y ← the_gen lib_name;
                more ← local_libs y;
                use_link self y;;
                set_gen self (λ g, fold_left add_uselib (uselib y) g);;
                export_dirs self lib_name (target y) (export_incdirs y);;
                visit_libs n self (tmp ++ more) (seen ++ [lib_name])
            end
      end
  end.
(** The flags of the libraries that are not in the project. *)
Definition uselib_flags (g : Gen) : Gen :=
  with_env g (fold_left (λ e x, fold_left (λ e v, let val := env_get e (v +:+ "_" +:+ x) in
    if is_truthy val then append_value v val e else e) (p_flag_vars g) e) (uselib g) (env g)).
(** Rounds that are enough: every name that is put into the list is taken out once. *)
Definition total_uses (w : World) : nat := sum_list ((λ p, length (uselib_local p.2)) <$> map_to_list (gens w)).
Definition apply_lib_vars (self : string) : ST World unit :=
  g ← the_gen self;
  n ← gets total_uses;
  visit_libs (S (length (uselib_local g) + n)) self (uselib_local g) [];;
  set_gen self uselib_flags.

(** ** Object files *)

(** [for u in lst]: the names that are not seen yet go before the others. *)
Definition push_new (seen names lst : list string) : list string :=
  fold_left (λ names u, if bool_decide (u ∈ seen) then names else u :: names) lst names.
Definition take_objects (self : string) (y : Gen) : ST World unit :=
  g ← the_gen self;
  objs ← gets (λ w, concat (task_outputs w <$> compiled_tasks (own y)));
  match link_task g, compiled_tasks (own y) with
  | _, [] => mret tt
  | None, _ => throw AttributeError
  | Some st, _ => set_task st (λ k, mkTask (inputs k ++ objs) (outputs k) (run_after k) (dep_nodes k))
  end.
Fixpoint visit_objects (fuel : nat) (self : string) (names seen : list string) : ST World (list string) :=
  match fuel with
  | 0 => throw OutOfFuel
  | S n =>
      match names with
      | [] => mret seen
      | x :: rest =>
          if bool_decide (x ∈ seen) then visit_objects n self rest seen
          else
            o ← gets (λ w, gens w !! x);
            match o with
            | None => throw (WafError ("object '" +:+ x +:+ "' was not found in uselib_local (required by add_objects '" +:+ self +:+ "')"))
            | Some y =>
                set_gen x (λ y, with_objects y (reversed_in_place (add_objects y)));;
                let lst := reverse (to_list (add_objects y)) in
                if existsb (λ u, negb (bool_decide (u ∈ seen))) lst then visit_objects n self (push_new seen names lst) seen
                else
                  post x;;
                  y ← the_gen x;
                  take_objects self y;;
                  visit_objects n self names (seen ++ [x])
            end
      end
  end.
(** Each generator puts its objects into the list once. *)
Definition total_objects (w : World) : nat :=
  sum_list ((λ p, length (to_list (add_objects p.2)) + 2) <$> map_to_list (gens w)).
Definition apply_objdeps (self : string) : ST World unit :=
  g ← the_gen self;
  n ← gets total_objects;
  visit_objects (S (length (to_list (add_objects g)) + n)) self (to_list (add_objects g)) [];;
  mret tt.
End Methods.

(** ** Flags of the linker *)

(** [pattern % s], for the conversions [%s] and [%%]; there must be one [%s]. *)
Fixpoint format_go (pattern s : string) (used : bool) : res string :=
  match pattern with
  | EmptyString => if used then Ok "" else Err TypeError
  | String a p =>
      if a =c "%" then
        match p with
        | String b p' =>
            if b =c "s" then if used then Err TypeError else t ← format_go p' s true; Ok (s +:+ t)
            else if b =c "%" then t ← format_go p' s used; Ok (String b t) else Err TypeError
        | EmptyString => Err ValueError
        end
      else t ← format_go p s used; Ok (String a t)
  end.
Definition format1 (pattern s : string) : res string := format_go pattern s false.
(** A variable with a pattern; one that is not set is an empty list, which has no [%]. *)
Definition format_var (e : Env) (k s : string) : res string :=
  match env_get e k with [p] => format1 p s | _ => Err TypeError end.
Definition add_flag (st : string) (e : Env) (i : string) : res Env := f ← format_var e st i; Ok (append_unique "LINKFLAGS" [f] e).
Definition obj_vars (v : Env) : res Env :=
  let marker k e := append_value "LINKFLAGS" (env_get v k) e in
  let set k := is_truthy (env_get v k) in
  let e := if set "FULLSTATIC" then marker "FULLSTATIC_MARKER" v else v in
  e ← res_fold (λ e i, if negb (i =s "") && set "RPATH_ST" then add_flag "RPATH_ST" e i else Ok e) (env_get v "RPATH") e;
  e ← res_fold (λ e i, e ← add_flag "LIBPATH_ST" e i; add_flag "STATICLIBPATH_ST" e i) (env_get v "LIBPATH") e;
  e ← (if set "STATICLIB" then
         k ← res_map (format_var v "STATICLIB_ST") (env_get v "STATICLIB");
         Ok (append_unique "LINKFLAGS" k (marker "STATICLIB_MARKER" e))
       else Ok e);
  let e := if negb (set "FULLSTATIC") && (set "STATICLIB" || set "LIB") then marker "SHLIB_MARKER" e else e in
  k ← res_map (format_var v "LIB_ST") (env_get v "LIB");
  Ok (append_unique "LINKFLAGS" k e).
Definition apply_obj_vars (self : string) : ST World unit :=
  g ← the_gen self;
  e ← lift (obj_vars (env g));
  set_gen self (λ g, with_env g e).

(** ** Posting *)

Definition run_method (post : string → ST World unit) (self : string) (m : method) : ST World unit :=
  match m with
  | apply_core_ => apply_core self
  | apply_link_ => apply_link self
  | apply_lib_vars_ => apply_lib_vars post self
  | apply_objdeps_ => apply_objdeps post self
  | apply_obj_vars_ => apply_obj_vars self
  | other_ => mret tt
  end.
(** The mark is set when the methods have been run. *)
Fixpoint post (fuel : nat) (self : string) : ST World unit :=
  match fuel with
  | 0 => throw OutOfFuel
  | S n =>
      g ← the_gen self;
      if posted g then mret tt
      else for_each (run_method (post n) self) (meths g);; set_gen self with_posted
  end.
End Link.
