(* ===== verification/WafLinkOrder.v ===== *)
(** * Order and completeness of the libraries (tools/wafadmin/Tools/ccroot.py)

    What posting a generator may change and compiles, when it ends, and what the walks through
    the libraries and the object files of a program collect. *)
From S2P Require Import Prelude PyStr PyPath PyState WafLink.

(** ** Weights

    A walk that visits each name once does work for the names that are not seen. *)
Section Weights.
Context {A : Type} (f : A → nat).

Definition unseen_weight (seen : list string) (m : gmap string A) : nat :=
  sum_list ((λ p, if bool_decide (p.1 ∈ seen) then 0 else f p.2) <$> map_to_list m).

Lemma sum_list_perm l l' : l ≡ₚ l' → sum_list l = sum_list l'.
Proof. induction 1; cbn in *; lia. Qed.

Lemma unseen_weight_visit seen m x a :
  x ∉ seen → m !! x = Some a → unseen_weight (seen ++ [x]) m + f a = unseen_weight seen m.
Proof.
  intros Hx Ha. unfold unseen_weight.
  rewrite <-!(sum_list_perm _ _ (fmap_Permutation _ _ _ (map_to_list_delete m x a Ha))). rewrite !fmap_cons. cbn [sum_list sum_list_with fst snd].
  rewrite bool_decide_eq_true_2 by set_solver. rewrite bool_decide_eq_false_2 by done.
  assert (Hm : ∀ p, p ∈ map_to_list (delete x m) → p.1 ≠ x).
  { intros [y b] Hp%elem_of_map_to_list. cbn. intros ->. by rewrite lookup_delete_eq in Hp. }
  induction (map_to_list (delete x m)) as [|p l IH]; [cbn; lia|]. rewrite !fmap_cons. cbn [sum_list sum_list_with].
  assert (Hp := Hm p ltac:(left)). specialize (IH ltac:(intros q Hq; apply Hm; by right)).
  rewrite (bool_decide_ext (p.1 ∈ seen ++ [x]) (p.1 ∈ seen)) by set_solver. cbn in IH |- *. lia.
Qed.
Lemma unseen_weight_le seen m : unseen_weight seen m ≤ unseen_weight [] m.
Proof.
  unfold unseen_weight. induction (map_to_list m) as [|p l IH]; [done|]. rewrite !fmap_cons. cbn [sum_list sum_list_with] in *.
  rewrite (bool_decide_eq_false_2 (p.1 ∈ [])) by set_solver. case_bool_decide; cbn in *; lia.
Qed.
End Weights.

(** Weights that agree on related entries are the same. *)
Lemma unseen_weight_ext {A} (f : A → nat) seen (m m' : gmap string A) :
  (∀ z, f <$> m !! z = f <$> m' !! z) → unseen_weight f seen m = unseen_weight f seen m'.
Proof.
  intros H. unfold unseen_weight.
  assert (Hf : f <$> m = f <$> m') by (apply map_eq; intros z; by rewrite !lookup_fmap).
  assert (Hl : ∀ m : gmap string A, (λ p, if bool_decide (p.1 ∈ seen) then 0 else f p.2) <$> map_to_list m
                = (λ p, if bool_decide (p.1 ∈ seen) then 0 else p.2) <$> map_to_list (f <$> m)).
  { intros m0. rewrite map_to_list_fmap, <-list_fmap_compose. by apply list_fmap_ext. }
  rewrite !Hl, Hf. done.
Qed.

(** ** What stays the same *)

Record same_shape (g g' : Gen) : Prop := {
  ss_features : features g' = features g;
  ss_target : target g' = target g;
  ss_libs : uselib_local g' = uselib_local g;
  ss_objects : to_list (add_objects g') ≡ₚ to_list (add_objects g) }.
(** The generator without the order of its object files, that a walk reverses. *)
Definition core (g : Gen) : Gen := with_objects g (Text "").
Record gen_kept (g g' : Gen) : Prop := {
  gk_shape : same_shape g g';
  gk_core : posted g = true → core g' = core g }.

#[export] Instance same_shape_preorder : PreOrder same_shape.
Proof.
  split; [by split|]. intros g1 g2 g3 [] []. split; try congruence. by etrans.
Qed.
#[export] Instance gen_kept_preorder : PreOrder gen_kept.
Proof.
  split; [by split|]. intros g1 g2 g3 [S1 C1] [S2 C2]. split; [by etrans|]. intros Hp. rewrite <-C1, C2; [done| |done].
  specialize (C1 Hp). apply (f_equal posted) in C1. by rewrite <-Hp.
Qed.

Section Order.
Context (bldpath : string → string) (find_dir : string → string → option string) (target_node : Gen → string).
Context (find_resource : string → string → option string) (class_mappings : gmap string hook).
(** A generator uses those of a lower rank only. *)
Context (rank : string → nat).

Definition ranked (x : string) (g : Gen) : Prop := Forall (λ y, rank y < rank x) (uselib_local g ++ to_list (add_objects g)).
Record wf (w : World) : Prop := {
  wf_ranked : map_Forall ranked (gens w);
  wf_links : ∀ x y g g' t, gens w !! x = Some g → gens w !! y = Some g' → link_task g = Some t → link_task g' = Some t → x = y;
  wf_range : ∀ x g t, gens w !! x = Some g → link_task g = Some t → t < length (tasks w);
  wf_compiled : ∀ x g t, gens w !! x = Some g → t ∈ compiled_tasks (own g) → t < length (tasks w) }.
(** What a generator of rank [r] and those that it posts may change. *)
Record frame (r : nat) (w w' : World) : Prop := {
  fr_gens : ∀ z, option_Forall2 gen_kept (gens w !! z) (gens w' !! z);
  fr_high : ∀ z, r < rank z → gens w' !! z = gens w !! z;
  fr_length : length (tasks w) ≤ length (tasks w');
  fr_outputs : ∀ t, t < length (tasks w) → outputs <$> tasks w' !! t = outputs <$> tasks w !! t;
  fr_link : ∀ z g t, r < rank z → gens w !! z = Some g → link_task g = Some t → tasks w' !! t = tasks w !! t }.

#[export] Instance frame_preorder r : PreOrder (frame r).
Proof.
  split.
  - intros w. by split.
  - intros w1 w2 w3 [G1 H1 L1 O1 K1] [G2 H2 L2 O2 K2]. split.
    + intros z. assert (E1 := G1 z). assert (E2 := G2 z).
      destruct E1 as [g1 g2 E|]; inversion E2; subst; constructor. by etrans.
    + intros z Hz. by rewrite H2, H1.
    + lia.
    + intros t Ht. rewrite O2, O1 by lia. done.
    + intros z g t Hz Hg Ht. rewrite (K2 z g t), (K1 z g t); try done. by rewrite H1.
Qed.
Lemma frame_weaken r r' w w' : r ≤ r' → frame r w w' → frame r' w w'.
Proof. intros Hr [G H L O K]. split; [done|intros z Hz; apply H; lia|done|done|intros z g t Hz; apply K; lia]. Qed.

(** A generator that is being posted. *)
Definition opened (self : string) (w : World) : Prop := wf w ∧ ∃ g, gens w !! self = Some g ∧ posted g = false.

(** ** Single changes *)

Lemma change_gen r x f w g :
  wf w → gens w !! x = Some g → rank x ≤ r → same_shape g (f g) → (posted g = true → core (f g) = core g) →
  (∀ t, link_task (f g) = Some t → link_task g = Some t ∨ t < length (tasks w) ∧ ∀ z g' , gens w !! z = Some g' → link_task g' ≠ Some t) →
  (∀ t, t ∈ compiled_tasks (own (f g)) → t ∈ compiled_tasks (own g) ∨ t < length (tasks w)) →
  wf (mkWorld (alter f x (gens w)) (tasks w)) ∧ frame r w (mkWorld (alter f x (gens w)) (tasks w)).
Proof.
  intros W Hg Hr Hs Hc Ht Hco.
  assert (Hgens : ∀ z, alter f x (gens w) !! z = if bool_decide (z = x) then Some (f g) else gens w !! z).
  { intros z. case_bool_decide as E; [subst; by rewrite lookup_alter_eq, Hg|by rewrite lookup_alter_ne]. }
  split; split; cbn [gens tasks]; try done.
  - intros z g1. rewrite Hgens. case_bool_decide as E; [intros [= <-]; subst|apply (wf_ranked _ W)].
    generalize (wf_ranked _ W _ _ Hg). unfold ranked. rewrite (ss_libs _ _ Hs), !Forall_app, (ss_objects _ _ Hs). done.
  - intros z y g1 g2 t. rewrite !Hgens. intros H1 H2 T1 T2.
    destruct (decide (z = x)) as [E1|E1], (decide (y = x)) as [E2|E2]; [congruence|..];
      rewrite ?(bool_decide_eq_true_2 _ E1), ?(bool_decide_eq_false_2 _ E1), ?(bool_decide_eq_true_2 _ E2), ?(bool_decide_eq_false_2 _ E2) in *;
      simplify_eq.
    + destruct (Ht _ T1) as [Ht'|[_ Ht']]; [by eapply (wf_links _ W _ _ _ _ t)|by destruct (Ht' _ _ H2)].
    + destruct (Ht _ T2) as [Ht'|[_ Ht']]; [by eapply (wf_links _ W _ _ _ _ t)|by destruct (Ht' _ _ H1)].
    + by eapply (wf_links _ W _ _ _ _ t).
  - intros z g1 t. rewrite Hgens. case_bool_decide; [|apply (wf_range _ W)]. intros [= <-] T.
    destruct (Ht _ T) as [?|[? _]]; [by eapply (wf_range _ W)|done].
  - intros z g1 t. rewrite Hgens. case_bool_decide; [|apply (wf_compiled _ W)]. intros [= <-] T.
    destruct (Hco _ T) as [?|?]; [by eapply (wf_compiled _ W)|done].
  - intros z. rewrite Hgens. case_bool_decide as E; [subst; rewrite Hg; constructor; by split|].
    by destruct (gens w !! z); constructor.
  - intros z Hz. rewrite Hgens, bool_decide_eq_false_2; [done|]. intros ->. lia.
Qed.
Lemma change_gen_opened self x f w g :
  opened self w → gens w !! x = Some g → rank x ≤ rank self → same_shape g (f g) → (posted g = true → core (f g) = core g) →
  posted (f g) = posted g →
  (∀ t, link_task (f g) = Some t → link_task g = Some t ∨ t < length (tasks w) ∧ ∀ z g' , gens w !! z = Some g' → link_task g' ≠ Some t) →
  (∀ t, t ∈ compiled_tasks (own (f g)) → t ∈ compiled_tasks (own g) ∨ t < length (tasks w)) →
  opened self (mkWorld (alter f x (gens w)) (tasks w)) ∧ frame (rank self) w (mkWorld (alter f x (gens w)) (tasks w)).
Proof.
  intros [W (g0 & H0 & Hp)] Hg Hr Hs Hc Hp' Ht Hco. destruct (change_gen (rank self) x f w g) as [W' F]; [done..|].
  split; [split; [done|]|done]. cbn [gens]. destruct (decide (x = self)) as [->|Hx].
  - exists (f g). rewrite lookup_alter_eq, Hg. split; [done|congruence].
  - exists g0. by rewrite lookup_alter_ne.
Qed.

Lemma change_task self w t f :
  opened self w → (∃ g, gens w !! self = Some g ∧ link_task g = Some t) ∨ (∀ z g, gens w !! z = Some g → link_task g ≠ Some t) →
  (∀ k, tasks w !! t = Some k → outputs (f k) = outputs k) →
  opened self (mkWorld (gens w) (alter f t (tasks w))) ∧ frame (rank self) w (mkWorld (gens w) (alter f t (tasks w))).
Proof.
  intros [W Ho] Ht Hf. split; [split; [|done]|].
  - split; cbn [gens tasks]; [apply W|apply W|..]; intros x g t' Hx Hg; rewrite length_alter; [by eapply (wf_range _ W)|by eapply (wf_compiled _ W)].
  - split; cbn [gens tasks].
    + done.
    + done.
    + by rewrite length_alter.
    + intros t' _. destruct (decide (t = t')) as [->|]; [|by rewrite list_lookup_alter_ne].
      rewrite list_lookup_alter_eq. destruct (tasks w !! t') eqn:E; [|done]. cbn. by rewrite Hf.
    + intros z g t' Hz Hg Hl. rewrite list_lookup_alter_ne; [done|]. intros ->. destruct Ht as [(g0 & H0 & H1)|Ht]; [|by eapply Ht].
      rewrite (wf_links _ W z self g g0 t') in Hz by done. lia.
Qed.

(** ** What a library passes on *)

Definition static_in (w : World) (v : string) : bool := match gens w !! v with Some g => is_static g | None => false end.
Definition passed_on (w : World) (y : Gen) : list string :=
  if is_shared y then filter (λ v, static_in w v = false) (uselib_local y) else uselib_local y.

Lemma not_static_run ls w :
  not_static ls w = (Ok (filter (λ v, static_in w v = false) ls), w) ∨ not_static ls w = (Err AttributeError, w).
Proof.
  induction ls as [|x ls IH]; [by left|]. cbn [not_static]. rewrite st_bind. unfold gets. destruct (gens w !! x) as [g|] eqn:E; [|by right].
  assert (Hx : static_in w x = is_static g) by (unfold static_in; by rewrite E).
  rewrite st_bind, filter_cons. destruct IH as [-> | ->]; [left|by right].
  destruct (is_static g); [rewrite decide_False by congruence|rewrite decide_True by done]; done.
Qed.
Lemma local_libs_run y w : local_libs y w = (Ok (passed_on w y), w) ∨ local_libs y w = (Err AttributeError, w).
Proof. unfold local_libs, passed_on. destruct (is_shared y); [apply not_static_run|by left]. Qed.
Lemma passed_on_sub w y v : v ∈ passed_on w y → v ∈ uselib_local y.
Proof. unfold passed_on. destruct (is_shared y); [|done]. by intros [_ ?]%list_elem_of_filter. Qed.
Lemma passed_on_length w y : length (passed_on w y) ≤ length (uselib_local y).
Proof. unfold passed_on. destruct (is_shared y); [apply length_filter|done]. Qed.

(** ** Frames *)

Lemma frame_weight (f : Gen → nat) seen w w' r :
  frame r w w' → (∀ g g', same_shape g g' → f g' = f g) → unseen_weight f seen (gens w') = unseen_weight f seen (gens w).
Proof.
  intros F Hf. apply unseen_weight_ext. intros z. destruct (fr_gens _ _ _ F z) as [g g' [Hs _]|]; [|done]. cbn. by rewrite (Hf _ _ Hs).
Qed.
Lemma frame_gen r w w' z g : frame r w w' → gens w !! z = Some g → ∃ g', gens w' !! z = Some g' ∧ gen_kept g g'.
Proof. intros F Hg. assert (H := fr_gens _ _ _ F z). rewrite Hg in H. inversion H; subst. naive_solver. Qed.
Lemma frame_gen_back r w w' z g' : frame r w w' → gens w' !! z = Some g' → ∃ g, gens w !! z = Some g ∧ gen_kept g g'.
Proof. intros F Hg. assert (H := fr_gens _ _ _ F z). rewrite Hg in H. inversion H; subst. naive_solver. Qed.

(** A generator uses the objects of another one. *)
Definition adds_objects (w : World) (x u : string) : Prop := ∃ g, gens w !! x = Some g ∧ u ∈ to_list (add_objects g).
Lemma frame_objects r w w' x u : frame r w w' → adds_objects w' x u ↔ adds_objects w x u.
Proof.
  intros F. split; intros (g & Hg & Hu).
  - destruct (frame_gen_back _ _ _ _ _ F Hg) as (g0 & ? & [[_ _ _ Ho] _]). exists g0. by rewrite <-Ho.
  - destruct (frame_gen _ _ _ _ _ F Hg) as (g0 & ? & [[_ _ _ Ho] _]). exists g0. by rewrite Ho.
Qed.
Lemma adds_objects_rank w x u : wf w → adds_objects w x u → rank u < rank x.
Proof.
  intros W (g & Hg & Hu). assert (Hr := wf_ranked _ W _ _ Hg). unfold ranked in Hr. rewrite Forall_app, !Forall_forall in Hr. by apply Hr.
Qed.

(** ** The methods keep to their frame *)

(** What the methods other than [apply_core] may change. *)
Record frame_self (self : string) (w w' : World) : Prop := {
  fs_frame : frame (rank self) w w';
  fs_own : own <$> gens w' !! self = own <$> gens w !! self }.
#[export] Instance frame_self_preorder self : PreOrder (frame_self self).
Proof. split; [by split|]. intros w1 w2 w3 [F1 O1] [F2 O2]. split; [by etrans|congruence]. Qed.

Section Methods.
Context (self : string) (Q : Prop) (post : string → ST World unit).
Definition fine (e : exn) : Prop := Q → e ≠ OutOfFuel.
#[local] Abbreviation kept := (keeps_at (opened self) (frame_self self) fine).
Hypothesis post_kept : ∀ y, rank y < rank self → keeps wf (frame (rank y)) fine (post y).

Lemma post_opened w y : rank y < rank self → opened self w → kept w (post y).
Proof.
  intros Hy [W (g & Hg & Hp)] r w' E. destruct (post_kept y Hy _ _ _ W E) as (W' & F & He).
  split_and!; [|split; [apply (frame_weaken (rank y)); [lia|done]|by rewrite (fr_high _ _ _ F)]|done].
  split; [done|]. exists g. by rewrite (fr_high _ _ _ F).
Qed.
Lemma the_gen_kept {A} w x (f : Gen → ST World A) :
  opened self w → (∀ g, gens w !! x = Some g → kept w (f g)) → kept w (g ← the_gen x; f g).
Proof.
  intros Ho Hf. unfold the_gen. intros r w' E. rewrite !st_bind in E. cbn in E. destruct (gens w !! x) as [g|] eqn:Hg.
  - by apply (Hf g).
  - injection E as <- <-. split_and!; [done|done|]. by intros e [= <-] _.
Qed.
Lemma set_gen_kept w (f : Gen → Gen) :
  opened self w → (∀ g, core (f g) = core (with_env (with_uselib g (uselib (f g))) (env (f g))) ∧ add_objects (f g) = add_objects g) →
  kept w (set_gen self f).
Proof.
  intros Ho Hf. destruct (Ho) as (W & g & Hg & Hp). destruct (Hf g) as [H1 H2].
  assert (H1' := f_equal features H1). assert (H3 := f_equal target H1). assert (H4 := f_equal uselib_local H1).
  assert (H5 := f_equal own H1). assert (H6 := f_equal link_task H1). assert (H7 := f_equal posted H1). cbn in *.
  edestruct (change_gen_opened self self f w g) as [? ?]; [done|done|lia| | | | | |].
  - split; [done..|]. by rewrite H2.
  - congruence.
  - done.
  - intros t. rewrite H6. by left.
  - intros t. rewrite H5. by left.
  - apply keeps_at_modify; [done|]. split; [done|]. cbn. by rewrite lookup_alter_eq, Hg; cbn; rewrite H5.
Qed.
Lemma set_task_kept w t f :
  opened self w → (∃ g, gens w !! self = Some g ∧ link_task g = Some t) → (∀ k, outputs (f k) = outputs k) → kept w (set_task t f).
Proof.
  intros Ho Ht Hf. destruct (change_task self w t f) as [? ?]; [done|by left|done|]. by apply keeps_at_modify; [|split].
Qed.
Lemma throw_kept {A} w e : opened self w → e ≠ OutOfFuel → kept w (throw e : ST World A).
Proof. intros Ho He. apply keeps_at_throw; [apply _|done|]. by intros ?. Qed.

Lemma use_link_kept w y : opened self w → kept w (use_link bldpath self y).
Proof.
  intros Ho. unfold use_link. destruct (link_task y) as [t|]; [|by apply keeps_at_ret; [apply _|]].
  apply keeps_at_bind; [apply _|by apply set_gen_kept|]. intros _ w1 O1 _ _. apply the_gen_kept; [done|]. intros g Hg.
  destruct (link_task g) as [st|] eqn:Hl; [|by apply throw_kept]. apply keeps_at_gets.
  apply keeps_at_bind; [apply _|apply set_task_kept; [done|by exists g|done]|]. intros _ w2 O2 _ _.
  destruct (task_outputs _ _); [by apply throw_kept|by apply set_gen_kept].
Qed.
Lemma export_dirs_kept lib t dirs w : opened self w → kept w (export_dirs find_dir self lib t dirs).
Proof.
  revert w. induction dirs as [|x dirs IH]; intros w Ho; cbn [export_dirs]; [by apply keeps_at_ret; [apply _|]|].
  destruct (find_dir lib x); [|by apply throw_kept]. apply keeps_at_bind; [apply _|by apply set_gen_kept|]. intros _ w1 O1 _ _. by apply IH.
Qed.
Lemma add_uselibs_kept w y : opened self w → kept w (set_gen self (λ g, fold_left add_uselib (uselib y) g)).
Proof.
  intros Ho. apply set_gen_kept; [done|]. intros g. generalize (uselib y). intros l. revert g.
  assert (H : ∀ g v, ∃ u, add_uselib g v = with_uselib g u) by (intros g v; unfold add_uselib; case_match; [exists (uselib g); by destruct g|by eexists]).
  induction l as [|v l IH]; intros g; cbn [fold_left]; [by destruct g|]. destruct (H g v) as [u ->]. destruct (IH (with_uselib g u)) as [H1 ->]. by rewrite H1.
Qed.

#[local] Abbreviation libs_weight := (unseen_weight (λ g, length (uselib_local g))).
Lemma visit_libs_kept fuel : ∀ tmp seen w,
  opened self w → Forall (λ y, rank y < rank self) tmp → (Q → length tmp + libs_weight seen (gens w) < fuel) →
  kept w (visit_libs bldpath find_dir post fuel self tmp seen).
Proof.
  induction fuel as [|fuel IH]; intros tmp seen w Ho Ht Hfuel; cbn [visit_libs].
  { apply keeps_at_throw; [apply _|done|]. intros HQ. by apply Hfuel in HQ; lia. }
  destruct tmp as [|lib tmp]; [by apply keeps_at_ret; [apply _|]|]. apply Forall_cons in Ht as [Hlib Ht]. cbn [length] in Hfuel.
  case_bool_decide as Hseen; [apply IH; [done..|intros HQ; apply Hfuel in HQ; lia]|].
  apply keeps_at_gets. destruct (gens w !! lib) as [y0|] eqn:Hy0; [|by apply throw_kept].
  apply keeps_at_bind; [apply _|by apply post_opened|]. intros _ w1 O1 F1 _. apply the_gen_kept; [done|]. intros y Hy.
  destruct (local_libs_run y w1) as [E|E].
  2: { intros r w' Hr. rewrite st_bind, E in Hr. injection Hr as <- <-. split_and!; [done|done|]. by intros e [= <-]. }
  apply keeps_at_bind; [apply _|intros r w' Hr; rewrite E in Hr; by injection Hr as <- <-|]. intros more w1' O1' F1' E'.
  rewrite E in E'. injection E' as <- <-.
  apply keeps_at_bind; [apply _|by apply use_link_kept|]. intros _ w2 O2 F2 _.
  apply keeps_at_bind; [apply _|by apply add_uselibs_kept|]. intros _ w3 O3 F3 _.
  apply keeps_at_bind; [apply _|by apply export_dirs_kept|]. intros _ w4 O4 F4 _.
  apply IH; [done| |].
  - apply Forall_app. split; [done|]. apply Forall_forall. intros v Hv%passed_on_sub.
    assert (Hr := wf_ranked _ (proj1 O1) _ _ Hy). unfold ranked in Hr. rewrite Forall_app, !Forall_forall in Hr. apply Hr in Hv. lia.
  - intros HQ. apply Hfuel in HQ. assert (F : frame_self self w w4) by (etrans; [exact F1|etrans; [exact F2|by etrans]]).
    rewrite (frame_weight (λ g, length (uselib_local g)) _ _ _ _ (fs_frame _ _ _ F)) by (intros g g' []; congruence).
    rewrite <-(unseen_weight_visit (λ g, length (uselib_local g)) seen (gens w) lib y0) in HQ by done.
    destruct (frame_gen _ _ _ _ _ (fs_frame _ _ _ F1) Hy0) as (y' & Hy' & [[_ _ HL _] _]). assert (y' = y) as -> by congruence.
    rewrite length_app. generalize (passed_on_length w1 y). rewrite HL. lia.
Qed.
Lemma apply_lib_vars_kept w : opened self w → kept w (apply_lib_vars bldpath find_dir post self).
Proof.
  intros Ho. unfold apply_lib_vars. apply the_gen_kept; [done|]. intros g Hg. apply keeps_at_gets.
  apply keeps_at_bind; [apply _|apply visit_libs_kept; [done| |]|].
  - assert (Hr := wf_ranked _ (proj1 Ho) _ _ Hg). by apply Forall_app in Hr as [? _].
  - intros _. unfold total_uses, unseen_weight. apply Nat.lt_succ_r, Nat.eq_le_incl. f_equal.
  - intros _ w1 O1 _ _. by apply set_gen_kept.
Qed.

(** What is on the stack above a generator whose objects have been put there has a
    lower rank, and its objects that are not seen are there. *)
Definition stacked (w : World) (names seen expanded : list string) : Prop :=
  ∀ e, e ∈ expanded → e ∉ seen → ∃ l1 l2, names = l1 ++ e :: l2 ∧ Forall (λ u, rank u < rank e) l1 ∧
    ∀ u, adds_objects w e u → u ∉ seen → u ∈ l1.
Lemma push_new_rev seen names lst : push_new seen names lst = reverse (filter (λ u, u ∉ seen) lst) ++ names.
Proof.
  unfold push_new. revert names. induction lst as [|u lst IH]; intros names; [done|]. cbn [fold_left]. rewrite IH, filter_cons.
  destruct (decide (u ∉ seen)) as [Hu|Hu].
  - rewrite bool_decide_eq_false_2 by done. by rewrite reverse_cons, <-app_assoc.
  - by rewrite bool_decide_eq_true_2 by (by apply dec_stable).
Qed.
Lemma stacked_pop w x rest seen expanded : x ∈ seen → stacked w (x :: rest) seen expanded → stacked w rest seen expanded.
Proof.
  intros Hx H e He Hs. destruct (H e He Hs) as ([|y l1] & l2 & [= -> ->] & Hl & Hu); [done|].
  exists l1, l2. apply Forall_cons in Hl as [_ Hl]. split_and!; [done|done|]. intros u Hu1 Hu2. assert (Hu3 := Hu u Hu1 Hu2). set_solver.
Qed.
Lemma stacked_process w x rest seen expanded :
  stacked w (x :: rest) seen expanded → stacked w (x :: rest) (seen ++ [x]) expanded.
Proof.
  intros H e He Hs. destruct (H e He ltac:(set_solver)) as (l1 & l2 & -> & Hl & Hu). exists l1, l2. split_and!; [done|done|].
  intros u Hu1 Hu2. apply Hu; [done|set_solver].
Qed.
Lemma stacked_head w x rest seen expanded u :
  stacked w (x :: rest) seen expanded → x ∈ expanded → x ∉ seen → adds_objects w x u → u ∈ seen.
Proof.
  intros H Hx Hs Hu. destruct (decide (u ∈ seen)) as [|Hn]; [done|]. destruct (H x Hx Hs) as ([|y l1] & l2 & E & Hl & Hl1).
  - by destruct (not_elem_of_nil u (Hl1 u Hu Hn)).
  - injection E as <- _. apply Forall_cons in Hl as [Hl _]. lia.
Qed.
Lemma stacked_expand w x rest seen expanded lst :
  wf w → x ∉ seen → (∀ u, u ∈ lst ↔ adds_objects w x u) → Exists (λ u, u ∉ seen) lst → stacked w (x :: rest) seen expanded →
  (x ∉ expanded) ∧ stacked w (push_new seen (x :: rest) lst) seen (expanded ++ [x]).
Proof.
  intros W Hxs Hlst Hex H. assert (Hx : x ∉ expanded).
  { intros Hx. apply Exists_exists in Hex as (u & Hu1 & Hu2). apply Hu2, (stacked_head w x rest seen expanded); [done..|]. by apply Hlst. }
  split; [done|]. rewrite push_new_rev.
  intros e [He | ->%list_elem_of_singleton]%elem_of_app Hs.
    + destruct (H e He Hs) as ([|y l1] & l2 & [= -> ->] & Hl & Hu); [done|].
      eexists (_ ++ y :: l1), l2. split_and!; [by rewrite <-app_assoc| |].
      * apply Forall_app. split; [|done]. apply Forall_cons in Hl as [Hl _]. apply Forall_forall. intros u.
        rewrite elem_of_reverse, list_elem_of_filter, Hlst. intros [_ Hu2%(adds_objects_rank w)]; [lia|done].
      * intros u Hu1 Hu2. apply elem_of_app. right. by apply Hu.
    + exists (reverse (filter (λ u, u ∉ seen) lst)), rest. split_and!; [done| |].
      * apply Forall_forall. intros u. rewrite elem_of_reverse, list_elem_of_filter, Hlst. intros [_ Hu]. by apply (adds_objects_rank w).
      * intros u Hu1 Hu2. rewrite elem_of_reverse, list_elem_of_filter, Hlst. done.
Qed.
Lemma stacked_frame r w w' names seen expanded : frame r w w' → stacked w names seen expanded → stacked w' names seen expanded.
Proof.
  intros F H e He Hs. destruct (H e He Hs) as (l1 & l2 & ? & ? & Hu). exists l1, l2. split_and!; [done|done|].
  intros u Hu1. apply Hu. by rewrite <-(frame_objects r w w').
Qed.
Lemma reverse_objects_kept w x y :
  opened self w → gens w !! x = Some y → rank x < rank self →
  kept w (set_gen x (λ y, with_objects y (reversed_in_place (add_objects y)))).
Proof.
  intros Ho Hy Hx. edestruct (change_gen_opened self x (λ y, with_objects y (reversed_in_place (add_objects y))) w y) as [? ?];
    [done|done|lia| | | | | |apply keeps_at_modify; [done|split; [done|]]]; cbn.
  - split; try done. cbn. destruct (add_objects y); [done|]. cbn. by rewrite reverse_Permutation.
  - done.
  - done.
  - intros t. by left.
  - intros t. by left.
  - rewrite lookup_alter_ne; [done|]. intros ->. lia.
Qed.
Lemma unseen_exists (seen lst : list string) : existsb (λ u, negb (bool_decide (u ∈ seen))) lst = true ↔ Exists (λ u, u ∉ seen) lst.
Proof.
  rewrite existsb_exists, Exists_exists. setoid_rewrite <-list_elem_of_In. split; intros (u & ? & Hu); exists u; (split; [done|]).
  - by apply negb_true_iff, bool_decide_eq_false in Hu.
  - by apply negb_true_iff, bool_decide_eq_false.
Qed.

Definition objects_left (w : World) (names seen expanded : list string) : nat :=
  length names + unseen_weight (λ g, length (to_list (add_objects g)) + 1) expanded (gens w) + unseen_weight (λ _, 1) seen (gens w).
Lemma objects_left_frame r w w' names seen expanded : frame r w w' → objects_left w' names seen expanded = objects_left w names seen expanded.
Proof.
  intros F. unfold objects_left. rewrite (frame_weight (λ g, _) expanded _ _ _ F), (frame_weight (λ _, 1) seen _ _ _ F); [done|done|].
  intros g g' []. by rewrite ss_objects0.
Qed.
(** The objects of a dependency go to the link. *)
Lemma take_objects_kept w (y : Gen) :
  opened self w →
  kept w (take_objects self y).
Proof.
  intros Ho. unfold take_objects. apply the_gen_kept; [done|]. intros g Hg. apply keeps_at_gets.
  destruct (link_task g) as [st|] eqn:Hl, (compiled_tasks (own y)).
  - by apply keeps_at_ret; [apply _|].
  - apply set_task_kept; [done|by exists g|done].
  - by apply keeps_at_ret; [apply _|].
  - by apply throw_kept.
Qed.
Lemma visit_objects_kept fuel : ∀ names seen expanded w,
  opened self w → Forall (λ y, rank y < rank self) names → stacked w names seen expanded →
  (Q → objects_left w names seen expanded < fuel) → kept w (visit_objects post fuel self names seen).
Proof.
  induction fuel as [|fuel IH]; intros names seen expanded w Ho Hr Hst Hfuel; cbn [visit_objects].
  { apply keeps_at_throw; [apply _|done|]. intros HQ. by apply Hfuel in HQ; lia. }
  destruct names as [|x rest]; [by apply keeps_at_ret; [apply _|]|]. apply Forall_cons in Hr as [Hx Hr].
  case_bool_decide as Hseen.
  { apply (IH _ _ expanded); [done|done|by eapply stacked_pop|]. intros HQ. apply Hfuel in HQ. unfold objects_left in *. cbn in HQ. lia. }
  apply keeps_at_gets. destruct (gens w !! x) as [y|] eqn:Hy; [|by apply throw_kept].
  apply keeps_at_bind; [apply _|apply (reverse_objects_kept w x y); [done|done|done]|]. intros _ w1 O1 F1 _.
  assert (Hobjs : ∀ u, u ∈ reverse (to_list (add_objects y)) ↔ adds_objects w x u).
  { intros u. rewrite elem_of_reverse. split; [by exists y|]. intros (y' & ? & ?). by simplify_eq. }
  destruct (existsb _ _) eqn:Hex.
  - apply unseen_exists in Hex. destruct (stacked_expand w x rest seen expanded _ (proj1 Ho) Hseen Hobjs Hex Hst) as [Hexp Hst'].
    apply (IH _ _ (expanded ++ [x])); [done| |by apply (stacked_frame _ _ _ _ _ _ (fs_frame _ _ _ F1))|].
    + rewrite push_new_rev. apply Forall_app. split; [|by constructor]. apply Forall_forall. intros u.
      rewrite elem_of_reverse, list_elem_of_filter, Hobjs. intros [_ Hu%(adds_objects_rank w)]; [lia|apply Ho].
    + intros HQ. apply Hfuel in HQ. rewrite (objects_left_frame _ _ _ _ _ _ (fs_frame _ _ _ F1)). unfold objects_left in *.
      rewrite <-(unseen_weight_visit _ expanded (gens w) x y Hexp Hy) in HQ. rewrite push_new_rev, length_app, length_reverse.
      generalize (length_filter (λ u, u ∉ seen) (reverse (to_list (add_objects y)))). rewrite length_reverse. lia.
  - apply keeps_at_bind; [apply _|by apply post_opened|]. intros _ w2 O2 F2 _. apply the_gen_kept; [done|]. intros y' _.
    apply keeps_at_bind; [apply _|by apply take_objects_kept|]. intros _ w3 O3 F3 _.
    assert (F' : frame_self self w w3) by (etrans; [exact F1|by etrans]). assert (F := fs_frame _ _ _ F').
    apply (IH _ _ expanded); [done|by constructor| |].
    + apply (stacked_frame (rank self) w w3); [exact F|by apply stacked_process].
    + intros HQ. apply Hfuel in HQ. rewrite (objects_left_frame _ _ _ _ _ _ F). unfold objects_left in *.
      rewrite <-(unseen_weight_visit _ seen (gens w) x y Hseen Hy) in HQ. lia.
Qed.
Lemma apply_objdeps_kept w : opened self w → kept w (apply_objdeps post self).
Proof.
  intros Ho. unfold apply_objdeps. apply the_gen_kept; [done|]. intros g Hg. apply keeps_at_gets.
  apply keeps_at_bind; [apply _|apply (visit_objects_kept _ _ _ []); [done| | |]|intros; by apply keeps_at_ret; [apply _|]].
  - assert (Hr := wf_ranked _ (proj1 Ho) _ _ Hg). by apply Forall_app in Hr as [_ ?].
  - by intros e He%elem_of_nil.
  - intros _. unfold objects_left, total_objects, unseen_weight. induction (map_to_list (gens w)) as [|p l IH]; [cbn; lia|].
    rewrite !fmap_cons. cbn [sum_list sum_list_with] in *. rewrite !(bool_decide_eq_false_2 (p.1 ∈ [])) by set_solver. cbn in IH |- *. lia.
Qed.

Lemma new_task_kept w ins outs : opened self w → kept w (create_task ins outs).
Proof.
  intros [W Ho]. apply keeps_at_gets. apply keeps_at_bind; [apply _| |intros _ w1 O1 _ _; by apply keeps_at_ret; [apply _|]].
  apply keeps_at_modify; [split; [|done]|]; split; cbn [gens tasks]; try done; try apply W.
  - intros x g t Hg Ht. rewrite length_app. generalize (wf_range _ W _ _ _ Hg Ht). lia.
  - intros x g t Hg Ht. rewrite length_app. generalize (wf_compiled _ W _ _ _ Hg Ht). lia.
  - split; try done; cbn [tasks].
    + rewrite length_app. lia.
    + intros t Ht. by rewrite lookup_app_l.
    + intros z g t _ Hg Ht. rewrite lookup_app_l; [done|]. by eapply (wf_range _ W).
Qed.
(** The number of a new task is below the number of tasks, and no generator links with it. *)
Lemma create_task_new w w' ins outs n :
  wf w → create_task ins outs w = (Ok n, w') →
  n = length (tasks w) ∧ w' = mkWorld (gens w) (tasks w ++ [mkTask ins outs [] []]) ∧ ∀ z g, gens w' !! z = Some g → link_task g ≠ Some n.
Proof.
  intros W [= <- <-]. split_and!; [done|done|]. intros z g Hg Ht. generalize (wf_range _ W _ _ _ Hg Ht). lia.
Qed.
Lemma apply_link_kept w : opened self w → kept w (apply_link target_node self).
Proof.
  intros Ho. unfold apply_link. apply the_gen_kept; [done|]. intros g0 Hg0. apply keeps_at_gets.
  destruct (forallb _ _); (apply keeps_at_bind; [apply _|by apply new_task_kept|]); intros n w1 O1 F1 E1; [|by apply throw_kept].
  destruct (create_task_new _ _ _ _ _ (proj1 Ho) E1) as (-> & -> & Hfree). destruct (Ho) as (_ & g & Hg & Hp).
  edestruct (change_gen_opened self self (λ g, with_link g (Some (length (tasks w)))) _ g O1 Hg) as [? ?];
    [lia|by split|congruence|done| |by left|apply keeps_at_modify; [done|split; [done|]]].
  - intros t [= <-]. right. split; [cbn; rewrite length_app; cbn; lia|exact Hfree].
  - cbn. by rewrite lookup_alter_eq, Hg.
Qed.
Lemma bind_fuel {A B} (r : res A) (f : A → res B) :
  r ≠ Err OutOfFuel → (∀ a, f a ≠ Err OutOfFuel) → (x ← r; f x) ≠ Err OutOfFuel.
Proof. intros Hr Hf [?|(a & _ & ?)]%res_bind_Err; [done|by apply (Hf a)]. Qed.
Lemma fold_fuel {A B} (f : B → A → res B) l acc : (∀ b x, f b x ≠ Err OutOfFuel) → res_fold f l acc ≠ Err OutOfFuel.
Proof. intros Hf. revert acc. induction l as [|x l IH]; intros acc; cbn [res_fold]; [done|by apply bind_fuel]. Qed.
Lemma map_fuel {A B} (f : A → res B) l : (∀ x, f x ≠ Err OutOfFuel) → res_map f l ≠ Err OutOfFuel.
Proof. intros Hf. induction l as [|x l IH]; cbn [res_map]; [done|]. apply bind_fuel; [done|]. intros y. by apply bind_fuel. Qed.
Lemma format_go_fuel s used p : format_go p s used ≠ Err OutOfFuel ∧ ∀ a, format_go (String a p) s used ≠ Err OutOfFuel.
Proof.
  revert used. induction p as [|b p IH]; intros used.
  - split; [by destruct used|]. intros a. cbn [format_go]. case_match; [done|apply bind_fuel; [by destruct used|done]].
  - split; [apply IH|]. intros a. cbn [format_go]. case_match; [|apply bind_fuel; [apply IH|done]].
    case_match; [case_match; [done|apply bind_fuel; [apply IH|done]]|]. case_match; [apply bind_fuel; [apply IH|done]|done].
Qed.
Lemma format_var_fuel e k s : format_var e k s ≠ Err OutOfFuel.
Proof. unfold format_var, format1. destruct (env_get e k) as [|p [|? ?]]; [done|apply format_go_fuel|done]. Qed.
Lemma obj_vars_fuel v : obj_vars v ≠ Err OutOfFuel.
Proof.
  assert (Hf : ∀ st e i, add_flag st e i ≠ Err OutOfFuel) by (intros; apply bind_fuel; [apply format_var_fuel|done]).
  assert (Hm : ∀ k l, res_map (format_var v k) l ≠ Err OutOfFuel) by (intros; apply map_fuel; intros; apply format_var_fuel).
  unfold obj_vars. repeat (apply bind_fuel; [|intros]); try apply fold_fuel; intros; try case_match; try apply Hf; try apply Hm; try done.
  - apply bind_fuel; [apply Hf|intros; apply Hf].
  - apply bind_fuel; [apply Hm|done].
Qed.
Lemma apply_obj_vars_kept w : opened self w → kept w (apply_obj_vars self).
Proof.
  intros Ho. apply the_gen_kept; [done|]. intros g Hg. apply keeps_at_bind; [apply _| |].
  - intros r w' [= <- <-]. split_and!; [done|done|]. intros e He _ ->. by apply obj_vars_fuel in He.
  - intros e w1 O1 _ _. by apply set_gen_kept.
Qed.

(** [apply_core] changes what a generator has compiled. *)
#[local] Abbreviation changed := (keeps_at (opened self) (frame (rank self)) fine).
Lemma kept_changed {A} w (m : ST World A) : kept w m → changed w m.
Proof. intros Hm r w' E. by destruct (Hm r w' E) as (? & [? _] & ?). Qed.
Lemma the_gen_changed {A} w (f : Gen → ST World A) :
  opened self w → (∀ g, gens w !! self = Some g → changed w (f g)) → changed w (g ← the_gen self; f g).
Proof.
  intros (W & g & Hg & Hp) Hf r w'. unfold the_gen, gets. rewrite !st_bind, Hg. cbn. by apply Hf.
Qed.
Lemma set_own_changed w f :
  opened self w → (∀ g, posted (f g) = posted g ∧ link_task (f g) = link_task g ∧ same_shape g (f g)) →
  (∀ g t, t ∈ compiled_tasks (own (f g)) → t ∈ compiled_tasks (own g) ∨ t < length (tasks w)) → changed w (set_gen self f).
Proof.
  intros Ho Hf Hc. destruct (Ho) as (W & g & Hg & Hp). destruct (Hf g) as (H1 & H2 & H3).
  edestruct (change_gen_opened self self f w g) as [? ?]; [done|done|lia|done|congruence|done| |apply Hc|by apply keeps_at_modify].
  intros t. rewrite H2. by left.
Qed.
Lemma c_hook_changed w node : opened self w → changed w (c_hook self node).
Proof.
  intros Ho. apply the_gen_changed; [done|]. intros g Hg.
  apply keeps_at_bind; [apply _|by apply kept_changed, new_task_kept|]. intros n w1 O1 F1 [= <- <-].
  apply set_own_changed; [done|by repeat split|]. intros g0 t [? | ->%list_elem_of_singleton]%elem_of_app; [by left|right].
  cbn. rewrite length_app. cbn. lia.
Qed.
Lemma core_file_changed w f : opened self w → changed w (core_file find_resource class_mappings self f).
Proof.
  intros Ho. apply the_gen_changed; [done|]. intros g Hg. destruct (get_hook _ _ _) as [h|].
  - apply kept_changed. destruct (is_compiler h); [by apply throw_kept|by apply keeps_at_ret; [apply _|]].
  - destruct (find_resource _ _); [|by apply kept_changed, throw_kept]. apply set_own_changed; [done|by repeat split|by left].
Qed.
Lemma core_node_changed w node : opened self w → changed w (core_node class_mappings self node).
Proof.
  intros Ho. apply the_gen_changed; [done|]. intros g Hg. destruct (get_hook _ _ _) as [h|]; [|by apply kept_changed, throw_kept].
  destruct (is_compiler h); [by apply c_hook_changed|by apply kept_changed, keeps_at_ret; [apply _|]].
Qed.
Lemma apply_core_changed w : opened self w → changed w (apply_core find_resource class_mappings self).
Proof.
  intros Ho. apply the_gen_changed; [done|]. intros g Hg. apply keeps_at_bind; [apply _| |].
  - apply keeps_at_keeps; [done|]. apply keeps_for_each; [apply _|]. intros f _ w1 r w1' O1. by apply core_file_changed.
  - intros _ w1 O1 _ _. apply the_gen_changed; [done|]. intros g1 Hg1.
    apply keeps_at_keeps; [done|]. apply keeps_for_each; [apply _|]. intros f _ w2 r w2' O2. by apply core_node_changed.
Qed.
Abbreviation running := (run_method bldpath find_dir target_node find_resource class_mappings post self).
Lemma run_method_self w m : opened self w → m ≠ apply_core_ → kept w (running m).
Proof.
  intros Ho Hm. destruct m; cbn [run_method]; [done|
    by apply apply_link_kept|by apply apply_lib_vars_kept|by apply apply_objdeps_kept|by apply apply_obj_vars_kept|by apply keeps_at_ret; [apply _|]].
Qed.
Lemma run_method_kept w m : opened self w → changed w (running m).
Proof.
  intros Ho. destruct (decide (m = apply_core_)) as [->|Hm]; [by apply apply_core_changed|by apply kept_changed, run_method_self].
Qed.
End Methods.

(** What posting changes, and when its fuel is enough. *)
Lemma post_kept n x : keeps wf (frame (rank x)) (fine (rank x < n)) (post bldpath find_dir target_node find_resource class_mappings n x).
Proof.
  revert x. induction n as [|n IH]; intros x; cbn [post].
  { apply keeps_throw; [apply _|]. intros Hn. lia. }
  assert (Hsub : ∀ y, rank y < rank x → keeps wf (frame (rank y)) (fine (rank x < S n)) (post bldpath find_dir target_node find_resource class_mappings n y)).
  { intros y Hy w r w' W E. destruct (IH y w r w' W E) as (? & ? & He). split_and!; [done|done|]. intros e Hr Hn. apply (He e Hr). lia. }
  intros w r w' W. rewrite st_bind. unfold the_gen, gets. rewrite st_bind. destruct (gens w !! x) as [g|] eqn:Hg.
  2: { intros [= <- <-]. split_and!; [done|done|]. by intros e [= <-] _. }
  cbn [mret ST_ret]. destruct (posted g) eqn:Hp; [intros [= <- <-]; by split_and!|].
  assert (Hmeths : keeps (opened x) (frame (rank x)) (fine (rank x < S n)) (for_each (run_method bldpath find_dir target_node find_resource class_mappings (post bldpath find_dir target_node find_resource class_mappings n) x) (meths g))).
  { apply keeps_for_each; [apply _|]. intros m _ w1 r1 w1' O1. by apply run_method_kept. }
  rewrite st_bind. destruct (for_each _ _ w) as [[[]|e] w1] eqn:E; destruct (Hmeths _ _ _ (conj W (ex_intro _ g (conj Hg Hp))) E) as ([W1 (g1 & Hg1 & Hp1)] & F1 & He).
  - intros [= <- <-]. destruct (change_gen (rank x) x with_posted w1 g1) as [W2 F2]; [done|done|done|by split|congruence|intros t; by left|intros t; by left|].
    split_and!; [done|by etrans|by intros e' [=]].
  - intros [= <- <-]. split_and!; [apply W1|done|]. intros e' [= <-]. by apply He.
Qed.


(** ** What is collected from the libraries *)

Record Collected := mkCollected { c_task : nat; c_after : list nat; c_nodes : list string; c_static : list string; c_shared : list string }.
Definition collected (self : string) (w : World) : option Collected :=
  g ← gens w !! self; t ← link_task g; k ← tasks w !! t;
  Some (mkCollected t (run_after k) (dep_nodes k) (env_get (env g) "STATICLIB") (env_get (env g) "LIB")).
(** One library. *)
Definition link_lib (w : World) (c : Collected) (v : string) : Collected :=
  match gens w !! v with
  | Some y =>
      match link_task y with
      | Some t =>
          mkCollected (c_task c) (c_after c ++ [t]) (c_nodes c ++ task_outputs w t)
            (if is_static y then c_static c ++ [link_name y] else c_static c)
            (if negb (is_static y) && is_shared y then c_shared c ++ [link_name y] else c_shared c)
      | None => c
      end
  | None => c
  end.
Definition is_posted (w : World) (v : string) : Prop := ∃ y, gens w !! v = Some y ∧ posted y = true.

Lemma core_eq g g' : core g = core g' → features g = features g' ∧ target g = target g' ∧ link_task g = link_task g' ∧ posted g = posted g' ∧ own g = own g'.
Proof. destruct g, g'. unfold core, with_objects. cbn. by intros [= -> -> -> -> -> -> -> -> -> ->]. Qed.
Lemma posted_frame r w w' v : frame r w w' → is_posted w v → is_posted w' v.
Proof.
  intros F (y & Hy & Hp). destruct (frame_gen _ _ _ _ _ F Hy) as (y' & Hy' & [_ Hc]). exists y'. split; [done|].
  destruct (core_eq _ _ (Hc Hp)) as (_ & _ & _ & -> & _). done.
Qed.
Lemma link_lib_frame r w w' c v : wf w → frame r w w' → is_posted w v → link_lib w' c v = link_lib w c v.
Proof.
  intros W F (y & Hy & Hp). destruct (frame_gen _ _ _ _ _ F Hy) as (y' & Hy' & [_ Hc]). unfold link_lib. rewrite Hy, Hy'.
  destruct (core_eq _ _ (Hc Hp)) as (Hf & Ht & -> & _). unfold is_static, is_shared, link_name. rewrite Hf, Ht.
  destruct (link_task y) as [t|] eqn:E; [|done]. unfold task_outputs. by rewrite (fr_outputs _ _ _ F) by (by eapply (wf_range _ W)).
Qed.
Lemma link_libs_frame r w w' vs c :
  wf w → frame r w w' → Forall (is_posted w) vs → fold_left (link_lib w') vs c = fold_left (link_lib w) vs c.
Proof.
  intros W F. revert c. induction vs as [|v vs IH]; intros c; [done|]. intros [Hv Hvs]%Forall_cons. cbn [fold_left].
  by rewrite (link_lib_frame _ _ _ _ _ W F Hv), IH.
Qed.

(** What changes [self] only leaves the rest. *)
Definition only_self (self : string) (w w' : World) : Prop :=
  (∀ z, z ≠ self → gens w' !! z = gens w !! z) ∧ ∀ t, outputs <$> tasks w' !! t = outputs <$> tasks w !! t.
#[export] Instance only_self_preorder self : PreOrder (only_self self).
Proof.
  split; [by intros w|]. intros w1 w2 w3 [G1 T1] [G2 T2]. split; [intros z Hz; by rewrite G2, G1|intros t; by rewrite T2].
Qed.
Lemma set_gen_only self f w w' r : set_gen self f w = (r, w') → only_self self w w'.
Proof. intros [= _ <-]. split; cbn; [|done]. intros z Hz. by rewrite lookup_alter_ne. Qed.
(** A change of [self] that leaves what is collected. *)
Lemma set_gen_collected self f w w' r :
  set_gen self f w = (r, w') →
  (∀ g, link_task (f g) = link_task g ∧ env_get (env (f g)) "STATICLIB" = env_get (env g) "STATICLIB" ∧ env_get (env (f g)) "LIB" = env_get (env g) "LIB") →
  collected self w' = collected self w.
Proof.
  intros [= _ <-] Hf. unfold collected. cbn [gens tasks]. rewrite lookup_alter_eq. destruct (gens w !! self) as [g|]; [|done]. cbn.
  destruct (Hf g) as (-> & -> & ->). done.
Qed.
Lemma env_get_insert_ne (e : Env) k k' l : k ≠ k' → env_get (<[k := l]> e) k' = env_get e k'.
Proof. intros Hk. unfold env_get. f_equal. by apply lookup_insert_ne. Qed.
Lemma env_get_insert (e : Env) k l : env_get (<[k := l]> e) k = l.
Proof. unfold env_get, Env. rewrite (lookup_insert_eq (M := gmap string)). done. Qed.

Lemma use_link_collected self y w w' c :
  collected self w = Some c → use_link bldpath self y w = (Ok tt, w') →
  only_self self w w' ∧ collected self w' = Some
    (match link_task y with
     | Some t =>
          mkCollected (c_task c) (c_after c ++ [t]) (c_nodes c ++ task_outputs w t)
            (if is_static y then c_static c ++ [link_name y] else c_static c)
            (if negb (is_static y) && is_shared y then c_shared c ++ [link_name y] else c_shared c)
     | None => c
     end).
Proof.
  intros Hc. unfold use_link. destruct (link_task y) as [t|]; [|intros [= <-]; by split].
  unfold collected in Hc.
  destruct (gens w !! self) as [g|] eqn:Hg; [|done]. cbn in Hc. destruct (link_task g) as [st0|] eqn:Hl; [|done]. cbn in Hc.
  destruct (tasks w !! st0) as [k|] eqn:Hk; [|done]. injection Hc as <-. cbn [c_task c_after c_nodes c_static c_shared].
  rewrite st_bind. unfold set_gen at 1, modify at 1. unfold the_gen. rewrite !st_bind. unfold gets at 1. cbn [gens].
  rewrite lookup_alter_eq, Hg. cbn [fmap option_fmap option_map mret ST_ret]. cbn [with_env link_task]. rewrite Hl.
  rewrite !st_bind. unfold gets at 1. cbn [gens tasks]. change (task_outputs _ t) with (task_outputs w t).
  set (w2 := mkWorld (alter (λ g, with_env g (lib_flags y (env g))) self (gens w))
    (alter (λ k, mkTask (inputs k) (outputs k) (run_after k ++ [t]) (dep_nodes k ++ task_outputs w t)) st0 (tasks w))).
  assert (H2 : only_self self w w2).
  { split; cbn [gens tasks w2]; [intros z Hz; by rewrite lookup_alter_ne|]. intros t'. destruct (decide (st0 = t')) as [<-|Ht].
    - by rewrite list_lookup_alter_eq, Hk.
    - by rewrite list_lookup_alter_ne. }
  rewrite st_bind. unfold set_task, modify. cbn [gens tasks]. fold w2.
  destruct (task_outputs w t) as [|o os] eqn:Ho; [done|]. intros Hr. split; [etrans; [exact H2|by eapply set_gen_only]|].
  rewrite (set_gen_collected _ _ _ _ _ Hr).
  2: { intros g0. case_bool_decide; cbn; split_and!; try done; by apply env_get_insert_ne. }
  unfold collected. cbn [gens tasks w2].
  rewrite lookup_alter_eq, Hg. cbn. rewrite Hl. cbn. rewrite list_lookup_alter_eq, Hk. cbn. do 2 f_equal.
  - unfold lib_flags. destruct (is_static y); [apply env_get_insert|]. destruct (is_shared y); [|done]. by apply env_get_insert_ne.
  - unfold lib_flags. destruct (is_static y); [by apply env_get_insert_ne|]. destruct (is_shared y); [|done]. apply env_get_insert.
Qed.

Lemma export_dirs_collected self lib t dirs w w' r :
  export_dirs find_dir self lib t dirs w = (r, w') → only_self self w w' ∧ collected self w' = collected self w.
Proof.
  revert w. induction dirs as [|x dirs IH]; intros w; cbn [export_dirs]; [by intros [= _ <-]|].
  destruct (find_dir lib x); [|by intros [= _ <-]]. rewrite st_bind. destruct (set_gen _ _ w) as [r1 w1] eqn:E.
  assert (H1 := set_gen_only _ _ _ _ _ E). rewrite <-(set_gen_collected _ _ _ _ _ E).
  2: { intros g. cbn. split_and!; try done; by apply env_get_insert_ne. }
  destruct r1; [|by intros [= _ <-]]. intros [H2 H3]%IH. split; [by etrans|done].
Qed.
Lemma add_uselibs_collected self y w w' r :
  set_gen self (λ g, fold_left add_uselib (uselib y) g) w = (r, w') → only_self self w w' ∧ collected self w' = collected self w.
Proof.
  intros E. split; [by eapply set_gen_only|]. apply (set_gen_collected _ _ _ _ _ E). intros g. generalize (uselib y). intros l. revert g.
  induction l as [|v l IH]; intros g; cbn [fold_left]; [done|]. destruct (IH (add_uselib g v)) as (-> & -> & ->).
  unfold add_uselib. by case_match.
Qed.


(** ** The libraries that are used *)

(** The libraries that are named, and those that they pass on. *)
Inductive used (w : World) (named : list string) : string → Prop :=
| used_named v : v ∈ named → used w named v
| used_passed u y v : used w named u → gens w !! u = Some y → v ∈ passed_on w y → used w named v.

Lemma passed_on_frame r w w' y y' : frame r w w' → same_shape y y' → passed_on w' y' = passed_on w y.
Proof.
  intros F [Hf _ Hl _]. unfold passed_on, is_shared. rewrite Hf, Hl. case_match; [|done]. apply list_filter_iff. intros v.
  unfold static_in. destruct (fr_gens _ _ _ F v) as [g g' [[Hs _ _ _] _]|]; [|done]. unfold is_static. by rewrite Hs.
Qed.
Lemma used_frame r w w' named v : frame r w w' → used w' named v ↔ used w named v.
Proof.
  intros F. split; (induction 1 as [v Hv|u y v _ IH Hy Hv]; [by constructor|]).
  - destruct (frame_gen_back _ _ _ _ _ F Hy) as (y0 & Hy0 & [Hs _]). eapply used_passed; [done|done|]. by rewrite <-(passed_on_frame _ _ _ _ _ F Hs).
  - destruct (frame_gen _ _ _ _ _ F Hy) as (y0 & Hy0 & [Hs _]). eapply used_passed; [done|done|]. by rewrite (passed_on_frame _ _ _ _ _ F Hs).
Qed.

Abbreviation posting := (post bldpath find_dir target_node find_resource class_mappings).
Lemma post_posted n x w w' : wf w → posting n x w = (Ok tt, w') → is_posted w' x.
Proof.
  intros W. destruct n as [|n]; cbn [post]; [done|]. unfold the_gen, gets. rewrite !st_bind. destruct (gens w !! x) as [g|] eqn:Hg; [|done]. cbn [mret ST_ret].
  destruct (posted g) eqn:Hp; [intros [= <-]; by exists g|]. rewrite st_bind. destruct (for_each _ _ w) as [[[]|e] w1] eqn:E; [|done].
  assert (Hm : keeps (opened x) (frame (rank x)) (λ _, True) (for_each (run_method bldpath find_dir target_node find_resource class_mappings (posting n) x) (meths g))).
  { apply keeps_for_each; [apply _|]. intros m _ w2 r2 w2' O2 E2.
    destruct (run_method_kept x False (posting n) ltac:(intros y _ w3 r3 w3' W3 E3; destruct (post_kept n y w3 r3 w3' W3 E3) as (? & ? & _); by split_and!; [..|intros ? ? []]) w2 m O2 r2 w2' E2) as (? & ? & _). done. }
  destruct (Hm w _ w1 (conj W (ex_intro _ g (conj Hg Hp))) E) as ([_ (g1 & Hg1 & _)] & _ & _).
  intros [= <-]. exists (with_posted g1). cbn [gens]. by rewrite lookup_alter_eq, Hg1.
Qed.

(** What holds between the rounds: [c] is what was collected at the start. *)
Record visited (self : string) (c : Collected) (named tmp seen : list string) (w : World) : Prop := {
  vi_opened : opened self w;
  vi_rank : Forall (λ y, rank y < rank self) tmp;
  vi_nodup : NoDup seen;
  vi_posted : Forall (is_posted w) seen;
  vi_collected : collected self w = Some (fold_left (link_lib w) seen c);
  vi_named : ∀ v, v ∈ named → v ∈ seen ++ tmp;
  vi_used : Forall (used w named) (seen ++ tmp);
  vi_closed : ∀ u y v, u ∈ seen → gens w !! u = Some y → v ∈ passed_on w y → v ∈ seen ++ tmp }.

Lemma visited_pop self c named lib tmp seen w : lib ∈ seen → visited self c named (lib :: tmp) seen w → visited self c named tmp seen w.
Proof.
  intros Hl [O R N P C M U K]. split; try done.
  - by apply Forall_cons in R as [_ ?].
  - intros v Hv. apply M in Hv. set_solver.
  - rewrite Forall_forall in *. intros v Hv. apply U. set_solver.
  - intros u y v Hu Hy Hv. assert (H := K u y v Hu Hy Hv). set_solver.
Qed.

Lemma link_lib_gen w c v y : gens w !! v = Some y → link_lib w c v =
  match link_task y with
  | Some t => mkCollected (c_task c) (c_after c ++ [t]) (c_nodes c ++ task_outputs w t)
       (if is_static y then c_static c ++ [link_name y] else c_static c)
       (if negb (is_static y) && is_shared y then c_shared c ++ [link_name y] else c_shared c)
  | None => c
  end.
Proof. unfold link_lib. by intros ->. Qed.

(** One library is visited. *)
Lemma visited_round n self c named lib tmp seen w w1 w2 w3 w4 y more :
  visited self c named (lib :: tmp) seen w → lib ∉ seen →
  posting n lib w = (Ok tt, w1) → gens w1 !! lib = Some y → local_libs y w1 = (Ok more, w1) →
  use_link bldpath self y w1 = (Ok tt, w2) → set_gen self (λ g, fold_left add_uselib (uselib y) g) w2 = (Ok tt, w3) →
  export_dirs find_dir self lib (target y) (export_incdirs y) w3 = (Ok tt, w4) →
  visited self c named (tmp ++ more) (seen ++ [lib]) w4.
Proof.
  intros [O R N P C M U K] Hl E1 Hy E2 E3 E4 E5. apply Forall_cons in R as [Hr R].
  destruct (post_kept n lib w _ w1 (proj1 O) E1) as (W1 & F1 & _). assert (P1 := post_posted n lib w w1 (proj1 O) E1).
  assert (F1' : frame (rank self) w w1) by (apply (frame_weaken (rank lib)); [lia|done]).
  assert (O1 : opened self w1).
  { split; [done|]. destruct O as [_ (g & Hg & Hp)]. exists g. by rewrite (fr_high _ _ _ F1). }
  destruct (use_link_kept self False w1 y O1 _ _ E3) as (O2 & [F2 _] & _).
  destruct (add_uselibs_kept self False w2 y O2 _ _ E4) as (O3 & [F3 _] & _).
  destruct (export_dirs_kept self False lib (target y) (export_incdirs y) w3 O3 _ _ E5) as (O4 & [F4 _] & _).
  assert (F14 : frame (rank self) w1 w4) by (etrans; [exact F2|by etrans]).
  assert (F : frame (rank self) w w4) by by etrans.
  assert (Hmore : more = passed_on w1 y) by (destruct (local_libs_run y w1) as [E|E]; rewrite E in E2; by injection E2).
  assert (Hc1 : collected self w1 = collected self w).
  { unfold collected. rewrite (fr_high _ _ _ F1 self Hr). destruct (gens w !! self) as [g|] eqn:Hg; [|done]. cbn.
    destruct (link_task g) as [t|] eqn:Ht; [|done]. cbn. by rewrite (fr_link _ _ _ F1 self g t). }
  destruct (use_link_collected self y w1 w2 _ (eq_trans Hc1 C) E3) as [G2 Hc2].
  destruct (add_uselibs_collected _ _ _ _ _ E4) as [G3 Hc3]. destruct (export_dirs_collected _ _ _ _ _ _ _ E5) as [G4 Hc4].
  assert (G : only_self self w1 w4) by (etrans; [exact G2|by etrans]).
  assert (Hy4 : gens w4 !! lib = Some y) by (rewrite (proj1 G); [done|]; intros ->; lia).
  assert (P4 : Forall (is_posted w4) (seen ++ [lib])).
  { apply Forall_app. split; [|apply Forall_singleton; exact (posted_frame _ _ _ _ F14 P1)].
    eapply Forall_impl; [exact P|]. intros v. exact (posted_frame _ _ _ _ F). }
  split; try done.
  - apply Forall_app. split; [done|]. rewrite Hmore. apply Forall_forall. intros v Hv%passed_on_sub.
    assert (Hw := wf_ranked _ W1 _ _ Hy). unfold ranked in Hw. rewrite Forall_app, !Forall_forall in Hw. apply Hw in Hv. lia.
  - apply NoDup_app. split_and!; [done|set_solver|apply NoDup_singleton].
  - rewrite Hc4, Hc3, Hc2, fold_left_app. cbn [fold_left]. f_equal.
    rewrite (link_lib_gen w4 _ lib y Hy4). rewrite (link_libs_frame _ _ _ _ _ (proj1 O) F P).
    destruct (link_task y) as [t|]; [|done]. f_equal. unfold task_outputs. by rewrite (proj2 G).
  - intros v Hv%M. set_solver.
  - assert (U' : Forall (used w4 named) (seen ++ lib :: tmp)) by (eapply Forall_impl; [exact U|]; intros v; by rewrite (used_frame _ _ _ _ _ F)).
    rewrite !Forall_app, Forall_cons in U'. rewrite !Forall_app, Forall_singleton. destruct U' as (U1 & U2 & U3). split_and!; [done|done|done|].
    apply Forall_forall. intros v Hv. eapply used_passed; [exact U2|exact Hy4|]. by rewrite (passed_on_frame _ w1 w4 y y F14) by done; rewrite <-Hmore.
  - intros u yu v [Hu | ->%list_elem_of_singleton]%elem_of_app Hyu Hv.
    + destruct (frame_gen_back _ _ _ _ _ F Hyu) as (yu0 & Hyu0 & [Hs _]). rewrite (passed_on_frame _ _ _ _ _ F Hs) in Hv.
      assert (H := K u yu0 v Hu Hyu0 Hv). set_solver.
    + simplify_eq. rewrite (passed_on_frame _ w1 w4 y y F14) in Hv by done. set_solver.
Qed.

Lemma visit_libs_visited n self c named fuel : ∀ tmp seen w vs w',
  visited self c named tmp seen w → visit_libs bldpath find_dir (posting n) fuel self tmp seen w = (Ok vs, w') →
  visited self c named [] vs w'.
Proof.
  induction fuel as [|fuel IH]; intros tmp seen w vs w' V; cbn [visit_libs]; [done|].
  destruct tmp as [|lib tmp]; [by intros [= <- <-]|]. case_bool_decide as Hl; [apply IH; by eapply visited_pop|].
  rewrite st_bind. unfold gets. destruct (gens w !! lib) as [y0|] eqn:Hy0; [|done]. intros Hr.
  apply st_bind_Ok in Hr as ([] & w1 & E1 & Hr). apply st_bind_Ok in Hr as (y & w1' & E2 & Hr).
  unfold the_gen, gets in E2. rewrite st_bind in E2. destruct (gens w1 !! lib) as [y'|] eqn:Hy; [|done]. injection E2 as -> <-.
  apply st_bind_Ok in Hr as (more & w1' & E2 & Hr). assert (w1' = w1) as -> by (destruct (local_libs_run y w1) as [E|E]; rewrite E in E2; by injection E2).
  apply st_bind_Ok in Hr as ([] & w2 & E3 & Hr). apply st_bind_Ok in Hr as ([] & w3 & E4 & Hr). apply st_bind_Ok in Hr as ([] & w4 & E5 & Hr).
  eapply IH; [|exact Hr]. by eapply visited_round.
Qed.

(** What the visits of [vs] amount to. *)
Definition link_tasks (w : World) (vs : list string) : list nat := omap (λ v, y ← gens w !! v; link_task y) vs.
Definition lib_names (p : Gen → bool) (w : World) (vs : list string) : list string :=
  omap (λ v, y ← gens w !! v; _ ← link_task y; if p y then Some (link_name y) else None) vs.
Lemma link_libs_eq w vs c :
  fold_left (link_lib w) vs c =
    mkCollected (c_task c) (c_after c ++ link_tasks w vs) (c_nodes c ++ concat (task_outputs w <$> link_tasks w vs))
      (c_static c ++ lib_names is_static w vs) (c_shared c ++ lib_names (λ y, negb (is_static y) && is_shared y) w vs).
Proof.
  revert c. induction vs as [|v vs IH]; intros c; [destruct c; cbn; by rewrite !app_nil_r|]. cbn [fold_left]. rewrite IH.
  unfold link_lib, link_tasks, lib_names. cbn [omap list_omap]. destruct (gens w !! v) as [y|]; [|done]. cbn [mbind option_bind].
  destruct (link_task y) as [t|]; [|done]. cbn [c_task c_after c_nodes c_static c_shared option_bind]. rewrite fmap_cons. cbn [concat].
  destruct (is_static y); cbn [negb andb]; [|destruct (is_shared y)]; by rewrite <-?app_assoc.
Qed.

Lemma append_value_prefix k k' v e : env_get e k `prefix_of` env_get (append_value k' v e) k.
Proof.
  unfold append_value. destruct (decide (k' = k)) as [->|]; [rewrite env_get_insert; by eexists|by rewrite env_get_insert_ne].
Qed.
Lemma fold_prefix {A} (f : Env → A → Env) k l e :
  (∀ e x, env_get e k `prefix_of` env_get (f e x) k) → env_get e k `prefix_of` env_get (fold_left f l e) k.
Proof. intros Hf. revert e. induction l as [|x l IH]; intros e; [done|]. cbn [fold_left]. by etrans; [apply Hf|]. Qed.
Lemma uselib_flags_prefix g k : env_get (env g) k `prefix_of` env_get (env (uselib_flags g)) k.
Proof.
  unfold uselib_flags. cbn [env with_env]. apply fold_prefix. intros e x. apply fold_prefix. intros e' v. case_match; [|done].
  apply append_value_prefix.
Qed.

Lemma post_kept_any n x : keeps wf (frame (rank x)) (fine False) (posting n x).
Proof. intros w r w' W E. destruct (post_kept n x w r w' W E) as (? & ? & _). by split_and!; [..|intros ? ? []]. Qed.
(** The flags of external libraries leave what concerns the libraries of the project. *)
Lemma libs_set_gen self f w vs p :
  (∀ g, link_task (f g) = link_task g ∧ link_name (f g) = link_name g ∧ p (f g) = p g) →
  let w' := mkWorld (alter f self (gens w)) (tasks w) in
  link_tasks w' vs = link_tasks w vs ∧ lib_names p w' vs = lib_names p w vs.
Proof.
  intros Hf. cbn. assert (H : ∀ v, option_map (λ g, (link_task g, p g, link_name g)) (alter f self (gens w) !! v) =
                              option_map (λ g, (link_task g, p g, link_name g)) (gens w !! v)).
  { intros v. destruct (decide (v = self)) as [->|]; [|by rewrite lookup_alter_ne]. rewrite lookup_alter_eq. destruct (gens w !! self) as [g|]; [|done].
    cbn. by destruct (Hf g) as (-> & -> & ->). }
  split; apply list_omap_ext, Forall2_same_length_lookup_2; try done; intros i v v' -> [= <-]; specialize (H v); cbn.
  all: destruct (alter f self (gens w) !! v) as [g1|], (gens w !! v) as [g2|]; try done; cbn in *; injection H as H1 H2 H3; by rewrite H1, ?H2, ?H3.
Qed.

(** C22: what [apply_lib_vars] does for a program whose libraries do not use each other
    in a circle, when it succeeds: there is an order without repetition of exactly the libraries
    that are reached (a shared library does not pass on the static ones that it uses),
    all of them are posted, the link runs after their link tasks and depends on their
    outputs, in that order, and the flags [STATICLIB] and [LIB] get their names, in
    that order and before what is found for external libraries. *)
Theorem apply_lib_vars_correct n self w w' g t k :
  wf w → gens w !! self = Some g → posted g = false → link_task g = Some t → tasks w !! t = Some k →
  apply_lib_vars bldpath find_dir (posting n) self w = (Ok tt, w') →
  ∃ vs g' k', NoDup vs ∧ (∀ v, v ∈ vs ↔ used w (uselib_local g) v) ∧ Forall (is_posted w') vs ∧
    gens w' !! self = Some g' ∧ tasks w' !! t = Some k' ∧
    run_after k' = run_after k ++ link_tasks w' vs ∧
    dep_nodes k' = dep_nodes k ++ concat (task_outputs w' <$> link_tasks w' vs) ∧
    env_get (env g) "STATICLIB" ++ lib_names is_static w' vs `prefix_of` env_get (env g') "STATICLIB" ∧
    env_get (env g) "LIB" ++ lib_names (λ y, negb (is_static y) && is_shared y) w' vs `prefix_of` env_get (env g') "LIB".
Proof.
  intros W Hg Hp Ht Hk Hr. unfold apply_lib_vars, the_gen, gets in Hr. rewrite !st_bind, Hg in Hr. cbn [mret ST_ret] in Hr.
  apply st_bind_Ok in Hr as (n0 & w0 & [= <- <-] & Hr). apply st_bind_Ok in Hr as (vs & w1 & Hv & Hr).
  set (c := mkCollected t (run_after k) (dep_nodes k) (env_get (env g) "STATICLIB") (env_get (env g) "LIB")).
  assert (V : visited self c (uselib_local g) (uselib_local g) [] w).
  { split; try done.
    - split; [done|by exists g].
    - assert (H := wf_ranked _ W _ _ Hg). by apply Forall_app in H as [? _].
    - apply NoDup_nil_2.
    - unfold collected. rewrite Hg. cbn. rewrite Ht. cbn. by rewrite Hk.
    - apply Forall_forall. intros v Hv'. by constructor.
    - by intros u y v Hu%elem_of_nil. }
  destruct (visit_libs_visited n self c (uselib_local g) _ _ _ _ _ _ V Hv) as [O1 _ N P C M U K].
  assert (F : frame (rank self) w w1).
  { destruct (visit_libs_kept self False (posting n) (λ y _, post_kept_any n y) _ _ _ w (vi_opened _ _ _ _ _ _ V) (vi_rank _ _ _ _ _ _ V)
      ltac:(intros []) _ _ Hv) as (_ & [? _] & _). done. }
  rewrite link_libs_eq in C. unfold collected in C. destruct (gens w1 !! self) as [g1|] eqn:Hg1; [|done]. cbn in C.
  destruct (link_task g1) as [t1|] eqn:Ht1; [|done]. cbn in C. destruct (tasks w1 !! t1) as [k1|] eqn:Hk1; [|done].
  cbn in C. injection C as -> Ha Hn Hs Hl.
  unfold set_gen, modify in Hr. injection Hr as <-. exists vs, (uselib_flags g1), k1. cbn [gens tasks]. rewrite lookup_alter_eq, Hg1.
  destruct (libs_set_gen self uselib_flags w1 vs is_static) as [E1 E2]; [done|].
  destruct (libs_set_gen self uselib_flags w1 vs (λ y, negb (is_static y) && is_shared y)) as [_ E3]; [done|].
  change (λ v, task_outputs _ v) with (task_outputs w1). rewrite E1, E2, E3. split_and!; try done.
  - intros v. rewrite <-(used_frame _ _ _ _ v F). split; [apply (Forall_forall (used w1 _) vs); by rewrite app_nil_r in U|].
    induction 1 as [v Hv'%M|u y v _ IH Hy Hv']; [by rewrite app_nil_r in Hv'|]. assert (H := K u y v IH Hy Hv'). by rewrite app_nil_r in H.
  - eapply Forall_impl; [exact P|]. intros v (y & Hy & Hpy). exists (if decide (v = self) then uselib_flags y else y). cbn [gens].
    case_decide as Hvs; [subst v; by rewrite lookup_alter_eq, Hy|by rewrite lookup_alter_ne].
  - etrans; [|apply uselib_flags_prefix]. cbn in Hs. by rewrite Hs.
  - etrans; [|apply uselib_flags_prefix]. cbn in Hl. by rewrite Hl.
Qed.

(** Posting always ends when no generator uses itself, directly or through others,
    as a library or for its object files: as much fuel as the longest chain of
    uses is enough for the posts, and the loops end within the bounds that are computed
    from the lists. *)
Theorem post_terminates n x w : wf w → rank x < n → fst (posting n x w) ≠ Err OutOfFuel.
Proof.
  intros W Hn. destruct (posting n x w) as [r w'] eqn:E. destruct (post_kept n x w r w' W E) as (_ & _ & He). cbn. intros ->.
  by apply (He OutOfFuel).
Qed.

(** ** The object files that are linked *)

Definition link_inputs (self : string) (w : World) : option (nat * list string) :=
  g ← gens w !! self; t ← link_task g; k ← tasks w !! t; Some (t, inputs k).
(** What the compilations of a generator give. *)
Definition objects_of (w : World) (v : string) : list string :=
  match gens w !! v with Some y => concat (task_outputs w <$> compiled_tasks (own y)) | None => [] end.
(** Each one comes after those that it uses itself. *)
Definition objects_before (w : World) (vs : list string) : Prop :=
  ∀ l1 v l2 u, vs = l1 ++ v :: l2 → adds_objects w v u → u ∈ l1.
Inductive used_objects (w : World) (named : list string) : string → Prop :=
| uo_named v : v ∈ named → used_objects w named v
| uo_added u v : used_objects w named u → adds_objects w u v → used_objects w named v.

Lemma outputs_frame r w w' z g : wf w → frame r w w' → gens w !! z = Some g →
  task_outputs w' <$> compiled_tasks (own g) = task_outputs w <$> compiled_tasks (own g).
Proof.
  intros W F Hg. apply list_fmap_ext. intros i t Ht%list_elem_of_lookup_2. unfold task_outputs.
  by rewrite (fr_outputs _ _ _ F) by (by eapply (wf_compiled _ W)).
Qed.
Lemma objects_of_frame r w w' v : wf w → frame r w w' → is_posted w v → objects_of w' v = objects_of w v.
Proof.
  intros W F (y & Hy & Hp). destruct (frame_gen _ _ _ _ _ F Hy) as (y' & Hy' & [_ Hc]). unfold objects_of. rewrite Hy, Hy'.
  destruct (core_eq _ _ (Hc Hp)) as (_ & _ & _ & _ & ->). by rewrite (outputs_frame r w w' v y).
Qed.
Lemma objects_frame r w w' vs : wf w → frame r w w' → Forall (is_posted w) vs → objects_of w' <$> vs = objects_of w <$> vs.
Proof.
  intros W F H. apply list_fmap_ext. intros i v Hv. apply (objects_of_frame r); [done|done|]. by eapply Forall_lookup_1 in Hv.
Qed.
Lemma objects_before_frame r w w' vs : frame r w w' → objects_before w vs → objects_before w' vs.
Proof. intros F H l1 v l2 u E Hu. eapply H; [exact E|]. by rewrite <-(frame_objects _ _ _ _ _ F). Qed.
Lemma used_objects_frame r w w' named v : frame r w w' → used_objects w' named v ↔ used_objects w named v.
Proof.
  intros F. split; (induction 1 as [v Hv|u v _ IH Hv]; [by constructor|]); (eapply uo_added; [exact IH|]).
  - by rewrite <-(frame_objects _ _ _ _ _ F).
  - by rewrite (frame_objects _ _ _ _ _ F).
Qed.
Lemma objects_before_snoc w vs x : objects_before w vs → (∀ u, adds_objects w x u → u ∈ vs) → objects_before w (vs ++ [x]).
Proof.
  intros H Hx l1 v l2 u E Hu. destruct l2 as [|z l2 _] using rev_ind.
  - apply app_inj_tail in E as [-> ->]. by apply Hx.
  - rewrite app_comm_cons, app_assoc in E. apply app_inj_tail in E as [-> _]. by eapply H.
Qed.

(** ** What posting compiles *)

(** The nodes of the source files, and the object files of those that a compiler takes. *)
Definition source_node (s : Sources) (f : string) : option string :=
  match get_hook class_mappings s f with Some _ => None | None => find_resource (path s) f end.
Definition object_node (s : Sources) (node : string) : option string :=
  h ← get_hook class_mappings s (node_suffix node); if is_compiler h then Some (change_ext node (object_ext s)) else None.
Definition found (s : Sources) (f : string) : Prop := is_Some (get_hook class_mappings s f) ∨ is_Some (find_resource (path s) f).
Definition handled (s : Sources) (node : string) : Prop := is_Some (get_hook class_mappings s (node_suffix node)).

Lemma the_gen_Ok {A} x (f : Gen → ST World A) w r w' :
  (g ← the_gen x; f g) w = (Ok r, w') → ∃ g, gens w !! x = Some g ∧ f g w = (Ok r, w').
Proof. unfold the_gen, gets. rewrite !st_bind. destruct (gens w !! x) as [g|]; [|done]. by exists g. Qed.
Lemma core_files_Ok x fs : ∀ w w' g, gens w !! x = Some g →
  for_each (core_file find_resource class_mappings x) fs w = (Ok tt, w') →
  tasks w' = tasks w ∧ Forall (found (own g)) fs ∧
  own <$> gens w' !! x = Some (mkSources (path (own g)) (source (own g)) (obj_ext (own g)) (idx (own g)) (mappings (own g))
    (allnodes (own g) ++ omap (source_node (own g)) fs) (compiled_tasks (own g))).
Proof.
  induction fs as [|f fs IH]; intros w w' g Hg; cbn [for_each].
  { intros [= <-]. rewrite Hg. cbn. rewrite app_nil_r. by destruct (own g). }
  intros Hr. apply st_bind_Ok in Hr as ([] & w1 & E & Hr). apply the_gen_Ok in E as (g0 & Hg0 & E). simplify_eq. cbn [omap list_omap].
  destruct (get_hook class_mappings (own g) f) as [h|] eqn:Hh.
  - assert (Hn : source_node (own g) f = None) by (unfold source_node; by rewrite Hh). rewrite Hn.
    destruct (is_compiler h); [done|]. injection E as <-. destruct (IH _ _ _ Hg Hr) as (? & ? & ->).
    split_and!; [done| |done]. constructor; [left; by rewrite Hh|done].
  - destruct (find_resource _ f) as [node|] eqn:Hf; [|done]. injection E as <-.
    assert (Hn : source_node (own g) f = Some node) by (unfold source_node; by rewrite Hh). rewrite Hn.
    assert (Hg1 : alter (add_node node) x (gens w) !! x = Some (add_node node g)) by (by rewrite lookup_alter_eq, Hg).
    destruct (IH (mkWorld (alter (add_node node) x (gens w)) (tasks w)) w' _ Hg1 Hr) as (? & HF & ->). split_and!; [done| |].
    + constructor; [by right; rewrite Hf|exact HF].
    + cbn. by rewrite <-app_assoc.
Qed.
Lemma core_nodes_Ok x nodes : ∀ w w' g, gens w !! x = Some g → Forall (λ t, t < length (tasks w)) (compiled_tasks (own g)) →
  for_each (core_node class_mappings x) nodes w = (Ok tt, w') →
  Forall (handled (own g)) nodes ∧ ∃ g', gens w' !! x = Some g' ∧
  task_outputs w' <$> compiled_tasks (own g') =
    (task_outputs w <$> compiled_tasks (own g)) ++ ((λ o, [o]) <$> omap (object_node (own g)) nodes).
Proof.
  induction nodes as [|node nodes IH]; intros w w' g Hg Hc; cbn [for_each].
  { intros [= <-]. split; [done|]. exists g. by rewrite app_nil_r. }
  intros Hr. apply st_bind_Ok in Hr as ([] & w1 & E & Hr). apply the_gen_Ok in E as (g0 & Hg0 & E). simplify_eq. cbn [omap list_omap].
  assert (Hn : object_node (own g) node = h ← get_hook class_mappings (own g) (node_suffix node); if is_compiler h then Some (change_ext node (object_ext (own g))) else None) by done.
  rewrite Hn. clear Hn. destruct (get_hook class_mappings (own g) (node_suffix node)) as [h|] eqn:Hh; [|done]. cbn [mbind option_bind].
  destruct (is_compiler h).
  2: { injection E as <-. destruct (IH _ _ _ Hg Hc Hr) as (HF & Hg'). split; [|done]. constructor; [by unfold handled; rewrite Hh|done]. }
  apply the_gen_Ok in E as (g0 & Hg0 & E). simplify_eq. injection E as <-. revert Hr.
  set (obj := change_ext node (object_ext (own g))). set (w1 := mkWorld _ _). intros Hr.
  assert (Hg1 : gens w1 !! x = Some (add_compiled (length (tasks w)) g)) by (cbn; by rewrite lookup_alter_eq, Hg).
  assert (Hc1 : Forall (λ t, t < length (tasks w1)) (compiled_tasks (own g) ++ [length (tasks w)])).
  { cbn. rewrite length_app. apply Forall_app. split; [eapply Forall_impl; [exact Hc|]; cbn; lia|by repeat constructor; cbn; lia]. }
  destruct (IH w1 w' _ Hg1 Hc1 Hr) as (HF & g' & Hg' & Ho).
  split; [constructor; [by unfold handled; rewrite Hh|exact HF]|]. exists g'. split; [done|]. rewrite Ho. cbn [own add_compiled with_own compiled_tasks].
  rewrite fmap_app, <-app_assoc. f_equal.
  - apply list_fmap_ext. intros i t Ht. eapply Forall_lookup_1 in Hc; [|done]. cbn. unfold task_outputs. cbn. by rewrite lookup_app_l.
  - cbn. unfold task_outputs. cbn. by rewrite lookup_app_r, Nat.sub_diag by done.
Qed.
Lemma methods_own n x l w w' :
  opened x w → apply_core_ ∉ l → for_each (run_method bldpath find_dir target_node find_resource class_mappings (posting n) x) l w = (Ok tt, w') →
  opened x w' ∧ frame_self x w w'.
Proof.
  intros Ho Hl E. destruct (keeps_for_each (opened x) (frame_self x) (fine False)
    (run_method bldpath find_dir target_node find_resource class_mappings (posting n) x) l) with w (Ok tt : res unit) w' as (? & ? & _); [|done..].
  intros m Hm w1 r w1' O1. apply run_method_self; [intros y _; apply post_kept_any|done|]. by intros ->.
Qed.
(** A generator that is posted makes an object of each of its sources, in their order:
    every file is found and has a hook. *)
Theorem post_compiles n x w w' g l1 l2 :
  wf w → gens w !! x = Some g → posted g = false → allnodes (own g) = [] → compiled_tasks (own g) = [] →
  meths g = l1 ++ apply_core_ :: l2 → apply_core_ ∉ l1 → apply_core_ ∉ l2 → posting n x w = (Ok tt, w') →
  let nodes := omap (source_node (own g)) (to_list (source (own g))) in
  objects_of w' x = omap (object_node (own g)) nodes ∧ Forall (found (own g)) (to_list (source (own g))) ∧ Forall (handled (own g)) nodes.
Proof.
  intros W Hg Hp Hn Hc Hm Hl1 Hl2. destruct n as [|n]; cbn [post]; [done|]. intros Hr. apply the_gen_Ok in Hr as (g0 & Hg0 & Hr). simplify_eq.
  rewrite Hp in Hr. apply st_bind_Ok in Hr as ([] & w4 & E & [= <-]). rewrite Hm, for_each_app in E. cbn [for_each run_method] in E.
  apply st_bind_Ok in E as ([] & w1 & E1 & E). apply st_bind_Ok in E as ([] & w3 & E2 & E3).
  destruct (methods_own n x l1 w w1 (conj W (ex_intro _ g (conj Hg Hp))) Hl1 E1) as (O1 & F1). assert (H1 := fs_own _ _ _ F1). rewrite Hg in H1.
  destruct (apply_core_changed x False w1 O1 _ _ E2) as (O3 & F3 & _).
  destruct (methods_own n x l2 w3 w4 O3 Hl2 E3) as (O4 & F4). assert (H4 := fs_own _ _ _ F4).
  apply the_gen_Ok in E2 as (g1 & Hg1 & E2). rewrite Hg1 in H1. injection H1 as H1. apply st_bind_Ok in E2 as ([] & w2 & E2 & E5).
  destruct (core_files_Ok _ _ _ _ _ Hg1 E2) as (Ht & Hfound & H2). apply the_gen_Ok in E5 as (g2 & Hg2 & E5). rewrite Hg2 in H2. injection H2 as H2.
  destruct (core_nodes_Ok _ _ _ _ _ Hg2 ltac:(rewrite H2; cbn; by rewrite H1, Hc) E5) as (Hh & g3 & Hg3 & Ho).
  rewrite Hg3 in H4. destruct (gens w4 !! x) as [g4|] eqn:Hg4; [|done]. injection H4 as H4.
  unfold objects_of. cbn [gens]. rewrite lookup_alter_eq, Hg4. cbn [fmap option_fmap option_map own with_posted]. rewrite H4.
  change (task_outputs _) with (task_outputs w4). rewrite (outputs_frame _ w3 w4 x g3 (proj1 O3) (fs_frame _ _ _ F4) Hg3), Ho, H2. rewrite H2 in Hh.
  rewrite H1 in Hfound |- *. rewrite H1 in Hh. cbn [allnodes compiled_tasks] in *. rewrite Hn, Hc in *. split_and!; [|exact Hfound|exact Hh].
  cbn [fmap list_fmap app]. change (object_node (mkSources _ _ _ _ _ _ _)) with (object_node (own g)).
  induction (omap (object_node (own g)) _) as [|o l IH]; [done|]. cbn. by rewrite IH.
Qed.

Record gathered (self : string) (t : nat) (ins named names seen : list string) (w : World) : Prop := {
  ga_opened : opened self w;
  ga_rank : Forall (λ y, rank y < rank self) names;
  ga_nodup : NoDup seen;
  ga_posted : Forall (is_posted w) seen;
  ga_inputs : link_inputs self w = Some (t, ins ++ concat (objects_of w <$> seen));
  ga_named : ∀ v, v ∈ named → v ∈ seen ++ names;
  ga_used : Forall (used_objects w named) (seen ++ names);
  ga_before : objects_before w seen }.

Lemma gathered_frame self t ins named names seen w w' :
  opened self w' → frame (rank self) w w' → link_inputs self w' = link_inputs self w →
  gathered self t ins named names seen w → gathered self t ins named names seen w'.
Proof.
  intros O' F E [O R N P I M U B]. split; try done.
  - eapply Forall_impl; [exact P|]. intros v. exact (posted_frame _ _ _ _ F).
  - rewrite E, I. do 4 f_equal. symmetry. by eapply objects_frame; [apply O|..].
  - eapply Forall_impl; [exact U|]. intros v. by rewrite (used_objects_frame _ _ _ _ _ F).
  - by eapply objects_before_frame.
Qed.
Lemma gathered_pop self t ins named x rest seen w : x ∈ seen → gathered self t ins named (x :: rest) seen w → gathered self t ins named rest seen w.
Proof.
  intros Hx [O R N P I M U B]. split; try done.
  - by apply Forall_cons in R as [_ ?].
  - intros v Hv%M. set_solver.
  - rewrite !Forall_app, Forall_cons in U. rewrite Forall_app. tauto.
Qed.
Lemma gathered_push self t ins named x rest seen w lst :
  (∀ u, u ∈ lst → adds_objects w x u) → gathered self t ins named (x :: rest) seen w →
  gathered self t ins named (push_new seen (x :: rest) lst) seen w.
Proof.
  intros Hl [O R N P I M U B]. rewrite push_new_rev. rewrite !Forall_app in U. destruct U as [U1 U2].
  assert (Hu : ∀ u, u ∈ reverse (filter (λ u, u ∉ seen) lst) → adds_objects w x u) by (intros u; rewrite elem_of_reverse, list_elem_of_filter; intros [_ ?]; by apply Hl).
  assert (U3 := U2). apply Forall_cons in U3 as [Ux _]. split; try done.
  - apply Forall_app. split; [|done]. apply Forall_forall. intros u Hu'%Hu%(adds_objects_rank w); [|apply O]. apply Forall_cons in R as [R _]. lia.
  - intros v Hv%M. set_solver.
  - rewrite !Forall_app. split_and!; [done| |done]. apply Forall_forall. intros u Hu'%Hu. by eapply uo_added.
Qed.

Lemma link_inputs_same self w w' : gens w' !! self = gens w !! self → (∀ t g, gens w !! self = Some g → link_task g = Some t → tasks w' !! t = tasks w !! t) →
  link_inputs self w' = link_inputs self w.
Proof.
  intros Hg Ht. unfold link_inputs. rewrite Hg. destruct (gens w !! self) as [g|]; [|done]. cbn.
  destruct (link_task g) as [t|] eqn:E; [|done]. cbn. by rewrite (Ht t g).
Qed.
Lemma take_objects_inputs self y w w' t ins :
  link_inputs self w = Some (t, ins) → take_objects self y w = (Ok tt, w') →
  link_inputs self w' = Some (t, ins ++ concat (task_outputs w <$> compiled_tasks (own y))).
Proof.
  unfold link_inputs. destruct (gens w !! self) as [g|] eqn:Hg; [|done]. cbn. destruct (link_task g) as [t0|] eqn:Ht; [|done]. cbn.
  destruct (tasks w !! t0) as [k|] eqn:Hk; [|done]. intros [= -> <-]. unfold take_objects, the_gen, gets. rewrite !st_bind, Hg. cbn [mret ST_ret].
  rewrite st_bind. rewrite Ht. destruct (compiled_tasks (own y)) as [|o os].
  - intros [= <-]. rewrite Hg. cbn. rewrite Ht. cbn. by rewrite Hk, app_nil_r.
  - intros [= <-]. cbn [gens tasks]. rewrite Hg. cbn. rewrite Ht. cbn. by rewrite list_lookup_alter_eq, Hk.
Qed.
Lemma seen_all (seen lst : list string) : existsb (λ u, negb (bool_decide (u ∈ seen))) lst = false → ∀ u, u ∈ lst → u ∈ seen.
Proof.
  intros H u Hu. destruct (decide (u ∈ seen)) as [|Hn]; [done|]. exfalso. apply not_true_iff_false in H. apply H, unseen_exists, Exists_exists. by exists u.
Qed.

(** The objects of one generator are taken. *)
Lemma gathered_round n self t ins named x rest seen w w1 w2 w3 y :
  gathered self t ins named (x :: rest) seen w → x ∉ seen → (∀ u, adds_objects w x u → u ∈ seen) →
  set_gen x (λ y, with_objects y (reversed_in_place (add_objects y))) w = (Ok tt, w1) → is_Some (gens w !! x) →
  posting n x w1 = (Ok tt, w2) → gens w2 !! x = Some y → take_objects self y w2 = (Ok tt, w3) →
  gathered self t ins named (x :: rest) (seen ++ [x]) w3.
Proof.
  intros G Hx Hall E1 [y0 Hy0] E2 Hy E3. assert (Hr : rank x < rank self) by (destruct G as [_ R _ _ _ _ _ _]; by apply Forall_cons in R as [? _]).
  destruct (reverse_objects_kept self False w x y0 (ga_opened _ _ _ _ _ _ _ G) Hy0 ltac:(lia) _ _ E1) as (O1 & [F1 _] & _).
  assert (G1 : gathered self t ins named (x :: rest) seen w1).
  { apply (gathered_frame _ _ _ _ _ _ w); [done|done| |done]. injection E1 as <-. apply link_inputs_same; [|done]. cbn. apply lookup_alter_ne. intros ->. lia. }
  destruct (post_kept n x w1 _ w2 (proj1 O1) E2) as (W2 & F2 & _).
  assert (F2' : frame (rank self) w1 w2) by (apply (frame_weaken (rank x)); [lia|done]).
  assert (O2 : opened self w2) by (split; [done|]; destruct O1 as [_ (g & ? & ?)]; exists g; by rewrite (fr_high _ _ _ F2)).
  assert (G2 : gathered self t ins named (x :: rest) seen w2).
  { apply (gathered_frame _ _ _ _ _ _ w1); [done|done| |done]. apply link_inputs_same; [by apply (fr_high _ _ _ F2)|]. intros t0 g Hg Ht. by apply (fr_link _ _ _ F2 self g). }
  destruct (take_objects_kept self False w2 y O2 _ _ E3) as (O3 & [F3 _] & _).
  assert (P2 := post_posted n x w1 w2 (proj1 O1) E2). destruct G2 as [_ R N P I M U B]. split; try done.
  - apply NoDup_app. split_and!; [done|set_solver|apply NoDup_singleton].
  - apply Forall_app. split; [|apply Forall_singleton; exact (posted_frame _ _ _ _ F3 P2)].
    eapply Forall_impl; [exact P|]. intros v. exact (posted_frame _ _ _ _ F3).
  - rewrite (take_objects_inputs _ _ _ _ _ _ I E3). do 2 f_equal. rewrite fmap_app, concat_app, <-app_assoc. cbn. rewrite app_nil_r.
    rewrite (objects_frame _ _ _ seen W2 F3 P), (objects_of_frame _ _ _ x W2 F3 P2). by unfold objects_of at 3; rewrite Hy.
  - intros v Hv%M. set_solver.
  - rewrite !Forall_app, Forall_cons in U. destruct U as (U1 & U2 & U3). assert (Hf := λ v, proj2 (used_objects_frame _ _ _ named v F3)).
    rewrite !Forall_app, Forall_singleton, Forall_cons. split_and!; [|by apply Hf|by apply Hf|]; by eapply Forall_impl.
  - apply objects_before_snoc; [by apply (objects_before_frame _ _ _ _ F3)|]. intros u Hu. apply Hall.
    by rewrite <-(frame_objects (rank self) w w1), <-(frame_objects (rank self) w1 w2), <-(frame_objects (rank self) w2 w3).
Qed.

Lemma visit_objects_gathered n self t ins named fuel : ∀ names seen w vs w',
  gathered self t ins named names seen w → visit_objects (posting n) fuel self names seen w = (Ok vs, w') →
  gathered self t ins named [] vs w'.
Proof.
  induction fuel as [|fuel IH]; intros names seen w vs w' G; cbn [visit_objects]; [done|].
  destruct names as [|x rest]; [by intros [= <- <-]|]. case_bool_decide as Hx; [apply IH; by eapply gathered_pop|].
  rewrite st_bind. unfold gets. destruct (gens w !! x) as [y0|] eqn:Hy0; [|done]. intros Hr.
  apply st_bind_Ok in Hr as ([] & w1 & E1 & Hr).
  assert (Hobjs : ∀ u, u ∈ reverse (to_list (add_objects y0)) ↔ adds_objects w x u).
  { intros u. rewrite elem_of_reverse. split; [by exists y0|]. intros (y' & ? & ?). by simplify_eq. }
  assert (Hrank : rank x < rank self) by (destruct G as [_ R _ _ _ _ _ _]; by apply Forall_cons in R as [? _]).
  destruct (existsb _ _) eqn:Hex.
  - eapply IH; [|exact Hr]. apply gathered_push.
    + intros u Hu%Hobjs. assert (F := reverse_objects_kept self False w x y0 (ga_opened _ _ _ _ _ _ _ G) Hy0 ltac:(lia) _ _ E1).
      apply (frame_objects (rank self) w w1); [apply F|done].
    + destruct (reverse_objects_kept self False w x y0 (ga_opened _ _ _ _ _ _ _ G) Hy0 ltac:(lia) _ _ E1) as (O1 & [F1 _] & _).
      apply (gathered_frame _ _ _ _ _ _ w); [done|done| |done]. injection E1 as <-. apply link_inputs_same; [|done]. cbn. apply lookup_alter_ne. intros ->. lia.
  - apply st_bind_Ok in Hr as ([] & w2 & E2 & Hr). apply st_bind_Ok in Hr as (y & w2' & E3 & Hr).
    unfold the_gen, gets in E3. rewrite st_bind in E3. destruct (gens w2 !! x) as [y'|] eqn:Hy; [|done]. injection E3 as -> <-.
    apply st_bind_Ok in Hr as ([] & w3 & E3 & Hr). eapply IH; [|exact Hr].
    eapply gathered_round; [exact G|done| |exact E1|by exists y0|exact E2|exact Hy|exact E3].
    intros u Hu%Hobjs. by eapply seen_all.
Qed.

End Order.

(** ** Uses in a circle *)

Section Circle.
Context (bldpath : string → string) (find_dir : string → string → option string) (target_node : Gen → string).
Context (find_resource : string → string → option string) (class_mappings : gmap string hook).
Abbreviation posting := (post bldpath find_dir target_node find_resource class_mappings).
(** Generators that each use another one of them, as a library or for its objects. *)
Context (C : list string) (as_library : string → bool).
Definition in_circle (x : string) (g : Gen) : Prop :=
  posted g = false ∧ (if as_library x then apply_lib_vars_ else apply_objdeps_) ∈ meths g ∧
  ∃ c, c ∈ C ∧ c ∈ (if as_library x then uselib_local g else to_list (add_objects g)).
Definition circle (w : World) : Prop := ∀ c, c ∈ C → ∃ g, gens w !! c = Some g ∧ in_circle c g.
#[local] Abbreviation kept := (keeps circle (λ _ _, True) (λ _, True)).
#[local] Instance any_preorder : PreOrder (λ _ _ : World, True).
Proof. by split. Qed.

Lemma set_gen_circle x f : (∀ c g, in_circle c g → in_circle c (f g)) → kept (set_gen x f).
Proof.
  intros Hf. apply keeps_modify. intros w Hw. split; [|done]. intros c Hc. destruct (Hw c Hc) as (g & Hg & Hi). cbn.
  destruct (decide (c = x)) as [->|Hx]; [|exists g; by rewrite lookup_alter_ne].
  exists (f g). rewrite lookup_alter_eq, Hg. split; [done|by apply Hf].
Qed.
Lemma tasks_circle f : kept (modify (λ w, mkWorld (gens w) (f (tasks w)))).
Proof. by apply keeps_modify. Qed.
Lemma the_gen_circle {A} x (f : Gen → ST World A) : (∀ g, kept (f g)) → kept (g ← the_gen x; f g).
Proof.
  intros Hf. apply keeps_bind; [apply _| |done]. unfold the_gen. apply keeps_bind; [apply _|apply keeps_gets; apply _|].
  intros [g|]; [apply keeps_ret; apply _|by apply keeps_throw; [apply _|]].
Qed.
Lemma create_task_circle ins outs : kept (create_task ins outs).
Proof.
  apply keeps_bind; [apply _|apply keeps_gets; apply _|]. intros n.
  apply keeps_bind; [apply _|apply (tasks_circle (λ ts, ts ++ [_]))|]. intros _. apply keeps_ret; apply _.
Qed.
Lemma apply_link_circle self : kept (apply_link target_node self).
Proof.
  apply the_gen_circle. intros g. apply keeps_bind; [apply _|apply keeps_gets; apply _|]. intros outs.
  destruct (forallb _ _); (apply keeps_bind; [apply _|apply create_task_circle|]); intros n; [by apply set_gen_circle|by apply keeps_throw; [apply _|]].
Qed.
Lemma apply_core_circle self : kept (apply_core find_resource class_mappings self).
Proof.
  apply the_gen_circle. intros g. apply keeps_bind; [apply _| |intros _; apply the_gen_circle; intros g1]; (apply keeps_for_each; [apply _|]);
    intros f _; apply the_gen_circle; intros g2; destruct (get_hook _ _ _) as [h|]; try destruct (is_compiler h);
    try (apply keeps_ret; apply _); try by apply keeps_throw; [apply _|].
  - destruct (find_resource _ _); [by apply set_gen_circle|by apply keeps_throw; [apply _|]].
  - apply the_gen_circle. intros g3. apply keeps_bind; [apply _|apply create_task_circle|]. intros n. by apply set_gen_circle.
Qed.
Lemma use_link_circle self y : kept (use_link bldpath self y).
Proof.
  unfold use_link. destruct (link_task y) as [t|]; [|apply keeps_ret; apply _].
  apply keeps_bind; [apply _|by apply set_gen_circle|]. intros _. apply the_gen_circle. intros g.
  destruct (link_task g) as [st0|]; [|by apply keeps_throw; [apply _|]].
  apply keeps_bind; [apply _|apply keeps_gets; apply _|]. intros outs.
  apply keeps_bind; [apply _|apply (tasks_circle (alter _ st0))|]. intros _.
  destruct outs; [by apply keeps_throw; [apply _|]|by apply set_gen_circle].
Qed.
Lemma add_uselibs_circle self y : kept (set_gen self (λ g, fold_left add_uselib (uselib y) g)).
Proof.
  apply set_gen_circle. generalize (uselib y). intros l. induction l as [|v l IH]; intros c g Hg; [done|]. cbn [fold_left]. apply IH.
  unfold add_uselib. by case_match.
Qed.
Lemma export_dirs_circle self lib t dirs : kept (export_dirs find_dir self lib t dirs).
Proof.
  induction dirs as [|x dirs IH]; cbn [export_dirs]; [apply keeps_ret; apply _|].
  destruct (find_dir lib x); [|by apply keeps_throw; [apply _|]]. apply keeps_bind; [apply _|by apply set_gen_circle|done].
Qed.
Lemma local_libs_circle y : kept (local_libs y).
Proof. intros w r w' Hw E. destruct (local_libs_run y w) as [E'|E']; rewrite E' in E; by injection E as <- <-. Qed.
Lemma apply_obj_vars_circle self : kept (apply_obj_vars self).
Proof.
  apply the_gen_circle. intros g. apply keeps_bind; [apply _|by apply keeps_lift; [apply _|]|]. intros e. by apply set_gen_circle.
Qed.
Lemma take_objects_circle self y : kept (take_objects self y).
Proof.
  apply the_gen_circle. intros g. apply keeps_bind; [apply _|apply keeps_gets; apply _|]. intros objs.
  destruct (link_task g) as [st0|], (compiled_tasks (own y)); try (apply keeps_ret; apply _); [apply (tasks_circle (alter _ st0))|by apply keeps_throw; [apply _|]].
Qed.
Lemma reverse_circle x : kept (set_gen x (λ y, with_objects y (reversed_in_place (add_objects y)))).
Proof.
  apply set_gen_circle. intros z g (Hp & Hm & c & Hc & Hin). split_and!; [done|done|]. exists c. split; [done|].
  cbn. destruct (as_library z); [done|]. destruct (add_objects g); [done|]. cbn in *. by apply elem_of_reverse.
Qed.

Section Rounds.
Context (post : string → ST World unit).
Hypothesis post_circle : ∀ y, kept (post y).
Hypothesis post_outside : ∀ y w w', circle w → post y w = (Ok tt, w') → y ∉ C.

Lemma visit_libs_circle fuel self : ∀ tmp seen, kept (visit_libs bldpath find_dir post fuel self tmp seen).
Proof.
  induction fuel as [|fuel IH]; intros tmp seen; cbn [visit_libs]; [by apply keeps_throw; [apply _|]|].
  destruct tmp as [|lib tmp]; [apply keeps_ret; apply _|]. case_bool_decide; [apply IH|].
  apply keeps_bind; [apply _|apply keeps_gets; apply _|]. intros [y0|]; [|by apply keeps_throw; [apply _|]].
  apply keeps_bind; [apply _|apply post_circle|]. intros _. apply the_gen_circle. intros y.
  apply keeps_bind; [apply _|apply local_libs_circle|]. intros more. apply keeps_bind; [apply _|apply use_link_circle|]. intros _.
  apply keeps_bind; [apply _|apply add_uselibs_circle|]. intros _. apply keeps_bind; [apply _|apply export_dirs_circle|]. intros _. apply IH.
Qed.
Lemma visit_objects_circle fuel self : ∀ names seen, kept (visit_objects post fuel self names seen).
Proof.
  induction fuel as [|fuel IH]; intros names seen; cbn [visit_objects]; [by apply keeps_throw; [apply _|]|].
  destruct names as [|x rest]; [apply keeps_ret; apply _|]. case_bool_decide; [apply IH|].
  apply keeps_bind; [apply _|apply keeps_gets; apply _|]. intros [y0|]; [|by apply keeps_throw; [apply _|]].
  apply keeps_bind; [apply _|apply reverse_circle|]. intros _. cbn beta zeta. destruct (existsb _ _); [apply IH|].
  apply keeps_bind; [apply _|apply post_circle|]. intros _. apply the_gen_circle. intros y.
  apply keeps_bind; [apply _|apply take_objects_circle|]. intros _. apply IH.
Qed.
Lemma visit_libs_stuck fuel self c : ∀ tmp seen w r w',
  circle w → c ∈ C → c ∈ tmp → c ∉ seen → visit_libs bldpath find_dir post fuel self tmp seen w = (Ok r, w') → False.
Proof.
  induction fuel as [|fuel IH]; intros tmp seen w r w' Hw Hc Ht Hs; cbn [visit_libs]; [done|].
  destruct tmp as [|lib tmp]; [by apply elem_of_nil in Ht|]. case_bool_decide as Hl; [apply IH; [done..|set_solver|done]|].
  rewrite st_bind. unfold gets. destruct (gens w !! lib); [|done]. intros Hr.
  apply st_bind_Ok in Hr as ([] & w1 & E1 & Hr). assert (Hlib := post_outside _ _ _ Hw E1).
  destruct (post_circle lib _ _ _ Hw E1) as (W1 & _). revert Hr.
  change (visit_libs _ _ post fuel self) with (visit_libs bldpath find_dir post fuel self).
  intros Hr. apply st_bind_Ok in Hr as (y & w1' & E2 & Hr). assert (w1' = w1) as -> by (unfold the_gen, gets in E2; rewrite st_bind in E2; by destruct (gens w1 !! lib); injection E2).
  apply st_bind_Ok in Hr as (more & w2 & E3 & Hr). destruct (local_libs_circle _ _ _ _ W1 E3) as (W2 & _).
  apply st_bind_Ok in Hr as ([] & w3 & E4 & Hr). destruct (use_link_circle _ _ _ _ _ W2 E4) as (W3 & _).
  apply st_bind_Ok in Hr as ([] & w4 & E5 & Hr). destruct (add_uselibs_circle _ _ _ _ _ W3 E5) as (W4 & _).
  apply st_bind_Ok in Hr as ([] & w5 & E6 & Hr). destruct (export_dirs_circle _ _ _ _ _ _ _ W4 E6) as (W5 & _).
  apply (IH _ _ _ _ _ W5 Hc) in Hr; [done|set_solver|set_solver].
Qed.
Lemma visit_objects_stuck fuel self c : ∀ names seen w r w',
  circle w → c ∈ C → c ∈ names → c ∉ seen → visit_objects post fuel self names seen w = (Ok r, w') → False.
Proof.
  induction fuel as [|fuel IH]; intros names seen w r w' Hw Hc Ht Hs; cbn [visit_objects]; [done|].
  destruct names as [|x rest]; [by apply elem_of_nil in Ht|]. case_bool_decide as Hl; [apply IH; [done..|set_solver|done]|].
  rewrite st_bind. unfold gets. destruct (gens w !! x); [|done]. intros Hr.
  apply st_bind_Ok in Hr as ([] & w1 & E1 & Hr). destruct (reverse_circle _ _ _ _ Hw E1) as (W1 & _).
  destruct (existsb _ _).
  - apply (IH _ _ _ _ _ W1 Hc) in Hr; [done| |done]. rewrite push_new_rev. set_solver.
  - apply st_bind_Ok in Hr as ([] & w2 & E2 & Hr). assert (Hx := post_outside _ _ _ W1 E2). destruct (post_circle _ _ _ _ W1 E2) as (W2 & _).
    apply st_bind_Ok in Hr as (y & w2' & E3 & Hr). assert (w2' = w2) as -> by (unfold the_gen, gets in E3; rewrite st_bind in E3; by destruct (gens w2 !! x); injection E3).
    apply st_bind_Ok in Hr as ([] & w3 & E4 & Hr). destruct (take_objects_circle _ _ _ _ _ W2 E4) as (W3 & _).
    apply (IH _ _ _ _ _ W3 Hc) in Hr; [done|done|set_solver].
Qed.
Lemma run_method_circle self m : kept (run_method bldpath find_dir target_node find_resource class_mappings post self m).
Proof.
  destruct m; cbn [run_method].
  - apply apply_core_circle.
  - apply apply_link_circle.
  - apply the_gen_circle. intros g. apply keeps_bind; [apply _|apply keeps_gets; apply _|]. intros n.
    apply keeps_bind; [apply _|apply visit_libs_circle|]. intros _. by apply set_gen_circle.
  - apply the_gen_circle. intros g. apply keeps_bind; [apply _|apply keeps_gets; apply _|]. intros n.
    apply keeps_bind; [apply _|apply visit_objects_circle|]. intros _. apply keeps_ret; apply _.
  - apply apply_obj_vars_circle.
  - apply keeps_ret; apply _.
Qed.
End Rounds.

(** The method that finds the circle does not return. *)
Lemma method_stuck post self m w w' :
  (∀ y, kept (post y)) → (∀ y w w', circle w → post y w = (Ok tt, w') → y ∉ C) → self ∈ C → circle w →
  m = (if as_library self then apply_lib_vars_ else apply_objdeps_) →
  run_method bldpath find_dir target_node find_resource class_mappings post self m w = (Ok tt, w') → False.
Proof.
  intros Hp Ho Hs Hw ->. destruct (Hw self Hs) as (g & Hg & _ & _ & c & Hc & Hin). destruct (as_library self); cbn [run_method].
  - unfold apply_lib_vars, the_gen, gets. rewrite !st_bind, Hg. cbn [mret ST_ret]. rewrite !st_bind.
    destruct (visit_libs _ _ _ _ _ _ _ w) as [[vs|e] w1] eqn:E; [|done]. intros _. by eapply visit_libs_stuck in E; [..|apply not_elem_of_nil].
  - unfold apply_objdeps, the_gen, gets. rewrite !st_bind, Hg. cbn [mret ST_ret]. rewrite !st_bind.
    destruct (visit_objects _ _ _ _ _ w) as [[vs|e] w1] eqn:E; [|done]. intros _. by eapply visit_objects_stuck in E; [..|apply not_elem_of_nil].
Qed.
Lemma methods_stuck post self l w w' :
  (∀ y, kept (post y)) → (∀ y w w', circle w → post y w = (Ok tt, w') → y ∉ C) → self ∈ C → circle w →
  (if as_library self then apply_lib_vars_ else apply_objdeps_) ∈ l →
  for_each (run_method bldpath find_dir target_node find_resource class_mappings post self) l w = (Ok tt, w') → False.
Proof.
  intros Hp Ho Hs. revert w. induction l as [|m l IH]; intros w Hw Hl; [by apply elem_of_nil in Hl|]. cbn [for_each].
  rewrite st_bind. destruct (run_method _ _ _ _ _ _ _ m w) as [[[]|e] w1] eqn:E; [|done].
  apply elem_of_cons in Hl as [Hm|Hl]; [by eapply method_stuck in E|]. apply IH; [|done].
  by apply (run_method_circle post Hp self m) in E as (? & _).
Qed.
Lemma post_circle n : ∀ x, kept (posting n x) ∧ ∀ w w', circle w → posting n x w = (Ok tt, w') → x ∉ C.
Proof.
  induction n as [|n IH]; intros x; cbn [post]; [split; [by apply keeps_throw; [apply _|]|done]|].
  assert (Hk : ∀ y, kept (posting n y)) by apply IH. assert (Ho : ∀ y w w', circle w → posting n y w = (Ok tt, w') → y ∉ C) by apply IH.
  assert (Hm : ∀ l, kept (for_each (run_method bldpath find_dir target_node find_resource class_mappings (posting n) x) l)).
  { intros l. apply keeps_for_each; [apply _|]. intros m _. by apply run_method_circle. }
  assert (Hx : ∀ w w', circle w → (g ← the_gen x; if posted g then mret tt else for_each (run_method bldpath find_dir target_node find_resource class_mappings (posting n) x) (meths g);; set_gen x with_posted) w = (Ok tt, w') → x ∉ C).
  { intros w w' Hw Hr Hc. destruct (Hw x Hc) as (g & Hg & Hp & Hl & _). unfold the_gen, gets in Hr. rewrite !st_bind, Hg in Hr. cbn [mret ST_ret] in Hr.
    rewrite Hp, st_bind in Hr. destruct (for_each _ _ w) as [[[]|e] w1] eqn:E; [|done]. by eapply methods_stuck in E. }
  split; [|done]. intros w r w' Hw Hr. split_and!; [|done|done]. revert Hr. unfold the_gen, gets. rewrite !st_bind.
  destruct (gens w !! x) as [g|] eqn:Hg; [|by intros [= _ <-]]. cbn [mret ST_ret]. destruct (posted g) eqn:Hp; [by intros [= _ <-]|].
  rewrite st_bind. destruct (for_each _ _ w) as [[[]|e] w1] eqn:E; [|intros [= _ <-]; by apply (Hm _ _ _ _ Hw) in E as (? & _)].
  assert (E' := E). apply (Hm _ _ _ _ Hw) in E' as (W1 & _). intros [= _ <-]. intros c Hc. destruct (W1 c Hc) as (g1 & Hg1 & Hi).
  exists g1. split; [|done]. cbn. rewrite lookup_alter_ne; [done|]. intros <-.
  destruct (Hw x Hc) as (g' & Hg' & _ & Hl & _). assert (g' = g) as -> by congruence. by eapply methods_stuck in E.
Qed.

(** A generator that uses itself through others, as a library or for its object
    files, is never posted: however deep the calls may go, none of the generators of
    the circle returns from [post], since the mark is set at the end only. *)
Theorem circle_never_posted n x w : circle w → x ∈ C → is_ok (fst (posting n x w)) = false.
Proof.
  intros Hw Hx. destruct (posting n x w) as [[[]|e] w'] eqn:E; [|done]. by destruct (proj2 (post_circle n x) _ _ Hw E).
Qed.
End Circle.

(** ** A project: a program, two shared libraries, a static one and some object files *)

Lemma wf_intro rank w :
  map_Forall (λ x g, Forall (λ y, rank y < rank x) (uselib_local g ++ to_list (add_objects g))) (gens w) →
  map_Forall (λ x g, map_Forall (λ y g', link_task g = None ∨ link_task g ≠ link_task g' ∨ x = y) (gens w)) (gens w) →
  map_Forall (λ _ g, Forall (λ t, t < length (tasks w)) (option_list (link_task g) ++ compiled_tasks (own g))) (gens w) → wf rank w.
Proof.
  intros H1 H2 H3. split; [done| | |].
  - intros x y g g' t Hx Hy Ht Ht'. destruct (H2 x g Hx y g' Hy) as [?|[?|?]]; congruence.
  - intros x g t Hx Ht. assert (H := H3 x g Hx). cbn in H. rewrite Ht in H. by inversion H.
  - intros x g t Hx Ht. assert (H := H3 x g Hx). cbn in H. rewrite Forall_app, !Forall_forall in H. by apply H.
Qed.

Definition demo_meths : list method := [apply_core_; apply_link_; apply_lib_vars_; apply_objdeps_; apply_obj_vars_].
Definition demo_env : gmap string (list string) :=
  list_to_map [("LIB_ST", ["-l%s"]); ("STATICLIB_ST", ["-l%s"]); ("LIBPATH_ST", ["-L%s"]); ("STATICLIBPATH_ST", ["-L%s"])].
Definition demo_mappings : gmap string hook := list_to_map [(".c", c_hook_); (".cpp", cxx_hook_); (".cc", cxx_hook_); (".cxx", cxx_hook_)].
Definition demo_resource (folder name : string) : option string := if name =s "no.c" then None else Some (folder +:+ "/" +:+ name).
(** A generator that has not been posted. *)
Definition demo_gen feature name libs objects srcs meths env : Gen :=
  mkGen [feature] name [] libs objects [] [] (mkSources "src" srcs None 1 ∅ [] []) meths None env false.
Definition demo_lib feature name libs srcs : Gen := demo_gen feature name libs (Names []) (Names srcs) demo_meths demo_env.
Definition demo_objs name objects srcs : Gen := demo_gen "cc" name [] objects srcs [apply_core_] ∅.
(** The program when its sources have been gone through and its link task is there. *)
Definition demo_app : Gen :=
  mkGen ["cprogram"] "app" [] ["net"; "util"] (Text "gen.2 gen") [] [] (mkSources "src" (Text "main.c") None 1 ∅ ["src/main.c"] [0])
    demo_meths (Some 1) demo_env false.
Definition demo_libs : gmap string Gen := list_to_map
  [("net", demo_lib "cshlib" "libs/net" ["z"; "util"] ["net.cc"]);
   ("z", demo_lib "cshlib" "libs/z" [] ["z.c"]);
   ("util", demo_lib "cstaticlib" "util" [] ["util.c"]);
   ("gen", demo_objs "gen" (Text "gen.2") (Text "a.c b.cc"));
   ("gen.2", demo_objs "gen.2" (Names []) (Text "c.c"))].
Definition demo_link_task : Task := mkTask ["src/main_1.o"] ["app"] [] [].
Definition demo_world : World := mkWorld (<["app" := demo_app]> demo_libs) [mkTask ["src/main.c"] ["src/main_1.o"] [] []; demo_link_task].
Definition demo_start : World :=
  mkWorld (<["app" := demo_gen "cprogram" "app" ["net"; "util"] (Text "gen.2 gen") (Text "main.c") demo_meths demo_env]> demo_libs) [].
Definition demo_rank (x : string) : nat := if x =s "app" then 2 else if (x =s "net") || (x =s "gen") then 1 else 0.
Abbreviation demo_post := (post id (λ _ _, None) target demo_resource demo_mappings).

Lemma demo_wf : wf demo_rank demo_world.
Proof. apply wf_intro; match goal with |- ?P => apply (bool_decide_unpack P) end; by vm_compute. Qed.
Example demo_link :
  let r := apply_lib_vars id (λ _ _, None) (demo_post 3) "app" demo_world in
  fst r = Ok tt ∧ option_map (λ g, (env_get (env g) "LIB", env_get (env g) "STATICLIB")) (gens (snd r) !! "app") = Some (["net"; "z"], ["util"]).
Proof. by vm_compute. Qed.

Lemma demo_start_wf : wf demo_rank demo_start.
Proof. apply wf_intro; match goal with |- ?P => apply (bool_decide_unpack P) end; by vm_compute. Qed.
(** From a world in which nothing was posted: the link has the objects of the program and
    those of both generators. *)
Example demo_build :
  let '(r, w') := demo_post 4 "app" demo_start in
  r = Ok tt ∧ inputs <$> (filter (λ k, outputs k = ["app"]) (tasks w')) = [["src/main_1.o"; "src/c_1.o"; "src/a_1.o"; "src/b_1.o"]].
Proof. by vm_compute. Qed.
Example sources_missing :
  let w srcs := mkWorld {["a" := demo_objs "a" (Names []) srcs]} [] in
  fst (demo_post 1 "a" (w (Text "no.c"))) = Err (WafError "source not found: 'no.c' in 'src'") ∧
  fst (demo_post 1 "a" (w (Text "a.d"))) = Err (WafError "Cannot guess how to process src/a.d") ∧
  fst (demo_post 1 "a" (w (Text ".c"))) = Err AttributeError.
Proof. by vm_compute. Qed.

Lemma apply_lib_vars_correct_witness :
  let w' := snd (apply_lib_vars id (λ _ _, None) (demo_post 3) "app" demo_world) in
  ∃ vs g' k', NoDup vs ∧ (∀ v, v ∈ vs ↔ used demo_world ["net"; "util"] v) ∧ Forall (is_posted w') vs ∧
    gens w' !! "app" = Some g' ∧ tasks w' !! 1 = Some k' ∧
    run_after k' = [] ++ link_tasks w' vs ∧
    dep_nodes k' = [] ++ concat (task_outputs w' <$> link_tasks w' vs) ∧
    [] ++ lib_names is_static w' vs `prefix_of` env_get (env g') "STATICLIB" ∧
    [] ++ lib_names (λ y, negb (is_static y) && is_shared y) w' vs `prefix_of` env_get (env g') "LIB".
Proof.
  refine (apply_lib_vars_correct id (λ _ _, None) target demo_resource demo_mappings demo_rank 3 "app" demo_world _ demo_app 1
    demo_link_task demo_wf _ eq_refl eq_refl eq_refl _); by vm_compute.
Defined.
Lemma post_compiles_witness :
  let w' := snd (demo_post 1 "gen" demo_start) in
  let s := mkSources "src" (Text "a.c b.cc") None 1 ∅ [] [] in
  let nodes := ["src/a.c"; "src/b.cc"] in
  objects_of w' "gen" = ["src/a_1.o"; "src/b_1.o"] ∧ Forall (found demo_resource demo_mappings s) ["a.c"; "b.cc"] ∧ Forall (handled demo_mappings s) nodes.
Proof.
  refine (post_compiles id (λ _ _, None) target demo_resource demo_mappings demo_rank 1 "gen" demo_start _ (demo_objs "gen" (Text "gen.2") (Text "a.c b.cc")) [] []
    demo_start_wf eq_refl eq_refl eq_refl eq_refl eq_refl _ _ _); [apply not_elem_of_nil..|by vm_compute].
Defined.
Lemma post_terminates_witness : fst (demo_post 3 "app" demo_world) ≠ Err OutOfFuel.
Proof. apply (post_terminates id (λ _ _, None) target demo_resource demo_mappings demo_rank); [apply demo_wf|]. by apply Nat.ltb_lt. Defined.

(** Two libraries that use each other. *)
Definition circle_world : World := mkWorld (list_to_map
  [("a", demo_lib "cshlib" "a" ["b"] ["a.c"]); ("b", demo_lib "cshlib" "b" ["a"] ["b.c"])]) [].
Example circle_fuel : fst (demo_post 10 "a" circle_world) = Err OutOfFuel ∧ fst (demo_post 30 "a" circle_world) = Err OutOfFuel.
Proof. by vm_compute. Qed.
Lemma circle_never_posted_witness : ∀ n, is_ok (fst (demo_post n "a" circle_world)) = false.
Proof.
  intros n. apply (circle_never_posted id (λ _ _, None) target demo_resource demo_mappings ["a"; "b"] (λ _, true)); [|by left].
  intros c [-> | ->%list_elem_of_singleton]%elem_of_cons; eexists; (split; [reflexivity|]); (split_and!; [done|by right; right; left|]); eexists;
    (split; [|by left]); [by right; left|by left].
Defined.

(** ** What goes wrong *)

(** A name that is not there is reported when a program uses it, and is an AttributeError when
    a shared library does. *)
Lemma unknown_library_of_shared :
  let w libs := mkWorld (<["app" := demo_gen "cprogram" "app" libs (Names []) (Text "main.c") demo_meths demo_env]>
      {["net" := demo_lib "cshlib" "net" ["nowhere"] ["net.c"]]}) [] in
  fst (demo_post 9 "app" (w ["nowhere"])) =
    Err (WafError "object 'nowhere' was not found in uselib_local (required by 'app')") ∧
  fst (apply_lib_vars id (λ _ _, None) (λ _, mret tt) "app" (w ["net"])) = Err AttributeError.
Proof. by vm_compute. Qed.
(** Objects that are not linked cannot use a library of the project. *)
Lemma objects_with_library :
  let w := mkWorld (list_to_map [("objs", demo_gen "cc" "objs" ["z"] (Names []) (Text "o.c") [apply_core_; apply_lib_vars_] ∅);
      ("z", demo_lib "cshlib" "z" [] ["z.c"])]) [] in
  fst (demo_post 9 "objs" w) = Err AttributeError.
Proof. by vm_compute. Qed.
Example objects_reversed :
  let gen n objs := demo_objs n (Names objs) (Names [n +:+ ".c"]) in
  let w objs := mkWorld (list_to_map [("app", demo_gen "cprogram" "app" [] (Names objs) (Text "main.c") demo_meths demo_env); ("a", gen "a" ["b"; "c"]);
      ("b", gen "b" []); ("c", gen "c" [])]) [] in
  let objects_of_a objs := option_map add_objects (gens (snd (apply_objdeps (λ _, mret tt) "app" (w objs))) !! "a") in
  objects_of_a ["a"] = Some (Names ["b"; "c"]) ∧ objects_of_a ["b"; "c"; "a"] = Some (Names ["c"; "b"]).
Proof. by vm_compute. Qed.
