(* ===== verification/CppRe.v ===== *)
(** * Regular expressions with alternatives, nested repetition and look-around

    What tools/cpplint.py uses of Python's [re]: a match is searched by
    backtracking, so the model of an expression is the list of the positions where
    it can end, in the order Python tries them; the match is the first one. *)
From S2P Require Import Prelude PyStr.

(** A position: the text before it (last character first), the text after it, and
    the groups so far. *)
Record pos := mkPos { before : string; after : string; groups : list (nat * string) }.

Inductive rx :=
| Eps
| Cls (p : ascii → bool)
| Cat (r1 r2 : rx)
| Alt (r1 r2 : rx)
| Star (r : rx)
| Grp (n : nat) (r : rx)
| Bol
| Eol
| WordB
| Ahead (r : rx)
| NotAhead (r : rx)
| NotBehind (r : rx)
| Ref (n : nat).

Definition word_char (a : ascii) : bool := is_alpha a || is_digit a || (a =c "_").
Definition at_end (s : string) : bool := (s =s "") || (s =s nl_str).
Definition first_is (p : ascii → bool) (s : string) : bool :=
  match s with String a _ => p a | EmptyString => false end.

Fixpoint star_runs (f : pos → list pos) (fuel : nat) (x : pos) : list pos :=
  match fuel with
  | 0 => [x]
  | S n =>
      (filter (λ y, String.length (after y) < String.length (after x)) (f x) ≫= star_runs f n) ++ [x]
  end.

(** The text between two positions. *)
Definition between (x y : pos) : string := str_take (String.length (after x) - String.length (after y)) (after x).
Definition with_group (n : nat) (t : string) (x : pos) : pos := mkPos (before x) (after x) ((n, t) :: groups x).
Definition advance (x : pos) (a : ascii) (s : string) : pos := mkPos (String a (before x)) s (groups x).

(** The text before [x] that is as long as what the expression matches. *)
Fixpoint width (r : rx) : nat :=
  match r with Cls _ => 1 | Cat r1 r2 => width r1 + width r2 | _ => 0 end.
Fixpoint back (n : nat) (x : pos) : option pos :=
  match n with
  | 0 => Some x
  | S n' => match before x with
            | String a b => back n' (mkPos b (String a (after x)) (groups x))
            | EmptyString => None
            end
  end.

(** The text [t], at a position: for a group that is referred to. *)
Fixpoint skip_text (t : string) (x : pos) : list pos :=
  match t with
  | EmptyString => [x]
  | String a t' =>
      match after x with
      | String b s => if a =c b then skip_text t' (advance x b s) else []
      | EmptyString => []
      end
  end.
Definition group_text (n : nat) (gs : list (nat * string)) : option string :=
  snd <$> List.find (λ g, bool_decide (g.1 = n)) gs.

Fixpoint runs (r : rx) (x : pos) : list pos :=
  match r with
  | Eps => [x]
  | Cls p => match after x with String a s => if p a then [advance x a s] else [] | EmptyString => [] end
  | Cat r1 r2 => runs r1 x ≫= runs r2
  | Alt r1 r2 => runs r1 x ++ runs r2 x
  | Star r1 => star_runs (runs r1) (S (String.length (after x))) x
  | Grp n r1 => (λ y, with_group n (between x y) y) <$> runs r1 x
  | Bol => if before x =s "" then [x] else []
  | Eol => if at_end (after x) then [x] else []
  | WordB => if xorb (first_is word_char (before x)) (first_is word_char (after x)) then [x] else []
  | Ahead r1 => match runs r1 x with [] => [] | _ :: _ => [x] end
  | NotAhead r1 => match runs r1 x with [] => [x] | _ :: _ => [] end
  | NotBehind r1 =>
      match back (width r1) x with
      | Some y => match runs r1 y with [] => [x] | _ :: _ => [] end
      | None => [x]
      end
  | Ref n => match group_text n (groups x) with Some t => skip_text t x | None => [] end
  end.

(** [re.match(s)], [re.search(s)]: where the match starts and ends. *)
Definition start_of (s : string) : pos := mkPos "" s [].
Definition match_at (r : rx) (x : pos) : option (pos * pos) := pair x <$> head (runs r x).
Definition re_match (r : rx) (s : string) : option (pos * pos) := match_at r (start_of s).
Fixpoint search_from (r : rx) (b s : string) : option (pos * pos) :=
  match match_at r (mkPos b s []) with
  | Some m => Some m
  | None => match s with String a s' => search_from r (String a b) s' | EmptyString => None end
  end.
Definition re_search (r : rx) (s : string) : option (pos * pos) := search_from r "" s.
Definition group (n : nat) (m : pos * pos) : option string :=
  group_text n (groups m.2).
Definition found (m : option (pos * pos)) : bool := bool_decide (is_Some m).

(** [re.sub(new, s)]; the expressions used match no empty text. *)
Fixpoint sub_from (fuel : nat) (r : rx) (new : string) (b s : string) : string :=
  match fuel, s with
  | S n, String a s' =>
      match match_at r (mkPos b s []) with
      | Some (_, y) =>
          if (String.length (after y) <? String.length s)%nat then new +:+ sub_from n r new (before y) (after y)
          else String a (sub_from n r new (String a b) s')
      | None => String a (sub_from n r new (String a b) s')
      end
  | _, _ => ""
  end.
Definition re_sub (r : rx) (new s : string) : string := sub_from (S (String.length s)) r new "" s.

(** [len(re.findall(s))] and [re.split(s)], for expressions that match no empty text; the
    one of [split] has no groups. *)
Fixpoint findall_from (fuel : nat) (r : rx) (b s : string) : nat :=
  match fuel with
  | 0 => 0
  | S n =>
      match search_from r b s with
      | Some (_, y) => S (findall_from n r (before y) (after y))
      | None => 0
      end
  end.
Definition findall_count (r : rx) (s : string) : nat := findall_from (S (String.length s)) r "" s.
Fixpoint split_from (fuel : nat) (r : rx) (b s : string) : list string :=
  match fuel with
  | 0 => [s]
  | S n =>
      match search_from r b s with
      | Some (x, y) => str_take (String.length s - String.length (after x)) s :: split_from n r (before y) (after y)
      | None => [s]
      end
  end.
Definition re_split (r : rx) (s : string) : list string := split_from (S (String.length s)) r "" s.

(** ** Building blocks *)

Definition Opt (r : rx) : rx := Alt r Eps.
Definition Plus (r : rx) : rx := Cat r (Star r).
Definition Chr (a : ascii) : rx := Cls (Ascii.eqb a).
Fixpoint Lit (s : string) : rx := match s with EmptyString => Eps | String a s' => Cat (Chr a) (Lit s') end.
Fixpoint Cats (l : list rx) : rx := match l with [] => Eps | [r] => r | r :: l' => Cat r (Cats l') end.
Fixpoint Alts (l : list rx) : rx := match l with [] => Cls (λ _, false) | [r] => r | r :: l' => Alt r (Alts l') end.
Definition Dot : rx := Cls (λ a, negb (a =c nl)).
Definition one_of (s : string) (a : ascii) : bool := str_mem a s.
Definition Any (s : string) : rx := Cls (one_of s).
Definition None_of (s : string) : rx := Cls (λ a, negb (one_of s a)).
Definition Space : rx := Cls is_space.
Definition Word : rx := Cls word_char.
Definition Digit : rx := Cls is_digit.

(** ** Lemmas *)

(** The text of a position and of the ones a match ends in is the same. *)
Fixpoint str_rev (s acc : string) : string :=
  match s with EmptyString => acc | String a s' => str_rev s' (String a acc) end.
Definition whole (x : pos) : string := str_rev (before x) (after x).

Lemma star_runs_ind (f : pos → list pos) (I : pos → Prop) n x :
  (∀ y z, I y → z ∈ f y → I z) → I x → ∀ y, y ∈ star_runs f n x → I y.
Proof.
  intros Hf. revert x. induction n as [|n IH]; intros x Hx y; cbn [star_runs].
  - by intros ->%list_elem_of_singleton.
  - intros [(z & Hy & [_ Hz]%list_elem_of_filter)%list_elem_of_bind| ->%list_elem_of_singleton]%elem_of_app; [|done].
    apply (IH z); [by eapply Hf|done].
Qed.

Lemma skip_text_whole t x y : y ∈ skip_text t x → whole y = whole x.
Proof.
  revert x. induction t as [|a t IH]; intros x; cbn [skip_text]; [by intros ->%list_elem_of_singleton|].
  destruct (after x) as [|b s] eqn:E; [by intros []%elem_of_nil|]. destruct (a =c b); [|by intros []%elem_of_nil].
  intros Hy%IH. rewrite Hy. unfold whole. cbn. by rewrite E.
Qed.
Lemma runs_whole r x y : y ∈ runs r x → whole y = whole x.
Proof.
  revert x y. induction r as [|p|r1 IH1 r2 IH2|r1 IH1 r2 IH2|r1 IH|n r1 IH| | | |r1 IH|r1 IH|r1 IH|n]; intros x y; cbn [runs].
  - by intros ->%list_elem_of_singleton.
  - destruct (after x) as [|a s] eqn:E; [by intros []%elem_of_nil|]. destruct (p a); [|by intros []%elem_of_nil].
    intros ->%list_elem_of_singleton. unfold whole. cbn. by rewrite E.
  - intros (z & H2 & H1)%list_elem_of_bind. etrans; [by apply IH2|by apply IH1].
  - intros [?|?]%elem_of_app; auto.
  - apply (star_runs_ind (runs r1) (λ z, whole z = whole x)); [|done]. intros z1 z2 H1 H2. by rewrite <- H1; apply IH.
  - intros (z & -> & Hz)%list_elem_of_fmap. unfold whole, with_group. cbn. by apply IH.
  - destruct (_ =s _); [by intros ->%list_elem_of_singleton|by intros []%elem_of_nil].
  - destruct (at_end _); [by intros ->%list_elem_of_singleton|by intros []%elem_of_nil].
  - destruct (xorb _ _); [by intros ->%list_elem_of_singleton|by intros []%elem_of_nil].
  - destruct (runs r1 x); [by intros []%elem_of_nil|by intros ->%list_elem_of_singleton].
  - destruct (runs r1 x); [by intros ->%list_elem_of_singleton|by intros []%elem_of_nil].
  - destruct (back _ _) as [z|]; [|by intros ->%list_elem_of_singleton].
    destruct (runs r1 z); [by intros ->%list_elem_of_singleton|by intros []%elem_of_nil].
  - destruct (group_text n _) as [t|]; [apply skip_text_whole|by intros []%elem_of_nil].
Qed.

(** An expression that starts with a character matches nowhere in a text without it. *)
Lemma sub_from_none r new s : ∀ n b, String.length s < n →
  (∀ b s', (∃ t, s = t +:+ s') → s' ≠ "" → runs r (mkPos b s' []) = []) → sub_from n r new b s = s.
Proof.
  induction s as [|a s IH]; intros n b Hn Hr; [by destruct n|]. destruct n as [|n]; [lia|]. cbn [sub_from].
  unfold match_at. rewrite Hr; [|by exists ""|done]. cbn. f_equal. apply IH; [cbn in Hn; lia|].
  intros b' s' [t ->] Hs. apply Hr; [|done]. by exists (String a t).
Qed.
Lemma runs_Chr_no a r b s : (match s with String c _ => c ≠ a | EmptyString => True end) →
  runs (Cat (Chr a) r) (mkPos b s []) = [].
Proof. destruct s as [|c s]; [done|]. intros Hc. cbn. destruct (Ascii.eqb_spec a c); [by subst|done]. Qed.

(** Literal text matches where the text starts with it. *)
Lemma prefix_cons a p b s : String.prefix (String a p) (String b s) = Ascii.eqb a b && String.prefix p s.
Proof. cbn. destruct (ascii_dec a b) as [->|Hab]; [by rewrite Ascii.eqb_refl|]. by rewrite (proj2 (Ascii.eqb_neq _ _) Hab). Qed.
Lemma runs_Lit p b s g :
  runs (Lit p) (mkPos b s g) =
    if startswith p s then [mkPos (str_rev p b) (str_drop (String.length p) s) g] else [].
Proof.
  unfold startswith. revert b s. induction p as [|a p IH]; intros b s.
  - by destruct s.
  - destruct s as [|c s]; [done|]. rewrite prefix_cons. cbn [Lit runs Chr after].
    destruct (Ascii.eqb a c) eqn:E; [|done]. apply Ascii.eqb_eq in E as ->.
    change ([advance (mkPos b (String c s) g) c s] ≫= runs (Lit p)) with (runs (Lit p) (mkPos (String c b) s g) ++ []).
    by rewrite app_nil_r, IH.
Qed.
Lemma found_iff m : found m = true ↔ is_Some m.
Proof. unfold found. apply bool_decide_eq_true. Qed.
Lemma found_Lit p s : found (re_match (Lit p) s) = startswith p s.
Proof.
  unfold re_match, match_at, start_of. rewrite runs_Lit. by destruct (startswith p s).
Qed.
Lemma found_Alt r1 r2 s : found (re_match (Alt r1 r2) s) = found (re_match r1 s) || found (re_match r2 s).
Proof. unfold re_match, match_at. cbn [runs]. by destruct (runs r1 _). Qed.

(** Examples: greedy repetition gives back, alternatives are tried in order. *)
Example greedy : (after ∘ snd <$> re_match (Cats [Star Dot; Chr "b"]) "abab-") = Some "-".
Proof. reflexivity. Qed.
Example searched : (λ m, (after m.2, group 1 m)) <$> re_search (Cats [WordB; Lit "if"; WordB; Grp 1 (Star Word)]) "elif if(" = Some ("(", Some "").
Proof. reflexivity. Qed.
Example substituted : re_sub (Cats [Chr "'"; Dot; Chr "'"]) "''" "f('a', 'b')" = "f('', '')".
Proof. reflexivity. Qed.

(** What is after a match ends what was after its start. *)
Definition suffix_of (t s : string) : Prop := ∃ u, s = u +:+ t.
#[export] Instance suffix_of_preorder : PreOrder suffix_of.
Proof.
  split; [by intros s; exists ""|]. intros s1 s2 s3 [u ->] [v ->]. exists (v +:+ u). by rewrite str_app_assoc.
Qed.
Lemma skip_text_suffix t x y : y ∈ skip_text t x → suffix_of (after y) (after x).
Proof.
  revert x. induction t as [|a t IH]; intros x; cbn [skip_text]; [by intros ->%list_elem_of_singleton|].
  destruct (after x) as [|b s] eqn:E; [by intros []%elem_of_nil|]. destruct (a =c b); [|by intros []%elem_of_nil].
  intros [u Hu]%IH. cbn in Hu. rewrite Hu. by exists (String b u).
Qed.
Lemma runs_suffix r x y : y ∈ runs r x → suffix_of (after y) (after x).
Proof.
  revert x y. induction r as [|p|r1 IH1 r2 IH2|r1 IH1 r2 IH2|r1 IH|n r1 IH| | | |r1 IH|r1 IH|r1 IH|n]; intros x y; cbn [runs].
  - by intros ->%list_elem_of_singleton.
  - destruct (after x) as [|a s] eqn:E; [by intros []%elem_of_nil|]. destruct (p a); [|by intros []%elem_of_nil].
    intros ->%list_elem_of_singleton. by exists (String a "").
  - intros (z & H2 & H1)%list_elem_of_bind. etrans; [by apply IH2|by apply IH1].
  - intros [?|?]%elem_of_app; auto.
  - apply (star_runs_ind (runs r1) (λ z, suffix_of (after z) (after x))); [|done].
    intros z1 z2 H1 H2. etrans; [by apply IH|done].
  - intros (z & -> & Hz)%list_elem_of_fmap. exact (IH x z Hz).
  - destruct (_ =s _); [by intros ->%list_elem_of_singleton|by intros []%elem_of_nil].
  - destruct (at_end _); [by intros ->%list_elem_of_singleton|by intros []%elem_of_nil].
  - destruct (xorb _ _); [by intros ->%list_elem_of_singleton|by intros []%elem_of_nil].
  - destruct (runs r1 x); [by intros []%elem_of_nil|by intros ->%list_elem_of_singleton].
  - destruct (runs r1 x); [by intros ->%list_elem_of_singleton|by intros []%elem_of_nil].
  - destruct (back _ _) as [z|]; [|by intros ->%list_elem_of_singleton].
    destruct (runs r1 z); [by intros ->%list_elem_of_singleton|by intros []%elem_of_nil].
  - destruct (group_text n _) as [t|]; [apply skip_text_suffix|by intros []%elem_of_nil].
Qed.

(** An expression that needs the text [p] somewhere. *)
Definition needs (p : string) (r : rx) : Prop := ∀ x, find p (after x) = None → runs r x = [].
Lemma find_None_suffix p s t : find p (s +:+ t) = None → find p t = None.
Proof.
  induction s as [|a s IH]; [done|]. rewrite str_app_cons. cbn [find].
  destruct (String.prefix _ _); [done|]. intros H. apply IH. by destruct (find p (s +:+ t)).
Qed.
Lemma needs_Lit p : p ≠ "" → needs p (Lit p).
Proof.
  intros Hp [b s g]. cbn [after]. rewrite runs_Lit. unfold startswith. destruct s as [|a s]; cbn [find]; by destruct (String.prefix _ _).
Qed.
Lemma needs_Cat_l p r1 r2 : needs p r1 → needs p (Cat r1 r2).
Proof. intros H x Hx. cbn [runs]. by rewrite H. Qed.
Lemma needs_Cat_r p r1 r2 : needs p r2 → needs p (Cat r1 r2).
Proof.
  intros H x Hx. cbn [runs]. apply elem_of_nil_inv. intros z (y & Hz & Hy)%list_elem_of_bind.
  apply runs_suffix in Hy as [u Hu]. rewrite Hu in Hx. apply find_None_suffix in Hx. rewrite H in Hz by done.
  by apply elem_of_nil in Hz.
Qed.
Lemma needs_Alt p r1 r2 : needs p r1 → needs p r2 → needs p (Alt r1 r2).
Proof. intros H1 H2 x Hx. cbn [runs]. by rewrite H1, H2. Qed.
#[export] Hint Resolve needs_Lit needs_Alt : py.

Lemma re_sub_needs p r new s : needs p r → find p s = None → re_sub r new s = s.
Proof.
  intros Hr Hs. apply sub_from_none; [lia|]. intros b s' [t ->] _. apply Hr. by apply find_None_suffix in Hs.
Qed.

(** An expression that needs a character with the property [p] after the position. *)
Definition requires (p : ascii → bool) (r : rx) : Prop := ∀ x, str_forall (negb ∘ p) (after x) = true → runs r x = [].
Lemma requires_Cls p q : (∀ a, q a = true → p a = true) → requires p (Cls q).
Proof.
  intros Hq x Hx. cbn [runs]. destruct (after x) as [|a s]; [done|]. cbn in Hx. apply andb_true_iff in Hx as [Ha _].
  destruct (q a) eqn:E; [|done]. by rewrite (Hq a E) in Ha.
Qed.
Lemma requires_Chr p a : p a = true → requires p (Chr a).
Proof. intros Ha. apply requires_Cls. by intros b <-%Ascii.eqb_eq. Qed.
Lemma requires_Cat_l p r1 r2 : requires p r1 → requires p (Cat r1 r2).
Proof. intros H x Hx. cbn [runs]. by rewrite H. Qed.
Lemma requires_Cat_r p r1 r2 : requires p r2 → requires p (Cat r1 r2).
Proof.
  intros H x Hx. cbn [runs]. apply elem_of_nil_inv. intros z (y & Hz & Hy)%list_elem_of_bind.
  apply runs_suffix in Hy as [u Hu]. rewrite Hu, str_forall_app in Hx. apply andb_true_iff in Hx as [_ Hx].
  rewrite H in Hz by done. by apply elem_of_nil in Hz.
Qed.
Lemma requires_Alt p r1 r2 : requires p r1 → requires p r2 → requires p (Alt r1 r2).
Proof. intros H1 H2 x Hx. cbn [runs]. by rewrite H1, H2. Qed.
Lemma requires_Grp p n r : requires p r → requires p (Grp n r).
Proof. intros H x Hx. cbn [runs]. by rewrite H. Qed.
#[export] Hint Resolve requires_Chr requires_Alt requires_Grp : py.

Lemma requires_search p r b s : requires p r → str_forall (negb ∘ p) s = true → search_from r b s = None.
Proof.
  intros Hr. revert b. induction s as [|a s IH]; intros b Hs; cbn [search_from]; unfold match_at; rewrite Hr by done; [done|].
  cbn in Hs. apply andb_true_iff in Hs as [_ Hs]. by apply IH.
Qed.
Lemma requires_sub p r new s : requires p r → str_forall (negb ∘ p) s = true → re_sub r new s = s.
Proof.
  intros Hr Hs. apply sub_from_none; [lia|]. intros b s' [t ->] _. apply Hr. cbn. rewrite str_forall_app in Hs. by apply andb_true_iff in Hs as [_ ?].
Qed.
