(* ===== verification/CppState.v ===== *)
(** * The state of the style checker (tools/cpplint.py)

    What is global while files are checked: how verbose to be, the filters of error
    categories, the counts of errors, the lines with NOLINT comments; and the
    states that go from line to line of one file: the order of the includes and the
    length of the current function. *)
From S2P Require Import Prelude PyStr PyState CppRe.

(** ** Categories *)

Definition _ERROR_CATEGORIES : list string :=
  [ "build/class"; "build/deprecated"; "build/endif_comment"; "build/forward_decl"; "build/header_guard";
    "build/include"; "build/include_alpha"; "build/include_order"; "build/include_what_you_use";
    "build/namespaces"; "build/printf_format"; "build/storage_class"; "legal/copyright";
    "readability/braces"; "readability/casting"; "readability/check"; "readability/constructors";
    "readability/fn_size"; "readability/function"; "readability/multiline_comment";
    "readability/multiline_string"; "readability/nolint"; "readability/streams"; "readability/todo";
    "readability/utf8"; "runtime/arrays"; "runtime/casting"; "runtime/explicit"; "runtime/int";
    "runtime/init"; "runtime/invalid_increment"; "runtime/member_string_references"; "runtime/memset";
    "runtime/operator"; "runtime/printf"; "runtime/printf_format"; "runtime/references"; "runtime/rtti";
    "runtime/sizeof"; "runtime/string"; "runtime/threadsafe_fn"; "runtime/virtual"; "whitespace/blank_line";
    "whitespace/braces"; "whitespace/comma"; "whitespace/comments"; "whitespace/end_of_line";
    "whitespace/ending_newline"; "whitespace/indent"; "whitespace/labels"; "whitespace/line_length";
    "whitespace/newline"; "whitespace/operators"; "whitespace/parens"; "whitespace/semicolon";
    "whitespace/tab"; "whitespace/todo" ].
Definition _DEFAULT_FILTERS : list string := ["-build/include_alpha"].

(** ** The state *)

(** [_cpplint_state] and [_error_suppressions]; [stderr] is what has been written. *)
Record Lint := mkLint {
  verbose_level : Z;
  error_count : nat;
  filters : list string;
  counting : string;
  errors_by_category : gmap string nat;
  output_format : string;
  _error_suppressions : gmap (option string) (gset Z);
  stderr : list string }.
Definition _CppLintState : Lint := mkLint 1 0 _DEFAULT_FILTERS "total" ∅ "emacs" ∅ [].

Definition with_filters (s : Lint) fs :=
  mkLint (verbose_level s) (error_count s) fs (counting s) (errors_by_category s) (output_format s) (_error_suppressions s) (stderr s).
Definition with_counts (s : Lint) n m :=
  mkLint (verbose_level s) n (filters s) (counting s) m (output_format s) (_error_suppressions s) (stderr s).
Definition with_suppressions (s : Lint) m :=
  mkLint (verbose_level s) (error_count s) (filters s) (counting s) (errors_by_category s) (output_format s) m (stderr s).
Definition write (t : string) : ST Lint unit := modify (λ s,
  mkLint (verbose_level s) (error_count s) (filters s) (counting s) (errors_by_category s) (output_format s)
    (_error_suppressions s) (stderr s ++ [t])).

Definition SetOutputFormat (f : string) : ST Lint unit := modify (λ s,
  mkLint (verbose_level s) (error_count s) (filters s) (counting s) (errors_by_category s) f (_error_suppressions s) (stderr s)).
Definition SetVerboseLevel (level : Z) : ST Lint Z :=
  last ← gets verbose_level;
  modify (λ s, mkLint level (error_count s) (filters s) (counting s) (errors_by_category s) (output_format s)
    (_error_suppressions s) (stderr s));;
  mret last.
Definition SetCountingStyle (c : string) : ST Lint unit := modify (λ s,
  mkLint (verbose_level s) (error_count s) (filters s) c (errors_by_category s) (output_format s) (_error_suppressions s) (stderr s)).

(** ** Filters *)

Definition good_filter (f : string) : bool := startswith "+" f || startswith "-" f.
(** The filters are stored before they are looked at. *)
Definition SetFilters (fs : string) : ST Lint unit :=
  modify (λ s, with_filters s
    (_DEFAULT_FILTERS ++ List.filter (λ f, negb (f =s "")) (strip <$> split_on "," fs)));;
  all ← gets filters;
  if forallb good_filter all then mret tt else throw ValueError.

(** ** Counts *)

Definition ResetErrorCounts : ST Lint unit := modify (λ s, with_counts s 0 ∅).
Definition category_key (s : Lint) (category : string) : string :=
  if counting s =s "detailed" then category else hd "" (split_on "/" category).
Definition IncrementErrorCount (category : string) : ST Lint unit := modify (λ s,
  with_counts s (S (error_count s))
    (if (counting s =s "toplevel") || (counting s =s "detailed")
     then let k := category_key s category in
          <[k := S (default 0 (errors_by_category s !! k))]> (errors_by_category s)
     else errors_by_category s)).
(** [items] is the order of the dictionary. *)
Definition PrintErrorCounts (items : gmap string nat → list (string * nat)) : ST Lint unit :=
  m ← gets errors_by_category;
  for_each (λ '(category, count),
    write ("Category '" +:+ category +:+ "' errors found: " +:+ str_of_nat count +:+ nl_str)) (items m);;
  n ← gets error_count;
  write ("Total errors found: " +:+ str_of_nat n +:+ nl_str).

(** ** NOLINT comments *)

Definition _RE_SUPPRESSION : rx :=
  Cats [WordB; Lit "NOLINT"; WordB; Opt (Grp 1 (Cats [Chr "("; Star (None_of ")"); Chr ")"]))].
Definition suppress (k : option string) (linenum : Z) : ST Lint unit := modify (λ s,
  with_suppressions s (<[k := default ∅ (_error_suppressions s !! k) ∪ {[linenum]}]> (_error_suppressions s))).

Section Errors.
(** The [error] argument of the checks: file, line, category, confidence, message. *)
Context (error : string → Z → string → Z → string → ST Lint unit).
Definition ParseNolintSuppressions (filename raw_line : string) (linenum : Z) : ST Lint unit :=
  match re_search _RE_SUPPRESSION raw_line with
  | None => mret tt
  | Some m =>
      match group 1 m with
      | None => suppress None linenum
      | Some category =>
          if category =s "(*)" then suppress None linenum
          else if startswith "(" category && endswith ")" category then
            let category := str_slice 1 (String.length category - 1) category in
            if bool_decide (category ∈ _ERROR_CATEGORIES) then suppress (Some category) linenum
            else error filename linenum "readability/nolint" 5 ("Unknown NOLINT error category: " +:+ category)
          else mret tt
      end
  end.
End Errors.
Definition ResetNolintSuppressions : ST Lint unit := modify (λ s, with_suppressions s ∅).
Definition IsErrorSuppressedByNolint (s : Lint) (category : string) (linenum : Z) : bool :=
  bool_decide (linenum ∈ default ∅ (_error_suppressions s !! Some category)) ||
  bool_decide (linenum ∈ default ∅ (_error_suppressions s !! None)).

(** ** Errors *)

Fixpoint filter_loop (fs : list string) (category : string) (is_filtered : bool) : res bool :=
  match fs with
  | [] => Ok is_filtered
  | f :: fs' =>
      if startswith "-" f then filter_loop fs' category (if startswith (str_drop 1 f) category then true else is_filtered)
      else if startswith "+" f then
        filter_loop fs' category (if startswith (str_drop 1 f) category then false else is_filtered)
      else Err AssertionError
  end.
Definition _ShouldPrintError (s : Lint) (category : string) (confidence linenum : Z) : res bool :=
  if IsErrorSuppressedByNolint s category linenum then Ok false
  else if (confidence <? verbose_level s)%Z then Ok false
  else is_filtered ← filter_loop (filters s) category false; Ok (negb is_filtered).

Definition Error (filename : string) (linenum : Z) (category : string) (confidence : Z) (message : string) : ST Lint unit :=
  s ← gets id;
  b ← lift (_ShouldPrintError s category confidence linenum);
  if (b : bool) then
    IncrementErrorCount category;;
    let tail := message +:+ "  [" +:+ category +:+ "] [" +:+ str_of_Z confidence +:+ "]" +:+ nl_str in
    if output_format s =s "vs7" then write (filename +:+ "(" +:+ str_of_Z linenum +:+ "):  " +:+ tail)
    else write (filename +:+ ":" +:+ str_of_Z linenum +:+ ":  " +:+ tail)
  else mret tt.

(** ** The order of includes *)

Inductive header_type := _C_SYS_HEADER | _CPP_SYS_HEADER | _LIKELY_MY_HEADER | _POSSIBLE_MY_HEADER | _OTHER_HEADER.
#[export] Instance header_type_eq_dec : EqDecision header_type.
Proof. solve_decision. Defined.
Definition _INITIAL_SECTION : nat := 0.
Definition _MY_H_SECTION : nat := 1.
Definition _C_SECTION : nat := 2.
Definition _CPP_SECTION : nat := 3.
Definition _OTHER_H_SECTION : nat := 4.
Definition _TYPE_NAMES (t : header_type) : string :=
  match t with
  | _C_SYS_HEADER => "C system header"
  | _CPP_SYS_HEADER => "C++ system header"
  | _LIKELY_MY_HEADER => "header this file implements"
  | _POSSIBLE_MY_HEADER => "header this file may implement"
  | _OTHER_HEADER => "other header"
  end.
Definition _SECTION_NAMES (s : nat) : string :=
  match s with
  | 0 => "... nothing. (This can't be an error.)"
  | 1 => "a header this file implements"
  | 2 => "C system header"
  | 3 => "C++ system header"
  | _ => "other header"
  end.

(** [included] is the object's own dictionary: where each header was included. *)
Record _IncludeState := mkInclude { _section : nat; _last_header : string; included : gmap string string }.
Definition new_IncludeState : _IncludeState := mkInclude _INITIAL_SECTION "" ∅.

Definition CanonicalizeAlphabeticalOrder (header_path : string) : string :=
  lower (replace "-" "_" (replace "-inl.h" ".h" header_path)).
Definition IsInAlphabeticalOrder (i : _IncludeState) (header_path : string) : bool * _IncludeState :=
  let canonical_header := CanonicalizeAlphabeticalOrder header_path in
  if negb (str_leb (_last_header i) canonical_header) then (false, i)
  else (true, mkInclude (_section i) canonical_header (included i)).

Definition CheckNextIncludeOrder (i : _IncludeState) (t : header_type) : string * _IncludeState :=
  let error_message := "Found " +:+ _TYPE_NAMES t +:+ " after " +:+ _SECTION_NAMES (_section i) in
  let enter s := ("", mkInclude s (if (s =? _section i)%nat then _last_header i else "") (included i)) in
  let fail := (error_message, mkInclude (_section i) "" (included i)) in
  match t with
  | _C_SYS_HEADER => if (_section i <=? _C_SECTION)%nat then enter _C_SECTION else fail
  | _CPP_SYS_HEADER => if (_section i <=? _CPP_SECTION)%nat then enter _CPP_SECTION else fail
  | _LIKELY_MY_HEADER | _POSSIBLE_MY_HEADER =>
      if (_section i <=? _MY_H_SECTION)%nat then enter _MY_H_SECTION else enter _OTHER_H_SECTION
  | _OTHER_HEADER => enter _OTHER_H_SECTION
  end.

(** ** The length of functions *)

Record _FunctionState := mkFunction { in_a_function : bool; lines_in_function : Z; current_function : string }.
Definition new_FunctionState : _FunctionState := mkFunction false 0 "".
Definition Begin (f : _FunctionState) (function_name : string) : _FunctionState := mkFunction true 0 function_name.
Definition Count (f : _FunctionState) : _FunctionState :=
  if in_a_function f then mkFunction true (lines_in_function f + 1) (current_function f) else f.
Definition End (f : _FunctionState) : _FunctionState := mkFunction false (lines_in_function f) (current_function f).
Definition _NORMAL_TRIGGER : Z := 250.
Definition _TEST_TRIGGER : Z := 400.

(** [base_trigger * 2**_VerboseLevel()] is a fraction for negative levels: the
    comparison is the one of the numbers, the message has the whole part. *)
Definition exceeds (lines base level : Z) : bool :=
  if (0 <=? level)%Z then (base * 2 ^ level <? lines)%Z else (base <? lines * 2 ^ (- level))%Z.
Definition trigger (base level : Z) : Z := if (0 <=? level)%Z then base * 2 ^ level else base / 2 ^ (- level).
(** [int(math.log(n, 2))] for the quotient of two integers, and 5 at most; there is no
    logarithm of 0. *)
Definition error_level (lines base : Z) : res Z :=
  let q := (lines / base)%Z in if (q <=? 0)%Z then Err ValueError else Ok (Z.min 5 (Z.log2 q)).

Section FunctionCheck.
Context (error : string → Z → string → Z → string → ST Lint unit).
Definition Check (f : _FunctionState) (filename : string) (linenum : Z) : ST Lint unit :=
  level ← gets verbose_level;
  let base := if found (re_match (Cats [Chr "T"; Alt (Lit "EST") (Lit "est")]) (current_function f))
              then _TEST_TRIGGER else _NORMAL_TRIGGER in
  if exceeds (lines_in_function f) base level then
    e ← lift (error_level (lines_in_function f) base);
    error filename linenum "readability/fn_size" e
      ("Small and focused functions are preferred: " +:+ current_function f +:+ " has " +:+ str_of_Z (lines_in_function f) +:+
       " non-comment lines (error triggered by exceeding " +:+ str_of_Z (trigger base level) +:+ " lines).")
  else mret tt.
End FunctionCheck.

(** ** What the filters decide *)

(** The last filter for the category says that it is off. *)
Definition turned_off (fs : list string) (category : string) : Prop :=
  ∃ l1 p l2, fs = l1 ++ ("-" +:+ p) :: l2 ∧ startswith p category = true ∧
    ∀ c q, (c = "+" ∨ c = "-") → c +:+ q ∈ l2 → startswith q category = false.
Definition mentions (fs : list string) (category : string) : Prop :=
  ∃ c p, (c = "+" ∨ c = "-") ∧ c +:+ p ∈ fs ∧ startswith p category = true.

Lemma startswith_one a p : startswith (String a "") (String a "" +:+ p) = true.
Proof. apply startswith_iff. by exists p. Qed.
Lemma startswith_other a b p : a ≠ b → startswith (String a "") (String b "" +:+ p) = false.
Proof. intros Hab. apply not_true_is_false. by intros [t [=]]%startswith_iff. Qed.
Lemma str_drop_sign a p : str_drop 1 (String a "" +:+ p) = p.
Proof. done. Qed.
Lemma good_filter_cases f : good_filter f = true → ∃ p, f = "+" +:+ p ∨ f = "-" +:+ p.
Proof.
  unfold good_filter. rewrite orb_true_iff, !startswith_iff. intros [[p ->]|[p ->]]; eauto.
Qed.

Lemma sign_inj a b p q : String a "" +:+ p = String b "" +:+ q → a = b ∧ p = q.
Proof. intros [= Ha Hp]. split; [exact Ha|exact Hp]. Qed.

Lemma turned_off_snoc fs c p category : (c = "+" ∨ c = "-") →
  turned_off (fs ++ [c +:+ p]) category ↔
    if startswith p category then c = "-" else turned_off fs category.
Proof.
  intros Hc. split.
  - intros (l1 & q & l2 & Hf & Hq & Hl).
    destruct l2 as [|z l2 _] using rev_ind.
    + apply app_inj_tail in Hf as [-> Hf].
      destruct Hc as [->| ->]; apply sign_inj in Hf as [? ->]; [done|]. by rewrite Hq.
    + rewrite app_comm_cons, app_assoc in Hf. apply app_inj_tail in Hf as [-> <-].
      rewrite (Hl c p Hc) by set_solver. exists l1, q, l2. split_and!; [done|done|]. intros c' q' Hc' ?. apply (Hl c'); [done|set_solver].
  - destruct (startswith p category) eqn:Ep.
    + intros ->. exists fs, p, []. split_and!; [done|done|]. by intros ? ? _ ?%elem_of_nil.
    + intros (l1 & q & l2 & -> & Hq & Hl). exists l1, q, (l2 ++ [c +:+ p]).
      split_and!; [by rewrite <- app_assoc|done|]. intros c' q' Hc' [?|Hin%list_elem_of_singleton]%elem_of_app; [by apply (Hl c')|].
      destruct Hc as [->| ->], Hc' as [->| ->]; apply sign_inj in Hin as [? ->]; done.
Qed.

Lemma filter_loop_app l1 l2 category b :
  filter_loop (l1 ++ l2) category b = (b' ← filter_loop l1 category b; filter_loop l2 category b').
Proof.
  revert b. induction l1 as [|f l1 IH]; intros b; [done|]. cbn [app filter_loop].
  destruct (startswith "-" f); [apply IH|]. destruct (startswith "+" f); [apply IH|done].
Qed.
Lemma filter_loop_correct fs category : forallb good_filter fs = true →
  ∃ b, filter_loop fs category false = Ok b ∧ (b = true ↔ turned_off fs category).
Proof.
  induction fs as [|f fs IH] using rev_ind.
  - intros _. exists false. split; [done|]. split; [done|]. by intros ([] & ? & ? & ? & _).
  - rewrite forallb_app, andb_true_iff. intros [Hfs Hf]. destruct (IH Hfs) as (b & Hb & Hiff).
    cbn in Hf. rewrite andb_true_r in Hf. rewrite filter_loop_app, Hb. cbn [mbind res_bind].
    destruct (good_filter_cases f Hf) as [p [->| ->]]; cbn [filter_loop].
    + rewrite startswith_other, startswith_one by done. eexists; split; [done|]. rewrite turned_off_snoc by auto.
      rewrite str_drop_sign. destruct (startswith p category); [by split|exact Hiff].
    + rewrite startswith_one. eexists; split; [done|]. rewrite turned_off_snoc by auto.
      rewrite str_drop_sign. destruct (startswith p category); [by split|exact Hiff].
Qed.

(** [SetFilters] accepts exactly the lists of filters that start with a sign, and
    with what it accepts an error is printed when no NOLINT comment on the line is
    about it, it is certain enough, and the last filter for its category, if any, is
    not a minus. *)
Theorem SetFilters_correct fs s r s' :
  SetFilters fs s = (r, s') →
  (r = Ok tt ↔ (∀ f, f ∈ split_on "," fs → strip f ≠ "" → startswith "+" (strip f) = true ∨ startswith "-" (strip f) = true)) ∧
  (r = Ok tt → ∀ category confidence linenum, ∃ b,
    _ShouldPrintError s' category confidence linenum = Ok b ∧
    (b = true ↔ ((linenum ∉ default ∅ (_error_suppressions s !! Some category)) ∧
                 (linenum ∉ default ∅ (_error_suppressions s !! None)) ∧
                 (verbose_level s ≤ confidence)%Z ∧ ¬ turned_off (filters s') category))).
Proof.
  unfold SetFilters. rewrite st_bind. cbn [modify]. rewrite st_bind. cbn [gets].
  set (fs' := _DEFAULT_FILTERS ++ _). cbn [filters with_filters].
  assert (Hgood : forallb good_filter fs' = true ↔ ∀ f, f ∈ split_on "," fs → strip f ≠ "" →
    startswith "+" (strip f) = true ∨ startswith "-" (strip f) = true).
  { unfold fs'. rewrite forallb_app, andb_true_iff, !forallb_forall. cbn. split.
    - intros [_ Hl] f Hf Hne. apply orb_true_iff. apply (Hl (strip f)). apply filter_In. split.
      + apply list_elem_of_In, list_elem_of_fmap. eauto.
      + by rewrite (proj2 (String.eqb_neq _ _) Hne).
    - intros Hl. split; [by intros x [<-|[]]|]. intros x [Hx Hne]%filter_In.
      apply list_elem_of_In, list_elem_of_fmap in Hx as (f & -> & Hf). apply orb_true_iff, Hl; [done|].
      intros He. by rewrite He in Hne. }
  destruct (forallb good_filter fs') eqn:E; intros [= <- <-]; split.
  - split; [by intros _; apply Hgood|done].
  - intros _ category confidence linenum. unfold _ShouldPrintError, IsErrorSuppressedByNolint.
    cbn [with_filters _error_suppressions verbose_level filters].
    destruct (filter_loop_correct fs' category E) as (b & -> & Hb).
    repeat case_bool_decide; cbn [orb]; [by exists false; naive_solver..|].
    destruct (Z.ltb_spec confidence (verbose_level s)); [exists false; split; [done|]; split; [done|lia]|].
    exists (negb b). split; [done|]. rewrite <- Hb. destruct b; naive_solver.
  - split; [done|]. intros Hall%Hgood. done.
  - done.
Qed.
Lemma SetFilters_correct_witness :
  ∃ b, _ShouldPrintError (SetFilters "-whitespace,+whitespace/tab" _CppLintState).2 "whitespace/tab" 1 7 = Ok b ∧ b = true.
Proof.
  destruct (proj2 (SetFilters_correct "-whitespace,+whitespace/tab" _CppLintState (Ok tt) _ eq_refl) eq_refl
    "whitespace/tab" 1%Z 7%Z) as (b & Hb & _). exists b. split; [exact Hb|]. vm_compute in Hb. congruence.
Defined.

(** ** Counting *)

(** A report: file, line, category, confidence, message. *)
Record report := mkReport { r_file : string; r_line : Z; r_cat : string; r_conf : Z; r_msg : string }.
Definition report_error (r : report) : ST Lint unit := Error (r_file r) (r_line r) (r_cat r) (r_conf r) (r_msg r).
Definition printed (s : Lint) (r : report) : bool :=
  bool_decide (_ShouldPrintError s (r_cat r) (r_conf r) (r_line r) = Ok true).
Definition counts_categories (s : Lint) : bool := (counting s =s "toplevel") || (counting s =s "detailed").

(** What reporting leaves alone. *)
Definition same_settings (s s' : Lint) : Prop :=
  verbose_level s' = verbose_level s ∧ filters s' = filters s ∧ counting s' = counting s ∧
  output_format s' = output_format s ∧ _error_suppressions s' = _error_suppressions s.

Lemma same_should s s' category confidence linenum : same_settings s s' →
  _ShouldPrintError s' category confidence linenum = _ShouldPrintError s category confidence linenum.
Proof. unfold _ShouldPrintError, IsErrorSuppressedByNolint. by intros (-> & -> & _ & _ & ->). Qed.

Lemma Error_run s r b : _ShouldPrintError s (r_cat r) (r_conf r) (r_line r) = Ok b →
  ∃ s', report_error r s = (Ok tt, s') ∧ same_settings s s' ∧
    error_count s' = (if b then 1 else 0) + error_count s ∧
    length (stderr s') = (if b then 1 else 0) + length (stderr s) ∧
    errors_by_category s' =
      (if b && counts_categories s
       then <[category_key s (r_cat r) := S (default 0 (errors_by_category s !! category_key s (r_cat r)))]> (errors_by_category s)
       else errors_by_category s).
Proof.
  intros Hb. unfold report_error, Error. rewrite st_bind. cbn [gets id]. rewrite st_bind. unfold lift. rewrite Hb.
  destruct b; [|by exists s]. rewrite st_bind. cbn [IncrementErrorCount modify with_counts].
  destruct (output_format s =s "vs7"); eexists; (split; [reflexivity|]); cbn;
    rewrite length_app; cbn; (split_and!; [done|lia|lia|]);
    unfold counts_categories; by destruct (_ || _).
Qed.

Lemma printed_iff s r : forallb good_filter (filters s) = true →
  _ShouldPrintError s (r_cat r) (r_conf r) (r_line r) = Ok (printed s r).
Proof.
  intros Hf. unfold printed. destruct (filter_loop_correct (filters s) (r_cat r) Hf) as (b & Hb & _).
  unfold _ShouldPrintError. destruct (IsErrorSuppressedByNolint _ _ _); [done|]. destruct (_ <? _)%Z; [done|].
  rewrite Hb. cbn. by destruct b.
Qed.

(** The number of printed reports with a property. *)
Definition tally (s : Lint) (P : report → bool) (reports : list report) : nat :=
  length (List.filter (λ r, printed s r && P r) reports).
Lemma tally_snoc s P reports r :
  tally s P (reports ++ [r]) = (if printed s r && P r then 1 else 0) + tally s P reports.
Proof. unfold tally. rewrite List.filter_app, length_app. cbn. destruct (_ && _); cbn; lia. Qed.

Lemma error_counts_run s reports : forallb good_filter (filters s) = true → error_count s = 0 → errors_by_category s = ∅ →
  ∃ s', for_each report_error reports s = (Ok tt, s') ∧ same_settings s s' ∧
    error_count s' = tally s (λ _, true) reports ∧
    length (stderr s') = length (stderr s) + error_count s' ∧
    ∀ k, default 0 (errors_by_category s' !! k) =
      if counts_categories s then tally s (λ r, category_key s (r_cat r) =s k) reports else 0.
Proof.
  intros Hf Hc Hm. induction reports as [|r reports IH] using rev_ind.
  - exists s. split_and!; try done; [rewrite Hc; cbn; lia|]. intros k. rewrite Hm, lookup_empty. by destruct (counts_categories s).
  - destruct IH as (s1 & Hr & Hs & Hn & He & Hk). rewrite for_each_app, st_bind, Hr.
    destruct (Error_run s1 r (printed s r)) as (s2 & Hr2 & Hs2 & Hn2 & He2 & Hm2); [by rewrite (same_should s), printed_iff|].
    exists s2. cbn [for_each]. rewrite st_bind, Hr2. split; [done|].
    assert (Hcc : counts_categories s1 = counts_categories s) by (unfold counts_categories; by destruct Hs as (_&_&->&_)).
    assert (Hck : ∀ c, category_key s1 c = category_key s c) by (intros c; unfold category_key; by destruct Hs as (_&_&->&_)).
    split; [destruct Hs as (?&?&?&?&?), Hs2 as (?&?&?&?&?); split_and!; congruence|].
    rewrite tally_snoc, andb_true_r, Hn2, Hn. split_and!; [done|lia|].
    intros k. rewrite Hm2, Hcc, Hck, tally_snoc. specialize (Hk k).
    destruct (counts_categories s); [|by rewrite andb_false_r]. rewrite andb_true_r. destruct (printed s r); [|done].
    cbn [andb]. destruct (String.eqb_spec (category_key s (r_cat r)) k) as [->|Hne].
    + rewrite lookup_insert_eq. cbn. by rewrite Hk.
    + by rewrite lookup_insert_ne, Hk by done.
Qed.

(** The error count is the number of reports that were printed, and the count of a
    category the number of those in it, or in the part before the slash. *)
Theorem error_counts_correct s reports :
  forallb good_filter (filters s) = true → error_count s = 0 → errors_by_category s = ∅ →
  ∃ s', for_each report_error reports s = (Ok tt, s') ∧
    error_count s' = tally s (λ _, true) reports ∧
    length (stderr s') = length (stderr s) + error_count s' ∧
    ∀ k, default 0 (errors_by_category s' !! k) =
      if counts_categories s then tally s (λ r, category_key s (r_cat r) =s k) reports else 0.
Proof.
  intros Hf Hc Hm. destruct (error_counts_run s reports Hf Hc Hm) as (s' & Hr & _ & H). by exists s'.
Qed.
Lemma error_counts_correct_witness :
  ∃ s', for_each report_error [mkReport "a.cc" 3 "whitespace/tab" 1 "Tab found"; mkReport "a.cc" 4 "build/include_alpha" 4 "order"]
      (mkLint 1 0 _DEFAULT_FILTERS "toplevel" ∅ "emacs" ∅ []) = (Ok tt, s') ∧
    error_count s' = 1 ∧ default 0 (errors_by_category s' !! "whitespace") = 1.
Proof.
  destruct (error_counts_correct (mkLint 1 0 _DEFAULT_FILTERS "toplevel" ∅ "emacs" ∅ [])
    [mkReport "a.cc" 3 "whitespace/tab" 1 "Tab found"; mkReport "a.cc" 4 "build/include_alpha" 4 "order"]) as (s' & H1 & H2 & _ & H3);
    [reflexivity|reflexivity|reflexivity|].
  exists s'. split; [exact H1|]. split; [rewrite H2|rewrite H3]; vm_compute; reflexivity.
Defined.

(** ** Includes *)

Definition is_mine (t : header_type) : bool := bool_decide (t = _LIKELY_MY_HEADER ∨ t = _POSSIBLE_MY_HEADER).

(** The includes so far belong to the last part of the list: another header was
    there, or one of this file after a system header. *)
Definition in_last_part (l : list header_type) : Prop :=
  _OTHER_HEADER ∈ l ∨ ∃ l1 t l2 m l3, l = l1 ++ t :: l2 ++ m :: l3 ∧ is_mine t = false ∧ is_mine m = true.
Definition include_allowed (l : list header_type) (t : header_type) : Prop :=
  match t with
  | _C_SYS_HEADER => (_CPP_SYS_HEADER ∉ l) ∧ ¬ in_last_part l
  | _CPP_SYS_HEADER => ¬ in_last_part l
  | _ => True
  end.
Definition include_all (i : _IncludeState) (l : list header_type) : _IncludeState :=
  fold_left (λ i t, (CheckNextIncludeOrder i t).2) l i.

Lemma in_last_part_snoc l t : in_last_part (l ++ [t]) ↔
  (in_last_part l ∨ t = _OTHER_HEADER ∨ is_mine t = true ∧ ∃ x, x ∈ l ∧ is_mine x = false).
Proof.
  split.
  - intros [Hin|(l1 & x & l2 & m & l3 & Hl & Hx & Hm)].
    + apply elem_of_app in Hin as [?|Ht%list_elem_of_singleton]; [by left; left|auto].
    + destruct l3 as [|z l3 _] using rev_ind.
      * rewrite app_comm_cons, app_assoc in Hl. apply app_inj_tail in Hl as [-> ->]. right. right. split; [done|].
        exists x. split; [set_solver|done].
      * replace (l1 ++ x :: l2 ++ m :: l3 ++ [z]) with ((l1 ++ x :: l2 ++ m :: l3) ++ [z]) in Hl
          by (by rewrite <- !app_assoc; cbn; rewrite <- !app_assoc).
        apply app_inj_tail in Hl as [-> ->]. left. right. by exists l1, x, l2, m, l3.
  - intros [[Hin|(l1 & x & l2 & m & l3 & -> & Hx & Hm)]|[->|[Ht (x & Hx & Hm)]]].
    + left. set_solver.
    + right. exists l1, x, l2, m, (l3 ++ [t]). split; [|done]. by rewrite <- !app_assoc; cbn; rewrite <- !app_assoc.
    + left. set_solver.
    + right. apply list_elem_of_split in Hx as (l1 & l2 & ->). exists l1, x, l2, t, []. split; [|done].
      by rewrite <- app_assoc.
Qed.

Lemma in_last_part_nil : ¬ in_last_part [].
Proof. intros [[]%elem_of_nil|(l1 & t & l2 & m & l3 & Hl & _)]. by destruct l1. Qed.

(** What the section says about the includes so far. *)
Lemma section_correct l :
  let s := _section (include_all new_IncludeState l) in
  s ≤ 4 ∧ (1 ≤ s ↔ l ≠ []) ∧ (2 ≤ s ↔ ∃ x, x ∈ l ∧ is_mine x = false) ∧
  (3 ≤ s ↔ _CPP_SYS_HEADER ∈ l ∨ in_last_part l) ∧ (4 ≤ s ↔ in_last_part l).
Proof.
  induction l as [|t l IH] using rev_ind.
  - cbn. unfold _INITIAL_SECTION. pose proof in_last_part_nil. assert (¬ ∃ x : header_type, x ∈ [] ∧ is_mine x = false).
    { by intros (x & []%elem_of_nil & _). }
    assert (_CPP_SYS_HEADER ∉ []) by apply not_elem_of_nil. intuition (lia || done).
  - unfold include_all in *. rewrite fold_left_app. cbn [fold_left]. set (i := fold_left _ l _) in *.
    destruct IH as (H4 & H1 & H2 & H3 & HL). rewrite in_last_part_snoc.
    setoid_rewrite elem_of_app. setoid_rewrite list_elem_of_singleton.
    assert (Hne : l ++ [t] ≠ []) by (by destruct l).
    assert (Hmine : (∃ x, (x ∈ l ∨ x = t) ∧ is_mine x = false) ↔ ((∃ x, x ∈ l ∧ is_mine x = false) ∨ is_mine t = false)).
    { split; [intros (x & [?| ->] & ?); eauto|]. intros [(x & ? & ?)|?]; eauto. }
    rewrite Hmine. unfold CheckNextIncludeOrder, _C_SECTION, _CPP_SECTION, _MY_H_SECTION, _OTHER_H_SECTION.
    destruct t; cbn [is_mine bool_decide]; repeat (case_match; cbn [snd _section]);
      rewrite ?Nat.leb_le, ?Nat.leb_gt in *; split_and!; try lia; intuition (try lia; try done).
Qed.

(** An include is accepted when no C++ header and no header of the last part has come
    before it, as far as its kind forbids them; the section never goes back. *)
Theorem CheckNextIncludeOrder_correct l t :
  let i := include_all new_IncludeState l in
  ((CheckNextIncludeOrder i t).1 = "" ↔ include_allowed l t) ∧
  (_section i ≤ _section (CheckNextIncludeOrder i t).2) ∧
  ((CheckNextIncludeOrder i t).1 ≠ "" → (CheckNextIncludeOrder i t).2 = mkInclude (_section i) "" (included i)).
Proof.
  intros i. destruct (section_correct l) as (H4 & _ & _ & H3 & HL). fold i in H4, H3, HL.
  unfold CheckNextIncludeOrder, include_allowed, _C_SECTION, _CPP_SECTION, _MY_H_SECTION, _OTHER_H_SECTION.
  destruct t; repeat (case_match; cbn [fst snd _section]); rewrite ?Nat.leb_le, ?Nat.leb_gt in *; split_and!;
    try done; try lia; intuition (lia || done).
Qed.

(** ** Alphabetical order *)

Definition canon_le (h1 h2 : string) : Prop := str_le (CanonicalizeAlphabeticalOrder h1) (CanonicalizeAlphabeticalOrder h2).
Definition headers_all (i : _IncludeState) (l : list string) : _IncludeState :=
  fold_left (λ i h, (IsInAlphabeticalOrder i h).2) l i.

Lemma last_header_correct i l : _last_header i = "" →
  (∀ h, h ∈ l → str_le (CanonicalizeAlphabeticalOrder h) (_last_header (headers_all i l))) ∧
  (l ≠ [] → ∃ h, h ∈ l ∧ _last_header (headers_all i l) = CanonicalizeAlphabeticalOrder h).
Proof.
  intros Hi. induction l as [|h l IH] using rev_ind; [split; [by intros ? ?%elem_of_nil|done]|].
  unfold headers_all in *. rewrite fold_left_app. cbn [fold_left]. set (j := fold_left _ l i) in *. destruct IH as [H1 H2].
  unfold IsInAlphabeticalOrder. destruct (str_leb (_last_header j) (CanonicalizeAlphabeticalOrder h)) eqn:E; cbn [negb snd _last_header].
  - split; [|intros _; exists h; split; [set_solver|done]].
    intros h' [Hh| ->%list_elem_of_singleton]%elem_of_app; [|by destruct (total str_le (CanonicalizeAlphabeticalOrder h) (CanonicalizeAlphabeticalOrder h))].
    etrans; [by apply H1|done].
  - assert (Hlt : str_le (CanonicalizeAlphabeticalOrder h) (_last_header j)).
    { destruct (total str_le (CanonicalizeAlphabeticalOrder h) (_last_header j)) as [?|Hle]; [done|].
      unfold str_le in Hle. congruence. }
    split.
    + intros h' [Hh| ->%list_elem_of_singleton]%elem_of_app; [by apply H1|done].
    + intros _. destruct (decide (l = [])) as [->|Hl].
      * subst j. cbn in E. rewrite Hi in E. done.
      * destruct (H2 Hl) as (h' & ? & ?). exists h'. split; [set_solver|done].
Qed.

(** In a section, a header is reported when one that comes after it in the alphabet
    was included before; dashes count as underscores, and the case does not matter. *)
Theorem IsInAlphabeticalOrder_correct i l h : _last_header i = "" →
  (IsInAlphabeticalOrder (headers_all i l) h).1 = true ↔ ∀ h', h' ∈ l → canon_le h' h.
Proof.
  intros Hi. destruct (last_header_correct i l Hi) as [H1 H2]. unfold IsInAlphabeticalOrder, canon_le.
  destruct (str_leb _ _) eqn:E; cbn [negb fst].
  - split; [|done]. intros _ h' Hh. etrans; [by apply H1|done].
  - split; [done|]. intros Hall. destruct (decide (l = [])) as [->|Hl].
    + cbn in E. by rewrite Hi in E.
    + destruct (H2 Hl) as (h' & Hh & He). specialize (Hall h' Hh). rewrite <- He in Hall. unfold str_le in Hall. congruence.
Qed.
Lemma IsInAlphabeticalOrder_correct_witness :
  (IsInAlphabeticalOrder (headers_all new_IncludeState ["base/a-b.h"; "base/A_c-inl.h"]) "base/a_d.h").1 = true.
Proof.
  apply (IsInAlphabeticalOrder_correct new_IncludeState ["base/a-b.h"; "base/A_c-inl.h"] "base/a_d.h"); [reflexivity|].
  intros h' Hh. apply (bool_decide_unpack _). rewrite !elem_of_cons, elem_of_nil in Hh.
  destruct Hh as [->|[->|[]]]; vm_compute; reflexivity.
Defined.

(** ** Long functions *)

Lemma test_name_found name :
  found (re_match (Cats [Chr "T"; Alt (Lit "EST") (Lit "est")]) name) = startswith "TEST" name || startswith "Test" name.
Proof.
  unfold startswith. destruct name as [|a name]; [done|]. rewrite !prefix_cons. cbn [Cats]. unfold re_match, match_at, start_of.
  cbn [runs Chr after]. destruct (Ascii.eqb "T" a); [|done].
  change (_ ≫= _) with (runs (Alt (Lit "EST") (Lit "est")) (mkPos (String a "") name []) ++ []).
  rewrite app_nil_r. cbn [runs]. rewrite !runs_Lit. unfold startswith.
  by destruct (String.prefix "EST" name), (String.prefix "est" name).
Qed.

Lemma error_level_correct lines base level : (0 < base)%Z → (0 ≤ level)%Z → (base * 2 ^ level < lines)%Z →
  ∃ e, error_level lines base = Ok e ∧ (Z.min 5 level ≤ e ≤ 5)%Z ∧ (e < 5 → base * 2 ^ e ≤ lines < base * 2 ^ (e + 1))%Z.
Proof.
  intros Hb Hl Hlt. unfold error_level. set (q := (lines / base)%Z).
  assert (Hq : (2 ^ level ≤ q)%Z) by (apply Z.div_le_lower_bound; lia).
  assert (Hpos : (0 < 2 ^ level)%Z) by (apply Z.pow_pos_nonneg; lia).
  rewrite (proj2 (Z.leb_gt _ _)) by lia. eexists; split; [done|].
  assert (Hle : (level ≤ Z.log2 q)%Z) by (apply Z.log2_le_pow2; lia). split; [lia|].
  intros He. rewrite Z.min_r by lia. destruct (Z.log2_spec q) as [H1 H2]; [lia|].
  assert (Hdiv : (base * q ≤ lines < base * q + base)%Z).
  { unfold q. pose proof (Z.div_mod lines base). pose proof (Z.mod_pos_bound lines base). lia. }
  rewrite <- Z.add_1_r in H2. nia.
Qed.

(** For a level that is not negative, a function is reported when it is longer than
    the base doubled that many times, and the report is certain enough to be printed
    at that level, up to 5. *)
Theorem Check_correct err f filename linenum s r s' :
  (0 ≤ verbose_level s)%Z → Check err f filename linenum s = (r, s') →
  let base := if startswith "TEST" (current_function f) || startswith "Test" (current_function f) then 400%Z else 250%Z in
  if (base * 2 ^ verbose_level s <? lines_in_function f)%Z then
    ∃ e message, (Z.min 5 (verbose_level s) ≤ e ≤ 5)%Z ∧
      err filename linenum "readability/fn_size" e message s = (r, s') ∧
      (e < 5 → base * 2 ^ e ≤ lines_in_function f < base * 2 ^ (e + 1))%Z
  else r = Ok tt ∧ s' = s.
Proof.
  intros Hv. unfold Check. rewrite st_bind. cbn [gets]. rewrite test_name_found.
  unfold _TEST_TRIGGER, _NORMAL_TRIGGER. set (base := if _ || _ then 400%Z else 250%Z).
  assert (Hb : (0 < base)%Z) by (unfold base; by destruct (_ || _)).
  unfold exceeds. rewrite (proj2 (Z.leb_le _ _) Hv).
  destruct (Z.ltb_spec (base * 2 ^ verbose_level s) (lines_in_function f)) as [Hlt|_]; [|by intros [= <- <-]].
  destruct (error_level_correct _ _ _ Hb Hv Hlt) as (e & He & Hr & Hpow).
  rewrite st_bind. unfold lift. rewrite He. intros Herr. eexists e, _. split; [done|]. split; [exact Herr|done].
Qed.
Definition long_function : _FunctionState := mkFunction true 1100 "Parse()".
Lemma Check_correct_witness :
  ∃ e message, Error "a.cc" 9 "readability/fn_size" e message _CppLintState =
    Check Error long_function "a.cc" 9 _CppLintState.
Proof.
  destruct (Check_correct Error long_function "a.cc" 9 _CppLintState
    (Check Error long_function "a.cc" 9 _CppLintState).1 (Check Error long_function "a.cc" 9 _CppLintState).2)
    as (e & m & _ & He & _); [vm_compute; discriminate|by destruct (Check _ _ _ _ _)|].
  exists e, m. rewrite He. by destruct (Check _ _ _ _ _).
Defined.

(** At a negative level, a function that is longer than the fraction of the base, but
    shorter than the base, makes the program fail. *)
Theorem negative_level_fails err name lines filename linenum s :
  (verbose_level s < 0)%Z → startswith "TEST" name = false → startswith "Test" name = false →
  (250 < lines * 2 ^ (- verbose_level s))%Z → (lines < 250)%Z →
  Check err (mkFunction true lines name) filename linenum s = (Err ValueError, s).
Proof.
  intros Hv H1 H2 Hl Hs. unfold Check. rewrite st_bind. cbn [gets current_function]. rewrite test_name_found, H1, H2.
  cbn [orb lines_in_function]. unfold exceeds, _NORMAL_TRIGGER. rewrite (proj2 (Z.leb_gt _ _)) by lia.
  rewrite (proj2 (Z.ltb_lt _ _)) by done. rewrite st_bind. unfold lift, error_level.
  assert (Hq : (lines / 250 ≤ 0)%Z) by (destruct (Z.lt_ge_cases lines 0); [|rewrite Z.div_small; lia]; apply Z.lt_le_incl, Z.div_lt_upper_bound; lia).
  by rewrite (proj2 (Z.leb_le _ _) Hq).
Qed.
Lemma negative_level_fails_witness :
  Check Error (mkFunction true 100 "Parse()") "a.cc" 9 (mkLint (-2) 0 [] "total" ∅ "emacs" ∅ []) =
    (Err ValueError, mkLint (-2) 0 [] "total" ∅ "emacs" ∅ []).
Proof. apply negative_level_fails; reflexivity. Defined.
