(* ===== verification/CppLines.v ===== *)
(** * Lines of C++ (tools/cpplint.py)

    Comments and strings are taken out of the lines before they are checked:
    comments of several lines first, then, line by line, the rest.  The file also
    has the search for a closing parenthesis. *)
From S2P Require Import Prelude PyStr PyState CppRe CppState.

(** [s.count(sub)] *)
Fixpoint count_go (sub : string) (skip : nat) (s : string) : nat :=
  match s with
  | EmptyString => 0
  | String _ s' =>
      match skip with
      | S k => count_go sub k s'
      | 0 => if String.prefix sub s then S (count_go sub (String.length sub - 1) s') else count_go sub 0 s'
      end
  end.
Definition count (sub s : string) : nat := count_go sub 0 s.

Definition dquote : ascii := "034".
Definition dquote_str : string := String dquote "".
Definition backslash : ascii := "\".
Definition two_backslashes : string := String backslash (String backslash "").

(** ** Comments of several lines *)

Definition starts_comment (line : string) : bool :=
  startswith "/*" (strip line) && negb (bool_decide (is_Some (find_from "*/" (strip line) 2))).
Definition ends_comment (line : string) : bool := endswith "*/" (strip line).

(** The first line from [lineix] on with a property; the number of lines if none has it. *)
Definition find_line (p : string → bool) (lines : list string) (lineix : nat) : nat :=
  match list_find (λ l, p l = true) (drop lineix lines) with Some (k, _) => lineix + k | None => length lines end.
Definition FindNextMultiLineCommentStart : list string → nat → nat := find_line starts_comment.
Definition FindNextMultiLineCommentEnd : list string → nat → nat := find_line ends_comment.
Definition dummy : string := "// dummy".
Definition RemoveMultiLineCommentsFromRange (lines : list string) (begin_ end_ : nat) : list string :=
  imap (λ i l, if (begin_ <=? i)%nat && (i <? end_)%nat then dummy else l) lines.

Section RemoveComments.
Context (error : string → Z → string → Z → string → ST Lint unit).
(** The lines are changed in place: they are given back also after the error. *)
Fixpoint RemoveMultiLineComments_loop (fuel : nat) (filename : string) (lines : list string) (lineix : nat)
    : ST Lint (list string) :=
  match fuel with
  | 0 => throw OutOfFuel
  | S n =>
      if (lineix <? length lines)%nat then
        let lineix_begin := FindNextMultiLineCommentStart lines lineix in
        if (length lines <=? lineix_begin)%nat then mret lines
        else
          let lineix_end := FindNextMultiLineCommentEnd lines lineix_begin in
          if (length lines <=? lineix_end)%nat then
            error filename (Z.of_nat (S lineix_begin)) "readability/multiline_comment" 5
              "Could not find end of multi-line comment";;
            mret lines
          else
            RemoveMultiLineComments_loop n filename
              (RemoveMultiLineCommentsFromRange lines lineix_begin (S lineix_end)) (S lineix_end)
      else mret lines
  end.
Definition RemoveMultiLineComments (filename : string) (lines : list string) : ST Lint (list string) :=
  RemoveMultiLineComments_loop (S (length lines)) filename lines 0.
End RemoveComments.

(** ** Comments and strings of one line *)

(** Backslashes are counted two by two. *)
Definition IsCppString (line : string) : bool :=
  let line := replace two_backslashes "XX" line in
  let quotes := (Z.of_nat (count dquote_str line) - Z.of_nat (count (String backslash dquote_str) line) -
                 Z.of_nat (count (String "'" (dquote_str +:+ "'")) line))%Z in
  Z.odd quotes.

Definition Anything : rx := Star Dot.
(** A comment with the spaces around it, as far as they go. *)
Definition _RE_PATTERN_CLEANSE_LINE_C_COMMENTS : rx :=
  let comment := Cats [Lit "/*"; Anything; Lit "*/"] in
  Alts [ Cats [Star Space; comment; Star Space; Eol];
         Cats [comment; Plus Space];
         Cats [Plus Space; comment; Ahead (Cls (λ a, negb (word_char a)))];
         comment ].
Definition CleanseComments (line : string) : string :=
  let line :=
    match find "//" line with
    | Some commentpos => if IsCppString (str_take commentpos line) then line else str_take commentpos line
    | None => line
    end in
  re_sub _RE_PATTERN_CLEANSE_LINE_C_COMMENTS "" line.

Definition _RE_PATTERN_INCLUDE : rx :=
  Cats [Bol; Star Space; Chr "#"; Star Space; Lit "include"; Star Space; Grp 1 (Any ("<" +:+ dquote_str));
        Grp 2 (Star (None_of (">" +:+ dquote_str))); Any (">" +:+ dquote_str); Anything; Eol].
Definition hex_digit (a : ascii) : bool := is_digit a || char_in "a" "f" a || char_in "A" "F" a.
Definition _RE_PATTERN_CLEANSE_LINE_ESCAPES : rx :=
  Cats [Chr backslash;
        Alts [Any ("abfnrtv?" +:+ dquote_str +:+ String backslash "'"); Plus Digit; Cats [Chr "x"; Plus (Cls hex_digit)]]].
Definition _RE_PATTERN_CLEANSE_LINE_SINGLE_QUOTES : rx := Cats [Chr "'"; Dot; Chr "'"].
Definition _RE_PATTERN_CLEANSE_LINE_DOUBLE_QUOTES : rx := Cats [Chr dquote; Star (None_of dquote_str); Chr dquote].
Definition _CollapseStrings (elided : string) : string :=
  if found (re_match _RE_PATTERN_INCLUDE elided) then elided
  else re_sub _RE_PATTERN_CLEANSE_LINE_DOUBLE_QUOTES (dquote_str +:+ dquote_str)
         (re_sub _RE_PATTERN_CLEANSE_LINE_SINGLE_QUOTES "''" (re_sub _RE_PATTERN_CLEANSE_LINE_ESCAPES "" elided)).

Record CleansedLines := mkLines { elided : list string; lines : list string; raw_lines : list string }.
Definition new_CleansedLines (ls : list string) : CleansedLines :=
  mkLines ((CleanseComments ∘ _CollapseStrings) <$> ls) (CleanseComments <$> ls) ls.
Definition NumLines (c : CleansedLines) : nat := length (raw_lines c).

(** ** Closing an expression *)

(** [s.rfind(c, 0, end)]: the position, -1 if there is none; a negative [end] counts from
    the end of the text. *)
Fixpoint rfind_go (c : ascii) (i : Z) (s : string) (last : Z) : Z :=
  match s with
  | EmptyString => last
  | String a s' => rfind_go c (i + 1) s' (if Ascii.eqb a c then i else last)
  end.
Definition rfind (c : ascii) (s : string) (end_ : Z) : Z :=
  let n := Z.of_nat (String.length s) in
  let e := if (end_ <? 0)%Z then Z.max 0 (end_ + n) else Z.min end_ n in
  rfind_go c 0 (str_take (Z.to_nat e) s) (-1).

Definition balance (o c : ascii) (line : string) : Z :=
  (Z.of_nat (count (String o "") line) - Z.of_nat (count (String c "") line))%Z.
(** The lines after [linenum], until the balance is 0 or less; there may not be enough. *)
Fixpoint balance_loop (o c : ascii) (rest : list string) (linenum : nat) (line : string) (num_open : Z) (total : nat)
    : res (string * nat * Z) :=
  if (linenum <? total)%nat && (0 <? num_open)%Z then
    match rest with
    | [] => Err IndexError
    | next :: rest' => balance_loop o c rest' (S linenum) next (num_open + balance o c next) total
    end
  else Ok (line, linenum, num_open).
(** [while num_open >= 0]: one closing parenthesis, whatever the bracket, per round. *)
Fixpoint back_loop (rounds : nat) (line : string) (endpos : Z) : Z :=
  match rounds with
  | 0 => endpos
  | S n => back_loop n line (rfind ")" line endpos)
  end.
Definition CloseExpression (c : CleansedLines) (linenum : nat) (pos : nat) : res (string * nat * Z) :=
  match elided c !! linenum with
  | None => Err IndexError
  | Some line =>
      match str_get pos line with
      | None => Err IndexError
      | Some startchar =>
          let close o e :=
            '(line, linenum, num_open) ← balance_loop o e (drop (S linenum) (elided c)) linenum line (balance o e line) (NumLines c);
            Ok (line, linenum, back_loop (Z.to_nat (num_open + 1)) line (Z.of_nat (String.length line)) + 1)%Z in
          if startchar =c "(" then close "("%char ")"%char
          else if startchar =c "{" then close "{"%char "}"%char
          else if startchar =c "[" then close "["%char "]"%char
          else Ok (line, NumLines c, (-1)%Z)
      end
  end.

(** ** Comments of several lines are removed *)

Lemma find_line_Some p ls n : n ≤ length ls → find_line p ls n < length ls →
  n ≤ find_line p ls n ∧ (∃ x, ls !! find_line p ls n = Some x ∧ p x = true) ∧
  ∀ j y, n ≤ j < find_line p ls n → ls !! j = Some y → p y = false.
Proof.
  unfold find_line. intros Hn. destruct (list_find _ _) as [[k x]|] eqn:E; [|lia]. intros _.
  apply list_find_Some in E as (Hk & Hx & Hj). rewrite lookup_drop in Hk. split; [lia|]. split; [eauto|].
  intros j y Hjn Hy. apply not_true_is_false. apply (Hj (j - n)); [|lia]. rewrite lookup_drop.
  by replace (n + (j - n)) with j by lia.
Qed.
Lemma find_line_None p ls n : length ls ≤ find_line p ls n → ∀ j y, n ≤ j → ls !! j = Some y → p y = false.
Proof.
  unfold find_line. destruct (list_find _ _) as [[k x]|] eqn:E.
  - intros Hl. apply list_find_Some in E as (Hk & _). rewrite lookup_drop in Hk. apply lookup_lt_Some in Hk. lia.
  - intros _ j y Hj Hy. apply list_find_None in E. rewrite Forall_forall in E. apply not_true_is_false, E.
    apply (list_elem_of_lookup_2 _ (j - n)). rewrite lookup_drop. by replace (n + (j - n)) with j by lia.
Qed.

Lemma removed_lookup ls b e i : RemoveMultiLineCommentsFromRange ls b e !! i =
  (λ l, if (b <=? i)%nat && (i <? e)%nat then dummy else l) <$> ls !! i.
Proof. unfold RemoveMultiLineCommentsFromRange. apply list_lookup_imap. Qed.
Lemma removed_length ls b e : length (RemoveMultiLineCommentsFromRange ls b e) = length ls.
Proof. apply length_imap. Qed.

(** A line of a comment that starts on line [b] and ends on line [e], the first that
    can end it. *)
Definition in_comment (ls : list string) (i : nat) : Prop :=
  ∃ b e x y, b ≤ i ≤ e ∧ ls !! b = Some x ∧ starts_comment x = true ∧ ls !! e = Some y ∧ ends_comment y = true ∧
    ∀ j z, b ≤ j < e → ls !! j = Some z → ends_comment z = false.
(** The lines as they are when the first [n] have been treated. *)
Record cleaned (n : nat) (ls ls' : list string) : Prop := {
  cl_length : length ls' = length ls;
  cl_rest : ∀ i, n ≤ i → ls' !! i = ls !! i;
  cl_lines : ∀ i x, ls' !! i = Some x → ls !! i = Some x ∨ x = dummy ∧ in_comment ls i;
  cl_done : ∀ i x, i < n → ls' !! i = Some x → starts_comment x = false }.

Lemma cleaned_weaken n m ls ls' : cleaned n ls ls' → n ≤ m →
  (∀ j y, n ≤ j < m → ls' !! j = Some y → starts_comment y = false) → cleaned m ls ls'.
Proof.
  intros [H1 H2 H3 H4] Hnm Hj. split; [done| |done|].
  - intros i Hi. apply H2. lia.
  - intros i x Hi Hx. destruct (decide (i < n)); [by apply (H4 i)|]. apply (Hj i); [lia|done].
Qed.
Lemma cleaned_remove n b e ls ls' : cleaned n ls ls' → n ≤ b → b ≤ e →
  (∃ x, ls' !! b = Some x ∧ starts_comment x = true) → (∃ y, ls' !! e = Some y ∧ ends_comment y = true) →
  (∀ j y, n ≤ j < b → ls' !! j = Some y → starts_comment y = false) →
  (∀ j y, b ≤ j < e → ls' !! j = Some y → ends_comment y = false) →
  cleaned (S e) ls (RemoveMultiLineCommentsFromRange ls' b (S e)).
Proof.
  intros [H1 H2 H3 H4] Hnb Hbe (x & Hx & Hsx) (y & Hy & Hey) Hs He. split.
  - by rewrite removed_length.
  - intros i Hi. rewrite removed_lookup, (proj2 (Nat.ltb_ge _ _)), andb_false_r by lia. rewrite H2 by lia. by destruct (ls !! i).
  - intros i z. rewrite removed_lookup. destruct (ls' !! i) as [z'|] eqn:Ei; [|done]. intros [= <-].
    destruct (Nat.leb_spec b i), (Nat.ltb_spec i (S e)); cbn [andb]; [|by apply H3..]. right. split; [done|].
    exists b, e, x, y. rewrite <- (H2 b), <- (H2 e) by lia. split_and!; try done; [lia|].
    intros j w Hj. rewrite <- H2 by lia. by apply He.
  - intros i z Hi. rewrite removed_lookup. destruct (ls' !! i) as [z'|] eqn:Ei; [|done]. intros [= <-].
    destruct (Nat.leb_spec b i), (Nat.ltb_spec i (S e)); cbn [andb]; [done|lia| |lia].
    destruct (decide (i < n)); [by apply (H4 i)|]. apply (Hs i); [lia|done].
Qed.

Section Removing.
Context (error : string → Z → string → Z → string → ST Lint unit).
Context (filename : string).

(** How the removal ends: all comments are gone, or one is not closed. *)
Definition all_removed (ls ls' : list string) : Prop :=
  cleaned (length ls) ls ls'.
Definition unclosed_at (b : nat) (ls ls' : list string) : Prop :=
  cleaned b ls ls' ∧ (∃ x, ls !! b = Some x ∧ starts_comment x = true) ∧
  ∀ j y, b ≤ j → ls !! j = Some y → ends_comment y = false.
Definition report_unclosed (b : nat) (ls' : list string) : ST Lint (list string) :=
  error filename (Z.of_nat (S b)) "readability/multiline_comment" 5 "Could not find end of multi-line comment";; mret ls'.

Lemma remove_loop_run ls s fuel : ∀ n ls', cleaned n ls ls' → n ≤ length ls → length ls - n < fuel →
  (∃ r, all_removed ls r ∧ RemoveMultiLineComments_loop error fuel filename ls' n s = (Ok r, s)) ∨
  (∃ r b, unclosed_at b ls r ∧ RemoveMultiLineComments_loop error fuel filename ls' n s = report_unclosed b r s).
Proof using.
  induction fuel as [|fuel IH]; intros n ls' Hc Hn Hf; [lia|]. cbn [RemoveMultiLineComments_loop].
  pose proof (cl_length _ _ _ Hc) as Hlen. rewrite Hlen.
  destruct (Nat.ltb_spec n (length ls)) as [Hlt|Hge].
  2: { left. exists ls'. split; [|done]. unfold all_removed. by replace (length ls) with n by lia. }
  unfold FindNextMultiLineCommentStart, FindNextMultiLineCommentEnd.
  destruct (Nat.leb_spec (length ls) (find_line starts_comment ls' n)) as [Hs|Hs].
  - left. exists ls'. split; [|done]. eapply cleaned_weaken; [done|lia|]. rewrite <- Hlen in Hs.
    intros j y [Hj _]. by apply (find_line_None _ _ _ Hs).
  - rewrite <- Hlen in Hs. apply find_line_Some in Hs as (Hb & (x & Hx & Hsx) & Hnone); [|lia].
    set (b := find_line starts_comment ls' n) in *. assert (Hbl : b < length ls') by (by eapply lookup_lt_Some).
    destruct (Nat.leb_spec (length ls) (find_line ends_comment ls' b)) as [He|He].
    + right. exists ls', b. split; [|done]. rewrite <- Hlen in He. split; [by eapply cleaned_weaken|].
      rewrite <- (cl_rest _ _ _ Hc) by lia. split; [eauto|]. intros j y Hj. rewrite <- (cl_rest _ _ _ Hc) by lia.
      by apply (find_line_None _ _ _ He).
    + rewrite <- Hlen in He. apply find_line_Some in He as (Hbe & (y & Hy & Hey) & Hne); [|lia].
      set (e := find_line ends_comment ls' b) in *. assert (Hel : e < length ls') by (by eapply lookup_lt_Some).
      apply IH; [|lia|lia]. eapply cleaned_remove; eauto.
Qed.

(** Comments of several lines are removed to the end: every other line is as it was,
    no line starts such a comment any more, and an unfinished one is reported once,
    where it starts. *)
Theorem RemoveMultiLineComments_correct ls s :
  (∃ r, all_removed ls r ∧ RemoveMultiLineComments error filename ls s = (Ok r, s)) ∨
  (∃ r b, unclosed_at b ls r ∧ RemoveMultiLineComments error filename ls s = report_unclosed b r s).
Proof using.
  apply remove_loop_run; [|lia|lia]. split; [done|done|by left|lia].
Qed.
End Removing.

(** ** Comments of one line *)

Lemma comments_need : needs "/*" _RE_PATTERN_CLEANSE_LINE_C_COMMENTS.
Proof.
  assert (Hc : ∀ r, needs "/*" (Cat (Lit "/*") r)) by (intros r; by apply needs_Cat_l, needs_Lit).
  unfold _RE_PATTERN_CLEANSE_LINE_C_COMMENTS. cbn [Alts Cats].
  repeat apply needs_Alt; auto; [by apply needs_Cat_r, needs_Cat_l|by apply needs_Cat_l|by apply needs_Cat_r, needs_Cat_l].
Qed.

Lemma CleanseComments_plain code : find "/*" code = None → re_sub _RE_PATTERN_CLEANSE_LINE_C_COMMENTS "" code = code.
Proof. apply re_sub_needs, comments_need. Qed.

(** A line without comments is left alone, and one that ends in a comment loses it,
    when the comment does not start in a string. *)
Theorem CleanseComments_correct code rest :
  find "/*" code = None →
  (find "//" code = None → CleanseComments code = code) ∧
  (find "//" (code +:+ "//" +:+ rest) = Some (String.length code) → IsCppString code = false →
   CleanseComments (code +:+ "//" +:+ rest) = code).
Proof.
  intros Hc. unfold CleanseComments. split.
  - intros ->. by apply CleanseComments_plain.
  - intros -> Hs. rewrite str_take_app, Hs. by apply CleanseComments_plain.
Qed.
Lemma CleanseComments_correct_witness : CleanseComments "return 0;  // done" = "return 0;  ".
Proof. apply (CleanseComments_correct "return 0;  " " done"); reflexivity. Defined.

(** ** Strings *)

(** The quotes that are not escaped. *)
Fixpoint quotes (escaped : bool) (s : string) : nat :=
  match s with
  | EmptyString => 0
  | String a s' =>
      if escaped then quotes false s'
      else if Ascii.eqb a backslash then quotes true s'
      else (if Ascii.eqb a dquote then 1 else 0) + quotes false s'
  end.

Lemma count_cons sub s a : sub ≠ "" → count sub (String a s) =
  if String.prefix sub (String a s) then S (count_go sub (String.length sub - 1) s) else count sub s.
Proof. done. Qed.
Definition masked (s : string) : string := replace two_backslashes "XX" s.
Lemma masked_two s : masked (String backslash (String backslash s)) = String "X" (String "X" (masked s)).
Proof. by destruct s. Qed.
Lemma masked_other a s : (match s with String c _ => a ≠ backslash ∨ c ≠ backslash | EmptyString => True end) →
  masked (String a s) = String a (masked s).
Proof.
  intros Hs. unfold masked, replace, two_backslashes. cbn [String.eqb replace_go]. rewrite prefix_cons.
  destruct s as [|c s]; [by destruct (Ascii.eqb backslash a)|]. rewrite prefix_cons.
  destruct (Ascii.eqb_spec backslash a) as [<-|?]; [|done].
  destruct (Ascii.eqb_spec backslash c) as [<-|?]; [by destruct Hs|done].
Qed.

Definition esc_quote : string := String backslash dquote_str.
Lemma count_one_cons c a s : count (String c "") (String a s) = (if Ascii.eqb a c then 1 else 0) + count (String c "") s.
Proof.
  rewrite count_cons by done. rewrite prefix_cons. cbn [String.prefix String.length Nat.sub].
  rewrite Ascii.eqb_sym. destruct (Ascii.eqb a c); cbn; [|done]. by destruct s.
Qed.
Lemma count_esc_plain a s : a ≠ backslash → count esc_quote (String a s) = count esc_quote s.
Proof.
  intros Ha. rewrite count_cons by done. unfold esc_quote. rewrite prefix_cons.
  by rewrite (proj2 (Ascii.eqb_neq backslash a)).
Qed.
Lemma count_esc_two c s : count esc_quote (String backslash (String c s)) =
  (if Ascii.eqb c dquote then S (count esc_quote s) else count esc_quote (String c s)).
Proof.
  rewrite count_cons by done. unfold esc_quote, dquote_str. rewrite !prefix_cons, Ascii.eqb_refl.
  cbn [String.prefix String.length Nat.sub andb]. rewrite Ascii.eqb_sym.
  destruct (Ascii.eqb c dquote); cbn [andb]; [|done]. by destruct s.
Qed.

(** Counting in the masked text counts the quotes that are not escaped. *)
Lemma quotes_masked s :
  Z.of_nat (count dquote_str (masked s)) = (Z.of_nat (count esc_quote (masked s)) + Z.of_nat (quotes false s))%Z.
Proof.
  remember (String.length s) as n eqn:En. assert (Hn : String.length s ≤ n) by lia. clear En. revert s Hn.
  induction n as [|n IH]; intros s Hn; [by destruct s; [|cbn in Hn; lia]|].
  destruct s as [|a s]; [done|]. cbn in Hn. cbn [quotes]. destruct (Ascii.eqb_spec a backslash) as [->|Ha].
  - destruct s as [|c s]; [done|]. cbn in Hn. cbn [quotes]. destruct (Ascii.eqb_spec c backslash) as [->|Hc].
    + rewrite masked_two. unfold dquote_str. rewrite !count_one_cons, !count_esc_plain by done. cbn [Ascii.eqb].
      apply IH. lia.
    + rewrite masked_other by auto.
      assert (Hm : masked (String c s) = String c (masked s)) by (apply masked_other; destruct s; auto).
      rewrite Hm, count_esc_two. unfold dquote_str. rewrite !count_one_cons.
      assert (Hcs := IH s ltac:(lia)). unfold dquote_str in Hcs.
      destruct (Ascii.eqb_spec c dquote) as [->|Hd]; [|rewrite count_esc_plain by done];
        change (Ascii.eqb backslash dquote) with false; cbv beta iota; lia.
  - rewrite masked_other by (destruct s; auto). unfold dquote_str. rewrite count_one_cons, count_esc_plain by done.
    specialize (IH s ltac:(lia)). unfold dquote_str in IH. lia.
Qed.

Lemma count_find_None sub s : sub ≠ "" → find sub s = None → count sub s = 0.
Proof.
  intros Hs. induction s as [|a s IH]; [done|]. rewrite count_cons by done. cbn [find].
  destruct (String.prefix _ _); [done|]. intros Hf. apply IH. by destruct (find sub s).
Qed.

Lemma odd_of_nat n : Z.odd (Z.of_nat n) = Nat.odd n.
Proof.
  induction n as [|n IH]; [done|]. by rewrite Nat2Z.inj_succ, Z.odd_succ, Nat.odd_succ, <- Z.negb_odd, IH, Nat.negb_odd.
Qed.

(** Without character literals of a quote, the text ends in a string when it has an
    odd number of quotes that are not escaped. *)
Theorem IsCppString_correct line :
  find (String "'" (dquote_str +:+ "'")) (masked line) = None →
  IsCppString line = Nat.odd (quotes false line).
Proof.
  intros Hf. unfold IsCppString. fold (masked line). fold esc_quote. rewrite (count_find_None (String "'" (dquote_str +:+ "'"))) by done.
  rewrite quotes_masked. replace (_ + _ - _ - _)%Z with (Z.of_nat (quotes false line)) by lia.
  apply odd_of_nat.
Qed.
Lemma IsCppString_correct_witness : IsCppString (dquote_str +:+ "a" +:+ esc_quote) = true.
Proof. apply (IsCppString_correct (dquote_str +:+ "a" +:+ esc_quote)). reflexivity. Defined.


(** ** Closing parentheses *)

Fixpoint total_balance (o c : ascii) (ls : list string) : Z :=
  match ls with [] => 0 | l :: ls' => balance o c l + total_balance o c ls' end.
(** The expression is still open after each of the lines. *)
Definition stays_open (o c : ascii) (n : Z) (ls : list string) : Prop :=
  ∀ l1 x l2, ls = l1 ++ x :: l2 → (0 < n + total_balance o c (l1 ++ [x]))%Z.

Lemma stays_open_cons o c n l ls :
  stays_open o c n (l :: ls) → (0 < n + balance o c l)%Z ∧ stays_open o c (n + balance o c l) ls.
Proof.
  intros H. split.
  - pose proof (H [] l ls eq_refl) as H1. cbn in H1. lia.
  - intros l1 x l2 ->. pose proof (H (l :: l1) x l2 eq_refl) as H1. cbn in H1. lia.
Qed.

Lemma balance_loop_open o c total : ∀ rest linenum line n,
  (0 < n)%Z → stays_open o c n rest → total = linenum + S (length rest) →
  balance_loop o c rest linenum line n total = Err IndexError.
Proof.
  intros rest. induction rest as [|l rest IH]; intros linenum line n Hn Ho Ht; cbn in Ht; cbn [balance_loop];
    rewrite (proj2 (Nat.ltb_lt _ _)), (proj2 (Z.ltb_lt _ _)) by lia; [done|].
  apply stays_open_cons in Ho as [H1 H2]. cbn. apply IH; [done|done|lia].
Qed.

Lemma balance_loop_close o c total last rest : ∀ mid linenum line n,
  (0 < n)%Z → stays_open o c n mid → (n + total_balance o c mid + balance o c last = 0)%Z →
  linenum + S (length mid) < total →
  balance_loop o c (mid ++ last :: rest) linenum line n total = Ok (last, linenum + S (length mid), 0%Z).
Proof.
  intros mid. induction mid as [|l mid IH]; intros linenum line n Hn Ho Hz Ht; cbn in Hz, Ht; cbn [app balance_loop];
    rewrite (proj2 (Nat.ltb_lt _ _)), (proj2 (Z.ltb_lt 0 n)) by lia; cbn [andb].
  - destruct rest as [|r rest]; cbn [balance_loop]; rewrite (proj2 (Z.ltb_ge 0 (n + balance o c last))) by lia;
      rewrite andb_false_r; do 3 f_equal; cbn; lia.
  - apply stays_open_cons in Ho as [H1 H2]. rewrite IH; [do 3 f_equal; cbn; lia|done|done|lia|lia].
Qed.

Lemma rfind_go_app c s t : ∀ i last, rfind_go c i (s +:+ t) last = rfind_go c (i + Z.of_nat (String.length s)) t (rfind_go c i s last).
Proof.
  induction s as [|a s IH]; intros i last; [rewrite str_app_nil_l; cbn; by rewrite Z.add_0_r|].
  rewrite str_app_cons. cbn [rfind_go String.length]. rewrite IH. f_equal. lia.
Qed.
Lemma rfind_go_none c s : ∀ i last, str_mem c s = false → rfind_go c i s last = last.
Proof.
  induction s as [|a s IH]; intros i last; cbn; [done|]. rewrite orb_false_iff. intros [Ha Hs]. rewrite Ha. by apply IH.
Qed.
Lemma rfind_last inner post : str_mem ")" post = false →
  let line := inner +:+ ")" +:+ post in
  rfind ")" line (Z.of_nat (String.length line)) = Z.of_nat (String.length inner).
Proof.
  intros Hp line. unfold rfind. rewrite (proj2 (Z.ltb_ge _ _)), Z.min_id, Nat2Z.id by lia.
  assert (Ht : str_take (String.length line) line = line).
  { rewrite <- (str_app_nil_r line) at 2. apply str_take_app. }
  rewrite Ht. unfold line. rewrite rfind_go_app. rewrite str_app_cons, str_app_nil_l. cbn [rfind_go Ascii.eqb].
  rewrite rfind_go_none by done. cbn. lia.
Qed.

Lemma drop_first {A} (l : list A) n x r : drop n l = x :: r →
  l !! n = Some x ∧ drop (S n) l = r ∧ n + S (length r) = length l.
Proof.
  intros Hd. assert (Hl : l !! n = Some x) by (by rewrite <- (Nat.add_0_r n), <- lookup_drop, Hd).
  split; [done|]. rewrite (drop_S _ _ _ Hl) in Hd. injection Hd as Hr. split; [done|].
  apply lookup_lt_Some in Hl. rewrite <- Hr, length_drop. lia.
Qed.
Lemma elided_length ls : length (elided (new_CleansedLines ls)) = NumLines (new_CleansedLines ls).
Proof. apply length_fmap. Qed.

(** The search for what closes a parenthesis gives the position after the last
    closing one of the first line where as many have been closed as opened. *)
Theorem CloseExpression_correct ls linenum pos first mid inner post rest :
  let c := new_CleansedLines ls in
  let last := inner +:+ ")" +:+ post in
  str_get pos first = Some "("%char → str_mem ")" post = false →
  (drop linenum (elided c) = first :: mid ++ last :: rest ∧ stays_open "(" ")" 0 (first :: mid) ∧
     total_balance "(" ")" (first :: mid ++ [last]) = 0%Z →
   CloseExpression c linenum pos = Ok (last, linenum + S (length mid), (Z.of_nat (String.length inner) + 1)%Z)) ∧
  (drop linenum (elided c) = first :: rest ∧ first = last ∧ balance "(" ")" first = 0%Z →
   CloseExpression c linenum pos = Ok (last, linenum, (Z.of_nat (String.length inner) + 1)%Z)).
Proof.
  intros c last Hpos Hpost.
  assert (Hback : ∀ n, back_loop (Z.to_nat (0 + 1)) last (Z.of_nat (String.length last)) = n → n = Z.of_nat (String.length inner)).
  { intros n <-. cbn [back_loop Z.to_nat]. by apply rfind_last. }
  assert (Hfirst : ∀ l, drop linenum (elided c) = first :: l →
    elided c !! linenum = Some first ∧ drop (S linenum) (elided c) = l ∧ linenum + S (length l) = NumLines c).
  { intros l Hd. apply drop_first in Hd as (? & ? & Hn). change (length (elided c)) with (length (elided (new_CleansedLines ls))) in Hn.
    rewrite elided_length in Hn. done. }
  unfold CloseExpression. split.
  - intros (Hd & Ho & Ht). destruct (Hfirst _ Hd) as (-> & -> & Hn). rewrite Hpos. change (Ascii.eqb "(" "(") with true. cbv iota.
    apply stays_open_cons in Ho as [H1 H2]. rewrite length_app in Hn. cbn [length] in Hn.
    assert (Htot : ∀ l, total_balance "(" ")" (l ++ [last]) = (total_balance "(" ")" l + balance "(" ")" last)%Z).
    { intros l. induction l as [|x l IH]; cbn; [lia|]. rewrite IH. lia. }
    cbn [total_balance app] in Ht. rewrite Htot in Ht.
    rewrite (balance_loop_close _ _ (NumLines c) last rest); [|lia|by rewrite Z.add_0_l in H2|lia|lia].
    cbn [mbind res_bind]. by rewrite (Hback _ eq_refl).
  - intros (Hd & -> & Hb). destruct (Hfirst _ Hd) as (-> & -> & Hn). rewrite Hpos. change (Ascii.eqb "(" "(") with true. cbv iota. rewrite Hb.
    destruct rest; cbn [balance_loop]; rewrite andb_false_r; cbn [mbind res_bind]; by rewrite (Hback _ eq_refl).
Qed.

(** When nothing closes it before the end of the file, the search runs past the
    lines and raises. *)
Theorem CloseExpression_unfinished ls linenum pos first rest :
  let c := new_CleansedLines ls in
  drop linenum (elided c) = first :: rest → str_get pos first = Some "("%char →
  stays_open "(" ")" 0 (first :: rest) → CloseExpression c linenum pos = Err IndexError.
Proof.
  intros c Hd Hpos Ho. apply drop_first in Hd as (Hl & Hr & Hn). change (length (elided c)) with (length (elided (new_CleansedLines ls))) in Hn.
    rewrite elided_length in Hn.
  unfold CloseExpression. rewrite Hl, Hpos, Hr. change (Ascii.eqb "(" "(") with true. cbv iota.
  apply stays_open_cons in Ho as [H1 H2]. rewrite balance_loop_open; [done|lia|by rewrite Z.add_0_l in H2|]. by rewrite Hn.
Qed.
Lemma CloseExpression_correct_witness :
  CloseExpression (new_CleansedLines ["} else if (a &&"; "  f(b)) {"]) 0 10 = Ok ("  f(b)) {", 1, 7%Z).
Proof.
  apply (CloseExpression_correct ["} else if (a &&"; "  f(b)) {"] 0 10 "} else if (a &&" [] "  f(b)" " {" []); [reflexivity|reflexivity|].
  split_and!; [reflexivity| |reflexivity].
  intros [|x1 [|x2 l1]] x l2; [|by intros [=]|by intros [=]]. intros [= <- <-]. vm_compute. reflexivity.
Defined.
Lemma CloseExpression_unfinished_witness :
  CloseExpression (new_CleansedLines ["} else if (a"; "// the end"]) 0 10 = Err IndexError.
Proof.
  apply (CloseExpression_unfinished ["} else if (a"; "// the end"] 0 10 "} else if (a" [""]); [reflexivity|reflexivity|].
  intros [|x1 [|x2 l1]] x l2; [intros [= <- <-]|intros [= <- <- <-]|intros [= ? ? ?]]; [vm_compute; reflexivity..|].
  by destruct l1.
Defined.
