(* ===== verification/CppFile.v ===== *)
(** * File names, header guards and includes (tools/cpplint.py)

    What the checks make of the name of a file: its path in the repository, the name
    of its header guard, the headers that belong to it.  The file system is what
    exists and the absolute path of a name. *)
From S2P Require Import Prelude PyStr PyPath PyState CppRe CppState CppLines.

Class Files := { path_exists : string → bool; abspath : string → string; read_lines : string → option (list string) }.

(** ** FileInfo *)

Section FileInfo.
Context `{Files}.

Definition FullName (filename : string) : string := replace (String backslash "") "/" (abspath filename).

(** Up while there is a folder [.svn] above. *)
Fixpoint svn_loop (fuel : nat) (root_dir one_up_dir : string) : res string :=
  match fuel with
  | 0 => Err OutOfFuel
  | S n =>
      if path_exists (path_join one_up_dir ".svn") then svn_loop n (dirname root_dir) (dirname one_up_dir)
      else Ok root_dir
  end.
Definition repo_marker (d : string) : bool := path_exists (path_join d ".git") || path_exists (path_join d ".hg").
Fixpoint git_loop (fuel : nat) (root_dir : string) : res string :=
  match fuel with
  | 0 => Err OutOfFuel
  | S n =>
      if negb (root_dir =s dirname root_dir) && negb (path_exists (path_join root_dir ".git")) &&
         negb (path_exists (path_join root_dir ".hg"))
      then git_loop n (dirname root_dir) else Ok root_dir
  end.
Definition RepositoryName (fuel : nat) (filename : string) : res string :=
  let fullname := FullName filename in
  if path_exists fullname then
    let project_dir := dirname fullname in
    let below root := str_drop (String.length (commonprefix root project_dir) + 1) fullname in
    if path_exists (path_join project_dir ".svn") then
      root_dir ← svn_loop fuel project_dir (dirname project_dir); Ok (below root_dir)
    else
      root_dir ← git_loop fuel (dirname fullname);
      Ok (if repo_marker root_dir then below root_dir else fullname)
  else Ok fullname.

Definition Split (repository_name : string) : string * string * string :=
  let '(project, rest) := path_split repository_name in (project, (splitext rest).1, (splitext rest).2).
Definition BaseName (n : string) : string := (Split n).1.2.
Definition Extension (n : string) : string := (Split n).2.
Definition NoExtension (n : string) : string := (Split n).1.1 +:+ "/" +:+ (Split n).1.2.
Definition IsSource (n : string) : bool := bool_decide (str_drop 1 (Extension n) ∈ ["c"; "cc"; "cpp"; "cxx"]).
End FileInfo.

(** ** Header guards *)

Definition char_upper (a : ascii) : ascii := if is_lower a then ascii_of_nat (nat_of_ascii a - 32) else a.
Definition upper : string → string := str_map char_upper.
Definition guard_char (a : ascii) : ascii := if one_of "-./" a || is_space a then "_"%char else a.
Definition guard_name (repository_name : string) : string := upper (str_map guard_char repository_name) +:+ "_".
Definition without_flymake (filename : string) : string :=
  re_sub (Cats [Lit "_flymake.h"; Eol]) ".h" filename.
Definition GetHeaderGuardCPPVariable `{Files} (fuel : nat) (filename : string) : res string :=
  guard_name <$> RepositoryName fuel (without_flymake filename).

Record guard := mkGuard { ifndef : option (string * Z); define : option string; endif : option (string * Z) }.
Definition guard_line (g : guard) (linenum : Z) (line : string) : guard :=
  let g := match split_ws line with
    | w1 :: w2 :: _ =>
        let g := if bool_decide (ifndef g = None) && (w1 =s "#ifndef") then mkGuard (Some (w2, linenum)) (define g) (endif g) else g in
        if bool_decide (define g = None) && (w1 =s "#define") then mkGuard (ifndef g) (Some w2) (endif g) else g
    | _ => g
    end in
  if startswith "#endif" line then mkGuard (ifndef g) (define g) (Some (line, linenum)) else g.
Fixpoint guard_scan (linenum : Z) (ls : list string) (g : guard) : guard :=
  match ls with [] => g | l :: ls' => guard_scan (linenum + 1) ls' (guard_line g linenum l) end.

Section Checks.
Context `{Files} (fuel : nat).
Context (error : string → Z → string → Z → string → ST Lint unit).

Definition CheckForHeaderGuard (filename : string) (ls : list string) : ST Lint unit :=
  cppvar ← lift (GetHeaderGuardCPPVariable fuel filename);
  let g := guard_scan 0 ls (mkGuard None None None) in
  match ifndef g, define g with
  | Some (name, linenum), Some defined =>
      if negb (name =s defined) then
        error filename 0 "build/header_guard" 5 ("No #ifndef header guard found, suggested CPP variable is: " +:+ cppvar)
      else
        (if negb (name =s cppvar) then
           ParseNolintSuppressions error filename (default "" (ls !! Z.to_nat linenum)) linenum;;
           error filename linenum "build/header_guard" (if name =s cppvar +:+ "_" then 0 else 5)
             ("#ifndef header guard has wrong style, please use: " +:+ cppvar)
         else mret tt);;
        let '(line, linenum) := match endif g with Some (l, n) => (Some l, n) | None => (None, 0%Z) end in
        if negb (bool_decide (line = Some ("#endif  // " +:+ cppvar))) then
          ParseNolintSuppressions error filename (default "" (ls !! Z.to_nat linenum)) linenum;;
          error filename linenum "build/header_guard"
            (if bool_decide (line = Some ("#endif  // " +:+ cppvar +:+ "_")) then 0 else 5)
            ("#endif line should be " +:+ dquote_str +:+ "#endif  // " +:+ cppvar +:+ dquote_str)
        else mret tt
  | _, _ =>
      error filename 0 "build/header_guard" 5 ("No #ifndef header guard found, suggested CPP variable is: " +:+ cppvar)
  end.
End Checks.

(** ** Headers of a file *)

Definition common_suffixes : list string := ["test.cc"; "regtest.cc"; "unittest.cc"; "inl.h"; "impl.h"; "internal.h"].
Definition drop_suffix (filename suffix : string) : option string :=
  if endswith suffix filename && (String.length suffix <? String.length filename)%nat &&
     match str_get (String.length filename - String.length suffix - 1) filename with
     | Some c => (c =c "-") || (c =c "_")
     | None => false
     end
  then Some (str_take (String.length filename - String.length suffix - 1) filename) else None.
Fixpoint drop_loop (suffixes : list string) (filename : string) : string :=
  match suffixes with
  | [] => (splitext filename).1
  | s :: l => match drop_suffix filename s with Some r => r | None => drop_loop l filename end
  end.
Definition _DropCommonSuffixes : string → string := drop_loop common_suffixes.
Definition _IsTestFilename (filename : string) : bool :=
  endswith "_test.cc" filename || endswith "_unittest.cc" filename || endswith "_regtest.cc" filename.

Definition _STL_HEADERS : list string :=
  [ "algobase.h"; "algorithm"; "alloc.h"; "bitset"; "deque"; "exception"; "function.h"; "functional"; "hash_map";
    "hash_map.h"; "hash_set"; "hash_set.h"; "iterator"; "list"; "list.h"; "map"; "memory"; "new"; "pair.h";
    "pthread_alloc"; "queue"; "set"; "set.h"; "sstream"; "stack"; "stl_alloc.h"; "stl_relops.h"; "type_traits.h";
    "utility"; "vector"; "vector.h" ].
Definition _CPP_HEADERS : list string :=
  [ "algo.h"; "builtinbuf.h"; "bvector.h"; "cassert"; "cctype"; "cerrno"; "cfloat"; "ciso646"; "climits"; "clocale";
    "cmath"; "complex"; "complex.h"; "csetjmp"; "csignal"; "cstdarg"; "cstddef"; "cstdio"; "cstdlib"; "cstring";
    "ctime"; "cwchar"; "cwctype"; "defalloc.h"; "deque.h"; "editbuf.h"; "exception"; "fstream"; "fstream.h";
    "hashtable.h"; "heap.h"; "indstream.h"; "iomanip"; "iomanip.h"; "ios"; "iosfwd"; "iostream"; "iostream.h";
    "istream.h"; "iterator.h"; "limits"; "map.h"; "multimap.h"; "multiset.h"; "numeric"; "ostream.h";
    "parsestream.h"; "pfstream.h"; "PlotFile.h"; "procbuf.h"; "pthread_alloc.h"; "rope"; "rope.h"; "ropeimpl.h";
    "SFile.h"; "slist"; "slist.h"; "stack.h"; "stdexcept"; "stdiostream.h"; "streambuf.h"; "stream.h"; "strfile.h";
    "string"; "strstream"; "strstream.h"; "tempbuf.h"; "tree.h"; "typeinfo"; "valarray" ].

(** [_RE_FIRST_COMPONENT]: the name up to a dash, an underscore or a dot. *)
Fixpoint first_component (s : string) : string :=
  match s with
  | String a s' => if one_of "-_." a then "" else String a (first_component s')
  | EmptyString => ""
  end.
Definition _ClassifyInclude (repository_name include : string) (is_system : bool) : header_type :=
  let is_cpp_h := bool_decide (include ∈ _STL_HEADERS) || bool_decide (include ∈ _CPP_HEADERS) in
  if is_system then if is_cpp_h then _CPP_SYS_HEADER else _C_SYS_HEADER
  else
    let '(target_dir, target_base) := path_split (_DropCommonSuffixes repository_name) in
    let '(include_dir, include_base) := path_split (_DropCommonSuffixes include) in
    if (target_base =s include_base) && ((include_dir =s target_dir) || (include_dir =s normpath (target_dir +:+ "/../public")))
    then _LIKELY_MY_HEADER
    else
      let t := first_component target_base in
      let i := first_component include_base in
      if negb (t =s "") && negb (i =s "") && (t =s i) then _POSSIBLE_MY_HEADER else _OTHER_HEADER.

(** ** Include lines *)

Definition _RE_PATTERN_INCLUDE_NEW_STYLE : rx :=
  Cats [Lit "#include"; Plus (Chr " "); Chr dquote; Plus (None_of "/"); Lit ".h"; Chr dquote].
Definition stream_header : rx :=
  Cats [Opt (Alts [Lit "f"; Lit "ind"; Lit "io"; Lit "i"; Lit "o"; Lit "parse"; Lit "pf"; Lit "stdio"; Lit "str"; Eps]);
        Lit "stream"; Eol].
Section IncludeChecks.
Context (error : string → Z → string → Z → string → ST Lint unit).
(** The includes of the file so far go with the result. *)
Definition check_include (filename repository_name : string) (linenum : Z) (m : pos * pos) (i : _IncludeState)
    : ST Lint _IncludeState :=
  let include := default "" (group 2 m) in
  let is_system := bool_decide (group 1 m = Some "<") in
  match included i !! include with
  | Some place =>
      error filename linenum "build/include" 4
        (dquote_str +:+ include +:+ dquote_str +:+ " already included at " +:+ filename +:+ ":" +:+ place);;
      mret i
  | None =>
      let i := mkInclude (_section i) (_last_header i) (<[include := str_of_Z linenum]> (included i)) in
      let '(error_message, i) := CheckNextIncludeOrder i (_ClassifyInclude repository_name include is_system) in
      (if negb (error_message =s "") then
         error filename linenum "build/include_order" 4
           (error_message +:+ ". Should be: " +:+ BaseName repository_name +:+ ".h, c system, c++ system, other.")
       else mret tt);;
      let '(ordered, i) := IsInAlphabeticalOrder i include in
      (if negb ordered then
         error filename linenum "build/include_alpha" 4
           ("Include " +:+ dquote_str +:+ include +:+ dquote_str +:+ " not in alphabetical order")
       else mret tt);;
      mret i
  end.
Definition check_stream (filename : string) (linenum : Z) (line : string) : ST Lint unit :=
  match re_match _RE_PATTERN_INCLUDE line with
  | None => mret tt
  | Some m =>
      if found (re_match stream_header (default "" (group 2 m))) && negb (_IsTestFilename filename) then
        error filename linenum "readability/streams" 3 "Streams are highly discouraged."
      else mret tt
  end.
(** The state of the includes goes in and comes out. *)
Definition CheckIncludeLine (filename repository_name : string) (c : CleansedLines) (linenum : nat) (i : _IncludeState)
    : ST Lint _IncludeState :=
  match lines c !! linenum with
  | None => throw IndexError
  | Some line =>
      (if found (re_search _RE_PATTERN_INCLUDE_NEW_STYLE line) then
         error filename (Z.of_nat linenum) "build/include" 4 "Include the directory when naming .h files"
       else mret tt);;
      i ← match re_search _RE_PATTERN_INCLUDE line with
        | None => mret i
        | Some m => check_include filename repository_name (Z.of_nat linenum) m i
        end;
      check_stream filename (Z.of_nat linenum) line;;
      mret i
  end.
End IncludeChecks.

(** ** Modules *)

Definition strip_suffix (suffix s : string) : string :=
  if endswith suffix s then str_take (String.length s - String.length suffix) s else s.
Definition without_folders (s : string) : string := replace "/internal/" "/" (replace "/public/" "/" s).
Definition FilesBelongToSameModule (filename_cc filename_h : string) : bool * string :=
  if negb (endswith ".cc" filename_cc) then (false, "")
  else
    let cc := strip_suffix ".cc" filename_cc in
    let cc := without_folders (if endswith "_unittest" cc then strip_suffix "_unittest" cc else strip_suffix "_test" cc) in
    if negb (endswith ".h" filename_h) then (false, "")
    else
      let h := without_folders (strip_suffix "-inl" (strip_suffix ".h" filename_h)) in
      if endswith h cc then (true, if h =s "" then "" else str_take (String.length cc - String.length h) cc)
      else (false, "").

Section Update.
Context `{Files}.
Definition add_header (filename : string) (im : gmap string string) (nl : nat * string) : gmap string string :=
  match re_search _RE_PATTERN_INCLUDE (CleanseComments nl.2) with
  | None => im
  | Some m =>
      let include := default "" (group 2 m) in
      match im !! include with
      | Some _ => im
      | None => <[include := filename +:+ ":" +:+ str_of_nat nl.1]> im
      end
  end.
Definition UpdateIncludeState (filename : string) (im : gmap string string) : bool * gmap string string :=
  match read_lines filename with
  | None => (false, im)
  | Some ls => (true, fold_left (add_header filename) (imap (λ i l, (S i, l)) ls) im)
  end.
End Update.

(** ** The path in the repository *)

Section Repository.
Context `{Files}.

(** No checkout at the root of the file system, nor in the current folder of the
    empty name. *)
Definition no_svn_at_root : Prop := ∀ p, p = "" ∨ all_slashes p = true → path_exists (path_join p ".svn") = false.

Lemma svn_loop_ok fuel : no_svn_at_root → ∀ root up, String.length up < fuel →
  ∃ r, svn_loop fuel root up = Ok r ∧ prefix_of r root.
Proof using.
  intros Hn. induction fuel as [|fuel IH]; intros root up Hf; [lia|]. cbn [svn_loop].
  destruct (path_exists (path_join up ".svn")) eqn:E; [|by exists root].
  assert (Hup : up ≠ "" ∧ all_slashes up = false).
  { split; [intros ->|destruct (all_slashes up) eqn:Es; [|done]]; rewrite Hn in E; try done; auto. }
  destruct (IH (dirname root) (dirname up)) as (r & Hr & Hp).
  - pose proof (dirname_shorter up (proj1 Hup) (proj2 Hup)). lia.
  - exists r. split; [done|]. etrans; [exact Hp|apply dirname_prefix].
Qed.

Lemma dirname_strict d : d ≠ dirname d → String.length (dirname d) < String.length d.
Proof using.
  intros Hd. destruct (decide (String.length d ≤ String.length (dirname d))); [|lia].
  by destruct Hd; symmetry; apply prefix_same_length, l; apply dirname_prefix.
Qed.
Lemma git_loop_ok fuel : ∀ root, String.length root < fuel → ∃ r, git_loop fuel root = Ok r ∧ prefix_of r root.
Proof using.
  induction fuel as [|fuel IH]; intros root Hf; [lia|]. cbn [git_loop].
  destruct (negb _ && _ && _) eqn:E; [|by exists root].
  apply andb_true_iff in E as [[E%negb_true_iff%String.eqb_neq _]%andb_true_iff _].
  destruct (IH (dirname root)) as (r & Hr & Hp); [by apply dirname_strict in E; lia|].
  exists r. split; [done|]. etrans; [exact Hp|apply dirname_prefix].
Qed.
End Repository.

(** The search for the top of the checkout ends, and the name in the repository is
    the end of the full name, when there is no Subversion checkout at the root of the
    file system. *)
Theorem RepositoryName_total `{Files} filename fuel :
  no_svn_at_root → String.length (FullName filename) < fuel →
  ∃ n, RepositoryName fuel filename = Ok n ∧ suffix_of n (FullName filename).
Proof.
  intros Hn Hf. unfold RepositoryName. set (full := FullName filename) in *.
  assert (Hd : String.length (dirname full) ≤ String.length full) by (apply prefix_of_length, dirname_prefix).
  assert (Hs : ∀ k, suffix_of (str_drop k full) full) by (intros k; exists (str_take k full); by rewrite str_take_drop).
  destruct (path_exists full); [|by exists full; split].
  destruct (path_exists (path_join _ _)).
  - pose proof (prefix_of_length _ _ (dirname_prefix (dirname full))).
    destruct (svn_loop_ok fuel Hn (dirname full) (dirname (dirname full))) as (r & -> & _); [lia|]. cbn. eauto.
  - destruct (git_loop_ok fuel (dirname full)) as (r & -> & _); [lia|]. cbn. destruct (repo_marker r); [eauto|by exists full].
Qed.

(** With a Subversion checkout at the root of the file system, the search never
    ends. *)
Theorem svn_at_root_hangs `{Files} fuel filename :
  path_exists (FullName filename) = true → dirname (FullName filename) = "/" → path_exists "/.svn" = true →
  RepositoryName fuel filename = Err OutOfFuel.
Proof.
  intros He Hd Hs. unfold RepositoryName. rewrite He, Hd. change (path_join "/" ".svn") with "/.svn". rewrite Hs.
  change (dirname "/") with "/".
  assert (Hl : svn_loop fuel "/" "/" = Err OutOfFuel); [|by rewrite Hl].
  induction fuel as [|fuel IH]; [done|]. cbn [svn_loop]. change (path_join "/" ".svn") with "/.svn". by rewrite Hs.
Qed.

(** The first folder, going up, that is a checkout. *)
Definition nearest_checkout `{Files} (d r : string) : Prop :=
  ∃ k, r = Nat.iter k dirname d ∧ repo_marker r = true ∧
    ∀ j, j < k → repo_marker (Nat.iter j dirname d) = false ∧ Nat.iter j dirname d ≠ Nat.iter (S j) dirname d.
Lemma git_loop_nearest `{Files} fuel : ∀ d r, nearest_checkout d r → String.length d < fuel → git_loop fuel d = Ok r.
Proof.
  induction fuel as [|fuel IH]; intros d r (k & -> & Hr & Hj) Hf; [lia|]. cbn [git_loop].
  destruct k as [|k].
  - cbn in Hr. unfold repo_marker in Hr. rewrite <- andb_assoc, <- negb_orb, Hr, andb_false_r. done.
  - destruct (Hj 0) as [H0 Hne]; [lia|]. cbn in H0, Hne. unfold repo_marker in H0.
    rewrite <- andb_assoc, <- negb_orb, H0, (proj2 (String.eqb_neq _ _) Hne). cbn [negb andb].
    rewrite Nat.iter_succ_r in *. apply IH.
    + exists k. split_and!; [done|done|]. intros j Hjk. specialize (Hj (S j) ltac:(lia)).
      by rewrite (Nat.iter_succ_r (S j)), (Nat.iter_succ_r j) in Hj.
    + apply dirname_strict in Hne. lia.
Qed.
Lemma iter_dirname_prefix k d : prefix_of (Nat.iter k dirname d) d.
Proof. induction k as [|k IH]; [done|]. cbn. etrans; [apply dirname_prefix|done]. Qed.

(** In a Git or Mercurial checkout, the name of a file in the repository is its path
    below the nearest folder that is a checkout. *)
Theorem RepositoryName_below `{Files} fuel filename r rest :
  path_exists (FullName filename) = true →
  path_exists (path_join (dirname (FullName filename)) ".svn") = false →
  nearest_checkout (dirname (FullName filename)) r → FullName filename = r +:+ "/" +:+ rest →
  String.length (FullName filename) < fuel →
  RepositoryName fuel filename = Ok rest.
Proof.
  intros He Hs Hr Hfull Hf. unfold RepositoryName. rewrite He, Hs.
  assert (Hd : String.length (dirname (FullName filename)) ≤ String.length (FullName filename)) by (apply prefix_of_length, dirname_prefix).
  rewrite (git_loop_nearest fuel _ r Hr) by lia. cbn [mbind res_bind]. destruct Hr as (k & Hk & -> & _). f_equal.
  rewrite commonprefix_prefix; [|rewrite Hk; apply iter_dirname_prefix].
  replace (String.length r + 1) with (String.length (r +:+ "/")) by (rewrite str_length_app; done).
  rewrite Hfull, <- str_app_assoc. apply str_drop_app.
Qed.

(** ** The header guard *)

Lemma guard_no_space n : str_forall (λ a, negb (is_space a)) (guard_name n) = true.
Proof.
  unfold guard_name. rewrite str_forall_app. cbn [str_forall]. rewrite andb_true_r.
  unfold upper. induction n as [|a n IH]; [done|]. cbn [str_map str_forall]. rewrite IH, andb_true_r.
  destruct a as [[] [] [] [] [] [] [] []]; reflexivity.
Qed.
Lemma words_go_word cur w : str_forall (λ a, negb (is_space a)) w = true → cur +:+ w ≠ "" → words_go cur w = [cur +:+ w].
Proof.
  revert cur. induction w as [|a w IH]; intros cur Hw Hne; cbn [words_go].
  - rewrite str_app_nil_r in *. by rewrite (proj2 (String.eqb_neq _ _) Hne).
  - cbn in Hw. apply andb_true_iff in Hw as [Ha%negb_true_iff Hw]. rewrite Ha.
    assert (He : (cur +:+ String a "") +:+ w = cur +:+ String a w) by (by rewrite str_app_assoc).
    rewrite IH; [by rewrite He|done|by rewrite He].
Qed.
Lemma guard_words n : split_ws ("#ifndef " +:+ guard_name n) = ["#ifndef"; guard_name n] ∧
  split_ws ("#define " +:+ guard_name n) = ["#define"; guard_name n].
Proof.
  assert (Hne : guard_name n ≠ "") by (unfold guard_name; by destruct (upper _)).
  split; [change (split_ws _) with ("#ifndef" :: words_go "" (guard_name n))|
          change (split_ws _) with ("#define" :: words_go "" (guard_name n))];
    (rewrite words_go_word; [done|apply guard_no_space|done]).
Qed.

Lemma guard_scan_app ls1 : ∀ n ls2 g, guard_scan n (ls1 ++ ls2) g = guard_scan (n + Z.of_nat (length ls1)) ls2 (guard_scan n ls1 g).
Proof.
  induction ls1 as [|l ls1 IH]; intros n ls2 g; [cbn; by rewrite Z.add_0_r|].
  cbn [app guard_scan length]. rewrite IH. f_equal. lia.
Qed.
(** A line that is neither [#ifndef] nor [#define], nor starts with [#endif]. *)
Definition plain_line (l : string) : Prop :=
  startswith "#endif" l = false ∧ ∀ w1 w2 ws, split_ws l = w1 :: w2 :: ws → w1 ≠ "#ifndef" ∧ w1 ≠ "#define".
Lemma guard_scan_plain ls : ∀ n g, Forall plain_line ls → guard_scan n ls g = g.
Proof.
  induction ls as [|l ls IH]; intros n g; [done|]. intros [[He Hw] Hls]%Forall_cons. cbn [guard_scan].
  unfold guard_line. rewrite He. destruct (split_ws l) as [|w1 [|w2 ws]]; [by apply IH..|].
  destruct (Hw _ _ _ eq_refl) as [H1 H2]. rewrite (proj2 (String.eqb_neq _ _) H1), (proj2 (String.eqb_neq _ _) H2), !andb_false_r.
  by apply IH.
Qed.
Lemma guard_scan_first ls : ∀ n g, is_Some (ifndef g) → is_Some (define g) →
  ifndef (guard_scan n ls g) = ifndef g ∧ define (guard_scan n ls g) = define g.
Proof.
  induction ls as [|l ls IH]; intros n g H1 H2; [done|]. cbn [guard_scan].
  assert (Hl : ifndef (guard_line g n l) = ifndef g ∧ define (guard_line g n l) = define g).
  { destruct g as [i d e]. cbn [ifndef define] in *. destruct H1 as [p ->], H2 as [q ->]. unfold guard_line.
    by destruct (split_ws l) as [|w1 [|w2 ws]], (startswith _ _). }
  destruct Hl as [E1 E2]. destruct (IH (n + 1)%Z (guard_line g n l)) as [-> ->]; [by rewrite E1|by rewrite E2|done].
Qed.

Lemma guard_line_ifndef n k g : ifndef g = None →
  guard_line g k ("#ifndef " +:+ guard_name n) = mkGuard (Some (guard_name n, k)) (define g) (endif g).
Proof.
  intros Hi. unfold guard_line. rewrite (proj1 (guard_words n)). destruct g as [i d e]. cbn in Hi. subst i.
  change (startswith "#endif" _) with false. by destruct d.
Qed.
Lemma guard_line_define n k g : define g = None →
  guard_line g k ("#define " +:+ guard_name n) = mkGuard (ifndef g) (Some (guard_name n)) (endif g).
Proof.
  intros Hd. unfold guard_line. rewrite (proj2 (guard_words n)). destruct g as [i d e]. cbn in Hd. subst d.
  change (startswith "#endif" _) with false. by destruct i.
Qed.
Lemma guard_line_endif l k g : startswith "#endif" l = true → is_Some (ifndef g) → is_Some (define g) →
  guard_line g k l = mkGuard (ifndef g) (define g) (Some (l, k)).
Proof.
  intros Hl Hi Hd. destruct (guard_scan_first [l] k g Hi Hd) as [E1 E2]. cbn [guard_scan] in E1, E2.
  destruct (guard_line g k l) as [i d e] eqn:E. cbn in E1, E2. subst i d. f_equal.
  unfold guard_line in E. rewrite Hl in E. by injection E as _ _ <-.
Qed.

(** A file with the guard of its name around its contents is accepted, whatever the
    contents are. *)
Theorem header_guard_accepted `{Files} fuel err filename n pre mid body post s :
  RepositoryName fuel (without_flymake filename) = Ok n →
  Forall plain_line pre → Forall plain_line mid → Forall plain_line post →
  let v := guard_name n in
  CheckForHeaderGuard fuel err filename
    (pre ++ ("#ifndef " +:+ v) :: mid ++ ("#define " +:+ v) :: body ++ ("#endif  // " +:+ v) :: post) s = (Ok tt, s).
Proof.
  intros Hn Hpre Hmid Hpost v. subst v. unfold CheckForHeaderGuard. rewrite st_bind. unfold lift, GetHeaderGuardCPPVariable. rewrite Hn.
  cbn [fmap res_fmap]. set (g := guard_scan 0 _ _).
  assert (Hg : ∃ k e, g = mkGuard (Some (guard_name n, k)) (Some (guard_name n)) (Some ("#endif  // " +:+ guard_name n, e))).
  { unfold g. rewrite guard_scan_app, (guard_scan_plain pre) by done. cbn [guard_scan].
    rewrite guard_line_ifndef by done. rewrite guard_scan_app, (guard_scan_plain mid) by done. cbn [guard_scan].
    rewrite guard_line_define by done. rewrite guard_scan_app. cbn [guard_scan].
    match goal with |- context [guard_scan ?k body ?g0] =>
      destruct (guard_scan_first body k g0) as [E1 E2]; [by eexists|by eexists|]; set (g1 := guard_scan k body g0) in * end.
    rewrite guard_line_endif; [|reflexivity|by rewrite E1; eexists|by rewrite E2; eexists].
    rewrite guard_scan_plain by done. rewrite E1, E2. cbn. by eexists _, _. }
  destruct Hg as (k & e & ->). cbn [ifndef define endif]. rewrite !String.eqb_refl. cbn [negb].
  rewrite bool_decide_true by done. done.
Qed.

(** No line has the word, before another one. *)
Definition no_directive (word : string) (ls : list string) : Prop :=
  ∀ l w1 w2 ws, l ∈ ls → split_ws l = w1 :: w2 :: ws → w1 ≠ word.
Lemma no_directive_cons word l ls : no_directive word (l :: ls) →
  (∀ w1 w2 ws, split_ws l = w1 :: w2 :: ws → (w1 =s word) = false) ∧ no_directive word ls.
Proof.
  intros Hw. split.
  - intros w1 w2 ws Hl. apply String.eqb_neq. eapply Hw; [by left|done].
  - intros l' w1 w2 ws Hl. eapply Hw. by right.
Qed.
Lemma guard_scan_no_ifndef ls : ∀ k g, ifndef g = None → no_directive "#ifndef" ls → ifndef (guard_scan k ls g) = None.
Proof.
  induction ls as [|l ls IH]; intros k g Hi; [done|]. intros [Hw Hls]%no_directive_cons. cbn [guard_scan]. apply IH; [|done].
  unfold guard_line. destruct (split_ws l) as [|w1 [|w2 ws]]; [by destruct (startswith _ _)..|].
  rewrite (Hw _ _ _ eq_refl), andb_false_r. by repeat case_match.
Qed.
Lemma guard_scan_no_define ls : ∀ k g, define g = None → no_directive "#define" ls → define (guard_scan k ls g) = None.
Proof.
  induction ls as [|l ls IH]; intros k g Hi; [done|]. intros [Hw Hls]%no_directive_cons. cbn [guard_scan]. apply IH; [|done].
  unfold guard_line. destruct (split_ws l) as [|w1 [|w2 ws]]; [by destruct (startswith _ _)..|].
  rewrite (Hw _ _ _ eq_refl), andb_false_r. by repeat case_match.
Qed.

(** A file without a guard is reported once, at the top. *)
Theorem header_guard_missing `{Files} fuel err filename n ls s :
  RepositoryName fuel (without_flymake filename) = Ok n →
  no_directive "#ifndef" ls ∨ no_directive "#define" ls →
  CheckForHeaderGuard fuel err filename ls s =
    err filename 0%Z "build/header_guard" 5%Z ("No #ifndef header guard found, suggested CPP variable is: " +:+ guard_name n) s.
Proof.
  intros Hn Hl. unfold CheckForHeaderGuard. rewrite st_bind. unfold lift, GetHeaderGuardCPPVariable. rewrite Hn.
  cbn [fmap res_fmap].
  set (g := guard_scan 0 ls _).
  assert (Hg : ifndef g = None ∨ define g = None).
  { destruct Hl; [left; by apply guard_scan_no_ifndef|right; by apply guard_scan_no_define]. }
  destruct Hg as [->| ->]; [done|]. by destruct (ifndef g) as [[a b]|].
Qed.

(** ** Modules *)

Lemma endswith_app u s : endswith u (s +:+ u) = true.
Proof. apply endswith_iff. by exists s. Qed.
Lemma strip_suffix_app u s : strip_suffix u (s +:+ u) = s.
Proof.
  unfold strip_suffix. rewrite endswith_app, str_length_app.
  replace (String.length s + String.length u - String.length u) with (String.length s) by lia. apply str_take_app.
Qed.
Lemma strip_suffix_none u s : endswith u s = false → strip_suffix u s = s.
Proof. unfold strip_suffix. by intros ->. Qed.
Lemma endswith_test_not_unittest s : endswith "_unittest" (s +:+ "_test") = false.
Proof.
  apply not_true_is_false. rewrite endswith_iff. intros [t Ht].
  assert (Hl : String.length s + 5 = String.length t + 9).
  { pose proof (f_equal String.length Ht) as Hl. rewrite !str_length_app in Hl. exact Hl. }
  assert (Hg : str_get (String.length t + 4) (s +:+ "_test") = str_get (String.length t + 4) (t +:+ "_unittest")) by (by rewrite Ht).
  unfold str_get in Hg. rewrite <- !str_drop_drop in Hg.
  replace (str_drop (String.length t) (s +:+ "_test")) with (str_drop (String.length t) s +:+ "_test") in Hg.
  - rewrite str_drop_app in Hg. remember (str_drop (String.length t) s) as u eqn:Eu.
    assert (Hu : String.length u = 4) by (subst u; rewrite str_drop_length; lia).
    do 4 (destruct u as [|? u]; [done|]). by destruct u.
  - assert (String.length t ≤ String.length s) as Hts by lia. clear -Hts. revert s Hts.
    induction t as [|a t IH]; intros s Hs; [done|]. destruct s as [|b s]; [cbn in Hs; lia|]. cbn in Hs |- *. apply IH. lia.
Qed.

(** A source, its tests, its header and the inline header of the same name belong
    together, and what is before the header's name in the path of the source is what
    must be put before it to find the header. *)
Theorem FilesBelongToSameModule_correct p stem test inl :
  without_folders (p +:+ stem) = p +:+ stem → without_folders stem = stem → stem ≠ "" →
  endswith "_unittest" (p +:+ stem) = false → endswith "_test" (p +:+ stem) = false → endswith "-inl" stem = false →
  test ∈ [""; "_test"; "_unittest"] → inl ∈ [""; "-inl"] →
  FilesBelongToSameModule (p +:+ stem +:+ test +:+ ".cc") (stem +:+ inl +:+ ".h") = (true, p).
Proof.
  intros Hp Hs Hne H1 H2 H3 Ht Hi. unfold FilesBelongToSameModule.
  assert (Ec : p +:+ stem +:+ test +:+ ".cc" = ((p +:+ stem) +:+ test) +:+ ".cc") by (by rewrite !str_app_assoc).
  assert (Eh : stem +:+ inl +:+ ".h" = (stem +:+ inl) +:+ ".h") by (by rewrite !str_app_assoc).
  rewrite Ec, Eh, !endswith_app, !strip_suffix_app. cbn [negb].
  assert (Hc : (if endswith "_unittest" ((p +:+ stem) +:+ test) then strip_suffix "_unittest" ((p +:+ stem) +:+ test)
                else strip_suffix "_test" ((p +:+ stem) +:+ test)) = p +:+ stem).
  { rewrite !elem_of_cons, elem_of_nil in Ht. destruct Ht as [->|[->|[->|[]]]].
    - rewrite str_app_nil_r, H1. by apply strip_suffix_none.
    - rewrite endswith_test_not_unittest. apply strip_suffix_app.
    - rewrite endswith_app. apply strip_suffix_app. }
  assert (Hh : strip_suffix "-inl" (stem +:+ inl) = stem).
  { rewrite !elem_of_cons, elem_of_nil in Hi. destruct Hi as [->|[->|[]]]; [|apply strip_suffix_app].
    rewrite str_app_nil_r. by apply strip_suffix_none. }
  rewrite Hc, Hh, Hp, Hs, endswith_app, (proj2 (String.eqb_neq _ _) Hne), str_length_app.
  replace (String.length p + String.length stem - String.length stem) with (String.length p) by lia.
  by rewrite str_take_app.
Qed.
Lemma FilesBelongToSameModule_correct_witness :
  FilesBelongToSameModule "/src/base/sysinfo_unittest.cc" "base/sysinfo-inl.h" = (true, "/src/").
Proof.
  apply (FilesBelongToSameModule_correct "/src/" "base/sysinfo" "_unittest" "-inl"); try reflexivity; [discriminate|..];
    rewrite !elem_of_cons; auto.
Defined.

(** The header that a line includes. *)
Definition include_of (l : string) : option string :=
  (λ m, default "" (group 2 m)) <$> re_search _RE_PATTERN_INCLUDE (CleanseComments l).
Lemma add_header_lookup f im nl k :
  (∀ v, im !! k = Some v → add_header f im nl !! k = Some v) ∧
  (is_Some (add_header f im nl !! k) ↔ is_Some (im !! k) ∨ include_of nl.2 = Some k).
Proof.
  unfold add_header, include_of. destruct (re_search _ _) as [m|]; cbn [fmap option_fmap option_map].
  - set (i := default "" (group 2 m)). destruct (im !! i) as [w|] eqn:E.
    + split; [done|]. split; [auto|]. intros [?|[= <-]]; [done|by rewrite E].
    + split.
      * intros v Hv. rewrite lookup_insert_ne; [done|congruence].
      * destruct (decide (i = k)) as [<-|Hk].
        -- rewrite lookup_insert_eq. split; [auto|by eexists].
        -- rewrite lookup_insert_ne by done. split; [auto|]. intros [?|[= ?]]; done.
  - split; [done|]. split; [auto|]. by intros [?|?].
Qed.

(** After the header of the file has been read, the includes are those known before,
    with their places, and those of the header. *)
Theorem UpdateIncludeState_correct `{Files} filename im ls :
  read_lines filename = Some ls →
  ∃ im', UpdateIncludeState filename im = (true, im') ∧
    (∀ k v, im !! k = Some v → im' !! k = Some v) ∧
    ∀ k, is_Some (im' !! k) ↔ is_Some (im !! k) ∨ ∃ l, l ∈ ls ∧ include_of l = Some k.
Proof.
  intros Hr. unfold UpdateIncludeState. rewrite Hr. eexists; split; [done|].
  assert (Hsnd : snd <$> imap (λ i l, (S i, l)) ls = ls) by (rewrite fmap_imap; apply list_eq; intros i; rewrite list_lookup_imap; by destruct (ls !! i)).
  assert (Hgen : ∀ nls im, (∀ k v, im !! k = Some v → fold_left (add_header filename) nls im !! k = Some v) ∧
    ∀ k, is_Some (fold_left (add_header filename) nls im !! k) ↔ is_Some (im !! k) ∨ ∃ l, l ∈ (snd <$> nls) ∧ include_of l = Some k).
  { clear. induction nls as [|nl nls IH]; intros im; cbn [fold_left fmap list_fmap].
    - split; [done|]. intros k. split; [auto|]. intros [?|(l & []%elem_of_nil & _)]. done.
    - destruct (IH (add_header filename im nl)) as [H1 H2]. split.
      + intros k v Hv. apply H1. by apply add_header_lookup.
      + intros k. rewrite H2, (proj2 (add_header_lookup filename im nl k)). setoid_rewrite elem_of_cons.
        split; [intros [[?|?]|(l & ? & ?)]; eauto|]. intros [?|(l & [->|?] & ?)]; eauto. }
  destruct (Hgen (imap (λ i l, (S i, l)) ls) im) as [H1 H2]. rewrite Hsnd in H2. done.
Qed.

(** ** Witnesses *)

(** A checkout in /w, with one header. *)
#[local] Instance demo_tree : Files := {
  path_exists p := bool_decide (p ∈ ["/w/.git"; "/w/src/a-b.h"]); abspath p := "/w/" +:+ p;
  read_lines p := if p =s "b.h" then Some ["#include <map>" +:+ nl_str] else None }.
Lemma demo_checkout : nearest_checkout "/w/src" "/w".
Proof. exists 1. split_and!; [reflexivity|reflexivity|]. intros [|j] Hj; [|lia]. split; [reflexivity|discriminate]. Qed.
Lemma RepositoryName_below_witness : RepositoryName 20 "src/a-b.h" = Ok "src/a-b.h".
Proof.
  apply (RepositoryName_below 20 "src/a-b.h" "/w" "src/a-b.h"); [reflexivity|reflexivity|exact demo_checkout|reflexivity|].
  apply (bool_decide_unpack _). reflexivity.
Defined.
Lemma demo_no_svn : no_svn_at_root.
Proof.
  intros p Hp. apply bool_decide_eq_false. intros Hin. rewrite !elem_of_cons, elem_of_nil in Hin.
  destruct Hp as [->|Hs]; [by destruct Hin as [|[|[]]]|].
  unfold path_join in Hin. change (startswith "/" ".svn") with false in Hin. cbv iota in Hin.
  assert (He : endswith ".svn" (if (p =s "") || endswith "/" p then p +:+ ".svn" else p +:+ "/" +:+ ".svn") = true).
  { destruct (_ || _); [apply endswith_app|]. change (p +:+ "/" +:+ ".svn") with (p +:+ ("/" +:+ ".svn")).
    rewrite <- str_app_assoc. apply endswith_app. }
  destruct Hin as [Hq|[Hq|[]]]; by rewrite Hq in He.
Qed.
Lemma RepositoryName_total_witness : ∃ n, RepositoryName 20 "src/a-b.h" = Ok n.
Proof.
  destruct (RepositoryName_total "src/a-b.h" 20 demo_no_svn) as (n & Hn & _); [apply (bool_decide_unpack _); reflexivity|].
  by exists n.
Defined.
Lemma header_guard_accepted_witness :
  CheckForHeaderGuard 20 Error "src/a-b.h"
    ["// Copyright"; "#ifndef SRC_A_B_H_"; "#define SRC_A_B_H_"; "int f();"; "#endif  // SRC_A_B_H_"; ""] _CppLintState =
    (Ok tt, _CppLintState).
Proof.
  apply (header_guard_accepted 20 Error "src/a-b.h" "src/a-b.h" ["// Copyright"] [] ["int f();"] [""] _CppLintState).
  - reflexivity.
  - apply Forall_singleton. split; [reflexivity|]. by intros w1 w2 ws [= <- _ _].
  - apply Forall_nil_2.
  - apply Forall_singleton. split; [reflexivity|]. by intros w1 w2 ws [=].
Defined.
Lemma header_guard_missing_witness :
  ∃ m, CheckForHeaderGuard 20 Error "src/a-b.h" ["int f();"] _CppLintState = Error "src/a-b.h" 0 "build/header_guard" 5 m _CppLintState.
Proof.
  eexists. apply (header_guard_missing 20 Error "src/a-b.h" "src/a-b.h" ["int f();"] _CppLintState); [reflexivity|].
  left. intros l w1 w2 ws ->%list_elem_of_singleton. by intros [= <- _ _].
Defined.
Lemma UpdateIncludeState_correct_witness : ∃ im', UpdateIncludeState "b.h" ∅ = (true, im') ∧ is_Some (im' !! "map").
Proof.
  destruct (UpdateIncludeState_correct "b.h" ∅ ["#include <map>" +:+ nl_str]) as (im' & H1 & _ & H2); [reflexivity|].
  exists im'. split; [exact H1|]. apply H2. right. eexists. split; [by left|]. vm_compute. reflexivity.
Defined.
#[local] Instance root_tree : Files := {
  path_exists p := bool_decide (p ∈ ["/.svn"; "/a.h"]); abspath p := "/" +:+ p; read_lines _ := None }.
Lemma svn_at_root_hangs_witness : RepositoryName 1000 "a.h" = Err OutOfFuel.
Proof. apply (svn_at_root_hangs 1000 "a.h"); reflexivity. Defined.

(** When the root of the file system is a checkout, the first character of the name is
    lost. *)
#[local] Instance root_checkout : Files := {
  path_exists p := bool_decide (p ∈ ["/.git"; "/a.h"]); abspath p := "/" +:+ p; read_lines _ := None }.
Example root_checkout_cuts : RepositoryName 20 "a.h" = Ok ".h".
Proof. reflexivity. Qed.
