(* ===== verification/CppChecks.v ===== *)
(** * Checks of lines (tools/cpplint.py)

    Checks that look at a line and at what is around it: comments and strings of
    several lines, calls that are not safe with threads, the length of functions,
    TODO comments, CHECK macros, braces, classes. *)
From S2P Require Import Prelude PyStr PyState CppRe CppState CppLines.

Definition SP : rx := Star Space.
Definition Words : rx := Plus Word.

Section Checks.
(** The [error] argument of the checks. *)
Context (error : string → Z → string → Z → string → ST Lint unit).
Definition when (b : bool) (m : ST Lint unit) : ST Lint unit := if b then m else mret tt.
(** [l[i]] *)
Definition at_line (l : list string) (i : nat) : ST Lint string :=
  match l !! i with Some x => mret x | None => throw IndexError end.

(** ** The whole file *)

(** [re.search('Copyright', line, re.I)]. *)
Definition has_copyright (line : string) : bool := bool_decide (is_Some (find "copyright" (lower line))).
Definition CheckForCopyright (filename : string) (ls : list string) : ST Lint unit :=
  when (negb (existsb has_copyright (take (Nat.min (length ls) 11 - 1) (drop 1 ls))))
    (error filename 0 "legal/copyright" 5
      ("No copyright message found.  You should have a line: " +:+ dquote_str +:+ "Copyright [year] <Copyright Owner>" +:+ dquote_str)).

Definition CheckForNewlineAtEOF (filename : string) (ls : list string) : ST Lint unit :=
  when ((length ls <? 3)%nat || negb (default "" (ls !! (length ls - 2)) =s ""))
    (error filename (Z.of_nat (length ls) - 2) "whitespace/ending_newline" 5
      "Could not find a newline character at the end of the file.").

(** ** Single lines *)

Definition CheckForMultilineCommentsAndStrings (filename : string) (c : CleansedLines) (linenum : nat) : ST Lint unit :=
  line ← at_line (elided c) linenum;
  let line := replace two_backslashes "" line in
  when (count "*/" line <? count "/*" line)%nat
    (error filename (Z.of_nat linenum) "readability/multiline_comment" 5
      "Complex multi-line /*...*/-style comment found. Lint may give bogus warnings.  Consider replacing these with //-style comments, with #if 0...#endif, or with more clearly structured multi-line comments.");;
  when (Z.odd (Z.of_nat (count dquote_str line) - Z.of_nat (count (String backslash dquote_str) line)))
    (error filename (Z.of_nat linenum) "readability/multiline_string" 5
      ("Multi-line string (" +:+ dquote_str +:+ "..." +:+ dquote_str +:+
       ") found.  This lint script doesn't do well with such strings, and may give bogus warnings.  They're ugly and unnecessary, and you should use concatenation instead" +:+
       dquote_str +:+ ".")).

Definition threading_list : list (string * string) :=
  [ ("asctime(", "asctime_r("); ("ctime(", "ctime_r("); ("getgrgid(", "getgrgid_r("); ("getgrnam(", "getgrnam_r(");
    ("getlogin(", "getlogin_r("); ("getpwnam(", "getpwnam_r("); ("getpwuid(", "getpwuid_r("); ("gmtime(", "gmtime_r(");
    ("localtime(", "localtime_r("); ("rand(", "rand_r("); ("readdir(", "readdir_r("); ("strtok(", "strtok_r(");
    ("ttyname(", "ttyname_r(") ].
Definition is_alnum (a : ascii) : bool := is_alpha a || is_digit a.
(** Only the first occurrence of the name is looked at. *)
Definition unsafe_call (line name : string) : bool :=
  match find name line with
  | None => false
  | Some 0 => true
  | Some (S k) => match str_get k line with Some a => negb (is_alnum a) && negb (one_of "_.>" a) | None => false end
  end.
Definition CheckPosixThreading (filename : string) (c : CleansedLines) (linenum : nat) : ST Lint unit :=
  line ← at_line (elided c) linenum;
  for_each (λ nm, when (unsafe_call line nm.1)
    (error filename (Z.of_nat linenum) "runtime/threadsafe_fn" 2
      ("Consider using " +:+ nm.2 +:+ "...) instead of " +:+ nm.1 +:+ "...) for improved thread safety."))) threading_list.

Definition _RE_PATTERN_INVALID_INCREMENT : rx :=
  Cats [Bol; SP; Chr "*"; Words; Alt (Lit "++") (Lit "--"); Chr ";"].
Definition CheckInvalidIncrement (filename : string) (c : CleansedLines) (linenum : nat) : ST Lint unit :=
  line ← at_line (elided c) linenum;
  when (found (re_match _RE_PATTERN_INVALID_INCREMENT line))
    (error filename (Z.of_nat linenum) "runtime/invalid_increment" 5
      "Changing pointer instead of value (or unused value of operator*).").

(** ** The length of functions *)

(** The name and what is before its parenthesis, on the line that starts a function. *)
Definition declaration : rx :=
  Cats [Grp 1 (Cats [Word; Star (Alts [Word; Lit "::"; Chr "*"; Chr "&"; Space])]); Chr "("].
Definition macro_name : rx := Cats [Plus (Cls (λ a, is_upper a || (a =c "_"))); Eol].
(** [split()[-1]] of text that is not blank. *)
Definition last_word (s : string) : string := List.last (split_ws s) "".
Definition starting_func (line : string) : bool :=
  match re_match declaration line with
  | None => false
  | Some m =>
      let function_name := last_word (default "" (group 1 m)) in
      (function_name =s "TEST") || (function_name =s "TEST_F") || negb (found (re_match macro_name function_name))
  end.
Definition function_of (line joined_line : string) : string :=
  let function := default "" (m ← re_search (Cats [Grp 1 (Star (Alt Word (Chr ":"))); Chr "("]) line; group 1 m) in
  if startswith "TEST" function then
    match re_search (Grp 1 (Cats [Chr "("; Anything; Chr ")"])) joined_line with
    | Some m => function +:+ default "" (group 1 m)
    | None => function
    end
  else function +:+ "()".
(** From the line on: the function that begins, if one does; [None] if the file ends
    before. *)
Fixpoint find_body (line : string) (rest : list string) (joined_line : string) (f : _FunctionState) : option _FunctionState :=
  match rest with
  | [] => None
  | start_line :: rest' =>
      let joined_line := joined_line +:+ " " +:+ lstrip start_line in
      if str_mem ";" start_line || str_mem "}" start_line then Some f
      else if str_mem "{" start_line then Some (Begin f (function_of line joined_line))
      else find_body line rest' joined_line f
  end.
Definition function_end (line : string) : bool := found (re_match (Cats [Bol; Chr "}"; SP; Eol]) line).
Definition blank (line : string) : bool := found (re_match (Cats [Bol; SP; Eol]) line).
Definition CheckForFunctionLengths (filename : string) (c : CleansedLines) (linenum : nat) (f : _FunctionState)
    : ST Lint _FunctionState :=
  line ← at_line (lines c) linenum;
  if starting_func line then
    match find_body line (drop linenum (lines c)) "" f with
    | Some f' => mret f'
    | None =>
        error filename (Z.of_nat linenum) "readability/fn_size" 5 "Lint failed to find start of function body.";;
        mret f
    end
  else if function_end line then Check error f filename (Z.of_nat linenum);; mret (End f)
  else if negb (blank line) then mret (Count f) else mret f.

(** ** Comments *)

Definition _RE_PATTERN_TODO : rx :=
  Cats [Bol; Lit "//"; Grp 1 SP; Lit "TODO"; Opt (Grp 2 (Cats [Chr "("; Dot; Star (None_of ")"); Chr ")"]));
        Opt (Chr ":"); Opt (Grp 3 (Alt Space Eol))].
Definition CheckComment (comment filename : string) (linenum : Z) : ST Lint unit :=
  match re_match _RE_PATTERN_TODO comment with
  | None => mret tt
  | Some m =>
      when (1 <? String.length (default "" (group 1 m)))%nat
        (error filename linenum "whitespace/todo" 2 "Too many spaces before TODO");;
      when (default "" (group 2 m) =s "")
        (error filename linenum "readability/todo" 2
          ("Missing username in TODO; it should look like " +:+ dquote_str +:+ "// TODO(my_username): Stuff." +:+ dquote_str));;
      when (negb (bool_decide (group 3 m = Some " ")) && negb (bool_decide (group 3 m = Some "")))
        (error filename linenum "whitespace/todo" 2 "TODO(my_username) should be followed by a space")
  end.

(** ** Around a line *)

Definition IsBlankLine (line : string) : bool := str_forall is_space line.
(** The last line before, -1 if all are blank. *)
Fixpoint GetPreviousNonBlankLine (ls : list string) (linenum : nat) : string * Z :=
  match linenum with
  | 0 => ("", (-1)%Z)
  | S n =>
      match ls !! n with
      | Some prevline => if negb (IsBlankLine prevline) then (prevline, Z.of_nat n) else GetPreviousNonBlankLine ls n
      | None => GetPreviousNonBlankLine ls n
      end
  end.

(** ** CHECK macros *)

Definition _CHECK_MACROS : list string :=
  ["DCHECK"; "CHECK"; "EXPECT_TRUE_M"; "EXPECT_TRUE"; "ASSERT_TRUE_M"; "ASSERT_TRUE"; "EXPECT_FALSE_M"; "EXPECT_FALSE";
   "ASSERT_FALSE_M"; "ASSERT_FALSE"].
Definition op_replacement : list (string * string) :=
  [("==", "EQ"); ("!=", "NE"); (">=", "GE"); (">", "GT"); ("<=", "LE"); ("<", "LT")].
Definition op_inv_replacement : list (string * string) :=
  [("==", "NE"); ("!=", "EQ"); (">=", "LT"); (">", "LE"); ("<=", "GT"); ("<", "GE")].
(** One pass of the loops that fill the table, for an operator. *)
Definition add_replacement (t : gmap (string * string) string) (r : string * string) : gmap (string * string) string :=
  let '(op, n) := r in
  <[("ASSERT_TRUE_M", op) := "ASSERT_" +:+ n +:+ "_M"]> (<[("EXPECT_TRUE_M", op) := "EXPECT_" +:+ n +:+ "_M"]>
  (<[("ASSERT_TRUE", op) := "ASSERT_" +:+ n]> (<[("EXPECT_TRUE", op) := "EXPECT_" +:+ n]>
  (<[("CHECK", op) := "CHECK_" +:+ n]> (<[("DCHECK", op) := "DCHECK_" +:+ n]> t))))).
Definition add_inv_replacement (t : gmap (string * string) string) (r : string * string) : gmap (string * string) string :=
  let '(op, n) := r in
  <[("ASSERT_FALSE_M", op) := "ASSERT_" +:+ n +:+ "_M"]> (<[("EXPECT_FALSE_M", op) := "EXPECT_" +:+ n +:+ "_M"]>
  (<[("ASSERT_FALSE", op) := "ASSERT_" +:+ n]> (<[("EXPECT_FALSE", op) := "EXPECT_" +:+ n]> t))).
Definition _CHECK_REPLACEMENT : gmap (string * string) string :=
  fold_left add_inv_replacement op_inv_replacement (fold_left add_replacement op_replacement ∅).

Definition match_constant : rx :=
  Alts [ Cats [Opt (Any "-+"); Alt (Plus Digit) (Cats [Chr "0"; Any "xX"; Plus (Cls hex_digit)]); Opt (Any "lLuU"); Opt (Any "lLuU"); Opt (Any "lLuU")];
         Cats [Chr dquote; Anything; Chr dquote]; Cats [Chr "'"; Anything; Chr "'"] ].
Definition match_this (operator macro : string) : rx :=
  Cats [SP; Lit macro; Chr "(";
        Alt (Cats [SP; match_constant; SP; Lit operator; None_of "<>"; Anything])
            (Cats [Anything; None_of "<>"; Lit operator; SP; match_constant; SP; Chr ")"])].
Definition ReplaceableCheck (operator macro line : string) : bool :=
  found (re_match (match_this operator macro) line) && negb (found (re_search (Alts [Lit "NULL"; Lit "&&"; Lit "||"]) line)).
Definition CheckCheck (filename : string) (c : CleansedLines) (linenum : nat) : ST Lint unit :=
  raw ← at_line (raw_lines c) linenum;
  match List.find (λ macro, bool_decide (is_Some (find macro raw))) _CHECK_MACROS with
  | None => mret tt
  | Some current_macro =>
      line ← at_line (elided c) linenum;
      match List.find (λ operator, ReplaceableCheck operator current_macro line) ["=="; "!="; ">="; ">"; "<="; "<"] with
      | None => mret tt
      | Some operator =>
          match _CHECK_REPLACEMENT !! (current_macro, operator) with
          | None => throw KeyError
          | Some r =>
              error filename (Z.of_nat linenum) "readability/check" 2
                ("Consider using " +:+ r +:+ " instead of " +:+ current_macro +:+ "(a " +:+ operator +:+ " b)")
          end
      end
  end.

(** ** Braces *)

Definition ends_in_block : rx := Cats [Any ";:}{"; SP; Eol].
(** [while True]: a line that is the end of a block goes with the ones before. *)
Definition block_end : rx := Cats [Plus Space; Chr "{"; Anything; Chr "}"; SP; Chr ";"].
Fixpoint join_block (fuel : nat) (ls : list string) (prevlinenum : nat) (line : string) : res string :=
  match fuel with
  | 0 => Err OutOfFuel
  | S n =>
      let '(prevline, k) := GetPreviousNonBlankLine ls prevlinenum in
      if found (re_match block_end line) && (count ";" prevline =? 0)%nat
      then join_block n ls (Z.to_nat k) (prevline +:+ line) else Ok line
  end.
(** [s.find(c, pos)] after a [find] that found nothing starts at the last character. *)
Definition paren_pos (line : string) : option nat :=
  match find "else if" line with
  | Some p => find_from "(" line p
  | None => find_from "(" line (String.length line - 1)
  end.
Definition CheckBraces_else (filename : string) (c : CleansedLines) (linenum : nat) (line : string) : ST Lint unit :=
  let report := error filename (Z.of_nat linenum) "readability/braces" 5
    "If an else has a brace on one side, it should have it on both" in
  when (found (re_search (Cats [Chr "}"; SP; Lit "else"; Star (None_of "{"); Eol]) line) ||
        found (re_match (Cats [Star (None_of "}"); Lit "else"; SP; Chr "{"]) line))
    (if found (re_search (Cats [Chr "}"; SP; Lit "else if"; Star (None_of "{"); Eol]) line) then
       match paren_pos line with
       | Some (S p) =>
           '(endline, _, endpos) ← lift (CloseExpression c linenum (S p));
           when (negb (bool_decide (is_Some (find "{" (str_drop (Z.to_nat endpos) endline))))) report
       | _ => mret tt
       end
     else report).
Definition CheckBraces (fuel : nat) (filename : string) (c : CleansedLines) (linenum : nat) : ST Lint unit :=
  line ← at_line (elided c) linenum;
  let prevline := (GetPreviousNonBlankLine (elided c) linenum).1 in
  when (found (re_match (Cats [SP; Chr "{"; SP; Eol]) line) && negb (found (re_search ends_in_block prevline)))
    (error filename (Z.of_nat linenum) "whitespace/braces" 4 "{ should almost always be at the end of the previous line");;
  when (found (re_match (Cats [SP; Lit "else"; SP]) line) && found (re_match (Cats [SP; Chr "}"; SP; Eol]) prevline))
    (error filename (Z.of_nat linenum) "whitespace/newline" 4 "An else should appear on the same line as the preceding }");;
  CheckBraces_else filename c linenum line;;
  when (found (re_search (Cats [WordB; Lit "else "; Cls (λ a, negb (is_space a) && negb (a =c "{"))]) line) &&
        negb (found (re_search (Cats [WordB; Lit "else if"; WordB]) line)))
    (error filename (Z.of_nat linenum) "whitespace/newline" 4
      "Else clause should never be on same line as else (use 2 lines)");;
  when (found (re_match (Cats [SP; Lit "do "; Cls (λ a, negb (is_space a) && negb (a =c "{"))]) line))
    (error filename (Z.of_nat linenum) "whitespace/newline" 4 "do/while clauses should not be on a single line");;
  line ← lift (join_block fuel (elided c) linenum line);
  when (found (re_search (Cats [Chr "{"; Anything; Chr "}"; SP; Chr ";"]) line) && (count "{" line =? count "}" line)%nat &&
        negb (found (re_search (Alts [Lit "struct"; Lit "class"; Lit "enum"; Cats [SP; Chr "="; SP; Chr "{"]]) line)))
    (error filename (Z.of_nat linenum) "readability/braces" 4 "You don't need a ; after a }").
End Checks.

(** ** The line before *)

(** The line that is found is the last one before that is not blank; -1 stands for
    none. *)
Theorem GetPreviousNonBlankLine_correct ls linenum prevline k :
  linenum ≤ length ls → GetPreviousNonBlankLine ls linenum = (prevline, k) →
  (∀ j l, (k < Z.of_nat j)%Z → j < linenum → ls !! j = Some l → IsBlankLine l = true) ∧
  (k = (-1)%Z ∧ prevline = "" ∨
   (0 ≤ k < Z.of_nat linenum)%Z ∧ ls !! Z.to_nat k = Some prevline ∧ IsBlankLine prevline = false).
Proof.
  intros Hn. induction linenum as [|n IH]; cbn [GetPreviousNonBlankLine].
  - intros [= <- <-]. split; [lia|by left].
  - destruct (ls !! n) as [l|] eqn:El; [|apply lookup_ge_None in El; lia].
    destruct (IsBlankLine l) eqn:Eb; cbn [negb].
    + intros Hk. destruct (IH ltac:(lia) Hk) as [H1 H2]. split.
      * intros j l' Hj Hjn Hl'. destruct (decide (j = n)) as [->|]; [congruence|]. apply (H1 j); [done|lia|done].
      * destruct H2 as [?|(? & ? & ?)]; [by left|right]. split; [lia|done].
    + intros [= <- <-]. split; [intros j l' Hj Hjn; lia|]. right. rewrite Nat2Z.id. split; [lia|done].
Qed.
Lemma GetPreviousNonBlankLine_correct_witness :
  GetPreviousNonBlankLine ["if (a) {"; "  "; ""; "}"] 3 = ("if (a) {", 0%Z) ∧ IsBlankLine "  " = true.
Proof.
  split; [reflexivity|].
  apply (GetPreviousNonBlankLine_correct ["if (a) {"; "  "; ""; "}"] 3 "if (a) {" 0) with (j := 1);
    [apply (bool_decide_unpack _); reflexivity|reflexivity|lia|lia|reflexivity].
Defined.

(** ** CHECK macros *)

(** What the operators and the endings of the macros mean, on numbers. *)
Definition compare_op (op : string) (a b : Z) : bool :=
  if op =s "==" then (a =? b)%Z else if op =s "!=" then negb (a =? b)%Z else if op =s ">=" then (b <=? a)%Z
  else if op =s ">" then (b <? a)%Z else if op =s "<=" then (a <=? b)%Z else (a <? b)%Z.
Definition op_of_name (n : string) : string :=
  default "" (fst <$> List.find (λ r, r.2 =s n) op_replacement).
(** The parts of the name of a macro: the stem of the replacement, whether the macro
    expects a falsehood, and what follows the name of the operator. *)
Definition macro_parts (m : string) : string * bool * string :=
  let '(m, suffix) := if endswith "_M" m then (str_take (String.length m - 2) m, "_M") else (m, "") in
  if endswith "_FALSE" m then (str_take (String.length m - 6) m, true, suffix)
  else if endswith "_TRUE" m then (str_take (String.length m - 5) m, false, suffix) else (m, false, suffix).

Definition op_name (inv : bool) (op : string) : string :=
  default "" (snd <$> List.find (λ r, r.1 =s op) (if inv then op_inv_replacement else op_replacement)).
Lemma replacement_table :
  forallb (λ m, forallb (λ op, bool_decide (_CHECK_REPLACEMENT !! (m, op) =
    Some ((macro_parts m).1.1 +:+ "_" +:+ op_name (macro_parts m).1.2 op +:+ (macro_parts m).2)))
    (fst <$> op_replacement)) _CHECK_MACROS = true.
Proof. vm_compute. reflexivity. Qed.
Lemma op_name_meaning inv op a b : op ∈ (fst <$> op_replacement) →
  compare_op (op_of_name (op_name inv op)) a b = xorb inv (compare_op op a b).
Proof.
  intros Hop. cbn in Hop. rewrite !elem_of_cons, elem_of_nil in Hop.
  destruct Hop as [->|[->|[->|[->|[->|[->|[]]]]]]], inv; cbv [op_name op_of_name]; cbn -[compare_op];
    cbv [compare_op]; cbn -[Z.eqb Z.leb Z.ltb negb]; try done; try (by destruct (a =? b)%Z);
    destruct (Z.leb_spec a b), (Z.ltb_spec b a), (Z.leb_spec b a), (Z.ltb_spec a b); first [done | exfalso; lia].
Qed.

(** For every macro and every operator there is a replacement, and it checks the same:
    the comparison, or its contrary for the macros that expect a falsehood. *)
Theorem CHECK_REPLACEMENT_equivalent macro op a b :
  macro ∈ _CHECK_MACROS → op ∈ (fst <$> op_replacement) →
  ∃ n, _CHECK_REPLACEMENT !! (macro, op) = Some ((macro_parts macro).1.1 +:+ "_" +:+ n +:+ (macro_parts macro).2) ∧
    compare_op (op_of_name n) a b = xorb (macro_parts macro).1.2 (compare_op op a b).
Proof.
  intros Hm Hop. exists (op_name (macro_parts macro).1.2 op). split; [|by apply op_name_meaning].
  pose proof replacement_table as Ht. rewrite forallb_forall in Ht.
  specialize (Ht macro (proj1 (list_elem_of_In _ _) Hm)). rewrite forallb_forall in Ht.
  specialize (Ht op (proj1 (list_elem_of_In _ _) Hop)). by apply bool_decide_eq_true in Ht.
Qed.
Lemma CHECK_REPLACEMENT_equivalent_witness : ∃ n, _CHECK_REPLACEMENT !! ("EXPECT_FALSE_M", "<=") = Some ("EXPECT_" +:+ n +:+ "_M").
Proof.
  destruct (CHECK_REPLACEMENT_equivalent "EXPECT_FALSE_M" "<=" 0 0) as (n & Hn & _).
  - apply (bool_decide_unpack _). reflexivity.
  - apply (bool_decide_unpack _). reflexivity.
  - exists n. exact Hn.
Defined.

(** ** Blocks *)

Definition starts_outside (line : string) : bool := match line with String a _ => negb (is_space a) | EmptyString => false end.
Lemma block_end_outside line : starts_outside line = true → found (re_match block_end line) = false.
Proof.
  destruct line as [|a s]; [done|]. cbn [starts_outside]. intros Ha%negb_true_iff. unfold found.
  apply bool_decide_eq_false. unfold re_match, match_at, block_end, start_of, Plus, Space.
  cbn [Cats runs after]. rewrite Ha. by intros [? [=]].
Qed.
Lemma starts_outside_app p line : starts_outside p = true → starts_outside (p +:+ line) = true.
Proof. by destruct p. Qed.
Lemma outside_not_blank l : starts_outside l = true → IsBlankLine l = false.
Proof. destruct l as [|a l]; [done|]. cbn. intros Ha%negb_true_iff. by rewrite Ha. Qed.

Lemma previous_range ls n j l : ls !! j = Some l → j < n → IsBlankLine l = false →
  ∃ k p, GetPreviousNonBlankLine ls n = (p, Z.of_nat k) ∧ j ≤ k < n ∧ ls !! k = Some p.
Proof.
  intros Hl Hj Hb. induction n as [|n IH]; [lia|]. cbn [GetPreviousNonBlankLine].
  destruct (ls !! n) as [l'|] eqn:El.
  - destruct (IsBlankLine l') eqn:Eb; cbn [negb].
    + destruct (decide (j = n)) as [->|]; [congruence|]. destruct (IH ltac:(lia)) as (k & p & -> & ? & ?). exists k, p. split; [done|]. split; [lia|done].
    + exists n, l'. split; [done|]. split; [lia|done].
  - destruct (decide (j = n)) as [->|]; [congruence|]. destruct (IH ltac:(lia)) as (k & p & -> & ? & ?). exists k, p. split; [done|]. split; [lia|done].
Qed.

(** The lines of a block are put together in a number of rounds that is at most the
    number of lines before it, when one of these starts in the first column. *)
Theorem join_block_ends ls fuel : ∀ n line j l,
  ls !! j = Some l → j < n → starts_outside l = true → n < fuel → is_ok (join_block fuel ls n line) = true.
Proof.
  assert (Hout : ∀ fuel n line, starts_outside line = true → 0 < fuel → is_ok (join_block fuel ls n line) = true).
  { intros f n line Hl Hf. destruct f as [|f]; [lia|]. cbn [join_block]. destruct (GetPreviousNonBlankLine ls n) as [p k].
    by rewrite block_end_outside. }
  induction fuel as [|fuel IH]; intros n line j l Hl Hj Ho Hf; [lia|]. cbn [join_block].
  destruct (previous_range ls n j l Hl Hj (outside_not_blank l Ho)) as (k & p & -> & Hk & Hp).
  destruct (_ && _); [|done]. rewrite Nat2Z.id. destruct (decide (k = j)) as [->|].
  - apply Hout; [|lia]. apply starts_outside_app. congruence.
  - apply (IH k _ j l); [done|lia|done|lia].
Qed.
Lemma join_block_ends_witness : is_ok (join_block 9 ["int a[] = {"; "  {}"; "  };"] 2 "  };") = true.
Proof. apply (join_block_ends ["int a[] = {"; "  {}"; "  };"] 9 2 "  };" 0 "int a[] = {"); [reflexivity|lia|reflexivity|lia]. Defined.

(** When only blank lines are before an indented block that ends in a semicolon, the
    check of braces never ends. *)
Theorem first_block_hangs fuel ls n line :
  (∀ j l, j < n → ls !! j = Some l → IsBlankLine l = true) → found (re_match block_end line) = true →
  join_block fuel ls n line = Err OutOfFuel.
Proof.
  intros Hb Hm. revert n Hb. induction fuel as [|fuel IH]; intros n Hb; [done|]. cbn [join_block].
  assert (Hp : GetPreviousNonBlankLine ls n = ("", (-1)%Z)).
  { clear IH. induction n as [|n IHn]; [done|]. cbn [GetPreviousNonBlankLine].
    destruct (ls !! n) as [l|] eqn:El; [rewrite (Hb n l) by (lia || done); cbn [negb]|]; apply IHn; intros j l' Hj; apply Hb; lia. }
  rewrite Hp, Hm. cbn [andb count count_go Nat.eqb]. rewrite str_app_nil_l. apply IH. intros j l Hj. lia.
Qed.
Lemma first_block_hangs_witness : join_block 500 ["// marker"] 0 "  {};" = Err OutOfFuel.
Proof. apply (first_block_hangs 500 ["// marker"] 0 "  {};"); [lia|reflexivity]. Defined.

(** ** The length of functions *)

Section Lengths.
Context (error : string → Z → string → Z → string → ST Lint unit).
Context (filename : string).

(** The check of [n] lines, from [linenum] on. *)
Fixpoint check_lengths (c : CleansedLines) (n linenum : nat) (f : _FunctionState) : ST Lint _FunctionState :=
  match n with
  | 0 => mret f
  | S n' => f ← CheckForFunctionLengths error filename c linenum f; check_lengths c n' (S linenum) f
  end.

Definition inside (line : string) : Prop := starting_func line = false ∧ function_end line = false.
Definition count_nonblank (ls : list string) : Z := Z.of_nat (length (List.filter (λ l, negb (blank l)) ls)).

Lemma lengths_body c body : ∀ pre rest k name s n,
  lines c = pre ++ body ++ rest → Forall inside body →
  check_lengths c (length body + n) (length pre) (mkFunction true k name) s =
  check_lengths c n (length pre + length body) (mkFunction true (k + count_nonblank body) name) s.
Proof using.
  induction body as [|l body IH]; intros pre rest k name s n Hl Hin.
  - cbn [length Nat.add]. rewrite Nat.add_0_r. unfold count_nonblank. cbn. by rewrite Z.add_0_r.
  - apply Forall_cons in Hin as [[Hs He] Hin]. cbn [length Nat.add check_lengths].
    assert (Hlk : lines c !! length pre = Some l) by (rewrite Hl; by apply list_lookup_middle).
    rewrite st_bind. unfold CheckForFunctionLengths, at_line. rewrite Hlk, st_bind. cbn [mret ST_ret]. rewrite Hs, He.
    specialize (IH (pre ++ [l]) rest). rewrite length_app in IH. cbn [length] in IH.
    replace (S (length pre)) with (length pre + 1) by lia. replace (length pre + S (length body)) with (length pre + 1 + length body) by lia.
    unfold count_nonblank. cbn [List.filter]. destruct (blank l); cbn [negb mret ST_ret].
    + rewrite (IH k name s n); [done|by rewrite Hl, <- app_assoc|done].
    + cbn [Count in_a_function lines_in_function current_function length]. rewrite (IH (k + 1)%Z name s n); [|by rewrite Hl, <- app_assoc|done].
      unfold count_nonblank. by rewrite <- Z.add_assoc, Nat2Z.inj_succ, <- Z.add_1_l.
Qed.

(** When a function has been gone through, from the line with its name and opening
    brace to its closing brace, its length has been checked once: the number of its
    lines that are not blank. *)
Theorem function_lengths_counted c pre head body last rest f s :
  lines c = pre ++ head :: body ++ last :: rest →
  starting_func head = true → str_mem "{" head = true → str_mem ";" head = false → str_mem "}" head = false →
  Forall inside body → starting_func last = false → function_end last = true →
  let g := mkFunction true (count_nonblank body) (function_of head (" " +:+ lstrip head)) in
  check_lengths c (S (length body + 1)) (length pre) f s =
    (Check error g filename (Z.of_nat (length pre + 1 + length body));; mret (End g)) s.
Proof using.
  intros Hl Hs Hb H1 H2 Hin Hls Hle g. cbn [check_lengths].
  assert (Hlk : lines c !! length pre = Some head) by (rewrite Hl; by apply list_lookup_middle).
  rewrite st_bind. unfold CheckForFunctionLengths at 1, at_line. rewrite Hlk, st_bind. cbn [mret ST_ret]. rewrite Hs.
  rewrite Hl, drop_app_length. cbn [find_body]. rewrite H1, H2, Hb. cbn [orb mret ST_ret]. rewrite str_app_nil_l.
  pose proof (lengths_body c body (pre ++ [head]) (last :: rest) 0 (function_of head (" " +:+ lstrip head)) s 1) as Hbody.
  rewrite length_app in Hbody. cbn [length] in Hbody. replace (S (length pre)) with (length pre + 1) by lia.
  unfold Begin. rewrite Hbody; [|by rewrite Hl, <- app_assoc|done]. rewrite Z.add_0_l. fold g. cbn [check_lengths].
  assert (Hlast : lines c !! (length pre + 1 + length body) = Some last).
  { rewrite Hl, (cons_middle head), app_assoc, app_assoc. apply list_lookup_middle. rewrite !length_app. cbn. lia. }
  rewrite st_bind. unfold CheckForFunctionLengths, at_line. rewrite Hlast, st_bind. cbn [mret ST_ret]. rewrite Hls, Hle.
  rewrite !st_bind. by destruct (Check error g filename _ s) as [[[]|e] s'].
Qed.
End Lengths.
Lemma function_lengths_counted_witness :
  let c := new_CleansedLines ["int main() {"; "  int a = 0;"; ""; "  return a;"; "}"] in
  ∃ s', check_lengths Error "a.cc" c 5 0 new_FunctionState _CppLintState =
    (Check Error (mkFunction true 2 "main()") "a.cc" 4;; mret (mkFunction false 2 "main()")) s'.
Proof.
  intros c. exists _CppLintState.
  apply (function_lengths_counted Error "a.cc" c [] "int main() {" ["  int a = 0;"; ""; "  return a;"] "}" [] new_FunctionState _CppLintState);
    try (vm_compute; reflexivity).
  repeat (apply Forall_cons; split; [split; vm_compute; reflexivity|]). apply Forall_nil_2.
Defined.
