(* ===== verification/CppClass.v ===== *)
(** * Classes and constructs that are not standard (tools/cpplint.py)

    [CheckForNonStandardConstructs]: expressions that are looked for on every line, and
    the stack of the classes that are open, with what has been seen of each. *)
From S2P Require Import Prelude PyStr PyState CppRe CppState CppLines CppChecks.

(** ** Classes *)

Record _ClassInfo := mkClass {
  name : string;
  class_linenum : Z;
  seen_open_brace : bool;
  is_derived : bool;
  virtual_method_linenumber : option Z;
  has_virtual_destructor : bool;
  brace_depth : Z }.
Definition new_ClassInfo (name : string) (linenum : Z) : _ClassInfo := mkClass name linenum false false None false 0.
(** The top of the stack comes first. *)
Definition _ClassState : Type := list _ClassInfo.
Definition new_ClassState : _ClassState := [].

Definition class_decl : rx :=
  Cats [SP; Opt (Cats [Lit "template"; SP; Chr "<"; Star (Cls (λ a, word_char a || is_space a || one_of "<>,:" a)); Chr ">"; SP]);
        Alt (Lit "class") (Lit "struct"); Plus Space; Grp 3 (Cats [Words; Star (Cats [Lit "::"; Words])])].
(** A colon that is not one of two. *)
Definition bare_colon : rx := Cats [Alt Bol (None_of ":"); Chr ":"; Alt Eol (None_of ":")].
(** [name.split('::')[-1]] *)
Definition base_classname (n : string) : string := List.last (re_split (Lit "::") n) "".
(** [Match] starts at the start of the line, where nothing can be behind. *)
Definition constructor (base : string) : rx :=
  Cats [NotBehind (Lit "explicit"); Plus Space; Lit base; SP; Chr "("; Grp 1 (Plus (None_of ",()")); Chr ")"].
Definition const_reference (base : string) : rx :=
  Cats [Opt (Cats [Lit "const"; Plus Space]); Lit base; SP; Chr "&"].
Definition implicit_constructor (base line : string) : bool :=
  match re_match (constructor base) line with
  | None => false
  | Some m =>
      let args := default "" (group 1 m) in
      negb (args =s "void") && negb (found (re_match (const_reference base) (strip args)))
  end.
Definition virtual_line (line : string) : bool := found (re_search (Cats [WordB; Lit "virtual"; WordB]) line).
Definition destructor_line (base line : string) : bool := found (re_search (Cats [Chr "~"; Lit base; SP; Chr "("]) line).

(** Before the opening brace: [None] for a declaration without a body. *)
Definition see_brace (c : _ClassInfo) (line : string) : option _ClassInfo :=
  if seen_open_brace c then Some c
  else if bool_decide (is_Some (find ";" line)) then None
  else Some (mkClass (name c) (class_linenum c) (bool_decide (is_Some (find "{" line)))
    (is_derived c || found (re_search bare_colon line)) (virtual_method_linenumber c) (has_virtual_destructor c) (brace_depth c)).
Definition see_virtual (c : _ClassInfo) (linenum : Z) (line : string) : _ClassInfo :=
  if virtual_line line then
    mkClass (name c) (class_linenum c) (seen_open_brace c) (is_derived c) (Some linenum)
      (has_virtual_destructor c || destructor_line (base_classname (name c)) line) (brace_depth c)
  else c.
Definition with_depth (c : _ClassInfo) (d : Z) : _ClassInfo :=
  mkClass (name c) (class_linenum c) (seen_open_brace c) (is_derived c) (virtual_method_linenumber c) (has_virtual_destructor c) d.

Section Classes.
Context (error : string → Z → string → Z → string → ST Lint unit).

Definition CheckFinished (filename : string) (k : _ClassState) : ST Lint unit :=
  match last k with
  | None => mret tt
  | Some c => error filename (class_linenum c) "build/class" 5 ("Failed to find complete declaration of class " +:+ name c)
  end.

(** What is reported about a class when it ends. *)
Definition check_virtual (filename : string) (c : _ClassInfo) : ST Lint unit :=
  match virtual_method_linenumber c with
  | Some n =>
      when (negb (has_virtual_destructor c) && negb (is_derived c))
        (error filename (class_linenum c) "runtime/virtual" 4
          ("The class " +:+ name c +:+ " probably needs a virtual destructor due to having virtual method(s), one declared at line " +:+
           str_of_Z n +:+ "."))
  | None => mret tt
  end.

(** The second half of the check, from the declaration of a class on. *)
Definition track_classes (filename : string) (linenum : Z) (line : string) (k : _ClassState) : ST Lint _ClassState :=
  let k := match re_match class_decl line with
    | Some m => new_ClassInfo (default "" (group 3 m)) linenum :: k
    | None => k
    end in
  match k with
  | [] => mret []
  | classinfo :: k' =>
      match see_brace classinfo line with
      | None => mret k'
      | Some classinfo =>
          if negb (seen_open_brace classinfo) then mret (classinfo :: k')
          else
            when (implicit_constructor (base_classname (name classinfo)) line)
              (error filename linenum "runtime/explicit" 5 "Single-argument constructors should be marked explicit.");;
            let classinfo := see_virtual classinfo linenum line in
            let depth := (brace_depth classinfo + Z.of_nat (count "{" line) - Z.of_nat (count "}" line))%Z in
            if (depth <=? 0)%Z then check_virtual filename classinfo;; mret k'
            else mret (with_depth classinfo depth :: k')
      end
  end.

(** ** Lines *)

Definition quoted_printf : rx := Cats [Lit "printf"; SP; Chr "("; Anything; Chr dquote; Anything; Chr "%"].
Definition deprecated_q : rx := Cats [quoted_printf; Opt (Any "-+ "); Star Digit; Chr "q"].
Definition numbered_format : rx := Cats [quoted_printf; Plus Digit; Chr "$"].
Definition undefined_escape : rx := Cats [Alt (Chr dquote) (Chr "'"); Anything; Chr backslash; Any "%[({"].
Definition storage_class : rx :=
  Cats [WordB; Alts ((Lit <$> ["const"; "volatile"; "void"; "char"; "short"; "int"; "long"; "float"; "double"; "signed"; "unsigned"; "schar"]) ++
                     ((λ s, Cats [Opt (Chr "u"); Lit s]) <$> ["int8"; "int16"; "int32"; "int64"]));
        Plus Space; Alts (Lit <$> ["auto"; "register"; "static"; "extern"; "typedef"]); WordB].
Definition endif_text : rx := Cats [SP; Chr "#"; SP; Lit "endif"; SP; Plus (Cls (λ a, negb (a =c "/") && negb (is_space a)))].
Definition inner_forward : rx :=
  Cats [SP; Lit "class"; Plus Space; Plus (Cats [Words; SP; Lit "::"; SP]); Words; SP; Chr ";"].
Definition Number : rx := Cats [Opt (Any "+-"); Plus Digit].
Definition Fraction : rx := Opt (Cats [Chr "."; Star Digit]).
Definition max_min : rx :=
  Cats [Alt Words (Cats [Number; Fraction]); SP; Any "<>"; Chr "?"; Opt (Chr "="); SP; Alt Words Number; Fraction].
Definition string_member : rx :=
  Cats [Bol; SP; Lit "const"; SP; Lit "string"; SP; Chr "&"; SP; Words; SP; Chr ";"].

Definition CheckForNonStandardConstructs (filename : string) (c : CleansedLines) (linenum : nat) (k : _ClassState)
    : ST Lint _ClassState :=
  let n := Z.of_nat linenum in
  line ← at_line (lines c) linenum;
  when (found (re_search deprecated_q line))
    (error filename n "runtime/printf_format" 3 "%q in format strings is deprecated.  Use %ll instead.");;
  when (found (re_search numbered_format line))
    (error filename n "runtime/printf_format" 2 "%N$ formats are unconventional.  Try rewriting to avoid them.");;
  when (found (re_search undefined_escape (replace two_backslashes "" line)))
    (error filename n "build/printf_format" 3 "%, [, (, and { are undefined character escapes.  Unescape them.");;
  line ← at_line (elided c) linenum;
  when (found (re_search storage_class line))
    (error filename n "build/storage_class" 5 "Storage class (static, extern, typedef, etc) should be first.");;
  when (found (re_match endif_text line))
    (error filename n "build/endif_comment" 5 "Uncommented text after #endif is non-standard.  Use a comment.");;
  when (found (re_match inner_forward line))
    (error filename n "build/forward_decl" 5 "Inner-style forward declarations are invalid.  Remove this line.");;
  when (found (re_search max_min line))
    (error filename n "build/deprecated" 3 ">? and <? (max and min) operators are non-standard and deprecated.");;
  when (found (re_search string_member line))
    (error filename n "runtime/member_string_references" 2
      "const string& members are dangerous. It is much better to use alternatives, such as pointers or simple constants.");;
  track_classes filename n line k.
End Classes.

(** Examples. *)
Example decl_templ : (m ← re_match class_decl "template <class T> class foo::Bar : public B {"; group 3 m) = Some "foo::Bar".
Proof. vm_compute. reflexivity. Qed.
Example base_name : base_classname "foo::Bar" = "Bar".
Proof. vm_compute. reflexivity. Qed.
Example implicit1 : (implicit_constructor "Foo" "  Foo(int a);", implicit_constructor "Foo" "  explicit Foo(int a);",
  implicit_constructor "Foo" "  Foo(const Foo& a);") = (true, false, false).
Proof. vm_compute. reflexivity. Qed.
Example storage1 : found (re_search storage_class "const static int a;") = true.
Proof. vm_compute. reflexivity. Qed.
Example maxmin1 : (found (re_search max_min "a = b <? c;"), found (re_search max_min "a = b < c;")) = (true, false).
Proof. vm_compute. reflexivity. Qed.

(** ** A class from its declaration to its end *)

Definition depth_of (line : string) : Z := (Z.of_nat (count "{" line) - Z.of_nat (count "}" line))%Z.
Fixpoint nesting (ls : list string) : Z := match ls with [] => 0 | l :: ls' => depth_of l + nesting ls' end.
Definition declares_no_class (line : string) : Prop := re_match class_decl line = None.
Fixpoint last_virtual (n : Z) (ls : list string) : option Z :=
  match ls with
  | [] => None
  | l :: ls' => match last_virtual (n + 1) ls' with Some m => Some m | None => if virtual_line l then Some n else None end
  end.
Definition declares_destructor (base line : string) : bool := virtual_line line && destructor_line base line.

Section Tracking.
Context (error : string → Z → string → Z → string → ST Lint unit) (filename : string).

(** The lines one after the other, from line [n]. *)
Fixpoint track_lines (n : Z) (ls : list string) (k : _ClassState) : ST Lint _ClassState :=
  match ls with
  | [] => mret k
  | l :: ls' => k ← track_classes error filename n l k; track_lines (n + 1) ls' k
  end.
(** What is reported on the lines inside. *)
Definition report_explicit (base : string) (n : Z) (line : string) : ST Lint unit :=
  when (implicit_constructor base line)
    (error filename n "runtime/explicit" 5 "Single-argument constructors should be marked explicit.").
Fixpoint report_lines (base : string) (n : Z) (ls : list string) : ST Lint unit :=
  match ls with [] => mret tt | l :: ls' => report_explicit base n l;; report_lines base (n + 1) ls' end.

(** A class whose brace has been seen, after more lines. *)
Definition after_lines (c : _ClassInfo) (n : Z) (ls : list string) : _ClassInfo :=
  mkClass (name c) (class_linenum c) true (is_derived c)
    (match last_virtual n ls with Some m => Some m | None => virtual_method_linenumber c end)
    (has_virtual_destructor c || existsb (declares_destructor (base_classname (name c))) ls) (brace_depth c + nesting ls).

Lemma nesting_app l1 l2 : nesting (l1 ++ l2) = (nesting l1 + nesting l2)%Z.
Proof. induction l1 as [|l l1 IH]; cbn [app nesting]; [done|]. rewrite IH. lia. Qed.
Lemma last_virtual_app n l1 l2 :
  last_virtual n (l1 ++ l2) = match last_virtual (n + Z.of_nat (length l1)) l2 with Some m => Some m | None => last_virtual n l1 end.
Proof.
  revert n. induction l1 as [|l l1 IH]; intros n; cbn [app last_virtual length].
  - rewrite Z.add_0_r. by destruct (last_virtual n l2).
  - rewrite IH, Nat2Z.inj_succ. replace (n + 1 + Z.of_nat (length l1))%Z with (n + Z.succ (Z.of_nat (length l1)))%Z by lia.
    by destruct (last_virtual _ l2).
Qed.
Lemma after_more c n l1 l2 m : seen_open_brace c = true → (m = n + Z.of_nat (length l1))%Z →
  after_lines (after_lines c n l1) m l2 = after_lines c n (l1 ++ l2).
Proof.
  intros Hc ->. unfold after_lines. cbn. rewrite last_virtual_app, existsb_app, nesting_app, orb_assoc, Z.add_assoc.
  by destruct (last_virtual _ l2).
Qed.

Lemma after_lines_cons c n l ls : seen_open_brace c = true →
  after_lines (with_depth (see_virtual c n l) (brace_depth c + depth_of l)) (n + 1) ls = after_lines c n (l :: ls).
Proof.
  intros Hc. unfold after_lines, see_virtual, declares_destructor. cbn [last_virtual nesting existsb]. destruct c; cbn in Hc; subst.
  destruct (virtual_line l) eqn:E; cbn; rewrite ?E; cbn; f_equal; try lia; destruct (last_virtual (n + 1) ls); try done; by rewrite orb_assoc.
Qed.

(** One line inside a class. *)
Lemma track_line_inside c n l k s : seen_open_brace c = true → declares_no_class l →
  track_classes error filename n l (c :: k) s =
  (report_explicit (base_classname (name c)) n l;;
   let c' := after_lines c n [l] in
   if (brace_depth c' <=? 0)%Z then check_virtual error filename c';; mret k else mret (c' :: k)) s.
Proof.
  intros Hc Hl. unfold track_classes. rewrite Hl. unfold see_brace. rewrite Hc. cbn [negb].
  rewrite Hc. cbn [negb]. unfold report_explicit. rewrite !st_bind. destruct (when _ _ s) as [[[]|e] s1]; [|done].
  cbv zeta. rewrite <- (after_lines_cons c n l []) by done.
  unfold after_lines. cbn [last_virtual existsb nesting brace_depth with_depth name class_linenum is_derived virtual_method_linenumber has_virtual_destructor].
  rewrite !orb_false_r, Z.add_0_r. unfold depth_of. rewrite Z.add_sub_assoc.
  assert (Hs : seen_open_brace (see_virtual c n l) = true) by (unfold see_virtual; destruct (virtual_line l); done).
  assert (Hn : name (see_virtual c n l) = name c) by (unfold see_virtual; destruct (virtual_line l); done).
  assert (Hd : brace_depth (see_virtual c n l) = brace_depth c) by (unfold see_virtual; destruct (virtual_line l); done).
  rewrite Hd. destruct (_ <=? 0)%Z.
  - destruct (see_virtual c n l); done.
  - unfold with_depth. by rewrite Hs.
Qed.

Lemma track_body k s body : ∀ c n rest, seen_open_brace c = true → Forall declares_no_class body →
  (∀ i, i < length body → (0 < brace_depth c + nesting (take (S i) body))%Z) →
  track_lines n (body ++ rest) (c :: k) s =
  (report_lines (base_classname (name c)) n body;; track_lines (n + Z.of_nat (length body)) rest (after_lines c n body :: k)) s.
Proof.
  revert s. induction body as [|l body IH]; intros s c n rest Hc Hb Hd.
  - cbn [app report_lines length]. rewrite st_bind. cbn [mret ST_ret Z.of_nat]. rewrite Z.add_0_r. unfold after_lines. cbn.
    rewrite orb_false_r, Z.add_0_r. destruct c; cbn in Hc; by subst.
  - apply Forall_cons in Hb as [Hl Hb]. cbn [app report_lines track_lines]. rewrite !st_bind, track_line_inside by done.
    rewrite !st_bind. destruct (report_explicit _ n l s) as [[[]|e] s1]; [|done]. cbv zeta.
    assert (H0 : (0 < brace_depth c + depth_of l)%Z). { specialize (Hd 0 ltac:(cbn; lia)). rewrite firstn_cons, firstn_O in Hd. cbn [nesting] in Hd. lia. }
    replace (brace_depth (after_lines c n [l])) with (brace_depth c + depth_of l)%Z by (unfold after_lines; cbn; lia).
    rewrite (proj2 (Z.leb_gt _ _)) by lia. cbn [mret ST_ret].
    rewrite IH; [|done|done|].
    + rewrite st_bind. cbn [length]. rewrite Nat2Z.inj_succ. replace (n + 1 + Z.of_nat (length body))%Z with (n + Z.succ (Z.of_nat (length body)))%Z by lia.
      replace (after_lines (after_lines c n [l]) (n + 1) body) with (after_lines c n (l :: body)); [done|].
      rewrite <- (after_lines_cons c n l body), <- (after_lines_cons c n l []) by done. unfold after_lines. cbn.
      destruct c; cbn in Hc; subst. by rewrite !orb_false_r, !Z.add_0_r.
    + intros i Hi. specialize (Hd (S i) ltac:(cbn; lia)). rewrite firstn_cons in Hd. cbn [nesting] in Hd. unfold after_lines. cbn [brace_depth nesting]. lia.
Qed.

(** The lines from the declaration to the opening brace, which is on the last of them. *)
Definition opens (line : string) : bool := bool_decide (is_Some (find "{" line)).
Definition ends_statement (line : string) : bool := bool_decide (is_Some (find ";" line)).
Definition header_seen (nm : string) (m : Z) (derived : bool) : _ClassInfo := mkClass nm m false derived None false 0.

Lemma track_header_line nm m derived n l k s :
  declares_no_class l → ends_statement l = false → opens l = false →
  track_classes error filename n l (header_seen nm m derived :: k) s =
  (Ok (header_seen nm m (derived || found (re_search bare_colon l)) :: k), s).
Proof.
  intros Hl H1 H2. unfold track_classes. rewrite Hl. unfold see_brace, ends_statement, opens in *. cbn [seen_open_brace header_seen].
  by rewrite H1, H2.
Qed.
Lemma track_header hs : ∀ nm m derived n rest k s,
  Forall (λ l, declares_no_class l ∧ ends_statement l = false ∧ opens l = false) hs →
  track_lines n (hs ++ rest) (header_seen nm m derived :: k) s =
  track_lines (n + Z.of_nat (length hs)) rest
    (header_seen nm m (derived || existsb (λ l, found (re_search bare_colon l)) hs) :: k) s.
Proof.
  induction hs as [|l hs IH]; intros nm m derived n rest k s Hf.
  - cbn. by rewrite orb_false_r, Z.add_0_r.
  - apply Forall_cons in Hf as [(H1 & H2 & H3) Hf]. cbn [app track_lines]. rewrite st_bind, track_header_line by done.
    rewrite IH by done. cbn [length existsb]. rewrite orb_assoc, Nat2Z.inj_succ.
    by replace (n + 1 + Z.of_nat (length hs))%Z with (n + Z.succ (Z.of_nat (length hs)))%Z by lia.
Qed.

(** The line of the brace is one inside the class. *)
Lemma track_brace_line nm m derived n l rest k s :
  declares_no_class l → ends_statement l = false → opens l = true →
  track_lines n (l :: rest) (header_seen nm m derived :: k) s =
  track_lines n (l :: rest) (mkClass nm m true (derived || found (re_search bare_colon l)) None false 0 :: k) s.
Proof.
  intros Hl H1 H2. cbn [track_lines]. rewrite !st_bind. f_equal. unfold track_classes. rewrite Hl.
  unfold see_brace, ends_statement, opens in *. cbn [seen_open_brace header_seen]. by rewrite H1, H2.
Qed.
(** So is the line of the declaration, when the brace is on it. *)
Lemma track_declaration nm n l rest k s mt :
  re_match class_decl l = Some mt → group 3 mt = Some nm → ends_statement l = false →
  track_lines n (l :: rest) k s =
  if opens l then
    (report_explicit (base_classname nm) n l;;
     let c := after_lines (mkClass nm n true (found (re_search bare_colon l)) None false 0) n [l] in
     k' ← (if (brace_depth c <=? 0)%Z then check_virtual error filename c;; mret k else mret (c :: k));
     track_lines (n + 1) rest k') s
  else track_lines (n + 1) rest (header_seen nm n (found (re_search bare_colon l)) :: k) s.
Proof.
  intros Hm Hg H1. cbn [track_lines]. rewrite st_bind.
  assert (Ht : track_classes error filename n l k s =
    if opens l then (report_explicit (base_classname nm) n l;;
     let c := after_lines (mkClass nm n true (found (re_search bare_colon l)) None false 0) n [l] in
     if (brace_depth c <=? 0)%Z then check_virtual error filename c;; mret k else mret (c :: k)) s
    else (Ok (header_seen nm n (found (re_search bare_colon l)) :: k), s)).
  { unfold track_classes. rewrite Hm, Hg. unfold see_brace, ends_statement, opens in *. cbn [seen_open_brace new_ClassInfo default].
    rewrite H1. destruct (bool_decide (is_Some (find "{" l))); [|done].
    cbn [seen_open_brace negb name]. unfold report_explicit. rewrite !st_bind. destruct (when _ _ s) as [[[]|e] s1]; [|done].
    cbv zeta. unfold see_virtual, after_lines. cbn [orb is_derived].
    unfold with_depth, depth_of, declares_destructor.
    destruct (virtual_line l) eqn:Ev; cbn [last_virtual existsb nesting brace_depth]; rewrite Ev, ?Z.add_0_r, ?Z.add_sub_assoc; cbn [andb orb];
      rewrite ?orb_false_r; by destruct (_ <=? 0)%Z. }
  rewrite Ht. destruct (opens l); [|done]. rewrite !st_bind. destruct (report_explicit _ n l s) as [[[]|e] s1]; [|done].
  cbv zeta. by destruct (_ <=? 0)%Z.
Qed.

Lemma after_one_more c n l ls : seen_open_brace c = true →
  after_lines (after_lines c n [l]) (n + 1) ls = after_lines c n (l :: ls).
Proof. intros Hc. by apply (after_more c n [l] ls). Qed.
(** The last line of a class. *)
Lemma track_last c n l k s : seen_open_brace c = true → declares_no_class l → (brace_depth c + depth_of l <= 0)%Z →
  track_lines n [l] (c :: k) s =
  (report_explicit (base_classname (name c)) n l;; check_virtual error filename (after_lines c n [l]);; mret k) s.
Proof.
  intros Hc Hl Hd. cbn [track_lines]. rewrite st_bind, track_line_inside by done. rewrite !st_bind.
  destruct (report_explicit _ n l s) as [[[]|e] s1]; [|done]. cbv zeta.
  rewrite (proj2 (Z.leb_le _ _)); [|unfold after_lines; cbn [brace_depth nesting]; lia].
  rewrite !st_bind. by destruct (check_virtual _ _ _ s1) as [[[]|e] s2].
Qed.
Lemma report_lines_snoc base body l : ∀ n s,
  report_lines base n (body ++ [l]) s = (report_lines base n body;; report_explicit base (n + Z.of_nat (length body)) l) s.
Proof.
  induction body as [|x body IH]; intros n s; cbn [app report_lines length].
  - rewrite Z.add_0_r, !st_bind. cbn [mret ST_ret]. by destruct (report_explicit _ _ l s) as [[[]|?] ?].
  - rewrite !st_bind. destruct (report_explicit _ n x s) as [[[]|?] s1]; [|done].
    rewrite IH, st_bind, Nat2Z.inj_succ. by replace (n + 1 + Z.of_nat (length body))%Z with (n + Z.succ (Z.of_nat (length body)))%Z by lia.
Qed.
(** From the line of the brace on. *)
Lemma track_inside c n b body l k s :
  seen_open_brace c = true → Forall declares_no_class (body ++ [l]) →
  (∀ i, i <= length body → (0 < brace_depth c + nesting (take (S i) (b :: body)))%Z) →
  (brace_depth c + nesting (b :: body ++ [l]) <= 0)%Z →
  track_lines (n + 1) (body ++ [l]) (after_lines c n [b] :: k) s =
  (report_lines (base_classname (name c)) (n + 1) (body ++ [l]);;
   check_virtual error filename (after_lines c n (b :: body ++ [l]));; mret k) s.
Proof.
  intros Hc [Hb [Hl _]%Forall_cons]%Forall_app Hd He. rewrite track_body; [|done|done|].
  - rewrite after_one_more by done.
    rewrite !st_bind, report_lines_snoc, !st_bind. cbn [name after_lines]. destruct (report_lines _ _ body s) as [[[]|e] s1]; [|done].
    rewrite track_last; [|done|done|].
    + rewrite !st_bind. cbn [name after_lines]. destruct (report_explicit _ _ l s1) as [[[]|e] s2]; [|done].
      replace (after_lines (after_lines c n (b :: body)) (n + 1 + Z.of_nat (length body)) [l]) with (after_lines c n (b :: body ++ [l])); [done|].
      symmetry. clear -Hc. apply after_more; [done|]. cbn [length]. lia.
    + cbn [brace_depth after_lines]. revert He. rewrite !app_comm_cons, nesting_app. cbn [nesting]. lia.
  - intros i Hi. specialize (Hd (S i) ltac:(lia)). rewrite firstn_cons in Hd. cbn [nesting] in Hd. cbn [brace_depth after_lines nesting]. lia.
Qed.

(** C39: A class whose lines after the declaration declare no other class, with no statement
    that ends ([;]) up to its opening brace, and whose opening brace and last line are
    different lines, is followed from its declaration to the line where as many braces are
    closed as were opened.  It is then off the stack, single-argument constructors that
    are not explicit have been reported line by line, and the class is reported exactly
    when it has a virtual method, no destructor on a line that says virtual, and no
    colon before its brace.  The header is what comes up to the opening brace. *)
Theorem class_followed mt nm n decl header b body l k s :
  let ls := b :: body ++ [l] in
  let m := (n + Z.of_nat (length header) - 1)%Z in
  let base := base_classname nm in
  header = decl :: tail header → last header = Some b →
  re_match class_decl decl = Some mt → group 3 mt = Some nm →
  Forall declares_no_class (tail header ++ body ++ [l]) →
  Forall (λ x, ends_statement x = false) header →
  Forall (λ x, opens x = false) (removelast header) → opens b = true →
  (∀ i, i <= length body → (0 < nesting (take (S i) ls))%Z) → (nesting ls <= 0)%Z →
  track_lines n (header ++ body ++ [l]) k s =
  (report_lines base m ls;;
   (match last_virtual m ls with
    | Some v =>
        when (negb (existsb (declares_destructor base) ls) && negb (existsb (λ x, found (re_search bare_colon x)) header))
          (error filename n "runtime/virtual" 4
            ("The class " +:+ nm +:+ " probably needs a virtual destructor due to having virtual method(s), one declared at line " +:+
             str_of_Z v +:+ "."))
    | None => mret tt
    end);;
   mret k) s.
Proof using.
  intros ls m base Hh Hlast Hm Hg [Hn1 Hn2]%Forall_app He Ho Hb Hd Hend.
  assert (Hpos : ∀ i, i <= length body → (0 < 0 + nesting (take (S i) (b :: body)))%Z).
  { intros i Hi. specialize (Hd i Hi). unfold ls in Hd. rewrite app_comm_cons, take_app_le in Hd by (cbn [length]; lia). lia. }
  destruct header as [|decl' hs]; [done|]. cbn [tail] in *. injection Hh as ->.
  rewrite <- app_comm_cons. rewrite (track_declaration _ _ _ _ _ _ _ Hm Hg) by by apply Forall_cons in He as [? _].
  destruct hs as [|h hs _] using rev_ind.
  - cbn [last] in Hlast. injection Hlast as ->. rewrite Hb. subst m. cbn [length app existsb] in *.
    replace (n + Z.of_nat 1 - 1)%Z with n by lia. unfold ls. cbn [report_lines]. rewrite !st_bind.
    destruct (report_explicit _ n b s) as [[[]|e] s1]; [|done]. cbv zeta.
    rewrite (proj2 (Z.leb_gt _ _)); [|specialize (Hpos 0 ltac:(lia)); exact Hpos]. rewrite st_bind. cbn [mret ST_ret].
    rewrite track_inside; [|done|done|done|exact Hend]. rewrite !st_bind. cbn [name]. fold base.
    destruct (report_lines base (n + 1) _ s1) as [[[]|e] s2]; [|done].
    rewrite !st_bind. unfold check_virtual. cbn [after_lines virtual_method_linenumber has_virtual_destructor is_derived name class_linenum].
    rewrite orb_false_r. fold base. by destruct (last_virtual n _).
  - rewrite app_comm_cons, last_snoc in Hlast. injection Hlast as ->.
    rewrite app_comm_cons, removelast_last in Ho. apply Forall_cons in Ho as [Hod Hos]. rewrite Hod.
    apply Forall_cons in He as [_ [Hes [Heb _]%Forall_cons]%Forall_app]. apply Forall_app in Hn1 as [Hns [Hnb _]%Forall_cons].
    rewrite <- app_assoc. rewrite track_header; [|apply Forall_forall; intros x Hx; rewrite Forall_forall in Hns, Hes, Hos; auto].
    cbn [app]. rewrite track_brace_line by done.
    assert (Hm' : m = (n + 1 + Z.of_nat (length hs))%Z) by (subst m; cbn [length]; rewrite length_app; cbn; lia).
    rewrite <- Hm'. cbn [track_lines]. rewrite st_bind, track_line_inside by done. unfold ls. cbn [report_lines]. rewrite !st_bind. cbn [name]. fold base.
    destruct (report_explicit base m b s) as [[[]|e] s1]; [|done]. cbv zeta.
    rewrite (proj2 (Z.leb_gt _ _)); [|specialize (Hpos 0 ltac:(lia)); exact Hpos]. cbn [mret ST_ret].
    rewrite track_inside; [|done|done|done|exact Hend]. rewrite !st_bind. cbn [name]. fold base.
    destruct (report_lines base (m + 1) _ s1) as [[[]|e] s2]; [|done].
    rewrite !st_bind. unfold check_virtual. cbn [after_lines virtual_method_linenumber has_virtual_destructor is_derived name class_linenum].
    fold base. cbn [existsb orb]. rewrite (existsb_app _ hs [b]). cbn [existsb]. rewrite !orb_false_r, <- !orb_assoc.
    by destruct (last_virtual m _).
Qed.
End Tracking.

(** A class with a header of two lines, a virtual method and no destructor. *)
Definition node_class : list string * list string * string :=
  (["class Node"; "    {"], ["  virtual void Run() { x(); }"; "  Node(int id);"], "};").
Lemma class_followed_witness :
  ∃ s', track_lines Error "a.h" 7 (node_class.1.1 ++ node_class.1.2 ++ [node_class.2]) [] _CppLintState =
    (Ok [], s') ∧ stderr s' = ["a.h:10:  Single-argument constructors should be marked explicit.  [runtime/explicit] [5]" +:+ nl_str;
      "a.h:7:  The class Node probably needs a virtual destructor due to having virtual method(s), one declared at line 9.  [runtime/virtual] [4]" +:+ nl_str].
Proof.
  destruct (re_match class_decl "class Node") as [mt|] eqn:E; [|vm_compute in E; discriminate].
  rewrite (class_followed Error "a.h" mt "Node" 7 "class Node" (node_class.1.1) "    {" (node_class.1.2) (node_class.2) []).
  - eexists. split; [vm_compute; reflexivity|vm_compute; reflexivity].
  - reflexivity.
  - reflexivity.
  - exact E.
  - vm_compute in E. injection E as <-. vm_compute. reflexivity.
  - repeat (apply Forall_cons; split; [vm_compute; reflexivity|]). apply Forall_nil_2.
  - repeat (apply Forall_cons; split; [vm_compute; reflexivity|]). apply Forall_nil_2.
  - repeat (apply Forall_cons; split; [vm_compute; reflexivity|]). apply Forall_nil_2.
  - reflexivity.
  - intros [|[|[|i]]] Hi; [vm_compute; reflexivity..|cbn in Hi; lia].
  - apply Z.leb_le. vm_compute. reflexivity.
Defined.
