(* ===== verification/CppStyle.v ===== *)
(** * Style of lines (tools/cpplint.py)

    [CheckStyle] with the checks it calls: indentation, length, blank lines around blocks,
    spaces in comments, around operators, in calls and before semicolons. *)
From S2P Require Import Prelude PyStr PyState CppRe CppState CppLines CppFile CppChecks.

Definition contains (sub s : string) : bool := bool_decide (is_Some (find sub s)).
Definition matches (r : rx) (s : string) : bool := found (re_match r s).
Definition occurs (r : rx) (s : string) : bool := found (re_search r s).
Definition NonSpace : rx := Cls (λ a, negb (is_space a)).
(** A character that is neither in the list nor white space. *)
Definition Other (s : string) : rx := Cls (λ a, negb (one_of s a) && negb (is_space a)).
Definition At_word (ws : list string) : rx := Cats [WordB; Grp 1 (Alts (Lit <$> ws))].

Section Style.
Context `{Files} (fuel : nat).
Context (error : string → Z → string → Z → string → ST Lint unit).

(** ** Calls of functions *)

Definition controls : list rx :=
  [ Cats [WordB; Lit "if"; SP; Chr "("; Grp 1 Anything; Chr ")"; SP; Chr "{"];
    Cats [WordB; Lit "for"; SP; Chr "("; Grp 1 Anything; Chr ")"; SP; Chr "{"];
    Cats [WordB; Lit "while"; SP; Chr "("; Grp 1 Anything; Chr ")"; SP; Any "{;"];
    Cats [WordB; Lit "switch"; SP; Chr "("; Grp 1 Anything; Chr ")"; SP; Chr "{"] ].
(** What is inside the parentheses of a control structure, if there is one. *)
Fixpoint inside_control (patterns : list rx) (line : string) : string :=
  match patterns with
  | [] => line
  | p :: ps => match re_search p line with Some m => default "" (group 1 m) | None => inside_control ps line end
  end.
Definition control_word : rx := Cats [At_word ["if"; "for"; "while"; "switch"; "return"; "delete"]; WordB].
Definition function_pointer : rx :=
  Cats [Lit " ("; Plus (None_of ")"); Lit ")("; Star (None_of ")"); Alt (Chr ")") (Cats [Chr ","; Eol])].
Definition array_pointer : rx := Cats [Lit " ("; Plus (None_of ")"); Lit ")["; Plus (None_of "]"); Chr "]"].
Definition CheckSpacingForFunctionCall (filename line : string) (linenum : Z) : ST Lint unit :=
  let fncall := inside_control controls line in
  when (negb (occurs control_word fncall) && negb (occurs function_pointer fncall) && negb (occurs array_pointer fncall))
    ((if occurs (Cats [Word; SP; Chr "("; Space; NotAhead (Cats [SP; Chr backslash; Eol])]) fncall then
        error filename linenum "whitespace/parens" 4 "Extra space after ( in function call"
      else if occurs (Cats [Chr "("; Plus Space; NotAhead (Alt (Cats [SP; Chr backslash]) (Chr "("))]) fncall then
        error filename linenum "whitespace/parens" 2 "Extra space after ("
      else mret tt);;
     when (occurs (Cats [Word; Plus Space; Chr "("]) fncall &&
           negb (occurs (Alt (Cats [Chr "#"; SP; Lit "define"]) (Lit "typedef")) fncall))
       (error filename linenum "whitespace/parens" 4 "Extra space before ( in function call");;
     when (occurs (Cats [None_of ")"; Plus Space; Chr ")"; SP; Other "{"]) fncall)
       (error filename linenum "whitespace/parens" 2 "Extra space before )")).

(** ** Blank lines *)

(** [l[i - 1]]: before the first line is the last one. *)
Definition line_before (l : list string) (i : nat) : ST Lint string :=
  match i with
  | 0 => match last l with Some x => mret x | None => throw IndexError end
  | S k => at_line l k
  end.
(** The last [{] has no [}] after it and no namespace before it. *)
Definition opens_block (prev_line : string) : bool :=
  let prevbrace := rfind_go "{" 0 prev_line (-1) in
  negb (prevbrace =? -1)%Z && negb (contains "}" (str_drop (Z.to_nat prevbrace) prev_line)) &&
  negb (contains "namespace" (str_take (Z.to_nat prevbrace) prev_line)).
Definition six_spaces (l : string) : bool := matches (Cats [Lit "      "; Word]) l.
(** Up from the line before [n] while lines are indented by six spaces. *)
Fixpoint initializer_start (ls : list string) (n : nat) : option string :=
  match n with
  | 0 => None
  | S k => match ls !! k with
           | Some l => if six_spaces l then initializer_start ls k else Some l
           | None => None
           end
  end.
Definition function_header : rx :=
  Cats [Lit "    "; Word; Star (None_of "("); Chr ")"; SP; Opt (Cats [Lit "const"; SP]); Alt (Cats [Chr "{"; SP; Eol]) (Chr ":")].
Definition blank_line_allowed (ls : list string) (linenum : nat) (prev_line : string) : bool :=
  if six_spaces prev_line then
    match initializer_start ls (linenum - 1) with Some l => str_take 5 l =s "    :" | None => false end
  else matches function_header prev_line || matches (Lit "    :") prev_line.
Definition check_blank (filename : string) (c : CleansedLines) (linenum : nat) : ST Lint unit :=
  prev_line ← line_before (elided c) linenum;
  when (opens_block prev_line && negb (blank_line_allowed (elided c) linenum prev_line))
    (error filename (Z.of_nat linenum) "whitespace/blank_line" 2 "Blank line at the start of a code block.  Is this needed?");;
  (if (linenum + 1 <? NumLines c)%nat then
     next_line ← at_line (raw_lines c) (linenum + 1);
     when (negb (next_line =s "") && matches (Cats [SP; Chr "}"]) next_line && negb (contains "namespace" next_line) &&
           negb (contains "} else " next_line))
       (error filename (Z.of_nat linenum) "whitespace/blank_line" 3 "Blank line at the end of a code block.  Is this needed?")
   else mret tt).

(** ** Comments *)

(** The last character, if any, has the property. *)
Fixpoint text_at_end (p : ascii → bool) (s : string) : bool :=
  match s with
  | EmptyString => false
  | String a s' => match s' with EmptyString => p a | _ => text_at_end p s' end
  end.
(** The character at [i], if [i] is a position, is not white space. *)
Definition text_at (line : string) (i : nat) : bool :=
  match str_get i line with Some a => negb (is_space a) | None => false end.
Definition decoration (s : string) : bool :=
  occurs (Cats [Any "=/-"; Any "=/-"; Any "=/-"; Any "=/-"; Star (Any "=/-"); SP; Eol]) s ||
  occurs (Cats [Bol; Chr "/"; Eol]) s || occurs (Cats [Bol; Plus (Chr "/"); Chr " "]) s.
Definition outside_quotes (line : string) : bool :=
  Z.even (Z.of_nat (count dquote_str line) - Z.of_nat (count (String backslash dquote_str) line)).
Definition check_comment_space (filename line : string) (linenum : Z) : ST Lint unit :=
  match find "//" line with
  | None => mret tt
  | Some commentpos =>
      when (outside_quotes (str_take commentpos line))
        (when (negb (matches (Cats [Bol; SP; Lit "{ //"]) line) &&
               ((1 <=? commentpos)%nat && text_at line (commentpos - 1) || (2 <=? commentpos)%nat && text_at line (commentpos - 2)))
           (error filename linenum "whitespace/comments" 2 "At least two spaces is best between code and comments");;
         (match str_get (commentpos + 2) line with
          | Some a =>
              when (negb (a =c " ") && negb (decoration (str_drop (commentpos + 2) line)))
                (error filename linenum "whitespace/comments" 4 "Should have a space between // and comment")
          | None => mret tt
          end);;
         CheckComment error (str_drop commentpos line) filename linenum)
  end.

(** ** Operators and parentheses *)

Definition operator_call : rx :=
  Cats [Lit "operator"; Alts (Lit <$> ["=="; "!="; "<"; "<<"; "<="; ">="; ">>"; ">"]); Chr "("].
Definition comparison : rx := Cats [Other "<>=!"; Grp 1 (Alts (Lit <$> ["=="; "!="; "<="; ">="])); Other "<>=!"].
Definition template_spill : rx := Cats [Chr "<"; Star (None_of "<"); Chr ","; SP; Eol].
Definition less_than : rx := Cats [Other "<>=!"; Grp 1 (Chr "<"); Other "<>=!"; Star (Alt (None_of ">") (Lit "->")); Eol].
Definition find_comparison (line : string) : option (pos * pos) :=
  match re_search comparison line with
  | Some m => Some m
  | None => if negb (occurs template_spill line) then re_search less_than line else None
  end.
Definition stream_operator : rx := Cats [Other "0123456789"; Grp 1 (Alt (Lit "<<") (Lit ">>")); Other "0123456789"].
Definition space_or_semicolon : rx := Cls (λ a, is_space a || (a =c ";")).
Definition unary_operator : rx :=
  Grp 1 (Alts [Cats [Chr "!"; Space]; Cats [Chr "~"; Space]; Cats [Space; Lit "--"; space_or_semicolon];
               Cats [Space; Lit "++"; space_or_semicolon]]).
Definition control_paren : rx := Cats [Chr " "; Grp 1 (Alts (Lit <$> ["if("; "for("; "while("; "switch("]))].
Definition control_head : rx :=
  Cats [At_word ["if"; "for"; "while"; "switch"]; SP; Chr "("; Grp 2 (Star (Chr " ")); Grp 3 Dot; Anything;
        Plus (None_of " "); Grp 4 (Star (Chr " ")); Chr ")"; SP; Chr "{"; SP; Eol].
Definition check_control_head (filename line : string) (linenum : Z) : ST Lint unit :=
  match re_search control_head line with
  | None => mret tt
  | Some m =>
      let g i := default "" (group i m) in
      when (negb (String.length (g 2) =? String.length (g 4))%nat &&
            negb ((g 3 =s ";") && (String.length (g 2) =? 1 + String.length (g 4))%nat ||
                  (g 2 =s "") && occurs (Cats [WordB; Lit "for"; SP; Chr "("; Anything; Lit "; )"]) line))
        (error filename linenum "whitespace/parens" 5 ("Mismatching spaces inside () in " +:+ g 1));;
      when (1 <? String.length (g 2))%nat
        (error filename linenum "whitespace/parens" 5 ("Should have zero or one spaces inside ( and ) in " +:+ g 1))
  end.
(** Report what an expression finds, with its first group. *)
Definition report_group (m : option (pos * pos)) (filename : string) (linenum : Z) (category : string) (confidence : Z)
    (text : string) : ST Lint unit :=
  match m with
  | Some m => error filename linenum category confidence (text +:+ default "" (group 1 m))
  | None => mret tt
  end.
Definition check_semicolon (filename line : string) (linenum : Z) : ST Lint unit :=
  if occurs (Cats [Chr ":"; SP; Chr ";"; SP; Eol]) line then
    error filename linenum "whitespace/semicolon" 5 "Semicolon defining empty statement. Use { } instead."
  else if occurs (Cats [Bol; SP; Chr ";"; SP; Eol]) line then
    error filename linenum "whitespace/semicolon" 5
      "Line contains only semicolon. If this should be an empty statement, use { } instead."
  else if occurs (Cats [Plus Space; Chr ";"; SP; Eol]) line && negb (occurs (Cats [WordB; Lit "for"; WordB]) line) then
    error filename linenum "whitespace/semicolon" 5
      "Extra space before last semicolon. If this should be an empty statement, use { } instead."
  else mret tt.

(** The checks of the line without comments and strings. *)
Definition check_code_spacing (filename line : string) (n : Z) : ST Lint unit :=
  let line := re_sub operator_call ("operator" +:+ String backslash "(") line in
  when (occurs (Cats [Alt Word (Chr "."); Chr "="; Alt Word (Chr ".")]) line &&
        negb (occurs (Cats [At_word ["if"; "while"]; Chr " "]) line))
    (error filename n "whitespace/operators" 4 "Missing spaces around =");;
  report_group (find_comparison line) filename n "whitespace/operators" 3 "Missing spaces around ";;
  report_group (re_search stream_operator line) filename n "whitespace/operators" 3 "Missing spaces around ";;
  report_group (re_search unary_operator line) filename n "whitespace/operators" 4 "Extra space for operator ";;
  report_group (re_search control_paren line) filename n "whitespace/parens" 5 "Missing space before ( in ";;
  check_control_head filename line n;;
  when (occurs (Cats [Chr ","; NonSpace]) line) (error filename n "whitespace/comma" 3 "Missing space after ,");;
  CheckSpacingForFunctionCall filename line n;;
  when (occurs (Cats [None_of " ("; Chr "{"]) line) (error filename n "whitespace/braces" 5 "Missing space before {");;
  when (occurs (Lit "}else") line) (error filename n "whitespace/braces" 5 "Missing space before else");;
  when (occurs (Cats [Word; Plus Space; Chr "["]) line && negb (occurs (Cats [Lit "delete"; Plus Space; Chr "["]) line))
    (error filename n "whitespace/braces" 5 "Extra space before [");;
  check_semicolon filename line n.
Definition CheckSpacing (filename : string) (c : CleansedLines) (linenum : nat) : ST Lint unit :=
  line ← at_line (raw_lines c) linenum;
  (if IsBlankLine line then check_blank filename c linenum else mret tt);;
  check_comment_space filename line (Z.of_nat linenum);;
  line ← at_line (elided c) linenum;
  check_code_spacing filename line (Z.of_nat linenum).

(** ** Indentation and length *)

(** The width of a line of ASCII text. *)
Definition GetLineWidth (line : string) : nat := String.length line.
Fixpoint initial_spaces (line : string) : nat :=
  match line with String a l => if a =c " " then S (initial_spaces l) else 0 | EmptyString => 0 end.
Definition ends_in_space (line : string) : bool := text_at_end is_space line.
Definition label : rx := Cats [SP; Words; SP; Chr ":"; SP; Eol].
Definition check_indent (filename line cleansed_line : string) (n : Z) : ST Lint unit :=
  let spaces := initial_spaces line in
  if ends_in_space line then
    error filename n "whitespace/end_of_line" 4 "Line ends in whitespace.  Consider deleting these extra spaces."
  else if ((spaces =? 1)%nat || (spaces =? 3)%nat) && negb (matches label cleansed_line) then
    error filename n "whitespace/indent" 3 "Weird number of spaces at line-start.  Are you using a 2-space indent?"
  else if (spaces =? 0)%nat && negb (str_take 2 line =s "//") && occurs (Cats [None_of ":"; Chr ":"; SP; Eol]) line then
    error filename n "whitespace/labels" 4
      "Labels should always be indented at least one space.  If this is a member-initializer list in a constructor or the base class list in a class definition, the colon should be on the following line."
  else mret tt.
Definition url_comment : rx :=
  Cats [Bol; SP; Lit "//"; Anything; Lit "http"; Opt (Chr "s"); Lit "://"; Star NonSpace; Eol].
Definition header_guard_line (cppvar line : string) : bool :=
  startswith ("#ifndef " +:+ cppvar) line || startswith ("#define " +:+ cppvar) line ||
  startswith ("#endif  // " +:+ cppvar) line.
Definition check_length (filename line : string) (is_header_guard : bool) (n : Z) : ST Lint unit :=
  when (negb (startswith "#include" line) && negb is_header_guard && negb (matches url_comment line))
    (let line_width := GetLineWidth line in
     if (100 <? line_width)%nat then
       error filename n "whitespace/line_length" 4 "Lines should very rarely be longer than 100 characters"
     else if (80 <? line_width)%nat then
       error filename n "whitespace/line_length" 2 "Lines should be <= 80 characters long"
     else mret tt).
Definition several_commands (ls : list string) (linenum : nat) (cleansed_line : string) : bool :=
  let prev := (GetPreviousNonBlankLine ls linenum).1 in
  (1 <? count ";" cleansed_line)%nat && negb (contains "for" cleansed_line) &&
  (negb (contains "for" prev) || contains ";" prev) &&
  negb ((contains "case " cleansed_line || contains "default:" cleansed_line) && contains "break;" cleansed_line).
Definition CheckStyle (filename : string) (c : CleansedLines) (linenum : nat) (file_extension : string) : ST Lint unit :=
  let n := Z.of_nat linenum in
  line ← at_line (raw_lines c) linenum;
  when (contains (String "009" "") line) (error filename n "whitespace/tab" 1 "Tab found; better to use spaces");;
  cleansed_line ← at_line (elided c) linenum;
  check_indent filename line cleansed_line n;;
  is_header_guard ← (if file_extension =s "h" then
      cppvar ← lift (GetHeaderGuardCPPVariable fuel filename); mret (header_guard_line cppvar line)
    else mret false);
  check_length filename line is_header_guard n;;
  when (several_commands (elided c) linenum cleansed_line)
    (error filename n "whitespace/newline" 4 "More than one command on the same line");;
  CheckBraces error fuel filename c linenum;;
  CheckSpacing filename c linenum;;
  CheckCheck error filename c linenum.
End Style.

(** ** Examples *)

Example paren1 : (m ← re_search control_head "  if ( foo) {"; group 1 m) = Some "if".
Proof. vm_compute. reflexivity. Qed.
Example paren2 : (m ← re_search control_head "  for (int i = 0; i < n; i++ ) {"; Some (group 2 m, group 4 m)) = Some (Some "", Some " ").
Proof. vm_compute. reflexivity. Qed.
Example comparison1 : (m ← find_comparison "if (a<b) {"; group 1 m) = Some "<".
Proof. vm_compute. reflexivity. Qed.
Example operator1 : re_sub operator_call "operator(" "bool operator<<(a)" = "bool operator(a)".
Proof. vm_compute. reflexivity. Qed.

(** ** Lines without punctuation *)

(** The characters that the checks of spacing are about. *)
Definition punctuation (a : ascii) : bool := one_of "=<>!~+-(){}[],;:" a.
Lemma occurs_none r line : requires punctuation r → str_forall (negb ∘ punctuation) line = true → occurs r line = false.
Proof. intros Hr Hl. unfold occurs, re_search. by rewrite (requires_search _ _ _ _ Hr Hl). Qed.
Lemma search_none r line : requires punctuation r → str_forall (negb ∘ punctuation) line = true → re_search r line = None.
Proof. intros Hr Hl. unfold re_search. by apply (requires_search _ _ _ _ Hr). Qed.

Ltac required :=
  cbn [Cats Alts Lit fmap list_fmap Plus Any];
  repeat first
    [ apply requires_Chr; reflexivity | apply requires_Alt | apply requires_Grp
    | apply requires_Cat_l; solve [required] | apply requires_Cat_r ].

(** A line without operators, brackets and the like is never reported for its spaces. *)
Theorem plain_line_accepted error filename line n s :
  str_forall (negb ∘ punctuation) line = true → check_code_spacing error filename line n s = (Ok tt, s).
Proof.
  intros Hl. assert (Ho : ∀ r, requires punctuation r → occurs r line = false) by (intros r Hr; by apply occurs_none).
  assert (Hn : ∀ r, requires punctuation r → re_search r line = None) by (intros r Hr; by apply search_none).
  unfold check_code_spacing. rewrite (requires_sub punctuation operator_call) by (done || (unfold operator_call; required)).
  assert (Hc : find_comparison line = None).
  { unfold find_comparison. rewrite !Hn; [by destruct (negb _)|unfold less_than; required|unfold comparison; required]. }
  assert (Hf : CheckSpacingForFunctionCall error filename line n s = (Ok tt, s)).
  { unfold CheckSpacingForFunctionCall, controls. cbn [inside_control]. rewrite !Hn by required.
    destruct (negb (occurs control_word line) && _ && _); cbn [when]; [|done].
    repeat match goal with |- context [occurs ?r line] => rewrite (Ho r) by required end. reflexivity. }
  assert (Hs : check_semicolon error filename line n s = (Ok tt, s)) by (unfold check_semicolon; by rewrite !Ho by required).
  rewrite Hc. unfold check_control_head. rewrite !Hn by (unfold stream_operator, unary_operator, control_paren, control_head; required).
  repeat match goal with |- context [occurs ?r line] => rewrite (Ho r) by required end. cbn [andb when report_group]. rewrite !st_bind. cbn [mret ST_ret].
  repeat (rewrite st_bind; cbn [mret ST_ret]). rewrite Hf. repeat (rewrite st_bind; cbn [mret ST_ret]). exact Hs.
Qed.
Lemma plain_line_accepted_witness : check_code_spacing Error "a.cc" "  return a.b" 3 _CppLintState = (Ok tt, _CppLintState).
Proof. apply plain_line_accepted. reflexivity. Defined.
