(* ===== verification/CppLanguage.v ===== *)
(** * Rules of the language (tools/cpplint.py)

    [CheckLanguage]: includes, references, casts, global strings, integer types, calls of
    the C library, arrays whose size varies, macros of classes. *)
From S2P Require Import Prelude PyStr PyState CppRe CppState CppLines CppFile CppChecks CppStyle.

(** [s.lstrip(c)] and [s.rstrip(c)] for one character. *)
Fixpoint lstrip_char (c : ascii) (s : string) : string :=
  match s with String a s' => if a =c c then lstrip_char c s' else s | EmptyString => "" end.
Fixpoint rstrip_char (c : ascii) (s : string) : string :=
  match s with
  | EmptyString => ""
  | String a s' => match rstrip_char c s' with
                   | EmptyString => if a =c c then "" else String a ""
                   | t => String a t
                   end
  end.
(** [s.split(c, 1)[0]] *)
Definition upto (c : ascii) (s : string) : string := hd "" (split_on c s).
(** Literal text in any case. *)
Fixpoint LitI (s : string) : rx :=
  match s with EmptyString => Eps | String a s' => Cat (Cls (λ b, char_lower a =c char_lower b)) (LitI s') end.
Definition Amp : rx := Alt (Cats [Opt Space; Chr "&"]) (Cats [Chr "&"; Opt Space]).
Definition TypeName (inner : rx) : rx := Plus (Alt (Cls (λ a, word_char a || (a =c ":"))) (Cats [Chr "<"; inner; Chr ">"])).
Definition Params : rx := Cats [Chr "("; Star (None_of "()"); WordB].
Definition Type1 : rx := TypeName (Star (None_of "()")).

Section Language.
Context `{Files} (fuel : nat).
Context (error : string → Z → string → Z → string → ST Lint unit).

(** ** References *)

Definition any_reference : rx := Cats [Params; Type1; Amp; Words].
Definition const_before : rx :=
  Cats [Params; Lit "const"; Plus Space; Opt (Cats [Lit "typename"; Plus Space]); Opt (Cats [Lit "struct"; Plus Space]); Type1; Amp; Words].
Definition const_after : rx := Cats [Params; Type1; Plus Space; Lit "const"; Amp; Words].
Definition allowed_reference : rx :=
  Cats [Alts [Lit "swap"; Lit "Swap"; Cats [Lit "operator"; Any "<>"; Any "<>"]]; SP; Chr "("; SP; TypeName Anything; SP; Chr "&"].
Definition check_references (filename line : string) (n : Z) : ST Lint unit :=
  let fnline := upto "{" line in
  when ((findall_count const_before fnline + findall_count const_after fnline <? findall_count any_reference fnline)%nat &&
        negb (occurs allowed_reference fnline))
    (error filename n "runtime/references" 2 "Is this a non-const reference? If so, make const or use a pointer.").

(** ** Casts *)

Definition conversion : rx :=
  Cats [Opt (Grp 1 (Cats [WordB; Lit "new"; Plus Space])); WordB;
        Grp 2 (Alts (Lit <$> ["int"; "float"; "double"; "bool"; "char"; "int32"; "uint32"; "int64"; "uint64"])); Chr "("; None_of ")"].
Definition mock_method : rx :=
  Cats [Bol; SP; Lit "MOCK_"; Opt (Lit "CONST_"); Lit "METHOD"; Plus Digit; Opt (Lit "_T"); Chr "("].
Definition check_conversion (filename line : string) (n : Z) : ST Lint unit :=
  match re_search conversion line with
  | None => mret tt
  | Some m =>
      when (bool_decide (group 1 m = None) && negb (matches mock_method line))
        (error filename n "readability/casting" 4
          ("Using deprecated casting style.  Use static_cast<" +:+ default "" (group 2 m) +:+ ">(...) instead"))
  end.
Definition after_cast : rx :=
  Cats [SP; Grp 1 (Alts [Chr ")"; Chr "="; Cats [Opt (Grp 2 (Lit "const")); SP; Grp 3 (Alts [Chr ";"; Chr "{"; Lit "throw()"])]])].
(** Both patterns start with the parenthesis before their first group: the text before
    that is the one before the match. *)
Definition CheckCStyleCast (filename : string) (linenum : Z) (line raw_line cast_type : string) (pattern : rx) : ST Lint unit :=
  match re_search pattern line with
  | None => mret tt
  | Some m =>
      if matches (Cats [Anything; Lit "sizeof"; SP; Eol]) (str_take (String.length line - String.length (after m.1)) line) then
        error filename linenum "runtime/sizeof" 1 "Using sizeof(type).  Use sizeof(varname) instead if possible"
      else
        match re_match after_cast (after m.2) with
        | Some f =>
            when (bool_decide (group 3 f = None) || bool_decide (group 3 f = Some ";") || negb (contains "/*" raw_line))
              (error filename linenum "readability/function" 3 "All parameters should be named in a function")
        | None =>
            error filename linenum "readability/casting" 4
              ("Using C-style cast.  Use " +:+ cast_type +:+ "<" +:+ default "" (group 1 m) +:+ ">(...) instead")
        end
  end.
Definition basic_cast : rx :=
  Cats [Chr "("; Grp 1 (Alts ((Lit <$> ["int"; "float"; "double"; "bool"; "char"]) ++
                              [Cats [Opt (Chr "u"); Lit "int"; Alts (Lit <$> ["16"; "32"; "64"])]])); Chr ")"].
Definition pointer_cast : rx := Cats [Chr "("; Grp 1 (Cats [Words; Opt Space; Plus (Chr "*"); Opt Space]); Chr ")"].
Definition cast_address : rx :=
  Alt (Cats [Lit "&("; Plus (None_of ")"); Chr ")"; Alt Word (Chr "(")])
      (Cats [Chr "&"; Alts (Lit <$> ["static"; "dynamic"; "reinterpret"]); Lit "_cast"; WordB]).

(** ** Strings and members *)

Definition Name_or_colon : rx := Cls (λ a, is_alpha a || is_digit a || one_of "_:" a).
Definition Name_char : rx := Cls (λ a, is_alpha a || is_digit a || (a =c "_")).
Definition global_string : rx :=
  Cats [Grp 1 (Cats [Alt Eps (Cats [Lit "static"; Plus (Chr " ")]); Alt Eps (Cats [Lit "const"; Plus (Chr " ")])]);
        Lit "string"; Plus (Chr " "); Grp 2 (Plus Name_or_colon); WordB; Grp 3 Anything].
Definition string_function : rx :=
  Cats [SP; Opt (Cats [Chr "<"; Anything; Chr ">"]); Opt (Cats [Lit "::"; Plus Name_char]); SP; Chr "("; Alt (None_of dquote_str) Eol].
Definition check_global_string (filename line : string) (n : Z) : ST Lint unit :=
  match re_match global_string line with
  | None => mret tt
  | Some m =>
      when (negb (matches string_function (default "" (group 3 m))))
        (error filename n "runtime/string" 4
          ("For a static/global string constant, use a C style string instead: " +:+ dquote_str +:+ default "" (group 1 m) +:+
           "char " +:+ default "" (group 2 m) +:+ "[]" +:+ dquote_str +:+ "."))
  end.
Definition self_initialization : rx :=
  Cats [WordB; Grp 1 (Cats [Star Name_char; Chr "_"]); Chr "("; Ref 1; Chr ")"].

(** ** Types and functions of C *)

Definition c_integer : rx :=
  Cats [WordB; Grp 1 (Alts [Lit "short"; Cats [Lit "long"; NotAhead (Cats [Plus (Chr " "); Lit "double"])]; Lit "long long"]); WordB].
Definition check_int (filename line : string) (n : Z) : ST Lint unit :=
  if occurs (Cats [WordB; Lit "short port"; WordB]) line then
    when (negb (occurs (Cats [WordB; Lit "unsigned short port"; WordB]) line))
      (error filename n "runtime/int" 4
        ("Use " +:+ dquote_str +:+ "unsigned short" +:+ dquote_str +:+ " for ports, not " +:+ dquote_str +:+ "short" +:+ dquote_str))
  else report_group error (re_search c_integer line) filename n "runtime/int" 4 "Use int16/int64/etc, rather than the C type ".
Definition snprintf_size : rx :=
  Cats [Lit "snprintf"; SP; Chr "("; Grp 1 (Star (None_of ",")); Chr ","; SP; Grp 2 (Star Digit); SP; Chr ","].
Definition check_snprintf (filename line : string) (n : Z) : ST Lint unit :=
  match re_search snprintf_size line with
  | None => mret tt
  | Some m =>
      when (negb (bool_decide (group 2 m = Some "0")))
        (error filename n "runtime/printf" 3
          ("If you can, use sizeof(" +:+ default "" (group 1 m) +:+ ") instead of " +:+ default "" (group 2 m) +:+
           " as the 2nd arg to snprintf."))
  end.
Definition whole_word (w : string) : rx := Cats [WordB; Lit w; WordB].
Definition check_c_functions (filename line : string) (n : Z) : ST Lint unit :=
  when (occurs (whole_word "sprintf") line) (error filename n "runtime/printf" 5 "Never use sprintf.  Use snprintf instead.");;
  report_group error (re_search (Cats [At_word ["strcpy"; "strcat"]; WordB]) line) filename n "runtime/printf" 4
    "Almost always, snprintf is better than ";;
  when (occurs (whole_word "sscanf") line)
    (error filename n "runtime/printf" 1 "sscanf can be ok, but is slow and can overflow buffers.").
Definition format_bug : rx :=
  Cats [WordB; Grp 1 (Cats [Opt (LitI "string"); LitI "printf"]); SP; Chr "(";
        Grp 2 (Plus (Cls (λ a, word_char a || one_of ".->()" a))); Chr ")"].
Definition check_format (filename line : string) (n : Z) : ST Lint unit :=
  match re_search format_bug line with
  | None => mret tt
  | Some m =>
      error filename n "runtime/printf" 4
        ("Potential format string bug. Do " +:+ default "" (group 1 m) +:+ "(" +:+ dquote_str +:+ "%s" +:+ dquote_str +:+ ", " +:+
         default "" (group 2 m) +:+ ") instead.")
  end.
Definition memset_zero : rx :=
  Cats [Lit "memset"; SP; Chr "("; Grp 1 (Star (None_of ",")); Chr ","; SP; Grp 2 (Star (None_of ",")); Chr ","; SP; Chr "0"; SP; Chr ")"].
Definition memset_value : rx :=
  Alts [Cats [Bol; Lit "''"]; Cats [Opt (Chr "-"); Plus Digit]; Cats [Lit "0x"; Cls hex_digit; Eol]].
Definition check_memset (filename line : string) (n : Z) : ST Lint unit :=
  match re_search memset_zero line with
  | None => mret tt
  | Some m =>
      when (negb (matches memset_value (default "" (group 2 m))))
        (error filename n "runtime/memset" 4
          ("Did you mean " +:+ dquote_str +:+ "memset(" +:+ default "" (group 1 m) +:+ ", 0, " +:+ default "" (group 2 m) +:+ ")" +:+
           dquote_str +:+ "?"))
  end.

(** ** Arrays *)

Definition array_declaration : rx :=
  Cats [SP; Opt (Grp 1 (Cats [Dot; Anything; Lit "::"])); Grp 2 Words; Chr " "; Cls is_lower; Star Word; Chr "[";
        Grp 3 (Cats [Dot; Anything]); Lit "];"].
(** The last alternative has a bracket after the two signs. *)
Definition size_separator : rx := Alts [Space; Chr "+"; Chr "-"; Chr "*"; Chr "/"; Lit "<<"; Lit ">>]"].
Definition Qualified (r : rx) : rx := Cats [Opt (Cats [Dot; Anything; Lit "::"]); r].
Definition constant_token : rx :=
  Alts [Plus Digit; Cats [Chr "0"; Any "xX"; Plus (Cls hex_digit)];
        Cats [Chr "k"; Cls (λ a, is_upper a || is_digit a); Star Word];
        Qualified (Cats [Chr "k"; Cls (λ a, is_upper a || is_digit a); Star Word]);
        Qualified (Cats [Cls is_upper; Star (Cls (λ a, is_upper a || is_digit a || (a =c "_")))])].
Definition sizeof_token (tok : string) : bool :=
  occurs (Cats [Lit "sizeof("; Dot; Anything; Chr ")"]) tok || occurs (Cats [Lit "arraysize("; Words; Chr ")"]) tok.
Fixpoint constant_size (tokens : list string) (skip_next : bool) : bool :=
  match tokens with
  | [] => true
  | tok :: rest =>
      if skip_next then constant_size rest false
      else if sizeof_token tok then constant_size rest false
      else
        let tok := rstrip_char ")" (lstrip_char "(" tok) in
        if tok =s "" then constant_size rest false
        else if matches constant_token tok then constant_size rest false
        else if startswith "sizeof" tok then constant_size rest true
        else false
  end.
(** Whether the line declares an array whose size is not constant. *)
Definition variable_array (line : string) : bool :=
  match re_match array_declaration line with
  | None => false
  | Some m =>
      negb (bool_decide (group 2 m = Some "return")) && negb (bool_decide (group 2 m = Some "delete")) &&
      negb (contains "]" (default "" (group 3 m))) && negb (constant_size (re_split size_separator (default "" (group 3 m))) false)
  end.

(** ** Macros and namespaces *)

Definition disallow_macro : rx :=
  Cats [SP; Grp 1 (Cats [Lit "DISALLOW_"; Alts (Lit <$> ["EVIL_CONSTRUCTORS"; "COPY_AND_ASSIGN"; "IMPLICIT_CONSTRUCTORS"])]);
        Chr "("; Anything; Lit ");"; Eol].
Definition check_disallow (filename line : string) (c : CleansedLines) (linenum : nat) : ST Lint unit :=
  match re_match disallow_macro line with
  | None => mret tt
  | Some m =>
      if (linenum + 1 <? NumLines c)%nat then
        next_line ← at_line (elided c) (linenum + 1);
        when (negb (occurs (Cats [Bol; SP; Lit "};"]) next_line))
          (error filename (Z.of_nat linenum) "readability/constructors" 3
            (default "" (group 1 m) +:+ " should be the last thing in the class"))
      else mret tt
  end.

(** What is checked on a line that is neither empty nor an include. *)
Definition check_code (filename : string) (c : CleansedLines) (linenum : nat) (file_extension line : string) : ST Lint unit :=
  let n := Z.of_nat linenum in
  check_references filename line n;;
  check_conversion filename line n;;
  raw_line ← at_line (raw_lines c) linenum;
  CheckCStyleCast filename n line raw_line "static_cast" basic_cast;;
  CheckCStyleCast filename n line raw_line "reinterpret_cast" pointer_cast;;
  when (occurs cast_address line)
    (error filename n "runtime/casting" 4
      "Are you taking an address of a cast?  This is dangerous: could be a temp var.  Take the address before doing the cast, rather than after");;
  check_global_string filename line n;;
  when (occurs (Cats [WordB; Lit "dynamic_cast<"]) line && negb (_IsTestFilename filename))
    (error filename n "runtime/rtti" 5
      "Do not use dynamic_cast<>.  If you need to cast within a class hierarchy, use static_cast<> to upcast.  Google doesn't support RTTI.");;
  when (occurs self_initialization line)
    (error filename n "runtime/init" 4 "You seem to be initializing a member variable with itself.");;
  check_int filename line n;;
  check_snprintf filename line n;;
  check_c_functions filename line n;;
  when (occurs (Cats [WordB; Lit "operator"; SP; Chr "&"; SP; Chr "("; SP; Chr ")"]) line)
    (error filename n "runtime/operator" 4 "Unary operator& is dangerous.  Do not use it.");;
  when (occurs (Cats [Chr "}"; SP; Lit "if"; SP; Chr "("]) line)
    (error filename n "readability/braces" 4
      ("Did you mean " +:+ dquote_str +:+ "else if" +:+ dquote_str +:+ "? If not, start a new line for " +:+ dquote_str +:+ "if" +:+ dquote_str +:+ "."));;
  check_format filename line n;;
  check_memset filename line n;;
  when (occurs (whole_word "using namespace") line)
    (error filename n "build/namespaces" 5 "Do not use namespace using-directives.  Use using-declarations instead.");;
  when (variable_array line)
    (error filename n "runtime/arrays" 1
      "Do not use variable-length arrays.  Use an appropriately named ('k' followed by CamelCase) compile-time constant for the size.");;
  check_disallow filename line c linenum;;
  when ((file_extension =s "h") && occurs (Cats [WordB; Lit "namespace"; SP; Chr "{"]) line && negb (text_at_end (Ascii.eqb backslash) line))
    (error filename n "build/namespaces" 4
      "Do not use unnamed namespaces in header files.  See http://google-styleguide.googlecode.com/svn/trunk/cppguide.xml#Namespaces for more information.").

(** The name in the repository is only asked for when a new header is classified. *)
Definition new_include (c : CleansedLines) (linenum : nat) (i : _IncludeState) : bool :=
  match m ← (line ← lines c !! linenum; re_search _RE_PATTERN_INCLUDE line); group 2 m with
  | Some include => bool_decide (included i !! include = None)
  | None => false
  end.
Definition CheckLanguage (filename : string) (c : CleansedLines) (linenum : nat) (file_extension : string) (i : _IncludeState)
    : ST Lint _IncludeState :=
  line ← at_line (elided c) linenum;
  if line =s "" then mret i
  else if occurs _RE_PATTERN_INCLUDE line then
    repository_name ← (if new_include c linenum i then lift (RepositoryName fuel filename) else mret "");
    CheckIncludeLine error filename repository_name c linenum i
  else check_code filename c linenum file_extension line;; mret i.
End Language.

Example reference1 : (findall_count any_reference "void f(int& a, const string& b)", findall_count const_before "void f(int& a, const string& b)") = (1, 1).
Proof. vm_compute. reflexivity. Qed.
Example array1 : (variable_array "  int a[n];", variable_array "  int a[kSize * sizeof(int)];", variable_array "  char b[sizeof name];") = (true, false, false).
Proof. vm_compute. reflexivity. Qed.
(** A shift to the left is taken apart; one to the right is not, because of the bracket
    in the separator: its size counts as constant when its first operand does. *)
Example shift_right_is_constant : (variable_array "  int a[kSize<<n];", variable_array "  int a[kSize>>n];") = (true, false).
Proof. vm_compute. reflexivity. Qed.
(** The alternative [long long] comes after [long], which is what is reported. *)
Example long_long_reported : (m ← re_search c_integer "  long long a;"; group 1 m) = Some "long".
Proof. vm_compute. reflexivity. Qed.
Example cast1 : (m ← re_search pointer_cast "  a = (char *)b;"; group 1 m) = Some "char *".
Proof. vm_compute. reflexivity. Qed.
Example string1 : (m ← re_match global_string "static const string kName = 1;"; group 1 m) = Some "static const ".
Proof. vm_compute. reflexivity. Qed.
