(* ===== verification/CppMain.v ===== *)
(** * The program (tools/cpplint.py)

    The headers that a file must include, the checks of one line and of a file, the
    command line and the exit status. *)
From S2P Require Import Prelude PyStr PyPath PyState CppRe CppState CppLines CppFile CppChecks CppClass CppStyle CppLanguage.

(** ** Include what you use *)

Definition _HEADERS_CONTAINING_TEMPLATES : list (string * list string) :=
  [ ("<deque>", ["deque"]);
    ("<functional>", ["unary_function"; "binary_function"; "plus"; "minus"; "multiplies"; "divides"; "modulus"; "negate";
      "equal_to"; "not_equal_to"; "greater"; "less"; "greater_equal"; "less_equal"; "logical_and"; "logical_or";
      "logical_not"; "unary_negate"; "not1"; "binary_negate"; "not2"; "bind1st"; "bind2nd"; "pointer_to_unary_function";
      "pointer_to_binary_function"; "ptr_fun"; "mem_fun_t"; "mem_fun"; "mem_fun1_t"; "mem_fun1_ref_t"; "mem_fun_ref_t";
      "const_mem_fun_t"; "const_mem_fun1_t"; "const_mem_fun_ref_t"; "const_mem_fun1_ref_t"; "mem_fun_ref"]);
    ("<limits>", ["numeric_limits"]); ("<list>", ["list"]); ("<map>", ["map"; "multimap"]); ("<memory>", ["allocator"]);
    ("<queue>", ["queue"; "priority_queue"]); ("<set>", ["set"; "multiset"]); ("<stack>", ["stack"]);
    ("<string>", ["char_traits"; "basic_string"]); ("<utility>", ["pair"]); ("<vector>", ["vector"]);
    ("<hash_map>", ["hash_map"; "hash_multimap"]); ("<hash_set>", ["hash_set"; "hash_multiset"]); ("<slist>", ["slist"]) ].
Definition _HEADERS_ACCEPTED_BUT_NOT_PROMOTED (template : string) : option (list string) :=
  if template =s "pair<>" then Some ["map"; "multimap"; "hash_map"; "hash_multimap"] else None.
Definition _RE_PATTERN_STRING : rx := whole_word "string".
(** An expression, what it is a use of, and the header that has it. *)
Definition algorithm_pattern (t : string) : rx * string * string :=
  (Cats [None_of ">."; WordB; Lit t; Opt (Cats [Chr "<"; Anything; Chr ">"]); Chr "("; None_of ")"], t, "<algorithm>").
Definition _re_pattern_algorithm_header : list (rx * string * string) :=
  algorithm_pattern <$> ["copy"; "max"; "min"; "min_element"; "sort"; "swap"; "transform"].
Definition template_pattern (header t : string) : rx * string * string :=
  (Cats [Alt (Chr "<") WordB; Lit t; SP; Chr "<"], t +:+ "<>", header).
Definition _re_pattern_templates : list (rx * string * string) :=
  _HEADERS_CONTAINING_TEMPLATES ≫= λ ht, template_pattern ht.1 <$> ht.2.

(** The headers that are needed, with the line and the name that needs each. *)
Definition needs_map : Type := gmap string (nat * string).
Definition add_pattern (linenum : nat) (line : string) (required : needs_map) (p : rx * string * string) : needs_map :=
  if occurs p.1.1 line then <[p.2 := (linenum, p.1.2)]> required else required.
(** [string] counts when nothing or [std::] is before it, but not in another namespace. *)
Definition uses_string (line : string) : bool :=
  match re_search _RE_PATTERN_STRING line with
  | None => false
  | Some m =>
      let prefix := str_take (String.length line - String.length (after m.1)) line in
      endswith "std::" prefix || negb (endswith "::" prefix)
  end.
Definition add_line (required : needs_map) (nl : nat * string) : needs_map :=
  let '(linenum, line) := nl in
  if (line =s "") || startswith "#" line then required
  else
    let required := if uses_string line then <["<string>" := (linenum, "string")]> required else required in
    let required := fold_left (add_pattern linenum line) _re_pattern_algorithm_header required in
    if negb (str_mem "<" line) then required
    else fold_left (add_pattern linenum line) _re_pattern_templates required.
Definition required_headers (c : CleansedLines) : needs_map :=
  fold_left add_line (imap pair (elided c)) ∅.

(** [s.strip(cs)] *)
Fixpoint lstrip_chars (cs s : string) : string :=
  match s with String a s' => if one_of cs a then lstrip_chars cs s' else s | EmptyString => "" end.
Fixpoint rstrip_chars (cs s : string) : string :=
  match s with
  | EmptyString => ""
  | String a s' => match rstrip_chars cs s' with
                   | EmptyString => if one_of cs a then "" else String a ""
                   | t => String a t
                   end
  end.
Definition strip_chars (cs s : string) : string := lstrip_chars cs (rstrip_chars cs s).

(** ** Options *)

(** [getopt], for programs without short options: [None] for a [GetoptError]. *)
Definition long_has_args (opt : string) (longopts : list string) : option (bool * string) :=
  let possibilities := List.filter (startswith opt) longopts in
  if bool_decide (opt ∈ possibilities) then Some (false, opt)
  else if bool_decide (opt +:+ "=" ∈ possibilities) then Some (true, opt)
  else match possibilities with
       | [m] => if endswith "=" m then Some (true, str_take (String.length m - 1) m) else Some (false, m)
       | _ => None
       end.
Fixpoint getopt (args longopts : list string) : option (list (string * string) * list string) :=
  match args with
  | [] => Some ([], [])
  | a :: rest =>
      if negb (startswith "-" a) || (a =s "-") then Some ([], args)
      else if a =s "--" then Some ([], rest)
      else if negb (startswith "--" a) then None
      else
        let a := str_drop 2 a in
        let '(opt, optarg) := match find "=" a with Some i => (str_take i a, Some (str_drop (S i) a)) | None => (a, None) end in
        '(has_arg, opt) ← long_has_args opt longopts;
        match has_arg, optarg, rest with
        | true, Some v, _ => '(opts, fs) ← getopt rest longopts; Some (("--" +:+ opt, v) :: opts, fs)
        | true, None, v :: rest' => '(opts, fs) ← getopt rest' longopts; Some (("--" +:+ opt, v) :: opts, fs)
        | true, None, [] => None
        | false, Some _, _ => None
        | false, None, _ => '(opts, fs) ← getopt rest longopts; Some (("--" +:+ opt, "") :: opts, fs)
        end
  end.
(** [int(s)] *)
Fixpoint digits_value (acc : Z) (s : string) : option Z :=
  match s with
  | EmptyString => Some acc
  | String a s' => if is_digit a then digits_value (10 * acc + Z.of_nat (nat_of_ascii a - 48)) s' else None
  end.
Definition unsigned_value (s : string) : option Z := if s =s "" then None else digits_value 0 s.
Definition int_of_string (s : string) : res Z :=
  let s := strip s in
  match (if startswith "-" s then Z.opp <$> unsigned_value (str_drop 1 s)
         else unsigned_value (if startswith "+" s then str_drop 1 s else s)) with
  | Some z => Ok z
  | None => Err ValueError
  end.

Definition _USAGE : string :=
  "
Syntax: cpplint.py [--verbose=#] [--output=vs7] [--filter=-x,+y,...]
                   [--counting=total|toplevel|detailed]
        <file> [file] ...

  The style guidelines this tries to follow are those in
    http://google-styleguide.googlecode.com/svn/trunk/cppguide.xml

  Every problem is given a confidence score from 1-5, with 5 meaning we are
  certain of the problem, and 1 meaning it could be a legitimate construct.
  This will miss some errors, and is not a substitute for a code review.

  To suppress false-positive errors of a certain category, add a
  'NOLINT(category)' comment to the line.  NOLINT or NOLINT(*)
  suppresses errors of all categories on that line.

  The files passed in will be linted; at least one file must be provided.
  Linted extensions are .cc, .cpp, and .h.  Other file types will be ignored.

  Flags:

    output=vs7
      By default, the output is formatted to ease emacs parsing.  Visual Studio
      compatible output (vs7) may also be used.  Other formats are unsupported.

    verbose=#
      Specify a number 0-5 to restrict errors to certain verbosity levels.

    filter=-x,+y,...
      Specify a comma-separated list of category-filters to apply: only
      error messages whose category names pass the filters will be printed.
      (Category names are printed with the message and look like
      " +:+ dquote_str +:+
  "[whitespace/indent]" +:+ dquote_str +:+
  ".)  Filters are evaluated left to right.
      " +:+ dquote_str +:+
  "-FOO" +:+ dquote_str +:+
  " and " +:+ dquote_str +:+
  "FOO" +:+ dquote_str +:+
  " means " +:+ dquote_str +:+
  "do not print categories that start with FOO" +:+ dquote_str +:+
  ".
      " +:+ dquote_str +:+
  "+FOO" +:+ dquote_str +:+
  " means " +:+ dquote_str +:+
  "do print categories that start with FOO" +:+ dquote_str +:+
  ".

      Examples: --filter=-whitespace,+whitespace/braces
                --filter=whitespace,runtime/printf,+runtime/printf_format
                --filter=-,+build/include_what_you_use

      To see a list of all the categories used in cpplint, pass no arg:
         --filter=

    counting=total|toplevel|detailed
      The total number of errors found is always printed. If
      'toplevel' is provided, then the count of errors in each of
      the top-level categories like 'build' and 'whitespace' will
      also be printed. If 'detailed' is provided, then a count
      is provided for each category like 'build/class'.
".

(** [sys.exit] with a text writes it and ends with status 1. *)
Definition PrintUsage {A} (message : option string) : ST Lint A :=
  write _USAGE;;
  match message with
  | Some m => write (nl_str +:+ "FATAL ERROR: " +:+ m +:+ nl_str)
  | None => mret tt
  end;;
  throw (SystemExit 1).
Definition PrintCategories {A} : ST Lint A :=
  write (join "" ((λ cat, "  " +:+ cat +:+ nl_str) <$> _ERROR_CATEGORIES));;
  throw (SystemExit 0).

Record options := mkOptions { verbosity : Z; opt_output_format : string; opt_filters : string; counting_style : string }.
Definition parse_option (o : options) (ov : string * string) : ST Lint options :=
  let '(opt, val) := ov in
  if opt =s "--help" then PrintUsage None
  else if opt =s "--output" then
    if bool_decide (val ∈ ["emacs"; "vs7"]) then mret (mkOptions (verbosity o) val (opt_filters o) (counting_style o))
    else PrintUsage (Some "The only allowed output formats are emacs and vs7.")
  else if opt =s "--verbose" then
    level ← lift (int_of_string val); mret (mkOptions level (opt_output_format o) (opt_filters o) (counting_style o))
  else if opt =s "--filter" then
    if val =s "" then PrintCategories
    else mret (mkOptions (verbosity o) (opt_output_format o) val (counting_style o))
  else if opt =s "--counting" then
    if bool_decide (val ∈ ["total"; "toplevel"; "detailed"])
    then mret (mkOptions (verbosity o) (opt_output_format o) (opt_filters o) val)
    else PrintUsage (Some "Valid counting options are total, toplevel, and detailed")
  else mret o.
Fixpoint parse_options (opts : list (string * string)) (o : options) : ST Lint options :=
  match opts with [] => mret o | ov :: opts' => o ← parse_option o ov; parse_options opts' o end.
Definition ParseArguments (args : list string) : ST Lint (list string) :=
  match getopt args ["help"; "output="; "verbose="; "counting="; "filter="] with
  | None => PrintUsage (Some "Invalid arguments.")
  | Some (opts, filenames) =>
      level ← gets verbose_level;
      format ← gets output_format;
      o ← parse_options opts (mkOptions level format "" "");
      match filenames with
      | [] => PrintUsage (Some "No files were specified.")
      | _ =>
          SetOutputFormat (opt_output_format o);;
          SetVerboseLevel (verbosity o);;
          SetFilters (opt_filters o);;
          SetCountingStyle (counting_style o);;
          mret filenames
      end
  end.

Section Program.
Context `{Files} (fuel : nat).

Section Checks.
Context (error : string → Z → string → Z → string → ST Lint unit).

(** The headers that are included, and those that the headers of the file's module
    include; [keys] is the order of the dictionary. *)
Definition add_module (abs_filename : string) (st : bool * gmap string string) (header : string) : bool * gmap string string :=
  let '(same_module, common_path) := FilesBelongToSameModule abs_filename header in
  if same_module then
    let '(ok, im) := UpdateIncludeState (common_path +:+ header) st.2 in (st.1 || ok, im)
  else st.
Definition module_includes (keys : gmap string string → list string) (filename : string) (im : gmap string string)
    : bool * gmap string string :=
  let abs_filename := re_sub (Cats [Lit "_flymake.cc"; Eol]) ".cc" (abspath filename) in
  fold_left (add_module abs_filename) (keys im) (false, im).
Definition accepted_instead (im : gmap string string) (template : string) : bool :=
  match _HEADERS_ACCEPTED_BUT_NOT_PROMOTED template with
  | Some headers => existsb (λ h, bool_decide (is_Some (im !! h))) headers
  | None => false
  end.
Definition missing_header (im : gmap string string) (r : string * (nat * string)) : bool :=
  negb (accepted_instead im r.2.2) && bool_decide (im !! strip_chars ("<>" +:+ dquote_str) r.1 = None).
(** [items] is the order of the dictionary of what is required. *)
Definition CheckForIncludeWhatYouUse (keys : gmap string string → list string) (items : needs_map → list (string * (nat * string)))
    (filename : string) (c : CleansedLines) (i : _IncludeState) : ST Lint unit :=
  let required := required_headers c in
  let '(header_found, im) := module_includes keys filename (included i) in
  if endswith ".cc" filename && negb header_found then mret tt
  else for_each (λ r, when (missing_header im r)
    (error filename (Z.of_nat r.2.1) "build/include_what_you_use" 4 ("Add #include " +:+ r.1 +:+ " for " +:+ r.2.2))) (items required).

(** ** A file *)

(** U+FFFD, as it is written in UTF-8. *)
Definition replacement_character : string := String "239" (String "191" (String "189" "")).
Definition CheckForUnicodeReplacementCharacters (filename : string) (ls : list string) : ST Lint unit :=
  for_each (λ nl, when (contains replacement_character nl.2)
    (error filename (Z.of_nat nl.1) "readability/utf8" 5 "Line contains invalid UTF-8 (or Unicode replacement character)."))
    (imap pair ls).

Record file_state := mkFile { include_state : _IncludeState; function_state : _FunctionState; class_state : _ClassState }.
Definition ProcessLine (filename file_extension : string) (c : CleansedLines) (line : nat) (f : file_state) : ST Lint file_state :=
  raw_line ← at_line (raw_lines c) line;
  ParseNolintSuppressions error filename raw_line (Z.of_nat line);;
  function_state ← CheckForFunctionLengths error filename c line (function_state f);
  CheckForMultilineCommentsAndStrings error filename c line;;
  CheckStyle fuel error filename c line file_extension;;
  include_state ← CheckLanguage fuel error filename c line file_extension (include_state f);
  class_state ← CheckForNonStandardConstructs error filename c line (class_state f);
  CheckPosixThreading error filename c line;;
  CheckInvalidIncrement error filename c line;;
  mret (mkFile include_state function_state class_state).
Fixpoint process_lines (filename file_extension : string) (c : CleansedLines) (ns : list nat) (f : file_state) : ST Lint file_state :=
  match ns with
  | [] => mret f
  | n :: ns' => f ← ProcessLine filename file_extension c n f; process_lines filename file_extension c ns' f
  end.
Definition with_markers (ls : list string) : list string :=
  ["// marker so line numbers and indices both start at 1"] ++ ls ++ ["// marker so line numbers end in a known way"].
Definition ProcessFileData (keys : gmap string string → list string) (items : needs_map → list (string * (nat * string)))
    (filename file_extension : string) (ls : list string) : ST Lint unit :=
  let ls := with_markers ls in
  ResetNolintSuppressions;;
  CheckForCopyright error filename ls;;
  (if file_extension =s "h" then CheckForHeaderGuard fuel error filename ls else mret tt);;
  ls ← RemoveMultiLineComments error filename ls;
  let c := new_CleansedLines ls in
  f ← process_lines filename file_extension c (seq 0 (NumLines c)) (mkFile new_IncludeState new_FunctionState new_ClassState);
  CheckFinished error filename (class_state f);;
  CheckForIncludeWhatYouUse keys items filename c (include_state f);;
  CheckForUnicodeReplacementCharacters filename ls;;
  CheckForNewlineAtEOF error filename ls.
End Checks.

(** ** The program *)

(** What is in a file, or in the standard input for the name "-"; [None] when it cannot be
    opened.  [linesep] is [os.linesep]. *)
Context (read_text : string → option string) (linesep : string).
Context (keys : gmap string string → list string) (items : needs_map → list (string * (nat * string))).
Context (count_items : gmap string nat → list (string * nat)).

Definition crlf : string := String cr nl_str.
Definition strip_cr (l : string) : string := if endswith (String cr "") l then rstrip_char cr l else l.
Definition extension_of (filename : string) : string := str_drop (Z.to_nat (rfind_go "." 0 filename (-1) + 1)) filename.
Definition ProcessFile (filename : string) (vlevel : Z) : ST Lint unit :=
  SetVerboseLevel vlevel;;
  match split_on nl <$> read_text filename with
  | None => write ("Skipping input '" +:+ filename +:+ "': Can't open for reading" +:+ nl_str)
  | Some ls =>
      let carriage_return_found := existsb (endswith (String cr "")) ls in
      let ls := strip_cr <$> ls in
      let file_extension := extension_of filename in
      (if negb (filename =s "-") && negb (file_extension =s "cc") && negb (file_extension =s "h") && negb (file_extension =s "cpp") then
         write ("Ignoring " +:+ filename +:+ "; not a .cc or .h file" +:+ nl_str)
       else
         ProcessFileData Error keys items filename file_extension ls;;
         when (carriage_return_found && negb (linesep =s crlf))
           (Error filename 0 "whitespace/newline" 1
             ("One or more unexpected " +:+ String backslash "r (^M) found;better to use only a " +:+ String backslash "n")));;
      write ("Done processing " +:+ filename +:+ nl_str)
  end.
Definition main (argv : list string) : ST Lint unit :=
  filenames ← ParseArguments argv;
  ResetErrorCounts;;
  for_each (λ filename, level ← gets verbose_level; ProcessFile filename level) filenames;;
  PrintErrorCounts count_items;;
  n ← gets error_count;
  throw (SystemExit (if (0 <? n)%nat then 1 else 0)).
End Program.

(** ** What a file needs *)

(** What one line needs, in the order of the tables. *)
Definition pattern_needs (line : string) (ps : list (rx * string * string)) : list (string * string) :=
  (λ p, (p.2, p.1.2)) <$> List.filter (λ p, occurs p.1.1 line) ps.
Definition line_needs (line : string) : list (string * string) :=
  if (line =s "") || startswith "#" line then []
  else (if uses_string line then [("<string>", "string")] else []) ++ pattern_needs line _re_pattern_algorithm_header ++
       (if str_mem "<" line then pattern_needs line _re_pattern_templates else []).
(** All that the lines need, with the numbers of the lines. *)
Definition all_needs (nls : list (nat * string)) : list (string * (nat * string)) :=
  nls ≫= λ nl, (λ ht, (ht.1, (nl.1, ht.2))) <$> line_needs nl.2.
Definition add_need (m : needs_map) (x : string * (nat * string)) : needs_map := <[x.1 := x.2]> m.

Lemma add_patterns_needs n line ps m :
  fold_left (add_pattern n line) ps m = fold_left add_need ((λ ht, (ht.1, (n, ht.2))) <$> pattern_needs line ps) m.
Proof.
  revert m. induction ps as [|[[r t] h] ps IH]; intros m; [done|]. cbn [fold_left]. unfold add_pattern at 2, pattern_needs. cbn [fst snd List.filter].
  destruct (occurs r line); [|apply IH]. rewrite !fmap_cons. cbn [fold_left]. apply IH.
Qed.
Lemma add_line_needs m nl : add_line m nl = fold_left add_need ((λ ht, (ht.1, (nl.1, ht.2))) <$> line_needs nl.2) m.
Proof.
  destruct nl as [n line]. unfold add_line, line_needs. cbn [fst snd]. destruct (_ || _); [done|].
  rewrite !fmap_app, !fold_left_app. rewrite <- add_patterns_needs.
  assert (Hs : ∀ b : bool, (if b then <["<string>":=(n, "string")]> m else m) =
    fold_left add_need ((λ ht, (ht.1, (n, ht.2))) <$> (if b then [("<string>", "string")] else [])) m) by (by intros []).
  rewrite Hs. destruct (str_mem "<" line); cbn [negb]; [|done]. by rewrite add_patterns_needs.
Qed.
Lemma add_lines_needs nls m : fold_left add_line nls m = fold_left add_need (all_needs nls) m.
Proof.
  revert m. induction nls as [|nl nls IH]; intros m; [done|]. cbn [fold_left]. rewrite IH, add_line_needs. unfold all_needs. cbn [mbind list_bind].
  by rewrite fold_left_app.
Qed.
Lemma lookup_needs l h : ∀ m, fold_left add_need l m !! h =
  match last (List.filter (λ x, x.1 =s h) l) with Some x => Some x.2 | None => m !! h end.
Proof.
  induction l as [|x l IH] using rev_ind; intros m; [done|]. rewrite fold_left_app, List.filter_app. cbn [fold_left List.filter].
  specialize (IH m). set (m' := fold_left add_need l m) in *. unfold add_need. destruct (String.eqb_spec x.1 h) as [<-|Hne].
  - rewrite last_snoc. apply lookup_insert_eq.
  - rewrite app_nil_r. etrans; [by apply lookup_insert_ne|exact IH].
Qed.

(** A header is required exactly when a line that is not a directive uses something of
    it; what is remembered is the last of these lines and the last of the uses on it, in
    the order of the tables. *)
Theorem required_headers_correct c h :
  required_headers c !! h = snd <$> last (List.filter (λ x, x.1 =s h) (all_needs (imap pair (elided c)))).
Proof.
  unfold required_headers. rewrite add_lines_needs, lookup_needs. by destruct (last _); [|apply lookup_empty].
Qed.
(** The uses on a line are those of the tables: [vector<int>] and [min(a, b)]. *)
Example needs1 : line_needs "  vector<pair<int, int> > v; min(a, b);" = [("<algorithm>", "min"); ("<utility>", "pair<>"); ("<vector>", "vector<>")].
Proof. vm_compute. reflexivity. Qed.
