(* ===== verification/CppReports.v ===== *)
(** * What the program reports (tools/cpplint.py)

    Every check goes through [error]: what a check keeps is what [error] keeps.  So all
    reports of a file are about that file, have a category of the list and a confidence
    from 1 to 5 (or 0, for two of the categories), pass the filters, and are counted. *)
From S2P Require Import Prelude PyStr PyPath PyState CppRe CppState CppLines CppFile CppChecks CppClass CppStyle CppLanguage CppMain.

Lemma keeps_when {I R P} `{!PreOrder R} b m : (b = true → keeps I R P m) → keeps I R P (when b m).
Proof. intros Hm. destruct b; [by apply Hm|apply keeps_ret, _]. Qed.
Lemma keeps_at_line {I R} {P : exn → Prop} `{!PreOrder R} l i : P IndexError → keeps I R P (at_line l i).
Proof. intros HP. unfold at_line. destruct (l !! i); [apply keeps_ret, _|by apply keeps_throw; [apply _|]]. Qed.

(** What the computations without effect raise. *)
Lemma balance_loop_raises o c rest : ∀ linenum line n total e, balance_loop o c rest linenum line n total = Err e → e = IndexError.
Proof.
  induction rest as [|next rest IH]; intros linenum line n total e; cbn [balance_loop]; destruct (_ && _); try done.
  - by intros [= <-].
  - apply IH.
Qed.
Lemma CloseExpression_raises c linenum p e : CloseExpression c linenum p = Err e → e = IndexError.
Proof.
  unfold CloseExpression. destruct (elided c !! linenum) as [line|]; [|by intros [= <-]].
  destruct (str_get p line) as [a|]; [|by intros [= <-]]. cbv zeta.
  repeat (destruct (_ =c _); [intros [H|([[? ?] ?] & _ & [=])]%res_bind_Err; by apply balance_loop_raises in H|]). done.
Qed.
Lemma join_block_raises fuel ls : ∀ n line e, join_block fuel ls n line = Err e → e = OutOfFuel.
Proof.
  induction fuel as [|fuel IH]; intros n line e; cbn [join_block]; [by intros [= <-]|].
  destruct (GetPreviousNonBlankLine ls n). destruct (_ && _); [apply IH|done].
Qed.
Section Names.
Context `{Files}.
Lemma svn_loop_raises fuel : ∀ a b e, svn_loop fuel a b = Err e → e = OutOfFuel.
Proof. induction fuel as [|fuel IH]; intros a b e; cbn; [by intros [= <-]|]. destruct (path_exists _); [apply IH|done]. Qed.
Lemma git_loop_raises fuel : ∀ a e, git_loop fuel a = Err e → e = OutOfFuel.
Proof. induction fuel as [|fuel IH]; intros a e; cbn; [by intros [= <-]|]. destruct (_ && _ && _); [apply IH|done]. Qed.
Lemma RepositoryName_raises fuel f e : RepositoryName fuel f = Err e → e = OutOfFuel.
Proof.
  unfold RepositoryName. destruct (path_exists _); [|done]. cbv zeta. destruct (path_exists _).
  - intros [?%svn_loop_raises|(? & _ & [=])]%res_bind_Err; done.
  - intros [?%git_loop_raises|(? & _ & [=])]%res_bind_Err; done.
Qed.
Lemma GetHeaderGuard_raises fuel f e : GetHeaderGuardCPPVariable fuel f = Err e → e = OutOfFuel.
Proof.
  unfold GetHeaderGuardCPPVariable. destruct (RepositoryName fuel _) eqn:E; cbn; [done|]. intros [= <-]. by apply RepositoryName_raises in E.
Qed.
End Names.

(** The usage text gives confidences from 1 to 5; a header guard whose name ends with two
    underscores and a long function, with level 0, are reported with 0. *)
Definition confidence_ok (category : string) (confidence : Z) : Prop :=
  (1 <= confidence <= 5)%Z ∨ confidence = 0%Z ∧ category ∈ ["build/header_guard"; "readability/fn_size"].

Create HintDb raises.
Create HintDb keeps.
#[export] Hint Resolve CloseExpression_raises join_block_raises RepositoryName_raises GetHeaderGuard_raises : raises.

Section Checks.
Context `{Files} (fuel : nat).
Context (error : string → Z → string → Z → string → ST Lint unit) (filename : string).
Context (I : Lint → Prop) (R : Lint → Lint → Prop) (P : exn → Prop) `{!PreOrder R}.
Hypothesis Herror : ∀ n category confidence message, category ∈ _ERROR_CATEGORIES → confidence_ok category confidence →
  keeps I R P (error filename n category confidence message).
Hypothesis Hlevel : ∀ s, I s → (0 <= verbose_level s)%Z.
Hypothesis Hsuppress : ∀ m, keeps I R P (modify (λ s, with_suppressions s (m s))).
Hypothesis HIndex : P IndexError.
Hypothesis HFuel : P OutOfFuel.

(** A category of the list is found by evaluation. *)
Ltac listed := apply (bool_decide_unpack _); vm_compute; exact Logic.I.
Ltac confident := unfold confidence_ok; repeat case_match; first [left; lia|right; split; [done|set_solver]].
Ltac keep_raise := let e := fresh "e" in let He := fresh "He" in intros e He;
  first [ assert (e = IndexError) as -> by eauto with raises; exact HIndex
        | assert (e = OutOfFuel) as -> by eauto with raises; exact HFuel ].
Ltac keep_step :=
  first
  [ match goal with |- ∀ _, _ => intro end
  | match goal with |- PreOrder _ => exact _ end
  | progress cbv zeta
  | assumption
  | match goal with |- keeps _ _ _ _ => solve [auto 1 with keeps nocore] end
  | match goal with H : keeps _ _ _ ?m |- keeps _ _ _ ?m => exact H end
  | apply Herror; [listed|confident]
  | apply Hsuppress
  | apply keeps_ret
  | apply keeps_gets
  | apply keeps_bind
  | apply keeps_at_line; exact HIndex
  | apply keeps_when
  | apply keeps_throw; first [exact HIndex|exact HFuel|exact _]
  | apply keeps_lift; match goal with |- PreOrder _ => exact _ | _ => keep_raise end
  | apply keeps_for_each
  | case_match ].
Ltac keep := repeat keep_step.


(** *** Lines *)

Lemma keeps_copyright ls : keeps I R P (CheckForCopyright error filename ls).
Proof. unfold CheckForCopyright. keep. Qed.
Lemma keeps_eof ls : keeps I R P (CheckForNewlineAtEOF error filename ls).
Proof. unfold CheckForNewlineAtEOF. keep. Qed.
Lemma keeps_nolint raw n : keeps I R P (ParseNolintSuppressions error filename raw n).
Proof. unfold ParseNolintSuppressions, suppress. keep. Qed.
#[local] Hint Resolve keeps_copyright keeps_eof keeps_nolint : keeps.
Lemma keeps_multiline c n : keeps I R P (CheckForMultilineCommentsAndStrings error filename c n).
Proof. unfold CheckForMultilineCommentsAndStrings. keep. Qed.
Lemma keeps_threading c n : keeps I R P (CheckPosixThreading error filename c n).
Proof. unfold CheckPosixThreading. keep. Qed.
Lemma keeps_increment c n : keeps I R P (CheckInvalidIncrement error filename c n).
Proof. unfold CheckInvalidIncrement. keep. Qed.
Lemma keeps_comment t n : keeps I R P (CheckComment error t filename n).
Proof. unfold CheckComment. keep. Qed.
#[local] Hint Resolve keeps_multiline keeps_threading keeps_increment keeps_comment : keeps.

(** The level of the report of a long function is one of a report. *)
Lemma keeps_Check f n : keeps I R P (Check error f filename n).
Proof.
  intros s r s' Hs. unfold Check. rewrite st_bind. cbn [gets]. cbv zeta.
  set (base := if found _ then _TEST_TRIGGER else _NORMAL_TRIGGER).
  assert (Hb : (0 < base)%Z) by (unfold base, _TEST_TRIGGER, _NORMAL_TRIGGER; by destruct (found _)).
  pose proof (Hlevel s Hs) as Hl. unfold exceeds. rewrite (proj2 (Z.leb_le _ _) Hl).
  destruct (Z.ltb_spec (base * 2 ^ verbose_level s) (lines_in_function f)) as [Hlt|_].
  - destruct (error_level_correct _ _ _ Hb Hl Hlt) as (e & He & Hr & _). rewrite st_bind. unfold lift. rewrite He.
    intros Hrun. refine (Herror _ _ _ _ _ _ s r s' Hs Hrun); [listed|].
    unfold confidence_ok. destruct (decide (e = 0%Z)); [right; split; [done|set_solver]|left; lia].
  - intros [= <- <-]. by split_and!.
Qed.
#[local] Hint Resolve keeps_Check : keeps.
Lemma keeps_lengths c n f : keeps I R P (CheckForFunctionLengths error filename c n f).
Proof. unfold CheckForFunctionLengths. keep. Qed.

(** A replacement is always found. *)
Lemma keeps_check c n : keeps I R P (CheckCheck error filename c n).
Proof.
  unfold CheckCheck. apply keeps_bind; [exact _|by apply keeps_at_line|]. intros raw.
  destruct (List.find _ _CHECK_MACROS) as [macro|] eqn:Em; [|keep]. apply find_some in Em as [Hm _].
  apply keeps_bind; [exact _|by apply keeps_at_line|]. intros line.
  destruct (List.find _ ["=="; "!="; ">="; ">"; "<="; "<"]) as [op|] eqn:Eo; [|keep]. apply find_some in Eo as [Ho _].
  pose proof replacement_table as Ht. rewrite forallb_forall in Ht. specialize (Ht _ Hm). rewrite forallb_forall in Ht.
  specialize (Ht _ Ho). apply bool_decide_eq_true in Ht. rewrite Ht. keep.
Qed.
Lemma keeps_braces c n : keeps I R P (CheckBraces error fuel filename c n).
Proof. unfold CheckBraces, CheckBraces_else. keep. Qed.
#[local] Hint Resolve keeps_lengths keeps_check keeps_braces : keeps.

(** *** Style and language *)

Lemma keeps_call line n : keeps I R P (CheckSpacingForFunctionCall error filename line n).
Proof. unfold CheckSpacingForFunctionCall. keep. Qed.
Lemma keeps_blank c n : keeps I R P (check_blank error filename c n).
Proof. unfold check_blank, line_before. keep. Qed.
Lemma keeps_comment_space line n : keeps I R P (check_comment_space error filename line n).
Proof. unfold check_comment_space. keep. Qed.
Lemma keeps_group m n category confidence text : category ∈ _ERROR_CATEGORIES → confidence_ok category confidence →
  keeps I R P (report_group error m filename n category confidence text).
Proof. intros Hc Hf. unfold report_group. destruct m; [by apply Herror|keep]. Qed.
#[local] Hint Resolve keeps_call keeps_blank keeps_comment_space : keeps.
#[local] Hint Extern 1 (keeps _ _ _ (report_group _ _ _ _ _ _ _)) => apply keeps_group; [listed|confident] : keeps.
Lemma keeps_head line n : keeps I R P (check_control_head error filename line n).
Proof. unfold check_control_head. keep. Qed.
Lemma keeps_semicolon line n : keeps I R P (check_semicolon error filename line n).
Proof. unfold check_semicolon. keep. Qed.
#[local] Hint Resolve keeps_head keeps_semicolon : keeps.
Lemma keeps_spacing c n : keeps I R P (CheckSpacing error filename c n).
Proof. unfold CheckSpacing, check_code_spacing. keep. Qed.
#[local] Hint Resolve keeps_spacing : keeps.
Lemma keeps_style c n ext : keeps I R P (CheckStyle fuel error filename c n ext).
Proof. unfold CheckStyle, check_indent, check_length. keep. Qed.

Lemma keeps_references line n : keeps I R P (check_references error filename line n).
Proof. unfold check_references. keep. Qed.
Lemma keeps_conversion line n : keeps I R P (check_conversion error filename line n).
Proof. unfold check_conversion. keep. Qed.
Lemma keeps_cast line raw t p n : keeps I R P (CheckCStyleCast error filename n line raw t p).
Proof. unfold CheckCStyleCast. keep. Qed.
Lemma keeps_string line n : keeps I R P (check_global_string error filename line n).
Proof. unfold check_global_string. keep. Qed.
Lemma keeps_int line n : keeps I R P (check_int error filename line n).
Proof. unfold check_int. keep. Qed.
#[local] Hint Resolve keeps_references keeps_conversion keeps_cast keeps_string keeps_int : keeps.
Lemma keeps_c_functions line n : keeps I R P (check_c_functions error filename line n).
Proof. unfold check_c_functions. keep. Qed.
Lemma keeps_disallow line c n : keeps I R P (check_disallow error filename line c n).
Proof. unfold check_disallow. keep. Qed.
#[local] Hint Resolve keeps_c_functions keeps_disallow : keeps.
Lemma keeps_code c n ext line : keeps I R P (check_code error filename c n ext line).
Proof. unfold check_code, check_snprintf, check_format, check_memset. keep. Qed.
Lemma keeps_include rn c n i : keeps I R P (CheckIncludeLine error filename rn c n i).
Proof. unfold CheckIncludeLine, check_include, check_stream. keep. Qed.
#[local] Hint Resolve keeps_style keeps_code keeps_include : keeps.
Lemma keeps_language c n ext i : keeps I R P (CheckLanguage fuel error filename c n ext i).
Proof. unfold CheckLanguage. keep. Qed.
Lemma keeps_classes n line k : keeps I R P (track_classes error filename n line k).
Proof. unfold track_classes, check_virtual. keep. Qed.
#[local] Hint Resolve keeps_language keeps_classes : keeps.
Lemma keeps_constructs c n k : keeps I R P (CheckForNonStandardConstructs error filename c n k).
Proof. unfold CheckForNonStandardConstructs. keep. Qed.

(** *** Files *)

Lemma keeps_guard ls : keeps I R P (CheckForHeaderGuard fuel error filename ls).
Proof. unfold CheckForHeaderGuard. keep. Qed.
Lemma keeps_comments n : ∀ ls i, keeps I R P (RemoveMultiLineComments_loop error n filename ls i).
Proof. induction n as [|n IH]; intros ls i; cbn [RemoveMultiLineComments_loop]; [keep|]. keep. Qed.
#[local] Hint Resolve keeps_constructs keeps_guard keeps_comments : keeps.
Lemma keeps_line ext c n f : keeps I R P (ProcessLine fuel error filename ext c n f).
Proof. unfold ProcessLine. keep. Qed.
#[local] Hint Resolve keeps_line : keeps.
Lemma keeps_lines ext c ns : ∀ f, keeps I R P (process_lines fuel error filename ext c ns f).
Proof. induction ns as [|n ns IH]; intros f; cbn [process_lines]; keep. Qed.
#[local] Hint Resolve keeps_lines : keeps.
Lemma keeps_file keys items ext ls : keeps I R P (ProcessFileData fuel error keys items filename ext ls).
Proof.
  unfold ProcessFileData, ResetNolintSuppressions, RemoveMultiLineComments, CheckFinished, CheckForIncludeWhatYouUse,
    CheckForUnicodeReplacementCharacters. keep.
Qed.
End Checks.

(** ** What is written *)

Definition report_text (format : string) (r : report) : string :=
  let tail := r_msg r +:+ "  [" +:+ r_cat r +:+ "] [" +:+ str_of_Z (r_conf r) +:+ "]" +:+ nl_str in
  if format =s "vs7" then r_file r +:+ "(" +:+ str_of_Z (r_line r) +:+ "):  " +:+ tail
  else r_file r +:+ ":" +:+ str_of_Z (r_line r) +:+ ":  " +:+ tail.
(** A report that the settings let through. *)
Definition report_ok (s : Lint) (r : report) : Prop :=
  r_cat r ∈ _ERROR_CATEGORIES ∧ confidence_ok (r_cat r) (r_conf r) ∧ (verbose_level s <= r_conf r)%Z ∧ ¬ turned_off (filters s) (r_cat r).
Definition same_options (s s' : Lint) : Prop :=
  verbose_level s' = verbose_level s ∧ filters s' = filters s ∧ counting s' = counting s ∧ output_format s' = output_format s.
(** How many of the reports are counted under [k]. *)
Definition in_category (s : Lint) (k : string) (rs : list report) : nat :=
  if counts_categories s then length (List.filter (λ r, category_key s (r_cat r) =s k) rs) else 0.
(** From [s] to [s'], [out] has been written and [rs] been reported. *)
Definition reported (out : list string) (rs : list report) (s s' : Lint) : Prop :=
  stderr s' = stderr s ++ out ∧ error_count s' = error_count s + length rs ∧
  (∀ k, default 0 (errors_by_category s' !! k) = default 0 (errors_by_category s !! k) + in_category s k rs) ∧
  Forall (report_ok s) rs ∧ same_options s s'.
Definition texts (s : Lint) (rs : list report) : list string := report_text (output_format s) <$> rs.

Lemma same_options_key s s' k rs : same_options s s' → in_category s' k rs = in_category s k rs.
Proof. intros (_ & _ & Hc & _). unfold in_category, counts_categories, category_key. by rewrite Hc. Qed.
Lemma same_options_ok s s' rs : same_options s s' → Forall (report_ok s') rs → Forall (report_ok s) rs.
Proof. intros (Hv & Hf & _ & _) Hrs. apply (Forall_impl _ _ _ Hrs). intros r. unfold report_ok. by rewrite Hv, Hf. Qed.
Lemma reported_nil out s s' : stderr s' = stderr s ++ out → error_count s' = error_count s →
  errors_by_category s' = errors_by_category s → same_options s s' → reported out [] s s'.
Proof.
  intros H1 H2 H3 H4. split_and!; [done|cbn; lia| |constructor|done].
  intros k. rewrite H3. unfold in_category. destruct (counts_categories s); cbn; lia.
Qed.
Lemma reported_app o1 o2 rs1 rs2 s1 s2 s3 : reported o1 rs1 s1 s2 → reported o2 rs2 s2 s3 → reported (o1 ++ o2) (rs1 ++ rs2) s1 s3.
Proof.
  intros (Ho1 & Hn1 & Hk1 & Hf1 & Hp1) (Ho2 & Hn2 & Hk2 & Hf2 & Hp2). split_and!.
  - by rewrite Ho2, Ho1, app_assoc.
  - rewrite Hn2, Hn1, length_app. lia.
  - intros k. rewrite Hk2, Hk1, (same_options_key s1 s2) by done. unfold in_category.
    destruct (counts_categories s1); [|lia]. rewrite List.filter_app, length_app. lia.
  - apply Forall_app. split; [done|by eapply same_options_ok].
  - destruct Hp1 as (?&?&?&?), Hp2 as (?&?&?&?). split_and!; congruence.
Qed.
Lemma texts_same s s' rs : same_options s s' → texts s' rs = texts s rs.
Proof. intros (_ & _ & _ & Hf). unfold texts. by rewrite Hf. Qed.
Lemma report_texts_app s rs1 rs2 : texts s (rs1 ++ rs2) = texts s rs1 ++ texts s rs2.
Proof. apply fmap_app. Qed.
(** What is written are reports, with [Q]. *)
Definition reports (Q : report → Prop) (s s' : Lint) : Prop := ∃ rs, reported (texts s rs) rs s s' ∧ Forall Q rs.
#[export] Instance reports_preorder Q : PreOrder (reports Q).
Proof.
  split.
  - intros s. exists []. split; [by apply reported_nil; [rewrite app_nil_r|..]|constructor].
  - intros s1 s2 s3 (r1 & H1 & Q1) (r2 & H2 & Q2). exists (r1 ++ r2). split; [|by apply Forall_app].
    rewrite report_texts_app, <-(texts_same s1 s2 r2) by apply H1. by eapply reported_app.
Qed.

(** The states of a run after the options have been read. *)
Definition ready (s : Lint) : Prop := forallb good_filter (filters s) = true ∧ (0 <= verbose_level s)%Z.
Definition expected (e : exn) : Prop := e = IndexError ∨ e = OutOfFuel.
Lemma ready_same s s' : same_options s s' → ready s → ready s'.
Proof. intros (Hv & Hf & _) [H1 H2]. unfold ready. by rewrite Hv, Hf. Qed.

Lemma write_reported t s : reported [t] [] s (write t s).2.
Proof. by apply reported_nil. Qed.

Lemma should_print s r : forallb good_filter (filters s) = true → printed s r = true →
  (verbose_level s <= r_conf r)%Z ∧ ¬ turned_off (filters s) (r_cat r).
Proof.
  intros Hf. unfold printed. destruct (filter_loop_correct (filters s) (r_cat r) Hf) as (b & Hb & Hiff).
  unfold _ShouldPrintError. intros Hp%bool_decide_eq_true. destruct (IsErrorSuppressedByNolint _ _ _); [done|].
  destruct (Z.ltb_spec (r_conf r) (verbose_level s)); [done|]. rewrite Hb in Hp. destruct b; [done|].
  split; [lia|]. by rewrite <- Hiff.
Qed.

(** [Error] itself: the report is printed, or nothing happens. *)
Lemma keeps_Error Q r : r_cat r ∈ _ERROR_CATEGORIES → confidence_ok (r_cat r) (r_conf r) → Q r →
  keeps ready (reports Q) expected (report_error r).
Proof.
  intros Hc Hr HQ s res s' [Hf Hv] Hrun.
  destruct (Error_run s r (printed s r)) as (s1 & Hs1 & (H1 & H2 & H3 & H4 & H5) & Hn & _ & Hm); [by apply printed_iff|].
  rewrite Hs1 in Hrun. injection Hrun as <- <-. assert (Hsame : same_options s s1) by (by split_and!).
  split_and!; [by eapply ready_same|..|done]. destruct (printed s r) eqn:Ep.
  - destruct (should_print s r Hf Ep) as [Hle Ho]. exists [r]. split; [|by apply Forall_singleton].
    split_and!; [|cbn; lia| |by apply Forall_singleton|done].
    + cbn. unfold report_error, Error in Hs1.
      rewrite st_bind in Hs1. cbn [gets id] in Hs1. rewrite st_bind in Hs1. unfold lift in Hs1.
      rewrite printed_iff, Ep in Hs1 by done. rewrite st_bind in Hs1. cbn [IncrementErrorCount modify with_counts] in Hs1.
      unfold report_text. by destruct (output_format s =s "vs7"); injection Hs1 as <-.
    + intros k. rewrite Hm. unfold in_category. destruct (counts_categories s); cbn [andb]; [|lia]. cbn [List.filter].
      destruct (String.eqb_spec (category_key s (r_cat r)) k) as [->|Hne].
      * rewrite lookup_insert_eq. cbn. lia.
      * rewrite lookup_insert_ne by done. cbn. lia.
  - exists []. split; [|constructor]. apply reported_nil; [|done|done|done]. rewrite app_nil_r.
    unfold report_error, Error in Hs1. rewrite st_bind in Hs1. cbn [gets id] in Hs1. rewrite st_bind in Hs1. unfold lift in Hs1.
    rewrite printed_iff, Ep in Hs1 by done. by injection Hs1 as <-.
Qed.

Lemma keeps_suppress Q P m : keeps ready (reports Q) P (modify (λ s, with_suppressions s (m s))).
Proof.
  intros s r s' Hs [= <- <-]. split_and!; [by eapply ready_same; [|exact Hs]| |done].
  exists []. split; [by apply reported_nil; [rewrite app_nil_r|..]|constructor].
Qed.

(** A file is processed with reports about it only. *)
Lemma keeps_ProcessFileData `{Files} fuel (Q : report → Prop) keys items filename ext ls :
  (∀ r, r_file r = filename → Q r) →
  keeps ready (reports Q) expected (ProcessFileData fuel Error keys items filename ext ls).
Proof.
  intros HQ. apply keeps_file; [exact _|..|by left|by right].
  - intros n cat conf msg Hc Hf. by apply (keeps_Error Q (mkReport filename n cat conf msg)); [| |apply HQ].
  - by intros s [_ ?].
  - intros m. apply keeps_suppress.
Qed.

(** C38: Whatever the file, with filters that [SetFilters] accepts and a level that is not
    negative, all that is written are reports about the file, each of a category of the
    list, with a confidence from 1 to 5 (or 0, for a header guard and for a long function
    only, which the documentation of the program does not have) that is not below the level, in a
    category that the filters do not turn off; they are counted, in all and by category;
    the options stay.  If the file is not gone through to the end, an index was out of
    range or a loop did not end. *)
Theorem ProcessFileData_reports `{Files} fuel keys items filename ext ls s r s' :
  forallb good_filter (filters s) = true → (0 <= verbose_level s)%Z →
  ProcessFileData fuel Error keys items filename ext ls s = (r, s') →
  (∃ rs, stderr s' = stderr s ++ (report_text (output_format s) <$> rs) ∧
    Forall (λ r, r_file r = filename ∧ report_ok s r) rs ∧
    error_count s' = error_count s + length rs ∧
    (∀ k, default 0 (errors_by_category s' !! k) = default 0 (errors_by_category s !! k) + in_category s k rs) ∧
    same_options s s') ∧
  (r = Ok tt ∨ r = Err IndexError ∨ r = Err OutOfFuel).
Proof.
  intros Hf Hv Hr.
  destruct (keeps_ProcessFileData fuel (λ r, r_file r = filename) keys items filename ext ls (λ _, id) s r s')
    as (_ & (rs & (Hout & Hn & Hk & Hok & Hs) & HQ) & He); [by split|done|]. split.
  - exists rs. split_and!; [done| |done|done|done]. apply Forall_and. by split.
  - destruct r as [[]|e]; [by left|]. destruct (He e) as [->| ->]; auto.
Qed.
(** ** Options *)

Section getopt_ind.
Context (longopts : list string).
(** The names of files are the arguments that are left. *)
Lemma getopt_suffix args opts fs : getopt args longopts = Some (opts, fs) → ∃ used, args = used ++ fs.
Proof.
  revert args opts fs. induction args as [args IH] using (induction_ltof1 _ (@length string)). unfold ltof in IH. intros opts fs.
  destruct args as [|a rest]; cbn [getopt]; [intros [= <- <-]; by exists []|].
  destruct (_ || _); [intros [= <- <-]; by exists []|]. destruct (a =s "--"); [intros [= <- <-]; by exists [a]|].
  destruct (negb _); [done|]. cbv zeta. destruct (match find "=" _ with Some _ => _ | None => _ end) as [opt optarg].
  intros ([has_arg opt'] & _ & Hg)%bind_Some.
  destruct has_arg, optarg as [v|]; try done; [|destruct rest as [|v rest]; [done|]|];
    apply bind_Some in Hg as ([o f] & Hg & [= <- <-]); apply IH in Hg as [used ->]; cbn; try lia.
  - by exists (a :: used).
  - by exists (a :: v :: used).
  - by exists (a :: used).
Qed.
End getopt_ind.

Definition formats : list string := ["emacs"; "vs7"].
Definition countings : list string := [""; "total"; "toplevel"; "detailed"].
Definition bad_arguments (e : exn) : Prop := e = SystemExit 0 ∨ e = SystemExit 1 ∨ e = ValueError.
Lemma PrintUsage_run {A} message s : ∃ s', PrintUsage (A := A) message s = (Err (SystemExit 1), s').
Proof. destruct message; eexists; reflexivity. Qed.
Lemma int_of_string_raises v e : int_of_string v = Err e → e = ValueError.
Proof. unfold int_of_string. cbv zeta. destruct (if startswith _ _ then _ else _); [done|]. by intros [= <-]. Qed.

(** What [ParseArguments] takes of an option, and how it ends on another one. *)
Definition acceptable (ov : string * string) : bool :=
  let '(opt, val) := ov in
  negb (opt =s "--help") &&
  (if opt =s "--output" then bool_decide (val ∈ formats) else true) &&
  (if opt =s "--verbose" then is_ok (int_of_string val) else true) &&
  (if opt =s "--filter" then negb (val =s "") else true) &&
  (if opt =s "--counting" then bool_decide (val ∈ tail countings) else true).
Definition refusal (opt : string) : exn :=
  if opt =s "--filter" then SystemExit 0 else if opt =s "--verbose" then ValueError else SystemExit 1.
(** The value of an option is the last one given. *)
Definition last_value (k : string) (opts : list (string * string)) : option string :=
  last (omap (λ ov, if ov.1 =s k then Some ov.2 else None) opts).
Definition level_of (v : string) : Z := match int_of_string v with Ok z => z | Err _ => 0%Z end.
Definition filters_of (opts : list (string * string)) : list string :=
  List.filter (λ f, negb (f =s "")) (strip <$> split_on "," (default "" (last_value "--filter" opts))).

Lemma last_value_cons k ov opts :
  last_value k (ov :: opts) = match last_value k opts with Some v => Some v | None => if ov.1 =s k then Some ov.2 else None end.
Proof.
  unfold last_value. cbn [omap list_omap]. destruct (ov.1 =s k); [|by destruct (last _)]. rewrite last_cons. by destruct (last _).
Qed.
Definition options_from (o : options) (opts : list (string * string)) : options :=
  mkOptions (default (verbosity o) (level_of <$> last_value "--verbose" opts)) (default (opt_output_format o) (last_value "--output" opts))
    (default (opt_filters o) (last_value "--filter" opts)) (default (counting_style o) (last_value "--counting" opts)).
Lemma parse_option_run o ov s :
  if acceptable ov then parse_option o ov s = (Ok (options_from o [ov]), s)
  else ∃ s', parse_option o ov s = (Err (refusal ov.1), s').
Proof.
  destruct ov as [opt val]. unfold acceptable, parse_option, refusal, options_from, last_value. cbn [omap list_omap fst snd].
  pose proof (@PrintUsage_run options) as Hu. destruct o as [v f fs c].
  destruct (String.eqb_spec opt "--help") as [->|_]; [apply (Hu None s)|].
  destruct (String.eqb_spec opt "--output") as [->|_].
  { cbn. destruct (bool_decide (val ∈ formats)) eqn:E; unfold formats in E; rewrite E; [done|]. apply (Hu (Some _) s). }
  destruct (String.eqb_spec opt "--verbose") as [->|_].
  { cbn. rewrite st_bind. unfold lift, level_of. destruct (int_of_string val) as [z|e] eqn:E; cbn; [done|].
    apply int_of_string_raises in E as ->. by eexists. }
  destruct (String.eqb_spec opt "--filter") as [->|_]; [cbn; destruct (val =s ""); [by eexists|done]|].
  destruct (String.eqb_spec opt "--counting") as [->|_]; [|done].
  cbn [negb andb]. change (tail countings) with ["total"; "toplevel"; "detailed"]. destruct (bool_decide _); [done|apply (Hu (Some _) s)].
Qed.
Lemma options_from_cons o ov opts : options_from (options_from o [ov]) opts = options_from o (ov :: opts).
Proof.
  unfold options_from. cbn [verbosity opt_output_format opt_filters counting_style]. rewrite !(last_value_cons _ ov opts), !(last_value_cons _ ov []).
  cbn [last_value omap list_omap last].
  destruct (last_value "--verbose" opts), (last_value "--output" opts), (last_value "--filter" opts), (last_value "--counting" opts);
    cbn; do 2 f_equal; by destruct (_ =s _).
Qed.
Lemma parse_options_run opts : ∀ o s,
  match List.find (λ ov, negb (acceptable ov)) opts with
  | Some ov => ∃ s', parse_options opts o s = (Err (refusal ov.1), s')
  | None => parse_options opts o s = (Ok (options_from o opts), s)
  end.
Proof.
  induction opts as [|ov opts IH]; intros o s; cbn [parse_options List.find]; [by destruct o|]. rewrite st_bind.
  pose proof (parse_option_run o ov s) as Hov. destruct (acceptable ov); cbn [negb].
  - rewrite Hov. specialize (IH (options_from o [ov]) s). by rewrite options_from_cons in IH.
  - destruct Hov as [s' ->]. by exists s'.
Qed.

(** What has been set when the arguments are taken. *)
Definition options_set (opts : list (string * string)) (s s' : Lint) : Prop :=
  verbose_level s' = default (verbose_level s) (level_of <$> last_value "--verbose" opts) ∧
  output_format s' = default (output_format s) (last_value "--output" opts) ∧
  counting s' = default "" (last_value "--counting" opts) ∧
  filters s' = _DEFAULT_FILTERS ++ filters_of opts ∧
  stderr s' = stderr s ∧ error_count s' = error_count s ∧ errors_by_category s' = errors_by_category s.
Definition longopts : list string := ["help"; "output="; "verbose="; "counting="; "filter="].
Lemma ParseArguments_run argv s :
  match getopt argv longopts with
  | None => ∃ s', ParseArguments argv s = (Err (SystemExit 1), s')
  | Some (opts, filenames) =>
      match List.find (λ ov, negb (acceptable ov)) opts with
      | Some ov => ∃ s', ParseArguments argv s = (Err (refusal ov.1), s')
      | None =>
          if bool_decide (filenames = []) then ∃ s', ParseArguments argv s = (Err (SystemExit 1), s')
          else if forallb good_filter (filters_of opts) then ∃ s', ParseArguments argv s = (Ok filenames, s') ∧ options_set opts s s'
          else ∃ s', ParseArguments argv s = (Err ValueError, s')
      end
  end.
Proof.
  unfold ParseArguments, longopts. pose proof (@PrintUsage_run (list string)) as Hu.
  destruct (getopt _ _) as [[opts filenames]|]; [|apply (Hu (Some "Invalid arguments.") s)].
  pose proof (parse_options_run opts (mkOptions (verbose_level s) (output_format s) "" "") s) as Ho.
  destruct (List.find _ opts) as [ov|].
  - destruct Ho as [s' Ho]. exists s'. rewrite !st_bind. cbn [gets]. rewrite st_bind. cbn [gets]. by rewrite st_bind, Ho.
  - rewrite !st_bind. cbn [gets]. rewrite st_bind. cbn [gets]. rewrite st_bind, Ho. destruct filenames as [|f fs].
    { apply (Hu (Some "No files were specified.") s). }
    rewrite bool_decide_eq_false_2 by done.
    unfold SetOutputFormat, SetVerboseLevel, SetFilters, SetCountingStyle, gets, modify, mret, ST_ret, throw, mbind, ST_bind. cbn.
    fold (filters_of opts). by destruct (forallb good_filter (filters_of opts)); eexists; repeat split.
Qed.

(** After it the filters are good. *)
Lemma ParseArguments_good argv s filenames s1 : ParseArguments argv s = (Ok filenames, s1) → forallb good_filter (filters s1) = true.
Proof.
  intros Hr. pose proof (ParseArguments_run argv s) as H. rewrite Hr in H. destruct (getopt _ _) as [[opts fs]|]; [|by destruct H as [? [=]]].
  destruct (List.find _ opts) as [ov|]; [by destruct H as [? [=]]|]. case_bool_decide; [by destruct H as [? [=]]|].
  destruct (forallb _ (filters_of opts)) eqn:E; [|by destruct H as [? [=]]]. destruct H as (s' & [= _ <-] & _ & _ & _ & -> & _).
  by rewrite forallb_app, E.
Qed.

(** C40: How the arguments are taken: on options that [getopt] does not know the program
    ends with status 1; on the first option that is not acceptable it ends with 1, with 0
    for an empty filter (the list of categories), and a [ValueError] for a verbosity that is
    no number; without files it ends with 1; and there is a [ValueError] when one of the
    filters of the last such option has no sign, although the usage text gives
    "whitespace,runtime/printf,+runtime/printf_format" as an example.  Otherwise the files
    are what is left of the arguments, at least one, the settings are the last ones
    given, and nothing has been written or counted. *)
Theorem ParseArguments_valid argv s r s' :
  ParseArguments argv s = (r, s') →
  match getopt argv longopts with
  | None => r = Err (SystemExit 1)
  | Some (opts, filenames) =>
      match List.find (λ ov, negb (acceptable ov)) opts with
      | Some ov => r = Err (refusal ov.1)
      | None =>
          if bool_decide (filenames = []) then r = Err (SystemExit 1)
          else if forallb good_filter (filters_of opts)
          then r = Ok filenames ∧ (∃ used, argv = used ++ filenames) ∧ options_set opts s s'
          else r = Err ValueError
      end
  end.
Proof.
  intros Hr. pose proof (ParseArguments_run argv s) as H. destruct (getopt _ _) as [[opts filenames]|] eqn:Eg.
  2: { destruct H as [s1 H]. rewrite H in Hr. by injection Hr as <- <-. }
  apply getopt_suffix in Eg. destruct (List.find _ opts) as [ov|].
  { destruct H as [s1 H]. rewrite H in Hr. by injection Hr as <- <-. }
  case_bool_decide; [|destruct (forallb _ _)]; destruct H as [s1 H]; [| destruct H as [H Hset] |]; rewrite H in Hr; by injection Hr as <- <-.
Qed.

(** ** The program *)

Section Main.
Context `{Files} (fuel : nat) (read_text : string → option string) (linesep : string).
Context (keys : gmap string string → list string) (items : needs_map → list (string * (nat * string))).
Context (count_items : gmap string nat → list (string * nat)).

Lemma SetVerboseLevel_same s : SetVerboseLevel (verbose_level s) s = (Ok (verbose_level s), s).
Proof. by destruct s. Qed.

(** The files that are looked at; what is written for a file with the reports [rs]. *)
Definition ignored (filename : string) : bool :=
  let ext := extension_of filename in negb (filename =s "-") && negb (ext =s "cc") && negb (ext =s "h") && negb (ext =s "cpp").
Definition linted (filename : string) : bool := bool_decide (is_Some (read_text filename)) && negb (ignored filename).
Definition file_output (format filename : string) (rs : list report) : list string :=
  match read_text filename with
  | None => ["Skipping input '" +:+ filename +:+ "': Can't open for reading" +:+ nl_str]
  | Some _ =>
      (if ignored filename then ["Ignoring " +:+ filename +:+ "; not a .cc or .h file" +:+ nl_str] else report_text format <$> rs) ++
      ["Done processing " +:+ filename +:+ nl_str]
  end.
Definition count_output (s : Lint) : list string :=
  ((λ '(category, count), "Category '" +:+ category +:+ "' errors found: " +:+ str_of_nat count +:+ nl_str) <$> count_items (errors_by_category s)) ++
  ["Total errors found: " +:+ str_of_nat (error_count s) +:+ nl_str].
Definition reports_of (s : Lint) (filename : string) (rs : list report) : Prop :=
  Forall (λ x, r_file x = filename ∧ report_ok s x) rs ∧ (linted filename = false → rs = []).

(** One file; the reports of it. *)
Lemma ProcessFile_run filename s r s' : ready s →
  (level ← gets verbose_level; ProcessFile fuel read_text linesep keys items filename level) s = (r, s') →
  ready s' ∧
  match r with
  | Ok _ => ∃ rs, reported (file_output (output_format s) filename rs) rs s s' ∧ reports_of s filename rs
  | Err e => expected e
  end.
Proof.
  intros Hs. rewrite st_bind. cbn [gets]. unfold ProcessFile. rewrite st_bind, SetVerboseLevel_same. unfold file_output, reports_of, linted.
  destruct (read_text filename) as [text|]; cbn [fmap option_fmap option_map].
  2: { intros [= <- <-]. split; [done|]. exists []. by split; [apply reported_nil|]. }
  cbv zeta. rewrite st_bind. fold (ignored filename). change (bool_decide (is_Some (Some text))) with true. cbn [andb].
  destruct (ignored filename).
  { intros [= <- <-]. split; [done|]. exists []. split; [|done]. apply reported_nil; [|done..]. cbn. by rewrite <-app_assoc. }
  match goal with |- context [let (_, _) := ?x in _] => destruct x as [r1 s1] eqn:E1 end. assert (Hk : ready s1 ∧ reports (λ x, r_file x = filename) s s1 ∧ ∀ e, r1 = Err e → expected e).
  { revert E1. apply (keeps_bind ready (reports _) expected); [by apply keeps_ProcessFileData| |done]. intros _. apply keeps_when. intros _.
    apply (keeps_Error _ (mkReport filename 0 "whitespace/newline" 1 _)); [|by left|done].
    apply (bool_decide_unpack _). vm_compute. exact Logic.I. }
  destruct Hk as (Hs1 & (rs & Hrs & HQ) & He). destruct r1 as [[]|e]; [|intros [= <- <-]; split; [done|by apply He]].
  intros [= <- <-]. split; [done|]. exists rs. split.
  - rewrite <-(app_nil_r rs) at 2. eapply reported_app; [exact Hrs|]. apply (write_reported _ s1).
  - split; [|done]. apply Forall_and. split; [exact HQ|apply Hrs].
Qed.
Lemma ProcessFiles_run filenames : ∀ s r s', ready s →
  for_each (λ f, level ← gets verbose_level; ProcessFile fuel read_text linesep keys items f level) filenames s = (r, s') →
  match r with
  | Ok _ => ∃ rss, reported (concat (zip_with (file_output (output_format s)) filenames rss)) (concat rss) s s' ∧ Forall2 (reports_of s) filenames rss
  | Err e => expected e
  end.
Proof.
  induction filenames as [|f fs IH]; intros s r s' Hs; cbn [for_each].
  { intros [= <- <-]. exists []. split; [|constructor]. by apply reported_nil; [rewrite app_nil_r|..]. }
  rewrite st_bind. destruct ((level ← gets verbose_level; _) s) as [r1 s1] eqn:E1. apply ProcessFile_run in E1 as [Hs1 H1]; [|done].
  destruct r1 as [[]|e]; [|by intros [= <- <-]]. destruct H1 as (rs & Hrs & HQ). intros Hr. apply IH in Hr; [|done].
  destruct r as [[]|e]; [|done]. destruct Hr as (rss & Hrss & HQs). assert (Hsame : same_options s s1) by apply Hrs.
  exists (rs :: rss). cbn [zip_with concat]. destruct (Hsame) as (_ & _ & _ & Hf). rewrite Hf in Hrss. split; [by eapply reported_app|].
  constructor; [done|]. apply (Forall2_impl _ _ _ _ HQs). intros f' rs' [H1 H2]. split; [|done].
  apply Forall_and in H1 as [H1 H3]. apply Forall_and. split; [done|]. by eapply same_options_ok.
Qed.

Lemma PrintErrorCounts_run s : PrintErrorCounts count_items s = (Ok tt,
  mkLint (verbose_level s) (error_count s) (filters s) (counting s) (errors_by_category s) (output_format s) (_error_suppressions s) (stderr s ++ count_output s)).
Proof.
  unfold PrintErrorCounts, count_output. rewrite st_bind. cbn [gets]. rewrite st_bind.
  assert (Hl : ∀ l t, for_each (λ '(category, count), write ("Category '" +:+ category +:+ "' errors found: " +:+ str_of_nat count +:+ nl_str)) l t =
    (Ok tt, mkLint (verbose_level t) (error_count t) (filters t) (counting t) (errors_by_category t) (output_format t) (_error_suppressions t)
      (stderr t ++ ((λ '(category, count), "Category '" +:+ category +:+ "' errors found: " +:+ str_of_nat count +:+ nl_str) <$> l)))).
  { induction l as [|[c n] l IH]; intros t; cbn [for_each]; [rewrite app_nil_r; by destruct t|]. rewrite st_bind. cbn [write modify].
    rewrite IH. cbn. by rewrite <-app_assoc. }
  rewrite Hl, st_bind. cbn [gets]. unfold write, modify. cbn. by rewrite <-app_assoc.
Qed.

(** C37: A run whose arguments are taken, with a level that is not negative, that gets
    through its files has a list of reports for each file, in the order of the files. It
    writes exactly these reports and the notices for the files, and then the counts: for
    a file that cannot be opened or has another extension there is a notice and no report.
    The reports are about their file and pass the filters and the level; the counts are
    those of the reports, and the program ends with status 1 when there is one and
    with 0 when there is none.  Otherwise, an index was out of range or a loop did
    not end. *)
Theorem cpplint_correct argv filenames s s1 r s' :
  ParseArguments argv s = (Ok filenames, s1) → (0 <= verbose_level s1)%Z →
  main fuel read_text linesep keys items count_items argv s = (r, s') →
  r = Err IndexError ∨ r = Err OutOfFuel ∨
  ∃ rss, let rs := concat rss in
    r = Err (SystemExit (if bool_decide (rs = []) then 0 else 1)) ∧
    Forall2 (reports_of s1) filenames rss ∧
    stderr s' = stderr s1 ++ concat (zip_with (file_output (output_format s1)) filenames rss) ++ count_output s' ∧
    error_count s' = length rs ∧
    (∀ k, default 0 (errors_by_category s' !! k) = in_category s1 k rs).
Proof.
  intros Hp Hv. assert (Hgood := ParseArguments_good _ _ _ _ Hp). unfold main. rewrite st_bind, Hp. rewrite st_bind. cbn [ResetErrorCounts modify]. rewrite st_bind.
  set (s2 := with_counts s1 0 ∅). assert (Hs2 : ready s2) by (by split).
  destruct (for_each _ filenames s2) as [r3 s3] eqn:E3. apply ProcessFiles_run in E3; [|done].
  destruct r3 as [[]|e]; [|intros [= <- <-]; destruct E3 as [->| ->]; auto]. destruct E3 as (rss & (Hout & Hn & Hk & Hok & Hsame) & HQ).
  rewrite st_bind, PrintErrorCounts_run, st_bind. cbn [gets throw]. intros [= <- <-]. right. right. exists rss. cbv zeta.
  cbn [error_count stderr errors_by_category s2 with_counts Nat.add] in *. split_and!.
  - rewrite Hn. by destruct (concat rss).
  - exact HQ.
  - by rewrite Hout, <-app_assoc.
  - exact Hn.
  - intros k. rewrite Hk, lookup_empty. cbn. by apply same_options_key.
Qed.
End Main.

(** ** Examples *)

(** No checkout, no header; one file. *)
#[local] Instance no_files : Files := {| path_exists := λ _, false; abspath := λ f, "/w/" +:+ f; read_lines := λ _, None |}.
Definition example_file : list string := ["// Copyright"; "int f(int a){"; "  short b;"; "}"; ""].
Definition example_text (f : string) : option string := if f =s "a.cc" then Some (join nl_str example_file) else None.
Lemma ProcessFileData_reports_witness :
  ∃ rs, stderr (ProcessFileData 9 Error (λ _, []) (λ _, []) "a.cc" "cc" example_file _CppLintState).2 =
      (report_text "emacs" <$> rs) ∧ length rs = 2.
Proof.
  destruct (ProcessFileData_reports 9 (λ _, []) (λ _, []) "a.cc" "cc" example_file _CppLintState
    (ProcessFileData 9 Error (λ _, []) (λ _, []) "a.cc" "cc" example_file _CppLintState).1
    (ProcessFileData 9 Error (λ _, []) (λ _, []) "a.cc" "cc" example_file _CppLintState).2) as [(rs & Hs & _ & Hn & _) _].
  - reflexivity.
  - discriminate.
  - by destruct (ProcessFileData _ _ _ _ _ _ _ _).
  - exists rs. split; [exact Hs|]. etrans; [symmetry; exact Hn|vm_compute; reflexivity].
Defined.
Definition example_main (argv : list string) : res unit * Lint :=
  main 9 example_text nl_str (λ _, []) (λ _, []) map_to_list argv _CppLintState.
Lemma ParseArguments_valid_witness :
  let '(r, s') := ParseArguments ["--filter=-whitespace"; "a.cc"] _CppLintState in
  r = Ok ["a.cc"] ∧ (∃ used, ["--filter=-whitespace"; "a.cc"] = used ++ ["a.cc"]) ∧ options_set [("--filter", "-whitespace")] _CppLintState s'.
Proof. exact (ParseArguments_valid ["--filter=-whitespace"; "a.cc"] _CppLintState _ _ eq_refl). Defined.
(** The example of the usage text; and a message with confidence 0. *)
Example documented_filter_refused :
  (ParseArguments ["--filter=whitespace,runtime/printf,+runtime/printf_format"; "a.cc"] _CppLintState).1 = Err ValueError.
Proof. vm_compute. reflexivity. Qed.
Example confidence_zero :
  stderr (CheckForHeaderGuard 9 Error "a.h" ["#ifndef _W_A_H__"; "#define _W_A_H__"; "#endif  // _W_A_H_"] (SetVerboseLevel 0 _CppLintState).2).2 =
  ["a.h:0:  #ifndef header guard has wrong style, please use: _W_A_H_  [build/header_guard] [0]" +:+ nl_str].
Proof. vm_compute. reflexivity. Qed.
Lemma cpplint_correct_witness :
  ∃ rss, (example_main ["--verbose=2"; "a.cc"; "b.cc"; "c.py"]).1 = Err (SystemExit 1) ∧ length (concat rss) = 2 ∧
    stderr (example_main ["--verbose=2"; "a.cc"; "b.cc"; "c.py"]).2 =
      concat (zip_with (file_output example_text "emacs") ["a.cc"; "b.cc"; "c.py"] rss) ++ ["Total errors found: 2" +:+ nl_str].
Proof.
  destruct (cpplint_correct 9 example_text nl_str (λ _, []) (λ _, []) map_to_list ["--verbose=2"; "a.cc"; "b.cc"; "c.py"] ["a.cc"; "b.cc"; "c.py"] _CppLintState
    (ParseArguments ["--verbose=2"; "a.cc"; "b.cc"; "c.py"] _CppLintState).2 (example_main ["--verbose=2"; "a.cc"; "b.cc"; "c.py"]).1
    (example_main ["--verbose=2"; "a.cc"; "b.cc"; "c.py"]).2) as [H|[H|(rss & Hr & _ & Ho & Hn & _)]].
  - vm_compute. reflexivity.
  - apply Z.leb_le. vm_compute. reflexivity.
  - unfold example_main. by destruct (main _ _ _ _ _ _ _ _).
  - vm_compute in H. discriminate.
  - vm_compute in H. discriminate.
  - exists rss. split_and!; [vm_compute; reflexivity|etrans; [symmetry; exact Hn|vm_compute; reflexivity]|].
    etrans; [exact Ho|]. cbn [app]. do 2 f_equal. all: vm_compute; reflexivity.
Defined.
