(* ===== verification/ClTokens.v ===== *)
(** * Tokens (tools/closure_linter: common/tokens.py, javascripttokens.py, tokenutil.py)

    Tokens are objects that are linked in both directions; a token is a number, the
    heap gives its fields.  The metadata of a token names the last token of code before
    it, and the functions that insert and delete tokens keep that up to date. *)
From S2P Require Import Prelude PyStr PyState.

(** ** Types of tokens *)

Inductive TokenType :=
| NORMAL | WHITESPACE | BLANK_LINE | NUMBER | START_SINGLE_LINE_COMMENT | START_BLOCK_COMMENT | START_DOC_COMMENT
| END_BLOCK_COMMENT | END_DOC_COMMENT | COMMENT | SINGLE_QUOTE_STRING_START | SINGLE_QUOTE_STRING_END
| DOUBLE_QUOTE_STRING_START | DOUBLE_QUOTE_STRING_END | STRING_TEXT | START_BLOCK | END_BLOCK | START_PAREN | END_PAREN
| START_BRACKET | END_BRACKET | REGEX | FUNCTION_DECLARATION | FUNCTION_NAME | START_PARAMETERS | PARAMETERS_
| END_PARAMETERS | SEMICOLON | DOC_FLAG | DOC_INLINE_FLAG | DOC_START_BRACE | DOC_END_BRACE | DOC_PREFIX | SIMPLE_LVALUE
| KEYWORD | OPERATOR | IDENTIFIER.
#[export] Instance TokenType_eq_dec : EqDecision TokenType.
Proof. solve_decision. Defined.

Definition STRING_TYPES : list TokenType :=
  [SINGLE_QUOTE_STRING_START; SINGLE_QUOTE_STRING_END; DOUBLE_QUOTE_STRING_START; DOUBLE_QUOTE_STRING_END; STRING_TEXT].
Definition COMMENT_TYPES : list TokenType :=
  [START_SINGLE_LINE_COMMENT; COMMENT; START_BLOCK_COMMENT; START_DOC_COMMENT; END_BLOCK_COMMENT; END_DOC_COMMENT;
   DOC_START_BRACE; DOC_END_BRACE; DOC_FLAG; DOC_INLINE_FLAG; DOC_PREFIX].
Definition FLAG_DESCRIPTION_TYPES : list TokenType := [DOC_INLINE_FLAG; COMMENT; DOC_START_BRACE; DOC_END_BRACE].
Definition FLAG_ENDING_TYPES : list TokenType := [DOC_FLAG; END_DOC_COMMENT].
Definition NON_CODE_TYPES : list TokenType := COMMENT_TYPES ++ [WHITESPACE; BLANK_LINE].
Definition UNARY_OPERATORS : list string := ["!"; "new"; "delete"; "typeof"; "void"].
Definition UNARY_OK_OPERATORS : list string := ["--"; "++"; "-"; "+"] ++ UNARY_OPERATORS.
Definition UNARY_POST_OPERATORS : list string := ["--"; "++"].
Definition EXPRESSION_ENDER_TYPES : list TokenType :=
  [NORMAL; IDENTIFIER; NUMBER; SIMPLE_LVALUE; END_BRACKET; END_PAREN; END_BLOCK; SINGLE_QUOTE_STRING_END; DOUBLE_QUOTE_STRING_END].

(** ** Tokens *)

Inductive OperatorType := UNARY_OPERATOR | UNARY_POST_OPERATOR | BINARY_OPERATOR | TERNARY_OPERATOR.
#[export] Instance OperatorType_eq_dec : EqDecision OperatorType.
Proof. solve_decision. Defined.
(** [EcmaMetaData]; tokens and contexts are numbers. *)
Record MetaData := mkMeta {
  last_code : option nat;
  context : option nat;
  operator_type : option OperatorType;
  is_implied_semicolon : bool;
  is_implied_block : bool;
  is_implied_block_close : bool }.
Record Token := mkToken {
  type : TokenType;
  string_ : string;
  length_ : nat;
  line : string;
  line_number : Z;
  values : option (list (string * option string));
  previous : option nat;
  next : option nat;
  start_index : option nat;
  metadata : option MetaData }.

Definition new_Token (s : string) (t : TokenType) (l : string) (n : Z) v : Token :=
  mkToken t s (String.length s) l n v None None None None.

Definition set_previous (t : Token) p : Token :=
  mkToken (type t) (string_ t) (length_ t) (line t) (line_number t) (values t) p (next t) (start_index t) (metadata t).
Definition set_next (t : Token) n : Token :=
  mkToken (type t) (string_ t) (length_ t) (line t) (line_number t) (values t) (previous t) n (start_index t) (metadata t).
Definition set_start (t : Token) s : Token :=
  mkToken (type t) (string_ t) (length_ t) (line t) (line_number t) (values t) (previous t) (next t) s (metadata t).
Definition set_meta (t : Token) m : Token :=
  mkToken (type t) (string_ t) (length_ t) (line t) (line_number t) (values t) (previous t) (next t) (start_index t) m.
Definition set_string (t : Token) s : Token :=
  mkToken (type t) s (length_ t) (line t) (line_number t) (values t) (previous t) (next t) (start_index t) (metadata t).
Definition set_line_number (t : Token) n : Token :=
  mkToken (type t) (string_ t) (length_ t) (line t) n (values t) (previous t) (next t) (start_index t) (metadata t).
Definition with_last_code (m : MetaData) c : MetaData :=
  mkMeta c (context m) (operator_type m) (is_implied_semicolon m) (is_implied_block m) (is_implied_block_close m).

Definition IsType (t : Token) (ty : TokenType) : bool := bool_decide (type t = ty).
Definition IsAnyType (t : Token) (tys : list TokenType) : bool := bool_decide (type t ∈ tys).
Definition IsKeyword (t : Token) (k : string) : bool := bool_decide (type t = KEYWORD) && (string_ t =s k).
Definition IsOperator (t : Token) (o : string) : bool := bool_decide (type t = OPERATOR) && (string_ t =s o).
Definition IsAssignment (t : Token) : bool :=
  bool_decide (type t = OPERATOR) && endswith "=" (string_ t) && negb (bool_decide (string_ t ∈ ["=="; "!="; ">="; "<="; "==="; "!=="])).
Definition IsComment (t : Token) : bool := bool_decide (type t ∈ COMMENT_TYPES).
Definition IsCode (t : Token) : bool := negb (bool_decide (type t ∈ NON_CODE_TYPES)).

(** ** The heap *)

Abbreviation Heap := (list Token).
Definition get (i : nat) : ST Heap Token :=
  o ← gets (λ h : Heap, (h !! i : option Token)); match o with Some t => mret t | None => throw AttributeError end.
Definition get_meta (i : nat) : ST Heap MetaData :=
  t ← get i; match metadata t with Some m => mret m | None => throw AttributeError end.
Definition upd (i : nat) (f : Token → Token) : ST Heap unit := modify (λ h : Heap, alter f i h).
Definition alloc (t : Token) : ST Heap nat := n ← gets (λ h : Heap, length h); modify (λ h : Heap, h ++ [t]);; mret n.

Definition IsFirstInLine (i : nat) : ST Heap bool :=
  t ← get i;
  match previous t with
  | None => mret true
  | Some p => p ← get p; mret (negb (line_number p =? line_number t)%Z)
  end.
Definition IsLastInLine (i : nat) : ST Heap bool :=
  t ← get i;
  match next t with
  | None => mret true
  | Some n => n ← get n; mret (negb (line_number n =? line_number t)%Z)
  end.

(** ** tokenutil.py *)

Fixpoint first_in_line (fuel : nat) (i : nat) : ST Heap nat :=
  match fuel with
  | 0 => throw OutOfFuel
  | S n =>
      b ← IsFirstInLine i;
      if (b : bool) then mret i else t ← get i; match previous t with Some p => first_in_line n p | None => throw AttributeError end
  end.
(** Rounds that are enough for a walk along the tokens. *)
Definition all_rounds (h : Heap) : nat := S (length h).
Definition GetFirstTokenInSameLine (i : nat) : ST Heap nat := n ← gets all_rounds; first_in_line n i.

(** [distance] counts down to 0; a walk in either direction follows [step]. *)
Fixpoint custom_search (fuel : nat) (step : Token → option nat) (func end_func : Token → bool) (distance : option nat)
    (token : option nat) : ST Heap (option nat) :=
  match fuel with
  | 0 => throw OutOfFuel
  | S n =>
      match token, distance with
      | None, _ | _, Some 0 => mret None
      | Some i, _ =>
          t ← get i;
          let again := custom_search n step func end_func (pred <$> distance) (step t) in
          match step t with
          | None => again
          | Some j => u ← get j; if func u then mret (Some j) else if end_func u then mret None else again
          end
      end
  end.
Definition CustomSearch (start_token : nat) func end_func distance (reverse : bool) : ST Heap (option nat) :=
  n ← gets all_rounds; custom_search (S n) (if reverse then previous else next) func end_func distance (Some start_token).
Definition Search (i : nat) (tys : list TokenType) distance reverse : ST Heap (option nat) :=
  CustomSearch i (λ t, IsAnyType t tys) (λ _, false) distance reverse.
Definition SearchExcept (i : nat) (tys : list TokenType) distance reverse : ST Heap (option nat) :=
  CustomSearch i (λ t, negb (IsAnyType t tys)) (λ _, false) distance reverse.
Definition SearchUntil (i : nat) (tys end_types : list TokenType) distance reverse : ST Heap (option nat) :=
  CustomSearch i (λ t, IsAnyType t tys) (λ t, IsAnyType t end_types) distance reverse.

(** [while following_token and following_token.metadata.last_code == old] *)
Fixpoint relink (fuel : nat) (following : option nat) (old : nat) (new : option nat) : ST Heap unit :=
  match fuel with
  | 0 => throw OutOfFuel
  | S n =>
      match following with
      | None => mret tt
      | Some f =>
          m ← get_meta f;
          if bool_decide (last_code m = Some old) then
            upd f (λ t, set_meta t (Some (with_last_code m new)));;
            t ← get f; relink n (next t) old new
          else mret tt
      end
  end.
Definition DeleteToken (token : nat) : ST Heap unit :=
  t ← get token;
  match previous t with Some p => upd p (λ q, set_next q (next t)) | None => mret tt end;;
  match next t with
  | None => mret tt
  | Some n =>
      upd n (λ q, set_previous q (previous t));;
      r ← gets all_rounds;
      m ← get_meta n;
      if bool_decide (last_code m = Some token) then mt ← get_meta token; relink r (Some n) token (last_code mt) else mret tt
  end.
Fixpoint delete_next (k token : nat) : ST Heap unit :=
  match k with
  | 0 => mret tt
  | S k' => t ← get token; match next t with Some n => DeleteToken n;; delete_next k' token | None => throw AttributeError end
  end.
Definition DeleteTokens (token tokenCount : nat) : ST Heap unit := delete_next (tokenCount - 1) token;; DeleteToken token.

(** [iterator.start_index += n] for the rest of the line. *)
Fixpoint shift_line (fuel : nat) (iterator : option nat) (num : Z) (k : nat) : ST Heap unit :=
  match fuel with
  | 0 => throw OutOfFuel
  | S n =>
      match iterator with
      | None => mret tt
      | Some i =>
          t ← get i;
          if (line_number t =? num)%Z then
            match start_index t with
            | Some s => upd i (λ t, set_start t (Some (s + k)))
            | None => throw TypeError
            end;;
            shift_line n (next t) num k
          else mret tt
      end
  end.
Definition place (new_token token : nat) : ST Heap unit :=
  nt ← get new_token; t ← get token;
  match start_index nt with
  | Some _ => mret tt
  | None =>
      (if (line_number nt =? line_number t)%Z then
         match start_index t with
         | Some s => upd new_token (λ q, set_start q (Some (s + String.length (string_ t))))
         | None => throw TypeError
         end
       else upd new_token (λ q, set_start q (Some 0)));;
      r ← gets all_rounds;
      shift_line r (next nt) (line_number nt) (String.length (string_ nt))
  end.
Definition InsertTokenAfter (new_token token : nat) : ST Heap unit :=
  t ← get token;
  upd new_token (λ n, set_meta (set_next (set_previous n (Some token)) (next t)) (metadata t));;
  (if IsCode t then
     m ← get_meta new_token;
     upd new_token (λ n, set_meta n (Some (with_last_code m (Some token))))
   else mret tt);;
  nt ← get new_token;
  r ← gets all_rounds;
  (if IsCode nt then relink r (next t) token (Some new_token) else mret tt);;
  upd token (λ q, set_next q (Some new_token));;
  match next t with Some n => upd n (λ q, set_previous q (Some new_token)) | None => mret tt end;;
  place new_token token.

Definition InsertSpaceTokenAfter (token : nat) : ST Heap unit :=
  t ← get token; n ← alloc (new_Token " " WHITESPACE (line t) (line_number t) None); InsertTokenAfter n token.
Fixpoint lines_after (fuel : nat) (token : option nat) : ST Heap unit :=
  match fuel with
  | 0 => throw OutOfFuel
  | S n =>
      match token with
      | None => mret tt
      | Some i => t ← get i; upd i (λ t, set_line_number t (line_number t + 1)%Z);; lines_after n (next t)
      end
  end.
Definition InsertLineAfter (token : nat) : ST Heap unit :=
  t ← get token; n ← alloc (new_Token "" BLANK_LINE "" (line_number t + 1)%Z None); InsertTokenAfter n token;;
  b ← get n; r ← gets all_rounds; lines_after r (next b).
Definition SplitToken (token position : nat) : ST Heap nat :=
  t ← get token;
  upd token (λ t, set_string t (str_take position (string_ t)));;
  n ← alloc (new_Token (str_drop position (string_ t)) (type t) (line t) (line_number t) None);
  InsertTokenAfter n token;; mret n.
Definition Compare (t1 t2 : nat) : ST Heap Z :=
  a ← get t1; b ← get t2;
  if negb (line_number b =? line_number a)%Z then mret (line_number a - line_number b)%Z
  else match start_index a, start_index b with Some i, Some j => mret (Z.of_nat i - Z.of_nat j)%Z | _, _ => throw TypeError end.

(** ** Segments *)

Definition hd_or (l : list nat) (nn : option nat) : option nat := match l with [] => nn | i :: _ => Some i end.
Fixpoint last_or (pp : option nat) (l : list nat) : option nat := match l with [] => pp | i :: l' => last_or (Some i) l' end.
(** The tokens [l], linked; [pp] comes before them and [nn] after. *)
Fixpoint seg (h : Heap) (pp : option nat) (l : list nat) (nn : option nat) : Prop :=
  match l with
  | [] => True
  | i :: l' => ∃ t, h !! i = Some t ∧ previous t = pp ∧ next t = hd_or l' nn ∧ seg h (Some i) l' nn
  end.
(** The last token of code after [l], when it is [c] before. *)
Fixpoint code_after (h : Heap) (c : option nat) (l : list nat) : option nat :=
  match l with
  | [] => c
  | i :: l' => code_after h (match h !! i with Some t => if IsCode t then Some i else c | None => c end) l'
  end.
(** The metadata names the last token of code before. *)
Fixpoint coded (h : Heap) (c : option nat) (l : list nat) : Prop :=
  match l with
  | [] => True
  | i :: l' => ∃ t m, h !! i = Some t ∧ metadata t = Some m ∧ last_code m = c ∧ coded h (if IsCode t then Some i else c) l'
  end.
(** Where a token starts that comes after one that ends at [e] of line [n]. *)
Definition start_after (before : option (Z * nat)) (n : Z) : nat :=
  match before with Some (k, e) => if (k =? n)%Z then e else 0 | None => 0 end.
Fixpoint placed (h : Heap) (before : option (Z * nat)) (l : list nat) : Prop :=
  match l with
  | [] => True
  | i :: l' => ∃ t, h !! i = Some t ∧ start_index t = Some (start_after before (line_number t)) ∧
      placed h (Some (line_number t, start_after before (line_number t) + String.length (string_ t))) l'
  end.

Lemma hd_or_app l1 l2 nn : hd_or (l1 ++ l2) nn = hd_or l1 (hd_or l2 nn).
Proof. by destruct l1. Qed.
Lemma seg_app h pp l1 l2 nn : seg h pp (l1 ++ l2) nn ↔ seg h pp l1 (hd_or l2 nn) ∧ seg h (last_or pp l1) l2 nn.
Proof.
  revert pp. induction l1 as [|i l1 IH]; intros pp; cbn [seg app last_or]; [naive_solver|]. setoid_rewrite IH. rewrite hd_or_app. naive_solver.
Qed.
Lemma coded_app h c l1 l2 : coded h c (l1 ++ l2) ↔ coded h c l1 ∧ coded h (code_after h c l1) l2.
Proof.
  revert c. induction l1 as [|i l1 IH]; intros c; cbn [coded app code_after]; [naive_solver|]. setoid_rewrite IH. split.
  - intros (t & m & Ht & Hm & Hc & H1 & H2). rewrite Ht. split; [by exists t, m|done].
  - intros [(t & m & Ht & Hm & Hc & H1) H2]. rewrite Ht in H2. by exists t, m.
Qed.
Lemma seg_ext h h' pp l nn :
  (∀ i, i ∈ l → (λ t, (previous t, next t)) <$> h' !! i = (λ t, (previous t, next t)) <$> h !! i) → seg h pp l nn → seg h' pp l nn.
Proof.
  revert pp. induction l as [|i l IH]; intros pp H; [done|]. intros (t & Ht & Hp & Hn & Hs). assert (Hi := H i ltac:(left)). rewrite Ht in Hi.
  destruct (h' !! i) as [t'|] eqn:E; [|done]. injection Hi as H1 H2. exists t'. split_and!; [done|congruence|congruence|]. apply IH; [|done]. intros j Hj. apply H. by right.
Qed.
Lemma code_after_ext h h' c l : (∀ i, i ∈ l → IsCode <$> h' !! i = IsCode <$> h !! i) → code_after h' c l = code_after h c l.
Proof.
  revert c. induction l as [|i l IH]; intros c H; [done|]. cbn [code_after]. rewrite IH by (intros j Hj; apply H; by right). f_equal.
  assert (Hi := H i ltac:(left)). destruct (h !! i), (h' !! i); cbn in *; try done. by injection Hi as ->.
Qed.
Lemma coded_ext h h' c l :
  (∀ i, i ∈ l → (λ t, (IsCode t, last_code <$> metadata t)) <$> h' !! i = (λ t, (IsCode t, last_code <$> metadata t)) <$> h !! i) →
  coded h c l → coded h' c l.
Proof.
  revert c. induction l as [|i l IH]; intros c H; [done|]. intros (t & m & Ht & Hm & Hc & Hs). assert (Hi := H i ltac:(left)). rewrite Ht in Hi. cbn in Hi.
  destruct (h' !! i) as [t'|] eqn:E; [|done]. cbn in Hi. rewrite Hm in Hi. cbn in Hi. injection Hi as H1 H2. cbn in H2. destruct (metadata t') as [m'|] eqn:Hm'; [|done].
  injection H2 as H2. exists t', m'. split_and!; [done|done|congruence|]. rewrite H1. apply IH; [|done]. intros j Hj. apply H. by right.
Qed.
Lemma seg_in h pp l nn i : seg h pp l nn → i ∈ l → is_Some (h !! i).
Proof.
  revert pp. induction l as [|j l IH]; intros pp; [by intros _ ?%elem_of_nil|]. intros (t & Ht & _ & _ & Hs) [-> | Hi]%elem_of_cons; [by eexists|by eapply IH].
Qed.
Lemma seg_length h pp l nn : NoDup l → seg h pp l nn → length l ≤ length h.
Proof.
  intros Hd Hs. assert (H : l ⊆+ seq 0 (length h)).
  { apply NoDup_submseteq; [done|]. intros i Hi. apply elem_of_seq. destruct (seg_in _ _ _ _ _ Hs Hi) as [t Ht]. apply lookup_lt_Some in Ht. lia. }
  apply submseteq_length in H. by rewrite length_seq in H.
Qed.

(** ** The walks *)

Lemma get_run h i t : h !! i = Some t → get i h = (Ok t, h).
Proof. intros H. unfold get, gets. rewrite st_bind. by rewrite H. Qed.
Lemma get_meta_run h i t m : h !! i = Some t → metadata t = Some m → get_meta i h = (Ok m, h).
Proof. intros H Hm. unfold get_meta. rewrite st_bind, (get_run _ _ _ H). by rewrite Hm. Qed.

(** Only the links to code differ. *)
Definition same_but_code (h h' : Heap) : Prop :=
  ∀ i, (λ t, set_meta t None) <$> h' !! i = (λ t, set_meta t None) <$> h !! i.
Lemma relink_spec old new l : ∀ fuel h pp,
  length l < fuel → NoDup l → seg h pp l None → coded h (Some old) l → old ∉ l → (∀ i, new = Some i → i ∉ l) →
  ∃ h', relink fuel (hd_or l None) old new h = (Ok tt, h') ∧ coded h' new l ∧ same_but_code h h' ∧ ∀ i, i ∉ l → h' !! i = h !! i.
Proof.
  induction l as [|i l IH]; intros fuel h pp Hf Hd Hs Hc Ho Hn.
  - destruct fuel; [cbn in Hf; lia|]. by exists h.
  - destruct fuel as [|fuel]; [cbn in Hf; lia|]. destruct Hs as (t & Ht & Hp & Hnx & Hs). destruct Hc as (t' & m & Ht' & Hm & Hlc & Hc). simplify_eq.
    cbn [hd_or relink]. rewrite st_bind, (get_meta_run _ _ _ _ Ht Hm). rewrite bool_decide_eq_true_2 by done.
    set (f := λ t, set_meta t (Some (with_last_code m new))). rewrite st_bind. unfold upd, modify. set (h1 := alter f i h).
    assert (H1 : h1 !! i = Some (f t)) by (unfold h1; by rewrite list_lookup_alter_eq, Ht).
    assert (H1n : ∀ j, j ≠ i → h1 !! j = h !! j) by (intros j Hj; unfold h1; by rewrite list_lookup_alter_ne).
    rewrite st_bind, (get_run _ _ _ H1). cbn [f set_meta next]. rewrite Hnx. apply NoDup_cons in Hd as [Hil Hd].
    assert (Hsb : same_but_code h h1).
    { intros j. destruct (decide (j = i)) as [->|Hj]; [by rewrite H1, Ht|by rewrite H1n]. }
    destruct (IsCode t) eqn:Ecode.
    + destruct l as [|j l].
      * exists h1. split_and!; [|exists (f t); eexists; by rewrite H1|done|]; [destruct fuel; [cbn in Hf; lia|done]|]. intros j Hj. apply H1n. set_solver.
      * destruct Hc as (tj & mj & Htj & Hmj & Hlj & Hc). exists h1. split_and!; [| |done|].
        -- destruct fuel; [cbn in Hf; lia|]. cbn [hd_or relink]. assert (Hj : h1 !! j = Some tj) by (rewrite H1n; [done|set_solver]).
           rewrite st_bind, (get_meta_run _ _ _ _ Hj Hmj), Hlj. rewrite bool_decide_eq_false_2; [done|]. intros [= ->]. set_solver.
        -- exists (f t). eexists. rewrite H1. split_and!; [done|done|done|]. change (IsCode (f t)) with (IsCode t). rewrite Ecode.
           apply (coded_ext h); [intros k Hk; rewrite H1n; [done|intros ->; set_solver]|]. by exists tj, mj.
        -- intros k Hk. apply H1n. set_solver.
    + destruct (IH fuel h1 (Some i)) as (h2 & E & Hc2 & Hs2 & Ho2); try done.
      * cbn in Hf. lia.
      * apply (seg_ext h); [|done]. intros j Hj. rewrite H1n; [done|set_solver].
      * apply (coded_ext h); [|done]. intros j Hj. rewrite H1n; [done|set_solver].
      * set_solver.
      * intros k Hk. specialize (Hn k Hk). set_solver.
      * exists h2. split_and!; [done| |by intros k; rewrite Hs2, Hsb|].
        -- exists (f t). eexists. rewrite Ho2, H1 by done. split_and!; [done|done|done|]. change (IsCode (f t)) with (IsCode t). by rewrite Ecode.
        -- intros k Hk. rewrite Ho2 by set_solver. apply H1n. set_solver.
Qed.
Lemma placed_ext h h' b l :
  (∀ i, i ∈ l → (λ t, (line_number t, start_index t, string_ t)) <$> h' !! i = (λ t, (line_number t, start_index t, string_ t)) <$> h !! i) →
  placed h b l → placed h' b l.
Proof.
  revert b. induction l as [|i l IH]; intros b H; [done|]. intros (t & Ht & Hst & Hp). assert (Hi := H i ltac:(left)). rewrite Ht in Hi.
  destruct (h' !! i) as [t'|] eqn:E; [|done]. injection Hi as H1 H2 H3. exists t'. rewrite H1, H2, H3. split_and!; [done|done|].
  apply IH; [|done]. intros j Hj. apply H. by right.
Qed.
Definition same_but_start (h h' : Heap) : Prop :=
  ∀ i, (λ t, set_start t None) <$> h' !! i = (λ t, set_start t None) <$> h !! i.
Lemma shift_spec num d l : ∀ fuel h pp e,
  length l < fuel → NoDup l → seg h pp l None → placed h (Some (num, e)) l →
  ∃ h', shift_line fuel (hd_or l None) num d h = (Ok tt, h') ∧ placed h' (Some (num, e + d)) l ∧ same_but_start h h' ∧ ∀ i, i ∉ l → h' !! i = h !! i.
Proof.
  induction l as [|i l IH]; intros fuel h pp e Hf Hd Hs Hp; (destruct fuel as [|fuel]; [cbn in Hf; lia|]); [by exists h|].
  destruct Hs as (t & Ht & _ & Hnx & Hs). destruct Hp as (t' & Ht' & Hst & Hp). simplify_eq. cbn [start_after] in Hst, Hp.
  cbn [hd_or shift_line]. rewrite st_bind, (get_run _ _ _ Ht). apply NoDup_cons in Hd as [Hil Hd].
  destruct (num =? line_number t)%Z eqn:E.
  - apply Z.eqb_eq in E as ->. rewrite Z.eqb_refl, Hst, st_bind. unfold upd, modify.
    set (f := λ t, set_start t (Some (e + d))). set (h1 := alter f i h).
    assert (H1 : h1 !! i = Some (f t)) by (unfold h1; by rewrite list_lookup_alter_eq, Ht).
    assert (H1n : ∀ j, j ≠ i → h1 !! j = h !! j) by (intros j Hj; unfold h1; by rewrite list_lookup_alter_ne).
    assert (Hil' : ∀ j, j ∈ l → j ≠ i) by (intros j Hj ->; done). rewrite Hnx.
    destruct (IH fuel h1 (Some i) (e + String.length (string_ t))) as (h2 & E2 & Hp2 & Hs2 & Ho2); [cbn in Hf; lia|done| | |].
    { apply (seg_ext h); [|done]. intros j Hj. by rewrite H1n by auto. }
    { apply (placed_ext h); [|done]. intros j Hj. by rewrite H1n by auto. }
    exists h2. split_and!; [done| | |].
    + exists (f t). rewrite Ho2, H1 by done. cbn [start_after]. rewrite Z.eqb_refl. split_and!; [done|done|]. cbn [f set_start line_number string_].
      by replace (e + d + String.length (string_ t)) with (e + String.length (string_ t) + d) by lia.
    + intros j. rewrite Hs2. destruct (decide (j = i)) as [->|Hj]; [by rewrite H1, Ht|by rewrite H1n].
    + intros j Hj. rewrite Ho2 by set_solver. apply H1n. set_solver.
  - rewrite Z.eqb_sym, E. exists h. split_and!; [done| |done|done]. exists t. cbn [start_after]. rewrite E. by split_and!.
Qed.

(** ** The stream of tokens *)

Record stream (h : Heap) (l : list nat) : Prop := {
  st_nodup : NoDup l;
  st_seg : seg h None l None;
  st_coded : coded h None l;
  st_placed : placed h None l }.

Definition text_of (h : Heap) (i : nat) : option (TokenType * string * Z) := (λ t, (type t, string_ t, line_number t)) <$> h !! i.

Lemma code_after_code h c l x t : h !! x = Some t → IsCode t = true → code_after h c (l ++ [x]) = Some x.
Proof.
  intros Hx Hc. revert c. induction l as [|i l IH]; intros c; cbn [app code_after]; [by rewrite Hx, Hc|apply IH].
Qed.

Definition link_next (x n : nat) (h : Heap) : Heap := alter (λ q, set_next q (Some n)) x h.
Definition link_previous (o : option nat) (p : option nat) (h : Heap) : Heap :=
  match o with Some j => alter (λ q, set_previous q p) j h | None => h end.
Lemma link_previous_seg h pp p l nn :
  NoDup l → seg h pp l nn → seg (link_previous (hd_or l None) p h) (match l with [] => pp | _ => p end) l nn.
Proof.
  destruct l as [|j l]; [done|]. intros [Hj _]%NoDup_cons (t & Ht & _ & Hn & Hs). cbn [hd_or link_previous].
  exists (set_previous t p). rewrite list_lookup_alter_eq, Ht. split_and!; [done|done|done|].
  apply (seg_ext h); [|done]. intros k Hk. rewrite list_lookup_alter_ne; [done|]. by intros ->.
Qed.
Lemma link_previous_other h o p i : o ≠ Some i → link_previous o p h !! i = h !! i.
Proof. destruct o as [j|]; [|done]. intros Hj. cbn. rewrite list_lookup_alter_ne; [done|]. by intros ->. Qed.
(** A token that points to its neighbours is put between them. *)
Lemma link_in h l1 x n l2 nt :
  NoDup (l1 ++ x :: n :: l2) → seg h None (l1 ++ x :: l2) None → h !! n = Some nt → previous nt = Some x → next nt = hd_or l2 None →
  seg (link_previous (hd_or l2 None) (Some n) (link_next x n h)) None (l1 ++ x :: n :: l2) None.
Proof.
  intros Hd Hs Hn Hp Hx. apply NoDup_app in Hd as (Hd1 & Hd12 & Hd2). apply NoDup_cons in Hd2 as [Hxn Hd2]. apply NoDup_cons in Hd2 as [Hnl Hd2].
  apply seg_app in Hs as [H1 (t & Ht & Hpt & Hnt & H2)]. cbn [hd_or] in H1.
  assert (Hl1 : ∀ i, i ∈ l1 ++ [x; n] → hd_or l2 None ≠ Some i).
  { intros i Hi E. destruct l2 as [|j l2]; [done|]. injection E as ->. apply elem_of_app in Hi as [Hi|Hi].
    - apply (Hd12 i Hi). set_solver.
    - set_solver. }
  apply seg_app. cbn [hd_or]. split.
  - apply (seg_ext h); [|done]. intros i Hi. rewrite link_previous_other by (apply Hl1; set_solver). unfold link_next.
    rewrite list_lookup_alter_ne; [done|]. intros ->. apply (Hd12 i Hi). set_solver.
  - cbn [seg hd_or]. exists (set_next t (Some n)). rewrite link_previous_other by (apply Hl1; set_solver). unfold link_next at 1.
    rewrite list_lookup_alter_eq, Ht. split_and!; [done|done|done|]. exists nt.
    rewrite link_previous_other by (apply Hl1; set_solver). unfold link_next at 1. rewrite list_lookup_alter_ne by set_solver. split_and!; [done..|].
    assert (H3 := link_previous_seg (link_next x n h) (Some x) (Some n) l2 None Hd2). destruct l2 as [|j l2]; [done|]. apply H3.
    apply (seg_ext h); [|done]. intros i Hi. unfold link_next. rewrite list_lookup_alter_ne; [done|]. intros ->. set_solver.
Qed.

(** Where the text ends. *)
Fixpoint end_after (h : Heap) (b : option (Z * nat)) (l : list nat) : option (Z * nat) :=
  match l with
  | [] => b
  | i :: l' => end_after h (match h !! i with
      | Some t => Some (line_number t, start_after b (line_number t) + String.length (string_ t)) | None => b end) l'
  end.
Lemma placed_app h b l1 l2 : placed h b (l1 ++ l2) ↔ placed h b l1 ∧ placed h (end_after h b l1) l2.
Proof.
  revert b. induction l1 as [|i l1 IH]; intros b; cbn [placed app end_after]; [naive_solver|]. setoid_rewrite IH. split.
  - intros (t & Ht & Hst & H1 & H2). rewrite Ht. split; [by exists t|done].
  - intros [(t & Ht & Hst & H1) H2]. rewrite Ht in H2. by exists t.
Qed.
Lemma end_after_ext h h' b l :
  (∀ i, i ∈ l → (λ t, (line_number t, string_ t)) <$> h' !! i = (λ t, (line_number t, string_ t)) <$> h !! i) → end_after h' b l = end_after h b l.
Proof.
  revert b. induction l as [|i l IH]; intros b H; [done|]. cbn [end_after]. rewrite IH by (intros j Hj; apply H; by right). f_equal.
  assert (Hi := H i ltac:(left)). destruct (h !! i), (h' !! i); cbn in *; try done. by injection Hi as -> ->.
Qed.
Lemma same_start_fields h h' i : same_but_start h h' →
  (λ t, (line_number t, string_ t)) <$> h' !! i = (λ t, (line_number t, string_ t)) <$> h !! i.
Proof. intros H. specialize (H i). revert H. destruct (h !! i), (h' !! i); cbn; try done. intros H. injection H. congruence. Qed.
(** The new token and the rest of its line get their places. *)
Lemma place_spec h l1 x n l2 xt nt :
  NoDup (l1 ++ x :: n :: l2) → seg h None (l1 ++ x :: n :: l2) None → placed h None (l1 ++ x :: l2) →
  h !! x = Some xt → h !! n = Some nt → start_index nt = None →
  (line_number nt = line_number xt ∨ ∀ j t, head l2 = Some j → h !! j = Some t → line_number t ≠ line_number xt) →
  ∃ h', place n x h = (Ok tt, h') ∧ placed h' None (l1 ++ x :: n :: l2) ∧ same_but_start h h'.
Proof.
  intros Hd Hs Hp Hx Hn Hst Hl. assert (Hd1 := Hd). apply NoDup_app in Hd1 as (_ & Hd12 & Hd2). apply NoDup_cons in Hd2 as [Hxn Hd2]. apply NoDup_cons in Hd2 as [Hnl Hd2].
  assert (Hs1 := Hs). apply seg_app in Hs1 as [_ (_ & _ & _ & _ & (t2 & Ht2 & _ & Hnx & Hs2))]. assert (t2 = nt) as -> by congruence. clear Ht2.
  apply placed_app in Hp as [Hp1 (t & Ht & Hsx & Hp2)]. assert (t = xt) as -> by congruence. clear Ht. set (b := end_after h None l1) in *.
  set (e := start_after b (line_number xt) + String.length (string_ xt)) in *.
  set (start := if (line_number nt =? line_number xt)%Z then e else 0).
  assert (Hp2' : placed h (Some (line_number nt, start)) l2).
  { unfold start. destruct (line_number nt =? line_number xt)%Z eqn:E; [by apply Z.eqb_eq in E as ->|]. apply Z.eqb_neq in E. destruct Hl as [|Hl]; [done|].
    destruct l2 as [|j l2]; [done|]. destruct Hp2 as (tj & Hj & Hsj & Hp2). cbn [start_after] in *. specialize (Hl j tj eq_refl Hj).
    assert (Hne : (line_number xt =? line_number tj)%Z = false) by (apply Z.eqb_neq; congruence). rewrite Hne in Hsj, Hp2.
    exists tj. cbn [start_after]. by destruct (line_number nt =? line_number tj)%Z. }
  set (f := λ q, set_start q (Some start)). set (h1 := alter f n h).
  assert (H1n : h1 !! n = Some (f nt)) by (unfold h1; by rewrite list_lookup_alter_eq, Hn).
  assert (H1o : ∀ i, i ≠ n → h1 !! i = h !! i) by (intros i Hi; unfold h1; by rewrite list_lookup_alter_ne).
  destruct (shift_spec (line_number nt) (String.length (string_ nt)) l2 (all_rounds h1) h1 (Some n) start) as (h2 & E2 & Hp3 & Hs3 & Ho3).
  { unfold all_rounds, h1. rewrite length_alter. assert (H := seg_length _ _ _ _ Hd2 Hs2). lia. }
  { done. }
  { apply (seg_ext h); [|done]. intros i Hi. rewrite H1o; [done|by intros ->]. }
  { apply (placed_ext h); [|done]. intros i Hi. rewrite H1o; [done|by intros ->]. }
  exists h2. split_and!.
  - unfold place. rewrite st_bind, (get_run _ _ _ Hn), st_bind, (get_run _ _ _ Hx), Hst, Hsx, st_bind.
    assert (Hstep : (if (line_number nt =? line_number xt)%Z then upd n (λ q, set_start q (Some (start_after b (line_number xt) + String.length (string_ xt)))) else upd n (λ q, set_start q (Some 0))) h = (Ok tt, h1)).
    { unfold h1, f, start, e. by destruct (_ =? _)%Z. }
    rewrite Hstep, st_bind. unfold gets. by rewrite Hnx.
  - apply placed_app. assert (Hl1 : ∀ i, i ∈ l1 → (i ∉ l2) ∧ i ≠ n) by (intros i Hi; specialize (Hd12 i Hi); set_solver). split.
    + apply (placed_ext h); [|done]. intros i Hi. rewrite Ho3, H1o by (by apply Hl1). done.
    + rewrite (end_after_ext h) by (intros i Hi; rewrite Ho3, H1o by (by apply Hl1); done). fold b. cbn [placed].
      exists xt. rewrite Ho3, H1o by set_solver. split_and!; [done|done|]. exists (f nt). rewrite Ho3, H1n by done. cbn [f set_start line_number start_index string_ start_after].
      rewrite Z.eqb_sym. split_and!; [done|done|]. exact Hp3.
  - intros i. rewrite Hs3. destruct (decide (i = n)) as [->|Hi]; [by rewrite H1n, Hn|by rewrite H1o].
Qed.

(** What two tokens agree on, they agree on a part of. *)
Lemma part {B D} (e : Token → B) (F : B → D) (o o' : option Token) : e <$> o' = e <$> o → (F ∘ e) <$> o' = (F ∘ e) <$> o.
Proof. intros H. by rewrite !option_fmap_compose, H. Qed.
Lemma fields_links (o o' : option Token) :
  (λ t, set_meta t None) <$> o' = (λ t, set_meta t None) <$> o → (λ t, (previous t, next t)) <$> o' = (λ t, (previous t, next t)) <$> o.
Proof. exact (part (λ t, set_meta t None) (λ t, (previous t, next t)) o o'). Qed.
Lemma link_fields o p x n h i :
  (λ t, set_next (set_previous t None) None) <$> link_previous o p (link_next x n h) !! i = (λ t, set_next (set_previous t None) None) <$> h !! i.
Proof.
  assert (H : ∀ f k (h0 : Heap), (∀ t, set_next (set_previous (f t) None) None = set_next (set_previous t None) None) →
    (λ t, set_next (set_previous t None) None) <$> alter f k h0 !! i = (λ t, set_next (set_previous t None) None) <$> h0 !! i).
  { intros f k h0 Hf. destruct (decide (i = k)) as [->|Hi]; [rewrite list_lookup_alter_eq; destruct (h0 !! k); [|done]; cbn; by rewrite Hf|by rewrite list_lookup_alter_ne]. }
  destruct o as [j|]; cbn [link_previous]; [rewrite H by done|]; by apply H.
Qed.

(** Inserting a token, up to its place: the tokens are linked in its heap [h3], which names the
    code before every token. *)
Lemma insert_code h l1 x l2 n xt nt :
  stream h (l1 ++ x :: l2) → n ∉ l1 ++ x :: l2 → NoDup (l1 ++ x :: n :: l2) → h !! x = Some xt → h !! n = Some nt → (IsCode nt = true → IsCode xt = true) →
  ∃ h3 m2, InsertTokenAfter n x h = place n x (link_previous (hd_or l2 None) (Some n) (link_next x n h3)) ∧
    h3 !! n = Some (set_meta (set_next (set_previous nt (Some x)) (hd_or l2 None)) (Some m2)) ∧ h3 !! x = Some xt ∧
    (∀ i, i ≠ n → (λ t, set_meta t None) <$> h3 !! i = (λ t, set_meta t None) <$> h !! i) ∧ coded h3 None (l1 ++ x :: n :: l2).
Proof.
  intros [Hd Hs Hc Hp] Hn Hd' Hx Hnt Hcode.
  assert (Hs0 := Hs). apply seg_app in Hs0 as [_ (xt0 & Hx0 & _ & Hnx & Hs2)]. simplify_eq.
  assert (Hc0 := Hc). apply coded_app in Hc0 as [Hc1 (xt0 & mx & Hx0 & Hmx & Hlx & Hc2)]. simplify_eq.
  assert (Hxn : x ≠ n) by (intros ->; apply Hn; set_solver). assert (Hnl2 : n ∉ l2) by set_solver. assert (Hxl2 : x ∉ l2).
  { apply NoDup_app in Hd as (_ & _ & Hd2). by apply NoDup_cons in Hd2 as [? _]. }
  assert (Hd2 : NoDup l2). { apply NoDup_app in Hd as (_ & _ & Hd2). by apply NoDup_cons in Hd2 as [_ ?]. }
  set (c := code_after h None l1) in *. set (c2 := if IsCode xt then Some x else c).
  set (m2 := if IsCode xt then with_last_code mx (Some x) else mx).
  set (nt2 := set_meta (set_next (set_previous nt (Some x)) (hd_or l2 None)) (Some m2)).
  set (h2 := alter (λ _, nt2) n h).
  assert (Hm2 : last_code m2 = c2) by (unfold m2, c2; by destruct (IsCode xt)).
  assert (Hn2 : h2 !! n = Some nt2) by (unfold h2; by rewrite list_lookup_alter_eq, Hnt).
  assert (H2o : ∀ i, i ≠ n → h2 !! i = h !! i) by (intros i Hi; unfold h2; by rewrite list_lookup_alter_ne).
  (* the metadata of the new token *)
  unfold InsertTokenAfter. rewrite st_bind, (get_run _ _ _ Hx), st_bind. unfold upd at 1, modify at 1. rewrite st_bind.
  match goal with |- context [alter ?f n h] => set (f1 := f); set (h1 := alter f1 n h) end.
  assert (Hn1 : h1 !! n = Some (f1 nt)) by (unfold h1; by rewrite list_lookup_alter_eq, Hnt).
  assert (Hmeta : (if IsCode xt then m ← get_meta n; upd n (λ n, set_meta n (Some (with_last_code m (Some x)))) else mret tt) h1 = (Ok tt, h2)).
  { unfold h2, nt2, m2. destruct (IsCode xt).
    - rewrite st_bind, (get_meta_run h1 n (f1 nt) mx Hn1) by done. unfold upd, modify. f_equal. apply list_eq. intros i.
      destruct (decide (i = n)) as [->|Hi]; [|unfold h1; by rewrite !list_lookup_alter_ne]. rewrite !list_lookup_alter_eq, Hn1, Hnt. unfold f1. by rewrite Hnx.
    - unfold mret, ST_ret. f_equal. apply list_eq. intros i.
      destruct (decide (i = n)) as [->|Hi]; [|unfold h1; by rewrite !list_lookup_alter_ne]. rewrite Hn1, list_lookup_alter_eq, Hnt. unfold f1. by rewrite Hmx, Hnx. }
  rewrite Hmeta, st_bind, (get_run _ _ _ Hn2), st_bind. unfold gets at 1. rewrite Hnx. change (IsCode nt2) with (IsCode nt).
  assert (Hlen : length l2 < all_rounds h2).
  { unfold all_rounds, h2. rewrite length_alter. assert (H := seg_length _ _ _ _ Hd2 Hs2). lia. }
  (* the tokens after it *)
  assert (Hre : ∃ h3, (if IsCode nt then relink (all_rounds h2) (hd_or l2 None) x (Some n) else mret tt) h2 = (Ok tt, h3) ∧
    coded h3 (if IsCode nt then Some n else c2) l2 ∧ same_but_code h2 h3 ∧ ∀ i, i ∉ l2 → h3 !! i = h2 !! i).
  { assert (Hc2' : coded h2 c2 l2) by (apply (coded_ext h); [intros i Hi; by rewrite H2o by (intros ->; done)|done]).
    destruct (IsCode nt) eqn:En; [|by exists h2]. unfold c2 in Hc2'. rewrite Hcode in Hc2' by done.
    apply (relink_spec _ _ _ _ _ (Some x)); [done|done| |done|done|by intros i [= <-]].
    apply (seg_ext h); [|done]. intros i Hi. by rewrite H2o by (intros ->; done). }
  destruct Hre as (h3 & E3 & Hc3 & Hs3 & Ho3). rewrite st_bind, E3. rewrite st_bind. unfold upd at 1, modify at 1. fold (link_next x n h3).
  rewrite st_bind. assert (Hlp : match hd_or l2 None with Some j => upd j (λ q, set_previous q (Some n)) | None => mret tt end (link_next x n h3) =
      (Ok tt, link_previous (hd_or l2 None) (Some n) (link_next x n h3))) by (by destruct l2).
  rewrite Hlp.
  assert (Hf3 : ∀ i, i ≠ n → (λ t, set_meta t None) <$> h3 !! i = (λ t, set_meta t None) <$> h !! i) by (intros i Hi; by rewrite Hs3, H2o).
  assert (Hn3 : h3 !! n = Some nt2) by by rewrite Ho3. assert (Hx3 : h3 !! x = Some xt) by by rewrite Ho3, H2o.
  assert (Hcoded3 : coded h3 None (l1 ++ x :: n :: l2)).
  { assert (Hl1 : ∀ i, i ∈ l1 → h3 !! i = h !! i).
    { intros i Hi. apply NoDup_app in Hd' as (_ & Hd12 & _). specialize (Hd12 i Hi). rewrite Ho3, H2o by set_solver. done. }
    apply coded_app. split; [apply (coded_ext h); [|done]; intros i Hi; by rewrite Hl1|].
    rewrite (code_after_ext h) by (intros i Hi; by rewrite Hl1). fold c. exists xt, mx. split_and!; [done..|]. exists nt2, m2. by split_and!. }
  exists h3, m2. by split_and!.
Qed.
Lemma InsertTokenAfter_spec h l1 x l2 n xt nt :
  stream h (l1 ++ x :: l2) → n ∉ l1 ++ x :: l2 → h !! x = Some xt → h !! n = Some nt → start_index nt = None →
  (IsCode nt = true → IsCode xt = true) →
  (line_number nt = line_number xt ∨ ∀ j t, head l2 = Some j → h !! j = Some t → line_number t ≠ line_number xt) →
  ∃ h', InsertTokenAfter n x h = (Ok tt, h') ∧ stream h' (l1 ++ x :: n :: l2) ∧ (∀ i, text_of h' i = text_of h i).
Proof.
  intros Hstream Hn Hx Hnt Hst Hcode Hline. assert (Hstream' := Hstream). destruct Hstream' as [Hd Hs Hc Hp].
  assert (Hd' : NoDup (l1 ++ x :: n :: l2)).
  { change (x :: n :: l2) with ([x] ++ n :: l2). rewrite app_assoc, <-Permutation_middle, <-app_assoc. by constructor. }
  destruct (insert_code h l1 x l2 n xt nt Hstream Hn Hd' Hx Hnt Hcode) as (h3 & m2 & E & Hn3 & Hx3 & Hf3 & Hcoded3).
  set (nt2 := set_meta (set_next (set_previous nt (Some x)) (hd_or l2 None)) (Some m2)) in *. rewrite E.
  set (h5 := link_previous (hd_or l2 None) (Some n) (link_next x n h3)) in *.
  assert (Hseg5 : seg h5 None (l1 ++ x :: n :: l2) None).
  { apply (link_in h3 l1 x n l2 nt2); [done| |done|done|done]. apply (seg_ext h); [|done]. intros i Hi. assert (Hi' : i ≠ n) by (intros ->; done).
    by apply fields_links, Hf3. }
  assert (H5f : ∀ i, (λ t, set_next (set_previous t None) None) <$> h5 !! i = (λ t, set_next (set_previous t None) None) <$> h3 !! i) by apply link_fields.
  assert (H5x : ∃ xt5, h5 !! x = Some xt5 ∧ line_number xt5 = line_number xt).
  { specialize (H5f x). rewrite Hx3 in H5f. destruct (h5 !! x) as [q|]; [|done]. exists q. split; [done|]. injection H5f. congruence. }
  destruct H5x as (xt5 & Hx5 & Hlx5).
  assert (H5n : ∃ nt5, h5 !! n = Some nt5 ∧ line_number nt5 = line_number nt ∧ start_index nt5 = None).
  { specialize (H5f n). rewrite Hn3 in H5f. destruct (h5 !! n) as [q|]; [|done]. exists q. cbn in H5f. injection H5f. intros. split_and!; congruence. }
  destruct H5n as (nt5 & Hn5 & Hln5 & Hsn5).
  assert (Hrest : ∀ i, i ≠ n → (λ t, (line_number t, start_index t, string_ t)) <$> h5 !! i = (λ t, (line_number t, start_index t, string_ t)) <$> h !! i).
  { intros i Hi. etrans; [exact (part _ (λ t, (line_number t, start_index t, string_ t)) _ _ (H5f i))|].
    exact (part _ (λ t, (line_number t, start_index t, string_ t)) _ _ (Hf3 i Hi)). }
  destruct (place_spec h5 l1 x n l2 xt5 nt5) as (h6 & E6 & Hp6 & Hs6); [done|done| |done|done|done| |].
  { apply (placed_ext h); [|done]. intros i Hi. apply Hrest. by intros ->. }
  { rewrite Hlx5, Hln5. destruct Hline as [?|Hline]; [by left|right]. intros j t Hj Ht. assert (Hjn : j ≠ n) by (destruct l2; [done|]; injection Hj as ->; set_solver).
    specialize (Hrest j Hjn). rewrite Ht in Hrest. destruct (h !! j) as [tj|] eqn:Etj; [|done]. injection Hrest as -> _ _. by eapply Hline. }
  exists h6. split_and!; [done| |].
  - split; [done| | |done].
    + apply (seg_ext h5); [|done]. intros i _. exact (part _ (λ t, (previous t, next t)) _ _ (Hs6 i)).
    + apply (coded_ext h3); [|done]. intros i _.
      etrans; [exact (part _ (λ t, (IsCode t, last_code <$> metadata t)) _ _ (Hs6 i))|exact (part _ (λ t, (IsCode t, last_code <$> metadata t)) _ _ (H5f i))].
  - intros i. unfold text_of. assert (Hi : (λ t, (type t, string_ t, line_number t)) <$> h3 !! i = (λ t, (type t, string_ t, line_number t)) <$> h !! i).
    { destruct (decide (i = n)) as [->|Hi]; [by rewrite Hn3, Hnt|]. exact (part _ (λ t, (type t, string_ t, line_number t)) _ _ (Hf3 i Hi)). }
    rewrite <-Hi. etrans; [exact (part _ (λ t, (type t, string_ t, line_number t)) _ _ (Hs6 i))|exact (part _ (λ t, (type t, string_ t, line_number t)) _ _ (H5f i))].
Qed.
(** C32: inserting a token after another one: the chain has it in its place in both
    directions, the metadata of every token names the last token of code before it, every
    token starts where the one before it in its line ends, and no text changes.  Code must
    be inserted after code, and a token of another line at the end of a line. *)
Theorem InsertTokenAfter_correct h l1 x l2 n xt nt :
  stream h (l1 ++ x :: l2) → n ∉ l1 ++ x :: l2 → h !! x = Some xt → h !! n = Some nt → start_index nt = None →
  (IsCode nt = true → IsCode xt = true) →
  (line_number nt = line_number xt ∨ ∀ j t, head l2 = Some j → h !! j = Some t → line_number t ≠ line_number xt) →
  ∃ h', InsertTokenAfter n x h = (Ok tt, h') ∧ stream h' (l1 ++ x :: n :: l2) ∧ (∀ i, text_of h' i = text_of h i).
Proof. apply InsertTokenAfter_spec. Qed.

Lemma last_or_app pp l i : last_or pp (l ++ [i]) = Some i.
Proof. revert pp. induction l as [|j l IH]; intros pp; [done|apply IH]. Qed.
Definition relink_next (o : option nat) (nn : option nat) (h : Heap) : Heap :=
  match o with Some p => alter (λ q, set_next q nn) p h | None => h end.
Lemma relink_next_seg h l nn nn' :
  NoDup l → seg h None l nn → seg (relink_next (last_or None l) nn' h) None l nn'.
Proof.
  destruct l as [|p l _] using rev_ind; [done|]. rewrite last_or_app. intros Hd Hs. apply seg_app in Hs as [H1 (t & Ht & Hp & Hn & _)].
  apply NoDup_app in Hd as (_ & Hd & _). apply seg_app. cbn [relink_next]. split.
  - apply (seg_ext h); [|done]. intros i Hi. rewrite list_lookup_alter_ne; [done|]. intros ->. apply (Hd i Hi). set_solver.
  - exists (set_next t nn'). rewrite list_lookup_alter_eq, Ht. by split_and!.
Qed.
Lemma alter_part {B} (e : Token → B) f k (h : Heap) i : (∀ t, e (f t) = e t) → e <$> alter f k h !! i = e <$> h !! i.
Proof.
  intros Hf. destruct (decide (i = k)) as [->|Hi]; [|by rewrite list_lookup_alter_ne]. rewrite list_lookup_alter_eq.
  destruct (h !! k); [|done]. cbn. by rewrite Hf.
Qed.
Lemma relink_next_part {B} (e : Token → B) o nn h i : (∀ t n, e (set_next t n) = e t) → e <$> relink_next o nn h !! i = e <$> h !! i.
Proof. intros He. destruct o; [|done]. by apply alter_part. Qed.
Lemma link_previous_part {B} (e : Token → B) o p h i : (∀ t q, e (set_previous t q) = e t) → e <$> link_previous o p h !! i = e <$> h !! i.
Proof. intros He. destruct o; [|done]. by apply alter_part. Qed.
(** A whole chain of linked tokens. *)
Record linked (h : Heap) (l : list nat) : Prop := {
  li_nodup : NoDup l;
  li_seg : seg h None l None;
  li_coded : coded h None l }.

Lemma code_after_in h c l i : code_after h c l = Some i → c = Some i ∨ i ∈ l.
Proof.
  revert c. induction l as [|k l IH]; intros c; [by left|]. cbn [code_after]. intros [H|H]%IH; [|by right; right].
  destruct (h !! k) as [t|]; [|by left]. destruct (IsCode t); [injection H as ->; by right; left|by left].
Qed.

Lemma DeleteToken_spec h l1 x l2 :
  linked h (l1 ++ x :: l2) →
  ∃ h', DeleteToken x h = (Ok tt, h') ∧ linked h' (l1 ++ l2) ∧ (∀ i, text_of h' i = text_of h i).
Proof.
  intros [Hd Hs Hc]. assert (Hd0 := Hd). apply NoDup_app in Hd0 as (Hd1 & Hd12 & Hd2). apply NoDup_cons in Hd2 as [Hxl Hd2].
  assert (Hs0 := Hs). apply seg_app in Hs0 as [Hs1 (xt & Hx & Hpx & Hnx & Hs2)]. assert (Hc0 := Hc). apply coded_app in Hc0 as [Hc1 (xt0 & mx & Hx0 & Hmx & Hlx & Hc2)].
  assert (xt0 = xt) as -> by congruence. clear Hx0. set (c := code_after h None l1) in *.
  assert (Hxl1 : x ∉ l1) by (intros Hi; apply (Hd12 x Hi); set_solver).
  assert (Hd' : NoDup (l1 ++ l2)) by (apply NoDup_app; split_and!; [done|set_solver|done]).
  set (h1 := relink_next (last_or None l1) (hd_or l2 None) h). set (h2 := link_previous (hd_or l2 None) (last_or None l1) h1).
  assert (H2part : ∀ i, (λ t, set_next (set_previous t None) None) <$> h2 !! i = (λ t, set_next (set_previous t None) None) <$> h !! i).
  { intros i. unfold h2, h1. rewrite link_previous_part, relink_next_part by done. done. }
  assert (Hseg2 : seg h2 None (l1 ++ l2) None).
  { apply seg_app. assert (H1 : seg h1 None l1 (hd_or l2 None)) by (eapply relink_next_seg; [done|exact Hs1]). split.
    - apply (seg_ext h1); [|done]. intros i Hi. unfold h2. rewrite link_previous_other; [done|]. destruct l2 as [|j l2]; [done|]. intros [= ->].
      apply (Hd12 i Hi). set_solver.
    - assert (H2 := link_previous_seg h1 (Some x) (last_or None l1) l2 None Hd2). destruct l2 as [|j l2]; [done|]. apply H2. apply (seg_ext h); [|done].
      intros i Hi. unfold h1. destruct (last_or None l1) as [p|] eqn:E; [|done]. cbn [relink_next]. rewrite list_lookup_alter_ne; [done|]. intros ->.
      assert (Hp : i ∈ l1) by (destruct l1 as [|? ? _] using rev_ind; [done|]; rewrite last_or_app in E; injection E as ->; set_solver).
      apply (Hd12 i Hp). set_solver. }
  assert (Hcoded2 : coded h2 None l1 ∧ coded h2 (if IsCode xt then Some x else c) l2).
  { split; (eapply coded_ext; [|done]); intros i _; exact (part _ (λ t, (IsCode t, last_code <$> metadata t)) _ _ (H2part i)). }
  assert (Hcin : ∀ i, c = Some i → i ∈ l1) by (intros i Hi; destruct (code_after_in h None l1 i Hi) as [?|?]; done).
  assert (Hca : ∀ h', (∀ i, i ∈ l1 → IsCode <$> h' !! i = IsCode <$> h !! i) → code_after h' None l1 = c) by (intros h' H'; by apply code_after_ext).
  assert (Hc2a : ∀ i, IsCode <$> h2 !! i = IsCode <$> h !! i) by (intros i; exact (part _ IsCode _ _ (H2part i))).
  assert (Htext2 : ∀ i, text_of h2 i = text_of h i) by (intros i; exact (part _ (λ t, (type t, string_ t, line_number t)) _ _ (H2part i))).
  unfold DeleteToken. rewrite st_bind, (get_run _ _ _ Hx), st_bind.
  assert (Hfirst : match previous xt with Some p => upd p (λ q, set_next q (next xt)) | None => mret tt end h = (Ok tt, h1)).
  { rewrite Hpx, Hnx. unfold h1. by destruct (last_or None l1). }
  rewrite Hfirst, Hnx. destruct l2 as [|j l2]; cbn [hd_or].
  { exists h2. split_and!; [done| |done]. split; [done|done|]. apply coded_app. split; [apply Hcoded2|done]. }
  rewrite st_bind. unfold upd at 1, modify at 1. change (alter (λ q, set_previous q (previous xt)) j h1) with (link_previous (Some j) (previous xt) h1).
  rewrite Hpx. change (link_previous (Some j) (last_or None l1) h1) with h2. rewrite st_bind. unfold gets at 1.
  destruct Hcoded2 as [Hcl1 Hcl2]. assert (Hcl2' := Hcl2). destruct Hcl2' as (tj & mj & Htj & Hmj & Hlj & _).
  rewrite st_bind, (get_meta_run _ _ _ _ Htj Hmj), Hlj. destruct (IsCode xt) eqn:Ex.
  - rewrite bool_decide_eq_true_2 by done.
    assert (Hx2 : ∃ t2, h2 !! x = Some t2 ∧ metadata t2 = Some mx).
    { assert (H : metadata <$> h2 !! x = metadata <$> h !! x) by exact (part _ metadata _ _ (H2part x)). rewrite Hx in H.
      destruct (h2 !! x) as [t2|]; [|done]. exists t2. split; [done|]. injection H as H. by rewrite H. }
    destruct Hx2 as (t2 & Hx2 & Hmx2). rewrite st_bind, (get_meta_run _ _ _ _ Hx2 Hmx2), Hlx. apply seg_app in Hseg2 as [Hs21 Hs22].
    destruct (relink_spec x c (j :: l2) (all_rounds h2) h2 (last_or None l1)) as (h3 & E3 & Hc3 & Hs3 & Ho3); [|done..| |].
    { assert (H := seg_length _ _ _ _ Hd2 Hs22). unfold all_rounds. lia. }
    { intros i Hi%Hcin Hij. by apply (Hd12 i Hi); right. }
    exists h3. split_and!; [done| |].
    + split; [done| |].
      * apply (seg_ext h2); [|by apply seg_app]. intros i _. by apply fields_links, Hs3.
      * assert (Hl1 : ∀ i, i ∈ l1 → h3 !! i = h2 !! i) by (intros i Hi; apply Ho3; intros Hij; by apply (Hd12 i Hi); right).
        apply coded_app. split; [apply (coded_ext h2); [|done]; intros i Hi; by rewrite Hl1|].
        rewrite Hca; [done|]. intros i Hi. by rewrite Hl1.
    + intros i. rewrite <-Htext2. exact (part _ (λ t, (type t, string_ t, line_number t)) _ _ (Hs3 i)).
  - rewrite bool_decide_eq_false_2 by (intros Hcx; by apply Hxl1, Hcin). exists h2. split_and!; [done| |done].
    split; [done|done|]. apply coded_app. split; [done|]. rewrite Hca; [done|]. intros i _. apply Hc2a.
Qed.
(** Deleting a token takes it out of the chain in both directions, and the metadata of the
    tokens after it names the last token of code that is left before them; no text
    changes. *)
Theorem DeleteToken_correct h l1 x l2 :
  linked h (l1 ++ x :: l2) →
  ∃ h', DeleteToken x h = (Ok tt, h') ∧ linked h' (l1 ++ l2) ∧ (∀ i, text_of h' i = text_of h i).
Proof. apply DeleteToken_spec. Qed.

(** ** Searching *)

Fixpoint first_match (h : Heap) (func end_func : Token → bool) (d : option nat) (l : list nat) : option nat :=
  match l, d with
  | [], _ | _, Some 0 => None
  | j :: l', _ =>
      match h !! j with
      | Some u => if func u then Some j else if end_func u then None else first_match h func end_func (pred <$> d) l'
      | None => None
      end
  end.
(** The tokens [l] come after [x] in the direction of [step]. *)
Fixpoint follows (h : Heap) (step : Token → option nat) (x : nat) (l : list nat) : Prop :=
  ∃ t, h !! x = Some t ∧ step t = hd_or l None ∧ match l with [] => True | j :: l' => follows h step j l' end.

Lemma custom_search_spec h step func end_func l : ∀ x fuel d,
  follows h step x l → length l + 2 ≤ fuel →
  custom_search fuel step func end_func d (Some x) h = (Ok (first_match h func end_func d l), h).
Proof.
  induction l as [|j l IH]; intros x fuel d Hl Hf; (destruct fuel as [|fuel]; [cbn in Hf; lia|]);
    destruct Hl as (t & Ht & Hs & Hl); cbn [custom_search hd_or] in *.
  - destruct d as [[|d]|]; [done| |]; rewrite st_bind, (get_run _ _ _ Ht), Hs; (destruct fuel; [cbn in Hf; lia|done]).
  - destruct d as [[|d]|]; [done| |]; rewrite st_bind, (get_run _ _ _ Ht), Hs; cbn [first_match];
      (assert (Hj : ∃ u, h !! j = Some u) by (destruct l; destruct Hl as (u & Hu & _); by exists u)); destruct Hj as [u Hu];
      rewrite st_bind, (get_run _ _ _ Hu), Hu; destruct (func u); [done| |done|]; (destruct (end_func u); [done|]); apply IH; try done; cbn in Hf; lia.
Qed.
Lemma seg_follows h pp x l : seg h pp (x :: l) None → follows h next x l.
Proof.
  revert pp x. induction l as [|j l IH]; intros pp x (t & Ht & _ & Hn & Hs); exists t; (split_and!; [done|done|]); [done|by eapply IH].
Qed.
Lemma seg_follows_back h l x nn : seg h None (l ++ [x]) nn → follows h previous x (reverse l).
Proof.
  revert x nn. induction l as [|j l IH] using rev_ind; intros x nn Hs; apply seg_app in Hs as [Hs (t & Ht & Hp & _)].
  - by exists t.
  - rewrite last_or_app in Hp. rewrite reverse_app. exists t. split_and!; [done|done|]. by eapply IH.
Qed.

Lemma CustomSearch_spec h l1 x l2 func end_func d (reverse_ : bool) :
  NoDup (l1 ++ x :: l2) → seg h None (l1 ++ x :: l2) None →
  CustomSearch x func end_func d reverse_ h = (Ok (first_match h func end_func d (if reverse_ then reverse l1 else l2)), h).
Proof.
  intros Hd Hs. unfold CustomSearch. rewrite st_bind. unfold gets. assert (Hlen := seg_length _ _ _ _ Hd Hs). rewrite length_app in Hlen. cbn in Hlen.
  apply custom_search_spec.
  - destruct reverse_.
    + apply (seg_follows_back h l1 x (hd_or l2 None)). change (x :: l2) with ([x] ++ l2) in Hs. rewrite app_assoc in Hs. by apply seg_app in Hs as [? _].
    + apply seg_app in Hs as [_ Hs]. by eapply seg_follows.
  - unfold all_rounds. destruct reverse_; rewrite ?length_reverse; lia.
Qed.

(** A search goes through the tokens on its side, nearest first, as many as the distance
    allows: it gives the first one that is looked for, unless one where it ends comes before,
    and changes nothing. *)
Theorem CustomSearch_correct h l1 x l2 func end_func d (reverse_ : bool) :
  NoDup (l1 ++ x :: l2) → seg h None (l1 ++ x :: l2) None →
  CustomSearch x func end_func d reverse_ h = (Ok (first_match h func end_func d (if reverse_ then reverse l1 else l2)), h).
Proof. apply CustomSearch_spec. Qed.

(** ** An example: [a ;] and a line with a number *)

Fixpoint chain_from (k : nat) (c : option nat) (b : option (Z * nat)) (l : list (TokenType * string * Z)) : Heap :=
  match l with
  | [] => []
  | (ty, s, n) :: l' =>
      let t := mkToken ty s (String.length s) s n None (match k with 0 => None | S j => Some j end) (match l' with [] => None | _ => Some (S k) end)
                 (Some (start_after b n)) (Some (mkMeta c None None false false false)) in
      t :: chain_from (S k) (if IsCode t then Some k else c) (Some (n, start_after b n + String.length s)) l'
  end.
Definition demo_heap : Heap := chain_from 0 None None [(IDENTIFIER, "a", 1%Z); (WHITESPACE, " ", 1%Z); (SEMICOLON, ";", 1%Z); (NUMBER, "12", 2%Z)].
Definition demo_semicolon : Token := new_Token ";" SEMICOLON "a ;" 1 None.

Ltac by_decide := match goal with |- ?P => apply (bool_decide_unpack P); by vm_compute end.
Ltac solve_chain := repeat first [exact I | reflexivity | eexists | split].
Lemma demo_stream : stream demo_heap [0; 1; 2; 3].
Proof. split; [by_decide|solve_chain..]. Qed.

Lemma InsertTokenAfter_correct_witness :
  ∃ h', InsertTokenAfter 4 0 (demo_heap ++ [demo_semicolon]) = (Ok tt, h') ∧ stream h' ([] ++ 0 :: 4 :: [1; 2; 3]) ∧
    ∀ i, text_of h' i = text_of (demo_heap ++ [demo_semicolon]) i.
Proof.
  eapply InsertTokenAfter_correct; [split; [by_decide|solve_chain..]|set_solver|reflexivity|reflexivity|reflexivity|done|by left].
Defined.
Lemma DeleteToken_correct_witness :
  ∃ h', DeleteToken 2 demo_heap = (Ok tt, h') ∧ linked h' ([0; 1] ++ [3]) ∧ ∀ i, text_of h' i = text_of demo_heap i.
Proof. apply (DeleteToken_correct demo_heap [0; 1] 2 [3]). destruct demo_stream as [? ? ? _]. by split. Defined.
Lemma CustomSearch_correct_witness :
  CustomSearch 0 (λ t, IsType t SEMICOLON) (λ t, IsType t NUMBER) (Some 2) false demo_heap = (Ok (Some 2), demo_heap).
Proof. exact (CustomSearch_correct demo_heap [] 0 [1; 2; 3] _ _ _ false (st_nodup _ _ demo_stream) (st_seg _ _ demo_stream)). Defined.

(** ** What goes wrong *)

Definition code_before (h : Heap) (i : nat) : option (option nat) := last_code <$> ((h !! i) ≫= metadata).
Definition starts_at (h : Heap) (i : nat) : option nat := (h !! i) ≫= start_index.
(** Code that is inserted after a token that is not code: the tokens after it are not told. *)
Example code_after_blank_not_linked :
  let h := (InsertTokenAfter 4 1 (demo_heap ++ [demo_semicolon])).2 in
  next <$> h !! 1 = Some (Some 4) ∧ code_before h 4 = Some (Some 0) ∧ code_before h 2 = Some (Some 0).
Proof. by vm_compute. Qed.
(** The places of the tokens after a deleted one stay, and those after a token that is
    split go too far to the right. *)
Example places_after_delete : starts_at (DeleteToken 1 demo_heap).2 2 = Some 2.
Proof. by vm_compute. Qed.
Example places_after_split :
  let h := chain_from 0 None None [(IDENTIFIER, "abc", 1%Z); (SEMICOLON, ";", 1%Z)] in
  let h' := (SplitToken 0 1 h).2 in
  (string_ <$> h' !! 0, string_ <$> h' !! 2, starts_at h' 2) = (Some "a", Some "bc", Some 1) ∧
  starts_at h 1 = Some 3 ∧ starts_at h' 1 = Some 5 ∧ length_ <$> h' !! 0 = Some 3.
Proof. by vm_compute. Qed.
