(* ===== verification/ClTokenizer.v ===== *)
(** * Lexical analysis of JavaScript (tools/closure_linter: common/tokenizer.py, common/matcher.py, javascripttokenizer.py)

    A line is cut into tokens by the first expression of the current mode that matches;
    what none matches is put together into tokens of the default type.  The mode goes on
    into the next line. *)
From S2P Require Import Prelude PyStr PyState CppRe ClTokens.

(** ** The general tokenizer *)

(** A named group has a number. *)
Record Matcher (M : Type) := mkMatcher {
  regex : rx;
  names : list (string * nat);
  mtype : TokenType;
  result_mode : option M;
  line_start : bool }.
Arguments mkMatcher {_}. Arguments regex {_}. Arguments names {_}. Arguments mtype {_}. Arguments result_mode {_}. Arguments line_start {_}.

(** [line.rstrip('\n\r\f')] *)
Definition line_end (a : ascii) : bool := (a =c nl) || (a =c cr) || (a =c "012").
Fixpoint rstrip_line (s : string) : string :=
  match s with
  | EmptyString => EmptyString
  | String a s' => let t := rstrip_line s' in if (t =s "") && line_end a then "" else String a t
  end.

Section Tokenizer.
Context {M : Type} (starting_mode : M) (matchers : M → list (Matcher M)) (default_types : M → option TokenType).

Record State := mkState {
  mode : M;
  toks : Heap;
  first_token : option nat;
  last_token : option nat;
  line_no : Z;
  at_index : nat }.

Definition AddToken (t : Token) : ST State unit :=
  modify (λ s,
    let i := length (toks s) in
    let h := match last_token s with Some l => alter (λ q, set_next q (Some i)) l (toks s) | None => toks s end in
    mkState (mode s) (h ++ [set_start (set_previous t (last_token s)) (Some (at_index s))])
      (match first_token s with Some f => Some f | None => Some i end) (Some i) (line_no s) (at_index s + length_ t)).
Definition set_mode (m : option M) : ST State unit :=
  modify (λ s, mkState (default (mode s) m) (toks s) (first_token s) (last_token s) (line_no s) (at_index s)).
Definition CreateNormalToken (m : M) (s l : string) (n : Z) : Token := new_Token s (default NORMAL (default_types m)) l n None.
Definition flush (normal_token l : string) (n : Z) : ST State unit :=
  if normal_token =s "" then mret tt else m ← gets mode; AddToken (CreateNormalToken m normal_token l n).

(** The first matcher that matches, with where the match ends. *)
Fixpoint first_matcher (ms : list (Matcher M)) (x : pos) : option (Matcher M * pos) :=
  match ms with
  | [] => None
  | m :: ms' =>
      if line_start m && negb (before x =s "") then first_matcher ms' x
      else match match_at (regex m) x with Some (_, y) => Some (m, y) | None => first_matcher ms' x end
  end.
Definition groupdict (m : Matcher M) (y : pos) : list (string * option string) := (λ p, (p.1, group_text p.2 (groups y))) <$> names m.

Fixpoint line_loop (fuel : nat) (l : string) (n : Z) (normal_token : string) (x : pos) : ST State unit :=
  match fuel with
  | 0 => throw OutOfFuel
  | S f =>
      match after x with
      | EmptyString => flush normal_token l n
      | String a rest =>
          m ← gets mode;
          match first_matcher (matchers m) x with
          | Some (r, y) =>
              flush normal_token l n;;
              AddToken (new_Token (between x y) (mtype r) l n (Some (groupdict r y)));;
              set_mode (result_mode r);;
              line_loop f l n "" (mkPos (before y) (after y) [])
          | None => line_loop f l n (normal_token +:+ String a "") (advance x a rest)
          end
      end
  end.
(** Two rounds for a character are enough when at most every other match is empty. *)
Definition TokenizeLine (l : string) : ST State unit :=
  modify (λ s, mkState (mode s) (toks s) (first_token s) (last_token s) (line_no s) 0);;
  n ← gets line_no;
  let s := rstrip_line l in
  if s =s "" then AddToken (new_Token "" BLANK_LINE l n None)
  else line_loop (2 * String.length s + 2) l n "" (start_of s).
Definition next_line (l : string) : ST State unit :=
  modify (λ s, mkState (mode s) (toks s) (first_token s) (last_token s) (line_no s + 1) (at_index s));; TokenizeLine l.
Definition TokenizeFile (file : list string) : res (State * option nat) :=
  match for_each next_line file (mkState starting_mode [] None None 0 0) with
  | (Ok _, s) => Ok (s, first_token s)
  | (Err e, _) => Err e
  end.
End Tokenizer.

(** ** JavaScript *)

Inductive JavaScriptMode :=
| TEXT_MODE | SINGLE_QUOTE_STRING_MODE | DOUBLE_QUOTE_STRING_MODE | BLOCK_COMMENT_MODE | DOC_COMMENT_MODE
| DOC_COMMENT_LEX_SPACES_MODE | LINE_COMMENT_MODE | PARAMETER_MODE | FUNCTION_MODE.
#[export] Instance JavaScriptMode_eq_dec : EqDecision JavaScriptMode.
Proof. solve_decision. Defined.

Definition quote : ascii := "039".
Definition dquote : ascii := "034".
Definition bslash : ascii := "092".
Definition Behind (p : ascii → bool) : rx := NotAhead (NotBehind (Cls p)).
Definition identifier_char (a : ascii) : bool := is_alpha a || is_digit a || one_of "_$." a.
Definition is_hex (a : ascii) : bool := is_digit a || char_in "a" "f" a || char_in "A" "F" a.
Definition MANTISSA : rx := Alts [Cat (Plus Digit) (NotAhead (Chr ".")); Cats [Plus Digit; Chr "."; NotAhead Digit]; Cats [Star Digit; Chr "."; Plus Digit]].
Definition DECIMAL_LITERAL : rx := Cat MANTISSA (Opt (Cats [Any "eE"; Opt (Any "-+"); Plus Digit])).
Definition HEX_LITERAL : rx := Cats [Chr "0"; Any "xX"; Plus (Cls is_hex)].
Definition NUMBER_RE : rx := Alt HEX_LITERAL DECIMAL_LITERAL.
Definition quoted_text (q : ascii) : rx :=
  Plus (Alt (Cls (λ a, negb ((a =c q) || (a =c bslash)))) (Cat (Chr bslash) (Alt Dot Eol))).
Definition SINGLE_QUOTE : rx := Chr quote.
Definition SINGLE_QUOTE_TEXT : rx := quoted_text quote.
Definition DOUBLE_QUOTE : rx := Chr dquote.
Definition DOUBLE_QUOTE_TEXT : rx := quoted_text dquote.
Definition START_SINGLE_LINE_COMMENT_RE : rx := Lit "//".
Definition END_OF_LINE_SINGLE_LINE_COMMENT : rx := Cat (Lit "//") Eol.
Definition START_DOC_COMMENT_RE : rx := Lit "/**".
Definition START_BLOCK_COMMENT_RE : rx := Lit "/*".
Definition END_BLOCK_COMMENT_RE : rx := Lit "*/".
Definition SAFE_STAR : rx := Cat (Chr "*") (NotAhead (Chr "/")).
Definition BLOCK_COMMENT_TEXT : rx := Plus (Alt (None_of "*") SAFE_STAR).
Definition DOC_COMMENT_TEXT : rx :=
  Plus (Alts [Cat (Cls (λ a, negb (one_of "*{}" a || is_space a))) (Chr "@"); None_of "*{}@"; SAFE_STAR]).
Definition DOC_COMMENT_NO_SPACES_TEXT : rx :=
  Plus (Alts [Cat (Cls (λ a, negb (one_of "*{}" a || is_space a))) (Chr "@"); Cls (λ a, negb (one_of "*{}@" a || is_space a)); SAFE_STAR]).
Definition DOC_PREFIX_RE : rx := Cats [Star Space; Chr "*"; Alt (Plus Space) (NotAhead (Chr "/"))].
Definition START_BLOCK_RE : rx := Chr "{".
Definition END_BLOCK_RE : rx := Chr "}".
Definition REGEX_CHARACTER_CLASS : rx :=
  Cats [Chr "["; Star (Alt (Cls (λ a, negb ((a =c "]") || (a =c bslash)))) (Cat (Chr bslash) Dot)); Chr "]"].
Definition POST_REGEX : rx := Alts [Chr ";"; Chr ","; Chr "."; Chr ")"; Chr "]"; Eol; Lit "//"; Lit "/*"; Chr ":"; Chr "}"].
Definition REGEX_RE : rx :=
  Cats [Chr "/"; NotAhead (Chr "*");
        Star (Alts [Cat (Chr bslash) Dot; Cls (λ a, negb (one_of "[/" a || (a =c bslash))); REGEX_CHARACTER_CLASS]);
        Chr "/"; Star (Any "gimsx"); Ahead (Cat (Star Space) POST_REGEX)].
Definition ANYTHING : rx := Star Dot.
Definition PARAMETERS_RE : rx := Plus (None_of ")").
Definition CLOSING_PAREN_WITH_SPACE : rx := Cat (Chr ")") (Star Space).
Definition FUNCTION_DECLARATION_RE : rx := Cats [WordB; Lit "function"; WordB].
Definition OPENING_PAREN : rx := Chr "(".
Definition CLOSING_PAREN : rx := Chr ")".
Definition OPENING_BRACKET : rx := Chr "[".
Definition CLOSING_BRACKET : rx := Chr "]".
Definition KEYWORD_LIST : list string :=
  ["break"; "case"; "catch"; "continue"; "default"; "do"; "else"; "finally"; "for"; "if"; "return"; "switch"; "throw"; "try"; "var"; "while"; "with"].
Definition KEYWORD_RE : rx := Cat (Alts (Lit <$> KEYWORD_LIST)) (Alt (Ahead (Cls (λ a, negb (identifier_char a)))) Eol).
Definition word_operator (s : string) : rx := Cats [WordB; Lit s; WordB].
Definition OPERATOR_LIST : list rx :=
  (Lit <$> [","; "++"; "==="; "!=="; ">>>="; ">>>"; "=="; ">="; "<="; "!="; "<<="; ">>="; "<<"; ">>"; ">"; "<"; "+="; "+";
            "--"; "^="; "-="; "-"; "/="; "/"; "*="; "*"; "%="; "%"; "&&"; "||"; "&="; "&"; "|="; "|"; "="; "!"; ":"; "?"])
  ++ (word_operator <$> ["delete"; "in"; "instanceof"; "new"; "typeof"; "void"]).
Definition OPERATOR_RE : rx := Alts OPERATOR_LIST.
Definition WHITESPACE_RE : rx := Plus Space.
Definition SEMICOLON_RE : rx := Chr ";".
Definition NESTED_IDENTIFIER : rx := Cat (Cls (λ a, is_alpha a || one_of "_$" a)) (Star (Cls identifier_char)).
Definition IDENTIFIER_RE : rx := NESTED_IDENTIFIER.
Definition SIMPLE_LVALUE_RE : rx := Cat (Grp 1 NESTED_IDENTIFIER) (Ahead (Cats [Star Space; Chr "="; NotAhead (Chr "=")])).
Definition flag_place : rx := Alt Bol (Behind is_space).
Definition DOC_FLAG_RE : rx := Cats [flag_place; Chr "@"; Grp 2 (Plus (Cls is_alpha))].
Definition DOC_FLAG_LEX_SPACES : rx := Cats [flag_place; Chr "@"; Grp 2 (Lit "param"); WordB].
Definition DOC_INLINE_FLAG_RE : rx := Cats [Behind (Ascii.eqb "{"); Chr "@"; Grp 1 (Plus (Cls is_alpha))].

Definition to_mode (r : rx) (t : TokenType) (m : JavaScriptMode) : Matcher JavaScriptMode := mkMatcher r [] t (Some m) false.
Definition plain (r : rx) (t : TokenType) : Matcher JavaScriptMode := mkMatcher r [] t None false.
Definition named (r : rx) (n : string) (k : nat) (t : TokenType) (m : option JavaScriptMode) : Matcher JavaScriptMode := mkMatcher r [(n, k)] t m false.

Definition COMMON_DOC_MATCHERS : list (Matcher JavaScriptMode) :=
  [to_mode END_BLOCK_COMMENT_RE END_DOC_COMMENT TEXT_MODE;
   named DOC_INLINE_FLAG_RE "name" 1 DOC_INLINE_FLAG None;
   named DOC_FLAG_LEX_SPACES "name" 2 DOC_FLAG (Some DOC_COMMENT_LEX_SPACES_MODE);
   named DOC_FLAG_RE "name" 2 DOC_FLAG None;
   plain START_BLOCK_RE DOC_START_BRACE; plain END_BLOCK_RE DOC_END_BRACE;
   mkMatcher DOC_PREFIX_RE [] DOC_PREFIX None true].
Definition JAVASCRIPT_MATCHERS (m : JavaScriptMode) : list (Matcher JavaScriptMode) :=
  match m with
  | TEXT_MODE =>
      [to_mode START_DOC_COMMENT_RE START_DOC_COMMENT DOC_COMMENT_MODE;
       to_mode START_BLOCK_COMMENT_RE START_BLOCK_COMMENT BLOCK_COMMENT_MODE;
       plain END_OF_LINE_SINGLE_LINE_COMMENT START_SINGLE_LINE_COMMENT;
       to_mode START_SINGLE_LINE_COMMENT_RE START_SINGLE_LINE_COMMENT LINE_COMMENT_MODE;
       to_mode SINGLE_QUOTE SINGLE_QUOTE_STRING_START SINGLE_QUOTE_STRING_MODE;
       to_mode DOUBLE_QUOTE DOUBLE_QUOTE_STRING_START DOUBLE_QUOTE_STRING_MODE;
       plain REGEX_RE REGEX; plain START_BLOCK_RE START_BLOCK; plain END_BLOCK_RE END_BLOCK;
       to_mode FUNCTION_DECLARATION_RE FUNCTION_DECLARATION FUNCTION_MODE;
       plain OPENING_PAREN START_PAREN; plain CLOSING_PAREN END_PAREN;
       plain OPENING_BRACKET START_BRACKET; plain CLOSING_BRACKET END_BRACKET;
       plain NUMBER_RE NUMBER; named SIMPLE_LVALUE_RE "identifier" 1 SIMPLE_LVALUE None; plain OPERATOR_RE OPERATOR;
       plain KEYWORD_RE KEYWORD; plain WHITESPACE_RE WHITESPACE; plain IDENTIFIER_RE IDENTIFIER; plain SEMICOLON_RE SEMICOLON]
  | SINGLE_QUOTE_STRING_MODE => [plain SINGLE_QUOTE_TEXT STRING_TEXT; to_mode SINGLE_QUOTE SINGLE_QUOTE_STRING_END TEXT_MODE]
  | DOUBLE_QUOTE_STRING_MODE => [plain DOUBLE_QUOTE_TEXT STRING_TEXT; to_mode DOUBLE_QUOTE DOUBLE_QUOTE_STRING_END TEXT_MODE]
  | BLOCK_COMMENT_MODE => [to_mode END_BLOCK_COMMENT_RE END_BLOCK_COMMENT TEXT_MODE; plain BLOCK_COMMENT_TEXT COMMENT]
  | DOC_COMMENT_MODE => COMMON_DOC_MATCHERS ++ [plain DOC_COMMENT_TEXT COMMENT]
  | DOC_COMMENT_LEX_SPACES_MODE => COMMON_DOC_MATCHERS ++ [plain WHITESPACE_RE COMMENT; plain DOC_COMMENT_NO_SPACES_TEXT COMMENT]
  | LINE_COMMENT_MODE => [to_mode ANYTHING COMMENT TEXT_MODE]
  | FUNCTION_MODE => [to_mode OPENING_PAREN START_PARAMETERS PARAMETER_MODE; plain WHITESPACE_RE WHITESPACE; plain IDENTIFIER_RE FUNCTION_NAME]
  | PARAMETER_MODE => [to_mode CLOSING_PAREN_WITH_SPACE END_PARAMETERS TEXT_MODE; to_mode PARAMETERS_RE PARAMETERS_ PARAMETER_MODE]
  end.
Definition JAVASCRIPT_DEFAULT_TYPES (m : JavaScriptMode) : option TokenType :=
  match m with DOC_COMMENT_MODE | DOC_COMMENT_LEX_SPACES_MODE => Some COMMENT | _ => None end.
Definition js_matchers (parse_js_doc : bool) (m : JavaScriptMode) : list (Matcher JavaScriptMode) :=
  if parse_js_doc then JAVASCRIPT_MATCHERS m
  else match m with DOC_COMMENT_MODE => JAVASCRIPT_MATCHERS BLOCK_COMMENT_MODE | _ => JAVASCRIPT_MATCHERS m end.
Definition tokenize_js (parse_js_doc : bool) (file : list string) : res (State * option nat) :=
  TokenizeFile TEXT_MODE (js_matchers parse_js_doc) JAVASCRIPT_DEFAULT_TYPES file.
Definition shown (r : res (State (M := JavaScriptMode) * option nat)) : list (TokenType * string) :=
  match r with Ok (s, _) => (λ t, (type t, string_ t)) <$> toks s | Err _ => [] end.
Example tokenize_some :
  shown (tokenize_js true ["var x = a.b / 2; // half"; "/** @param {x} y */"; ""]) =
  [(KEYWORD, "var"); (WHITESPACE, " "); (SIMPLE_LVALUE, "x"); (WHITESPACE, " "); (OPERATOR, "="); (WHITESPACE, " "); (IDENTIFIER, "a.b");
   (WHITESPACE, " "); (OPERATOR, "/"); (WHITESPACE, " "); (NUMBER, "2"); (SEMICOLON, ";"); (WHITESPACE, " "); (START_SINGLE_LINE_COMMENT, "//");
   (COMMENT, " half"); (START_DOC_COMMENT, "/**"); (COMMENT, " "); (DOC_FLAG, "@param"); (COMMENT, " "); (DOC_START_BRACE, "{"); (COMMENT, "x");
   (DOC_END_BRACE, "}"); (COMMENT, " "); (COMMENT, "y"); (COMMENT, " "); (END_DOC_COMMENT, "*/"); (BLANK_LINE, "")].
Proof. by vm_compute. Qed.

(** ** What the general tokenizer keeps *)

Definition content (h : Heap) : list (string * Z) := (λ t, (string_ t, line_number t)) <$> h.
(** The texts of the tokens of a line, put together. *)
Fixpoint line_text (n : Z) (c : list (string * Z)) : string :=
  match c with [] => "" | p :: c' => if (p.2 =? n)%Z then p.1 +:+ line_text n c' else line_text n c' end.
Fixpoint texts (ts : list string) : string := match ts with [] => "" | t :: ts' => t +:+ texts ts' end.

Lemma end_after_app h b l1 l2 : end_after h b (l1 ++ l2) = end_after h (end_after h b l1) l2.
Proof. revert b. induction l1 as [|i l1 IH]; intros b; [done|]. apply IH. Qed.
Lemma Forall_part (e : Token → Token) (P : Token → Prop) (h' h : Heap) :
  (∀ i, e <$> h' !! i = e <$> h !! i) → (∀ t, P (e t) ↔ P t) → Forall P h → Forall P h'.
Proof.
  intros H He Hh. apply Forall_lookup. intros i t Ht. specialize (H i). rewrite Ht in H. destruct (h !! i) as [t0|] eqn:E; [|done].
  injection H as H. rewrite <-He, H, He. by eapply Forall_lookup in Hh.
Qed.

Section Correct.
Context {M : Type} (starting_mode : M) (matchers : M → list (Matcher M)) (default_types : M → option TokenType).
(** A match makes the text shorter, or goes to a mode of less weight. *)
Context (weight : M → nat).
Hypothesis weight_bound : ∀ m, weight m ≤ 1.
Hypothesis progress : ∀ m r x y, r ∈ matchers m → head (runs (regex r) x) = Some y →
  2 * String.length (after y) + weight (default m (result_mode r)) < 2 * String.length (after x) + weight m.
Abbreviation line_loop := (line_loop matchers default_types).

Record good (s : State (M := M)) : Prop := {
  gd_seg : seg (toks s) None (seq 0 (length (toks s))) None;
  gd_last : last_token s = last_or None (seq 0 (length (toks s)));
  gd_first : first_token s = hd_or (seq 0 (length (toks s))) None;
  gd_placed : placed (toks s) None (seq 0 (length (toks s)));
  gd_ready : start_after (end_after (toks s) None (seq 0 (length (toks s)))) (line_no s) = at_index s;
  gd_lines : Forall (λ t, 1 ≤ line_number t ≤ line_no s)%Z (toks s);
  gd_length : Forall (λ t, length_ t = String.length (string_ t)) (toks s) }.

Lemma AddToken_good s t :
  good s → line_number t = line_no s → (1 ≤ line_no s)%Z → length_ t = String.length (string_ t) → next t = None →
  ∃ s', AddToken t s = (Ok tt, s') ∧ good s' ∧ mode s' = mode s ∧ line_no s' = line_no s ∧
    content (toks s') = content (toks s) ++ [(string_ t, line_no s)].
Proof.
  intros [Hs Hl Hf Hp Hr Hn Hg] Ht H1 Hlen Hnx. set (i := length (toks s)) in *.
  assert (Hd : NoDup (seq 0 i)) by apply NoDup_seq.
  set (h1 := relink_next (last_token s) (Some i) (toks s)). set (t1 := set_start (set_previous t (last_token s)) (Some (at_index s))).
  assert (Hadd : AddToken t s = (Ok tt, mkState (mode s) (h1 ++ [t1]) (match first_token s with Some f => Some f | None => Some i end) (Some i) (line_no s) (at_index s + length_ t))).
  { unfold AddToken, modify, h1, relink_next. done. }
  assert (Hlen1 : length h1 = i) by (unfold h1, relink_next; destruct (last_token s); [by rewrite length_alter|done]).
  assert (Hold : ∀ j, j ∈ seq 0 i → (h1 ++ [t1]) !! j = h1 !! j) by (intros j Hj%elem_of_seq; rewrite lookup_app_l; [done|lia]).
  assert (Hpart : ∀ j, (λ t, set_next t None) <$> h1 !! j = (λ t, set_next t None) <$> toks s !! j) by (intros j; by apply relink_next_part).
  assert (Hnew : (h1 ++ [t1]) !! i = Some t1) by (rewrite <-Hlen1; by apply list_lookup_middle).
  rewrite Hadd. eexists. split; [done|]. assert (Hseq : seq 0 (length (h1 ++ [t1])) = seq 0 i ++ [i]).
  { rewrite length_app, Hlen1. cbn [length]. rewrite Nat.add_1_r. apply seq_S. }
  assert (Hend : end_after (h1 ++ [t1]) None (seq 0 i) = end_after (toks s) None (seq 0 i)).
  { apply end_after_ext. intros j Hj. rewrite Hold by done. exact (part _ (λ t, (line_number t, string_ t)) _ _ (Hpart j)). }
  split_and!; [split; cbn [toks last_token first_token line_no at_index]; rewrite ?Hseq|done|done|].
  - apply seg_app. split.
    + apply (seg_ext h1); [intros j Hj; by rewrite Hold|]. unfold h1. rewrite Hl. by eapply relink_next_seg.
    + exists t1. split_and!; [done|cbn; by rewrite Hl|done|done].
  - by rewrite last_or_app.
  - rewrite Hf, hd_or_app. fold i. by destruct (seq 0 i).
  - apply placed_app. split.
    + apply (placed_ext (toks s)); [|done]. intros j Hj. rewrite Hold by done. exact (part _ (λ t, (line_number t, start_index t, string_ t)) _ _ (Hpart j)).
    + exists t1. cbn [t1 set_start set_previous start_index line_number]. split_and!; [done| |done]. by rewrite Hend, Ht, Hr.
  - rewrite end_after_app, Hend. cbn [end_after]. rewrite Hnew. cbn [t1 set_start set_previous line_number string_ start_after].
    rewrite Ht, Z.eqb_refl, Hr, Hlen. done.
  - apply Forall_app. split; [|apply Forall_singleton; cbn; lia]. by apply (Forall_part (λ t, set_next t None) (λ t, 1 ≤ line_number t ≤ line_no s)%Z _ (toks s)).
  - apply Forall_app. split; [|by apply Forall_singleton]. by apply (Forall_part (λ t, set_next t None) (λ t, length_ t = String.length (string_ t)) _ (toks s)).
  - cbn [toks]. unfold content. rewrite fmap_app. cbn [fmap list_fmap]. cbn [t1 set_start set_previous string_ line_number]. rewrite Ht. f_equal. apply list_eq. intros j. rewrite !list_lookup_fmap.
    exact (part _ (λ t, (string_ t, line_number t)) _ _ (Hpart j)).
Qed.

Lemma first_matcher_some (ms : list (Matcher M)) x r y : first_matcher ms x = Some (r, y) → r ∈ ms ∧ head (runs (regex r) x) = Some y.
Proof.
  induction ms as [|m ms IH]; cbn [first_matcher]; [done|]. destruct (line_start m && negb (before x =s "")).
  { intros [? ?]%IH. split; [by right|done]. }
  unfold match_at. destruct (head (runs (regex m) x)) as [z|] eqn:E; cbn.
  - intros [= -> ->]. split; [by left|done].
  - intros [? ?]%IH. split; [by right|done].
Qed.
Lemma between_after x y : suffix_of (after y) (after x) → between x y +:+ after y = after x.
Proof.
  intros [u Hu]. unfold between. rewrite Hu, str_length_app. replace (String.length u + String.length (after y) - String.length (after y)) with (String.length u) by lia.
  by rewrite str_take_app.
Qed.
Lemma texts_app ts1 ts2 : texts (ts1 ++ ts2) = texts ts1 +:+ texts ts2.
Proof. induction ts1 as [|t ts1 IH]; [done|]. cbn. by rewrite IH, str_app_assoc. Qed.

(** What a step of the tokenizer adds to the file: tokens of the current line with text [t]. *)
Definition adds (s s' : State (M := M)) (t : string) : Prop :=
  good s' ∧ line_no s' = line_no s ∧ ∃ ts, content (toks s') = content (toks s) ++ ((λ x, (x, line_no s)) <$> ts) ∧ texts ts = t.
Lemma adds_trans s1 s2 s3 t1 t2 : adds s1 s2 t1 → adds s2 s3 t2 → adds s1 s3 (t1 +:+ t2).
Proof.
  intros (_ & L1 & ts1 & C1 & T1) (G2 & L2 & ts2 & C2 & T2). split_and!; [done|congruence|]. exists (ts1 ++ ts2).
  rewrite texts_app, T1, T2. split; [|done]. by rewrite C2, C1, L1, fmap_app, app_assoc.
Qed.
Lemma adds_refl s : good s → adds s s "".
Proof. intros G. split_and!; [done|done|]. exists []. by rewrite app_nil_r. Qed.
Lemma AddToken_adds s t :
  good s → line_number t = line_no s → (1 ≤ line_no s)%Z → length_ t = String.length (string_ t) → next t = None →
  ∃ s', AddToken t s = (Ok tt, s') ∧ adds s s' (string_ t) ∧ mode s' = mode s.
Proof.
  intros G Hl H1 Hg Hn. destruct (AddToken_good s t G Hl H1 Hg Hn) as (s' & E & G' & Hm & Hl' & Hc). exists s'. split_and!; [done| |done].
  split_and!; [done|done|]. exists [string_ t]. split; [done|]. cbn. by rewrite str_app_nil_r.
Qed.
Lemma flush_adds s nt l : good s → (1 ≤ line_no s)%Z → ∃ s', flush default_types nt l (line_no s) s = (Ok tt, s') ∧ adds s s' nt ∧ mode s' = mode s.
Proof.
  intros G H1. unfold flush. destruct (nt =s "") eqn:E.
  - apply String.eqb_eq in E as ->. exists s. split_and!; [done|by apply adds_refl|done].
  - rewrite st_bind. unfold gets. by apply AddToken_adds.
Qed.
Lemma set_mode_adds s m : good s → ∃ s', set_mode m s = (Ok tt, s') ∧ adds s s' "" ∧ mode s' = default (mode s) m.
Proof.
  intros G. eexists. split; [done|]. split; [|done]. split_and!; [by destruct G; split|done|]. exists []. by rewrite app_nil_r.
Qed.

Lemma line_loop_correct fuel l : ∀ s nt x,
  good s → (1 ≤ line_no s)%Z → 2 * String.length (after x) + weight (mode s) < fuel →
  ∃ s', line_loop fuel l (line_no s) nt x s = (Ok tt, s') ∧ adds s s' (nt +:+ after x).
Proof.
  induction fuel as [|fuel IH]; intros s nt x G H1 Hf; [lia|]. cbn [ClTokenizer.line_loop]. destruct (after x) as [|a rest] eqn:Ex.
  { destruct (flush_adds s nt l G H1) as (s' & E & A & _). exists s'. by rewrite str_app_nil_r. }
  rewrite st_bind. unfold gets. destruct (first_matcher (matchers (mode s)) x) as [[r y]|] eqn:Em.
  - apply first_matcher_some in Em as [Hr Hy]. assert (Hp := progress (mode s) r x y Hr Hy).
    assert (Hsuf : suffix_of (after y) (after x)) by (apply (runs_suffix (regex r)); destruct (runs (regex r) x); [done|]; injection Hy as ->; by left).
    destruct (flush_adds s nt l G H1) as (s1 & E1 & A1 & M1). rewrite st_bind, E1. destruct (A1) as (G1 & L1 & _).
    destruct (AddToken_adds s1 (new_Token (between x y) (mtype r) l (line_no s) (Some (groupdict r y)))) as (s2 & E2 & A2 & M2); [done|done|lia|done|done|].
    rewrite st_bind, E2. destruct (A2) as (G2 & L2 & _). destruct (set_mode_adds s2 (result_mode r) G2) as (s3 & E3 & A3 & M3). destruct (A3) as (G3 & L3 & _).
    rewrite st_bind, E3. assert (L03 : line_no s3 = line_no s) by congruence. rewrite <-L03.
    destruct (IH s3 "" (mkPos (before y) (after y) [])) as (s4 & E4 & A4); [done|lia|cbn [after]; rewrite M3, M2, M1; rewrite Ex in Hp; lia|].
    exists s4. split; [done|]. rewrite <-Ex, <-(between_after x y Hsuf). eapply adds_trans; [exact A1|]. eapply adds_trans; [exact A2|].
    eapply (adds_trans _ _ _ ""); [exact A3|exact A4].
  - destruct (IH s (nt +:+ String a "") (advance x a rest)) as (s' & E & A); [done|done|cbn [advance after]; cbn in Hf; lia|].
    exists s'. split; [done|]. cbn [advance after] in A. rewrite str_app_assoc in A. exact A.
Qed.

Lemma end_after_line h l k e : end_after h None l = Some (k, e) → ∃ i t, h !! i = Some t ∧ line_number t = k.
Proof.
  destruct l as [|i l _] using rev_ind; [done|]. rewrite end_after_app. cbn [end_after]. revert k e. induction l as [|j l IH] using rev_ind; intros k e.
  - cbn. destruct (h !! i) as [t|] eqn:E; [|done]. intros [= <- _]. by exists i, t.
  - destruct (h !! i) as [t|] eqn:E; [intros [= <- _]; by exists i, t|]. rewrite end_after_app. cbn [end_after]. destruct (h !! j) as [t|] eqn:Ej; [intros [= <- _]; by exists j, t|apply IH].
Qed.
(** The start of a line. *)
Definition line_begins (s : State (M := M)) : State := mkState (mode s) (toks s) (first_token s) (last_token s) (line_no s + 1) 0.
Lemma line_begins_good s : good s → good (line_begins s).
Proof.
  intros [Hs Hl Hf Hp Hr Hn Hg]. split; cbn; try done.
  - destruct (end_after (toks s) None (seq 0 (length (toks s)))) as [[k e]|] eqn:E; [|done]. apply end_after_line in E as (i & t & Ht & <-).
    eapply Forall_lookup in Hn; [|exact Ht]. cbn. by rewrite (proj2 (Z.eqb_neq _ _)) by lia.
  - eapply Forall_impl; [exact Hn|]. cbn. lia.
Qed.

(** The next line: its tokens, put together, are the line without its end. *)
Lemma next_line_correct l s : good s → (0 ≤ line_no s)%Z →
  ∃ s' ts, next_line matchers default_types l s = (Ok tt, s') ∧ good s' ∧ line_no s' = (line_no s + 1)%Z ∧
    content (toks s') = content (toks s) ++ ((λ x, (x, line_no s + 1)%Z) <$> ts) ∧ texts ts = rstrip_line l ∧ ts ≠ [].
Proof.
  intros G H0. assert (G1 := line_begins_good s G).
  assert (H : ∃ s', next_line matchers default_types l s = (Ok tt, s') ∧ adds (line_begins s) s' (rstrip_line l) ∧
    (rstrip_line l = "" → content (toks s') = content (toks s) ++ [("", line_no s + 1)%Z])).
  { unfold next_line, TokenizeLine. rewrite !st_bind. unfold modify, gets. cbn [mode toks first_token last_token line_no at_index].
    rewrite st_bind. change (mkState (mode s) (toks s) (first_token s) (last_token s) (line_no s + 1) 0) with (line_begins s). cbn beta zeta.
    destruct (rstrip_line l =s "") eqn:E.
    - apply String.eqb_eq in E as ->. destruct (AddToken_good (line_begins s) (new_Token "" BLANK_LINE l (line_no s + 1) None)) as (s' & E' & G' & Hm & Hl & Hc); [done|done|cbn; lia|done|done|].
      exists s'. split_and!; [done| |done]. split_and!; [done|done|]. by exists [""].
    - destruct (line_loop_correct (2 * String.length (rstrip_line l) + 2) l (line_begins s) "" (start_of (rstrip_line l))) as (s' & E' & A); [done|cbn; lia| |].
      { cbn [start_of after]. generalize (weight_bound (mode (line_begins s))). lia. }
      exists s'. split_and!; [exact E'|exact A|]. intros Hl. by rewrite Hl in E. }
  destruct H as (s' & E & (G' & L' & ts & C' & T) & Hb). destruct (decide (rstrip_line l = "")) as [Hl|Hl].
  - exists s', [""]. split_and!; [done|done|done|by apply Hb|by rewrite Hl|done].
  - exists s', ts. split_and!; [done|done|done|done|done|]. by intros ->.
Qed.

Lemma line_text_app n c1 c2 : line_text n (c1 ++ c2) = line_text n c1 +:+ line_text n c2.
Proof. induction c1 as [|p c1 IH]; [done|]. cbn. rewrite IH. destruct (_ =? _)%Z; [by rewrite str_app_assoc|done]. Qed.
Lemma line_text_line n m ts : line_text n ((λ x, (x, m)) <$> ts) = if (m =? n)%Z then texts ts else "".
Proof. induction ts as [|t ts IH]; cbn; [by destruct (_ =? _)%Z|]. rewrite IH. by destruct (_ =? _)%Z. Qed.

(** The tokens of the lines, one line after the other; [n] lines come before. *)
Fixpoint by_lines (n : Z) (file : list string) (c : list (string * Z)) : Prop :=
  match file with
  | [] => c = []
  | l :: file' => ∃ ts c', c = ((λ x, (x, n + 1)%Z) <$> ts) ++ c' ∧ texts ts = rstrip_line l ∧ ts ≠ [] ∧ by_lines (n + 1) file' c'
  end.
Lemma for_lines file : ∀ s, good s → (0 ≤ line_no s)%Z →
  ∃ s', for_each (next_line matchers default_types) file s = (Ok tt, s') ∧ good s' ∧ line_no s' = (line_no s + Z.of_nat (length file))%Z ∧
    (∃ c, content (toks s') = content (toks s) ++ c ∧ by_lines (line_no s) file c ∧ (file ≠ [] → c ≠ []) ∧ Forall (λ p, line_no s < p.2)%Z c ∧
      ∀ k l, file !! k = Some l → line_text (line_no s + Z.of_nat (S k)) c = rstrip_line l).
Proof.
  induction file as [|l file IH]; intros s G H0; cbn [for_each].
  { exists s. split_and!; [done|done|cbn; lia|]. exists []. rewrite app_nil_r. by split_and!. }
  destruct (next_line_correct l s G H0) as (s1 & ts & E1 & G1 & L1 & C1 & T1 & N1).
  destruct (IH s1 G1 ltac:(lia)) as (s2 & E2 & G2 & L2 & c & C2 & B2 & _ & F2 & K2). exists s2. rewrite st_bind, E1. split_and!; [done|done|cbn [length]; lia|].
  exists (((λ x, (x, line_no s + 1)%Z) <$> ts) ++ c). split_and!.
  - by rewrite C2, C1, app_assoc.
  - exists ts, c. rewrite <-L1. by split_and!.
  - intros _. by destruct ts.
  - apply Forall_app. split; [apply Forall_fmap, Forall_true; cbn; lia|]. eapply Forall_impl; [exact F2|]. cbn. intros p. rewrite L1. lia.
  - intros k l' Hk. rewrite line_text_app, line_text_line. destruct k as [|k]; cbn in Hk.
    + injection Hk as <-. rewrite (proj2 (Z.eqb_eq _ _)) by lia. rewrite T1. replace (line_text _ c) with ""; [by rewrite str_app_nil_r|].
      clear -F2 L1. induction F2 as [|p c Hp _ IH]; [done|]. cbn. rewrite (proj2 (Z.eqb_neq _ _)) by lia. done.
    + rewrite (proj2 (Z.eqb_neq _ _)) by lia. rewrite str_app_nil_l, <-(K2 k l' Hk). f_equal. lia.
Qed.
End Correct.

(** ** What JavaScript is cut into *)

(** The number of characters that a match takes at least. *)
Fixpoint min_width (r : rx) : nat :=
  match r with
  | Cls _ => 1
  | Cat r1 r2 => min_width r1 + min_width r2
  | Alt r1 r2 => min_width r1 `min` min_width r2
  | Grp _ r1 => min_width r1
  | _ => 0
  end.
Lemma suffix_length s t : suffix_of s t → String.length s ≤ String.length t.
Proof. intros [u ->]. rewrite str_length_app. lia. Qed.
Lemma runs_min_width r x y : y ∈ runs r x → String.length (after y) + min_width r ≤ String.length (after x).
Proof.
  revert x y. induction r as [|p|r1 IH1 r2 IH2|r1 IH1 r2 IH2|r1 IH|n r1 IH| | | |r1 IH|r1 IH|r1 IH|n]; intros x y Hy; cbn [min_width];
    try (apply runs_suffix, suffix_length in Hy; lia); cbn [runs] in Hy.
  - destruct (after x) as [|a s]; [by apply elem_of_nil in Hy|]. destruct (p a); [|by apply elem_of_nil in Hy].
    apply list_elem_of_singleton in Hy as ->. cbn. lia.
  - apply list_elem_of_bind in Hy as (z & H2 & H1). apply IH2 in H2. apply IH1 in H1. lia.
  - apply elem_of_app in Hy as [H|H]; [apply IH1 in H|apply IH2 in H]; lia.
  - apply list_elem_of_fmap in Hy as (z & -> & Hz). apply IH in Hz. exact Hz.
Qed.

Definition js_weight (m : JavaScriptMode) : nat := match m with LINE_COMMENT_MODE => 1 | _ => 0 end.
Definition all_modes : list JavaScriptMode :=
  [TEXT_MODE; SINGLE_QUOTE_STRING_MODE; DOUBLE_QUOTE_STRING_MODE; BLOCK_COMMENT_MODE; DOC_COMMENT_MODE; DOC_COMMENT_LEX_SPACES_MODE;
   LINE_COMMENT_MODE; PARAMETER_MODE; FUNCTION_MODE].
(** Every expression takes a character, but the one of line comments, which ends its mode. *)
Definition takes_something (m : JavaScriptMode) (r : Matcher JavaScriptMode) : bool :=
  (1 <=? min_width (regex r))%nat || bool_decide (m = LINE_COMMENT_MODE ∧ result_mode r = Some TEXT_MODE).
Lemma js_takes b m r : r ∈ js_matchers b m → takes_something m r = true.
Proof.
  assert (H : forallb (λ b, forallb (λ m, forallb (takes_something m) (js_matchers b m)) all_modes) [true; false] = true) by by vm_compute.
  rewrite forallb_forall in H. specialize (H b). rewrite forallb_forall in H. assert (Hb : In b [true; false]) by (destruct b; cbn; tauto).
  specialize (H Hb m). rewrite forallb_forall in H. intros Hr. apply H; [destruct m; cbn; tauto|by apply list_elem_of_In].
Qed.
Lemma js_progress b m r x y : r ∈ js_matchers b m → head (runs (regex r) x) = Some y →
  2 * String.length (after y) + js_weight (default m (result_mode r)) < 2 * String.length (after x) + js_weight m.
Proof.
  intros Hr Hy. assert (Hin : y ∈ runs (regex r) x) by (destruct (runs (regex r) x); [done|]; injection Hy as ->; by left).
  apply runs_min_width in Hin. assert (Hw : ∀ m, js_weight m ≤ 1) by (intros []; cbn; lia).
  apply js_takes, orb_true_iff in Hr as [Hr|Hr].
  - apply Nat.leb_le in Hr. specialize (Hw (default m (result_mode r))). lia.
  - apply bool_decide_eq_true in Hr as [-> ->]. cbn. lia.
Qed.

(** What the tokenizer gives for a file. *)
Lemma tokenize_js_spec parse_js_doc file :
  ∃ s, tokenize_js parse_js_doc file = Ok (s, hd_or (seq 0 (length (toks s))) None) ∧ (file = [] ↔ toks s = []) ∧ by_lines 0 file (content (toks s)) ∧
    (∀ k l, file !! k = Some l → line_text (Z.of_nat (S k)) (content (toks s)) = rstrip_line l) ∧
    seg (toks s) None (seq 0 (length (toks s))) None ∧ placed (toks s) None (seq 0 (length (toks s))) ∧
    Forall (λ t, (1 ≤ line_number t ≤ Z.of_nat (length file))%Z ∧ length_ t = String.length (string_ t)) (toks s).
Proof.
  destruct (for_lines (js_matchers parse_js_doc) JAVASCRIPT_DEFAULT_TYPES js_weight ltac:(intros []; cbn; lia) (js_progress parse_js_doc)
    file (mkState TEXT_MODE [] None None 0 0)) as (s & E & [Hs Hl Hf Hp _ Hn Hg] & L & c & C & B & Hne & _ & K); [by split|done|].
  exists s. unfold tokenize_js, TokenizeFile. rewrite E. cbn [content fmap list_fmap app] in C. cbn in L.
  assert (Hlen : length (toks s) = length c) by (unfold content in C; apply (f_equal length) in C; by rewrite length_fmap in C).
  assert (Hiff : file = [] ↔ toks s = []).
  { split; [intros ->; by injection E as <-|]. intros Ht. destruct (decide (file = [])) as [|Hfile]; [done|]. specialize (Hne Hfile). rewrite Ht in Hlen. by destruct c. }
  split_and!; [|done|by rewrite C|by rewrite C|done|done|].
  - do 2 f_equal. rewrite Hf. by destruct (toks s).
  - apply Forall_forall. intros t Ht. rewrite !Forall_forall in Hn, Hg. split; [|by apply Hg]. specialize (Hn t Ht). lia.
Qed.

(** The tokenizer of JavaScript ends for every file, whatever is in it, and loses
    nothing: the tokens of each line, put together, are the line without its end.  They
    are numbered in the order of the file and linked in both directions, every token
    belongs to a line of the file and starts where the one before it in its line ends, and
    its length is that of its text. *)
Theorem tokenize_js_correct parse_js_doc file :
  ∃ s, tokenize_js parse_js_doc file = Ok (s, if decide (file = []) then None else Some 0) ∧
    (∀ k l, file !! k = Some l → line_text (Z.of_nat (S k)) (content (toks s)) = rstrip_line l) ∧
    seg (toks s) None (seq 0 (length (toks s))) None ∧ placed (toks s) None (seq 0 (length (toks s))) ∧
    Forall (λ t, (1 ≤ line_number t ≤ Z.of_nat (length file))%Z ∧ length_ t = String.length (string_ t)) (toks s).
Proof.
  destruct (tokenize_js_spec parse_js_doc file) as (s & E & Hiff & _ & H). exists s. split; [|exact H]. rewrite E. do 2 f_equal.
  destruct (decide (file = [])) as [Hf|Hf]; rewrite Hiff in Hf; destruct (toks s); try done.
Qed.
