(* ===== verification/ClMeta.v ===== *)
(** * The metadata pass (tools/closure_linter: ecmametadatapass.py)

    A pass over the tokens that keeps a stack of contexts (blocks, statements, groups,
    literals, ...) and gives each token its context, the token of code before it, the kind
    of its operator and the semicolons that are implied. *)
From S2P Require Import Prelude PyStr PyState CppRe ClTokens ClTokenizer.

(** ** Contexts *)

Inductive ContextType :=
| ROOT | BLOCK | CASE_BLOCK | FOR_GROUP_BLOCK | IMPLIED_BLOCK | INDEX | ARRAY_LITERAL | OBJECT_LITERAL | LITERAL_ELEMENT
| TERNARY_TRUE | TERNARY_FALSE | SWITCH | COMMENT_ | DOC | STATEMENT | GROUP | PARAMETERS | VAR.
#[export] Instance ContextType_eq_dec : EqDecision ContextType.
Proof. solve_decision. Defined.
Definition BLOCK_TYPES : list ContextType := [ROOT; BLOCK; CASE_BLOCK; FOR_GROUP_BLOCK; IMPLIED_BLOCK].
(** [EcmaContext]: contexts are objects, named by numbers. *)
Record Context := mkContext { ctype : ContextType; start_token : option nat; end_token : option nat; parent : option nat }.

(** The pass: the tokens and contexts, the current token, the current context and the last
    token of code. *)
Record Pass := mkPass { heap : Heap; contexts : list Context; token_ : option nat; context_ : option nat; last_code_ : option nat }.
Definition with_heap (p : Pass) h := mkPass h (contexts p) (token_ p) (context_ p) (last_code_ p).
Definition with_contexts (p : Pass) cs := mkPass (heap p) cs (token_ p) (context_ p) (last_code_ p).
Definition with_token (p : Pass) t := mkPass (heap p) (contexts p) t (context_ p) (last_code_ p).
Definition with_context (p : Pass) c := mkPass (heap p) (contexts p) (token_ p) c (last_code_ p).
Definition with_last (p : Pass) l := mkPass (heap p) (contexts p) (token_ p) (context_ p) l.

Definition on_heap {A} (m : ST Heap A) : ST Pass A := λ p, let '(r, h) := m (heap p) in (r, with_heap p h).
(** An attribute of what may be None. *)
Definition some {A} (o : option A) : ST Pass A := match o with Some a => mret a | None => throw AttributeError end.
Definition tok (i : nat) : ST Pass Token := on_heap (get i).
Definition meta (i : nat) : ST Pass MetaData := on_heap (get_meta i).
Definition upd_meta (i : nat) (f : MetaData → MetaData) : ST Pass unit :=
  m ← meta i; on_heap (upd i (λ t, set_meta t (Some (f m)))).
Definition ctx (c : nat) : ST Pass Context := o ← gets (λ p, (contexts p !! c : option Context)); some o.
Definition current : ST Pass Context := c ← gets context_; c ← some c; ctx c.
Definition this_token : ST Pass nat := t ← gets token_; some t.

Definition no_MetaData : MetaData := mkMeta None None None false false false.
Definition set_context (c : option nat) (m : MetaData) : MetaData :=
  mkMeta (last_code m) c (operator_type m) (is_implied_semicolon m) (is_implied_block m) (is_implied_block_close m).
Definition set_operator (o : option OperatorType) (m : MetaData) : MetaData :=
  mkMeta (last_code m) (context m) o (is_implied_semicolon m) (is_implied_block m) (is_implied_block_close m).
Definition mark_semicolon (m : MetaData) : MetaData :=
  mkMeta (last_code m) (context m) (operator_type m) true (is_implied_block m) (is_implied_block_close m).
Definition mark_block (m : MetaData) : MetaData :=
  mkMeta (last_code m) (context m) (operator_type m) (is_implied_semicolon m) true (is_implied_block_close m).
Definition mark_block_close (m : MetaData) : MetaData :=
  mkMeta (last_code m) (context m) (operator_type m) (is_implied_semicolon m) (is_implied_block m) true.
Definition IsUnaryPostOperator (m : MetaData) : bool := bool_decide (operator_type m = Some UNARY_POST_OPERATOR).

(** ** The stack *)

Definition AddContext (ty : ContextType) : ST Pass unit :=
  modify (λ p, with_context (with_contexts p (contexts p ++ [mkContext ty (token_ p) None (context_ p)])) (Some (length (contexts p)))).
Definition Reset (h : Heap) : Pass := mkPass h [mkContext ROOT None None None] None (Some 0) None.
Definition PopContext : ST Pass nat :=
  o ← gets context_;
  top ← some o;
  t ← gets token_;
  modify (λ p, with_contexts p (alter (λ c, mkContext (ctype c) (start_token c) t (parent c)) top (contexts p)));;
  c ← ctx top;
  modify (λ p, with_context p (parent c));;
  match parent c with Some _ => mret top | None => throw (ParseError t) end.
Fixpoint pop_types (fuel : nat) (stop_types : list ContextType) : ST Pass nat :=
  match fuel with
  | 0 => throw OutOfFuel
  | S n => last ← PopContext; c ← ctx last; if bool_decide (ctype c ∈ stop_types) then mret last else pop_types n stop_types
  end.
(** The stack has no more contexts than there are. *)
Definition depth (p : Pass) : nat := S (length (contexts p)).
Definition PopContextType (stop_types : list ContextType) : ST Pass nat := n ← gets depth; pop_types n stop_types.
Definition EndStatement : ST Pass unit :=
  PopContextType [STATEMENT];;
  c ← current;
  if bool_decide (ctype c = IMPLIED_BLOCK) then t ← this_token; upd_meta t mark_block_close;; PopContext;; mret tt else mret tt.

(** ** The context of a token *)

(** [self._context.parent.type] *)
Definition parent_type : ST Pass ContextType := c ← current; p ← some (parent c); p ← ctx p; mret (ctype p).
Definition next_code (t : nat) : ST Pass (option nat) := on_heap (SearchExcept t NON_CODE_TYPES None false).
Definition last_is (f : Token → bool) : ST Pass bool :=
  l ← gets last_code_; match l with Some l => l ← tok l; mret (f l) | None => mret false end.

(** After the parenthesis of [if], [for] and [while]. *)
Definition check_implied_block (t : nat) (result : nat) : ST Pass unit :=
  r ← ctx result; s ← some (start_token r); m ← meta s;
  match last_code m with
  | None => mret tt
  | Some keyword_token =>
      k ← tok keyword_token;
      if bool_decide (string_ k ∈ ["if"; "for"; "while"]) then
        nc ← next_code t; nc ← some nc; nct ← tok nc;
        if bool_decide (type nct ≠ START_BLOCK) then
          km ← meta keyword_token;
          is_do_while ← match last_code km with
            | None => mret false
            | Some pre =>
                pt ← tok pre;
                if bool_decide (type pt = END_BLOCK) then
                  pm ← meta pre; pc ← some (context pm); c ← ctx pc; sb ← some (start_token c);
                  sm ← meta sb; l ← some (last_code sm); lt ← tok l; mret (string_ lt =s "do")
                else mret false
            end;
          if (is_do_while : bool) then mret tt else AddContext IMPLIED_BLOCK;; upd_meta t mark_block
        else mret tt
      else mret tt
  end.
Definition start_block : ST Pass unit :=
  l ← gets last_code_; l ← some l; lt ← tok l;
  is_block ← (if bool_decide (type lt ∈ [END_PAREN; END_PARAMETERS]) || IsKeyword lt "else" || IsKeyword lt "do" || IsKeyword lt "try" || IsKeyword lt "finally"
              then mret true
              else if IsOperator lt ":" then m ← meta l; c ← some (context m); c ← ctx c; mret (bool_decide (ctype c = CASE_BLOCK))
              else mret false);
  AddContext (if (is_block : bool) then BLOCK else OBJECT_LITERAL).
Definition end_block : ST Pass nat :=
  c ← PopContextType [BLOCK; OBJECT_LITERAL];
  cur ← current;
  if bool_decide (ctype cur = SWITCH) then PopContext else mret c.
Fixpoint pop_to_switch (fuel : nat) : ST Pass unit :=
  match fuel with
  | 0 => throw OutOfFuel
  | S n => ty ← parent_type; if bool_decide (ty = SWITCH) then mret tt else PopContext;; pop_to_switch n
  end.
Fixpoint pop_to (fuel : nat) (types : list ContextType) : ST Pass unit :=
  match fuel with
  | 0 => throw OutOfFuel
  | S n => c ← current; if bool_decide (ctype c ∈ types) then mret tt else PopContext;; pop_to n types
  end.
Definition colon : ST Pass unit :=
  c ← current;
  if bool_decide (ctype c = OBJECT_LITERAL) then AddContext LITERAL_ELEMENT
  else if bool_decide (ctype c = TERNARY_TRUE) then PopContext;; AddContext TERNARY_FALSE
  else
    pt ← parent_type;
    if bool_decide (ctype c = TERNARY_FALSE) && bool_decide (pt = TERNARY_TRUE) then PopContext;; PopContext;; AddContext TERNARY_FALSE
    else if bool_decide (pt = SWITCH) then AddContext CASE_BLOCK else mret tt.
Definition comma_types : list ContextType := [VAR; ARRAY_LITERAL; OBJECT_LITERAL; STATEMENT; PARAMETERS; GROUP].
Definition else_block (t : nat) : ST Pass unit :=
  nc ← next_code t; nc ← some nc; nct ← tok nc;
  if bool_decide (type nct ≠ START_BLOCK) && (bool_decide (type nct ≠ KEYWORD) || negb (string_ nct =s "if"))
  then AddContext IMPLIED_BLOCK;; upd_meta t mark_block else mret tt.
(** The contexts that a token of any type opens. *)
Definition enter : ST Pass unit :=
  c ← current;
  if bool_decide (ctype c ∈ BLOCK_TYPES) then
    (match parent c with
     | None => AddContext STATEMENT
     | Some p => pc ← ctx p; if bool_decide (ctype pc ≠ SWITCH) then AddContext STATEMENT else mret tt
     end)
  else if bool_decide (ctype c = ARRAY_LITERAL) then AddContext LITERAL_ELEMENT
  else mret tt.
Definition token_context (i : nat) (t : Token) : ST Pass (option nat) :=
  let none (m : ST Pass unit) : ST Pass (option nat) := m;; mret None in
  match type t with
  | START_PAREN => none (f ← last_is (λ l, IsKeyword l "for"); AddContext (if (f : bool) then FOR_GROUP_BLOCK else GROUP))
  | END_PAREN => result ← PopContextType [GROUP; FOR_GROUP_BLOCK]; check_implied_block i result;; mret (Some result)
  | START_PARAMETERS => none (AddContext PARAMETERS)
  | END_PARAMETERS => c ← PopContextType [PARAMETERS]; mret (Some c)
  | START_BRACKET => none (b ← last_is (λ l, IsAnyType l EXPRESSION_ENDER_TYPES); AddContext (if (b : bool) then INDEX else ARRAY_LITERAL))
  | END_BRACKET => c ← PopContextType [INDEX; ARRAY_LITERAL]; mret (Some c)
  | START_BLOCK => none start_block
  | END_BLOCK => c ← end_block; mret (Some c)
  | KEYWORD =>
      none (if string_ t =s "else" then else_block i
            else if string_ t =s "switch" then AddContext SWITCH
            else if bool_decide (string_ t ∈ ["case"; "default"]) then n ← gets depth; pop_to_switch n
            else if string_ t =s "var" then AddContext VAR
            else mret tt)
  | OPERATOR =>
      none (if string_ t =s "?" then AddContext TERNARY_TRUE
            else if string_ t =s ":" then colon
            else if string_ t =s "," then n ← gets depth; pop_to n comma_types
            else mret tt)
  | SEMICOLON => none EndStatement
  | _ => mret None
  end.
Definition ProcessContext (i : nat) : ST Pass (option nat) := t ← tok i; enter;; token_context i t.

(** ** A token *)

Definition GetOperatorType (t : Token) (last : option Token) : OperatorType :=
  if string_ t =s "?" then TERNARY_OPERATOR
  else if bool_decide (string_ t ∈ UNARY_OPERATORS) then UNARY_OPERATOR
  else match last with
  | None => UNARY_OPERATOR
  | Some l =>
      if bool_decide (type l = END_BLOCK) then UNARY_OPERATOR
      else if bool_decide (string_ t ∈ UNARY_POST_OPERATORS) && bool_decide (type l ∈ EXPRESSION_ENDER_TYPES) then UNARY_POST_OPERATOR
      else if bool_decide (string_ t ∈ UNARY_OK_OPERATORS) && bool_decide (type l ∉ EXPRESSION_ENDER_TYPES) && bool_decide (string_ l ∉ UNARY_POST_OPERATORS)
           then UNARY_OPERATOR else BINARY_OPERATOR
  end.
Definition StatementCouldEndInContext : ST Pass bool :=
  c ← current;
  if bool_decide (ctype c ∈ [STATEMENT; VAR]) then mret true
  else if bool_decide (ctype c = TERNARY_FALSE) then p ← parent_type; mret (bool_decide (p ∈ [STATEMENT; VAR])) else mret false.
(** A semicolon is implied after the token.  The source also asks whether the current context,
    an object, equals the text of IMPLIED_BLOCK, which it never does. *)
Definition is_implied (i : nat) (nc : option nat) : ST Pass bool :=
  t ← tok i;
  n ← match nc with Some n => n ← tok n; mret (Some n) | None => mret None end;
  let last_in_line := IsCode t && match n with Some n => negb (line_number n =? line_number t)%Z | None => true end in
  m ← meta i;
  c ← some (context m); c ← ctx c;
  let next_is (f : Token → bool) := match n with Some n => f n | None => false end in
  if last_in_line then
    could_end ← StatementCouldEndInContext;
    mret (could_end &&
          negb (bool_decide (type t = STRING_TEXT)) &&
          negb (bool_decide (type t = END_BLOCK) && bool_decide (ctype c ≠ OBJECT_LITERAL)) &&
          negb (bool_decide (type t = IDENTIFIER) && endswith "." (string_ t)) &&
          negb (bool_decide (type t = OPERATOR) && negb (IsUnaryPostOperator m)) &&
          negb (string_ t =s ".") &&
          negb (next_is (λ n, string_ n =s ".")) &&
          negb (next_is (λ n, bool_decide (type n = OPERATOR))) &&
          negb (next_is (λ n, bool_decide (type n = START_BLOCK))))
  else mret false.
(** The operator of the token and the semicolon after it. *)
Definition finish_token (i : nat) (l : option nat) : ST Pass unit :=
  t ← tok i;
  (if bool_decide (type t = OPERATOR) then
     lt ← match l with Some l => l ← tok l; mret (Some l) | None => mret None end;
     upd_meta i (set_operator (Some (GetOperatorType t lt)))
   else mret tt);;
  if bool_decide (type t ≠ SEMICOLON) then
    nc ← next_code i;
    b ← is_implied i nc;
    if (b : bool) then upd_meta i mark_semicolon;; EndStatement else mret tt
  else mret tt.
Definition ProcessToken (i : nat) : ST Pass unit :=
  on_heap (upd i (λ t, set_meta t (Some no_MetaData)));;
  c ← ProcessContext i;
  cur ← gets context_;
  upd_meta i (set_context (match c with Some c => Some c | None => cur end));;
  l ← gets last_code_;
  upd_meta i (λ m, with_last_code m l);;
  finish_token i l.
Fixpoint process_loop (fuel : nat) : ST Pass unit :=
  match fuel with
  | 0 => throw OutOfFuel
  | S n =>
      o ← gets token_;
      match o with
      | None => mret tt
      | Some i =>
          ProcessToken i;;
          t ← tok i;
          (if IsCode t then modify (λ p, with_last p (Some i)) else mret tt);;
          modify (λ p, with_token p (next t));;
          process_loop n
      end
  end.
Definition Process (first : option nat) : ST Pass unit :=
  modify (λ p, with_token p first);;
  n ← gets (λ p, all_rounds (heap p));
  process_loop n;;
  r ← attempt (PopContextType [ROOT]);
  match r with Ok _ | Err (ParseError _) => mret tt | Err e => throw e end.

(** The analysis of a file, before its rules. *)
Definition analyse (file : list string) : res (res unit * Pass) :=
  '(s, first) ← tokenize_js true file; Ok (Process first (Reset (toks s))).

(** ** What the pass keeps *)

(** The token that opens a context; the context of a token that closes one. *)
Definition opens (ty : ContextType) (t : TokenType) : bool :=
  match ty with
  | GROUP | FOR_GROUP_BLOCK => bool_decide (t = START_PAREN)
  | PARAMETERS => bool_decide (t = START_PARAMETERS)
  | INDEX | ARRAY_LITERAL => bool_decide (t = START_BRACKET)
  | BLOCK | OBJECT_LITERAL => bool_decide (t = START_BLOCK)
  | SWITCH | VAR => bool_decide (t = KEYWORD)
  | TERNARY_TRUE | TERNARY_FALSE | CASE_BLOCK => bool_decide (t = OPERATOR)
  | IMPLIED_BLOCK => bool_decide (t ∈ [END_PAREN; KEYWORD])
  | _ => true
  end.
Definition closes (t : TokenType) (ty : ContextType) : bool :=
  match t with
  | END_PAREN => bool_decide (ty ∈ [GROUP; FOR_GROUP_BLOCK])
  | END_PARAMETERS => bool_decide (ty = PARAMETERS)
  | END_BRACKET => bool_decide (ty ∈ [INDEX; ARRAY_LITERAL])
  | END_BLOCK => bool_decide (ty ∈ [BLOCK; OBJECT_LITERAL; SWITCH])
  | _ => true
  end.
(** What [Process] raises: a ParseError, or an AttributeError where something is None. *)
Definition parse_exn (e : exn) : Prop := e = AttributeError ∨ ∃ t, e = ParseError t.

Section Keeps.
(** The tokens when the pass starts, in their order, and the one that is processed. *)
Context (h0 : Heap) (l1 : list nat) (i : nat) (l2 : list nat) (t0 : Token).
Hypothesis chain : seg h0 None (l1 ++ i :: l2) None.
Hypothesis distinct : NoDup (l1 ++ i :: l2).
Hypothesis this : h0 !! i = Some t0.

Definition context_ok (past : list nat) (c : nat) (k : Context) : Prop :=
  (∀ q, parent k = Some q → q < c) ∧
  (ctype k ≠ ROOT → ∃ s t, start_token k = Some s ∧ s ∈ past ∧ h0 !! s = Some t ∧ opens (ctype k) (type t) = true).
Record contexts_ok (past : list nat) (p : Pass) : Prop := {
  co_each : ∀ c k, contexts p !! c = Some k → context_ok past c k;
  co_current : ∀ c, context_ p = Some c → c < length (contexts p) }.
Record pass_ok (p : Pass) : Prop := {
  po_text : same_but_code h0 (heap p);
  po_token : token_ p = Some i;
  po_contexts : contexts_ok (l1 ++ [i]) p }.
(** The contexts that are there stay, but for where they end. *)
Definition contexts_kept (p p' : Pass) : Prop :=
  ∀ c k, contexts p !! c = Some k → ∃ k', contexts p' !! c = Some k' ∧ ctype k' = ctype k ∧ start_token k' = start_token k ∧ parent k' = parent k.
Definition meta_view (t : Token) : option (option nat * option nat) := (λ m, (last_code m, context m)) <$> metadata t.
Record pass_kept (p p' : Pass) : Prop := {
  pk_last : last_code_ p' = last_code_ p;
  pk_others : ∀ j, j ≠ i → heap p' !! j = heap p !! j;
  pk_meta : meta_view <$> heap p' !! i = meta_view <$> heap p !! i;
  pk_contexts : contexts_kept p p' }.
#[local] Instance pass_kept_preorder : PreOrder pass_kept.
Proof.
  split.
  - intros p. split; [done|done|done|]. intros c k Hk. by exists k.
  - intros p1 p2 p3 [L1 O1 V1 C1] [L2 O2 V2 C2]. split; [congruence|intros j Hj; by rewrite O2, O1|congruence|].
    intros c k Hk. destruct (C1 c k Hk) as (k1 & Hk1 & ? & ? & ?). destruct (C2 c k1 Hk1) as (k2 & Hk2 & ? & ? & ?). exists k2. split_and!; congruence.
Qed.
#[local] Abbreviation kept := (keeps pass_ok pass_kept parse_exn).
#[local] Abbreviation kept_at := (keeps_at pass_ok pass_kept parse_exn).

Lemma attribute_error : parse_exn AttributeError.
Proof. by left. Qed.
Lemma some_kept {A} (o : option A) : kept (some o).
Proof. destruct o; [apply keeps_ret; apply _|apply keeps_throw; [apply _|apply attribute_error]]. Qed.
Lemma tok_kept j : kept (tok j).
Proof.
  intros p r p' Hp. unfold tok, on_heap, get, gets. rewrite st_bind. destruct (heap p !! j); intros [= <- <-]; destruct p; (split_and!; [done|done|]);
    intros e [= <-]; apply attribute_error.
Qed.
Lemma meta_kept j : kept (meta j).
Proof.
  intros p r p' Hp. unfold meta, on_heap, get_meta, get, gets. rewrite !st_bind. destruct (heap p !! j) as [t|]; cbn [mret ST_ret];
    [destruct (metadata t)|]; intros [= <- <-]; destruct p; (split_and!; [done|done|]); intros e [= <-]; apply attribute_error.
Qed.
Lemma gets_kept {A} (f : Pass → A) : kept (gets f).
Proof. apply keeps_gets. apply _. Qed.
Lemma ctx_kept c : kept (ctx c).
Proof. apply keeps_bind; [apply _|apply gets_kept|]. intros o. apply some_kept. Qed.
Lemma current_kept : kept current.
Proof. apply keeps_bind; [apply _|apply gets_kept|]. intros c. apply keeps_bind; [apply _|apply some_kept|]. intros k. apply ctx_kept. Qed.
Lemma parent_type_kept : kept parent_type.
Proof.
  apply keeps_bind; [apply _|apply current_kept|]. intros c. apply keeps_bind; [apply _|apply some_kept|]. intros q.
  apply keeps_bind; [apply _|apply ctx_kept|]. intros k. apply keeps_ret. apply _.
Qed.
Lemma last_is_kept f : kept (last_is f).
Proof.
  apply keeps_bind; [apply _|apply gets_kept|]. intros [l|]; [|apply keeps_ret; apply _].
  apply keeps_bind; [apply _|apply tok_kept|]. intros t. apply keeps_ret. apply _.
Qed.
Lemma upd_meta_run p t m f j : heap p !! j = Some t → metadata t = Some m →
  upd_meta j f p = (Ok tt, with_heap p (alter (λ t, set_meta t (Some (f m))) j (heap p))).
Proof.
  intros Ht Hm. unfold upd_meta, meta, on_heap. rewrite st_bind, (get_meta_run _ _ _ _ Ht Hm). cbn. by destruct p.
Qed.
Lemma upd_meta_fails p f j : (heap p !! j ≫= metadata) = None → upd_meta j f p = (Err AttributeError, p).
Proof.
  intros H. unfold upd_meta, meta, on_heap, get_meta, get, gets. rewrite !st_bind. destruct (heap p !! j) as [t|]; cbn [mret ST_ret].
  - cbn in H. rewrite H. by destruct p.
  - by destruct p.
Qed.
Lemma set_meta_ok p m : pass_ok p → pass_ok (with_heap p (alter (λ t, set_meta t m) i (heap p))).
Proof. intros [T K C]. split; [|done|destruct C; by split]. intros j. rewrite <-T. by apply (alter_part (λ t, set_meta t None)). Qed.
Lemma upd_meta_kept f : (∀ m, last_code (f m) = last_code m ∧ context (f m) = context m) → kept (upd_meta i f).
Proof.
  intros Hf p r p' Hp. destruct (heap p !! i ≫= metadata) as [m|] eqn:E.
  - apply bind_Some in E as (t & Ht & Hm). rewrite (upd_meta_run p t m f i Ht Hm). intros [= <- <-]. split_and!; [by apply set_meta_ok| |done].
    split; cbn; [done|intros j Hj; by rewrite list_lookup_alter_ne| |intros c k Hk; by exists k].
    rewrite list_lookup_alter_eq, Ht. cbn. unfold meta_view. cbn. rewrite Hm. cbn. by destruct (Hf m) as [-> ->].
  - rewrite upd_meta_fails by done. intros [= <- <-]. split_and!; [done|done|]. intros e [= <-]. apply attribute_error.
Qed.
Lemma AddContext_kept ty : opens ty (type t0) = true → kept (AddContext ty).
Proof.
  intros Ho. apply keeps_modify. intros p [T K [E C]]. split.
  - split; [done|done|]. split; cbn.
    + intros c k Hk. apply lookup_app_Some in Hk as [Hk|[Hc Hk]]; [by apply E|]. apply list_lookup_singleton_Some in Hk as [Hc' <-].
      split; cbn; [|intros _; exists i, t0; split_and!; [done|set_solver|done|done]]. intros q Hq. apply C in Hq. lia.
    + intros c [= <-]. rewrite length_app. cbn. lia.
  - split; cbn; [done|done|done|]. intros c k Hk. exists k. split; [|done]. cbn. rewrite lookup_app_l; [done|]. by eapply lookup_lt_Some.
Qed.
Lemma alter_context_kept c : kept (modify (λ p, with_contexts p (alter (λ k, mkContext (ctype k) (start_token k) (token_ p) (parent k)) c (contexts p)))).
Proof.
  apply keeps_modify. intros p [T K [E C]].
  assert (H : ∀ d k, contexts p !! d = Some k → ∃ k', alter (λ k, mkContext (ctype k) (start_token k) (token_ p) (parent k)) c (contexts p) !! d = Some k' ∧
      ctype k' = ctype k ∧ start_token k' = start_token k ∧ parent k' = parent k).
  { intros d k Hk. destruct (decide (d = c)) as [->|Hd]; [|exists k; by rewrite list_lookup_alter_ne].
    eexists. rewrite list_lookup_alter_eq, Hk. by split_and!. }
  split; [|by split]. split; [done|done|]. split; cbn.
  - intros d k' Hk'. destruct (contexts p !! d) as [k|] eqn:Hk.
    + destruct (H d k Hk) as (k'' & Hk'' & H1 & H2 & H3). simplify_eq. destruct (E d k Hk) as [E1 E2]. split; [by rewrite H3|]. by rewrite H1, H2.
    + apply lookup_lt_Some in Hk'. rewrite length_alter in Hk'. apply lookup_ge_None in Hk. lia.
  - intros d Hd. rewrite length_alter. by apply C.
Qed.
(** The context above becomes the current one. *)
Definition ends (t : option nat) (k : Context) : Context := mkContext (ctype k) (start_token k) t (parent k).
Lemma PopContext_eq p top k : context_ p = Some top → contexts p !! top = Some k →
  PopContext p = (match parent k with Some _ => Ok top | None => Err (ParseError (token_ p)) end,
                  mkPass (heap p) (alter (ends (token_ p)) top (contexts p)) (token_ p) (parent k) (last_code_ p)).
Proof.
  intros Hc Hk. unfold PopContext, gets, modify, ctx, some. rewrite st_bind, Hc, st_bind. cbn [mret ST_ret]. rewrite !st_bind.
  unfold gets. cbn [contexts with_contexts]. rewrite list_lookup_alter_eq, Hk. cbn [fmap option_fmap option_map mret ST_ret]. rewrite st_bind. cbn [parent with_context].
  by destruct (parent k).
Qed.
Lemma PopContext_none p : context_ p = None → PopContext p = (Err AttributeError, p).
Proof. intros Hc. unfold PopContext, gets, some. by rewrite st_bind, Hc. Qed.
Lemma PopContext_spec p : pass_ok p → kept_at p PopContext ∧
  ∀ c p', PopContext p = (Ok c, p') →
    ∃ q k, context_ p = Some c ∧ context_ p' = Some q ∧ q < c ∧ length (contexts p') = length (contexts p) ∧
      contexts p' !! c = Some k ∧ context_ok (l1 ++ [i]) c k.
Proof.
  intros Hp. assert (Hp' := Hp). destruct Hp' as [T K [E C]]. destruct (context_ p) as [top|] eqn:Hc.
  2: { split; intros r p'; rewrite PopContext_none by done; [|done]. intros [= <- <-]. split_and!; [done|done|]. intros e [= <-]. apply attribute_error. }
  assert (Htop : top < length (contexts p)) by by apply C. apply lookup_lt_is_Some in Htop as [k Hk]. assert (Heq := PopContext_eq p top k Hc Hk).
  destruct (alter_context_kept top p _ _ Hp eq_refl) as (Hp1 & R1 & _). destruct (E top k Hk) as [E1 E2]. set (p1 := mkPass (heap p) (alter (ends (token_ p)) top (contexts p)) (token_ p) (parent k) (last_code_ p)) in *.
  assert (Hp2 : pass_ok p1).
  { destruct Hp1 as [T1 K1 [E1' C1]]. split; [done|done|]. split; [done|]. cbn. intros q Hq%E1. rewrite length_alter. apply lookup_lt_Some in Hk. lia. }
  split.
  - intros r p'. rewrite Heq. intros [= <- <-]. split_and!; [done|by destruct R1; split|]. destruct (parent k); [done|]. intros e [= <-]. right. by eexists.
  - intros c p'. rewrite Heq. destruct (parent k) as [q|] eqn:Hq; [|done]. intros [= -> <-]. exists q, (ends (token_ p) k). cbn. rewrite length_alter, list_lookup_alter_eq, Hk.
    split_and!; [done|done|by apply E1|done|done|]. split; [cbn; by rewrite Hq|done].
Qed.
Lemma PopContext_kept : kept PopContext.
Proof. intros p r p' Hp. by apply PopContext_spec. Qed.

Lemma ctx_run p c k : contexts p !! c = Some k → ctx c p = (Ok k, p).
Proof. intros Hk. unfold ctx, gets, some. by rewrite st_bind, Hk. Qed.
Lemma pop_types_spec types fuel : ∀ p, pass_ok p → (∀ c, context_ p = Some c → c < fuel) → 0 < fuel → kept_at p (pop_types fuel types) ∧
  ∀ c p', pop_types fuel types p = (Ok c, p') → ∃ k, contexts p' !! c = Some k ∧ ctype k ∈ types ∧ context_ok (l1 ++ [i]) c k.
Proof.
  induction fuel as [|fuel IH]; intros p Hp Hf Hpos; [lia|]. destruct (PopContext_spec p Hp) as [Hk Hs].
  destruct (PopContext p) as [[c|e] p1] eqn:E.
  - destruct (Hk _ _ E) as (Hp1 & R1 & _). destruct (Hs c p1 eq_refl) as (q & k & Hc & Hq & Hqc & _ & Hk1 & Hok). specialize (Hf c Hc).
    assert (Heq : pop_types (S fuel) types p = if bool_decide (ctype k ∈ types) then (Ok c, p1) else pop_types fuel types p1).
    { cbn [pop_types]. rewrite st_bind, E, st_bind, (ctx_run _ _ _ Hk1). by case_bool_decide. }
    case_bool_decide as Hty.
    + split; intros r p'; rewrite Heq; intros [= <- <-]; [by split_and!|by exists k].
    + destruct (IH p1 Hp1) as [IH1 IH2]; [intros d Hd; simplify_eq; lia|lia|]. split; intros r p'; rewrite Heq; [|apply IH2].
      intros Hr. destruct (IH1 _ _ Hr) as (? & ? & ?). split_and!; [done|by etrans|done].
  - destruct (Hk _ _ E) as (Hp1 & R1 & He).
    assert (Heq : pop_types (S fuel) types p = (Err e, p1)) by (cbn [pop_types]; by rewrite st_bind, E).
    split; intros r p'; rewrite Heq; [|done]. intros [= <- <-]. split_and!; [done|done|]. intros e' [= <-]. by apply He.
Qed.
Lemma PopContextType_spec p types : pass_ok p → kept_at p (PopContextType types) ∧
  ∀ c p', PopContextType types p = (Ok c, p') → ∃ k, contexts p' !! c = Some k ∧ ctype k ∈ types ∧ context_ok (l1 ++ [i]) c k.
Proof.
  intros Hp. apply (pop_types_spec types (depth p)); [done| |unfold depth; lia]. intros c Hc. apply (co_current _ _ (po_contexts _ Hp)) in Hc. unfold depth. lia.
Qed.
Lemma PopContextType_kept types : kept (PopContextType types).
Proof. intros p r p' Hp. by apply PopContextType_spec. Qed.
Lemma pop_until_rule (m : nat → ST Pass unit) (test : ST Pass bool) fuel :
  (∀ n p, m (S n) p = (b ← test; if (b : bool) then mret tt else PopContext;; m n) p) → kept test → (∀ p b p', test p = (Ok b, p') → p' = p) →
  ∀ p, pass_ok p → (∀ c, context_ p = Some c → c < fuel) → 0 < fuel → kept_at p (m fuel).
Proof.
  intros Hm Ht Hpure. induction fuel as [|fuel IH]; intros p Hp Hf Hpos; [lia|].
  cut (kept_at p (b ← test; if (b : bool) then mret tt else PopContext;; m fuel)); [intros H r p'; rewrite Hm; apply H|]. apply keeps_at_bind; [apply _|by apply keeps_at_keeps|].
  intros b p0 _ _ Eb. apply Hpure in Eb as ->. destruct b; [apply keeps_at_ret; [apply _|done]|].
  apply keeps_at_bind; [apply _|by apply keeps_at_keeps, PopContext_kept|]. intros c p1 Hp1 _ E. apply PopContext_spec in E as (q & k & Hc & Hq & Hqc & _); [|done].
  specialize (Hf c Hc). apply IH; [done|intros d Hd; simplify_eq; lia|lia].
Qed.
Lemma current_pure p r p' : current p = (r, p') → p' = p.
Proof.
  unfold current, ctx, gets, some. rewrite st_bind. destruct (context_ p) as [c|]; rewrite st_bind; [|by intros [= _ <-]]. cbn [mret ST_ret].
  rewrite st_bind. by destruct (contexts p !! c); intros [= _ <-].
Qed.
Lemma current_run p k p' : current p = (Ok k, p') → ∃ c, context_ p = Some c ∧ contexts p !! c = Some k.
Proof.
  unfold current, ctx, gets, some. rewrite st_bind. destruct (context_ p) as [c|]; rewrite st_bind; [|done]. unfold mret, ST_ret.
  rewrite st_bind. destruct (contexts p !! c) as [k0|] eqn:E; intros [= <- _]. by exists c.
Qed.
Lemma ctx_pure c p r p' : ctx c p = (r, p') → p' = p.
Proof. unfold ctx, gets, some. rewrite st_bind. by destruct (contexts p !! c); intros [= _ <-]. Qed.
Lemma parent_type_pure p r p' : parent_type p = (r, p') → p' = p.
Proof.
  unfold parent_type. rewrite st_bind. destruct (current p) as [[c|e] p1] eqn:E; apply current_pure in E as ->; [|by intros [= _ <-]].
  unfold some. rewrite st_bind. destruct (parent c) as [q|]; cbn [mret ST_ret]; [|by intros [= _ <-]]. rewrite st_bind.
  destruct (ctx q p) as [[k|e] p1] eqn:E; apply ctx_pure in E as ->; by intros [= _ <-].
Qed.
Lemma depth_enough p : pass_ok p → ∀ c, context_ p = Some c → c < depth p.
Proof. intros Hp c Hc. apply (co_current _ _ (po_contexts _ Hp)) in Hc. unfold depth. lia. Qed.
Lemma pop_to_switch_kept : kept (n ← gets depth; pop_to_switch n).
Proof.
  intros p r p' Hp. rewrite st_bind. unfold gets.
  apply (pop_until_rule pop_to_switch (ty ← parent_type; mret (bool_decide (ty = SWITCH)))); [| | |done|by apply depth_enough|unfold depth; lia].
  - intros n q. cbn [pop_to_switch]. rewrite !st_bind. destruct (parent_type q) as [[ty|e] q1]; [|done]. cbn [mret ST_ret]. by case_bool_decide.
  - apply keeps_bind; [apply _|apply parent_type_kept|]. intros ty. apply keeps_ret. apply _.
  - intros q b q'. rewrite st_bind. destruct (parent_type q) as [[ty|e] q1] eqn:E; apply parent_type_pure in E as ->; [by intros [= _ <-]|done].
Qed.
Lemma pop_to_kept types : kept (n ← gets depth; pop_to n types).
Proof.
  intros p r p' Hp. rewrite st_bind. unfold gets.
  apply (pop_until_rule (λ n, pop_to n types) (c ← current; mret (bool_decide (ctype c ∈ types)))); [| | |done|by apply depth_enough|unfold depth; lia].
  - intros n q. cbn [pop_to]. rewrite !st_bind. destruct (current q) as [[c|e] q1]; [|done]. cbn [mret ST_ret]. by case_bool_decide.
  - apply keeps_bind; [apply _|apply current_kept|]. intros ty. apply keeps_ret. apply _.
  - intros q b q'. rewrite st_bind. destruct (current q) as [[c|e] q1] eqn:E; apply current_pure in E as ->; [by intros [= _ <-]|done].
Qed.
Lemma next_code_kept : kept (next_code i).
Proof.
  intros p r p' Hp. unfold next_code, on_heap, SearchExcept.
  assert (Hs : seg (heap p) None (l1 ++ i :: l2) None) by (apply (seg_ext h0); [|done]; intros j _; apply fields_links, (po_text _ Hp)).
  rewrite (CustomSearch_spec _ _ _ _ _ _ _ false distinct Hs). intros [= <- <-]. destruct p. by split_and!.
Qed.

Create HintDb kept.
#[local] Hint Resolve some_kept tok_kept meta_kept ctx_kept current_kept parent_type_kept last_is_kept upd_meta_kept PopContext_kept
  PopContextType_kept pop_to_switch_kept pop_to_kept next_code_kept : kept.
Ltac walk :=
  cbv beta zeta;
  lazymatch goal with
  | |- keeps _ _ _ (mbind _ (gets _)) => first [solve [eauto with kept] | apply keeps_bind; [apply _|apply gets_kept|intros; walk]]
  | |- keeps _ _ _ (mbind _ _) => first [solve [eauto with kept] | apply keeps_bind; [apply _|walk|intros; walk]]
  | |- keeps _ _ _ (gets _) => apply gets_kept
  | |- keeps _ _ _ (mret _) => apply keeps_ret; apply _
  | |- keeps _ _ _ (match ?x with _ => _ end) => destruct x; walk
  | |- keeps _ _ _ (AddContext _) => apply AddContext_kept; try done
  | |- _ => eauto with kept
  end.
Lemma EndStatement_kept : kept EndStatement.
Proof.
  apply keeps_bind; [apply _|eauto with kept|]. intros _. apply keeps_bind; [apply _|eauto with kept|]. intros c.
  destruct (bool_decide _); [|walk]. intros p r p' Hp. unfold this_token. revert r p'. change (kept_at p (t ← (t ← gets token_; some t); upd_meta t mark_block_close;; PopContext;; mret tt)).
  apply keeps_at_bind; [apply _|apply keeps_at_keeps; [done|walk]|]. intros t p1 _ _ E. unfold gets, some in E. rewrite st_bind, (po_token _ Hp) in E. unfold mret, ST_ret in E.
  assert (t = i ∧ p1 = p) as [-> ->] by (split; congruence). apply keeps_at_keeps; [done|]. walk.
Qed.
Lemma enter_kept : kept enter.
Proof. unfold enter. walk. Qed.
Lemma check_implied_block_kept result : type t0 = END_PAREN → kept (check_implied_block i result).
Proof. intros Ht. unfold check_implied_block. walk; by rewrite Ht. Qed.
Lemma else_block_kept : type t0 = KEYWORD → kept (else_block i).
Proof. intros Ht. unfold else_block. walk; by rewrite Ht. Qed.
Lemma start_block_kept : type t0 = START_BLOCK → kept start_block.
Proof. intros Ht. unfold start_block. walk; case_match; by rewrite Ht. Qed.
Lemma colon_kept : type t0 = OPERATOR → kept colon.
Proof. intros Ht. unfold colon. walk; by rewrite Ht. Qed.

(** What the context of the token is. *)
Definition context_found (o : option nat) (p : Pass) : Prop :=
  match o with
  | Some c => ∃ k, contexts p !! c = Some k ∧ closes (type t0) (ctype k) = true ∧ context_ok (l1 ++ [i]) c k
  | None => ∀ ty, closes (type t0) ty = true
  end.
Lemma end_block_spec p : pass_ok p → kept_at p end_block ∧
  ∀ c p', end_block p = (Ok c, p') → ∃ k, contexts p' !! c = Some k ∧ ctype k ∈ [BLOCK; OBJECT_LITERAL; SWITCH] ∧ context_ok (l1 ++ [i]) c k.
Proof.
  intros Hp. split; [apply keeps_at_keeps; [done|unfold end_block; walk]|]. intros c p' Hr. unfold end_block in Hr.
  apply st_bind_Ok in Hr as (c1 & p1 & E1 & Hr). destruct (PopContextType_spec p [BLOCK; OBJECT_LITERAL] Hp) as [K1 S1]. destruct (K1 _ _ E1) as (Hp1 & R1 & _).
  destruct (S1 _ _ E1) as (k1 & Hk1 & Ht1 & Ho1). apply st_bind_Ok in Hr as (cur & p1' & E2 & Hr). assert (H := E2). apply current_pure in H as ->.
  case_bool_decide as Hsw.
  - destruct (PopContext_spec p1 Hp1) as [_ S2]. destruct (S2 _ _ Hr) as (q & k & Hc & _ & _ & _ & Hk & Hok). exists k. split_and!; [done| |done].
    apply current_run in E2 as (c0 & Hc0 & E0). assert (c0 = c) as -> by congruence.
    destruct (PopContext_kept p1 _ _ Hp1 Hr) as (_ & [_ _ _ C] & _).
    destruct (C c cur E0) as (k' & Hk' & Ht & _). assert (k' = k) as -> by congruence. rewrite Ht, Hsw. set_solver.
  - injection Hr as <- <-. exists k1. split_and!; [done|set_solver|done].
Qed.
Lemma tok_run p j t : heap p !! j = Some t → tok j p = (Ok t, p).
Proof. intros H. unfold tok, on_heap. rewrite (get_run _ _ _ H). by destruct p. Qed.
Lemma found_kept p (m : ST Pass unit) : pass_ok p → kept m → (∀ ty, closes (type t0) ty = true) →
  kept_at p (m;; mret (None : option nat)) ∧ ∀ o p', (m;; mret (None : option nat)) p = (Ok o, p') → context_found o p'.
Proof.
  intros Hp Hm Hc. split; [apply keeps_at_keeps; [done|]; apply keeps_bind; [apply _|done|intros; apply keeps_ret; apply _]|].
  intros o p' Hr. apply st_bind_Ok in Hr as (? & ? & _ & [= <- _]). exact Hc.
Qed.
Lemma found_popped p (m : ST Pass nat) (types : list ContextType) (f : nat → ST Pass unit) : pass_ok p →
  (kept_at p m ∧ ∀ c p', m p = (Ok c, p') → ∃ k, contexts p' !! c = Some k ∧ ctype k ∈ types ∧ context_ok (l1 ++ [i]) c k) →
  (∀ ty, ty ∈ types → closes (type t0) ty = true) → (∀ c, kept (f c)) →
  kept_at p (c ← m; f c;; mret (Some c)) ∧ ∀ o p', (c ← m; f c;; mret (Some c)) p = (Ok o, p') → context_found o p'.
Proof.
  intros Hp [K S] Ht Hf. split.
  - apply keeps_at_bind; [apply _|done|]. intros c p1 Hp1 _ _. apply keeps_at_keeps; [done|]. apply keeps_bind; [apply _|done|intros; apply keeps_ret; apply _].
  - intros o p' Hr. apply st_bind_Ok in Hr as (c & p1 & E1 & Hr). apply st_bind_Ok in Hr as (? & p2 & E2 & [= <- <-]).
    destruct (S _ _ E1) as (k & Hk & Hty & Hok). destruct (K _ _ E1) as (Hp1 & _). destruct (Hf c p1 _ _ Hp1 E2) as (Hp2 & [_ _ _ C] & _).
    destruct (C c k Hk) as (k' & Hk' & H1 & H2 & H3). exists k'. rewrite H1. split_and!; [done|by apply Ht|]. destruct Hok as [O1 O2].
    split; [by rewrite H3|by rewrite H1, H2].
Qed.
Lemma found_popped_only p (m : ST Pass nat) (types : list ContextType) : pass_ok p →
  (kept_at p m ∧ ∀ c p', m p = (Ok c, p') → ∃ k, contexts p' !! c = Some k ∧ ctype k ∈ types ∧ context_ok (l1 ++ [i]) c k) →
  (∀ ty, ty ∈ types → closes (type t0) ty = true) →
  kept_at p (c ← m; mret (Some c)) ∧ ∀ o p', (c ← m; mret (Some c)) p = (Ok o, p') → context_found o p'.
Proof.
  intros Hp Hm Ht. assert (Heq : ∀ q, (c ← m; mret (Some c)) q = (c ← m; mret tt;; mret (Some c)) q).
  { intros q. rewrite !st_bind. by destruct (m q) as [[c|e] q']. }
  destruct (found_popped p m types (λ _, mret tt) Hp Hm Ht) as [K S]; [intros c; apply keeps_ret; apply _|].
  split; intros r p'; rewrite Heq; [apply K|apply S].
Qed.
Lemma found_none p : pass_ok p → (∀ ty, closes (type t0) ty = true) →
  kept_at p (mret None : ST Pass (option nat)) ∧ ∀ o p', (mret None : ST Pass (option nat)) p = (Ok o, p') → context_found o p'.
Proof. intros Hp Hc. split; [apply keeps_at_ret; [apply _|done]|]. intros o p' [= <- <-]. exact Hc. Qed.
Lemma keyword_kept t : type t0 = KEYWORD →
  kept (if string_ t =s "else" then else_block i
        else if string_ t =s "switch" then AddContext SWITCH
        else if bool_decide (string_ t ∈ ["case"; "default"]) then n ← gets depth; pop_to_switch n
        else if string_ t =s "var" then AddContext VAR
        else mret tt).
Proof.
  intros Ht. repeat case_match; first [by apply else_block_kept|apply AddContext_kept; by rewrite Ht|apply pop_to_switch_kept|apply keeps_ret; apply _].
Qed.
Lemma operator_kept t : type t0 = OPERATOR →
  kept (if string_ t =s "?" then AddContext TERNARY_TRUE
        else if string_ t =s ":" then colon
        else if string_ t =s "," then n ← gets depth; pop_to n comma_types
        else mret tt).
Proof.
  intros Ht. repeat case_match; first [by apply colon_kept|apply AddContext_kept; by rewrite Ht|apply pop_to_kept|apply keeps_ret; apply _].
Qed.
Ltac closing H := by intros ty Hty; repeat (apply elem_of_cons in Hty as [->|Hty]; [by rewrite H|]); apply elem_of_nil in Hty.
Lemma token_context_spec p t : pass_ok p → type t = type t0 → kept_at p (token_context i t) ∧
  ∀ o p', token_context i t p = (Ok o, p') → context_found o p'.
Proof.
  intros Hp Ht. unfold token_context. rewrite Ht. destruct (type t0) eqn:Et0; cbv beta zeta;
    try (apply found_none; [done|by intros ty; rewrite Et0]); try (apply found_kept; [done| |by intros ty; rewrite Et0]).
  - by apply start_block_kept.
  - eapply found_popped_only; [done|by apply end_block_spec|closing Et0].
  - walk. case_match; by rewrite Et0.
  - eapply (found_popped p _ _ (check_implied_block i)); [done|by apply PopContextType_spec|closing Et0|intros c; by apply check_implied_block_kept].
  - walk. case_match; by rewrite Et0.
  - eapply found_popped_only; [done|by apply PopContextType_spec|closing Et0].
  - apply AddContext_kept. by rewrite Et0.
  - eapply found_popped_only; [done|by apply PopContextType_spec|closing Et0].
  - apply EndStatement_kept.
  - by apply keyword_kept.
  - by apply operator_kept.
Qed.
Lemma this_type p : pass_ok p → ∃ t, heap p !! i = Some t ∧ type t = type t0 ∧ IsCode t = IsCode t0.
Proof.
  intros [T _ _]. specialize (T i). rewrite this in T. destruct (heap p !! i) as [t|]; [|done]. exists t. assert (H : type t = type t0).
  { apply (f_equal (fmap (M := option) type)) in T. cbn in T. congruence. }
  split_and!; [done|done|]. unfold IsCode. by rewrite H.
Qed.
Lemma ProcessContext_spec p : pass_ok p → kept_at p (ProcessContext i) ∧
  ∀ o p', ProcessContext i p = (Ok o, p') → context_found o p'.
Proof.
  intros Hp. destruct (this_type p Hp) as (t & Ht & Hty & _).
  assert (Heq : ProcessContext i p = (enter;; token_context i t) p) by (unfold ProcessContext; by rewrite st_bind, (tok_run _ _ _ Ht)).
  assert (K := enter_kept p). split.
  - cut (kept_at p (enter;; token_context i t)); [intros H r p'; rewrite Heq; apply H|].
    apply keeps_at_bind; [apply _|by apply keeps_at_keeps, enter_kept|]. intros [] p1 Hp1 _ _. by apply token_context_spec.
  - intros o p'. rewrite Heq. intros Hr. apply st_bind_Ok in Hr as ([] & p1 & E & Hr). destruct (K _ _ Hp E) as (Hp1 & _).
    by apply (token_context_spec p1 t Hp1 Hty).
Qed.
Lemma StatementCouldEndInContext_kept : kept StatementCouldEndInContext.
Proof. unfold StatementCouldEndInContext. walk. Qed.
#[local] Hint Resolve StatementCouldEndInContext_kept EndStatement_kept : kept.
Lemma is_implied_kept nc : kept (is_implied i nc).
Proof. unfold is_implied. destruct nc; walk. Qed.
#[local] Hint Resolve is_implied_kept : kept.
Lemma finish_token_kept l : kept (finish_token i l).
Proof. unfold finish_token. destruct l; walk. Qed.

(** The context is there when the token is done. *)
Lemma EndStatement_some p r p' : pass_ok p → EndStatement p = (Ok r, p') → is_Some (context_ p').
Proof.
  intros Hp Hr. unfold EndStatement in Hr. apply st_bind_Ok in Hr as (c & p1 & E1 & Hr). apply PopContextType_kept in E1 as (Hp1 & _); [|done].
  apply st_bind_Ok in Hr as (k & p1' & E2 & Hr). assert (H := E2). apply current_pure in H as ->. case_bool_decide.
  - apply st_bind_Ok in Hr as (t & p2 & E3 & Hr). assert (p2 = p1 ∧ t = i) as [-> ->].
    { unfold this_token, gets, some in E3. rewrite st_bind, (po_token _ Hp1) in E3. unfold mret, ST_ret in E3. by simplify_eq. }
    apply st_bind_Ok in Hr as ([] & p3 & E4 & Hr). apply upd_meta_kept in E4 as (Hp3 & _); [|done|done].
    apply st_bind_Ok in Hr as (c2 & p4 & E5 & [= _ <-]). apply PopContext_spec in E5 as (q & ? & _ & -> & _); [by eexists|done].
  - injection Hr as _ <-. apply current_run in E2 as (q & -> & _). by eexists.
Qed.
Lemma is_implied_some nc p b p' t m : is_implied i nc p = (Ok b, p') → heap p !! i = Some t → metadata t = Some m → is_Some (context m).
Proof.
  intros Hr Ht Hm. unfold is_implied in Hr. apply st_bind_Ok in Hr as (t' & p1 & E1 & Hr). rewrite (tok_run _ _ _ Ht) in E1. injection E1 as <- <-.
  apply st_bind_Ok in Hr as (n & p1 & E1 & Hr). assert (p1 = p) as ->.
  { destruct nc as [nc|]; [|by injection E1]. apply st_bind_Ok in E1 as (u & p2 & E1 & [= _ <-]). unfold tok, on_heap, get, gets in E1. rewrite st_bind in E1.
    destruct (heap p !! nc); [|done]. injection E1 as _ <-. by destruct p. }
  clear E1. apply st_bind_Ok in Hr as (m' & p1 & E1 & Hr). unfold meta, on_heap in E1. rewrite (get_meta_run _ _ _ _ Ht Hm) in E1. injection E1 as <- <-.
  apply st_bind_Ok in Hr as (c & p2 & E2 & _). destruct (context m); [by eexists|done].
Qed.
Lemma finish_token_some l p r p' m : pass_ok p → (meta_view <$> heap p !! i) = Some (Some (last_code m, context m)) →
  finish_token i l p = (Ok r, p') → type t0 ≠ SEMICOLON → is_Some (context m).
Proof.
  intros Hp Hv Hr Hty. destruct (this_type p Hp) as (t & Ht & Ht' & _). unfold finish_token in Hr. rewrite st_bind, (tok_run _ _ _ Ht) in Hr. cbv beta iota in Hr.
  apply st_bind_Ok in Hr as ([] & p1 & E1 & Hr).
  assert (H : meta_view <$> heap p1 !! i = Some (Some (last_code m, context m)) ∧ pass_ok p1).
  { revert E1. assert (K : kept (if bool_decide (type t = OPERATOR) then
     lt ← match l with Some l => l ← tok l; mret (Some l) | None => mret None end;
     upd_meta i (set_operator (Some (GetOperatorType t lt))) else mret tt)) by (destruct l; walk).
    intros E1%K; [|done]. destruct E1 as (Hp1 & [_ _ M _] & _). split; [by rewrite M|done]. }
  destruct H as [Hv1 Hp1]. rewrite Ht', bool_decide_true in Hr by done. apply st_bind_Ok in Hr as (nc & p2 & E2 & Hr).
  apply next_code_kept in E2 as (Hp2 & [_ _ M2 _] & _); [|done]. apply st_bind_Ok in Hr as (b & p3 & E3 & _).
  rewrite Hv1 in M2. destruct (heap p2 !! i) as [t2|] eqn:Ht2; [|done]. cbn in M2. unfold meta_view in M2. destruct (metadata t2) as [m2|] eqn:Hm2; [|done].
  cbn in M2. injection M2 as _ <-. by eapply is_implied_some.
Qed.

(** ** A token that is done *)
Definition described (past : list nat) (p : Pass) (j : nat) (last : option nat) : Prop :=
  ∃ t m c k, heap p !! j = Some t ∧ metadata t = Some m ∧ last_code m = last ∧ context m = Some c ∧ contexts p !! c = Some k ∧
    closes (type t) (ctype k) = true ∧ context_ok past c k.
Lemma described_kept past p p' j last : described past p j last → contexts_kept p p' → same_but_code (heap p) (heap p') → meta_view <$> heap p' !! j = meta_view <$> heap p !! j →
  described past p' j last.
Proof.
  intros (t & m & c & k & Ht & Hm & Hl & Hc & Hk & Hcl & [O1 O2]) C T V. specialize (T j). rewrite Ht in T, V. destruct (heap p' !! j) as [t'|] eqn:Ht'; [|done].
  cbn in V. unfold meta_view in V. rewrite Hm in V. cbn in V. destruct (metadata t') as [m'|] eqn:Hm'; [|done]. injection V as V1 V2.
  destruct (C c k Hk) as (k' & Hk' & H1 & H2 & H3). exists t', m', c, k'. apply (f_equal (fmap (M := option) type)) in T. cbn in T.
  assert (Hty : type t' = type t) by congruence. split_and!; try congruence. split; [by rewrite H3|by rewrite H1, H2].
Qed.
Lemma semicolon_some p o p' : pass_ok p → type t0 = SEMICOLON → ProcessContext i p = (Ok o, p') → o = None ∧ is_Some (context_ p').
Proof.
  intros Hp Hs Hr. destruct (this_type p Hp) as (t & Ht & Hty & _). unfold ProcessContext in Hr. rewrite st_bind, (tok_run _ _ _ Ht) in Hr. cbv beta iota in Hr.
  apply st_bind_Ok in Hr as ([] & p1 & E1 & Hr). apply enter_kept in E1 as (Hp1 & _); [|done]. unfold token_context in Hr. rewrite Hty, Hs in Hr. cbv beta zeta in Hr.
  apply st_bind_Ok in Hr as ([] & p2 & E2 & [= <- <-]). split; [done|]. by eapply EndStatement_some.
Qed.
Record token_kept (p p' : Pass) : Prop := {
  tk_last : last_code_ p' = last_code_ p;
  tk_others : ∀ j, j ≠ i → heap p' !! j = heap p !! j;
  tk_contexts : contexts_kept p p' }.
Lemma ProcessToken_spec p r p' : pass_ok p → ProcessToken i p = (r, p') →
  pass_ok p' ∧ token_kept p p' ∧ (∀ e, r = Err e → parse_exn e) ∧ (r = Ok tt → described (l1 ++ [i]) p' i (last_code_ p)).
Proof.
  intros Hp. destruct (this_type p Hp) as (t & Ht & Hty & _). set (p1 := with_heap p (alter (λ t, set_meta t (Some no_MetaData)) i (heap p))).
  assert (Hp1 : pass_ok p1) by by apply set_meta_ok.
  assert (Hv1 : meta_view <$> heap p1 !! i = Some (Some (None, None))) by (cbn; by rewrite list_lookup_alter_eq, Ht).
  assert (Ho1 : ∀ j, j ≠ i → heap p1 !! j = heap p !! j) by (intros j Hj; cbn; by rewrite list_lookup_alter_ne).
  unfold ProcessToken. rewrite st_bind. change (on_heap _ p) with (Ok tt, p1). cbv beta iota. rewrite st_bind. destruct (ProcessContext_spec p1 Hp1) as [K1 S1].
  destruct (ProcessContext i p1) as [[o|e] p2] eqn:E; destruct (K1 _ _ E) as (Hp2 & [L2 O2 V2 C2] & Herr).
  2: { intros [= <- <-]. split_and!; [done| |intros e' [= <-]; by apply Herr|done]. split; [done|intros j Hj; by rewrite O2, Ho1|done]. }
  specialize (S1 o p2 eq_refl). rewrite Hv1 in V2. destruct (heap p2 !! i) as [t2|] eqn:Ht2; [|done]. cbn in V2. unfold meta_view in V2.
  destruct (metadata t2) as [m2|] eqn:Hm2; [|done].
  rewrite st_bind. unfold gets at 1. cbv beta iota. rewrite st_bind, (upd_meta_run _ _ _ _ _ Ht2 Hm2). cbv beta iota.
  set (cc := match o with Some c => Some c | None => context_ p2 end). set (p3 := with_heap p2 _). assert (Hp3 : pass_ok p3) by by apply set_meta_ok.
  rewrite st_bind. unfold gets at 1. cbv beta iota. change (last_code_ p3) with (last_code_ p2). rewrite L2. change (last_code_ p1) with (last_code_ p).
  assert (Ht3 : heap p3 !! i = Some (set_meta t2 (Some (set_context cc m2)))) by (cbn; by rewrite list_lookup_alter_eq, Ht2).
  rewrite st_bind, (upd_meta_run _ _ _ _ _ Ht3 eq_refl). cbv beta iota. set (p4 := with_heap p3 _). assert (Hp4 : pass_ok p4) by by apply set_meta_ok.
  set (m4 := with_last_code (set_context cc m2) (last_code_ p)).
  assert (Ht4 : heap p4 !! i = Some (set_meta t2 (Some m4))) by (unfold p4; cbn [heap with_heap]; by rewrite list_lookup_alter_eq, Ht3).
  intros Hr. assert (H := Hr). apply finish_token_kept in H as (Hp' & [L' O' V' C'] & Herr'); [|done].
  split_and!; [done| |done|].
  - split; [by rewrite L'|intros j Hj|].
    + rewrite O' by done. unfold p4, p3. cbn [heap with_heap]. by rewrite !list_lookup_alter_ne, O2, Ho1.
    + intros c k Hk. destruct (C2 c k Hk) as (k2 & Hk2 & ? & ? & ?). destruct (C' c k2 Hk2) as (k' & Hk' & ? & ? & ?). exists k'. split_and!; congruence.
  - intros ->. assert (Hsome : is_Some cc).
    { destruct (decide (type t0 = SEMICOLON)) as [Hs|Hs].
      - apply semicolon_some in E as [-> Hsome]; [done|done|done].
      - apply (finish_token_some (last_code_ p) p4 tt p' m4 Hp4); [by rewrite Ht4|done|done]. }
    destruct Hsome as [c Hc].
    assert (Hfound : ∃ k, contexts p2 !! c = Some k ∧ closes (type t0) (ctype k) = true ∧ context_ok (l1 ++ [i]) c k).
    { unfold cc in Hc. destruct o as [c'|]; [injection Hc as ->; exact S1|]. destruct (po_contexts _ Hp2) as [CE CC]. assert (Hlt := CC c Hc).
      apply lookup_lt_is_Some in Hlt as [k Hk]. exists k. split_and!; [done|by apply S1|by apply CE]. }
    destruct Hfound as (k & Hk & Hcl & Hok). eapply (described_kept _ p4); [|exact C'| |by rewrite V'].
    + exists (set_meta t2 (Some m4)), m4, c, k. split_and!; try done. destruct (this_type p2 Hp2) as (t2' & Ht2' & Hty2 & _). cbn. by simplify_eq; rewrite Hty2.
    + destruct Hp' as [T' _ _], Hp4 as [T4 _ _]. intros j. by rewrite T', T4.
Qed.
End Keeps.

(** ** The pass *)

Lemma code_after_text h h' c l : same_but_code h h' → code_after h' c l = code_after h c l.
Proof.
  intros H. apply code_after_ext. intros j _. exact (part (λ t, set_meta t None) IsCode _ _ (H j)).
Qed.
Lemma context_ok_more h l l' c k : (∀ j, j ∈ l → j ∈ l') → context_ok h l c k → context_ok h l' c k.
Proof. intros H [H1 H2]. split; [done|]. intros Hr. destruct (H2 Hr) as (s & t & ? & ? & ? & ?). exists s, t. split_and!; auto. Qed.
Lemma last_or_snoc_code h c l i t : h !! i = Some t → code_after h c (l ++ [i]) = if IsCode t then Some i else code_after h c l.
Proof. revert c. induction l as [|j l IH]; intros c Hi; cbn [app code_after]; [by rewrite Hi|by apply IH]. Qed.
Record loop_ok (h0 : Heap) (l1 l2 : list nat) (p : Pass) : Prop := {
  lo_text : same_but_code h0 (heap p);
  lo_token : token_ p = hd_or l2 None;
  lo_contexts : contexts_ok h0 l1 p;
  lo_last : last_code_ p = code_after h0 None l1;
  lo_done : ∀ a j b, l1 = a ++ j :: b → described h0 (a ++ [j]) p j (code_after h0 None a) }.
Lemma loop_step h0 l1 i l2 p t : seg h0 None (l1 ++ i :: l2) None → NoDup (l1 ++ i :: l2) → loop_ok h0 l1 (i :: l2) p → h0 !! i = Some t →
  ∀ r p1, ProcessToken i p = (r, p1) → same_but_code h0 (heap p1) ∧ (∀ e, r = Err e → parse_exn e) ∧
    (r = Ok tt → ∃ t1, heap p1 !! i = Some t1 ∧ next t1 = hd_or l2 None ∧ IsCode t1 = IsCode t ∧
      loop_ok h0 (l1 ++ [i]) l2 (with_token (if IsCode t1 then with_last p1 (Some i) else p1) (next t1))).
Proof.
  intros Hs Hd [T K [E C] L D] Ht r p1 Hr.
  assert (Hp : pass_ok h0 l1 i p).
  { split; [done|done|]. split; [|done]. intros c k Hk. eapply context_ok_more; [|by apply E]. set_solver. }
  destruct (ProcessToken_spec h0 l1 i l2 t Hs Hd Ht p r p1 Hp Hr) as (Hp1 & [L1 O1 C1] & Herr & Hdone). split_and!; [apply Hp1|done|]. intros ->.
  specialize (Hdone eq_refl). destruct (this_type h0 l1 i t Ht p1 Hp1) as (t1 & Ht1 & _ & Hcode). exists t1.
  assert (Hn : next t1 = hd_or l2 None).
  { assert (Hs1 : seg (heap p1) None (l1 ++ i :: l2) None) by (apply (seg_ext h0); [|done]; intros j _; apply fields_links, (po_text _ _ _ _ Hp1)).
    apply seg_app in Hs1 as [_ (t' & Ht' & _ & Hn & _)]. by simplify_eq. }
  split_and!; [done|done|done|]. destruct Hp1 as [T1 _ X1].
  assert (Hin : i ∉ l1) by (apply NoDup_app in Hd as (_ & Hd & _); intros H; apply (Hd i H); left).
  split; [by destruct (IsCode t1)|by destruct (IsCode t1)|destruct X1; by destruct (IsCode t1); split| |].
  - rewrite (last_or_snoc_code _ _ _ _ _ Ht), <-Hcode. destruct (IsCode t1); [done|]. cbn. by rewrite L1.
  - intros a j b Hl. assert (Hw : ∀ past j last, described h0 past p1 j last →
      described h0 past (with_token (if IsCode t1 then with_last p1 (Some i) else p1) (next t1)) j last) by (intros; by destruct (IsCode t1)).
    apply Hw. destruct b as [|b' b _] using rev_ind.
    + apply app_inj_tail in Hl as [-> ->]. by rewrite <-L.
    + rewrite app_comm_cons, app_assoc in Hl. apply app_inj_tail in Hl as [-> ->]. eapply described_kept; [by apply (D a j b)|done| |].
      * intros j'. by rewrite T, T1.
      * rewrite O1; [done|]. intros ->. apply Hin. set_solver.
Qed.
Lemma process_loop_spec h0 l2 : ∀ fuel l1 p r p', seg h0 None (l1 ++ l2) None → NoDup (l1 ++ l2) → loop_ok h0 l1 l2 p → length l2 < fuel →
  process_loop fuel p = (r, p') →
  same_but_code h0 (heap p') ∧ (∀ e, r = Err e → parse_exn e) ∧ (r = Ok tt → loop_ok h0 (l1 ++ l2) [] p').
Proof.
  induction l2 as [|i l2 IH]; intros [|fuel] l1 p r p' Hs Hd Hp Hf; cbn [length] in Hf; try lia.
  - cbn [process_loop]. unfold gets. rewrite st_bind, (lo_token _ _ _ _ Hp). intros [= <- <-]. rewrite app_nil_r. split_and!; [apply Hp|done|done].
  - assert (Hi : is_Some (h0 !! i)) by (apply (seg_in _ _ _ _ _ Hs); set_solver). destruct Hi as [t Ht].
    cbn [process_loop]. unfold gets. rewrite st_bind, (lo_token _ _ _ _ Hp). cbv beta iota. cbn [hd_or]. rewrite st_bind.
    destruct (ProcessToken i p) as [r1 p1] eqn:E. destruct (loop_step h0 l1 i l2 p t Hs Hd Hp Ht r1 p1 E) as (T1 & Herr & Hok).
    destruct r1 as [[]|e]; [|intros [= <- <-]; split_and!; [done|intros e' [= <-]; by apply Herr|done]].
    destruct (Hok eq_refl) as (t1 & Ht1 & Hn & _ & Hp1). rewrite st_bind, (tok_run _ _ _ Ht1). cbv beta iota. intros Hr.
    assert (Hr' : process_loop fuel (with_token (if IsCode t1 then with_last p1 (Some i) else p1) (next t1)) = (r, p')).
    { rewrite <-Hr. unfold modify. rewrite st_bind. by destruct (IsCode t1). }
    rewrite cons_middle, app_assoc in Hs, Hd |- *. eapply (IH fuel (l1 ++ [i])); [done|done|exact Hp1|lia|exact Hr'].
Qed.
(** The contexts that are left are popped. *)
Lemma pop_types_end types fuel : ∀ p r p', (∀ c k q, contexts p !! c = Some k → parent k = Some q → q < c) → (∀ c, context_ p = Some c → c < fuel ∧ c < length (contexts p)) →
  0 < fuel → pop_types fuel types p = (r, p') → heap p' = heap p ∧ contexts_kept p p' ∧ (∀ e, r = Err e → parse_exn e).
Proof.
  induction fuel as [|fuel IH]; intros p r p' E C Hf; [lia|]. cbn [pop_types]. rewrite st_bind. destruct (context_ p) as [c|] eqn:Hc.
  2: { rewrite PopContext_none by done. intros [= <- <-]. split_and!; [done| |intros e [= <-]; apply attribute_error]. intros c k Hk. by exists k. }
  destruct (C c eq_refl) as [C1 C2]. apply lookup_lt_is_Some in C2 as [k Hk]. rewrite (PopContext_eq p c k Hc Hk).
  set (p1 := mkPass _ _ _ _ _).
  assert (Hlook : ∀ d, contexts p1 !! d = (if decide (d = c) then ends (token_ p) <$> contexts p !! d else contexts p !! d)).
  { intros d. cbn. destruct (decide (d = c)) as [->|Hn]; [by rewrite list_lookup_alter_eq|by rewrite list_lookup_alter_ne]. }
  assert (Hkept : contexts_kept p p1).
  { intros d k' Hk'. rewrite Hlook, Hk'. by destruct (decide (d = c)); eexists. }
  destruct (parent k) as [q|] eqn:Hq.
  - rewrite st_bind, (ctx_run p1 c (ends (token_ p) k)) by (rewrite Hlook, decide_True, Hk by done; done). cbv beta iota.
    case_bool_decide; [by intros [= <- <-]|]. intros Hr. apply IH in Hr as (H1 & H2 & H3).
    + split_and!; [done| |done]. intros d k' Hk'. destruct (Hkept d k' Hk') as (k1 & Hk1 & ? & ? & ?). destruct (H2 d k1 Hk1) as (k2 & Hk2 & ? & ? & ?). exists k2. split_and!; congruence.
    + intros d k' q'. rewrite Hlook. destruct (decide (d = c)) as [->|]; [|apply E]. rewrite Hk. intros [= <-] Hq'. by apply (E c k).
    + intros d [= <-]. cbn. rewrite length_alter. assert (Hqc := E c k q Hk Hq). apply lookup_lt_Some in Hk. lia.
    + assert (Hqc := E c k q Hk Hq). lia.
  - intros [= <- <-]. split_and!; [done|done|]. intros e [= <-]. right. by eexists.
Qed.

Lemma reset_ok h l : loop_ok h [] l (with_token (Reset h) (hd_or l None)).
Proof.
  split; [done|done| |done|by intros [|? ?] ? ?]. split; cbn.
  - intros c k Hk. apply list_lookup_singleton_Some in Hk as [-> <-]. by split.
  - intros c [= <-]. lia.
Qed.
Lemma described_coded h0 h l : same_but_code h0 h →
  (∀ a j b, l = a ++ j :: b → ∃ t m, h !! j = Some t ∧ metadata t = Some m ∧ last_code m = code_after h0 None a) → coded h None l.
Proof.
  intros T. induction l as [|i l IH] using rev_ind; intros H; [done|]. apply coded_app. split.
  - apply IH. intros a j b ->. apply (H a j (b ++ [i])). by rewrite <-app_assoc.
  - destruct (H l i [] eq_refl) as (t & m & Ht & Hm & Hl). exists t, m. by rewrite (code_after_text _ _ _ _ T).
Qed.
Lemma Process_spec h l r p' : seg h None l None → NoDup l → Process (hd_or l None) (Reset h) = (r, p') →
  same_but_code h (heap p') ∧ (∀ e, r = Err e → parse_exn e) ∧
  (r = Ok tt → coded (heap p') None l ∧
    ∀ a j b, l = a ++ j :: b → ∃ t m c k, heap p' !! j = Some t ∧ metadata t = Some m ∧ context m = Some c ∧ contexts p' !! c = Some k ∧
      closes (type t) (ctype k) = true ∧
      (ctype k ≠ ROOT → ∃ s u, start_token k = Some s ∧ s ∈ a ++ [j] ∧ h !! s = Some u ∧ opens (ctype k) (type u) = true)).
Proof.
  intros Hs Hd. unfold Process. rewrite st_bind. cbv beta iota. unfold modify, gets. rewrite st_bind. cbv beta iota. rewrite st_bind.
  destruct (process_loop _ _) as [r1 p1] eqn:E. assert (Hlen := seg_length _ _ _ _ Hd Hs).
  destruct (process_loop_spec h l (all_rounds h) [] _ _ _ Hs Hd (reset_ok h l) ltac:(unfold all_rounds; lia) E) as (T1 & Herr & Hok).
  destruct r1 as [[]|e]; [|intros [= <- <-]; split_and!; [done|intros e' [= <-]; by apply Herr|done]].
  destruct (Hok eq_refl) as [_ _ [C1 C2] _ D]. rewrite st_bind. unfold attempt. destruct (PopContextType [ROOT] p1) as [r2 p2] eqn:E2.
  assert (Hend := E2). apply (pop_types_end [ROOT] (depth p1)) in Hend as (Hh & Hk & He).
  2: { intros c k q Hc Hq. by apply (C1 c k). }
  2: { intros c Hc%C2. unfold depth. lia. }
  2: { unfold depth. lia. }
  cbv beta iota. intros Hr. assert (Hp' : p' = p2) by (destruct r2 as [|[]]; injection Hr; done). subst p'. rewrite Hh. split_and!; [done| |].
  - intros e ->. apply He. destruct r2 as [|e2]; [done|]. destruct e2; injection Hr; intros; by subst.
  - intros _. split.
    + apply (described_coded h); [done|]. intros a j b Hl. destruct (D a j b Hl) as (t & m & c & k & Ht & Hm & Hlast & _). by exists t, m.
    + intros a j b Hl. destruct (D a j b Hl) as (t & m & c & k & Ht & Hm & _ & Hc & Hck & Hcl & [_ Ho]). destruct (Hk c k Hck) as (k' & Hk' & Hty & Hst & _).
      exists t, m, c, k'. rewrite Hty, Hst. by split_and!.
Qed.

Lemma same_length h h' : same_but_code h h' → length h' = length h.
Proof.
  intros T. apply Nat.le_antisymm; apply Nat.nlt_ge; intros Hlt.
  - specialize (T (length h)). apply lookup_lt_is_Some in Hlt as [t Ht]. rewrite Ht, lookup_ge_None_2 in T; done.
  - specialize (T (length h')). apply lookup_lt_is_Some in Hlt as [t Ht]. rewrite Ht, lookup_ge_None_2 in T; done.
Qed.
(** The analysis of a file. *)
Lemma analyse_spec file : ∃ r p, analyse file = Ok (r, p) ∧ (∀ e, r = Err e → parse_exn e) ∧
  (∀ k l, file !! k = Some l → line_text (Z.of_nat (S k)) (content (heap p)) = rstrip_line l) ∧
  (r = Ok tt → stream (heap p) (seq 0 (length (heap p))) ∧
    ∀ j t, heap p !! j = Some t → ∃ m c k, metadata t = Some m ∧ context m = Some c ∧ contexts p !! c = Some k ∧
      closes (type t) (ctype k) = true ∧
      (ctype k ≠ ROOT → ∃ s u, start_token k = Some s ∧ s ≤ j ∧ heap p !! s = Some u ∧ opens (ctype k) (type u) = true)).
Proof.
  destruct (tokenize_js_spec true file) as (s & E & _ & _ & Htext & Hseg & Hplaced & _). unfold analyse. rewrite E.
  set (h := toks s) in *. assert (Hd := NoDup_seq 0 (length h)). destruct (Process (hd_or (seq 0 (length h)) None) (Reset h)) as [r p] eqn:EP. exists r, p.
  destruct (Process_spec h _ r p Hseg Hd EP) as (T & Herr & Hok). assert (Hlen : length (heap p) = length h) by by apply same_length.
  assert (Hc : content (heap p) = content h).
  { apply list_eq. intros j. unfold content. rewrite !list_lookup_fmap. exact (part (λ t, set_meta t None) (λ t, (string_ t, line_number t)) _ _ (T j)). }
  rewrite Hc, Hlen. split_and!; [by rewrite <-EP|done|done|]. intros ->. destruct (Hok eq_refl) as [Hcoded Hctx]. split.
  - split; [done| |done|].
    + apply (seg_ext h); [|done]. intros j _. apply fields_links, T.
    + apply (placed_ext h); [|done]. intros j _. exact (part (λ t, set_meta t None) (λ t, (line_number t, start_index t, string_ t)) _ _ (T j)).
  - intros j t Ht. assert (Hj : j < length h) by (apply lookup_lt_Some in Ht; lia).
    destruct (Hctx (seq 0 j) j (seq (S j) (length h - S j))) as (t' & m & c & k & Ht' & Hm & Hc' & Hk & Hcl & Ho).
    { change (j :: seq (S j) (length h - S j)) with (seq j (S (length h - S j))). rewrite <-(seq_app j _ 0). f_equal. lia. }
    simplify_eq. exists m, c, k. split_and!; [done..|]. intros Hr. destruct (Ho Hr) as (s' & u & Hs & Hin & Hu & Hop).
    assert (Hu' := T s'). rewrite Hu in Hu'. destruct (heap p !! s') as [u'|] eqn:Eu; [|done]. exists s', u'. split_and!; [done| |done|].
    + apply elem_of_app in Hin as [Hin%elem_of_seq|Hin%list_elem_of_singleton]; lia.
    + apply (f_equal (fmap (M := option) type)) in Hu'. cbn in Hu'. assert (type u' = type u) as -> by congruence. done.
Qed.
(** C24: Of any file the tokenizer and the metadata pass make, in one way or another, an end:
    the analysis gives a result, or a ParseError, or an AttributeError where the pass follows
    something that is None.  The text of the lines is kept.  When there is no exception, the
    tokens are a stream: linked both ways, each with its place in the line and the last token
    of code before it, which is what the functions that edit tokens rely on.  Each token has a
    context; a bracket that closes has a context that such a bracket closes; and every
    context but the root was opened at the token or before it, by a token of the type that
    opens such a context. *)
Theorem analyse_correct file : ∃ r p, analyse file = Ok (r, p) ∧ (∀ e, r = Err e → parse_exn e) ∧
  (∀ k l, file !! k = Some l → line_text (Z.of_nat (S k)) (content (heap p)) = rstrip_line l) ∧
  (r = Ok tt → stream (heap p) (seq 0 (length (heap p))) ∧
    ∀ j t, heap p !! j = Some t → ∃ m c k, metadata t = Some m ∧ context m = Some c ∧ contexts p !! c = Some k ∧
      closes (type t) (ctype k) = true ∧
      (ctype k ≠ ROOT → ∃ s u, start_token k = Some s ∧ s ≤ j ∧ heap p !! s = Some u ∧ opens (ctype k) (type u) = true)).
Proof. apply analyse_spec. Qed.

(** ** Examples *)

Definition context_names (file : list string) : list (string * option ContextType) :=
  match analyse file with
  | Ok (_, p) => (λ t, (string_ t, m ← metadata t; c ← context m; ctype <$> contexts p !! c)) <$> List.filter IsCode (heap p)
  | Err _ => []
  end.
Definition implied_semicolons (file : list string) : list string :=
  match analyse file with
  | Ok (_, p) => string_ <$> List.filter (λ t, match metadata t with Some m => is_implied_semicolon m | None => false end) (heap p)
  | Err _ => []
  end.
Example contexts_of_a_call : context_names ["f(x, [1])"] =
  [("f", Some STATEMENT); ("(", Some GROUP); ("x", Some GROUP); (",", Some GROUP); ("[", Some ARRAY_LITERAL); ("1", Some LITERAL_ELEMENT);
   ("]", Some ARRAY_LITERAL); (")", Some GROUP)].
Proof. by vm_compute. Qed.
Example semicolons_of_two_lines : implied_semicolons ["var a = 1"; "a.b("; "  2)"; "a +"; "1;"] = ["1"; ")"].
Proof. by vm_compute. Qed.

(** [~] is no operator of the tokenizer: after it a list is taken for an index. *)
Example list_after_tilde : context_names ["~[1]"; "![1]"] =
  [("~", Some STATEMENT); ("[", Some INDEX); ("1", Some INDEX); ("]", Some INDEX); ("!", Some STATEMENT);
   ("[", Some ARRAY_LITERAL); ("1", Some LITERAL_ELEMENT); ("]", Some ARRAY_LITERAL)].
Proof. by vm_compute. Qed.
Definition outcome (file : list string) : res unit := '(r, _) ← analyse file; r.
(** No ParseError, where nothing is the last token of code, the next one or the parent. *)
Example fails_at_first_block : outcome ["{ f(); }"] = Err AttributeError.
Proof. by vm_compute. Qed.
Example fails_at_end : outcome ["if (x)"] = Err AttributeError.
Proof. by vm_compute. Qed.
Example fails_at_case : outcome ["case 1: f();"] = Err AttributeError.
Proof. by vm_compute. Qed.
Example no_group_to_close : outcome ["f();"; ")"] = Err (ParseError (Some 4)).
Proof. by vm_compute. Qed.
