(* ===== verification/ClIndent.v ===== *)
(** * Indentation (tools/closure_linter: indentation.py)

    A stack of tokens that affect the indentation, the set of indentations that it allows,
    and the report of a line that has none of them. *)
From stdpp Require Import gmap sorting.
From S2P Require Import Prelude PyStr PyState ClTokens ClTokenizer ClMeta.

(** ** The state *)

(** [TokenInfo]: the objects are named by numbers. *)
Record TokenInfo := mkInfo {
  info_token : nat;
  overridden_by : option nat;
  is_permanent_override : bool;
  is_block : bool;
  is_transient : bool;
  info_line : Z }.
Definition override (s : TokenInfo) o := mkInfo (info_token s) o (is_permanent_override s) (is_block s) (is_transient s) (info_line s).
Definition set_permanent (s : TokenInfo) p := mkInfo (info_token s) (overridden_by s) p (is_block s) (is_transient s) (info_line s).
(** [IndentationRules], with the tokens and contexts it looks at.  The stack has its top first. *)
Record Rules := mkRules { pass : Pass; infos : list TokenInfo; stack : list nat; start_index_offset : gmap Z Z }.
Definition with_infos (s : Rules) l := mkRules (pass s) l (stack s) (start_index_offset s).
Definition with_stack (s : Rules) l := mkRules (pass s) (infos s) l (start_index_offset s).
Definition with_offset (s : Rules) o := mkRules (pass s) (infos s) (stack s) o.
Definition new_Rules (p : Pass) : Rules := mkRules p [] [] ∅.

Definition in_pass {A} (m : ST Pass A) : ST Rules A := λ s, let '(r, p) := m (pass s) in (r, mkRules p (infos s) (stack s) (start_index_offset s)).
Definition itok (i : nat) : ST Rules Token := in_pass (tok i).
Definition imeta (i : nat) : ST Rules MetaData := in_pass (meta i).
(** [token.metadata.context] *)
Definition context_of (i : nat) : ST Rules Context := m ← imeta i; in_pass (c ← some (context m); ctx c).
Definition get_info (k : nat) : ST Rules TokenInfo :=
  o ← gets (λ s, (infos s !! k : option TokenInfo)); match o with Some x => mret x | None => throw AttributeError end.
Definition upd_info (k : nat) (f : TokenInfo → TokenInfo) : ST Rules unit := modify (λ s, with_infos s (alter f k (infos s))).
Definition new_info (i : nat) (block : bool) : ST Rules nat :=
  t ← itok i;
  n ← gets (λ s, length (infos s));
  modify (λ s, with_infos s (infos s ++ [mkInfo i None false block (negb block && negb (bool_decide (type t ∈ [START_PAREN; START_PARAMETERS]))) (line_number t)]));;
  mret n.

(** ** The stack *)

(** [_RemoveOverrides] *)
Definition RemoveOverrides (k : nat) : ST Rules unit :=
  st ← gets stack;
  for_each (λ j, s ← get_info j;
    if bool_decide (overridden_by s = Some k) && negb (is_permanent_override s) then upd_info j (λ s, override s None) else mret tt) st.
(** The literal that the token opens is closed in its line. *)
Fixpoint closed_in_line (fuel : nat) (i : option nat) (same goal : TokenType) (n count : Z) : ST Rules bool :=
  match fuel with
  | 0 => throw OutOfFuel
  | S f =>
      match i with
      | None => mret false
      | Some i =>
          t ← itok i;
          if (line_number t =? n)%Z then
            if bool_decide (type t = goal) then
              if (count - 1 =? 0)%Z then mret true else closed_in_line f (next t) same goal n (count - 1)
            else closed_in_line f (next t) same goal n (if bool_decide (type t = same) then count + 1 else count)
          else mret false
      end
  end.
(** The overrides of an entry that was popped go, but for those of literals over several lines. *)
Definition forget (k : nat) : ST Rules unit :=
  s ← get_info k;
  t ← itok (info_token s);
  if bool_decide (type t ∉ [START_BLOCK; START_BRACKET]) then RemoveOverrides k
  else
    n ← gets (λ s, all_rounds (heap (pass s)));
    b ← closed_in_line n (Some (info_token s)) (type t) (if bool_decide (type t = START_BRACKET) then END_BRACKET else END_BLOCK) (line_number t) 0;
    if (b : bool) then RemoveOverrides k else mret tt.
Definition Pop : ST Rules nat :=
  st ← gets stack;
  match st with
  | [] => throw IndexError
  | k :: st' => modify (λ s, with_stack s st');; forget k;; mret k
  end.
Fixpoint pop_implied (fuel : nat) : ST Rules unit :=
  match fuel with
  | 0 => throw OutOfFuel
  | S f => k ← Pop; s ← get_info k; m ← imeta (info_token s); if is_implied_block m then mret tt else pop_implied f
  end.
(** One round for each element of the stack, and one that finds it empty. *)
Definition stack_rounds (s : Rules) : nat := S (length (stack s)).
Definition PopToImpliedBlock : ST Rules unit := n ← gets stack_rounds; pop_implied n.
Fixpoint pop_until (fuel : nat) (stop_type : TokenType) : ST Rules nat :=
  match fuel with
  | 0 => throw OutOfFuel
  | S f => k ← Pop; s ← get_info k; t ← itok (info_token s); if bool_decide (type t = stop_type) then mret k else pop_until f stop_type
  end.
Definition PopTo (stop_type : TokenType) : ST Rules nat := n ← gets stack_rounds; pop_until n stop_type.
Fixpoint pop_transient (fuel : nat) : ST Rules unit :=
  match fuel with
  | 0 => throw OutOfFuel
  | S f =>
      st ← gets stack;
      match st with
      | [] => mret tt
      | k :: _ => s ← get_info k; if is_transient s then Pop;; pop_transient f else mret tt
      end
  end.
Definition PopTransient : ST Rules unit := n ← gets stack_rounds; pop_transient n.

(** What a new entry overrides, from the top of the stack down. *)
Fixpoint override_loop (st : list nat) (k : nat) (info : TokenInfo) (t : Token) : ST Rules unit :=
  match st with
  | [] => mret tt
  | j :: st' =>
      s ← get_info j;
      u ← itok (info_token s);
      if (info_line s =? info_line info)%Z then
        upd_info j (λ s, override s (Some k));;
        (if bool_decide (type t = START_BLOCK) && (IsAssignment u || bool_decide (type u ∈ [IDENTIFIER; START_PAREN])) then
           c ← context_of (info_token info);
           e ← in_pass (some (end_token c));
           close_block ← itok e;
           upd_info j (λ s, set_permanent s (negb (line_number close_block =? line_number t)%Z))
         else mret tt);;
        override_loop st' k info t
      else
        b ← (if bool_decide (type t = START_BLOCK) then c ← context_of (info_token info); mret (bool_decide (ctype c = BLOCK)) else mret false);
        if (b : bool) && (IsAssignment u || bool_decide (type u = IDENTIFIER)) then
          upd_info j (λ s, set_permanent (override s (Some k)) true);;
          override_loop st' k info t
        else mret tt
  end.
Definition Add (k : nat) : ST Rules unit :=
  info ← get_info k;
  st ← gets stack;
  same ← match st with [] => mret false | j :: _ => s ← get_info j; mret (bool_decide (info_token s = info_token info)) end;
  if (same : bool) then mret tt
  else
    t ← itok (info_token info);
    (if is_block info || bool_decide (type t = START_PAREN) then override_loop st k info t else mret tt);;
    modify (λ s, with_stack s (k :: stack s)).
Definition AddToken_ (i : nat) (block : bool) : ST Rules unit := k ← new_info i block; Add k.

(** ** Which indentations are allowed *)

Definition AddToEach (original : gset Z) (amount : Z) : gset Z := set_map (λ x, x + amount)%Z original.
Definition HARD_STOP_TYPES : list TokenType := [START_PAREN; START_PARAMETERS; START_BRACKET].
Definition HARD_STOP_STRINGS : list string := ["return"; "?"].
Definition IsHardStop (t : Token) : bool :=
  bool_decide (type t ∈ HARD_STOP_TYPES) || bool_decide (string_ t ∈ HARD_STOP_STRINGS) || IsAssignment t.
Definition overridden (s : TokenInfo) : bool := bool_decide (overridden_by s ≠ None).
(** How far to the right of its start the token stops a line. *)
Definition stop_distance (s : TokenInfo) (t : Token) : option Z :=
  if bool_decide (type t ∈ [START_PAREN; START_PARAMETERS]) && negb (overridden s) then Some 1%Z
  else if (string_ t =s "return") && negb (overridden s) then Some 7%Z
  else if bool_decide (type t = START_BRACKET) then Some 1%Z
  else if IsAssignment t then Some (Z.of_nat (String.length (string_ t)) + 1)%Z
  else if IsOperator t "?" && negb (overridden s) then Some 2%Z
  else None.
Definition hard_stop (s : TokenInfo) (t : Token) : ST Rules (option Z) :=
  if IsHardStop t then
    o ← match overridden_by s with Some j => u ← get_info j; u ← itok (info_token u); mret (IsHardStop u) | None => mret false end;
    if (o : bool) then mret None
    else
      offset ← gets (λ r, (start_index_offset r !! line_number t : option Z));
      match start_index t, offset, stop_distance s t with
      | None, None, None => mret None
      | None, _, _ => throw TypeError
      | Some i, _, d => mret ((λ d, Z.of_nat i + default 0 offset + d)%Z <$> d)
      end
  else mret None.
Record Allowed := mkAllowed { expected : gset Z; hard_stops : gset Z; in_same_continuation : bool }.
Definition indent_for (s : TokenInfo) (t : Token) (a : Allowed) : Allowed :=
  if negb (overridden s) && negb (string_ t =s "return") then
    if is_block s then mkAllowed (AddToEach (expected a) 2) (AddToEach (hard_stops a) 2) false
    else if in_same_continuation a
         then mkAllowed (expected a ∪ AddToEach (expected a) 4) (hard_stops a ∪ AddToEach (hard_stops a) 4) true
         else mkAllowed (AddToEach (expected a) 4) (hard_stops a ∪ AddToEach (hard_stops a) 4) true
  else a.
Fixpoint allow_loop (l : list nat) (a : Allowed) : ST Rules Allowed :=
  match l with
  | [] => mret a
  | k :: l' =>
      s ← get_info k;
      t ← itok (info_token s);
      let a := indent_for s t a in
      o ← hard_stop s t;
      allow_loop l' (match o with Some p => mkAllowed (expected a) ({[p]} ∪ hard_stops a) (in_same_continuation a) | None => a end)
  end.
(** [or set([0])]: the set of what is expected is never empty. *)
Definition GetAllowableIndentations : ST Rules (gset Z) :=
  st ← gets stack;
  a ← allow_loop (reverse st) (mkAllowed {[0%Z]} ∅ false);
  mret (let s := expected a ∪ hard_stops a in if decide (s = ∅) then {[0%Z]} else s).

Definition GetActualIndentation (i : nat) : ST Rules Z :=
  f ← in_pass (on_heap (GetFirstTokenInSameLine i));
  t ← itok f;
  mret (if bool_decide (type t = WHITESPACE) then if str_mem "009" (string_ t) then (-1)%Z else Z.of_nat (String.length (string_ t))
        else if bool_decide (type t = PARAMETERS_) then (Z.of_nat (String.length (string_ t)) - Z.of_nat (String.length (lstrip (string_ t))))%Z
        else 0%Z).
Definition IsFirstNonWhitespaceTokenInLine (i : nat) : ST Rules bool :=
  t ← itok i;
  if bool_decide (type t ∈ [WHITESPACE; BLANK_LINE]) then mret false
  else
    b ← in_pass (on_heap (IsFirstInLine i));
    if (b : bool) then mret true
    else match previous t with
         | None => mret false
         | Some p => c ← in_pass (on_heap (IsFirstInLine p)); u ← itok p; mret (c && bool_decide (type u = WHITESPACE))
         end.
Fixpoint last_code_loop (fuel : nat) (i : option nat) (n : Z) : ST Rules bool :=
  match fuel with
  | 0 => throw OutOfFuel
  | S f =>
      match i with
      | None => mret true
      | Some i =>
          t ← itok i;
          if negb (line_number t =? n)%Z then mret true
          else if bool_decide (type t ∉ NON_CODE_TYPES) then mret false else last_code_loop f (next t) n
      end
  end.
Definition IsLastCodeInLine (i : nat) : ST Rules bool :=
  t ← itok i;
  if bool_decide (type t ∈ NON_CODE_TYPES) then mret false
  else n ← gets (λ s, all_rounds (heap (pass s))); last_code_loop n (next t) (line_number t).

(** ** A token *)

(** [WRONG_INDENTATION]: the message, the token, and a position that holds the actual
    indentation and the one that is wanted. *)
Record IndentError := mkIndentError { ie_message : string; ie_token : nat; ie_actual : Z; ie_wanted : Z }.
Definition sorted (s : gset Z) : list Z := merge_sort Z.le (elements s).
Definition indent_message (expected : list Z) (actual : Z) : string :=
  "Wrong indentation: expected any of {" +:+ join ", " (str_of_Z <$> expected) +:+ "} but got " +:+ str_of_Z actual.
Definition IsUnaryOperator (m : MetaData) : bool := bool_decide (operator_type m ∈ [Some UNARY_OPERATOR; Some UNARY_POST_OPERATOR]).
Definition search_code (i : nat) : ST Rules (option nat) := in_pass (next_code i).
(** Tokens that could decrease the indentation. *)
Definition close_token (i : nat) (t : Token) (is_first : bool) : ST Rules unit :=
  match type t with
  | END_PAREN => PopTo START_PAREN;; mret tt
  | END_PARAMETERS => PopTo START_PARAMETERS;; mret tt
  | END_BRACKET => PopTo START_BRACKET;; mret tt
  | END_BLOCK => PopTo START_BLOCK;; mret tt
  | ty =>
      if bool_decide (ty = KEYWORD) && bool_decide (string_ t ∈ ["case"; "default"]) then k ← PopTo START_BLOCK; Add k
      else if is_first && (string_ t =s ".") then
        k ← new_info i false;
        upd_info k (λ s, mkInfo (info_token s) (overridden_by s) (is_permanent_override s) (is_block s) (is_transient s) (line_number t - 1));;
        Add k
      else if bool_decide (ty = SEMICOLON) then PopTransient
      else mret tt
  end.
(** A comment may describe the branch after it. *)
Definition outdented (i : nat) (t : Token) (expected : gset Z) : ST Rules (gset Z) :=
  if bool_decide (type t ∈ COMMENT_TYPES) then
    nc ← search_code i;
    nc ← match nc with
         | Some n => u ← itok n; if bool_decide (type u = END_BLOCK) then search_code n else mret (Some n)
         | None => mret None
         end;
    b ← match nc with Some n => u ← itok n; mret (bool_decide (string_ u ∈ ["else"; "case"; "default"])) | None => mret false end;
    mret (if (b : bool) then expected ∪ AddToEach expected (-2) else expected)
  else mret expected.
Definition check_line (i : nat) (t : Token) : ST Rules (list IndentError) :=
  expected ← GetAllowableIndentations;
  actual ← GetActualIndentation i;
  expected ← outdented i t expected;
  if (0 <=? actual)%Z && bool_decide (actual ∉ expected) then
    match sorted expected with
    | [] => throw IndexError
    | wanted :: _ =>
        modify (λ s, with_offset s (<[line_number t := (wanted - actual)%Z]> (start_index_offset s)));;
        mret [mkIndentError (indent_message (sorted expected) actual) i actual wanted]
    end
  else mret [].
(** Tokens that could increase the indentation. *)
Definition open_token (i : nat) (t : Token) : ST Rules unit :=
  if bool_decide (type t = START_BRACKET) then c ← context_of i; AddToken_ i (bool_decide (ctype c = ARRAY_LITERAL))
  else
    b ← (if bool_decide (type t = START_BLOCK) then mret true else m ← imeta i; mret (is_implied_block m));
    if (b : bool) then AddToken_ i true
    else if bool_decide (type t ∈ [START_PAREN; START_PARAMETERS]) then AddToken_ i false
    else if IsKeyword t "return" then AddToken_ i false
    else
      l ← in_pass (on_heap (IsLastInLine i));
      if negb l && (IsAssignment t || IsOperator t "?") then AddToken_ i false else mret tt.
(** [:] after a case or a key. *)
Definition colon_at_end (i : nat) : ST Rules unit :=
  c ← context_of i;
  if bool_decide (ctype c = CASE_BLOCK) then PopTransient;; AddToken_ i true
  else if bool_decide (ctype c = LITERAL_ELEMENT) then AddToken_ i false
  else mret tt.
(** An operator at the end of the line. *)
Definition last_operator (i : nat) (t : Token) : ST Rules unit :=
  if string_ t =s ":" then
    st ← gets stack;
    top ← match st with [] => mret None | k :: _ => s ← get_info k; u ← itok (info_token s); mret (Some u) end;
    match top with
    | Some u =>
        if string_ u =s "?" then if (line_number t =? line_number u)%Z then AddToken_ i false else mret tt
        else colon_at_end i
    | None => colon_at_end i
    end
  else if negb (string_ t =s ",") then AddToken_ i false
  else
    c ← context_of i;
    if bool_decide (ctype c = VAR) then AddToken_ i false
    else if bool_decide (ctype c ≠ PARAMETERS) then PopTransient else mret tt.
(** What matters at the end of a line. *)
Definition end_of_line (i : nat) (t : Token) : ST Rules unit :=
  is_last ← IsLastCodeInLine i;
  if (is_last : bool) then
    if bool_decide (type t = OPERATOR) then last_operator i t
    else if endswith "." (string_ t) && bool_decide (type t ∈ [IDENTIFIER; NORMAL]) then AddToken_ i false
    else if bool_decide (type t = PARAMETERS_) && endswith "," (string_ t) then AddToken_ i false
    else m ← imeta i; if is_implied_semicolon m then PopTransient else mret tt
  else if IsAssignment t then AddToken_ i false else mret tt.
Definition CheckToken (i : nat) : ST Rules (list IndentError) :=
  t ← itok i;
  is_first ← IsFirstNonWhitespaceTokenInLine i;
  close_token i t is_first;;
  not_binary_operator ← (if bool_decide (type t ≠ OPERATOR) then mret true else m ← imeta i; mret (IsUnaryOperator m));
  errors ← (if is_first && not_binary_operator && negb (string_ t =s ".") && bool_decide (type t ∉ [COMMENT; DOC_PREFIX; STRING_TEXT])
            then check_line i t else mret []);
  open_token i t;;
  m ← imeta i;
  (if is_implied_block_close m then PopToImpliedBlock else mret tt);;
  end_of_line i t;;
  mret errors.
(** [Exception("INTERNAL ERROR: indentation stack is not empty")] *)
Definition Finalize : ST Rules unit :=
  st ← gets stack;
  match st with [] => mret tt | _ => modify (λ s, with_stack s []);; throw RuntimeError end.

(** All tokens of a file in turn, as the rules are called for them. *)
Fixpoint check_tokens (l : list nat) : ST Rules (list IndentError) :=
  match l with
  | [] => mret []
  | i :: l' => e ← CheckToken i; es ← check_tokens l'; mret (e ++ es)
  end.
Definition indentation (file : list string) : res (list (Z * Z) * res unit) :=
  match analyse file with
  | Ok (Ok _, p) =>
      let '(e, s) := check_tokens (seq 0 (length (heap p))) (new_Rules p) in
      match e with Ok e => Ok ((λ x, (ie_actual x, ie_wanted x)) <$> e, (Finalize s).1) | Err x => Err x end
  | Ok (Err e, _) | Err e => Err e
  end.

(** ** Which indentations are allowed, in closed form *)

Abbreviation entry := (TokenInfo * Token)%type.
Definition counts (e : entry) : bool := negb (overridden e.1) && negb (string_ e.2 =s "return").
(** Blocks, continuations, and the runs of continuations that no block interrupts. *)
Definition blocks (es : list entry) : nat := length (List.filter (λ e, counts e && is_block e.1) es).
Definition conts (es : list entry) : nat := length (List.filter (λ e, counts e && negb (is_block e.1)) es).
Fixpoint runs_from (same : bool) (es : list entry) : nat :=
  match es with
  | [] => 0
  | e :: es' => if counts e then if is_block e.1 then runs_from false es' else (if same then 0 else 1) + runs_from true es' else runs_from same es'
  end.
(** A line after the entries [es] that starts at [n] with [c] of the continuations taken. *)
Definition indented (es : list entry) (c : nat) : Z := (2 * Z.of_nat (blocks es) + 4 * Z.of_nat c)%Z.

Lemma elem_of_AddToEach n s k : n ∈ AddToEach s k ↔ (n - k)%Z ∈ s.
Proof.
  unfold AddToEach. rewrite elem_of_map. split; [intros (x & -> & Hx); by replace (x + k - k)%Z with x by lia|].
  intros H. exists (n - k)%Z. split; [lia|done].
Qed.
Lemma runs_conts same es : runs_from same es ≤ conts es.
Proof.
  revert same. unfold conts. induction es as [|e es IH]; intros same; cbn; [done|]. destruct (counts e), (is_block e.1); cbn; try apply IH.
  specialize (IH true). destruct same; lia.
Qed.
Lemma blocks_cons e es : blocks (e :: es) = (if counts e && is_block e.1 then 1 else 0) + blocks es.
Proof. unfold blocks. cbn. by destruct (counts e && is_block e.1). Qed.
Lemma conts_cons e es : conts (e :: es) = (if counts e && negb (is_block e.1) then 1 else 0) + conts es.
Proof. unfold conts. cbn. by destruct (counts e && negb (is_block e.1)). Qed.

(** The loop without its lookups; [stop] gives the hard stops. *)
Definition allow_step (stop : entry → option Z) (a : Allowed) (e : entry) : Allowed :=
  let a := indent_for e.1 e.2 a in
  match stop e with Some p => mkAllowed (expected a) ({[p]} ∪ hard_stops a) (in_same_continuation a) | None => a end.
Definition allow_all stop (es : list entry) (a : Allowed) : Allowed := foldl (allow_step stop) a es.
Lemma step_expected stop a e : expected (allow_step stop a e) = expected (indent_for e.1 e.2 a) ∧
  in_same_continuation (allow_step stop a e) = in_same_continuation (indent_for e.1 e.2 a).
Proof. unfold allow_step. by destruct (stop e). Qed.
Lemma step_stops stop a e n : n ∈ hard_stops (allow_step stop a e) ↔ stop e = Some n ∨ n ∈ hard_stops (indent_for e.1 e.2 a).
Proof. unfold allow_step. destruct (stop e) as [p|]; cbn; [|naive_solver]. rewrite elem_of_union, elem_of_singleton. naive_solver. Qed.
Lemma elem_of_expected stop es : ∀ a n, n ∈ expected (allow_all stop es a) ↔
  ∃ m c, m ∈ expected a ∧ runs_from (in_same_continuation a) es ≤ c ≤ conts es ∧ n = (m + indented es c)%Z.
Proof.
  induction es as [|e es IH]; intros a n; cbn [allow_all foldl].
  - unfold indented, conts, blocks. cbn. split; [intros Hn; exists n, 0; split_and!; [done|lia..]|]. intros (m & c & Hm & Hc & ->). by replace (m + _)%Z with m by lia.
  - change (foldl _ _ es) with (allow_all stop es (allow_step stop a e)). rewrite IH. destruct (step_expected stop a e) as [-> ->].
    unfold indent_for, indented. cbn [runs_from]. rewrite conts_cons, blocks_cons. assert (Hr := runs_conts true es).
    change (negb (overridden e.1) && negb (string_ e.2 =s "return")) with (counts e). destruct (counts e); cbn [andb]; [|done].
    destruct (is_block e.1); cbn [negb expected in_same_continuation].
    + setoid_rewrite elem_of_AddToEach. split.
      * intros (m & c & Hm & Hc & ->). exists (m - 2)%Z, c. split_and!; [done|lia..].
      * intros (m & c & Hm & Hc & ->). exists (m + 2)%Z, c. replace (m + 2 - 2)%Z with m by lia. split_and!; [done|lia..].
    + destruct (in_same_continuation a); cbn [expected in_same_continuation].
      * setoid_rewrite elem_of_union. setoid_rewrite elem_of_AddToEach. split.
        -- intros (m & c & [Hm|Hm] & Hc & ->); [exists m, c|exists (m - 4)%Z, (S c)]; split_and!; try done; lia.
        -- intros (m & c & Hm & Hc & ->). destruct (decide (c ≤ conts es)); [exists m, c; split_and!; [by left|lia..]|].
           exists (m + 4)%Z, (c - 1). replace (m + 4 - 4)%Z with m by lia. split_and!; [by right|lia..].
      * setoid_rewrite elem_of_AddToEach. split.
        -- intros (m & c & Hm & Hc & ->). exists (m - 4)%Z, (S c). split_and!; [done|lia..].
        -- intros (m & c & Hm & Hc & ->). exists (m + 4)%Z, (c - 1). replace (m + 4 - 4)%Z with m by lia. split_and!; [done|lia..].
Qed.
Lemma elem_of_stops stop es : ∀ a n, n ∈ hard_stops (allow_all stop es a) ↔
  (∃ m c, m ∈ hard_stops a ∧ c ≤ conts es ∧ n = (m + indented es c)%Z) ∨
  (∃ es1 e es2 p c, es = es1 ++ e :: es2 ∧ stop e = Some p ∧ c ≤ conts es2 ∧ n = (p + indented es2 c)%Z).
Proof.
  induction es as [|e es IH]; intros a n; cbn [allow_all foldl].
  - unfold indented, conts, blocks. cbn. split; [intros Hn; left; exists n, 0; split_and!; [done|lia..]|].
    intros [(m & c & Hm & Hc & ->)|([|? ?] & ? & ? & ? & ? & ? & _)]; [by replace (m + _)%Z with m by lia|done|done].
  - change (foldl _ _ es) with (allow_all stop es (allow_step stop a e)). rewrite IH.
    assert (Hold : (∃ m c, m ∈ hard_stops (indent_for e.1 e.2 a) ∧ c ≤ conts es ∧ n = (m + indented es c)%Z) ↔
      ∃ m c, m ∈ hard_stops a ∧ c ≤ conts (e :: es) ∧ n = (m + indented (e :: es) c)%Z).
    { unfold indent_for, indented. rewrite conts_cons, blocks_cons. change (negb (overridden e.1) && negb (string_ e.2 =s "return")) with (counts e).
      destruct (counts e); cbn [andb]; [|done]. destruct (is_block e.1); cbn [negb hard_stops].
      - setoid_rewrite elem_of_AddToEach. split.
        + intros (m & c & Hm & Hc & ->). exists (m - 2)%Z, c. split_and!; [done|lia..].
        + intros (m & c & Hm & Hc & ->). exists (m + 2)%Z, c. replace (m + 2 - 2)%Z with m by lia. split_and!; [done|lia..].
      - replace (hard_stops (if in_same_continuation a then _ else _)) with (hard_stops a ∪ AddToEach (hard_stops a) 4) by (by destruct (in_same_continuation a)).
        setoid_rewrite elem_of_union. setoid_rewrite elem_of_AddToEach. split.
        + intros (m & c & [Hm|Hm] & Hc & ->); [exists m, c|exists (m - 4)%Z, (S c)]; split_and!; try done; lia.
        + intros (m & c & Hm & Hc & ->). destruct (decide (c ≤ conts es)); [exists m, c; split_and!; [by left|lia..]|].
          exists (m + 4)%Z, (c - 1). replace (m + 4 - 4)%Z with m by lia. split_and!; [by right|lia..]. }
    rewrite <-Hold. setoid_rewrite step_stops. split.
    + intros [(m & c & [Hm|Hm] & Hc & Hn)|(es1 & e' & es2 & p & c & -> & H)].
      * right. by exists [], e, es, m, c.
      * left. by exists m, c.
      * right. by exists (e :: es1), e', es2, p, c.
    + intros [(m & c & Hm & Hc & Hn)|([|e1 es1] & e' & es2 & p & c & [= -> ->] & Hp & Hc & Hn)].
      * left. exists m, c. split_and!; [by right|done|done].
      * left. exists p, c. split_and!; [by left|done|done].
      * right. by exists es1, e', es2, p, c.
Qed.

(** ** The loop *)

Definition entry_at (s : Rules) (k : nat) : option entry := x ← infos s !! k; t ← heap (pass s) !! info_token x; Some (x, t).
(** The entries of the stack, the bottom first. *)
Definition entries (s : Rules) : option (list entry) := mapM (entry_at s) (reverse (stack s)).
Definition stop_of (s : Rules) (e : entry) : option Z :=
  if IsHardStop e.2 && negb (match overridden_by e.1 with Some j => match entry_at s j with Some u => IsHardStop u.2 | None => false end | None => false end)
  then i ← start_index e.2; d ← stop_distance e.1 e.2; Some (Z.of_nat i + default 0 (start_index_offset s !! line_number e.2) + d)%Z
  else None.
(** What the state names is there, and the tokens have their places. *)
Record names_ok (s : Rules) : Prop := {
  no_tokens : ∀ k x, infos s !! k = Some x → is_Some (heap (pass s) !! info_token x);
  no_overrides : ∀ k x j, infos s !! k = Some x → overridden_by x = Some j → j < length (infos s);
  no_stack : ∀ k, k ∈ stack s → k < length (infos s);
  no_places : ∀ i t, heap (pass s) !! i = Some t → is_Some (start_index t) }.

Lemma itok_run s i t : heap (pass s) !! i = Some t → itok i s = (Ok t, s).
Proof. intros H. unfold itok, in_pass. rewrite (tok_run _ _ _ H). by destruct s. Qed.
Lemma get_info_run s k x : infos s !! k = Some x → get_info k s = (Ok x, s).
Proof. intros H. unfold get_info, gets. rewrite st_bind. by rewrite H. Qed.
Lemma entry_runs s k x t : entry_at s k = Some (x, t) → infos s !! k = Some x ∧ heap (pass s) !! info_token x = Some t.
Proof. unfold entry_at. intros H. apply bind_Some in H as (x' & Hx & H). apply bind_Some in H as (t' & Ht & H). by simplify_eq. Qed.
Lemma entry_exists s k : names_ok s → k < length (infos s) → ∃ x t, entry_at s k = Some (x, t).
Proof.
  intros N Hk. apply lookup_lt_is_Some in Hk as [x Hx]. destruct (no_tokens _ N _ _ Hx) as [t Ht]. exists x, t. unfold entry_at. rewrite Hx. cbn. by rewrite Ht.
Qed.
Lemma hard_stop_run s k x t : names_ok s → entry_at s k = Some (x, t) → hard_stop x t s = (Ok (stop_of s (x, t)), s).
Proof.
  intros N Hk. destruct (entry_runs _ _ _ _ Hk) as [Hx Ht]. destruct (no_places _ N _ _ Ht) as [i Hi]. unfold hard_stop, stop_of. cbn [fst snd].
  destruct (IsHardStop t); [|done]. cbn [andb].
  assert (Ho : (match overridden_by x with Some j => u ← get_info j; u ← itok (info_token u); mret (IsHardStop u) | None => mret false end) s =
    (Ok (match overridden_by x with Some j => match entry_at s j with Some u => IsHardStop u.2 | None => false end | None => false end), s)).
  { destruct (overridden_by x) as [j|] eqn:Ej; [|done]. assert (Hj := no_overrides _ N _ _ _ Hx Ej). destruct (entry_exists s j N Hj) as (y & u & Hu). rewrite Hu.
    destruct (entry_runs _ _ _ _ Hu) as [Hy Hu']. by rewrite st_bind, (get_info_run _ _ _ Hy), st_bind, (itok_run _ _ _ Hu'). }
  rewrite st_bind, Ho. destruct (match overridden_by x with Some _ => _ | None => false end); [done|]. cbn [negb]. unfold gets. rewrite st_bind. cbv beta iota.
  rewrite Hi. by destruct (start_index_offset s !! line_number t), (stop_distance x t).
Qed.
Lemma allow_loop_run s l : ∀ es a, names_ok s → mapM (entry_at s) l = Some es → allow_loop l a s = (Ok (allow_all (stop_of s) es a), s).
Proof.
  induction l as [|k l IH]; intros es a N Hes; cbn in Hes.
  - by injection Hes as <-.
  - apply bind_Some in Hes as ([x t] & Hk & Hes). apply bind_Some in Hes as (es' & Hes & [= <-]). destruct (entry_runs _ _ _ _ Hk) as [Hx Ht].
    cbn [allow_loop]. rewrite st_bind, (get_info_run _ _ _ Hx), st_bind, (itok_run _ _ _ Ht). cbv beta iota zeta. rewrite st_bind, (hard_stop_run s k x t N Hk).
    cbv beta iota. rewrite (IH es' _ N Hes). done.
Qed.
(** An indentation that the entries allow. *)
Definition allows (s : Rules) (es : list entry) (n : Z) : Prop :=
  (∃ c, runs_from false es ≤ c ≤ conts es ∧ n = indented es c) ∨
  (∃ es1 e es2 p c, es = es1 ++ e :: es2 ∧ stop_of s e = Some p ∧ c ≤ conts es2 ∧ n = (p + indented es2 c)%Z).
Lemma GetAllowableIndentations_spec s es : names_ok s → entries s = Some es →
  ∃ X, GetAllowableIndentations s = (Ok X, s) ∧ ∀ n, n ∈ X ↔ allows s es n.
Proof.
  intros N Hes. unfold GetAllowableIndentations, gets. rewrite st_bind. cbv beta iota. rewrite st_bind, (allow_loop_run s _ es _ N Hes). cbv beta iota zeta.
  set (a := allow_all _ _ _). assert (Ha : ∀ n, n ∈ expected a ∪ hard_stops a ↔ allows s es n).
  { intros n. unfold a. rewrite elem_of_union, elem_of_expected, elem_of_stops. unfold allows. cbn [expected hard_stops in_same_continuation].
    setoid_rewrite elem_of_singleton. setoid_rewrite elem_of_empty. split.
    - intros [(m & c & -> & Hc & ->)|[(m & c & [] & _)|H]]; [left; exists c; split; [done|lia]|by right].
    - intros [(c & Hc & ->)|H]; [left; exists 0%Z, c; split_and!; [done|lia..]|by right; right]. }
  eexists. split; [done|]. intros n. rewrite decide_False; [apply Ha|]. intros He.
  assert (H : indented es (conts es) ∈ expected a ∪ hard_stops a); [|rewrite He in H; by apply elem_of_empty in H].
  apply Ha. left. exists (conts es). split; [|done]. split; [apply runs_conts|done].
Qed.

(** ** The tokens of a stream *)

Section Stream.
Context (h : Heap).
Hypothesis stream_h : stream h (seq 0 (length h)).

Lemma next_of i t : h !! i = Some t → next t = if S i <? length h then Some (S i) else None.
Proof using stream_h.
  intros Ht. assert (Hi : i < length h) by by eapply lookup_lt_Some. destruct stream_h as [_ Hs _ _].
  replace (length h) with (i + S (length h - S i)) in Hs at 1 by lia. rewrite seq_app in Hs. apply seg_app in Hs as [_ (t' & Ht' & _ & Hn & _)].
  cbn in Ht'. simplify_eq. rewrite Hn. destruct (Nat.ltb_spec (S i) (length h)) as [Hl|Hl].
  - by replace (length h - S i) with (S (length h - S (S i))) by lia.
  - by replace (length h - S i) with 0 by lia.
Qed.
Lemma last_or_seq pp a n : last_or pp (seq a n) = match n with 0 => pp | S m => Some (a + m) end.
Proof. revert pp a. induction n as [|n IH]; intros pp a; [done|]. cbn [seq last_or]. rewrite IH. destruct n; f_equal; lia. Qed.
Lemma previous_of i t : h !! i = Some t → previous t = match i with 0 => None | S j => Some j end.
Proof using stream_h.
  intros Ht. assert (Hi : i < length h) by by eapply lookup_lt_Some. destruct stream_h as [_ Hs _ _].
  replace (length h) with (i + S (length h - S i)) in Hs at 1 by lia. rewrite seq_app in Hs. apply seg_app in Hs as [_ (t' & Ht' & Hp & _)].
  cbn in Ht'. simplify_eq. rewrite Hp, last_or_seq. by destruct i.
Qed.
Lemma placed_at i t : h !! i = Some t → is_Some (start_index t).
Proof using stream_h.
  intros Ht. assert (Hi : i < length h) by by eapply lookup_lt_Some. destruct stream_h as [_ _ _ Hp].
  replace (length h) with (i + S (length h - S i)) in Hp at 1 by lia. rewrite seq_app in Hp. apply placed_app in Hp as [_ (t' & Ht' & Hst & _)].
  cbn in Ht'. simplify_eq. rewrite Hst. by eexists.
Qed.

(** The first token of the line of [i]. *)
Fixpoint line_start (i : nat) : nat :=
  match i with
  | 0 => 0
  | S j => if bool_decide (line_number <$> h !! j = line_number <$> h !! i) then line_start j else i
  end.
Lemma IsFirstInLine_run i : i < length h → IsFirstInLine i h = (Ok (bool_decide (line_start i = i)), h).
Proof using stream_h.
  intros Hi. apply lookup_lt_is_Some in Hi as [t Ht]. unfold IsFirstInLine. rewrite st_bind, (get_run _ _ _ Ht). cbv beta iota. rewrite (previous_of _ _ Ht).
  destruct i as [|j]; [by rewrite bool_decide_true|]. cbn [line_start]. assert (Hj : j < length h) by (apply lookup_lt_Some in Ht; lia).
  apply lookup_lt_is_Some in Hj as [u Hu]. rewrite Ht, Hu, st_bind, (get_run _ _ _ Hu). cbn [fmap option_fmap option_map]. unfold mret, ST_ret.
  assert (Hle : ∀ k, line_start k ≤ k) by (induction k; cbn [line_start]; [done|]; case_bool_decide; lia).
  destruct (Z.eqb_spec (line_number u) (line_number t)) as [E|E]; cbn [negb].
  - rewrite (bool_decide_true (Some _ = Some _)) by by rewrite E. specialize (Hle j). by rewrite bool_decide_false by lia.
  - rewrite (bool_decide_false (Some _ = Some _)) by (intros [=]; congruence). by rewrite bool_decide_true.
Qed.
Lemma first_in_line_run fuel : ∀ i, i < length h → i < fuel → first_in_line fuel i h = (Ok (line_start i), h).
Proof using stream_h.
  induction fuel as [|fuel IH]; intros i Hi Hf; [lia|]. cbn [first_in_line]. rewrite st_bind, (IsFirstInLine_run i Hi). cbv beta iota.
  case_bool_decide as Hs; [by rewrite Hs|]. apply lookup_lt_is_Some in Hi as [t Ht]. rewrite st_bind, (get_run _ _ _ Ht). cbv beta iota.
  rewrite (previous_of _ _ Ht). destruct i as [|j]; [done|]. apply lookup_lt_Some in Ht. rewrite IH by lia. f_equal. f_equal. revert Hs. cbn [line_start].
  by case_bool_decide.
Qed.
Lemma GetFirstTokenInSameLine_run i : i < length h → GetFirstTokenInSameLine i h = (Ok (line_start i), h).
Proof using stream_h. intros Hi. unfold GetFirstTokenInSameLine, gets. rewrite st_bind. apply first_in_line_run; [done|unfold all_rounds; lia]. Qed.

(** The tokens of code after [i]. *)
Definition code_from (i : nat) : list nat := List.filter (λ j, match h !! j with Some t => negb (IsAnyType t NON_CODE_TYPES) | None => false end) (seq (S i) (length h - S i)).
Lemma next_code_run p i : heap p = h → i < length h → next_code i p = (Ok (head (code_from i)), p).
Proof using stream_h.
  intros Hp Hi. unfold next_code, on_heap, SearchExcept. rewrite Hp. destruct stream_h as [Hd Hs _ _].
  replace (length h) with (i + S (length h - S i)) in Hs, Hd at 1 by lia. rewrite seq_app in Hs, Hd. cbn [seq Nat.add] in Hs, Hd.
  rewrite (CustomSearch_spec _ _ _ _ _ _ _ false Hd Hs). replace (with_heap p h) with p by (rewrite <-Hp; by destruct p). f_equal. f_equal. unfold code_from.
  assert (Hin : ∀ j, j ∈ seq (S i) (length h - S i) → is_Some (h !! j)) by (intros j Hj%elem_of_seq; apply lookup_lt_is_Some; lia).
  clear Hd Hs. induction (seq (S i) (length h - S i)) as [|j l IH]; [done|]. cbn [first_match List.filter]. destruct (Hin j ltac:(left)) as [t Ht]. rewrite Ht.
  destruct (negb (IsAnyType t NON_CODE_TYPES)); [done|]. apply IH. intros j' Hj'. apply Hin. by right.
Qed.
(** The branch that a comment may describe: the code after it, but for a brace that closes. *)
Definition branch_word (o : option nat) : bool :=
  match o ≫= (h !!.) with Some u => bool_decide (string_ u ∈ ["else"; "case"; "default"]) | None => false end.
Definition branch_after (i : nat) : bool :=
  branch_word (match head (code_from i) with
    | Some n => if bool_decide (type <$> h !! n = Some END_BLOCK) then head (code_from n) else Some n
    | None => None
    end).
(** The indentation of a line whose first token is [f]; -1 where there are tabs. *)
Definition line_indent (f : Token) : Z :=
  if bool_decide (type f = WHITESPACE) then if str_mem "009" (string_ f) then (-1)%Z else Z.of_nat (String.length (string_ f))
  else if bool_decide (type f = PARAMETERS_) then (Z.of_nat (String.length (string_ f)) - Z.of_nat (String.length (lstrip (string_ f))))%Z
  else 0%Z.
Definition may_start_at (s : Rules) (es : list entry) (i : nat) (t : Token) (n : Z) : Prop :=
  allows s es n ∨ type t ∈ COMMENT_TYPES ∧ branch_after i = true ∧ allows s es (n + 2)%Z.

Lemma code_from_lt i j : j ∈ code_from i → j < length h.
Proof. intros Hj. unfold code_from in Hj. apply list_elem_of_In, filter_In in Hj as [_ Hj]. destruct (h !! j) as [t|] eqn:E; [|done]. by eapply lookup_lt_Some. Qed.
Lemma search_code_run s i : heap (pass s) = h → i < length h → search_code i s = (Ok (head (code_from i)), s).
Proof using stream_h. intros Hh Hi. unfold search_code, in_pass. rewrite (next_code_run _ i Hh Hi). by destruct s. Qed.
Lemma outdented_run s i t X : heap (pass s) = h → i < length h →
  outdented i t X s = (Ok (if bool_decide (type t ∈ COMMENT_TYPES) && branch_after i then X ∪ AddToEach X (-2) else X), s).
Proof using stream_h.
  intros Hh Hi. unfold outdented. case_bool_decide; cbn [andb]; [|done]. rewrite st_bind, search_code_run by done. cbv beta iota. unfold branch_after.
  assert (Hw : ∀ o : option nat, (∀ n, o = Some n → n < length h) →
    (match o with Some n => u ← itok n; mret (bool_decide (string_ u ∈ ["else"; "case"; "default"])) | None => mret false end) s = (Ok (branch_word o), s)).
  { intros [n|] Hn; [|done]. specialize (Hn n eq_refl). apply lookup_lt_is_Some in Hn as [u Hu]. rewrite st_bind, (itok_run s n u) by by rewrite Hh. unfold branch_word. cbn. by rewrite Hu. }
  assert (Hhd : ∀ j n, head (code_from j) = Some n → n < length h) by (intros j n Hn; apply (code_from_lt j); apply head_Some_elem_of in Hn; done).
  destruct (head (code_from i)) as [n|] eqn:En.
  - assert (Hn := Hhd _ _ En). destruct (lookup_lt_is_Some_2 h n Hn) as [u Hu]. rewrite !st_bind, (itok_run s n u) by by rewrite Hh. cbv beta iota.
    rewrite Hu. cbn [fmap option_fmap option_map]. destruct (decide (type u = END_BLOCK)) as [E|E].
    + rewrite !bool_decide_true by (done || by rewrite E). rewrite search_code_run by done. cbv beta iota. rewrite st_bind, (Hw (head (code_from n))) by apply Hhd. done.
    + rewrite !bool_decide_false by (done || congruence). change ((mret (Some n) : ST Rules (option nat)) s) with (Ok (Some n), s). cbv beta iota. assert (Hw' := Hw (Some n) ltac:(by intros n' [= <-])). cbv beta iota in Hw'. by rewrite st_bind, Hw'.
  - done.
Qed.
Lemma GetActualIndentation_run s i : heap (pass s) = h → i < length h →
  ∃ f, h !! line_start i = Some f ∧ GetActualIndentation i s = (Ok (line_indent f), s).
Proof using stream_h.
  intros Hh Hi. assert (Hle : line_start i ≤ i) by (clear; induction i; cbn [line_start]; [done|]; case_bool_decide; lia).
  destruct (lookup_lt_is_Some_2 h (line_start i)) as [f Hf]; [lia|]. exists f. split; [done|]. unfold GetActualIndentation.
  rewrite st_bind. unfold in_pass, on_heap. rewrite Hh, GetFirstTokenInSameLine_run by done. cbv beta iota. rewrite st_bind.
  replace (mkRules _ _ _ _) with s by (rewrite <-Hh; by destruct s as [[] ? ? ?]). by rewrite (itok_run s (line_start i) f) by by rewrite Hh.
Qed.
Lemma sorted_spec X : Sorted Z.le (sorted X) ∧ NoDup (sorted X) ∧ ∀ n, n ∈ sorted X ↔ n ∈ X.
Proof.
  unfold sorted. assert (P := merge_sort_Permutation Z.le (elements X)). split_and!.
  - apply Sorted_merge_sort. apply _.
  - rewrite P. apply NoDup_elements.
  - intros n. by rewrite P, elem_of_elements.
Qed.
Lemma check_line_spec s i t es : names_ok s → entries s = Some es → heap (pass s) = h → h !! i = Some t →
  ∃ (f : Token) (actual : Z) (errs : list IndentError) (s' : Rules), h !! line_start i = Some f ∧ actual = line_indent f ∧ check_line i t s = (Ok errs, s') ∧
    (errs = [] ∧ s' = s ∧ ((actual < 0)%Z ∨ may_start_at s es i t actual) ∨
     ∃ ns wanted, errs = [mkIndentError (indent_message (wanted :: ns) actual) i actual wanted] ∧
       Sorted Z.le (wanted :: ns) ∧ NoDup (wanted :: ns) ∧ (∀ n, n ∈ wanted :: ns ↔ may_start_at s es i t n) ∧ (0 ≤ actual)%Z ∧ ¬ may_start_at s es i t actual ∧
       s' = with_offset s (<[line_number t := (wanted - actual)%Z]> (start_index_offset s))).
Proof using stream_h.
  intros N Hes Hh Ht. assert (Hi : i < length h) by by eapply lookup_lt_Some.
  destruct (GetAllowableIndentations_spec s es N Hes) as (X & EX & HX). destruct (GetActualIndentation_run s i Hh Hi) as (f & Hf & EA).
  unfold check_line. rewrite st_bind, EX. cbv beta iota. rewrite st_bind, EA. cbv beta iota. rewrite st_bind, (outdented_run s i t X Hh Hi). cbv beta iota.
  set (Y := if bool_decide (type t ∈ COMMENT_TYPES) && branch_after i then X ∪ AddToEach X (-2) else X).
  assert (HY : ∀ n, n ∈ Y ↔ may_start_at s es i t n).
  { intros n. unfold Y, may_start_at. case_bool_decide; cbn [andb]; [|rewrite HX; naive_solver]. destruct (branch_after i); [|rewrite HX; naive_solver].
    rewrite elem_of_union, elem_of_AddToEach, !HX. replace (n - -2)%Z with (n + 2)%Z by lia. naive_solver. }
  exists f, (line_indent f). destruct (sorted_spec Y) as (S1 & S2 & S3).
  destruct ((0 <=? line_indent f)%Z && bool_decide (line_indent f ∉ Y)) eqn:E.
  - apply andb_true_iff in E as [E1 E2]. apply Z.leb_le in E1. apply bool_decide_eq_true in E2. rewrite HY in E2.
    assert (Hne : sorted Y ≠ []).
    { intros Hn. assert (H : indented es (conts es) ∈ sorted Y); [|rewrite Hn in H; by apply elem_of_nil in H].
      apply S3, HY. left. left. exists (conts es). split; [|done]. split; [apply runs_conts|done]. }
    destruct (sorted Y) as [|wanted ns]; [done|]. do 2 eexists. split_and!; [done|done|reflexivity|]. right. exists ns, wanted. split_and!; try done. intros n. by rewrite S3.
  - do 2 eexists. split_and!; [done|done|reflexivity|]. left. split_and!; [done|done|]. apply andb_false_iff in E as [E|E].
    + left. by apply Z.leb_gt in E.
    + right. apply bool_decide_eq_false in E. apply HY. by destruct (decide (line_indent f ∈ Y)).
Qed.
End Stream.

(** ** What the rules keep *)

Section Kept.
Context (p0 : Pass).
Hypothesis stream_p0 : stream (heap p0) (seq 0 (length (heap p0))).
Record rules_ok (s : Rules) : Prop := { ro_pass : pass s = p0; ro_names : names_ok s }.
(** An entry that is there stays. *)
Record rules_kept (s s' : Rules) : Prop := { rk_infos : length (infos s) ≤ length (infos s') }.
#[local] Instance rules_kept_preorder : PreOrder rules_kept.
Proof. split; [by split|]. intros s1 s2 s3 [] []. split. lia. Qed.
Definition rules_exn (e : exn) : Prop := e = IndexError ∨ e = AttributeError.
#[local] Abbreviation kept := (keeps rules_ok rules_kept rules_exn).
#[local] Abbreviation kept_at := (keeps_at rules_ok rules_kept rules_exn).

Lemma in_pass_kept {A} (m : ST Pass A) : (∀ r p, m p0 = (r, p) → p = p0 ∧ ∀ e, r = Err e → e = AttributeError) → kept (in_pass m).
Proof.
  intros Hm s r s' Hs. unfold in_pass. rewrite (ro_pass _ Hs). destruct (m p0) as [r1 p1] eqn:E. destruct (Hm _ _ eq_refl) as [-> He].
  intros [= <- <-]. assert (Heq : mkRules p0 (infos s) (stack s) (start_index_offset s) = s) by (rewrite <-(ro_pass _ Hs); by destruct s).
  rewrite Heq. split_and!; [done|done|]. intros e ->. right. by apply He.
Qed.
Lemma get_pure (h : Heap) i r h' : get i h = (r, h') → h' = h ∧ ∀ e, r = Err e → e = AttributeError.
Proof. unfold get, gets. rewrite st_bind. destruct (h !! i); intros [= <- <-]; (split; [done|]); [done|by intros e [= <-]]. Qed.
Lemma tok_pure i p r p' : tok i p = (r, p') → p' = p ∧ ∀ e, r = Err e → e = AttributeError.
Proof.
  unfold tok, on_heap. destruct (get i (heap p)) as [r1 h1] eqn:E. apply get_pure in E as [-> He]. intros [= <- <-]. split; [by destruct p|done].
Qed.
Lemma meta_pure i p r p' : meta i p = (r, p') → p' = p ∧ ∀ e, r = Err e → e = AttributeError.
Proof.
  unfold meta, on_heap, get_meta. rewrite st_bind. destruct (get i (heap p)) as [[t|e] h1] eqn:E; apply get_pure in E as [-> He].
  - destruct (metadata t); intros [= <- <-]; (split; [by destruct p|]); [done|by intros e [= <-]].
  - intros [= <- <-]. split; [by destruct p|]. intros e' [= <-]. by apply He.
Qed.
Lemma ctx_fails c p r p' : ctx c p = (r, p') → ∀ e, r = Err e → e = AttributeError.
Proof. unfold ctx, gets, some. rewrite st_bind. destruct (contexts p !! c); intros [= <- _]; [done|by intros e [= <-]]. Qed.
Lemma itok_kept i : kept (itok i).
Proof. apply in_pass_kept, tok_pure. Qed.
Lemma imeta_kept i : kept (imeta i).
Proof. apply in_pass_kept, meta_pure. Qed.
Lemma some_ok {A} (o : option A) (p : Pass) r p' : some o p = (r, p') → p' = p ∧ ∀ e, r = Err e → e = AttributeError.
Proof. destruct o; intros [= <- <-]; (split; [done|]); [done|by intros e [= <-]]. Qed.
Lemma context_of_kept i : kept (context_of i).
Proof.
  apply keeps_bind; [apply _|apply imeta_kept|]. intros m. apply in_pass_kept. intros r p. rewrite st_bind.
  destruct (some (context m) p0) as [[c|e] p1] eqn:E; apply some_ok in E as [-> He].
  - intros H. split; [by eapply ctx_pure|by eapply ctx_fails].
  - intros [= <- <-]. split; [done|]. intros e' [= <-]. by apply He.
Qed.
Lemma in_some_kept {A} (o : option A) : kept (in_pass (some o)).
Proof. apply in_pass_kept, some_ok. Qed.
Lemma igets_kept {A} (f : Rules → A) : kept (gets f).
Proof. apply keeps_gets. apply _. Qed.
Lemma get_info_kept k : kept (get_info k).
Proof.
  apply keeps_bind; [apply _|apply igets_kept|]. intros [x|]; [apply keeps_ret; apply _|]. apply keeps_throw; [apply _|by right].
Qed.
Lemma flag_kept (m : ST Heap bool) : (∀ r h', m (heap p0) = (r, h') → h' = heap p0 ∧ ∀ e, r = Err e → e = AttributeError) → kept (in_pass (on_heap m)).
Proof.
  intros Hm. apply in_pass_kept. intros r p. unfold on_heap. destruct (m (heap p0)) as [r1 h1] eqn:E. destruct (Hm _ _ eq_refl) as [-> He].
  intros [= <- <-]. split; [by destruct p0|done].
Qed.
Lemma line_end_pure (i : nat) (f : Token → option nat) (h : Heap) r h' :
  (t ← get i; match f t with None => mret true | Some p => p ← get p; mret (negb (line_number p =? line_number t)%Z) end) h = (r, h') →
  h' = h ∧ ∀ e, r = Err e → e = AttributeError.
Proof.
  rewrite st_bind. destruct (get i h) as [[t|e] h1] eqn:E; apply get_pure in E as [-> He].
  - destruct (f t) as [q|]; [|by intros [= <- <-]]. rewrite st_bind. destruct (get q h) as [[u|e] h1] eqn:E; apply get_pure in E as [-> He'].
    + by intros [= <- <-].
    + intros [= <- <-]. split; [done|]. intros e' [= <-]. by apply He'.
  - intros [= <- <-]. split; [done|]. intros e' [= <-]. by apply He.
Qed.
Lemma IsFirstInLine_kept i : kept (in_pass (on_heap (IsFirstInLine i))).
Proof. apply flag_kept. intros r h'. apply (line_end_pure i previous). Qed.
Lemma IsLastInLine_kept i : kept (in_pass (on_heap (IsLastInLine i))).
Proof. apply flag_kept. intros r h'. apply (line_end_pure i next). Qed.

Lemma upd_info_kept k f : (∀ x, info_token (f x) = info_token x ∧ (overridden_by (f x) = overridden_by x ∨ overridden_by (f x) = None)) → kept (upd_info k f).
Proof.
  intros Hf. apply keeps_modify. intros s [Hp [T O K P]]. assert (Hlen : length (alter f k (infos s)) = length (infos s)) by apply length_alter.
  split; [split; [done|]|split; cbn; lia]. split; cbn; rewrite ?Hlen; [| |done|done].
  - intros j x Hx. destruct (decide (j = k)) as [->|Hj]; [|rewrite list_lookup_alter_ne in Hx by done; by apply (T j)].
    rewrite list_lookup_alter_eq in Hx. destruct (infos s !! k) as [y|] eqn:Ey; [|done]. injection Hx as <-. destruct (Hf y) as [-> _]. by apply (T k).
  - intros j x o Hx Ho. destruct (decide (j = k)) as [->|Hj]; [|rewrite list_lookup_alter_ne in Hx by done; by apply (O j x)].
    rewrite list_lookup_alter_eq in Hx. destruct (infos s !! k) as [y|] eqn:Ey; [|done]. injection Hx as <-. destruct (Hf y) as [_ [H|H]]; rewrite H in Ho; [by apply (O k y)|done].
Qed.
(** An entry may be overridden by one that is there. *)
Lemma override_at k o b s : rules_ok s → o < length (infos s) → kept_at s (upd_info k (λ x, set_permanent (override x (Some o)) (b x))).
Proof.
  intros [Hp [T O K P]] Ho. apply keeps_at_modify; [|split; cbn; by rewrite length_alter]. split; [done|]. split; cbn; rewrite ?length_alter; [| |done|done].
  - intros j x Hx. destruct (decide (j = k)) as [->|Hj]; [|rewrite list_lookup_alter_ne in Hx by done; by apply (T j)].
    rewrite list_lookup_alter_eq in Hx. destruct (infos s !! k) as [y|] eqn:Ey; [|done]. injection Hx as <-. exact (T k y Ey).
  - intros j x o' Hx Ho'. destruct (decide (j = k)) as [->|Hj]; [|rewrite list_lookup_alter_ne in Hx by done; by apply (O j x)].
    rewrite list_lookup_alter_eq in Hx. destruct (infos s !! k) as [y|] eqn:Ey; [|done]. injection Hx as <-. by injection Ho' as <-.
Qed.
Lemma new_info_at i b s : rules_ok s → kept_at s (new_info i b) ∧ ∀ n s', new_info i b s = (Ok n, s') → n < length (infos s') ∧ stack s' = stack s.
Proof.
  intros Hs. assert (Hs' := Hs). destruct Hs' as [Hp [T O K P]]. unfold new_info.
  destruct (heap p0 !! i) as [t|] eqn:Ht.
  - assert (Ht' : heap (pass s) !! i = Some t) by by rewrite Hp. split; intros r s'; rewrite st_bind, (itok_run _ _ _ Ht'); unfold gets, modify; rewrite !st_bind; intros [= <- <-].
    + split_and!; [|split; cbn; rewrite length_app; cbn; lia|done]. split; [done|]. split; cbn; rewrite ?length_app; cbn; [| | |done].
      * intros k x Hx. apply lookup_app_Some in Hx as [Hx|[_ Hx]]; [by eapply T|]. apply list_lookup_singleton_Some in Hx as [_ <-]. cbn. by eexists.
      * intros k x j Hx Hj. apply lookup_app_Some in Hx as [Hx|[_ Hx]]; [specialize (O _ _ _ Hx Hj); lia|]. by apply list_lookup_singleton_Some in Hx as [_ <-].
      * intros k Hk. specialize (K k Hk). lia.
    + cbn. rewrite length_app. cbn. split; [lia|done].
  - assert (Ht' : itok i s = (Err AttributeError, s)).
    { unfold itok, in_pass, tok, on_heap, get, gets. rewrite st_bind, Hp, Ht. cbn. rewrite <-Hp. by destruct s as [[] ? ? ?]. }
    split; intros r s'; rewrite st_bind, Ht'; [|done]. intros [= <- <-]. split_and!; [done|done|]. intros e [= <-]. by right.
Qed.
(** The stack stays. *)
#[local] Abbreviation same := (keeps (λ _ : Rules, True) (λ s s', stack s' = stack s) (λ _, True)).
#[local] Instance same_preorder : PreOrder (λ s s' : Rules, stack s' = stack s).
Proof. split; [done|]. intros s1 s2 s3 H1 H2. congruence. Qed.
Lemma in_pass_same {A} (m : ST Pass A) : same (in_pass m).
Proof. intros s r s' _. unfold in_pass. destruct (m (pass s)). by intros [= <- <-]. Qed.
Lemma get_info_same k : same (get_info k).
Proof. intros s r s' _. unfold get_info, gets. rewrite st_bind. by destruct (infos s !! k); intros [= <- <-]. Qed.
Lemma RemoveOverrides_same k : same (RemoveOverrides k).
Proof.
  apply keeps_bind; [apply _|apply keeps_gets; apply _|]. intros st. apply keeps_for_each; [apply _|]. intros j _.
  apply keeps_bind; [apply _|apply get_info_same|]. intros x. destruct (_ && _); [by intros s r s' _ [= <- <-]|apply keeps_ret; apply _].
Qed.
Lemma closed_same fuel : ∀ i same_ goal n count, same (closed_in_line fuel i same_ goal n count).
Proof.
  induction fuel as [|fuel IH]; intros [i|] same_ goal n count; cbn [closed_in_line]; try (by apply keeps_throw; [apply _|]); [|apply keeps_ret; apply _].
  apply keeps_bind; [apply _|apply in_pass_same|]. intros t. repeat case_match; try apply IH; apply keeps_ret; apply _.
Qed.
Lemma RemoveOverrides_kept k : kept (RemoveOverrides k).
Proof.
  apply keeps_bind; [apply _|apply igets_kept|]. intros st. apply keeps_for_each; [apply _|]. intros j _.
  apply keeps_bind; [apply _|apply get_info_kept|]. intros x. destruct (_ && _); [|apply keeps_ret; apply _]. apply upd_info_kept. intros y. split; [done|by right].
Qed.
(** A walk from [i] to the end has enough rounds. *)
Definition enough (fuel : nat) (i : option nat) : Prop := match i with Some i => length (heap p0) - i < fuel | None => 0 < fuel end.
Lemma enough_next fuel i t : heap p0 !! i = Some t → enough (S fuel) (Some i) → enough fuel (next t).
Proof using stream_p0.
  intros Ht Hf. rewrite (next_of _ stream_p0 _ _ Ht). apply lookup_lt_Some in Ht. cbn in Hf. destruct (Nat.ltb_spec (S i) (length (heap p0))); cbn; lia.
Qed.
Lemma itok_at i s {B} (f : Token → ST Rules B) : rules_ok s → (∀ t, heap p0 !! i = Some t → kept_at s (f t)) → kept_at s (t ← itok i; f t).
Proof.
  intros Hs Hf. apply keeps_at_bind; [apply _|by apply keeps_at_keeps, itok_kept|]. intros t s1 _ _ E.
  unfold itok, in_pass in E. rewrite (ro_pass _ Hs) in E. destruct (tok i p0) as [r p] eqn:E1. assert (E1' := E1). apply tok_pure in E1' as [-> _]. injection E as -> <-.
  replace (mkRules p0 _ _ _) with s by (rewrite <-(ro_pass _ Hs); by destruct s). apply Hf. unfold tok, on_heap, get, gets in E1. rewrite st_bind in E1.
  destruct (heap p0 !! i); [|done]. by injection E1 as ->.
Qed.
Lemma closed_kept fuel : ∀ i same_ goal n count s, rules_ok s → enough fuel i → kept_at s (closed_in_line fuel i same_ goal n count).
Proof using stream_p0.
  induction fuel as [|fuel IH]; intros [i|] same_ goal n count s Hs Hf; cbn in Hf; try lia; cbn [closed_in_line]; [|by apply keeps_at_ret; [apply _|]].
  apply itok_at; [done|]. intros t Ht. assert (Hn := enough_next fuel i t Ht Hf). repeat case_match; try (by apply IH); by apply keeps_at_ret; [apply _|].
Qed.
Lemma last_code_kept fuel : ∀ i n s, rules_ok s → enough fuel i → kept_at s (last_code_loop fuel i n).
Proof using stream_p0.
  induction fuel as [|fuel IH]; intros [i|] n s Hs Hf; cbn in Hf; try lia; cbn [last_code_loop]; [|by apply keeps_at_ret; [apply _|]].
  apply itok_at; [done|]. intros t Ht. assert (Hn := enough_next fuel i t Ht Hf). repeat case_match; try (by apply IH); by apply keeps_at_ret; [apply _|].
Qed.
Lemma forget_same k : same (forget k).
Proof.
  apply keeps_bind; [apply _|apply get_info_same|]. intros x. apply keeps_bind; [apply _|apply in_pass_same|]. intros t.
  destruct (bool_decide _); [apply RemoveOverrides_same|]. apply keeps_bind; [apply _|apply keeps_gets; apply _|]. intros n.
  apply keeps_bind; [apply _|apply closed_same|]. intros []; [apply RemoveOverrides_same|apply keeps_ret; apply _].
Qed.
Lemma forget_kept k : kept (forget k).
Proof using stream_p0.
  apply keeps_bind; [apply _|apply get_info_kept|]. intros x s r s' Hs. apply (itok_at _ s); [done|]. clear r s'. intros t Ht.
  destruct (bool_decide _); [by apply keeps_at_keeps, RemoveOverrides_kept|]. apply keeps_at_gets. apply keeps_at_bind; [apply _| |].
  - apply closed_kept; [done|]. cbn. rewrite (ro_pass _ Hs). apply lookup_lt_Some in Ht. unfold all_rounds. lia.
  - intros b s1 Hs1 _ _. destruct b; [by apply keeps_at_keeps, RemoveOverrides_kept|by apply keeps_at_ret; [apply _|]].
Qed.
Lemma with_stack_ok s st : rules_ok s → (∀ k, k ∈ st → k < length (infos s)) → rules_ok (with_stack s st).
Proof. intros [Hp [T O K P]] H. by split. Qed.
Lemma Pop_spec s : rules_ok s → kept_at s Pop ∧ ∀ k s', Pop s = (Ok k, s') → stack s = k :: stack s' ∧ k < length (infos s').
Proof using stream_p0.
  intros Hs. unfold Pop. destruct (stack s) as [|k st'] eqn:Est.
  - split; intros r s'; rewrite st_bind; unfold gets; cbv beta iota; rewrite Est; [|done]. intros [= <- <-]. split_and!; [done|done|]. intros e [= <-]. by left.
  - assert (Hin : ∀ j, j ∈ k :: st' → j < length (infos s)) by (intros j Hj; apply (no_stack _ (ro_names _ Hs)); by rewrite Est).
    assert (Hs1 : rules_ok (with_stack s st')) by (apply with_stack_ok; [done|]; intros j Hj; apply Hin; by right).
    assert (K : kept_at (with_stack s st') (forget k;; mret k)).
    { apply keeps_at_keeps; [done|]. apply keeps_bind; [apply _|apply forget_kept|]. intros _. apply keeps_ret. apply _. }
    split; intros r s'; rewrite st_bind; unfold gets; cbv beta iota; rewrite Est; unfold modify; rewrite st_bind; cbv beta iota; intros Hr.
    + destruct (K _ _ Hr) as (H1 & [H2] & H3). split_and!; [done|by split|done].
    + destruct (K _ _ Hr) as (_ & [Hl] & _). apply st_bind_Ok in Hr as ([] & s1 & E & [= <- <-]). apply forget_same in E as (_ & E & _); [|done]. cbn in E, Hl.
      split; [by rewrite E|]. specialize (Hin k ltac:(left)). lia.
Qed.
Lemma Pop_kept : kept Pop.
Proof using stream_p0. intros s r s' Hs. by apply Pop_spec. Qed.
Lemma pop_implied_kept fuel : ∀ s, rules_ok s → length (stack s) < fuel → kept_at s (pop_implied fuel).
Proof using stream_p0.
  induction fuel as [|fuel IH]; intros s Hs Hf; [lia|]. cbn [pop_implied]. apply keeps_at_bind; [apply _|by apply Pop_spec|]. intros k s1 Hs1 _ E.
  apply Pop_spec in E as [E _]; [|done]. rewrite E in Hf. cbn in Hf.
  apply keeps_at_bind; [apply _|by apply keeps_at_keeps, get_info_kept|]. intros x s2 Hs2 _ E2. apply get_info_same in E2 as (_ & E2 & _); [|done].
  apply keeps_at_bind; [apply _|by apply keeps_at_keeps, imeta_kept|]. intros m s3 Hs3 _ E3. apply in_pass_same in E3 as (_ & E3 & _); [|done].
  destruct (is_implied_block m); [by apply keeps_at_ret; [apply _|]|]. apply IH; [done|]. rewrite E3, E2. lia.
Qed.
Lemma PopToImpliedBlock_kept : kept PopToImpliedBlock.
Proof using stream_p0. intros s r s' Hs. unfold PopToImpliedBlock, gets. rewrite st_bind. apply pop_implied_kept; [done|unfold stack_rounds; lia]. Qed.
Lemma pop_until_spec fuel ty : ∀ s, rules_ok s → length (stack s) < fuel → kept_at s (pop_until fuel ty) ∧ ∀ k s', pop_until fuel ty s = (Ok k, s') → k < length (infos s').
Proof using stream_p0.
  induction fuel as [|fuel IH]; intros s Hs Hf; [lia|]. cbn [pop_until].
  cut (∀ r s', (k ← Pop; x ← get_info k; t ← itok (info_token x); if bool_decide (type t = ty) then mret k else pop_until fuel ty) s = (r, s') →
    (rules_ok s' ∧ rules_kept s s' ∧ ∀ e, r = Err e → rules_exn e) ∧ ∀ k, r = Ok k → k < length (infos s')).
  { intros H. split; [intros r s' E; by apply H|]. intros k s' E. by apply (H _ _ E). }
  intros r s'. rewrite st_bind. destruct (Pop_spec s Hs) as [K1 S1]. destruct (Pop s) as [[k|e] s1] eqn:E1; destruct (K1 _ _ E1) as (Hs1 & R1 & He).
  2: { intros [= <- <-]. split; [|done]. split_and!; [done|done|]. intros e' [= <-]. by apply He. }
  destruct (S1 _ _ eq_refl) as [Est Hk]. rewrite Est in Hf. cbn in Hf. destruct (entry_exists s1 k (ro_names _ Hs1) Hk) as (x & t & Hx).
  destruct (entry_runs _ _ _ _ Hx) as [Hx1 Ht]. rewrite st_bind, (get_info_run _ _ _ Hx1), st_bind, (itok_run _ _ _ Ht). cbv beta iota.
  case_bool_decide as Hty.
  - intros [= <- <-]. split; [|by intros k' [= <-]]. by split_and!.
  - intros Hr. destruct (IH s1 Hs1) as [K2 S2]; [lia|]. destruct (K2 _ _ Hr) as (H1 & H2 & H3). split; [split_and!; [done|by etrans|done]|]. intros k' ->. by eapply S2.
Qed.
Lemma PopTo_spec ty s : rules_ok s → kept_at s (PopTo ty) ∧ ∀ k s', PopTo ty s = (Ok k, s') → k < length (infos s').
Proof using stream_p0. intros Hs. apply (pop_until_spec (stack_rounds s) ty s); [done|unfold stack_rounds; lia]. Qed.
Lemma PopTo_kept ty : kept (PopTo ty).
Proof using stream_p0. intros s r s' Hs. by apply PopTo_spec. Qed.
Lemma pop_transient_kept fuel : ∀ s, rules_ok s → length (stack s) < fuel → kept_at s (pop_transient fuel).
Proof using stream_p0.
  induction fuel as [|fuel IH]; intros s Hs Hf; [lia|]. cbn [pop_transient]. apply keeps_at_gets. destruct (stack s) as [|k st] eqn:Est; [by apply keeps_at_ret; [apply _|]|].
  apply keeps_at_bind; [apply _|by apply keeps_at_keeps, get_info_kept|]. intros x s1 Hs1 _ E1. apply get_info_same in E1 as (_ & E1 & _); [|done].
  destruct (is_transient x); [|by apply keeps_at_ret; [apply _|]]. apply keeps_at_bind; [apply _|by apply Pop_spec|]. intros k' s2 Hs2 _ E2.
  apply Pop_spec in E2 as [E2 _]; [|done]. rewrite E1, Est in E2. injection E2 as _ E2. apply IH; [done|]. rewrite <-E2. cbn in Hf. lia.
Qed.
Lemma PopTransient_kept : kept PopTransient.
Proof using stream_p0. intros s r s' Hs. unfold PopTransient, gets. rewrite st_bind. apply pop_transient_kept; [done|unfold stack_rounds; lia]. Qed.
Create HintDb indent.
#[local] Hint Resolve itok_kept imeta_kept context_of_kept in_some_kept get_info_kept IsFirstInLine_kept IsLastInLine_kept
  PopToImpliedBlock_kept PopTo_kept PopTransient_kept igets_kept : indent.
Ltac steps :=
  cbv beta zeta;
  lazymatch goal with
  | |- keeps _ _ _ (mbind _ _) => first [solve [eauto with indent] | apply keeps_bind; [apply _|steps|intros; steps]]
  | |- keeps _ _ _ (mret _) => apply keeps_ret; apply _
  | |- keeps _ _ _ (match ?x with _ => _ end) => destruct x; steps
  | |- _ => eauto with indent
  end.
Lemma override_loop_kept st k info t : ∀ s, rules_ok s → k < length (infos s) → kept_at s (override_loop st k info t).
Proof.
  induction st as [|j st IH]; intros s Hs Hk; cbn [override_loop]; [by apply keeps_at_ret; [apply _|]|].
  apply keeps_at_bind; [apply _|by apply keeps_at_keeps, get_info_kept|]. intros x s1 Hs1 [R1] _. assert (Hk1 : k < length (infos s1)) by lia. clear s Hs Hk R1.
  apply keeps_at_bind; [apply _|by apply keeps_at_keeps, itok_kept|]. intros u s2 Hs2 [R2] _. assert (Hk2 : k < length (infos s2)) by lia. clear s1 Hs1 Hk1 R2.
  destruct (info_line x =? info_line info)%Z.
  - apply keeps_at_bind; [apply _|by apply (override_at j k is_permanent_override)|]. intros [] s3 Hs3 [R3] _. assert (Hk3 : k < length (infos s3)) by lia. clear s2 Hs2 Hk2 R3.
    apply keeps_at_bind; [apply _| |intros [] s4 Hs4 [R4] _; apply IH; [done|lia]]. apply keeps_at_keeps; [done|]. steps.
    apply upd_info_kept. intros y. by split; [|left].
  - apply keeps_at_bind; [apply _|apply keeps_at_keeps; [done|steps]|]. intros b s3 Hs3 [R3] _. assert (Hk3 : k < length (infos s3)) by lia.
    destruct (_ && _); [|by apply keeps_at_ret; [apply _|]]. apply keeps_at_bind; [apply _|by apply (override_at j k (λ _, true))|].
    intros [] s4 Hs4 [R4] _. apply IH; [done|lia].
Qed.
Lemma Add_kept k s : rules_ok s → k < length (infos s) → kept_at s (Add k).
Proof.
  intros Hs Hk. unfold Add. apply keeps_at_bind; [apply _|by apply keeps_at_keeps, get_info_kept|]. intros info s1 Hs1 [R1] _. assert (Hk1 : k < length (infos s1)) by lia.
  clear s Hs Hk R1. apply keeps_at_gets. apply keeps_at_bind; [apply _|apply keeps_at_keeps; [done|steps]|]. intros b s2 Hs2 [R2] _. assert (Hk2 : k < length (infos s2)) by lia.
  destruct b; [by apply keeps_at_ret; [apply _|]|]. apply keeps_at_bind; [apply _|by apply keeps_at_keeps, itok_kept|]. intros t s3 Hs3 [R3] _. assert (Hk3 : k < length (infos s3)) by lia.
  apply keeps_at_bind; [apply _| |].
  - destruct (_ || _); [by apply override_loop_kept|by apply keeps_at_ret; [apply _|]].
  - intros [] s4 Hs4 [R4] _. apply keeps_at_modify; [|by split]. apply with_stack_ok; [done|]. intros j [->|Hj]%elem_of_cons; [lia|]. by apply (no_stack _ (ro_names _ Hs4)).
Qed.
Lemma AddToken_kept i b : kept (AddToken_ i b).
Proof.
  intros s r s' Hs. apply (keeps_at_bind rules_ok rules_kept rules_exn s); [by apply new_info_at|]. intros k s1 Hs1 _ E. apply Add_kept; [done|]. by apply new_info_at in E as [? _].
Qed.
#[local] Hint Resolve AddToken_kept : indent.
Lemma close_token_kept i t b : kept (close_token i t b).
Proof using stream_p0.
  assert (Ha : kept (k ← PopTo START_BLOCK; Add k)).
  { intros s r s' Hs. apply (keeps_at_bind rules_ok rules_kept rules_exn s); [by apply PopTo_spec|]. intros k s1 Hs1 _ E. apply Add_kept; [done|]. destruct (PopTo_spec START_BLOCK s Hs) as [_ H]. by apply (H _ _ E). }
  assert (Hb : ∀ z, kept (k ← new_info i false; upd_info k (λ s, mkInfo (info_token s) (overridden_by s) (is_permanent_override s) (is_block s) (is_transient s) z);; Add k)).
  { intros z s r s' Hs. apply (keeps_at_bind rules_ok rules_kept rules_exn s); [by apply new_info_at|]. intros k s1 Hs1 _ E. apply new_info_at in E as [Hk _]; [|done].
    apply (keeps_at_bind rules_ok rules_kept rules_exn s1).
    - apply keeps_at_keeps; [done|]. apply upd_info_kept. intros y. by split; [|left].
    - intros [] s2 Hs2 [R2] _. apply Add_kept; [done|lia]. }
  unfold close_token. destruct (type t); try (steps; fail); repeat case_match; try apply Ha; try apply Hb; steps.
Qed.
Lemma entries_exist s : names_ok s → ∃ es, entries s = Some es.
Proof.
  intros N. unfold entries. assert (H : ∀ k, k ∈ reverse (stack s) → k < length (infos s)) by (intros k Hk%elem_of_reverse; rewrite reverse_involutive in Hk; by apply (no_stack _ N)).
  induction (reverse (stack s)) as [|k l IH]; [by exists []|]. destruct IH as [es Hes]; [intros j Hj; apply H; by right|].
  destruct (entry_exists s k N (H k ltac:(left))) as (x & t & Hk). exists ((x, t) :: es).
  apply bind_Some. exists (x, t). split; [done|]. apply bind_Some. by exists es.
Qed.
(** What a report says. *)
Definition report_ok (e : IndentError) : Prop :=
  (0 ≤ ie_actual e)%Z ∧ ie_actual e ≠ ie_wanted e ∧ ∃ f, heap p0 !! line_start (heap p0) (ie_token e) = Some f ∧ ie_actual e = line_indent f.
Lemma check_line_kept i t s : rules_ok s → heap p0 !! i = Some t →
  kept_at s (check_line i t) ∧ ∀ errs s', check_line i t s = (Ok errs, s') → errs = [] ∨ ∃ e, errs = [e] ∧ ie_token e = i ∧ report_ok e.
Proof using stream_p0.
  intros Hs Ht. destruct (entries_exist s (ro_names _ Hs)) as [es Hes].
  destruct (check_line_spec (heap p0) stream_p0 s i t es (ro_names _ Hs) Hes) as (f & actual & errs & s1 & Hf & Ha & E & Hcase); [by rewrite (ro_pass _ Hs)|done|].
  split; intros r s'; rewrite E; intros [= <- <-].
  - destruct Hcase as [(_ & -> & _)|(ns & wanted & _ & _ & _ & _ & _ & _ & ->)]; [by split_and!|].
    destruct Hs as [Hp [T O K P]]. split_and!; [by split|by split|done].
  - destruct Hcase as [(-> & _)|(ns & wanted & -> & _ & _ & Hns & Hpos & Hnot & _)]; [by left|]. right. eexists. split_and!; [done|done|]. split_and!; [done| |].
    + cbn. intros ->. apply Hnot. apply Hns. left.
    + exists f. by split.
Qed.
Lemma IsLastCodeInLine_kept i : kept (IsLastCodeInLine i).
Proof using stream_p0.
  intros s r s' Hs. apply (itok_at i s); [done|]. intros t Ht. destruct (bool_decide _); [by apply keeps_at_ret; [apply _|]|]. apply keeps_at_gets. apply last_code_kept; [done|].
  rewrite (ro_pass _ Hs). rewrite (next_of _ stream_p0 _ _ Ht). apply lookup_lt_Some in Ht. unfold all_rounds. destruct (Nat.ltb_spec (S i) (length (heap p0))); cbn; lia.
Qed.
#[local] Hint Resolve IsLastCodeInLine_kept : indent.
Lemma IsFirstNonWhitespace_kept i : kept (IsFirstNonWhitespaceTokenInLine i).
Proof. unfold IsFirstNonWhitespaceTokenInLine. steps. Qed.
Lemma open_token_kept i t : kept (open_token i t).
Proof. unfold open_token. steps. Qed.
Lemma colon_at_end_kept i : kept (colon_at_end i).
Proof using stream_p0. unfold colon_at_end. steps. Qed.
#[local] Hint Resolve colon_at_end_kept : indent.
Lemma last_operator_kept i t : kept (last_operator i t).
Proof using stream_p0. unfold last_operator. steps. Qed.
#[local] Hint Resolve last_operator_kept : indent.
Lemma end_of_line_kept i t : kept (end_of_line i t).
Proof using stream_p0. unfold end_of_line. steps. Qed.
Lemma unary_kept i t : kept (if bool_decide (type t ≠ OPERATOR) then mret true else m ← imeta i; mret (IsUnaryOperator m)).
Proof. steps. Qed.
Lemma CheckToken_kept i : kept (CheckToken i).
Proof using stream_p0.
  intros s r s' Hs. apply (itok_at i s); [done|]. clear r s'. intros t Ht. apply keeps_at_keeps; [done|].
  apply keeps_bind; [apply _|apply IsFirstNonWhitespace_kept|]. intros b. apply keeps_bind; [apply _|apply close_token_kept|]. intros _.
  apply keeps_bind; [apply _|apply unary_kept|]. intros n. apply keeps_bind; [apply _| |].
  - destruct (_ && _); [|apply keeps_ret; apply _]. intros s1 r s' Hs1. by apply check_line_kept.
  - intros errs. apply keeps_bind; [apply _|apply open_token_kept|]. intros _. apply keeps_bind; [apply _|apply imeta_kept|]. intros m.
    apply keeps_bind; [apply _|destruct (is_implied_block_close m); [apply PopToImpliedBlock_kept|apply keeps_ret; apply _]|]. intros _.
    apply keeps_bind; [apply _|apply end_of_line_kept|]. intros _. apply keeps_ret. apply _.
Qed.
Lemma CheckToken_reports i s errs s' : rules_ok s → CheckToken i s = (Ok errs, s') → errs = [] ∨ ∃ e, errs = [e] ∧ ie_token e = i ∧ report_ok e.
Proof using stream_p0.
  intros Hs Hr. unfold CheckToken in Hr. destruct (heap p0 !! i) as [t|] eqn:Ht.
  - rewrite st_bind, (itok_run s i t) in Hr by by rewrite (ro_pass _ Hs). cbv beta iota in Hr.
    apply st_bind_Ok in Hr as (b & s1 & E & Hr). apply IsFirstNonWhitespace_kept in E as (H1 & _); [|done].
    apply st_bind_Ok in Hr as ([] & s2 & E & Hr). apply close_token_kept in E as (H2 & _); [|done].
    apply st_bind_Ok in Hr as (n & s3 & E & Hr). apply unary_kept in E as (H3 & _); [|done].
    apply st_bind_Ok in Hr as (errors & s4 & E & Hr). do 3 (apply st_bind_Ok in Hr as (? & ? & _ & Hr)). apply st_bind_Ok in Hr as (? & ? & _ & [= <- _]).
    destruct (_ && _); [|injection E as <- _; by left]. destruct (check_line_kept i t s3 H3 Ht) as [_ H]. by apply (H _ _ E).
  - exfalso. rewrite st_bind in Hr. destruct (itok i s) as [[t|e] s1] eqn:E; [|done]. unfold itok, in_pass, tok, on_heap, get, gets in E.
    rewrite st_bind, (ro_pass _ Hs), Ht in E. done.
Qed.
Lemma check_tokens_spec l : ∀ s r s', rules_ok s → check_tokens l s = (r, s') → rules_ok s' ∧ (∀ e, r = Err e → rules_exn e) ∧
  ∀ errs, r = Ok errs → (ie_token <$> errs) `sublist_of` l ∧ Forall report_ok errs.
Proof using stream_p0.
  induction l as [|i l IH]; intros s r s' Hs; cbn [check_tokens].
  - intros [= <- <-]. split_and!; [done|done|]. intros errs [= <-]. by split.
  - rewrite st_bind. destruct (CheckToken i s) as [[e|e] s1] eqn:E; destruct (CheckToken_kept i _ _ _ Hs E) as (Hs1 & _ & He).
    + apply CheckToken_reports in E; [|done]. rewrite st_bind. destruct (check_tokens l s1) as [[es|e2] s2] eqn:E2; destruct (IH _ _ _ Hs1 E2) as (Hs2 & He2 & Hok).
      * intros [= <- <-]. split_and!; [done|done|]. intros errs [= <-]. destruct (Hok es eq_refl) as [Hsub Hall]. destruct E as [->|(x & -> & Hx & Hr)].
        -- split; [by constructor|done].
        -- split; [cbn; rewrite Hx; by constructor|by constructor].
      * intros [= <- <-]. split_and!; [done| |done]. intros e' [= <-]. by apply He2.
    + intros [= <- <-]. split_and!; [done| |done]. intros e' [= <-]. by apply He.
Qed.
Lemma new_Rules_ok : rules_ok (new_Rules p0).
Proof using stream_p0.
  split; [done|]. split; cbn; [done|done|by intros ? ?%elem_of_nil|apply (placed_at _ stream_p0)].
Qed.
End Kept.

(** C25: The indentation of a line is judged right.  The stack allows the indentations that come
    from its entries: 2 for each block, and for the continuations 4 for each, of which
    a run that no block interrupts must take one and may take all; or else, from a hard stop
    of an entry, the blocks after it and any number of the continuations after it; a comment
    before else, case or default may also be 2 to the left of these.  A line is reported
    exactly when it has no tab and starts at none of them; the report lists all of them in
    order, without repetition, and asks for the least, and the line is then taken to start
    there. *)
Theorem check_line_correct h s i t es : stream h (seq 0 (length h)) → names_ok s → entries s = Some es → heap (pass s) = h → h !! i = Some t →
  ∃ (f : Token) (actual : Z) (errs : list IndentError) (s' : Rules), h !! line_start h i = Some f ∧ actual = line_indent f ∧ check_line i t s = (Ok errs, s') ∧
    (errs = [] ∧ s' = s ∧ ((actual < 0)%Z ∨ may_start_at h s es i t actual) ∨
     ∃ ns wanted, errs = [mkIndentError (indent_message (wanted :: ns) actual) i actual wanted] ∧
       Sorted Z.le (wanted :: ns) ∧ NoDup (wanted :: ns) ∧ (∀ n, n ∈ wanted :: ns ↔ may_start_at h s es i t n) ∧ (0 ≤ actual)%Z ∧ ¬ may_start_at h s es i t actual ∧
       s' = with_offset s (<[line_number t := (wanted - actual)%Z]> (start_index_offset s))).
Proof. intros Hst. exact (check_line_spec h Hst s i t es). Qed.

Lemma analysed_stream file p : analyse file = Ok (Ok tt, p) → stream (heap p) (seq 0 (length (heap p))).
Proof. intros Ha. destruct (analyse_spec file) as (r & p' & Ha' & _ & _ & Hok). rewrite Ha in Ha'. injection Ha' as <- <-. by apply Hok. Qed.
(** C26: The check of the indentation of a file that the metadata pass has gone through ends,
    with its reports or an IndexError or an AttributeError.  It changes no token.  The reports
    are about tokens of the file, in their order and at most one about each; what a report
    says of a line is its indentation, and it asks for another one. *)
Theorem check_tokens_correct file p r s : analyse file = Ok (Ok tt, p) → check_tokens (seq 0 (length (heap p))) (new_Rules p) = (r, s) →
  pass s = p ∧ (∀ e, r = Err e → rules_exn e) ∧
  ∀ errs, r = Ok errs → (ie_token <$> errs) `sublist_of` seq 0 (length (heap p)) ∧ Forall (report_ok p) errs.
Proof.
  intros Ha Hr. assert (Hst := analysed_stream _ _ Ha).
  apply (check_tokens_spec p Hst) in Hr as (Hs & He & Hrep); [|by apply new_Rules_ok]. split; [by apply ro_pass|by split].
Qed.

(** ** Examples *)

Definition demo_file : list string := ["if (a) {"; "   b;"; "}"].
Definition demo_pass : Pass := match analyse demo_file with Ok (_, p) => p | Err _ => Reset [] end.
Definition demo_rules : Rules := (check_tokens (seq 0 8) (new_Rules demo_pass)).2.
Lemma demo_analysed : analyse demo_file = Ok (Ok tt, demo_pass).
Proof. by vm_compute. Qed.
Lemma demo_file_stream : stream (heap demo_pass) (seq 0 (length (heap demo_pass))).
Proof. exact (analysed_stream _ _ demo_analysed). Qed.
Lemma demo_rules_ok : rules_ok demo_pass demo_rules.
Proof.
  unfold demo_rules. destruct (check_tokens (seq 0 8) (new_Rules demo_pass)) as [r s] eqn:E.
  assert (H := check_tokens_spec demo_pass demo_file_stream _ _ _ _ (new_Rules_ok _ demo_file_stream) E). exact (proj1 H).
Qed.
Lemma check_tokens_correct_witness : ∃ errs s, check_tokens (seq 0 (length (heap demo_pass))) (new_Rules demo_pass) = (Ok errs, s) ∧
  (λ e, (ie_token e, ie_actual e, ie_wanted e)) <$> errs = [(8, 3%Z, 2%Z)] ∧ pass s = demo_pass ∧ Forall (report_ok demo_pass) errs.
Proof.
  destruct (check_tokens (seq 0 (length (heap demo_pass))) (new_Rules demo_pass)) as [r s] eqn:E.
  destruct (check_tokens_correct demo_file demo_pass r s demo_analysed E) as (Hp & _ & Hok).
  assert (Hr : match r with Ok e => (λ e, (ie_token e, ie_actual e, ie_wanted e)) <$> e | Err _ => [] end = [(8, 3%Z, 2%Z)]).
  { change r with (r, s).1. rewrite <-E. by vm_compute. }
  destruct r as [errs|]; [|done]. exists errs, s. by split_and!; [| | |apply Hok].
Defined.
Lemma check_line_correct_witness : ∃ t es errs s', heap demo_pass !! 8 = Some t ∧ entries demo_rules = Some es ∧ check_line 8 t demo_rules = (Ok errs, s') ∧
  may_start_at (heap demo_pass) demo_rules es 8 t 2 ∧ ¬ may_start_at (heap demo_pass) demo_rules es 8 t 3 ∧
  ie_message <$> errs = ["Wrong indentation: expected any of {2} but got 3"].
Proof.
  destruct demo_rules_ok as [Hp N]. destruct (heap demo_pass !! 8) as [t|] eqn:Ht; [|by vm_compute in Ht]. destruct (entries_exist demo_rules N) as [es Hes].
  assert (Hh : heap (pass demo_rules) = heap demo_pass) by by rewrite Hp.
  destruct (check_line_correct (heap demo_pass) demo_rules 8 t es demo_file_stream N Hes Hh Ht) as (f & actual & errs & s' & _ & _ & E & Hcase).
  assert (Hr : (ie_message <$> errs, ie_actual <$> errs, ie_wanted <$> errs) = (["Wrong indentation: expected any of {2} but got 3"], [3%Z], [2%Z])).
  { assert (Heq : match check_line 8 (default (new_Token "" NORMAL "" 0 None) (heap demo_pass !! 8)) demo_rules with
      | (Ok e, _) => (ie_message <$> e, ie_actual <$> e, ie_wanted <$> e) | (Err _, _) => ([], [], []) end =
      (["Wrong indentation: expected any of {2} but got 3"], [3%Z], [2%Z])) by by vm_compute.
    rewrite Ht in Heq. change (default _ (Some t)) with t in Heq. by rewrite E in Heq. }
  exists t, es, errs, s'. destruct Hcase as [(-> & _)|(ns & wanted & -> & _ & _ & Hns & _ & Hnot & _)]; [done|].
  cbn [ie_message ie_actual ie_wanted fmap list_fmap] in Hr. assert (Ha : actual = 3%Z) by congruence. assert (Hw : wanted = 2%Z) by congruence. subst actual wanted.
  split_and!; [done|done|done|apply Hns; left|done|]. cbn [ie_message fmap list_fmap]. congruence.
Defined.

(** Two conditional expressions one in the other and no semicolon: none is implied either,
    so that at the end of the file the stack is not empty. *)
Example chained_conditional : indentation ["var x = a ? b : c ? d : e"] = Ok ([], Err RuntimeError) ∧ implied_semicolons ["var x = a ? b : c ? d : e"] = [].
Proof. by vm_compute. Qed.
Example single_conditional : indentation ["var x = a ? b : c"] = Ok ([], Ok tt).
Proof. by vm_compute. Qed.
(** The bracket of an index is transient: an implied semicolon may take it away before it is closed. *)
Example index_lost : indentation ["x = a[if (b) c"; "];"] = Err IndexError.
Proof. by vm_compute. Qed.
(** A block that is never closed has no end for the code that looks for its line. *)
Example open_block_at_end : indentation ["f({"] = Err AttributeError.
Proof. by vm_compute. Qed.
Example comma_in_index : outcome ["a[b, c];"] = Err (ParseError (Some 6)).
Proof. by vm_compute. Qed.
