(* ===== verification/ClDoc.v ===== *)
(** * Documentation (tools/closure_linter: statetracker.py, the flags and comments)

    The flags of a documentation comment with their types, names and descriptions, and the
    comparison of documented parameters with those of a function. *)
From S2P Require Import Prelude PyStr PyState CppRe ClTokens ClTokenizer.

(** ** Flags *)

Definition STANDARD_DOC : list string :=
  ["author"; "bug"; "const"; "constructor"; "define"; "deprecated"; "enum"; "export"; "extends"; "externs"; "fileoverview"; "implements";
   "implicitCast"; "interface"; "license"; "noalias"; "nocompile"; "nosideeffects"; "override"; "owner"; "param"; "preserve"; "private";
   "return"; "see"; "supported"; "template"; "this"; "type"; "typedef"].
Definition ANNOTATION : list string := ["preserveTry"; "suppress"].
Definition LEGAL_DOC : list string := STANDARD_DOC ++ ANNOTATION.
Definition SUPPRESS_TYPES : list string :=
  ["accessControls"; "checkRegExp"; "checkTypes"; "checkVars"; "deprecated"; "duplicate"; "fileoverviewTags"; "invalidCasts"; "missingProperties";
   "nonStandardJsDocs"; "strictModuleDepCheck"; "undefinedVars"; "underscore"; "unknownDefines"; "uselessCode"; "visibility"; "with"].
Definition HAS_DESCRIPTION : list string := ["define"; "deprecated"; "desc"; "fileoverview"; "license"; "param"; "preserve"; "return"; "supported"].
Definition HAS_TYPE : list string := ["define"; "enum"; "extends"; "implements"; "param"; "return"; "type"; "suppress"].
Definition TYPE_ONLY : list string := ["enum"; "extends"; "implements"; "suppress"; "type"].
Definition HAS_NAME : list string := ["param"].
Definition EXTENDED_DOC : list string := ["class"; "code"; "desc"; "final"; "hidden"; "inheritDoc"; "link"; "protected"; "notypecheck"; "throws"].
Definition EMPTY_COMMENT_LINE : rx := Cats [Bol; Star Space; Opt (Chr "*"); Star Space; Eol].

Record DocFlag := mkDocFlag {
  flag_type : string;
  flag_token : nat;
  dtype : option string;
  type_start_token : option nat;
  type_end_token : option nat;
  name_token : option nat;
  flag_name : option string;
  description_start_token : option nat;
  description_end_token : option nat;
  description : option string }.

(** [None.attribute] *)
Definition the {A} (o : option A) : ST Heap A := match o with Some a => mret a | None => throw AttributeError end.
Definition next_token (i : nat) : ST Heap (option nat) := t ← get i; mret (next t).

(** [_GetMatchingEndBraceAndContents]: the loop gives the token it stops at, and the texts. *)
Fixpoint brace_loop (fuel : nat) (token : option nat) (open_count close_count : nat) (contents : list string) : ST Heap (option nat * list string) :=
  match fuel with
  | 0 => throw OutOfFuel
  | S n =>
      if open_count =? close_count then mret (token, contents)
      else
        i ← the token; t ← get i;
        let open_count := if bool_decide (type t = DOC_START_BRACE) then S open_count else open_count in
        let close_count := if bool_decide (type t = DOC_END_BRACE) then S close_count else close_count in
        let contents := if bool_decide (type t ≠ DOC_PREFIX) then contents ++ [string_ t] else contents in
        if bool_decide (type t ∈ FLAG_ENDING_TYPES) then mret (token, contents) else brace_loop n (next t) open_count close_count contents
  end.
Definition GetMatchingEndBraceAndContents (start_brace : nat) : ST Heap (option nat * string) :=
  n ← gets all_rounds;
  s ← next_token start_brace;
  r ← brace_loop (S n) s 1 0 [];
  i ← the r.1; t ← get i;
  mret (previous t, join "" (take (length r.2 - 1) r.2)).

(** The whole text is an identifier. *)
Definition whole_identifier (s : string) : bool :=
  match re_match IDENTIFIER_RE s with Some (_, y) => after y =s "" | None => false end.
Fixpoint identifier_loop (fuel : nat) (token : option nat) : ST Heap (option nat) :=
  match fuel with
  | 0 => throw OutOfFuel
  | S n =>
      match token with
      | None => mret None
      | Some i =>
          t ← get i;
          if bool_decide (type t ∈ FLAG_ENDING_TYPES) then mret None
          else if whole_identifier (string_ t) && bool_decide (type t = COMMENT) then mret (Some i) else identifier_loop n (next t)
      end
  end.
Definition GetNextIdentifierToken (start_token : nat) : ST Heap (option nat) :=
  n ← gets all_rounds; s ← next_token start_token; identifier_loop n s.

(** [_GetEndTokenAndContents] *)
Fixpoint contents_loop (fuel : nat) (iterator : nat) (last_line : Z) (last_token : option nat) (contents : string) : ST Heap (option nat * string) :=
  match fuel with
  | 0 => throw OutOfFuel
  | S n =>
      t ← get iterator;
      if bool_decide (type t ∈ FLAG_ENDING_TYPES) then mret (last_token, contents)
      else
        b ← IsFirstInLine iterator;
        if b && found (re_match EMPTY_COMMENT_LINE (line t)) then mret (last_token, contents)
        else
          let described := bool_decide (type t ∈ FLAG_DESCRIPTION_TYPES) in
          j ← the (next t); u ← get j;
          let contents := if described then contents +:+ string_ t else contents in
          contents_loop n j (line_number u) (if described then Some iterator else last_token)
            (if (line_number u =? last_line)%Z then contents else contents +:+ nl_str)
  end.
Definition GetEndTokenAndContents (start_token : nat) : ST Heap (option nat * option string) :=
  n ← gets all_rounds;
  t ← get start_token;
  r ← contents_loop n start_token (line_number t) None "";
  mret (r.1, if str_forall is_space r.2 then None else Some (str_take (String.length r.2 - 1) r.2)).

Fixpoint lstrip_at (s : string) : string := match s with String "@" s' => lstrip_at s' | _ => s end.
(** A non-empty text is true. *)
Definition truthy (o : option string) : bool := match o with Some s => negb (s =s "") | None => false end.
Definition flag_types (flag : nat) (ft : string) : ST Heap (option nat * option nat * option string) :=
  if bool_decide (ft ∈ HAS_TYPE) then
    brace ← SearchUntil flag [DOC_START_BRACE] FLAG_ENDING_TYPES None false;
    match brace with
    | Some b => r ← GetMatchingEndBraceAndContents b; mret (Some b, r.1, Some r.2)
    | None =>
        if bool_decide (ft ∈ TYPE_ONLY) then
          n ← next_token flag; n ← the n; u ← get n;
          if bool_decide (type u ∉ FLAG_ENDING_TYPES) then
            r ← GetEndTokenAndContents n; mret (Some n, r.1, strip <$> r.2)
          else mret (None, None, None)
        else mret (None, None, None)
    end
  else mret (None, None, None).
(** [tokenutil.Compare] of two tokens that may be None. *)
Definition Compare_opt (a b : option nat) : ST Heap Z := i ← the a; j ← the b; Compare i j.
Definition flag_name_token (flag : nat) (ft : string) (types : option nat * option nat * option string) : ST Heap (option nat) :=
  if bool_decide (ft ∈ HAS_NAME) then
    n ← GetNextIdentifierToken flag;
    match n with
    | Some _ =>
        if truthy types.2 then
          c ← Compare_opt n types.1.1;
          if (0 <? c)%Z then e ← the types.1.2; GetNextIdentifierToken e else mret n
        else mret n
    | None => mret None
    end
  else mret None.
Definition flag_description (flag : nat) (ft : string) (types : option nat * option nat * option string) (name : option nat) :
    ST Heap (option nat * option nat * option string) :=
  if bool_decide (ft ∈ HAS_DESCRIPTION) then
    start ← match name, types.1.2 with
      | Some n, Some e => c ← Compare e n; mret (Some (if (0 <? c)%Z then e else n))
      | Some n, None => mret (Some n)
      | None, e => mret (if truthy types.2 then e else Some flag)
      end;
    start ← the start;
    i ← Search start (FLAG_DESCRIPTION_TYPES ++ FLAG_ENDING_TYPES) None false;
    i ← the i; t ← get i;
    if bool_decide (type t ∈ FLAG_DESCRIPTION_TYPES) then r ← GetEndTokenAndContents i; mret (Some i, r.1, r.2) else mret (None, None, None)
  else mret (None, None, None).
Definition new_DocFlag (flag : nat) : ST Heap DocFlag :=
  t ← get flag;
  let ft := lstrip_at (strip (string_ t)) in
  types ← flag_types flag ft;
  name ← flag_name_token flag ft types;
  nm ← match name with Some n => u ← get n; mret (Some (string_ u)) | None => mret None end;
  d ← flag_description flag ft types name;
  mret (mkDocFlag ft flag types.2 types.1.1 types.1.2 name nm d.1.1 d.1.2 d.2).

(** ** Comments *)

Record DocComment := mkDocComment {
  ordered_params : list string;
  params : list (string * option string);
  flags : list (string * DocFlag);
  start_token : nat;
  end_token : option nat;
  suppressions : list (string * nat);
  invalidated : bool }.
Definition new_DocComment (start : nat) : DocComment := mkDocComment [] [] [] start None [] false.
(** The dicts keep their last value for a key; the first pair of the list is the last one that was set. *)
Definition Invalidate (c : DocComment) : DocComment :=
  mkDocComment (ordered_params c) (params c) (flags c) (start_token c) (end_token c) (suppressions c) true.
Definition AddParam (c : DocComment) (name : string) (ty : option string) : DocComment :=
  mkDocComment (ordered_params c ++ [name]) ((name, ty) :: params c) (flags c) (start_token c) (end_token c) (suppressions c) (invalidated c).
Definition AddFlag (c : DocComment) (f : DocFlag) : DocComment :=
  mkDocComment (ordered_params c) (params c) ((flag_type f, f) :: flags c) (start_token c) (end_token c) (suppressions c) (invalidated c).
Definition AddSuppression (c : DocComment) (token : nat) : ST Heap DocComment :=
  brace ← SearchUntil token [DOC_START_BRACE] [DOC_FLAG] None false;
  match brace with
  | Some b =>
      r ← GetMatchingEndBraceAndContents b;
      mret (mkDocComment (ordered_params c) (params c) (flags c) (start_token c) (end_token c) ((r.2, token) :: suppressions c) (invalidated c))
  | None => mret c
  end.
Fixpoint assoc {A} (k : string) (l : list (string * A)) : option A :=
  match l with [] => None | (k', a) :: l' => if k =s k' then Some a else assoc k l' end.
Definition HasFlag (c : DocComment) (ft : string) : bool := bool_decide (is_Some (assoc ft (flags c))).
Definition GetFlag (c : DocComment) (ft : string) : res DocFlag := match assoc ft (flags c) with Some f => Ok f | None => Err KeyError end.
Definition InheritsDocumentation (c : DocComment) : bool :=
  HasFlag c "inheritDoc" || (HasFlag c "override" && negb (HasFlag c "return") && negb (HasFlag c "param")).

(** ** The comparison of parameters *)

Abbreviation edit_list := (list string).
(** The two tables, as lists of rows. *)
Record Tables := mkTables { edit_lists : list (list edit_list); distance : list (list nat) }.
Definition row_get {A} (t : list (list A)) (i j : nat) : res A :=
  match t !! i ≫= (λ r, r !! j) with Some a => Ok a | None => Err IndexError end.
(** [table[i].append(a)] *)
Definition row_append {A} (t : list (list A)) (i : nat) (a : A) : res (list (list A)) :=
  match t !! i with Some r => Ok (<[i := r ++ [a]]> t) | None => Err IndexError end.
(** The first row, and the first column. *)
Definition first_tables (source_len target_len : nat) : Tables :=
  mkTables (((λ i, replicate i "I") <$> seq 0 (S target_len)) :: ((λ j, [replicate j "D"]) <$> seq 1 source_len))
           (seq 0 (S target_len) :: ((λ j, [j]) <$> seq 1 source_len)).
Definition fill_cell (doc params : list string) (i : nat) (t : Tables) (j : nat) : res Tables :=
  let cost := if bool_decide (doc !! i = params !! j) then 0 else 1 in
  deletion ← row_get (distance t) i (j + 1); let deletion := deletion + 1 in
  insertion ← row_get (distance t) (i + 1) j; let insertion := insertion + 1 in
  substitution ← row_get (distance t) i j; let substitution := substitution + cost in
  if (deletion <=? insertion) && (deletion <=? substitution) then
    e ← row_get (edit_lists t) i (j + 1);
    es ← row_append (edit_lists t) (i + 1) (e ++ ["D"]);
    d ← row_append (distance t) (i + 1) deletion; Ok (mkTables es d)
  else if insertion <=? substitution then
    e ← row_get (edit_lists t) (i + 1) j;
    es ← row_append (edit_lists t) (i + 1) (e ++ ["I"]);
    es ← row_append es (i + 1) (e ++ ["I"]);
    d ← row_append (distance t) (i + 1) insertion; Ok (mkTables es d)
  else
    e ← row_get (edit_lists t) i j;
    es ← row_append (edit_lists t) (i + 1) (e ++ [if cost =? 0 then "=" else "S"]);
    d ← row_append (distance t) (i + 1) substitution; Ok (mkTables es d).
Definition fill_row (doc params : list string) (t : Tables) (i : nat) : res Tables := res_fold (fill_cell doc params i) (seq 0 (length params)) t.
Definition CompareParameters (c : DocComment) (params : list string) : res (nat * edit_list) :=
  let doc := ordered_params c in
  t ← res_fold (fill_row doc params) (seq 0 (length doc)) (first_tables (length doc) (length params));
  d ← row_get (distance t) (length doc) (length params);
  e ← row_get (edit_lists t) (length doc) (length params);
  Ok (d, e).

Definition documented (l : list string) : DocComment := foldl (λ c n, AddParam c n None) (new_DocComment 0) l.

(** ** The distance *)

(** What turns the documented parameters into the others, and how many changes it takes. *)
Inductive edits : list string → list string → nat → Prop :=
| edits_nil : edits [] [] 0
| edits_delete s t n x : edits s t n → edits (s ++ [x]) t (S n)
| edits_insert s t n y : edits s t n → edits s (t ++ [y]) (S n)
| edits_keep s t n x : edits s t n → edits (s ++ [x]) (t ++ [x]) n
| edits_substitute s t n x y : edits s t n → edits (s ++ [x]) (t ++ [y]) (S n).
(** A reference: the least number of changes, for lists that are read backwards. *)
Definition cost (x y : string) : nat := if bool_decide (x = y) then 0 else 1.
Fixpoint lev (s : list string) : list string → nat :=
  match s with
  | [] => length
  | x :: s' => fix go (t : list string) : nat :=
      match t with [] => S (length s') | y :: t' => S (lev s' (y :: t')) `min` (S (go t') `min` (lev s' t' + cost x y)) end
  end.
Lemma lev_nil_r s : lev s [] = length s.
Proof. by destruct s. Qed.
Lemma lev_cons x s y t : lev (x :: s) (y :: t) = S (lev s (y :: t)) `min` (S (lev (x :: s) t) `min` (lev s t + cost x y)).
Proof. done. Qed.
Lemma lev_edits s : ∀ t, edits (reverse s) (reverse t) (lev s t).
Proof.
  induction s as [|x s IHs]; intros t; induction t as [|y t IHt].
  - constructor.
  - rewrite reverse_cons. by constructor.
  - rewrite lev_nil_r, reverse_cons. cbn [length]. constructor. specialize (IHs []). by rewrite lev_nil_r in IHs.
  - rewrite lev_cons, !reverse_cons.
    assert (H1 := IHs (y :: t)). rewrite reverse_cons in H1. assert (H2 := IHt). rewrite reverse_cons in H2. assert (H3 := IHs t).
    destruct (Nat.min_dec (S (lev s (y :: t))) (S (lev (x :: s) t) `min` (lev s t + cost x y))) as [-> | ->]; [by constructor|].
    destruct (Nat.min_dec (S (lev (x :: s) t)) (lev s t + cost x y)) as [-> | ->]; [by constructor|].
    unfold cost. case_bool_decide as E; [subst y; rewrite Nat.add_0_r; by constructor|rewrite Nat.add_1_r; by constructor].
Qed.
Lemma lev_delete x s t : lev (x :: s) t ≤ S (lev s t).
Proof. destruct t; [by rewrite !lev_nil_r|]. rewrite lev_cons. lia. Qed.
Lemma lev_insert s y t : lev s (y :: t) ≤ S (lev s t).
Proof. destruct s; [done|]. rewrite lev_cons. lia. Qed.
Lemma lev_least s t n : edits s t n → lev (reverse s) (reverse t) ≤ n.
Proof.
  induction 1 as [|s t n x _ IH|s t n y _ IH|s t n x _ IH|s t n x y _ IH]; rewrite ?reverse_snoc.
  - done.
  - rewrite lev_delete. lia.
  - rewrite lev_insert. lia.
  - rewrite lev_cons. unfold cost. rewrite bool_decide_true by done. lia.
  - rewrite lev_cons. unfold cost. case_bool_decide; lia.
Qed.

Section Distance.
Context (s t : list string).
Abbreviation n := (length s).
Abbreviation m := (length t).
(** The distance of two prefixes. *)
Definition D (i j : nat) : nat := lev (reverse (take i s)) (reverse (take j t)).
Lemma D_left i : i ≤ n → D i 0 = i.
Proof. intros Hi. unfold D. rewrite take_0, reverse_nil, lev_nil_r, length_reverse, length_take. lia. Qed.
Lemma D_top j : j ≤ m → D 0 j = j.
Proof. intros Hj. unfold D. rewrite take_0, reverse_nil. cbn. rewrite length_reverse, length_take. lia. Qed.
Lemma D_step i j x y : s !! i = Some x → t !! j = Some y →
  D (S i) (S j) = S (D i (S j)) `min` (S (D (S i) j) `min` (D i j + cost x y)).
Proof.
  intros Hx Hy. unfold D. rewrite (take_S_r _ _ _ Hx), (take_S_r _ _ _ Hy), !reverse_snoc. apply lev_cons.
Qed.

(** The row [k] of the tables is filled up to column [rows k]. *)
Definition filled (rows : nat → nat) (T : Tables) : Prop := ∀ k, k ≤ n →
  distance T !! k = Some (D k <$> seq 0 (S (rows k))) ∧ ∃ r, edit_lists T !! k = Some r ∧ S (rows k) ≤ length r.
Definition set_row (k c : nat) (rows : nat → nat) : nat → nat := λ i, if decide (i = k) then c else rows i.
Lemma row_get_distance rows T i j : filled rows T → i ≤ n → j ≤ rows i → row_get (distance T) i j = Ok (D i j).
Proof.
  intros HT Hi Hj. destruct (HT i Hi) as [Hd _]. unfold row_get. rewrite Hd. cbn [mbind option_bind]. by rewrite list_lookup_fmap, lookup_seq_lt by lia.
Qed.
Lemma row_get_edits rows T i j : filled rows T → i ≤ n → j ≤ rows i → ∃ e, row_get (edit_lists T) i j = Ok e.
Proof.
  intros HT Hi Hj. destruct (HT i Hi) as [_ (r & Hr & Hl)]. unfold row_get. rewrite Hr. cbn [mbind option_bind].
  destruct (lookup_lt_is_Some_2 r j) as [e He]; [lia|]. rewrite He. by exists e.
Qed.
(** The new cell: its value, and one or more new edit lists. *)
Lemma filled_append rows T es r r' i j d : filled rows T → i < n → rows (S i) = j → d = D (S i) (S j) → edit_lists T !! S i = Some r →
  es = <[S i := r']> (edit_lists T) → S (length r) ≤ length r' →
  ∃ ds, row_append (distance T) (i + 1) d = Ok ds ∧ filled (set_row (S i) (S j) rows) (mkTables es ds).
Proof.
  intros HT Hi Hj -> Hr -> Hl. destruct (HT (S i)) as [Hd (r0 & Hr0 & Hl0)]; [lia|]. rewrite Nat.add_1_r. unfold row_append. rewrite Hd. eexists. split; [done|].
  intros k Hk. unfold set_row. cbn [distance edit_lists]. destruct (decide (k = S i)) as [->|Hn].
  - rewrite !list_lookup_insert_eq by (by eapply lookup_lt_Some). split; [|exists r'; split; [done|]].
    + rewrite Hj, (seq_S (S j)), fmap_app. done.
    + assert (r0 = r) as -> by congruence. lia.
  - rewrite !list_lookup_insert_ne by done. by apply HT.
Qed.
Lemma fill_cell_spec rows T i j : filled rows T → i < n → j < m → rows i = m → rows (S i) = j →
  ∃ T', fill_cell s t i T j = Ok T' ∧ filled (set_row (S i) (S j) rows) T'.
Proof.
  intros HT Hi Hj Hri Hrj. destruct (lookup_lt_is_Some_2 s i Hi) as [x Hx]. destruct (lookup_lt_is_Some_2 t j Hj) as [y Hy].
  assert (Hcost : (if bool_decide (s !! i = t !! j) then 0 else 1) = cost x y).
  { rewrite Hx, Hy. unfold cost. destruct (decide (x = y)) as [->|E]; [by rewrite !bool_decide_true|by rewrite !bool_decide_false by congruence]. }
  destruct (HT (S i)) as [_ (r & Hr & Hl)]; [lia|]. assert (Hrow := λ r' es d, filled_append rows T es r r' i j d HT Hi Hrj).
  unfold fill_cell. rewrite Hcost, (row_get_distance rows T i (j + 1) HT), (row_get_distance rows T (i + 1) j HT), (row_get_distance rows T i j HT) by (rewrite ?Nat.add_1_r; lia).
  cbn [mbind res_bind]. assert (HD := D_step i j x y Hx Hy). rewrite !Nat.add_1_r in *.
  assert (Happ : ∀ a, row_append (edit_lists T) (S i) a = Ok (<[S i := r ++ [a]]> (edit_lists T))) by (intros a; unfold row_append; by rewrite Hr).
  assert (Htwice : ∀ r' a, row_append (<[S i := r']> (edit_lists T)) (S i) a = Ok (<[S i := r' ++ [a]]> (edit_lists T))).
  { intros r' a. unfold row_append. rewrite list_lookup_insert_eq by (by eapply lookup_lt_Some). by rewrite list_insert_insert_eq. }
  destruct ((S (D i (S j)) <=? S (D (S i) j)) && (S (D i (S j)) <=? D i j + cost x y)) eqn:E1; [|destruct (S (D (S i) j) <=? D i j + cost x y) eqn:E2].
  - apply andb_true_iff in E1 as [E1 E2]. apply Nat.leb_le in E1, E2. destruct (row_get_edits rows T i (S j) HT) as [e ->]; [lia..|]. cbn [mbind res_bind]. rewrite Happ. cbn [mbind res_bind].
    destruct (Hrow (r ++ [e ++ ["D"]]) _ (S (D i (S j))) ltac:(lia) Hr eq_refl) as (ds & -> & HT'); [rewrite length_app; cbn; lia|]. cbn. by eexists.
  - apply andb_false_iff in E1. rewrite !Nat.leb_gt in E1. apply Nat.leb_le in E2. destruct (row_get_edits rows T (S i) j HT) as [e ->]; [lia..|]. cbn [mbind res_bind]. rewrite Happ. cbn [mbind res_bind].
    rewrite Htwice. cbn [mbind res_bind].
    destruct (Hrow ((r ++ [e ++ ["I"]]) ++ [e ++ ["I"]]) _ (S (D (S i) j)) ltac:(lia) Hr eq_refl) as (ds & -> & HT'); [rewrite !length_app; cbn; lia|]. cbn. by eexists.
  - apply andb_false_iff in E1. rewrite !Nat.leb_gt in E1. apply Nat.leb_gt in E2. destruct (row_get_edits rows T i j HT) as [e ->]; [lia..|]. cbn [mbind res_bind]. rewrite Happ. cbn [mbind res_bind].
    destruct (Hrow (r ++ [e ++ [if cost x y =? 0 then "=" else "S"]]) _ (D i j + cost x y) ltac:(lia) Hr eq_refl) as (ds & -> & HT'); [rewrite length_app; cbn; lia|]. cbn. by eexists.
Qed.
Lemma filled_ext rows rows' T : (∀ k, rows k = rows' k) → filled rows T → filled rows' T.
Proof. intros H HT k Hk. destruct (HT k Hk) as [? ?]. by rewrite <-H. Qed.
Lemma fill_row_spec i : ∀ c j rows T, filled rows T → i < n → j + c = m → rows i = m → rows (S i) = j →
  ∃ T', res_fold (fill_cell s t i) (seq j c) T = Ok T' ∧ filled (set_row (S i) m rows) T'.
Proof.
  induction c as [|c IH]; intros j rows T HT Hi Hj Hri Hrj; cbn [seq res_fold].
  - exists T. split; [done|]. eapply filled_ext; [|done]. intros k. unfold set_row. destruct (decide (k = S i)) as [->|]; lia.
  - destruct (fill_cell_spec rows T i j HT Hi) as (T1 & -> & HT1); [lia|done|done|]. cbn [mbind res_bind].
    destruct (IH (S j) _ T1 HT1 Hi) as (T' & -> & HT'); [lia|unfold set_row; rewrite decide_False by lia; done|unfold set_row; by rewrite decide_True|].
    exists T'. split; [done|]. eapply filled_ext; [|done]. intros k. unfold set_row. by destruct (decide (k = S i)).
Qed.
Lemma fill_all : ∀ c i T, filled (λ k, if decide (k ≤ i) then m else 0) T → i + c = n →
  ∃ T', res_fold (fill_row s t) (seq i c) T = Ok T' ∧ filled (λ _, m) T'.
Proof.
  induction c as [|c IH]; intros i T HT Hi; cbn [seq res_fold].
  - exists T. split; [done|]. intros k Hk. specialize (HT k Hk). cbn in HT. by rewrite decide_True in HT by lia.
  - destruct (fill_row_spec i m 0 _ T HT) as (T1 & E & HT1); [lia|lia|by rewrite decide_True|by rewrite decide_False by lia|].
    change (fill_row s t T i = Ok T1) in E. rewrite E. cbn [mbind res_bind]. apply IH; [|lia]. eapply filled_ext; [|done]. intros k. unfold set_row.
    destruct (decide (k = S i)) as [->|Hk]; [by rewrite decide_True|]. destruct (decide (k ≤ i)); [by rewrite decide_True by lia|by rewrite decide_False by lia].
Qed.
Lemma first_filled : filled (λ k, if decide (k ≤ 0) then m else 0) (first_tables n m).
Proof.
  intros [|k] Hk.
  - rewrite decide_True by done. split; [|eexists; split; [done|by rewrite length_fmap, length_seq]]. cbn [first_tables distance]. apply (f_equal Some), list_eq. intros j.
    rewrite list_lookup_fmap. destruct (decide (j < S m)); [rewrite lookup_seq_lt by done; cbn; by rewrite D_top by lia|by rewrite !lookup_seq_ge by lia].
  - rewrite decide_False by lia. assert (Hs : seq 1 n !! k = Some (S k)) by by rewrite lookup_seq_lt by lia. split.
    + change (((λ j, [j]) <$> seq 1 n) !! k = Some (D (S k) <$> seq 0 1)). rewrite list_lookup_fmap, Hs. cbn. by rewrite D_left.
    + exists [replicate (S k) "D"]. split; [|cbn; lia]. change (((λ j, [replicate j "D"]) <$> seq 1 n) !! k = Some [replicate (S k) "D"]). by rewrite list_lookup_fmap, Hs.
Qed.
End Distance.

Lemma CompareParameters_spec c ps : ∃ e, CompareParameters c ps = Ok (lev (reverse (ordered_params c)) (reverse ps), e).
Proof.
  set (s := ordered_params c). destruct (fill_all s ps (length s) 0 _ (first_filled s ps) eq_refl) as (T & E & HT).
  unfold CompareParameters. fold s. rewrite E. cbn [mbind res_bind]. rewrite (row_get_distance s ps _ T _ _ HT) by done. cbn [mbind res_bind].
  destruct (row_get_edits s ps _ T (length s) (length ps) HT) as [e ->]; [done..|]. exists e. unfold D. by rewrite !firstn_all.
Qed.
(** C35: Comparing the documented parameters with those of a function never fails, and the
    distance it gives is the least number of parameters to delete, insert or replace. *)
Theorem CompareParameters_correct c ps : ∃ d e, CompareParameters c ps = Ok (d, e) ∧ edits (ordered_params c) ps d ∧
  ∀ k, edits (ordered_params c) ps k → d ≤ k.
Proof.
  destruct (CompareParameters_spec c ps) as [e E]. exists (lev (reverse (ordered_params c)) (reverse ps)), e. split_and!; [done| |apply lev_least].
  assert (H := lev_edits (reverse (ordered_params c)) (reverse ps)). by rewrite !reverse_involutive in H.
Qed.

Lemma lev_most s : ∀ t, lev s t ≤ length s `max` length t.
Proof.
  induction s as [|x s IH]; intros t; [done|]. destruct t as [|y t]; [cbn; lia|]. rewrite lev_cons. specialize (IH t). unfold cost. case_bool_decide; cbn [length]; lia.
Qed.
Lemma edits_length s t k : edits s t k → length s ≤ length t + k ∧ length t ≤ length s + k ∧ (k = 0 → s = t).
Proof. induction 1 as [|??? ? _ (?&?&?)|??? ? _ (?&?&?)|??? ? _ (?&?&IH)|??? ? ? _ (?&?&?)]; rewrite ?length_app; cbn; split_and!; try lia; [done|]. intros ->. by rewrite IH. Qed.
Lemma edits_same s : edits s s 0.
Proof. induction s as [|x s IH] using rev_ind; by constructor. Qed.
(** C36: The distance is at most the length of the longer list and at least the difference of
    the lengths, and it is 0 exactly when the function has the documented parameters. *)
Theorem CompareParameters_bounds c ps : ∃ d e, CompareParameters c ps = Ok (d, e) ∧ d ≤ length (ordered_params c) `max` length ps ∧
  length (ordered_params c) ≤ length ps + d ∧ length ps ≤ length (ordered_params c) + d ∧ (d = 0 ↔ ordered_params c = ps).
Proof.
  destruct (CompareParameters_spec c ps) as [e E]. exists (lev (reverse (ordered_params c)) (reverse ps)), e.
  assert (Hm := lev_most (reverse (ordered_params c)) (reverse ps)). rewrite !length_reverse in Hm.
  assert (H := lev_edits (reverse (ordered_params c)) (reverse ps)). rewrite !reverse_involutive in H. apply edits_length in H as (H1 & H2 & H3).
  split_and!; [done..|]. split; [done|]. intros <-. assert (H := lev_least _ _ _ (edits_same (ordered_params c))). lia.
Qed.
(** An insertion puts its list into the row twice: the lists after it are those of other
    cells.  Two parameters are missing here, and only one of them is reported. *)
Example edit_list_of_another_cell : CompareParameters (documented ["a"]) ["a"; "b"; "c"] = Ok (2, ["="; "I"]).
Proof. by vm_compute. Qed.
