(* ===== verification/ClErrors.v ===== *)
(** * Errors (tools/closure_linter: errors.py, errorrules.py, common/error.py, common/position.py)

    What the rules report, and what the handlers of errors are given. *)
From S2P Require Import Prelude PyStr PyState ClTokens.

(** How many characters of white space there are at the start, and at the end. *)
Definition leading (s : string) : nat := String.length s - String.length (lstrip s).
Definition trailing (s : string) : nat := String.length s - String.length (rstrip s).
Definition isspace (s : string) : bool := negb (s =s "") && str_forall is_space s.

(** ** Positions *)

Record Position := mkPosition { pos_start : Z; pos_length : Z }.
(** Where a slice of Python starts or ends: negative numbers count from the end. *)
Definition slice_index (s : string) (i : Z) : nat :=
  Z.to_nat (if (i <? 0)%Z then Z.max 0 (Z.of_nat (String.length s) + i) else i).
Definition slice_to (s : string) (i : Z) : string := str_take (slice_index s i) s.
Definition slice_from (s : string) (i : Z) : string := str_drop (slice_index s i) s.
Definition Get (p : Position) (s : string) : string := str_take (slice_index s (pos_start p + pos_length p) - slice_index s (pos_start p)) (slice_from s (pos_start p)).
Definition Set_ (p : Position) (target source : string) : string := slice_to target (pos_start p) +:+ source +:+ slice_from target (pos_start p + pos_length p).
Definition AtEnd (s : string) : Position := mkPosition (Z.of_nat (String.length s)) 0.
Definition IsAtEnd (p : Position) (s : string) : bool := (pos_start p =? Z.of_nat (String.length s))%Z && (pos_length p =? 0)%Z.
Definition AtBeginning : Position := mkPosition 0 0.
Definition IsAtBeginning (p : Position) : bool := (pos_start p =? 0)%Z && (pos_length p =? 0)%Z.
Definition All_ (s : string) : Position := mkPosition 0 (Z.of_nat (String.length s)).
Definition Index (i : Z) : Position := mkPosition i 1.

(** ** Errors *)

(** Those of ActionScript, which no rule of this program reports, are left out. *)
Inductive ErrorCode :=
| FILE_NOT_FOUND | FILE_DOES_NOT_PARSE | EXTRA_SPACE | MISSING_SPACE | EXTRA_LINE | MISSING_LINE | ILLEGAL_TAB | WRONG_INDENTATION |
WRONG_BLANK_LINE_COUNT | MISSING_SEMICOLON | MISSING_SEMICOLON_AFTER_FUNCTION | ILLEGAL_SEMICOLON_AFTER_FUNCTION | REDUNDANT_SEMICOLON |
ILLEGAL_PROTOTYPE_MEMBER_VALUE | LINE_TOO_LONG | LINE_STARTS_WITH_OPERATOR | COMMA_AT_END_OF_LITERAL | MULTI_LINE_STRING |
UNNECESSARY_DOUBLE_QUOTED_STRING | GOOG_REQUIRES_NOT_ALPHABETIZED | GOOG_PROVIDES_NOT_ALPHABETIZED | MISSING_GOOG_REQUIRE | MISSING_GOOG_PROVIDE |
EXTRA_GOOG_REQUIRE | INVALID_JSDOC_TAG | INVALID_USE_OF_DESC_TAG | NO_BUG_NUMBER_AFTER_BUG_TAG | MISSING_PARAMETER_DOCUMENTATION |
EXTRA_PARAMETER_DOCUMENTATION | WRONG_PARAMETER_DOCUMENTATION | MISSING_JSDOC_TAG_TYPE | MISSING_JSDOC_TAG_DESCRIPTION | MISSING_JSDOC_PARAM_NAME |
OUT_OF_ORDER_JSDOC_TAG_TYPE | MISSING_RETURN_DOCUMENTATION | UNNECESSARY_RETURN_DOCUMENTATION | MISSING_BRACES_AROUND_TYPE |
MISSING_MEMBER_DOCUMENTATION | MISSING_PRIVATE | EXTRA_PRIVATE | INVALID_OVERRIDE_PRIVATE | INVALID_INHERIT_DOC_PRIVATE | MISSING_JSDOC_TAG_THIS |
UNNECESSARY_BRACES_AROUND_INHERIT_DOC | INVALID_AUTHOR_TAG_DESCRIPTION | JSDOC_PREFER_QUESTION_TO_PIPE_NULL | JSDOC_ILLEGAL_QUESTION_WITH_PIPE |
JSDOC_TAG_DESCRIPTION_ENDS_WITH_INVALID_CHARACTER | INCORRECT_SUPPRESS_SYNTAX | INVALID_SUPPRESS_TYPE | UNNECESSARY_SUPPRESS | FILE_MISSING_NEWLINE |
FILE_IN_BLOCK | INTERFACE_CONSTRUCTOR_CANNOT_HAVE_PARAMS | INTERFACE_METHOD_CANNOT_HAVE_CODE.
#[export] Instance ErrorCode_eq_dec : EqDecision ErrorCode.
Proof. solve_decision. Defined.
Definition MISSING_DOCUMENTATION : list ErrorCode :=
  [MISSING_PARAMETER_DOCUMENTATION; MISSING_RETURN_DOCUMENTATION; MISSING_MEMBER_DOCUMENTATION; MISSING_PRIVATE; MISSING_JSDOC_TAG_THIS].
(** [jsdoc] is a flag of the command line. *)
Definition ShouldReportError (jsdoc : bool) (e : ErrorCode) : bool := jsdoc || bool_decide (e ∉ MISSING_DOCUMENTATION).

(** The data that a rule gives with its error. *)
Inductive FixData := NoData | Lines (n : Z) | Sorts (tokens : list nat) | Required (names : list string).
Record LintError := mkError {
  code : ErrorCode; message : string; err_token : option nat; position : option Position; fix_data : FixData; err_start : Z }.
(** [Error(code, message, token, position, fix_data)] *)
Definition new_Error (c : ErrorCode) (msg : string) (token : option nat) (p : option Position) (d : FixData) : ST Heap LintError :=
  start ← match token with Some i => t ← get i; mret (start_index t) | None => mret (Some 0) end;
  match start, p with
  | Some n, _ => mret (mkError c msg token p d (Z.of_nat n + match p with Some p => pos_start p | None => 0 end))
  | None, None => mret (mkError c msg token p d 0)
  | None, Some _ => throw TypeError
  end.
(** [Error.Compare]: in the order of the source. *)
Definition Error_Compare (a b : LintError) : ST Heap Z :=
  i ← match err_token a with Some i => mret i | None => throw AttributeError end;
  j ← match err_token b with Some j => mret j | None => throw AttributeError end;
  t ← get i; u ← get j;
  mret (if (line_number t =? line_number u)%Z then (err_start a - err_start b)%Z else (line_number t - line_number u)%Z).
