(* ===== verification/ClState.v ===== *)
(** * The state tracker (tools/closure_linter: statetracker.py, javascriptstatetracker.py)

    What the rules know of the tokens before the one they check: the depth of blocks and
    parentheses, the functions around it, the documentation that applies, and the
    namespaces that the file requires, provides and uses. *)
From stdpp Require Import gmap.
From S2P Require Import Prelude PyStr PyState ClTokens ClTokenizer ClMeta ClIndent ClDoc.

(** ** The objects *)

Inductive BlockType := OBJECT_BLOCK | CODE_BLOCK.
#[export] Instance BlockType_eq_dec : EqDecision BlockType.
Proof. solve_decision. Defined.
(** [Function]; functions and comments are objects, named by numbers. *)
Record Function_ := mkFunction {
  fn_depth : Z; is_assigned : bool; is_constructor : bool; is_interface : bool; has_return : bool; has_this : bool; fn_name : string; fn_doc : option nat }.
Record Depths := mkDepths { block_depth : Z; is_block_close : bool; paren_depth : Z; block_types : list BlockType }.
(** The innermost function comes first. *)
Record Functions := mkFunctions { all_functions : list Function_; functions : list nat; functions_by_name : gmap string nat; cumulative_params : option string }.
Record Comments := mkComments { all_docs : list DocComment; last_comment : option string; doc_comment : option nat; documented_identifiers : gset string }.
Record Seen := mkSeen { last_non_space_token : option nat; last_line : option string; first_token : option nat }.
Record Namespaces := mkNamespaces {
  goog_require_tokens : list (option nat); goog_provide_tokens : list (option nat); provided_namespaces : gset string; used_namespaces : list (string * string) }.
Record Tracker := mkTracker { depths : Depths; funcs : Functions; comments : Comments; seen : Seen; names : Namespaces }.
(** [Reset] *)
Definition new_Tracker : Tracker :=
  mkTracker (mkDepths 0 false 0 []) (mkFunctions [] [] ∅ None) (mkComments [] None None ∅) (mkSeen None None None) (mkNamespaces [] [] ∅ []).
Definition with_depths t x := mkTracker x (funcs t) (comments t) (seen t) (names t).
Definition with_funcs t x := mkTracker (depths t) x (comments t) (seen t) (names t).
Definition with_comments t x := mkTracker (depths t) (funcs t) x (seen t) (names t).
Definition with_seen t x := mkTracker (depths t) (funcs t) (comments t) x (names t).
Definition with_names t x := mkTracker (depths t) (funcs t) (comments t) (seen t) x.

(** What a check works on: the rules of indentation with the tokens and contexts, the flags
    that are attached to tokens, the tracker, whether the checker was told of an error, and the handler of errors. *)
Record World {H : Type} := mkWorld { rules : Rules; attached_flags : gmap nat DocFlag; tracker : Tracker; has_errors : bool; handler : H }.
Arguments World H : clear implicits.
Arguments mkWorld {H}.

(** Where the source takes the last element, or what is not None. *)
Definition pop {A} (l : list A) : option (list A) := match l with [] => None | _ :: l' => Some l' end.
Definition isupper (s : string) : bool := negb (str_forall (λ a, negb (is_upper a)) s) && str_forall (λ a, negb (is_lower a)) s.
(** [x[i]] of a list from its end, and [l.pop()]. *)
Definition without_last (l : list string) : list string := take (length l - 1) l.

Section Tracker.
Context {H : Type}.
Abbreviation W := (ST (World H)).

Definition on_rules {A} (m : ST Rules A) : W A := λ w, let '(r, x) := m (rules w) in (r, mkWorld x (attached_flags w) (tracker w) (has_errors w) (handler w)).
Definition in_tokens {A} (m : ST Heap A) : W A := on_rules (in_pass (on_heap m)).
Definition wtok (i : nat) : W Token := in_tokens (get i).
Definition wthe {A} (o : option A) : W A := match o with Some a => mret a | None => throw AttributeError end.
Definition wtok_opt (o : option nat) : W Token := i ← wthe o; wtok i.
Definition track (f : Tracker → Tracker) : W unit := modify (λ w, mkWorld (rules w) (attached_flags w) (f (tracker w)) (has_errors w) (handler w)).
Definition state {A} (f : Tracker → A) : W A := gets (λ w, f (tracker w)).
Definition rounds : W nat := gets (λ w, all_rounds (heap (pass (rules w)))).
Definition attach_flag (i : nat) (d : DocFlag) : W unit := modify (λ w, mkWorld (rules w) (<[i := d]> (attached_flags w)) (tracker w) (has_errors w) (handler w)).
(** An attribute of [token.attached_object]. *)
Definition attached_flag (i : nat) : W DocFlag := o ← gets (λ w, (attached_flags w !! i : option DocFlag)); wthe o.
Definition doc_at (k : nat) : W DocComment := o ← state (λ t, (all_docs (comments t) !! k : option DocComment)); wthe o.
Definition function_at (k : nat) : W Function_ := o ← state (λ t, (all_functions (funcs t) !! k : option Function_)); wthe o.
Definition upd_doc (k : nat) (d : DocComment) : W unit :=
  track (λ t, let c := comments t in with_comments t (mkComments (<[k := d]> (all_docs c)) (last_comment c) (doc_comment c) (documented_identifiers c))).
Definition upd_function (k : nat) (f : Function_ → Function_) : W unit :=
  track (λ t, let x := funcs t in with_funcs t (mkFunctions (alter f k (all_functions x)) (functions x) (functions_by_name x) (cumulative_params x))).
(** [token.values[key]] *)
Definition value (i : nat) (key : string) : W string :=
  t ← wtok i;
  match values t with
  | None => throw TypeError
  | Some vs => match assoc key vs with None => throw KeyError | Some None => throw AttributeError | Some (Some s) => mret s end
  end.
Definition search_except_code (i : nat) : W (option nat) := in_tokens (SearchExcept i NON_CODE_TYPES None false).
(** [tokenutil.Search] of a token that may be None. *)
Definition search_opt (o : option nat) (tys : list TokenType) : W (option nat) :=
  match o with Some i => in_tokens (Search i tys None false) | None => mret None end.

(** ** What the rules ask *)

Definition InFunction : W bool := state (λ t, negb (bool_decide (functions (funcs t) = []))).
Definition GetFunction : W (option nat) := state (λ t, head (functions (funcs t))).
Definition top_function : W Function_ := o ← GetFunction; match o with Some k => function_at k | None => throw IndexError end.
Definition InConstructor : W bool := b ← InFunction; if (b : bool) then f ← top_function; mret (is_constructor f) else mret false.
Definition InInterfaceMethod : W bool :=
  b ← InFunction;
  if (b : bool) then
    f ← top_function;
    if is_interface f then mret true
    else match find ".prototype." (fn_name f) with
         | Some i =>
             o ← state (λ t, (functions_by_name (funcs t) !! str_take i (fn_name f) : option nat));
             match o with Some k => g ← function_at k; mret (is_interface g) | None => mret false end
         | None => mret false
         end
  else mret false.
Definition InParentheses : W bool := state (λ t, negb (paren_depth (depths t) =? 0)%Z).
Definition InTopLevel : W bool := b ← InParentheses; mret (negb b).
Definition InTopLevelFunction : W bool :=
  n ← state (λ t, length (functions (funcs t))); if n =? 1 then InTopLevel else mret false.
Definition InAssignedFunction : W bool := b ← InFunction; if (b : bool) then f ← top_function; mret (is_assigned f) else mret false.
Definition IsFunctionOpen : W bool :=
  b ← InFunction; if (b : bool) then f ← top_function; d ← state (λ t, block_depth (depths t)); mret (fn_depth f =? d - 1)%Z else mret false.
Definition IsFunctionClose : W bool :=
  b ← InFunction; if (b : bool) then f ← top_function; d ← state (λ t, block_depth (depths t)); mret (fn_depth f =? d)%Z else mret false.
Definition InBlock : W bool := state (λ t, negb (block_depth (depths t) =? 0)%Z).
Definition IsBlockClose : W bool := state (λ t, is_block_close (depths t)).
Definition InObjectLiteral : W bool :=
  d ← state depths;
  if (block_depth d =? 0)%Z then mret false
  else match block_types d with [] => throw IndexError | ty :: _ => mret (bool_decide (ty = OBJECT_BLOCK)) end.
Definition InObjectLiteralDescendant : W bool := state (λ t, bool_decide (OBJECT_BLOCK ∈ block_types (depths t))).
(** [GetParams]: the types that may follow the names are taken away. *)
Definition before_colon (s : string) : string := match split_on ":" s with p :: _ => p | [] => s end.
Definition GetParams : W (list string) :=
  p ← state (λ t, cumulative_params (funcs t));
  mret (match p with
        | Some p => if p =s "" then [] else before_colon <$> split_on "," (str_filter (λ a, negb (is_space a)) p)
        | None => []
        end).
Definition HasDocComment (identifier : string) : W bool := state (λ t, bool_decide (identifier ∈ documented_identifiers (comments t))).
Definition InDocComment : W bool :=
  o ← state (λ t, doc_comment (comments t));
  match o with Some k => d ← doc_at k; mret (bool_decide (end_token d = None)) | None => mret false end.
Definition IsTypeToken (i : nat) : W bool :=
  t ← wtok i;
  b ← InDocComment;
  if b && bool_decide (type t ∉ [START_DOC_COMMENT; DOC_FLAG; DOC_INLINE_FLAG; DOC_PREFIX]) then
    f ← in_tokens (SearchUntil i [DOC_FLAG] [START_DOC_COMMENT] None true);
    match f with
    | None => mret false
    | Some f =>
        d ← attached_flag f;
        match type_start_token d with
        | None => mret false
        | Some s =>
            c ← in_tokens (Compare i s);
            if (0 <? c)%Z then c ← in_tokens (Compare_opt (Some i) (type_end_token d)); mret (c <? 0)%Z else mret false
        end
    end
  else mret false.
(** In JavaScript: code comes after parameters, parentheses and keywords. *)
Definition GetBlockType (i : nat) : W BlockType :=
  o ← in_tokens (SearchExcept i NON_CODE_TYPES None true);
  t ← wtok_opt o;
  mret (if bool_decide (type t ∈ [END_PARAMETERS; END_PAREN; KEYWORD]) && negb (IsKeyword t "return") then CODE_BLOCK else OBJECT_BLOCK).

(** ** A token *)

Definition set_comments (f : Comments → Comments) : W unit := track (λ t, with_comments t (f (comments t))).
Definition document (identifier : string) : W unit :=
  set_comments (λ c, mkComments (all_docs c) (last_comment c) (doc_comment c) ({[identifier]} ∪ documented_identifiers c)).
Definition forget_comment : W unit := set_comments (λ c, mkComments (all_docs c) None None (documented_identifiers c)).
(** [_HandleIdentifier] *)
Definition HandleIdentifier (identifier : string) : W unit :=
  if (identifier =s "this") || startswith "this." identifier then
    o ← GetFunction;
    match o with
    | Some k => upd_function k (λ f, mkFunction (fn_depth f) (is_assigned f) (is_constructor f) (is_interface f) (has_return f) true (fn_name f) (fn_doc f))
    | None => mret tt
    end
  else mret tt.
(** The parts of a name that is assigned to, back from [=]. *)
Fixpoint skip_non_code_back (fuel : nat) (i : nat) : W (option nat) :=
  match fuel with
  | 0 => throw OutOfFuel
  | S n =>
      t ← wtok i;
      match previous t with
      | None => mret None
      | Some p => u ← wtok p; if bool_decide (type u ∈ NON_CODE_TYPES) then skip_non_code_back n p else mret (Some p)
      end
  end.
Fixpoint assigned_name (fuel : nat) (identifier : option nat) (name : string) : W string :=
  match fuel with
  | 0 => throw OutOfFuel
  | S n =>
      match identifier with
      | None => mret name
      | Some i =>
          t ← wtok i;
          if bool_decide (type t ∈ [IDENTIFIER; SIMPLE_LVALUE]) then
            r ← rounds; p ← skip_non_code_back r i; assigned_name n p (string_ t +:+ name)
          else mret name
      end
  end.
Fixpoint declared_name (fuel : nat) (next_token : option nat) (name : string) : W string :=
  match fuel with
  | 0 => throw OutOfFuel
  | S n =>
      match next_token with
      | None => mret name
      | Some i =>
          t ← wtok i;
          if bool_decide (type t = FUNCTION_NAME) then
            o ← in_tokens (Search i [FUNCTION_NAME] (Some 2) false); declared_name n o (name +:+ string_ t)
          else mret name
      end
  end.
(** [if last_code is an operator that assigns] *)
Definition is_assigned_to (last_code : option nat) : W bool :=
  match last_code with
  | None => mret false
  | Some c =>
      t ← wtok c;
      if IsOperator t "=" || IsOperator t "||" || IsOperator t "&&" then mret true
      else if IsOperator t ":" then b ← InObjectLiteral; mret (negb b)
      else mret false
  end.
Definition doc_has (o : option nat) (flag : string) : W bool := match o with Some k => d ← doc_at k; mret (HasFlag d flag) | None => mret false end.
Definition declare_function (i : nat) : W unit :=
  last_code ← in_tokens (SearchExcept i NON_CODE_TYPES None true);
  p ← state (λ t, paren_depth (depths t));
  doc ← (if (p =? 0)%Z then state (λ t, doc_comment (comments t)) else mret None);
  assigned ← is_assigned_to last_code;
  r ← rounds;
  name ← (if (assigned : bool) then
            c ← wthe last_code; o ← in_tokens (Search c [SIMPLE_LVALUE] None true); assigned_name r o ""
          else o ← search_except_code i; declared_name r o "");
  d ← state (λ t, block_depth (depths t));
  constructor_ ← doc_has doc "constructor";
  interface_ ← doc_has doc "interface";
  track (λ t, let x := funcs t in let k := length (all_functions x) in
    with_funcs t (mkFunctions (all_functions x ++ [mkFunction d assigned constructor_ interface_ false false name doc]) (k :: functions x)
                              (<[name := k]> (functions_by_name x)) (cumulative_params x))).
Definition handle_flag (i : nat) : W unit :=
  flag ← in_tokens (new_DocFlag i);
  attach_flag i flag;;
  o ← state (λ t, doc_comment (comments t));
  k ← wthe o;
  d ← doc_at k;
  upd_doc k (AddFlag d flag);;
  if (flag_type flag =s "param") && truthy (flag_name flag) then
    d ← doc_at k; upd_doc k (AddParam d (default "" (flag_name flag)) (dtype flag))
  else if flag_type flag =s "suppress" then
    d ← doc_at k; d' ← in_tokens (AddSuppression d i); upd_doc k d'
  else mret tt.
Definition set_depths (f : Depths → Depths) : W unit := track (λ t, with_depths t (f (depths t))).
Definition handle_return (i : nat) : W unit :=
  o ← search_except_code i;
  t ← wtok_opt o;
  if bool_decide (type t ≠ SEMICOLON) then
    f ← GetFunction;
    match f with
    | Some k => upd_function k (λ f, mkFunction (fn_depth f) (is_assigned f) (is_constructor f) (is_interface f) true (has_this f) (fn_name f) (fn_doc f))
    | None => mret tt
    end
  else mret tt.
Definition handle_identifier (i : nat) (t : Token) : W unit :=
  HandleIdentifier (string_ t);;
  o ← search_except_code i;
  u ← wtok_opt o;
  if bool_decide (type u = SEMICOLON) then
    l ← state (λ t, last_non_space_token (seen t));
    match l with
    | Some j => v ← wtok j; if bool_decide (type v = END_DOC_COMMENT) then document (string_ t) else mret tt
    | None => mret tt
    end
  else mret tt.
Definition set_params (f : option string → option string) : W unit :=
  track (λ t, let x := funcs t in with_funcs t (mkFunctions (all_functions x) (functions x) (functions_by_name x) (f (cumulative_params x)))).
(** [StateTracker.HandleToken] *)
Definition base_HandleToken (i : nat) : W unit :=
  t ← wtok i;
  set_depths (λ d, mkDepths (block_depth d) false (paren_depth d) (block_types d));;
  track (λ t, with_seen t (mkSeen (last_non_space_token (seen t)) (last_line (seen t)) (match first_token (seen t) with None => Some i | o => o end)));;
  match type t with
  | START_BLOCK =>
      set_depths (λ d, mkDepths (block_depth d + 1) (is_block_close d) (paren_depth d) (block_types d));;
      ty ← GetBlockType i;
      set_depths (λ d, mkDepths (block_depth d) (is_block_close d) (paren_depth d) (ty :: block_types d))
  | END_BLOCK =>
      b ← InObjectLiteral;
      set_depths (λ d, mkDepths (block_depth d - 1) (negb b) (paren_depth d) (block_types d));;
      l ← state (λ t, block_types (depths t));
      match pop l with
      | Some l' => set_depths (λ d, mkDepths (block_depth d) (is_block_close d) (paren_depth d) l')
      | None => throw IndexError
      end
  | START_PAREN => set_depths (λ d, mkDepths (block_depth d) (is_block_close d) (paren_depth d + 1) (block_types d))
  | END_PAREN => set_depths (λ d, mkDepths (block_depth d) (is_block_close d) (paren_depth d - 1) (block_types d))
  | COMMENT => set_comments (λ c, mkComments (all_docs c) (Some (string_ t)) (doc_comment c) (documented_identifiers c))
  | START_DOC_COMMENT =>
      set_comments (λ c, mkComments (all_docs c ++ [new_DocComment i]) None (Some (length (all_docs c))) (documented_identifiers c))
  | END_DOC_COMMENT =>
      o ← state (λ t, doc_comment (comments t));
      k ← wthe o;
      d ← doc_at k;
      upd_doc k (mkDocComment (ordered_params d) (params d) (flags d) (start_token d) (Some i) (suppressions d) (invalidated d))
  | DOC_FLAG | DOC_INLINE_FLAG => handle_flag i
  | FUNCTION_DECLARATION => declare_function i
  | START_PARAMETERS => set_params (λ _, Some "")
  | PARAMETERS_ =>
      p ← state (λ t, cumulative_params (funcs t));
      match p with Some p => set_params (λ _, Some (p +:+ string_ t)) | None => throw TypeError end
  | KEYWORD => if string_ t =s "return" then handle_return i else mret tt
  | SIMPLE_LVALUE =>
      identifier ← value i "identifier";
      o ← state (λ t, doc_comment (comments t));
      match o with Some _ => document identifier | None => mret tt end;;
      HandleIdentifier identifier
  | IDENTIFIER => handle_identifier i t
  | _ => mret tt
  end.
(** [HandleAfterToken] *)
Definition HandleAfterToken (i : nat) : W unit :=
  t ← wtok i;
  ends ← (if bool_decide (type t ∈ [SEMICOLON; END_PAREN]) then mret true
          else if bool_decide (type t = END_BRACKET) then
            l ← state (λ t, last_non_space_token (seen t));
            u ← wtok_opt l;
            mret (bool_decide (type u ∉ [SINGLE_QUOTE_STRING_END; DOUBLE_QUOTE_STRING_END]))
          else mret false);
  (if (ends : bool) then forget_comment
   else if bool_decide (type t = END_BLOCK) then
     forget_comment;;
     c ← IsFunctionClose;
     if (c : bool) then
       track (λ t, let x := funcs t in with_funcs t (mkFunctions (all_functions x) (tail (functions x)) (functions_by_name x) (cumulative_params x)))
     else mret tt
   else if bool_decide (type t = END_PARAMETERS) then
     o ← state (λ t, doc_comment (comments t)); match o with Some _ => forget_comment | None => mret tt end
   else mret tt);;
  track (λ t', with_seen t' (mkSeen (if bool_decide (type t ∈ [WHITESPACE; BLANK_LINE]) then last_non_space_token (seen t') else Some i)
                                   (Some (line t)) (first_token (seen t')))).

(** ** JavaScript: the namespaces *)

(** [for i in xrange(1, len(parts))]: the parts before a constant or a prototype. *)
Fixpoint before_constant (i : nat) (rest parts : list string) : option string :=
  match rest with
  | [] => None
  | p :: rest' => if isupper p || (p =s "prototype") then Some (join "." (take i parts)) else before_constant (S i) rest' parts
  end.
Definition is_upper_first (s : string) : res bool := match s with EmptyString => Err IndexError | String a _ => Ok (is_upper a) end.
Fixpoint namespace_in (namespaces : list string) (identifier : string) (parts : list string) : res (option string) :=
  match namespaces with
  | [] => Ok None
  | namespace :: namespaces' =>
      if startswith (namespace +:+ ".") identifier then
        let last_part := default "" (last parts) in
        if last_part =s "" then Ok None
        else
          let parts := if bool_decide (last_part ∈ ["apply"; "inherits"; "call"]) then without_last parts else parts in
          let last_part := default "" (last parts) in
          match before_constant 1 (tail parts) parts with
          | Some n => Ok (Some n)
          | None =>
              strip_last ← (if isupper last_part then Ok true else u ← is_upper_first last_part; Ok (negb u));
              Ok (Some (join "." (if (strip_last : bool) then without_last parts else parts)))
          end
      else namespace_in namespaces' identifier parts
  end.
Definition GetClosurizedNamespace (closurized_namespaces : list string) (identifier : string) : res (option string) :=
  let parts := split_on "." identifier in
  if existsb (endswith "_") parts then Ok None
  else if startswith "goog.global" identifier then Ok None
  else namespace_in closurized_namespaces identifier parts.

Context (closurized_namespaces : list string).
Definition set_names (f : Namespaces → Namespaces) : W unit := track (λ t, with_names t (f (names t))).
Definition AddUsedNamespace (identifier : string) : W unit :=
  o ← lift (GetClosurizedNamespace closurized_namespaces identifier);
  match o with
  | Some n =>
      if n =s "" then mret tt
      else set_names (λ x, mkNamespaces (goog_require_tokens x) (goog_provide_tokens x) (provided_namespaces x) (used_namespaces x ++ [(n, identifier)]))
  | None => mret tt
  end.
Definition closurized : bool := negb (bool_decide (closurized_namespaces = [])).
(** [JavaScriptStateTracker.HandleToken] *)
Definition HandleToken (i : nat) : W unit :=
  base_HandleToken i;;
  t ← wtok i;
  (if bool_decide (type t = IDENTIFIER) then
     if string_ t =s "goog.require" then
       c ← in_tokens (Search i [STRING_TEXT] None false);
       set_names (λ x, mkNamespaces (goog_require_tokens x ++ [c]) (goog_provide_tokens x) (provided_namespaces x) (used_namespaces x))
     else if string_ t =s "goog.provide" then
       c ← in_tokens (Search i [STRING_TEXT] None false);
       set_names (λ x, mkNamespaces (goog_require_tokens x) (goog_provide_tokens x ++ [c]) (provided_namespaces x) (used_namespaces x))
     else if closurized then AddUsedNamespace (string_ t) else mret tt
   else mret tt);;
  f ← InFunction;
  (if bool_decide (type t = SIMPLE_LVALUE) && negb f then
     identifier ← value i "identifier";
     if closurized then
       o ← lift (GetClosurizedNamespace closurized_namespaces identifier);
       if bool_decide (o = Some identifier) && negb (identifier =s "") then
         set_names (λ x, mkNamespaces (goog_require_tokens x) (goog_provide_tokens x) ({[identifier]} ∪ provided_namespaces x) (used_namespaces x))
       else mret tt
     else mret tt
   else mret tt);;
  (if closurized && bool_decide (type t = DOC_FLAG) then
     d ← attached_flag i;
     if flag_type d =s "implements" then
       s ← in_tokens (Search i [DOC_START_BRACE] None false);
       c ← search_opt s [COMMENT];
       u ← wtok_opt c;
       AddUsedNamespace (string_ u)
     else mret tt
   else mret tt).
End Tracker.
