(* ===== verification/ClRules.v ===== *)
(** * The rules of ECMAScript (tools/closure_linter: ecmalintrules.py, checkerbase.py)

    What is checked of a token, given the state before it.  A handler of errors is called
    as soon as an error is found and may change the tokens: what the source reads again
    after a report is read again here. *)
From stdpp Require Import gmap sorting.
From S2P Require Import Prelude PyStr PyState CppRe ClTokens ClTokenizer ClMeta ClIndent ClDoc ClErrors ClState.

(** ** Handlers of errors *)

(** What a handler may change: the tokens, the flags attached to them, and its own data. *)
Definition Shared (H : Type) : Type := Heap * gmap nat DocFlag * H.
Class ErrorHandler (H : Type) := {
  handle_file : string → option nat → ST (Shared H) unit;
  handle_error : LintError → ST (Shared H) unit;
  finish_file : ST (Shared H) unit }.

(** The flags of the command line. *)
Record Options := mkOptions {
  strict : bool; jsdoc : bool; custom_jsdoc_tags : list string; closurized_namespaces : list string; ignored_extra_namespaces : list string;
  limited_doc_files : list string; error_trace : bool; disable_indentation_fixing : bool }.

Definition MAX_LINE_LENGTH : nat := 80.
Definition MISSING_PARAMETER_SPACE : rx := Cat (Chr ",") (Cls (λ a, negb (is_space a))).
Definition NotSpace : rx := Cls (λ a, negb (is_space a)).
(** Group 3 is what comes before group 2. *)
Definition AUTHOR_SPEC : rx :=
  Cats [Grp 3 (Cats [Grp 1 (Star Space); Plus NotSpace; Chr "@"; Plus (Cls (λ a, negb (a =c "(") && negb (is_space a)))]); Grp 2 (Star Space); Chr "(";
        Plus (Cls (λ a, negb (a =c nl))); Chr ")"].
Definition LONG_LINE_IGNORE : list string := ["*"; "//"; "@see"] ++ (String.append "@" <$> HAS_TYPE).
(** [TYPE_SPLIT.split] *)
Definition TYPE_SPLIT : rx := Any ",<>()".
Definition contains (sub s : string) : bool := bool_decide (is_Some (find sub s)).
Definition count_char (c : ascii) (s : string) : nat := String.length (str_filter (Ascii.eqb c) s).
(** [s.rfind(c)] *)
Fixpoint rfind (c : ascii) (s : string) : option nat :=
  match s with
  | EmptyString => None
  | String a s' => match rfind c s' with Some n => Some (S n) | None => if a =c c then Some 0 else None end
  end.
(** [while desc_str.endswith('>')]: the tags at the end of a description. *)
Fixpoint without_tags (fuel : nat) (s : string) : string :=
  match fuel with
  | 0 => s
  | S n => if endswith ">" s then match rfind "<" s with Some i => without_tags n (rstrip (str_take i s)) | None => s end else s
  end.
(** A text in double quotes. *)
Definition quoted (s : string) : string := String dquote (s +:+ String dquote "").
Definition x_of (a : ascii) : ascii := "x".

Section Rules.
Context {H : Type} `{!ErrorHandler H}.
Abbreviation W := (ST (World H)).
(** [limited_doc_checks], [is_html]: how the file is checked.  [StripTags] is
    htmlutil.StripTags, which runs the HTML parser of the standard library. *)
Context (o : Options) (limited_doc_checks is_html : bool) (StripTags : string → string).

(** ** Reports *)

Definition tell (m : ST (Shared H) unit) : W unit := λ w,
  let '(r, (h, a, x)) := m (heap (pass (rules w)), attached_flags w, handler w) in
  (r, mkWorld (mkRules (with_heap (pass (rules w)) h) (infos (rules w)) (stack (rules w)) (start_index_offset (rules w))) a (tracker w) (has_errors w) x).
(** [CheckerBase.HandleError] *)
Definition checker_error (c : ErrorCode) (msg : string) (token : option nat) (p : option Position) (d : FixData) : W unit :=
  modify (λ w, mkWorld (rules w) (attached_flags w) (tracker w) true (handler w));;
  e ← in_tokens (new_Error c msg token p d);
  tell (handle_error e).
(** [LintRulesBase._HandleError] *)
Definition report_with (c : ErrorCode) (msg : string) (token : option nat) (p : option Position) (d : FixData) : W unit :=
  if ShouldReportError (jsdoc o) c then checker_error c msg token p d else mret tt.
Definition report (c : ErrorCode) (msg : string) (token : nat) : W unit := report_with c msg (Some token) None NoData.
Definition report_at (c : ErrorCode) (msg : string) (token : nat) (p : Position) : W unit := report_with c msg (Some token) (Some p) NoData.
(** [if b: self._HandleError(...)] *)
Definition when (b : bool) (m : W unit) : W unit := if b then m else mret tt.
Definition wmeta (i : nat) : W MetaData := in_tokens (get_meta i).
(** [token.metadata.context.type] *)
Definition context_type (i : nat) : W ContextType := c ← on_rules (context_of i); mret (ctype c).
Definition first_in (i : nat) : W bool := in_tokens (IsFirstInLine i).
Definition last_in (i : nat) : W bool := in_tokens (IsLastInLine i).
Definition last_seen : W (option nat) := state (λ t, last_non_space_token (seen t)).
(** [token.next], which must be there. *)
Definition the_next (i : nat) : W nat := t ← wtok i; wthe (next t).
(** A token that is there and of which something holds. *)
Definition token_is (j : option nat) (f : Token → bool) : W bool := match j with Some j => t ← wtok j; mret (f t) | None => mret false end.
Definition is_type (tys : list TokenType) (t : Token) : bool := bool_decide (type t ∈ tys).
(** The whole text of a token. *)
Definition report_all (c : ErrorCode) (msg : Token → string) (j : nat) : W unit := t ← wtok j; report_at c (msg t) j (All_ (string_ t)).

(** ** Lines *)

(** The text of the line before and with the token, with spaces where it may be broken. *)
Fixpoint line_text_back (fuel : nat) (token : option nat) (n : Z) (acc : string) : W string :=
  match fuel with
  | 0 => throw OutOfFuel
  | S f =>
      match token with
      | None => mret acc
      | Some i =>
          t ← wtok i;
          if (line_number t =? n)%Z then
            ty ← IsTypeToken i;
            let piece := if (ty : bool) then str_map x_of (string_ t)
                         else if bool_decide (type t ∈ [IDENTIFIER; NORMAL]) then replace "." " " (string_ t) else string_ t in
            line_text_back f (previous t) n (piece +:+ acc)
          else mret acc
      end
  end.
Definition CheckLineLength (i : nat) : W unit :=
  t ← wtok i;
  r ← rounds;
  s ← line_text_back r (Some i) (line_number t) "";
  let s := rstrip_line s in
  when (MAX_LINE_LENGTH <? String.length s)
    (let parts : gset string := list_to_set (split_ws s) in
     let ignored : gset string := list_to_set (LONG_LINE_IGNORE ++ (String.append "@" <$> custom_jsdoc_tags o)) in
     let most := if bool_decide ("@param" ∈ parts) then 2 else 1 in
     when (most <? size (parts ∖ ignored)) (report LINE_TOO_LONG ("Line too long (" +:+ str_of_nat (String.length s) +:+ " characters).") i)).

(** ** Spaces *)

Definition CheckForMissingSpaceBeforeToken (i : nat) : W unit :=
  t ← wtok i;
  if leading (string_ t) =? 0 then
    match previous t with
    | Some p =>
        u ← wtok p;
        when ((line_number t =? line_number u)%Z && (trailing (string_ u) =? 0))
          (report_at MISSING_SPACE ("Missing space before " +:+ quoted (string_ t)) i AtBeginning)
    | None => mret tt
    end
  else mret tt.
Definition ExpectSpaceBeforeOperator (i : nat) : W bool :=
  t ← wtok i;
  if string_ t =s "," then mret false
  else
    m ← wmeta i;
    if IsUnaryPostOperator m then mret false
    else
      label ← (if string_ t =s ":" then c ← context_type i; mret (bool_decide (c ∈ [LITERAL_ELEMENT; CASE_BLOCK; STATEMENT])) else mret false);
      if (label : bool) then mret false
      else if IsUnaryOperator m then f ← first_in i; mret (negb f) else mret true.
Definition check_parameters (i : nat) (first : bool) : W unit :=
  t ← wtok i;
  when (found (re_search MISSING_PARAMETER_SPACE (string_ t))) (report MISSING_SPACE ("Missing space after " +:+ quoted ",") i);;
  when (negb first)
    (t ← wtok i; let n := leading (string_ t) in
     when (negb (n =? 0)) (report_at EXTRA_SPACE ("Extra space after " +:+ quoted "(") i (mkPosition 0 (Z.of_nat n)))).
(** [token.next is a semicolon], where the next token must be there. *)
Definition next_is_semicolon (i : nat) : W bool := t ← wtok i; u ← wtok_opt (next t); mret (bool_decide (type u = SEMICOLON)).
Definition report_next (i : nat) (c : ErrorCode) (msg : string) : W unit :=
  t ← wtok i; j ← wthe (next t); u ← wtok j; report_at c msg j (All_ (string_ u)).
Definition check_function_end (i last_code : nat) (last : bool) : W unit :=
  t ← wtok i;
  immediately_called ← token_is (next t) (is_type [START_PAREN]);
  top ← InTopLevelFunction;
  (if (top : bool) then
     a ← InAssignedFunction;
     if (a : bool) then
       if negb immediately_called then
         missing ← (if last then mret true else b ← next_is_semicolon i; mret (negb b));
         when missing (t ← wtok i; report_at MISSING_SEMICOLON_AFTER_FUNCTION "Missing semicolon after function assigned to a variable" i (AtEnd (string_ t)))
       else mret tt
     else if last then mret tt
     else b ← next_is_semicolon i; when b (report_next i ILLEGAL_SEMICOLON_AFTER_FUNCTION "Illegal semicolon after function declaration")
   else mret tt);;
  m ← InInterfaceMethod;
  if (m : bool) then u ← wtok last_code; when (bool_decide (type u ≠ START_BLOCK)) (report INTERFACE_METHOD_CANNOT_HAVE_CODE "Interface methods cannot contain code" last_code)
  else mret tt.
(** [token.metadata.last_code], which must be there, is a comma. *)
Definition check_last_comma (i : nat) (msg : string) : W nat :=
  m ← wmeta i;
  c ← wthe (last_code m);
  u ← wtok c;
  when (IsOperator u ",") (report_at COMMA_AT_END_OF_LITERAL msg c (All_ (string_ u)));;
  mret c.
Definition check_end_block (i : nat) (last : bool) : W unit :=
  c ← check_last_comma i "Illegal comma at end of object literal";
  f ← IsFunctionClose;
  if (f : bool) then check_function_end i c last
  else
    b ← IsBlockClose;
    if (b : bool) then
      t ← wtok i; s ← token_is (next t) (is_type [SEMICOLON]);
      when s (report_next i REDUNDANT_SEMICOLON "No semicolon is required to end a code block")
    else mret tt.
Definition check_semicolon (i : nat) : W unit :=
  t ← wtok i;
  w ← token_is (previous t) (is_type [WHITESPACE]);
  when w (p ← wthe (previous t); report_all EXTRA_SPACE (λ _, "Extra space before " +:+ quoted ";") p);;
  t ← wtok i;
  same ← token_is (next t) (λ u, (line_number u =? line_number t)%Z);
  (if (same : bool) then
     c ← context_type i;
     if bool_decide (c = FOR_GROUP_BLOCK) then
       j ← wthe (next t); u ← wtok j;
       when (negb (is_type [WHITESPACE; SEMICOLON; END_PAREN] u)) (report_at MISSING_SPACE ("Missing space after " +:+ quoted ";" +:+ " in for statement") j AtBeginning)
     else mret tt
   else mret tt);;
  m ← wmeta i;
  match last_code m with
  | None => mret tt
  | Some c =>
      u ← wtok c;
      if bool_decide (type u = SEMICOLON) then
        for_token ← in_tokens (CustomSearch c (λ t, bool_decide (type t = KEYWORD) && (string_ t =s "for")) (λ t, bool_decide (type t = SEMICOLON)) None true);
        match for_token with
        | None => report_all REDUNDANT_SEMICOLON (λ _, "Redundant semicolon") i
        | Some _ => mret tt
        end
      else mret tt
  end.
Definition check_start_paren (i : nat) : W unit :=
  t ← wtok i;
  k ← token_is (previous t) (is_type [KEYWORD]);
  if (k : bool) then report_at MISSING_SPACE ("Missing space before " +:+ quoted "(") i AtBeginning
  else
    w ← token_is (previous t) (is_type [WHITESPACE]);
    if (w : bool) then
      p ← wthe (previous t); u ← wtok p;
      b ← token_is (previous u) (λ v, (line_number v =? line_number t)%Z && bool_decide (type v = IDENTIFIER));
      when b (report_at EXTRA_SPACE ("Extra space before " +:+ quoted "(") p (All_ (string_ u)))
    else mret tt.
Definition check_start_bracket (i : nat) (first : bool) : W unit :=
  if first then mret tt
  else
    t ← wtok i;
    u ← wtok_opt (previous t);
    l ← last_seen;
    e ← token_is l (is_type EXPRESSION_ENDER_TYPES);
    if bool_decide (type u = WHITESPACE) && e then
      p ← wthe (previous t); report_at EXTRA_SPACE ("Extra space before " +:+ quoted "[") p (All_ (string_ u))
    else when (negb (is_type ([WHITESPACE; START_PAREN; START_BRACKET] ++ EXPRESSION_ENDER_TYPES) u))
           (report_at MISSING_SPACE ("Missing space before " +:+ quoted "[") i AtBeginning).
Definition check_close (i : nat) : W unit :=
  t ← wtok i;
  w ← match previous t with
      | Some p => u ← wtok p; if bool_decide (type u = WHITESPACE) then f ← first_in p; mret (negb f) else mret false
      | None => mret false
      end;
  l ← last_seen;
  omitted ← token_is l (λ u, (line_number u =? line_number t)%Z && bool_decide (type u = SEMICOLON));
  when (w && negb omitted) (p ← wthe (previous t); report_all EXTRA_SPACE (λ _, "Extra space before " +:+ quoted (string_ t)) p);;
  if bool_decide (type t = END_BRACKET) then _ ← check_last_comma i "Illegal comma at end of array literal"; mret tt else mret tt.
Definition ILLEGAL_TAB_in (s : string) : bool := str_mem "009" s.
Definition check_whitespace (i : nat) (first last : bool) : W unit :=
  t ← wtok i;
  (if ILLEGAL_TAB_in (string_ t) then
     f ← first_in i;
     if (f : bool) then u ← wtok_opt (next t); report_at ILLEGAL_TAB ("Illegal tab in whitespace before " +:+ quoted (string_ u)) i (All_ (string_ t))
     else u ← wtok_opt (previous t); report_at ILLEGAL_TAB ("Illegal tab in whitespace after " +:+ quoted (string_ u)) i (All_ (string_ t))
   else mret tt);;
  if last then report_all EXTRA_SPACE (λ _, "Extra space at end of line") i
  else if first then mret tt
  else
    t ← wtok i;
    u ← wtok_opt (next t);
    if IsComment u then mret tt
    else if 1 <? length_ t then
      v ← wtok_opt (previous t);
      report_at EXTRA_SPACE ("Extra space after " +:+ quoted (string_ v)) i (mkPosition 1 (Z.of_nat (String.length (string_ t)) - 1))
    else mret tt.
Definition check_operator (i : nat) : W unit :=
  m ← wmeta i;
  let last_code := last_code m in
  e ← ExpectSpaceBeforeOperator i;
  t ← wtok i;
  (if negb e then
     w ← token_is (previous t) (is_type [WHITESPACE]);
     c ← token_is last_code (is_type [NORMAL; IDENTIFIER]);
     when (w && c) (p ← wthe (previous t); report_all EXTRA_SPACE (λ _, "Extra space before " +:+ quoted (string_ t)) p)
   else
     b ← token_is (previous t) (λ u, negb (IsComment u) && is_type EXPRESSION_ENDER_TYPES u);
     when b (report_at MISSING_SPACE ("Missing space before " +:+ quoted (string_ t)) i AtBeginning));;
  t ← wtok i;
  same ← token_is last_code (λ u, (line_number u =? line_number t)%Z);
  if (same : bool) then mret tt
  else
    m ← wmeta i;
    when (negb (IsUnaryOperator m)) (report LINE_STARTS_WITH_OPERATOR ("Binary operator should go on previous line " +:+ quoted (string_ t)) i).

(** ** Documentation *)

Definition CheckJsDocType (i : nat) : W unit :=
  flag ← attached_flag i;
  match dtype flag with
  | None => mret tt
  | Some ty =>
      if (ty =s "") || isspace ty then mret tt
      else
        let pieces := re_split TYPE_SPLIT ty in
        when ((length pieces =? 1) && (count_char "|" ty =? 1) && (endswith "|null" ty || startswith "null|" ty))
          (report JSDOC_PREFER_QUESTION_TO_PIPE_NULL ("Prefer " +:+ quoted "?Type" +:+ " to " +:+ quoted "Type|null" +:+ ": " +:+ quoted ty) i);;
        for_each (λ p, when (negb (count_char "|" p =? 0) && negb (count_char "?" p =? 0))
          (report JSDOC_ILLEGAL_QUESTION_WITH_PIPE ("JsDoc types cannot contain both " +:+ quoted "?" +:+ " and " +:+ quoted "|" +:+ ": " +:+ quoted p) i)) pieces;;
        if strict o then
          a ← wtok_opt (type_start_token flag);
          missing ← (if bool_decide (type a ≠ DOC_START_BRACE) then mret true
                     else b ← wtok_opt (type_end_token flag); mret (bool_decide (type b ≠ DOC_END_BRACE)));
          when missing (report MISSING_BRACES_AROUND_TYPE "Type must always be surrounded by curly braces." i)
        else mret tt
  end.
Definition first_word (s : string) : string := match split_on " " s with w :: _ => w | [] => s end.
Definition check_bug (i : nat) : W unit :=
  t ← wtok i; u ← wtok_opt (next t);
  let s := first_word (lstrip (string_ u)) in
  when (negb (negb (s =s "") && str_forall is_digit s)) (report NO_BUG_NUMBER_AFTER_BUG_TAG "@bug should be followed by a bug number" i).
Definition check_suppress (i : nat) (flag : DocFlag) : W unit :=
  match dtype flag with
  | None => report INCORRECT_SUPPRESS_SYNTAX "Invalid suppress syntax: should be @suppress {errortype}. Spaces matter." i
  | Some ty => when (bool_decide (ty ∉ SUPPRESS_TYPES)) (report INVALID_SUPPRESS_TYPE ("Invalid suppression type: " +:+ ty) i)
  end.
Definition check_author (i : nat) : W unit :=
  t ← wtok i; j ← wthe (next t); u ← wtok j;
  match re_match AUTHOR_SPEC (string_ u) with
  | None => report INVALID_AUTHOR_TAG_DESCRIPTION "Author tag line should be of the form: @author foo@somewhere.com (Your Name)" j
  | Some m =>
      let size_of n := String.length (default "" (group n m)) in
      let start_2 := Z.of_nat (size_of 3) in
      (if size_of 2 <? 1 then
         j ← the_next i; report_at MISSING_SPACE "Missing space after email address" j (mkPosition start_2 0)
       else when (1 <? size_of 2)
              (j ← the_next i; report_at EXTRA_SPACE "Extra space after email address" j (mkPosition (start_2 + 1) (Z.of_nat (size_of 2) - 1))));;
      when (1 <? size_of 1) (j ← the_next i; report_at EXTRA_SPACE "Extra space before email address" j (mkPosition 1 (Z.of_nat (size_of 1) - 1)))
  end.
(** The last token of a description that has some text that is no tag, and that text. *)
Fixpoint description_end (fuel : nat) (i : nat) (end_string : string) : W (nat * string) :=
  match fuel with
  | 0 => throw OutOfFuel
  | S n =>
      t ← wtok i;
      if (end_string =s "") && negb (is_type FLAG_ENDING_TYPES t) then
        p ← wthe (previous t); u ← wtok p;
        description_end n p (if is_type FLAG_DESCRIPTION_TYPES u then rstrip (StripTags (string_ u)) else end_string)
      else mret (i, end_string)
  end.
Definition check_description (i : nat) (flag : DocFlag) : W unit :=
  when ((flag_type flag =s "param") && bool_decide (flag_name flag = None)) (report MISSING_JSDOC_PARAM_NAME "Missing name in @param tag" i);;
  if negb (truthy (description flag)) then
    t ← wtok i;
    vs ← match values t with Some vs => mret vs | None => throw TypeError end;
    name ← match assoc "name" vs with None => mret "@flag" | Some (Some n) => mret ("@" +:+ n) | Some None => throw TypeError end;
    report MISSING_JSDOC_TAG_DESCRIPTION ("Missing description in " +:+ name +:+ " tag") i
  else
    s ← wthe (description_start_token flag);
    CheckForMissingSpaceBeforeToken s;;
    e ← wthe (description_end_token flag);
    u ← wtok e;
    r ← rounds;
    x ← description_end r e (strip (StripTags (string_ u)));
    if endswith "." x.2 || endswith "?" x.2 || endswith "!" x.2 then mret tt
    else
      v ← wtok x.1;
      let s := rstrip (string_ v) in
      let desc_str := without_tags (String.length s) s in
      t ← wtok i;
      report_at JSDOC_TAG_DESCRIPTION_ENDS_WITH_INVALID_CHARACTER (string_ t +:+ " descriptions must end with valid punctuation such as a period.")
        x.1 (mkPosition (Z.of_nat (String.length desc_str)) 0).
Definition check_flag (i : nat) : W unit :=
  flag ← attached_flag i;
  (if flag_type flag =s "bug" then check_bug i
   else if flag_type flag =s "suppress" then check_suppress i flag
   else if strict o && (flag_type flag =s "author") then check_author i
   else if bool_decide (flag_type flag ∈ HAS_DESCRIPTION) && negb limited_doc_checks then check_description i flag
   else mret tt);;
  if bool_decide (flag_type flag ∈ HAS_TYPE) then
    match type_start_token flag with
    | Some _ => f ← attached_flag i; s ← wthe (type_start_token f); CheckForMissingSpaceBeforeToken s
    | None => mret tt
    end;;
    if truthy (dtype flag) && negb (isspace (default "" (dtype flag))) then CheckJsDocType i else mret tt
  else mret tt.
(** [token.values['name']] of a tag; [None] is printed. *)
Definition tag_name (i : nat) : W (option string) :=
  t ← wtok i;
  match values t with
  | None => throw TypeError
  | Some vs => match assoc "name" vs with None => throw KeyError | Some n => mret n end
  end.
Definition JS_LEGAL_DOC : list string := EXTENDED_DOC ++ LEGAL_DOC.
Definition check_tag (i : nat) (inline : bool) : W unit :=
  n ← tag_name i;
  when (bool_decide (n ∉ Some <$> (JS_LEGAL_DOC ++ custom_jsdoc_tags o))) (report INVALID_JSDOC_TAG ("Invalid JsDoc tag: " +:+ default "None" n) i);;
  n ← tag_name i;
  when (strict o && bool_decide (n = Some "inheritDoc") && inline) (report UNNECESSARY_BRACES_AROUND_INHERIT_DOC "Unnecessary braces around @inheritDoc" i).

(** ** Members *)

Definition current_doc : W (option nat) := state (λ t, doc_comment (comments t)).
Definition suppressed (d : DocComment) (what : string) : option nat := assoc what (suppressions d).
(** A flag of the comment that must be there, and its token. *)
Definition flag_token_of (d : DocComment) (what : string) : W nat := f ← lift (GetFlag d what); mret (flag_token f).
Definition check_private (i k : nat) (identifier : string) : W unit :=
  d ← doc_at k;
  (if endswith "_" identifier && negb (endswith "__" identifier) then
     when (HasFlag d "override") (j ← flag_token_of d "override"; report INVALID_OVERRIDE_PRIVATE (identifier +:+ " should not override a private member.") j);;
     when (HasFlag d "inheritDoc" && negb (HasFlag d "constructor"))
       (j ← flag_token_of d "inheritDoc"; report INVALID_INHERIT_DOC_PRIVATE (identifier +:+ " should not inherit from a private member.") j);;
     when (negb (HasFlag d "private") && bool_decide (suppressed d "underscore" = None))
       (report MISSING_PRIVATE ("Member " +:+ quoted identifier +:+ " must have @private JsDoc.") i);;
     match suppressed d "underscore" with
     | Some j => when (HasFlag d "private") (report UNNECESSARY_SUPPRESS "@suppress {underscore} is not necessary with @private" j)
     | None => mret tt
     end
   else when (HasFlag d "private") (report EXTRA_PRIVATE ("Member " +:+ quoted identifier +:+ " must not have @private JsDoc") i));;
  when ((HasFlag d "desc" || HasFlag d "hidden") && negb (startswith "MSG_" identifier) && negb (contains ".MSG_" identifier))
    (report INVALID_USE_OF_DESC_TAG ("Member " +:+ quoted identifier +:+ " should not have @desc JsDoc") i).
Definition check_documented (i : nat) (identifier : string) : W unit :=
  f ← InFunction;
  outside ← (if (f : bool) then InConstructor else mret true);
  p ← InParentheses;
  l ← InObjectLiteralDescendant;
  if outside && negb p && negb l then
    jd ← current_doc;
    has ← HasDocComment identifier;
    c ← InConstructor;
    if negb has then
      when (negb c && contains "." identifier && negb (endswith ".prototype" identifier) && negb limited_doc_checks)
        (comment ← state (λ t, last_comment (comments t));
         when (negb (contains "jsdoc inherited" (lower (default "" comment))))
           (report MISSING_MEMBER_DOCUMENTATION ("No docs found for member '" +:+ identifier +:+ "'") i))
    else
      match jd with
      | Some k => if negb c || startswith "this." identifier then check_private i k identifier else mret tt
      | None => mret tt
      end
  else mret tt.
(** An object or a list that all the instances would share. *)
Definition check_prototype (i : nat) (identifier : string) : W unit :=
  match find ".prototype." identifier with
  | None => mret tt
  | Some index =>
      if bool_decide (find_from "." identifier (index + 11) = None) then
        e ← search_except_code i;
        n ← match e with Some e => search_except_code e | None => mret None end;
        b ← token_is n (λ u, is_type [START_BRACKET; START_BLOCK] u || IsOperator u "new");
        when b (report ILLEGAL_PROTOTYPE_MEMBER_VALUE ("Member " +:+ identifier +:+ " cannot have a non-primitive value") i)
      else mret tt
  end.
Definition check_lvalue (i : nat) : W unit := identifier ← value i "identifier"; check_documented i identifier;; check_prototype i identifier.

(** ** Parameters *)

(** The list of edits, with what is left of the two lists of names. *)
Fixpoint report_edits (i : nat) (edit params docs : list string) : W unit :=
  match edit with
  | [] => mret tt
  | op :: edit' =>
      if op =s "I" then
        match params with
        | p :: params' => report MISSING_PARAMETER_DOCUMENTATION ("Missing docs for parameter: " +:+ quoted p) i;; report_edits i edit' params' docs
        | [] => throw StopIteration
        end
      else if op =s "D" then
        match docs with
        | d :: docs' => report EXTRA_PARAMETER_DOCUMENTATION ("Found docs for non-existing parameter: " +:+ quoted d) i;; report_edits i edit' params docs'
        | [] => throw StopIteration
        end
      else
        match params, docs with
        | p :: params', d :: docs' =>
            when (op =s "S") (report WRONG_PARAMETER_DOCUMENTATION ("Parameter mismatch: got " +:+ quoted p +:+ ", expected " +:+ quoted d) i);;
            report_edits i edit' params' docs'
        | _, _ => throw StopIteration
        end
  end.
Definition check_end_parameters (i : nat) : W unit :=
  t ← wtok i;
  s ← token_is (previous t) (λ u, bool_decide (type u = PARAMETERS_) && negb (trailing (string_ u) =? 0));
  when s (p ← wthe (previous t); report EXTRA_SPACE ("Extra space before " +:+ quoted ")") p);;
  jd ← current_doc;
  f ← GetFunction; f ← wthe f; f ← function_at f;
  if is_interface f then
    t ← wtok i;
    b ← token_is (previous t) (is_type [PARAMETERS_]);
    when b (p ← wthe (previous t); report INTERFACE_CONSTRUCTOR_CANNOT_HAVE_PARAMS "Interface constructor cannot have parameters" p)
  else
    top ← InTopLevel;
    l ← InObjectLiteralDescendant;
    match jd with
    | Some k =>
        d ← doc_at k;
        if (top : bool) && negb (HasFlag d "see") && negb (InheritsDocumentation d) && negb l && negb (invalidated d) then
          params ← GetParams;
          r ← lift (CompareParameters d params);
          if r.1 =? 0 then mret tt else report_edits i r.2 params (ordered_params d)
        else mret tt
    | None => mret tt
    end.
Definition check_string_text (i : nat) (last : bool) : W unit :=
  t ← wtok i;
  u ← wtok_opt (previous t);
  when (is_type [SINGLE_QUOTE_STRING_START; DOUBLE_QUOTE_STRING_START] u && last) (report MULTI_LINE_STRING "Multi-line strings are not allowed" i).
Definition check_comment (i : nat) (last : bool) : W unit :=
  t ← wtok i;
  when (ILLEGAL_TAB_in (string_ t)) (report ILLEGAL_TAB ("Illegal tab in comment " +:+ quoted (string_ t)) i);;
  t ← wtok i;
  let trimmed := rstrip (string_ t) in
  when (last && negb (string_ t =s trimmed))
    (report_at EXTRA_SPACE "Extra space at end of line" i
       (mkPosition (Z.of_nat (String.length trimmed)) (Z.of_nat (String.length (string_ t)) - Z.of_nat (String.length trimmed)))).

(** ** A token *)

Definition check_indentation (i : nat) : W unit :=
  es ← on_rules (CheckToken i);
  for_each (λ e, report_at WRONG_INDENTATION (ie_message e) (ie_token e) (mkPosition (ie_actual e) (ie_wanted e))) es.
Definition check_type (i : nat) (ty : TokenType) (first last : bool) : W unit :=
  match ty with
  | PARAMETERS_ => check_parameters i first
  | START_BLOCK => c ← context_type i; when (bool_decide (c = BLOCK)) (CheckForMissingSpaceBeforeToken i)
  | END_BLOCK => check_end_block i last
  | SEMICOLON => check_semicolon i
  | START_PAREN => check_start_paren i
  | START_BRACKET => check_start_bracket i first
  | END_PAREN | END_BRACKET => check_close i
  | WHITESPACE => check_whitespace i first last
  | OPERATOR => check_operator i
  | DOC_FLAG => check_flag i
  | _ => mret tt
  end.
Definition check_type_again (i : nat) (ty : TokenType) (last : bool) : W unit :=
  match ty with
  | DOC_FLAG => check_tag i false
  | DOC_INLINE_FLAG => check_tag i true
  | SIMPLE_LVALUE => check_lvalue i
  | END_PARAMETERS => check_end_parameters i
  | STRING_TEXT => check_string_text i last
  | _ => mret tt
  end.
(** [EcmaScriptLintRules.CheckToken] *)
Definition base_CheckToken (i : nat) : W unit :=
  first ← first_in i;
  last ← last_in i;
  t ← wtok i;
  let ty := type t in
  when (negb is_html && strict o) (check_indentation i);;
  when last (CheckLineLength i);;
  check_type i ty first last;;
  check_type_again i ty last;;
  when (bool_decide (ty ∈ COMMENT_TYPES)) (check_comment i last);;
  m ← wmeta i;
  when (is_implied_semicolon m) (report MISSING_SEMICOLON "Missing semicolon at end of line" i).

Definition mode_name (m : JavaScriptMode) : string :=
  match m with
  | TEXT_MODE => "text" | SINGLE_QUOTE_STRING_MODE => "single_quote_string" | DOUBLE_QUOTE_STRING_MODE => "double_quote_string"
  | BLOCK_COMMENT_MODE => "block_comment" | DOC_COMMENT_MODE => "doc_comment" | DOC_COMMENT_LEX_SPACES_MODE => "doc_comment_spaces"
  | LINE_COMMENT_MODE => "line_comment" | PARAMETER_MODE => "parameter" | FUNCTION_MODE => "function"
  end.
(** [EcmaScriptLintRules.Finalize]; the message of the last error prints the stack. *)
Definition base_Finalize (mode : JavaScriptMode) : W unit :=
  l ← last_seen;
  ll ← state (λ t, last_line (seen t));
  match ll with
  | Some s =>
      when (negb (s =s "") && negb (isspace s) && (rstrip_line s =s s))
        (report_with FILE_MISSING_NEWLINE ("File does not end with new line.  (" +:+ s +:+ ")") l None NoData)
  | None => mret tt
  end;;
  when (bool_decide (mode ≠ TEXT_MODE)) (report_with FILE_IN_BLOCK ("File ended in mode " +:+ quoted (mode_name mode) +:+ ".") l None NoData);;
  r ← attempt (on_rules Finalize);
  match r with
  | Ok _ => mret tt
  | Err _ => report_with FILE_DOES_NOT_PARSE "INTERNAL ERROR: indentation stack is not empty" l None NoData
  end.
End Rules.
