(* ===== verification/ClJsRules.v ===== *)
(** * The rules of JavaScript (tools/closure_linter: javascriptlintrules.py) *)
From stdpp Require Import gmap sorting.
From S2P Require Import Prelude PyStr PyState CppRe ClTokens ClTokenizer ClMeta ClIndent ClDoc ClErrors ClState ClRules.

(** [s.find(c) != t.rfind(c)], with -1 where there is none. *)
Definition brace_moved (s t : string) : bool := bool_decide (find "{" s ≠ rfind "{" t).
(** The first two places where two lists of the same length differ. *)
Fixpoint first_unsorted (i : nat) (l l' : list string) : option nat :=
  match l, l' with
  | x :: l1, y :: l1' => if x =s y then first_unsorted (S i) l1 l1' else Some i
  | _, _ => None
  end.
Definition sort_strings (l : list string) : list string := merge_sort str_le l.
Definition goog_lines (what : string) (l : list string) : string :=
  join nl_str ((λ x, "goog." +:+ what +:+ "('" +:+ x +:+ "');") <$> l).

Section JsRules.
Context {H : Type} `{!ErrorHandler H}.
Abbreviation W := (ST (World H)).
Context (o : Options) (limited_doc_checks is_html : bool) (StripTags : string → string).
Abbreviation report := (report o).
Abbreviation report_at := (report_at o).
Abbreviation report_with := (report_with o).

Definition ContainsRecordType (i : nat) : W bool :=
  t ← wtok i;
  if bool_decide (type t = DOC_FLAG) then
    d ← attached_flag i;
    match dtype d with Some ty => mret (brace_moved ty (string_ t)) | None => mret false end
  else mret false.
Definition js_flag (i : nat) : W unit :=
  flag ← attached_flag i;
  (if flag_type flag =s "param" then
     match name_token flag with Some n => CheckForMissingSpaceBeforeToken o n | None => mret tt end
   else mret tt);;
  if bool_decide (flag_type flag ∈ HAS_TYPE) then
    let untyped := match dtype flag with None => true | Some ty => (ty =s "") || isspace ty end in
    if bool_decide (flag_type flag ∉ ["suppress"; "enum"]) && untyped then
      t ← wtok i; report MISSING_JSDOC_TAG_TYPE ("Missing type in " +:+ string_ t +:+ " tag") i
    else
      match name_token flag, type_end_token flag with
      | Some n, Some e =>
          c ← in_tokens (Compare e n);
          t ← wtok i;
          when (0 <? c)%Z (report OUT_OF_ORDER_JSDOC_TAG_TYPE ("Type should be immediately after " +:+ string_ t +:+ " tag") i)
      | _, _ => mret tt
      end
  else mret tt.
(** The text of a string, up to a single quote. *)
Fixpoint quote_free (fuel : nat) (j : option nat) : W bool :=
  match fuel with
  | 0 => throw OutOfFuel
  | S n =>
      j ← wthe j; t ← wtok j;
      if bool_decide (type t = STRING_TEXT) then if str_mem quote (string_ t) then mret false else quote_free n (next t) else mret true
  end.
Definition js_double_quote (i : nat) : W unit :=
  t ← wtok i;
  r ← rounds;
  b ← quote_free r (next t);
  when b (report_all o UNNECESSARY_DOUBLE_QUOTED_STRING (λ _, "Single-quoted string preferred over double-quoted string.") i).
(** The comments right above [block_start]. *)
Fixpoint comment_block (fuel : nat) (block_start : nat) : W nat :=
  match fuel with
  | 0 => throw OutOfFuel
  | S n =>
      t ← wtok block_start;
      match previous t with
      | None => mret block_start
      | Some p => u ← wtok p; if IsComment u then comment_block n p else mret block_start
      end
  end.
Fixpoint blank_lines (fuel : nat) (token : option nat) (count : Z) : W Z :=
  match fuel with
  | 0 => throw OutOfFuel
  | S n =>
      match token with
      | None => mret count
      | Some i =>
          t ← wtok i;
          if bool_decide (type t = BLANK_LINE) then blank_lines n (previous t) (count + 1)
          else if bool_decide (type t = WHITESPACE) then blank_lines n (previous t) (if strip (line t) =s "" then count + 1 else count)
          else mret count
      end
  end.
Definition blank_line_error (is_file_overview is_constructor : bool) (blank_lines : Z) : option (string * Z) :=
  if is_file_overview && (blank_lines =? 0)%Z then Some ("Should have a blank line before a file overview.", 1%Z)
  else if is_constructor && negb (blank_lines =? 3)%Z then Some ("Should have 3 blank lines before a constructor/interface.", 3%Z)
  else if negb is_file_overview && negb is_constructor && negb (blank_lines =? 2)%Z then Some ("Should have 2 blank lines between top-level blocks.", 2%Z)
  else None.
Definition js_end_doc_comment (i : nat) : W unit :=
  top ← InTopLevel;
  block ← InBlock;
  if strict o && negb is_html && top && negb block then
    k ← current_doc; k ← wthe k; d ← doc_at k;
    let is_constructor := HasFlag d "constructor" || HasFlag d "interface" in
    let is_file_overview := HasFlag d "fileoverview" in
    t ← wtok i;
    go ← match next t with None => mret false | Some n => u ← wtok n; mret (is_file_overview || negb (is_type NON_CODE_TYPES u)) end;
    if (go : bool) then
      r ← rounds;
      block_start ← (if is_file_overview then mret (start_token d) else comment_block r (start_token d));
      s ← wtok block_start;
      n ← blank_lines r (previous s) 0;
      match blank_line_error is_file_overview is_constructor n with
      | Some (msg, expected) => report_with WRONG_BLANK_LINE_COUNT msg (Some block_start) (Some AtBeginning) (Lines (expected - n))
      | None => mret tt
      end
    else mret tt
  else mret tt.
Definition returns_something (f : DocFlag) : bool :=
  match dtype f with None => false | Some ty => contains "undefined" ty || contains "void" ty || contains "*" ty end.
Definition check_return (i : nat) (f : Function_) : W unit :=
  t ← wtok i;
  immediately_called ← token_is (next t) (is_type [START_PAREN]);
  match fn_doc f with
  | None => mret tt
  | Some k =>
      d ← doc_at k;
      if has_return f && negb immediately_called && negb (HasFlag d "return") && negb (InheritsDocumentation d) && negb (HasFlag d "constructor") then
        report_with MISSING_RETURN_DOCUMENTATION "Missing @return JsDoc in function with non-trivial return" (end_token d) (Some AtBeginning) NoData
      else
        m ← InInterfaceMethod;
        if negb (has_return f) && HasFlag d "return" && negb m then
          rf ← lift (GetFlag d "return");
          when (negb (returns_something rf))
            (report_at UNNECESSARY_RETURN_DOCUMENTATION "Found @return JsDoc on function that returns nothing" (flag_token rf) AtBeginning)
        else mret tt
  end.
Definition check_this (f : Function_) : W unit :=
  match fn_doc f with
  | None => mret tt
  | Some k =>
      d ← doc_at k;
      when (has_this f && negb (HasFlag d "this") && negb (is_constructor f) && negb (is_interface f) && negb (contains ".prototype." (fn_name f)))
        (report_with MISSING_JSDOC_TAG_THIS ("Missing @this JsDoc in function referencing " +:+ quoted "this" +:+ ". (this usually means you are trying to reference "
           +:+ quoted "this" +:+ " in a static function, or you have forgotten to mark a constructor with @constructor)") (end_token d) (Some AtBeginning) NoData)
  end.
Definition js_end_block (i : nat) : W unit :=
  c ← IsFunctionClose;
  if (c : bool) then
    f ← top_function;
    (if limited_doc_checks then mret tt else check_return i f);;
    check_this f
  else mret tt.
(** The blank lines between the token before and [goog.inherits]. *)
Fixpoint extra_lines (fuel : nat) (extra_space : option nat) (token : nat) : W unit :=
  match fuel with
  | 0 => throw OutOfFuel
  | S n =>
      if bool_decide (extra_space = Some token) then mret tt
      else
        e ← wthe extra_space; t ← wtok e;
        when (bool_decide (type t = BLANK_LINE)) (report EXTRA_LINE "Extra line between constructor and goog.inherits" e);;
        t ← wtok e;
        extra_lines n (next t) token
  end.
Definition js_identifier (i : nat) : W unit :=
  t ← wtok i;
  f ← InFunction;
  if (string_ t =s "goog.inherits") && negb f then
    l ← last_seen; u ← wtok_opt l;
    when (line_number u =? line_number t)%Z (report_at MISSING_LINE "Missing newline between constructor and goog.inherits" i AtBeginning);;
    u ← wtok_opt l;
    r ← rounds;
    extra_lines r (next u) i
  else mret tt.
Definition js_operator (i : nat) (last : bool) : W unit :=
  m ← wmeta i;
  if IsUnaryOperator m || last then mret tt
  else
    t ← wtok i; u ← wtok_opt (next t);
    when (negb (IsComment u) && negb (IsOperator u ",") && negb (is_type [WHITESPACE; END_PAREN; END_BRACKET; SEMICOLON; START_BRACKET] u))
      (report_at MISSING_SPACE ("Missing space after " +:+ quoted (string_ t)) i (AtEnd (string_ t))).
Definition js_whitespace (i : nat) (first last : bool) : W unit :=
  if last || first then mret tt
  else
    t ← wtok i; u ← wtok_opt (next t);
    if IsComment u then mret tt
    else
      v ← wtok_opt (previous t);
      when (is_type [START_PAREN; START_BRACKET; FUNCTION_NAME] v || is_type [START_PARAMETERS] u)
        (report_at EXTRA_SPACE ("Extra space after " +:+ quoted (string_ v)) i (All_ (string_ t))).
(** [JavaScriptLintRules.CheckToken] *)
Definition rules_CheckToken (i : nat) : W unit :=
  record ← ContainsRecordType i;
  if (record : bool) then k ← current_doc; k ← wthe k; d ← doc_at k; upd_doc k (Invalidate d)
  else
    base_CheckToken o limited_doc_checks is_html StripTags i;;
    first ← first_in i;
    last ← last_in i;
    t ← wtok i;
    match type t with
    | DOC_FLAG => js_flag i
    | DOUBLE_QUOTE_STRING_START => js_double_quote i
    | END_DOC_COMMENT => js_end_doc_comment i
    | END_BLOCK => js_end_block i
    | IDENTIFIER => js_identifier i
    | OPERATOR => js_operator i last
    | WHITESPACE => js_whitespace i first last
    | _ => mret tt
    end.

(** ** The end of a file *)

Fixpoint the_tokens (l : list (option nat)) : W (list nat) :=
  match l with [] => mret [] | x :: l' => i ← wthe x; is_ ← the_tokens l'; mret (i :: is_) end.
Fixpoint texts_of (l : list nat) : W (list string) :=
  match l with [] => mret [] | i :: l' => t ← wtok i; ss ← texts_of l'; mret (string_ t :: ss) end.
Definition check_sorted (c : ErrorCode) (what : string) (tokens : list nat) (texts : list string) : W unit :=
  match first_unsorted 0 texts (sort_strings texts) with
  | None => mret tt
  | Some index =>
      report_with c ("goog." +:+ what +:+ " classes must be alphabetized.  The correct code is:" +:+ nl_str +:+ goog_lines what (sort_strings texts))
        (tokens !! index) (Some AtBeginning) (Sorts tokens)
  end.
Definition sorted_set (s : gset string) : list string := sort_strings (elements s).
Definition report_names (c : ErrorCode) (msg what : string) (names : gset string) : W unit :=
  if decide (names = ∅) then mret tt
  else
    f ← state (λ t, first_token (seen t));
    report_with c (msg +:+ nl_str +:+ goog_lines what (sorted_set names)) f (Some AtBeginning) (Required (elements names)).
Definition check_namespaces (requires provides : list string) : W unit :=
  n ← state names;
  let provided := provided_namespaces n in
  report_names MISSING_GOOG_PROVIDE "Missing the following goog.provide statements:" "provide" (provided ∖ list_to_set provides);;
  let available : gset string := list_to_set requires ∪ list_to_set provides ∪ {["goog"]} ∪ provided in
  let missing : gset string := list_to_set (fst <$> List.filter (λ v, bool_decide (v.1 ∉ available) && bool_decide (v.2 ∉ available)) (used_namespaces n)) in
  report_names MISSING_GOOG_REQUIRE "Missing the following goog.require statements:" "require" missing;;
  let used : gset string := list_to_set (used_namespaces n ≫= λ v, [v.1; v.2]) in
  let base_of (s : string) := match split_on "." s with b :: _ => b | [] => s end in
  let extra : gset string := list_to_set (List.filter (λ i, bool_decide (i ∉ used) && bool_decide (base_of i ∈ closurized_namespaces o)
                                                         && bool_decide (i ∉ ignored_extra_namespaces o)) requires) in
  report_names EXTRA_GOOG_REQUIRE "The following goog.require statements appear unnecessary:" "require" extra.
(** [JavaScriptLintRules.Finalize] *)
Definition rules_Finalize (mode : JavaScriptMode) : W unit :=
  base_Finalize o mode;;
  ro ← state (λ t, goog_require_tokens (names t));
  rt ← the_tokens ro;
  requires ← texts_of rt;
  check_sorted GOOG_REQUIRES_NOT_ALPHABETIZED "require" rt requires;;
  po ← state (λ t, goog_provide_tokens (names t));
  pt ← the_tokens po;
  provides ← texts_of pt;
  check_sorted GOOG_PROVIDES_NOT_ALPHABETIZED "provide" pt provides;;
  if bool_decide (closurized_namespaces o = []) then mret tt else check_namespaces requires provides.
End JsRules.
