(* ===== verification/ClFixer.v ===== *)
(** * Fixing errors (tools/closure_linter: error_fixer.py)

    The fixer changes the tokens of the file as the errors are reported, and writes the
    file from them at the end. *)
From stdpp Require Import gmap sorting.
From S2P Require Import Prelude PyStr PyState ClTokens ClTokenizer ClMeta ClIndent ClDoc ClErrors.

(** ** The fixer *)

Record Fixer := mkFixer { fheap : Heap; attached : gmap nat DocFlag; file_token : option nat; fix_count : nat; changed_lines : gset Z }.
Definition HandleFile (h : Heap) (a : gmap nat DocFlag) (first_token : option nat) : Fixer := mkFixer h a first_token 0 ∅.
Definition in_heap {A} (m : ST Heap A) : ST Fixer A :=
  λ s, let '(r, h) := m (fheap s) in (r, mkFixer h (attached s) (file_token s) (fix_count s) (changed_lines s)).
Definition ftok (i : nat) : ST Fixer Token := in_heap (get i).
Definition fthe {A} (o : option A) : ST Fixer A := in_heap (the o).
Definition fupd (i : nat) (f : Token → Token) : ST Fixer unit := t ← ftok i; in_heap (upd i f).
Definition attach (i : nat) (d : DocFlag) : ST Fixer unit :=
  modify (λ s, mkFixer (fheap s) (<[i := d]> (attached s)) (file_token s) (fix_count s) (changed_lines s)).
Definition flag_of (i : nat) : ST Fixer DocFlag := o ← gets (λ s, (attached s !! i : option DocFlag)); fthe o.
Definition AddFix (tokens : list nat) : ST Fixer unit :=
  modify (λ s, mkFixer (fheap s) (attached s) (file_token s) (S (fix_count s)) (changed_lines s));;
  for_each (λ i, t ← ftok i; modify (λ s, mkFixer (fheap s) (attached s) (file_token s) (fix_count s) ({[line_number t]} ∪ changed_lines s))) tokens.
Definition set_types (d : DocFlag) (s e : option nat) : DocFlag :=
  mkDocFlag (flag_type d) (flag_token d) (dtype d) s e (name_token d) (flag_name d) (description_start_token d) (description_end_token d) (description d).

Definition spaces (n : Z) : string := String.concat "" (replicate (Z.to_nat n) " ").
(** [Token(string, type, line, line_number)] *)
Definition new_token (s : string) (ty : TokenType) (like : Token) (n : Z) : ST Fixer nat := in_heap (alloc (new_Token s ty (line like) n None)).
Definition insert_after (n : nat) (o : option nat) : ST Fixer unit := i ← fthe o; in_heap (InsertTokenAfter n i).
Definition delete (o : option nat) : ST Fixer unit := i ← fthe o; in_heap (DeleteToken i).
(** [token.metadata.is_implied_semicolon = False] *)
Definition no_semicolon (i : nat) : ST Fixer unit :=
  m ← in_heap (get_meta i);
  in_heap (upd i (λ t, set_meta t (Some (mkMeta (last_code m) (context m) (operator_type m) false (is_implied_block m) (is_implied_block_close m))))).

(** [JSDOC_PREFER_QUESTION_TO_PIPE_NULL] *)
Definition no_null (s : string) : string := replace "|null" "" (replace "null|" "" s).
Fixpoint null_loop (fuel : nat) (token : nat) (iterator : option nat) : ST Fixer unit :=
  match fuel with
  | 0 => throw OutOfFuel
  | S n =>
      match iterator with
      | None => mret tt
      | Some i =>
          d ← flag_of token; e ← fthe (type_end_token d); e ← ftok e;
          if bool_decide (next e = Some i) then mret tt
          else fupd i (λ t, set_string t (no_null (string_ t)));; t ← ftok i; null_loop n token (next t)
      end
  end.
Definition fix_null (token : nat) : ST Fixer unit :=
  d ← flag_of token; i ← fthe (type_start_token d); t ← ftok i;
  let it := if bool_decide (type t = DOC_START_BRACE) || isspace (string_ t) then next t else Some i in
  i ← fthe it;
  fupd i (λ t, set_string t (spaces (Z.of_nat (leading (string_ t))) +:+ "?" +:+ lstrip (string_ t)));;
  n ← gets (λ s, all_rounds (fheap s));
  null_loop n token (Some i);;
  d ← in_heap (new_DocFlag token);
  attach token d;;
  AddFix [token].
Definition fix_semicolon (token : nat) : ST Fixer unit :=
  t ← ftok token;
  s ← new_token ";" SEMICOLON t (line_number t);
  in_heap (InsertTokenAfter s token);;
  no_semicolon token;;
  no_semicolon s;;
  AddFix [token].
Definition fix_missing_space (token : nat) (p : Position) : ST Fixer unit :=
  t ← ftok token;
  (if IsAtBeginning p then i ← fthe (previous t); in_heap (InsertSpaceTokenAfter i)
   else if IsAtEnd p (string_ t) then in_heap (InsertSpaceTokenAfter token)
   else fupd token (λ t, set_string t (Set_ p (string_ t) " ")));;
  AddFix [token].
Definition set_at (token : nat) (p : Position) (source : string) : ST Fixer unit :=
  fupd token (λ t, set_string t (Set_ p (string_ t) source));; AddFix [token].
Definition fix_missing_line (token : nat) (p : Position) : ST Fixer unit :=
  t ← ftok token;
  (if IsAtBeginning p then i ← fthe (previous t); in_heap (InsertLineAfter i) else in_heap (InsertLineAfter token));;
  AddFix [token].
Definition blank_line (token : nat) (should_delete : bool) : ST Fixer unit :=
  t ← ftok token; i ← fthe (previous t);
  (if should_delete then in_heap (DeleteToken i) else in_heap (InsertLineAfter i));;
  AddFix [token].
Definition fix_blank_lines (token : nat) (d : FixData) : ST Fixer unit :=
  t ← ftok token;
  match previous t with
  | None => mret tt
  | Some _ =>
      match d with
      | Lines n => for_each (λ _, blank_line token (n <? 0)%Z) (seq 0 (Z.to_nat (Z.abs n)))
      | _ => throw TypeError
      end
  end.
Definition fix_quotes (token : nat) : ST Fixer unit :=
  o ← in_heap (Search token [DOUBLE_QUOTE_STRING_END] None false);
  match o with
  | None => mret tt
  | Some end_quote =>
      t ← ftok token; u ← ftok end_quote;
      a ← new_token (String quote "") SINGLE_QUOTE_STRING_START t (line_number t);
      b ← new_token (String quote "") SINGLE_QUOTE_STRING_START u (line_number t);
      in_heap (InsertTokenAfter a token);;
      in_heap (InsertTokenAfter b end_quote);;
      in_heap (DeleteToken token);;
      in_heap (DeleteToken end_quote);;
      AddFix [token; end_quote]
  end.

(** [MISSING_BRACES_AROUND_TYPE] *)
Definition open_brace (token : nat) : ST Fixer (list nat) :=
  d ← flag_of token; s ← fthe (type_start_token d); t ← ftok s;
  if bool_decide (type t = DOC_START_BRACE) then mret []
  else
    s ← (if 0 <? leading (string_ t) then
           s' ← in_heap (SplitToken s (leading (string_ t)));
           u ← ftok s';
           (if bool_decide (type_end_token d = previous u) then attach token (set_types d (type_start_token d) (Some s')) else mret tt);;
           mret s'
         else mret s);
    t ← ftok s;
    n ← new_token "{" DOC_START_BRACE t (line_number t);
    insert_after n (previous t);;
    d ← flag_of token;
    attach token (set_types d (Some n) (type_end_token d));;
    mret [n].
Fixpoint back_over_space (fuel : nat) (o : option nat) : ST Fixer nat :=
  match fuel with
  | 0 => throw OutOfFuel
  | S n => i ← fthe o; t ← ftok i; if isspace (string_ t) then back_over_space n (previous t) else mret i
  end.
Definition close_brace (token : nat) (fixed : list nat) : ST Fixer (list nat) :=
  d ← flag_of token; e ← fthe (type_end_token d); t ← ftok e;
  if bool_decide (type t = DOC_END_BRACE) then mret fixed
  else
    n ← gets (λ s, all_rounds (fheap s));
    l ← back_over_space n (if bool_decide (fixed = []) then previous t else Some e);
    u ← ftok l;
    if bool_decide (type u = DOC_END_BRACE) then mret fixed
    else
      (if 0 <? trailing (string_ u) then _ ← in_heap (SplitToken l (String.length (string_ u) - trailing (string_ u))); mret tt else mret tt);;
      n ← new_token "}" DOC_END_BRACE u (line_number u);
      in_heap (InsertTokenAfter n l);;
      attach token (set_types d (type_start_token d) (Some n));;
      mret (fixed ++ [n]).
Definition fix_braces (token : nat) : ST Fixer unit := fixed ← open_brace token; fixed ← close_brace token fixed; AddFix fixed.

(** The strings in order, put into the tokens one after the other. *)
Fixpoint put_strings (tokens : list nat) (sorted_strings : list string) : ST Fixer (list nat) :=
  match tokens, sorted_strings with
  | i :: tokens', s :: sorted' =>
      t ← ftok i;
      (if string_ t =s s then mret tt else fupd i (λ t, set_string t s));;
      changed ← put_strings tokens' sorted';
      mret (if string_ t =s s then changed else i :: changed)
  | _, _ => mret []
  end.
Fixpoint strings_of (tokens : list nat) : ST Fixer (list string) :=
  match tokens with [] => mret [] | i :: l => t ← ftok i; ss ← strings_of l; mret (string_ t :: ss) end.
Definition fix_order (d : FixData) : ST Fixer unit :=
  match d with
  | Sorts tokens => ss ← strings_of tokens; changed ← put_strings tokens (merge_sort str_le ss); AddFix changed
  | _ => throw TypeError
  end.
Definition fix_inherit_doc (token : nat) : ST Fixer unit :=
  t ← ftok token; p ← fthe (previous t); u ← ftok p;
  if string_ u =s "{" then
    n ← fthe (next t); v ← ftok n;
    if string_ v =s "}" then
      in_heap (DeleteToken p);;
      t ← ftok token;
      delete (next t);;
      AddFix [token]
    else mret tt
  else mret tt.
Definition fix_indentation (token : nat) (p : option Position) : ST Fixer unit :=
  i ← in_heap (GetFirstTokenInSameLine token);
  p ← fthe p;
  t ← ftok i;
  (if bool_decide (type t ∈ [WHITESPACE; PARAMETERS_]) then fupd i (λ t, set_string t (lstrip (string_ t) +:+ spaces (pos_length p)))
   else n ← new_token (spaces (pos_length p)) WHITESPACE t (line_number t); insert_after n (previous t));;
  AddFix [i].
Fixpoint require_loop (fuel : nat) (token : option nat) (names : list string) (fixed : list nat) : ST Fixer (list nat) :=
  match fuel with
  | 0 => throw OutOfFuel
  | S n =>
      match token with
      | None => mret fixed
      | Some i =>
          t ← ftok i;
          let again fixed := t ← ftok i; require_loop n (next t) names fixed in
          if bool_decide (type t = IDENTIFIER) then
            if bool_decide (string_ t ∉ ["goog.require"; "goog.provide"]) then mret fixed
            else if string_ t =s "goog.require" then
              a ← fthe (next t); a ← ftok a; b ← fthe (next a); b ← ftok b; c ← fthe (next b); c ← ftok c;
              if bool_decide (string_ c ∈ names) then in_heap (DeleteTokens i 7);; again (fixed ++ [i]) else again fixed
            else again fixed
          else again fixed
      end
  end.
Definition fix_requires (token : option nat) (d : FixData) : ST Fixer unit :=
  match d with
  | Required names => n ← gets (λ s, all_rounds (fheap s)); fixed ← require_loop n token names []; AddFix fixed
  | _ => throw TypeError
  end.
(** [disable_indentation_fixing] is a flag of the command line. *)
Definition HandleError (disable_indentation_fixing : bool) (e : LintError) : ST Fixer unit :=
  let on_token (fix_it : nat → ST Fixer unit) := token ← fthe (err_token e); fix_it token in
  match code e with
  | JSDOC_PREFER_QUESTION_TO_PIPE_NULL => on_token fix_null
  | MISSING_SEMICOLON_AFTER_FUNCTION | MISSING_SEMICOLON => on_token fix_semicolon
  | ILLEGAL_SEMICOLON_AFTER_FUNCTION | REDUNDANT_SEMICOLON | COMMA_AT_END_OF_LITERAL | EXTRA_LINE =>
      on_token (λ token, in_heap (DeleteToken token);; AddFix [token])
  | INVALID_JSDOC_TAG => on_token (λ token,
      t ← ftok token;
      if string_ t =s "@returns" then fupd token (λ t, set_string t "@return");; AddFix [token] else mret tt)
  | FILE_MISSING_NEWLINE => match err_token e with Some token => AddFix [token] | None => AddFix [];; throw TypeError end
  | MISSING_SPACE => match position e with Some p => on_token (λ token, fix_missing_space token p) | None => mret tt end
  | EXTRA_SPACE => match position e with Some p => on_token (λ token, set_at token p "") | None => mret tt end
  | JSDOC_TAG_DESCRIPTION_ENDS_WITH_INVALID_CHARACTER => p ← fthe (position e); on_token (λ token, set_at token p ".")
  | MISSING_LINE => p ← fthe (position e); on_token (λ token, fix_missing_line token p)
  | WRONG_BLANK_LINE_COUNT => on_token (λ token, fix_blank_lines token (fix_data e))
  | UNNECESSARY_DOUBLE_QUOTED_STRING => on_token fix_quotes
  | MISSING_BRACES_AROUND_TYPE => on_token fix_braces
  | GOOG_REQUIRES_NOT_ALPHABETIZED | GOOG_PROVIDES_NOT_ALPHABETIZED => fix_order (fix_data e)
  | UNNECESSARY_BRACES_AROUND_INHERIT_DOC => on_token fix_inherit_doc
  | WRONG_INDENTATION => if disable_indentation_fixing then mret tt else on_token (λ token, fix_indentation token (position e))
  | EXTRA_GOOG_REQUIRE => fix_requires (err_token e) (fix_data e)
  | _ => mret tt
  end.

(** What is written to the file, and the lines that are warned about. *)
Fixpoint write_loop (fuel : nat) (token : option nat) (char_count : nat) (out : string) (warned : list Z) : ST Fixer (string * list Z) :=
  match fuel with
  | 0 => throw OutOfFuel
  | S n =>
      match token with
      | None => mret (out, warned)
      | Some i =>
          t ← ftok i;
          let out := out +:+ string_ t in
          let char_count := char_count + String.length (string_ t) in
          last ← in_heap (IsLastInLine i);
          changed ← gets changed_lines;
          if (last : bool) then
            write_loop n (next t) 0 (out +:+ nl_str) (if (80 <? char_count) && bool_decide (line_number t ∈ changed) then warned ++ [line_number t] else warned)
          else write_loop n (next t) char_count out warned
      end
  end.
Definition FinishFile : ST Fixer (option (string * list Z)) :=
  k ← gets fix_count;
  if k =? 0 then mret None
  else n ← gets (λ s, all_rounds (fheap s)); o ← gets file_token; r ← write_loop n o 0 "" []; mret (Some r).

(** A file with the errors that are reported of it, fixed and written. *)
Definition fixed_text (file : list string) (errors : list LintError) : res (option string) :=
  match analyse file with
  | Ok (_, p) =>
      match (for_each (HandleError false) errors;; FinishFile) (HandleFile (heap p) ∅ (match heap p with [] => None | _ => Some 0 end)) with
      | (Ok r, _) => Ok (fst <$> r)
      | (Err e, _) => Err e
      end
  | Err e => Err e
  end.

(** ** What is written *)

(** The texts of the tokens, with the ends of the lines. *)
Fixpoint printed (c : list (string * Z)) : string :=
  match c with
  | [] => ""
  | p :: c' => p.1 +:+ (match c' with q :: _ => if (q.2 =? p.2)%Z then "" else nl_str | [] => nl_str end) +:+ printed c'
  end.
(** The lines of a file, each without what ends it and then with a newline. *)
Fixpoint written (file : list string) : string := match file with [] => "" | l :: file' => rstrip_line l +:+ nl_str +:+ written file' end.
Lemma printed_line k ts c : ts ≠ [] → (∀ q, head c = Some q → q.2 ≠ k) → printed (((λ x, (x, k)) <$> ts) ++ c) = texts ts +:+ nl_str +:+ printed c.
Proof.
  intros Hts Hc. induction ts as [|x ts IH]; [done|]. destruct ts as [|y ts].
  - destruct c as [|q c]; [by cbn; rewrite !str_app_nil_r|]. specialize (Hc q eq_refl). cbn [fmap list_fmap app printed fst snd texts].
    apply Z.eqb_neq in Hc. by rewrite Hc, str_app_nil_r.
  - specialize (IH ltac:(done)). cbn [fmap list_fmap app printed fst snd texts] in IH |- *. rewrite Z.eqb_refl, IH. by rewrite !str_app_assoc.
Qed.
Lemma by_lines_head n file c q : by_lines n file c → head c = Some q → q.2 = (n + 1)%Z.
Proof. destruct file as [|l file]; [by intros ->|]. intros ([|x ts] & c' & -> & _ & Hne & _); [done|]. by intros [= <-]. Qed.
Lemma printed_lines file : ∀ n c, by_lines n file c → printed c = written file.
Proof.
  induction file as [|l file IH]; intros n c; [by intros ->|]. intros (ts & c' & -> & Ht & Hne & Hb). rewrite printed_line; [|done|].
  - cbn [written]. by rewrite Ht, (IH (n + 1)%Z c' Hb).
  - intros q Hq. rewrite (by_lines_head _ _ _ _ Hb Hq). lia.
Qed.

Definition content_at (h : Heap) (l : list nat) : list (string * Z) := omap (λ i, (λ t, (string_ t, line_number t)) <$> h !! i) l.
Lemma content_at_all h : content_at h (seq 0 (length h)) = content h.
Proof.
  unfold content_at, content. change h with ([] ++ h) at 1. change 0 with (length (@nil Token)) at 1. generalize (@nil Token) as h1. induction h as [|t h IH]; intros h1; [done|].
  cbn [length seq]. cbn [omap list_omap]. rewrite (lookup_app_r h1 (t :: h)), Nat.sub_diag by done. cbn [lookup list_lookup fmap option_fmap option_map list_fmap].
  f_equal. rewrite cons_middle, app_assoc. replace (S (length h1)) with (length (h1 ++ [t])) by (rewrite length_app; cbn; lia). apply IH.
Qed.

Lemma content_at_app h l1 l2 : content_at h (l1 ++ l2) = content_at h l1 ++ content_at h l2.
Proof. apply omap_app. Qed.
Lemma content_at_cons h i t l : h !! i = Some t → content_at h (i :: l) = (string_ t, line_number t) :: content_at h l.
Proof. unfold content_at. cbn [omap list_omap]. by intros ->. Qed.
Lemma content_at_ext h h' l : (∀ i, i ∈ l → text_of h' i = text_of h i) → content_at h' l = content_at h l.
Proof.
  induction l as [|i l IH]; intros H; [done|]. unfold content_at in *. cbn [omap list_omap]. rewrite IH by (intros j Hj; apply H; by right).
  specialize (H i ltac:(left)). unfold text_of in H. destruct (h !! i), (h' !! i); try done. cbn in *. by injection H as _ -> ->.
Qed.

(** The file is written as its tokens are linked; only changed lines are warned about. *)
Lemma write_spec s l : ∀ fuel pp k out warned, length l < fuel → seg (fheap s) pp l None → Forall (λ n, n ∈ changed_lines s) warned →
  ∃ warned', write_loop fuel (hd_or l None) k out warned s = (Ok (out +:+ printed (content_at (fheap s) l), warned'), s) ∧
    Forall (λ n, n ∈ changed_lines s) warned'.
Proof.
  induction l as [|i l IH]; intros fuel pp k out warned Hf Hs Hw; (destruct fuel as [|fuel]; [cbn in Hf; lia|]); cbn [write_loop hd_or].
  { exists warned. by rewrite str_app_nil_r. }
  destruct Hs as (t & Ht & _ & Hn & Hs). assert (Et : ftok i s = (Ok t, s)) by (unfold ftok, in_heap; rewrite (get_run _ _ _ Ht); by destruct s).
  rewrite st_bind, Et. cbv beta iota zeta. rewrite (content_at_cons _ _ _ _ Ht). cbn in Hf.
  set (last := match l with j :: _ => match fheap s !! j with Some u => negb (line_number u =? line_number t)%Z | None => true end | [] => true end).
  assert (El : in_heap (IsLastInLine i) s = (Ok last, s)).
  { unfold in_heap, IsLastInLine. rewrite st_bind, (get_run _ _ _ Ht). cbv beta iota. rewrite Hn. destruct l as [|j l]; cbn [hd_or]; [by destruct s|].
    destruct Hs as (u & Hu & _). rewrite st_bind, (get_run _ _ _ Hu). unfold last. rewrite Hu. by destruct s. }
  rewrite st_bind, El. cbv beta iota. rewrite st_bind. unfold gets at 1. cbv beta iota.
  assert (Hp : printed ((string_ t, line_number t) :: content_at (fheap s) l) = string_ t +:+ (if last then nl_str else "") +:+ printed (content_at (fheap s) l)).
  { unfold last. destruct l as [|j l]; [done|]. destruct Hs as (u & Hu & _). rewrite (content_at_cons _ _ _ _ Hu), Hu. cbn [printed fst snd]. by destruct (_ =? _)%Z. }
  rewrite Hp, Hn. destruct last.
  - destruct (IH fuel (Some i) 0 ((out +:+ string_ t) +:+ nl_str)
      (if (80 <? k + String.length (string_ t)) && bool_decide (line_number t ∈ changed_lines s) then warned ++ [line_number t] else warned)) as (w & E & Hw'); [lia|done| |].
    { destruct (_ && _) eqn:E; [|done]. apply andb_true_iff in E as [_ E%bool_decide_eq_true]. apply Forall_app. by split; [|constructor]. }
    exists w. by rewrite E, !str_app_assoc.
  - destruct (IH fuel (Some i) (k + String.length (string_ t)) (out +:+ string_ t) warned) as (w & E & Hw'); [lia|done|done|].
    exists w. by rewrite E, str_app_assoc.
Qed.
Lemma FinishFile_spec s l : file_token s = hd_or l None → NoDup l → seg (fheap s) None l None →
  ∃ warned, Forall (λ n, n ∈ changed_lines s) warned ∧
    FinishFile s = (Ok (if fix_count s =? 0 then None else Some (printed (content_at (fheap s) l), warned)), s).
Proof.
  intros Hf Hd Hs. unfold FinishFile. rewrite st_bind. unfold gets at 1. cbv beta iota. destruct (fix_count s =? 0); [by exists []|].
  rewrite st_bind. unfold gets at 1. cbv beta iota. rewrite st_bind. unfold gets at 1. cbv beta iota. rewrite st_bind, Hf. assert (Hl := seg_length _ _ _ _ Hd Hs).
  destruct (write_spec s l (all_rounds (fheap s)) None 0 "" []) as (w & E & Hw); [unfold all_rounds; lia|done|done|]. exists w. by rewrite E.
Qed.

(** A file that is analysed and written without a change. *)
Lemma analysed_content file r p : analyse file = Ok (r, p) →
  by_lines 0 file (content (heap p)) ∧ seg (heap p) None (seq 0 (length (heap p))) None.
Proof.
  destruct (tokenize_js_spec true file) as (s & E & _ & Hby & _ & Hseg & _). unfold analyse. rewrite E. intros Ha.
  destruct (Process (hd_or (seq 0 (length (toks s))) None) (Reset (toks s))) as [r' p'] eqn:EP.
  assert (T := proj1 (Process_spec _ _ _ _ Hseg (NoDup_seq 0 _) EP)).
  assert (Hrp : Ok (r', p') = Ok (r, p)) by (rewrite <-EP, <-Ha; done). injection Hrp as -> ->. clear Ha. rename p into p'.
  assert (Hc : content (heap p') = content (toks s)).
  { apply list_eq. intros j. unfold content. rewrite !list_lookup_fmap. exact (part (λ t, set_meta t None) (λ t, (string_ t, line_number t)) _ _ (T j)). }
  rewrite Hc, (same_length _ _ T). split; [done|]. apply (seg_ext (toks s)); [|done]. intros j _. apply fields_links, T.
Qed.

Lemma note_run i s t : fheap s !! i = Some t →
  AddFix [i] s = (Ok tt, mkFixer (fheap s) (attached s) (file_token s) (S (fix_count s)) ({[line_number t]} ∪ changed_lines s)).
Proof.
  intros Ht. unfold AddFix. rewrite st_bind. unfold modify at 1. cbv beta iota. cbn [for_each]. rewrite st_bind, st_bind. unfold ftok, in_heap.
  cbn [fheap attached file_token fix_count changed_lines]. by rewrite (get_run _ _ _ Ht).
Qed.
(** C33: A file without a newline at its end, and whatever else its lines end with, is written
    with a newline after every line: the errors that ask for nothing else change no
    character of a line, and without an error the file is not written at all. *)
Theorem fixed_text_correct file r p errors : analyse file = Ok (r, p) →
  Forall (λ e, code e = FILE_MISSING_NEWLINE ∧ ∃ i, err_token e = Some i ∧ i < length (heap p)) errors →
  fixed_text file errors = Ok (if decide (errors = []) then None else Some (written file)).
Proof.
  intros Ha He. destruct (analysed_content _ _ _ Ha) as [Hby Hseg]. unfold fixed_text. rewrite Ha.
  assert (H : ∀ s : Fixer, fheap s = heap p → ∃ s', for_each (HandleError false) errors s = (Ok tt, s') ∧ fheap s' = heap p ∧ file_token s' = file_token s ∧
    fix_count s' = length errors + fix_count s).
  { clear Hseg Hby Ha. induction He as [|e errors (Hc & i & Hi & Ht) _ IH]; intros s Hs; [by exists s|]. cbn [for_each]. rewrite st_bind. unfold HandleError at 1. rewrite Hc, Hi.
    apply lookup_lt_is_Some in Ht as [t Ht]. rewrite <-Hs in Ht. rewrite (note_run _ _ _ Ht). cbv beta iota. destruct (IH (mkFixer (fheap s) (attached s) (file_token s) (S (fix_count s)) ({[line_number t]} ∪ changed_lines s)) Hs) as (s' & E & H1 & H2 & H3).
    exists s'. split_and!; [done|done|done|]. cbn in *. lia. }
  set (first := match heap p with [] => None | _ => Some 0 end). destruct (H (HandleFile (heap p) ∅ first) eq_refl) as (s' & E & H1 & H2 & H3).
  rewrite st_bind, E. destruct (FinishFile_spec s' (seq 0 (length (heap p)))) as (w & _ & E'); [rewrite H2; cbn; unfold first; by destruct (heap p)|apply NoDup_seq|by rewrite H1|].
  rewrite E'. cbn in H3. rewrite H3, H1, content_at_all, (printed_lines _ _ _ Hby). by destruct errors; [|cbn].
Qed.

(** ** Indenting a line *)

(** The tokens [row] are those of line [k], between [l1] and [l2]. *)
Record row_of (h : Heap) (l1 row l2 : list nat) (k : Z) : Prop := {
  ro_stream : stream h (l1 ++ row ++ l2);
  ro_row : ∀ x, x ∈ row → line_number <$> h !! x = Some k;
  ro_before : ∀ x, last_or None l1 = Some x → line_number <$> h !! x ≠ Some k }.
Lemma first_in_row h l1 row l2 k : row_of h l1 row l2 k →
  ∀ a i b fuel, row = a ++ i :: b → length a < fuel → first_in_line fuel i h = (Ok (default i (head row)), h).
Proof.
  intros [[_ Hs _ _] Hrow Hbefore] a. induction a as [|j a IH] using rev_ind; intros i b fuel -> Hf; (destruct fuel as [|fuel]; [cbn in Hf; lia|]); cbn [first_in_line].
  - apply seg_app in Hs as [Hs1 (t & Ht & Hp & _)]. assert (Hk := Hrow i ltac:(left)). rewrite Ht in Hk. injection Hk as Hk.
    assert (E : IsFirstInLine i h = (Ok true, h)).
    { unfold IsFirstInLine. rewrite st_bind, (get_run _ _ _ Ht). cbv beta iota. rewrite Hp. destruct l1 as [|x l1 _] using rev_ind; [done|].
      rewrite last_or_app in *. specialize (Hbefore x eq_refl). apply seg_app in Hs1 as [_ (u & Hu & _)]. rewrite st_bind, (get_run _ _ _ Hu). cbv beta iota.
      rewrite Hu in Hbefore. rewrite (proj2 (Z.eqb_neq _ _)); [done|]. intros ?. apply Hbefore. cbn. congruence. }
    by rewrite st_bind, E.
  - rewrite <-app_assoc in Hs, Hrow. cbn [app] in Hs, Hrow. rewrite <-app_assoc in Hs. cbn [app] in Hs. rewrite app_assoc in Hs.
    apply seg_app in Hs as [_ (u & Hu & _ & _ & (t & Ht & Hp & _))]. assert (Hk := Hrow i ltac:(set_solver)). assert (Hk' := Hrow j ltac:(set_solver)).
    rewrite Ht in Hk. rewrite Hu in Hk'. injection Hk as Hk. injection Hk' as Hk'.
    assert (E : IsFirstInLine i h = (Ok false, h)).
    { unfold IsFirstInLine. rewrite st_bind, (get_run _ _ _ Ht). cbv beta iota. rewrite Hp, st_bind, (get_run _ _ _ Hu). cbv beta iota. by rewrite Hk, Hk', Z.eqb_refl. }
    rewrite st_bind, E. cbv beta iota. rewrite st_bind, (get_run _ _ _ Ht). cbv beta iota. rewrite Hp. rewrite length_app in Hf. cbn in Hf.
    rewrite (IH j (i :: b)); [|by rewrite <-app_assoc|lia]. by destruct a.
Qed.

(** A fix is put into the heap and noted: what is written is the new chain. *)
Lemma fixed_written s h' l i t : file_token s = hd_or l None → NoDup l → seg h' None l None → h' !! i = Some t →
  ∃ s' warned, AddFix [i] (mkFixer h' (attached s) (file_token s) (fix_count s) (changed_lines s)) = (Ok tt, s') ∧
    Forall (λ n, n ∈ {[line_number t]} ∪ changed_lines s) warned ∧ FinishFile s' = (Ok (Some (printed (content_at h' l), warned)), s').
Proof.
  intros Hf Hd Hs Ht. set (s1 := mkFixer h' (attached s) (file_token s) (fix_count s) (changed_lines s)). assert (E := note_run i s1 t Ht).
  destruct (FinishFile_spec (mkFixer h' (attached s) (file_token s) (S (fix_count s)) ({[line_number t]} ∪ changed_lines s)) l) as (w & Hw & EF); [done|done|done|].
  by exists (mkFixer h' (attached s) (file_token s) (S (fix_count s)) ({[line_number t]} ∪ changed_lines s)), w.
Qed.
Lemma fresh_stream h l t : stream h l → stream (h ++ [t]) l.
Proof.
  intros [Hd Hs Hc Hp]. assert (H : ∀ i, i ∈ l → (h ++ [t]) !! i = h !! i).
  { intros i Hi. destruct (seg_in _ _ _ _ _ Hs Hi) as [u Hu]. apply lookup_app_l. by eapply lookup_lt_Some. }
  split; [done| | |].
  - apply (seg_ext h); [|done]. intros i Hi. by rewrite H.
  - apply (coded_ext h); [|done]. intros i Hi. by rewrite H.
  - apply (placed_ext h); [|done]. intros i Hi. by rewrite H.
Qed.
Definition with_fheap (s : Fixer) (h : Heap) : Fixer := mkFixer h (attached s) (file_token s) (fix_count s) (changed_lines s).
Lemma in_heap_run {A} (m : ST Heap A) s r h : m (fheap s) = (r, h) → in_heap m s = (r, with_fheap s h).
Proof. intros E. unfold in_heap. by rewrite E. Qed.
Lemma same_fheap s : with_fheap s (fheap s) = s.
Proof. by destruct s. Qed.
Lemma ftok_run s i t : fheap s !! i = Some t → ftok i s = (Ok t, s).
Proof. intros Ht. unfold ftok. by rewrite (in_heap_run _ _ _ _ (get_run _ _ _ Ht)), same_fheap. Qed.
Lemma fthe_run {A} (x : A) s : fthe (Some x) s = (Ok x, s).
Proof. unfold fthe. by rewrite (in_heap_run _ _ (Ok x) (fheap s)), same_fheap. Qed.
Lemma first_of_row s l1 i0 row l2 k i : row_of (fheap s) l1 (i0 :: row) l2 k → i ∈ i0 :: row →
  in_heap (GetFirstTokenInSameLine i) s = (Ok i0, s).
Proof.
  intros Hrow Hi. destruct (ro_stream _ _ _ _ _ Hrow) as [Hd Hs _ _]. assert (Hlen := seg_length _ _ _ _ Hd Hs).
  apply list_elem_of_split in Hi as (a & b & Hab). rewrite (in_heap_run _ _ (Ok i0) (fheap s)); [by rewrite same_fheap|].
  unfold GetFirstTokenInSameLine, gets. rewrite st_bind. apply (first_in_row _ _ _ _ _ Hrow a i b _ Hab).
  rewrite !length_app, Hab, length_app in Hlen. unfold all_rounds. cbn in Hlen. lia.
Qed.

(** A text that is changed, and a token that is put between two others: the chain after it. *)
Lemma change_text h l1 i0 l2 t (g : string → string) : stream h (l1 ++ i0 :: l2) → h !! i0 = Some t →
  let h' := alter (λ t, set_string t (g (string_ t))) i0 h in
  seg h' None (l1 ++ i0 :: l2) None ∧ h' !! i0 = Some (set_string t (g (string_ t))) ∧
  content_at h' (l1 ++ i0 :: l2) = content_at h l1 ++ (g (string_ t), line_number t) :: content_at h l2.
Proof.
  intros [Hd Hs _ _] Ht h'. assert (H0 : h' !! i0 = Some (set_string t (g (string_ t)))) by (unfold h'; by rewrite list_lookup_alter_eq, Ht).
  assert (Ho : ∀ j, j ≠ i0 → h' !! j = h !! j) by (intros j Hj; unfold h'; by rewrite list_lookup_alter_ne). split_and!; [|done|].
  - apply (seg_ext h); [|done]. intros j _. destruct (decide (j = i0)) as [->|Hj]; [by rewrite H0, Ht|by rewrite Ho].
  - rewrite content_at_app, (content_at_cons _ _ _ _ H0). apply NoDup_app in Hd as (_ & Hd1 & [Hd2 _]%NoDup_cons).
    rewrite !(content_at_ext h h'); [done| |]; intros j Hj; unfold text_of; rewrite Ho; [done|intros ->; done|done|intros ->; by apply (Hd1 i0 Hj); left].
Qed.
Lemma insert_text h l1 x l2 xt s ln k : stream h (l1 ++ x :: l2) → h !! x = Some xt →
  (k = line_number xt ∨ ∀ j t, head l2 = Some j → h !! j = Some t → line_number t ≠ line_number xt) →
  ∃ h', InsertTokenAfter (length h) x (h ++ [new_Token s WHITESPACE ln k None]) = (Ok tt, h') ∧ stream h' (l1 ++ x :: length h :: l2) ∧
    (∀ i, i ∈ l1 ++ x :: l2 → text_of h' i = text_of h i) ∧
    content_at h' (l1 ++ x :: length h :: l2) = content_at h (l1 ++ [x]) ++ (s, k) :: content_at h l2.
Proof.
  intros Hst Hx Hline. set (n := length h). set (nt := new_Token s WHITESPACE ln k None).
  assert (Hfresh : ∀ j, j ∈ l1 ++ x :: l2 → j < n) by (intros j Hj; destruct (seg_in _ _ _ _ _ (st_seg _ _ Hst) Hj) as [u Hu]; by eapply lookup_lt_Some).
  assert (Hn : (h ++ [nt]) !! n = Some nt) by (unfold n; by rewrite lookup_app_r, Nat.sub_diag by done).
  destruct (InsertTokenAfter_spec (h ++ [nt]) l1 x l2 n xt nt) as (h' & E & Hstream' & Htext); [by apply fresh_stream| | |done|done|done| |].
  - intros H%Hfresh. lia.
  - by rewrite lookup_app_l by (apply Hfresh; set_solver).
  - destruct Hline as [->|Hline]; [by left|right]. intros j u Hj Hu. apply (Hline j); [done|]. rewrite lookup_app_l in Hu; [done|].
    apply Hfresh. destruct l2; [done|]. injection Hj as ->. set_solver.
  - assert (Hold : ∀ i, i ∈ l1 ++ x :: l2 → text_of h' i = text_of h i) by (intros i Hi; rewrite Htext; unfold text_of; by rewrite lookup_app_l by by apply Hfresh).
    exists h'. split_and!; [done|done|done|]. change (x :: n :: l2) with ([x] ++ n :: l2). rewrite app_assoc, content_at_app. specialize (Htext n).
    unfold text_of in Htext at 1. rewrite Hn in Htext || (unfold text_of in Htext; rewrite Hn in Htext). destruct (h' !! n) as [v|] eqn:Hv; [|done]. injection Htext as _ Hv2 Hv3.
    rewrite (content_at_cons _ _ _ _ Hv), Hv2, Hv3. cbn [nt new_Token string_ line_number]. rewrite !(content_at_ext h h'); [done| |]; intros j Hj; apply Hold; set_solver.
Qed.

(** C34: Fixing the indentation of a line that is not the first one and does not begin inside a
    parameter list: when the line begins with white space, that becomes as many spaces as the
    error asks for; when it does not, as many spaces are put before it.  The file is then written
    with the line indented, and every other character of every line as it was; only lines that
    were changed are warned about.  (In a parameter list the spaces come after the text, see
    [spaces_at_the_end].) *)
Theorem fix_indentation_correct s l1 i0 row l2 k i p d t msg n :
  row_of (fheap s) l1 (i0 :: row) l2 k → file_token s = hd_or (l1 ++ i0 :: row ++ l2) None → l1 ≠ [] → i ∈ i0 :: row →
  fheap s !! i0 = Some t → type t ≠ PARAMETERS_ → (type t = WHITESPACE → lstrip (string_ t) = "") →
  ∃ s' warned, HandleError false (mkError WRONG_INDENTATION msg (Some i) (Some p) d n) s = (Ok tt, s') ∧ Forall (λ n, n ∈ {[k]} ∪ changed_lines s) warned ∧
    FinishFile s' = (Ok (Some (printed (content_at (fheap s) l1 ++
      (spaces (pos_length p), k) :: (if decide (type t = WHITESPACE) then [] else [(string_ t, k)]) ++ content_at (fheap s) (row ++ l2)), warned)), s').
Proof.
  intros Hrow Hft Hl1 Hi Ht Hpar Hws. assert (Hst := ro_stream _ _ _ _ _ Hrow).
  assert (Hk : line_number t = k) by (assert (H := ro_row _ _ _ _ _ Hrow i0 ltac:(left)); rewrite Ht in H; by injection H).
  unfold HandleError. cbn [code err_token position]. rewrite st_bind, fthe_run. unfold fix_indentation.
  rewrite st_bind, (first_of_row _ _ _ _ _ _ _ Hrow Hi), st_bind, fthe_run, st_bind, (ftok_run _ _ _ Ht). cbv beta iota. case_decide as Hty.
  - rewrite bool_decide_true by (rewrite Hty; left).
    destruct (change_text (fheap s) l1 i0 (row ++ l2) t (λ x, lstrip x +:+ spaces (pos_length p)) Hst Ht) as (Hseg & H0 & Hc).
    destruct (fixed_written s _ (l1 ++ i0 :: row ++ l2) i0 _ Hft (st_nodup _ _ Hst) Hseg H0) as (s' & w & E1 & Hw & E2).
    exists s', w. split_and!; [|by rewrite <-Hk|by rewrite E2, Hc, Hws, Hk].
    rewrite st_bind. unfold fupd. rewrite st_bind, (ftok_run _ _ _ Ht). exact E1.
  - rewrite bool_decide_false by (rewrite !not_elem_of_cons; by split_and!; [| |apply not_elem_of_nil]).
    destruct l1 as [|x l1 _] using rev_ind; [done|]. rewrite <-app_assoc in *. cbn [app] in *.
    destruct (proj1 (seg_app _ _ _ _ _) (st_seg _ _ Hst)) as [_ (xt & Hx & _ & _ & (t' & Ht' & Hpt & _))]. assert (t' = t) as -> by congruence.
    destruct (insert_text (fheap s) l1 x (i0 :: row ++ l2) xt (spaces (pos_length p)) (line t) (line_number t) Hst Hx) as (h' & E & [Hd' Hs' _ _] & Htext & Hc).
    { right. intros j u [= <-] Hu. assert (u = t) as -> by congruence. rewrite Hk. intros Hk2.
      apply (ro_before _ _ _ _ _ Hrow x); [by rewrite last_or_app|]. rewrite Hx. cbn. congruence. }
    assert (H0 := Htext i0 ltac:(set_solver)). unfold text_of in H0. rewrite Ht in H0. destruct (h' !! i0) as [u|] eqn:Hu; [|done]. injection H0 as Hu1 Hu2 Hu3.
    destruct (fixed_written s h' (l1 ++ x :: length (fheap s) :: i0 :: row ++ l2) i0 u) as (s' & w & E1 & Hw & E2); [rewrite Hft; by destruct l1|done|done|done|].
    exists s', w. split_and!; [|by rewrite <-Hk, <-Hu3|by rewrite E2, Hc, (content_at_cons _ _ _ _ Ht), Hk].
    rewrite st_bind, st_bind. unfold new_token, insert_after.
    rewrite (in_heap_run _ _ (Ok (length (fheap s))) (fheap s ++ [new_Token (spaces (pos_length p)) WHITESPACE (line t) (line_number t) None])) by done. cbv beta iota.
    rewrite st_bind, Hpt, fthe_run. cbv beta iota. by rewrite (in_heap_run (InsertTokenAfter (length (fheap s)) x) (with_fheap s _) (Ok tt) h' E).
Qed.

(** ** Examples *)

Definition two_lines : list string := ["x = 1;" +:+ nl_str; "y"].
Definition two_lines_pass : Pass := match analyse two_lines with Ok (_, p) => p | Err _ => Reset [] end.
Lemma two_lines_analysed : analyse two_lines = Ok (Ok tt, two_lines_pass).
Proof. by vm_compute. Qed.
Lemma fixed_text_correct_witness : fixed_text two_lines [mkError FILE_MISSING_NEWLINE "" (Some 6) None NoData 0] = Ok (Some ("x = 1;" +:+ nl_str +:+ "y" +:+ nl_str)).
Proof.
  assert (H : Forall (λ e, code e = FILE_MISSING_NEWLINE ∧ ∃ i, err_token e = Some i ∧ i < length (heap two_lines_pass)) [mkError FILE_MISSING_NEWLINE "" (Some 6) None NoData 0]).
  { apply Forall_singleton. split; [done|]. exists 6. split; [done|]. apply Nat.ltb_lt. by vm_compute. }
  exact (fixed_text_correct two_lines _ _ _ two_lines_analysed H).
Defined.

Definition branch_file : list string := ["if (a)"; "b;"].
Definition branch_pass : Pass := match analyse branch_file with Ok (_, p) => p | Err _ => Reset [] end.
Lemma branch_analysed : analyse branch_file = Ok (Ok tt, branch_pass).
Proof. by vm_compute. Qed.
Definition branch_fixer : Fixer := HandleFile (heap branch_pass) ∅ (Some 0).
Lemma branch_row : row_of (fheap branch_fixer) [0; 1; 2; 3; 4] [5; 6] [] 2.
Proof.
  split.
  - assert (H := analysed_stream _ _ branch_analysed). by vm_compute length in H.
  - intros x [-> | [-> | []%elem_of_nil]%elem_of_cons]%elem_of_cons; by vm_compute.
  - intros x [= <-]. by vm_compute.
Qed.
Lemma fix_indentation_correct_witness : ∃ s' warned, HandleError false (mkError WRONG_INDENTATION "" (Some 6) (Some (mkPosition 0 2)) NoData 0) branch_fixer = (Ok tt, s') ∧
  FinishFile s' = (Ok (Some ("if (a)" +:+ nl_str +:+ "  b;" +:+ nl_str, warned)), s').
Proof.
  assert (Ht : ∃ t, fheap branch_fixer !! 5 = Some t ∧ type t = IDENTIFIER ∧ string_ t = "b") by (eexists; by vm_compute).
  destruct Ht as (t & Ht & Hty & Hstr).
  destruct (fix_indentation_correct branch_fixer [0; 1; 2; 3; 4] 5 [6] [] 2 6 (mkPosition 0 2) NoData t "" 0%Z branch_row) as (s' & w & E & _ & EF);
    [reflexivity|discriminate|right; left|exact Ht|congruence|congruence|].
  exists s', w. split; [exact E|]. rewrite decide_False, Hstr in EF by by rewrite Hty. rewrite EF. by vm_compute.
Defined.

(** A string over two lines: the new quote at its end gets the number of the first line (and
    the type of a quote that starts a string), so that the line breaks move. *)
Example quote_on_the_wrong_line : fixed_text ["x = " +:+ String dquote "a\"; "b" +:+ String dquote ";"] [mkError UNNECESSARY_DOUBLE_QUOTED_STRING "" (Some 4) None NoData 0] =
  Ok (Some ("x = 'a\" +:+ nl_str +:+ "b" +:+ nl_str +:+ "'" +:+ nl_str +:+ ";" +:+ nl_str)).
Proof. by vm_compute. Qed.
(** A line that begins in a parameter list gets the spaces after its text. *)
Example spaces_at_the_end : fixed_text ["function f(a,"; "  b) {"; "}"] [mkError WRONG_INDENTATION "" (Some 5) (Some (mkPosition 2 4)) NoData 0] =
  Ok (Some ("function f(a," +:+ nl_str +:+ "b    ) {" +:+ nl_str +:+ "}" +:+ nl_str)).
Proof. by vm_compute. Qed.
Example semicolon_inserted : fixed_text ["a = b"; "c;"] [mkError MISSING_SEMICOLON "" (Some 4) None NoData 0] = Ok (Some ("a = b;" +:+ nl_str +:+ "c;" +:+ nl_str)).
Proof. by vm_compute. Qed.
