(* ===== verification/ClChecker.v ===== *)
(** * Checking files (tools/closure_linter: checkerbase.py, checker.py, fixjsstyle.py)

    The tokenizer, the metadata pass, the state tracker, the rules and a handler of errors
    together; with the fixer as the handler, the tokens change while they are checked. *)
From stdpp Require Import gmap.
From S2P Require Import Prelude PyStr PyState ClTokens ClTokenizer ClMeta ClIndent ClDoc ClErrors ClState ClRules ClJsRules ClFixer.

Section Checker.
Context {H : Type} {EH : ErrorHandler H}.
Abbreviation W := (ST (World H)).
(** htmlutil.StripTags runs the HTML parser of the standard library, and so does
    [GetScriptLines], which gives the scripts of a page, or the exception of the parser;
    [read_file] opens a file. *)
Context (o : Options) (StripTags : string → string).

Definition does_not_parse (i : nat) : W bool :=
  t ← wtok i;
  checker_error FILE_DOES_NOT_PARSE ("Error parsing file at token " +:+ quoted (string_ t) +:+ ". Unable to check the rest of file.") (Some i) None NoData;;
  tell finish_file;;
  mret false.
(** [while token]: the tokens are tracked and checked in turn.  [parse_error] is the token of
    the error that the metadata pass stopped at. *)
Fixpoint check_loop (limited_doc_checks is_html : bool) (fuel : nat) (parse_error token : option nat) : W bool :=
  match fuel with
  | 0 => throw OutOfFuel
  | S n =>
      match token with
      | None => mret true
      | Some i =>
          if bool_decide (parse_error = Some i) then does_not_parse i
          else
            r ← attempt (HandleToken (closurized_namespaces o) i);
            match r with
            | Ok _ =>
                rules_CheckToken o limited_doc_checks is_html StripTags i;;
                HandleAfterToken i;;
                t ← wtok i;
                check_loop limited_doc_checks is_html n parse_error (next t)
            | Err OutOfFuel => throw OutOfFuel
            | Err e => if error_trace o then throw e else does_not_parse i
            end
      end
  end.
(** From [HandleFile] on; a token that is inserted may be checked, too. *)
Definition check_file (fuel : nat) (limited_doc_checks is_html : bool) (filename : string) (first parse_error : option nat) (mode : JavaScriptMode) : W bool :=
  tell (handle_file filename first);;
  done_ ← check_loop limited_doc_checks is_html fuel parse_error first;
  if (done_ : bool) then rules_Finalize o mode;; tell finish_file;; mret true else mret false.
Definition limited (filename : string) : bool := existsb (λ f, endswith f filename) (limited_doc_files o).
Definition world (p : Pass) (x : bool * H) : World H := mkWorld (new_Rules p) ∅ new_Tracker x.1 x.2.
Definition of_world {A} (m : W A) (w : World H) : res A * (bool * H) := let '(r, w) := m w in (r, (has_errors w, handler w)).
(** [CheckLines]; the state is whether there was an error, and the handler.  [None] is the
    error of a token that is not there. *)
Definition CheckLines (fuel : nat) (filename : string) (lines : list string) (is_html : bool) : ST (bool * H) bool := λ x,
  match tokenize_js true lines with
  | Err e => (Err e, x)
  | Ok (s, first) =>
      let '(r, p) := Process first (Reset (toks s)) in
      let run parse_error := of_world (check_file fuel (limited filename) is_html filename first parse_error (mode s)) (world p x) in
      match r with
      | Ok _ => run None
      | Err (ParseError t) => run t
      | Err OutOfFuel => (Err OutOfFuel, x)
      | Err _ => (Ok false, x)
      end
  end.
Context (GetScriptLines : list string → res (list string)) (read_file : string → option (list string)).
(** [Check] *)
Definition Check_ (fuel : nat) (filename : string) : ST (bool * H) unit :=
  match read_file filename with
  | None => of_world (tell (handle_file filename None);; checker_error FILE_NOT_FOUND "File not found" None None NoData;; tell finish_file) ∘ world (Reset [])
  | Some lines =>
      if endswith ".html" filename || endswith ".htm" filename
      then scripts ← lift (GetScriptLines lines); CheckLines fuel filename scripts true;; mret tt
      else CheckLines fuel filename lines false;; mret tt
  end.
(** [GJsLintRunner.Run], and [main] of fixjsstyle.py. *)
Definition Run (fuel : nat) (filenames : list string) : ST (bool * H) unit := for_each (Check_ fuel) filenames.
End Checker.

(** ** Handlers *)

(** All that a handler is told. *)
Inductive Event := FileStarted (filename : string) (token : option nat) | Reported (e : LintError) | FileFinished.
#[export] Instance log_handler : ErrorHandler (list Event) := {|
  handle_file filename token := modify (λ '(h, a, l), (h, a, l ++ [FileStarted filename token]));
  handle_error e := modify (λ '(h, a, l), (h, a, l ++ [Reported e]));
  finish_file := modify (λ '(h, a, l), (h, a, l ++ [FileFinished])) |}.
(** [ErrorFixer]: the data, and the files that it has written, with the lines it warns about. *)
Record FixerData := mkFixerData { file_name : string; fd_token : option nat; fd_count : nat; fd_changed : gset Z; files_written : list (string * (string * list Z)) }.
Definition in_fixer {A} (m : ST Fixer A) : ST (Shared FixerData) A := λ '(h, a, x),
  let '(r, s) := m (mkFixer h a (fd_token x) (fd_count x) (fd_changed x)) in
  (r, (fheap s, attached s, mkFixerData (file_name x) (file_token s) (fix_count s) (changed_lines s) (files_written x))).
Definition fixer_handler (disable_indentation_fixing : bool) : ErrorHandler FixerData := {|
  handle_file filename token := modify (λ '(h, a, x), (h, a, mkFixerData filename token 0 ∅ (files_written x)));
  handle_error e := in_fixer (HandleError disable_indentation_fixing e);
  finish_file :=
    r ← in_fixer FinishFile;
    match r with
    | Some out => modify (λ '(h, a, x), (h, a, mkFixerData (file_name x) (fd_token x) (fd_count x) (fd_changed x) (files_written x ++ [(file_name x, out)])))
    | None => mret tt
    end |}.

Definition default_options : Options := mkOptions true true [] [] [] [] false false.
Definition fixed (file : list string) : res bool * list (string * (string * list Z)) :=
  let '(r, (_, x)) := CheckLines (EH := fixer_handler false) default_options id 1000 "a.js" file false (false, mkFixerData "" None 0 ∅ []) in (r, files_written x).
