(* ===== verification/ClReports.v ===== *)
(** * What a check reports (tools/closure_linter)

    The tokens of a file that is analysed and checked with a handler that does not change
    them: every walk along them ends, what the functions raise, and what is reported. *)
From stdpp Require Import gmap.
From S2P Require Import Prelude PyStr PyState ClTokens ClTokenizer ClMeta ClIndent ClDoc ClErrors ClState ClRules ClJsRules ClChecker.

(** What the tracker and the rules raise. *)
Definition check_exn (e : exn) : Prop := e ∈ [AttributeError; IndexError; TypeError; KeyError; StopIteration].
Lemma check_exn_dec e : bool_decide (e ∈ [AttributeError; IndexError; TypeError; KeyError; StopIteration]) = true → check_exn e.
Proof. apply bool_decide_eq_true. Qed.
#[local] Instance triv_preorder {A} : PreOrder (λ _ _ : A, True).
Proof. by split. Qed.

(** ** Handlers that do not change what is checked

    Such a handler is [idle] between files and [ready] in one; then it notes what it is told
    and raises nothing.  What it does at the end of a file may depend on the tokens. *)
Class PassiveHandler (H : Type) `{!ErrorHandler H} := {
  idle : H → Prop; ready : H → Prop;
  start : string → option nat → H → H; note : H → LintError → H; finish : Heap → H → res unit * H;
  passive_file f t h a x : idle x → handle_file f t (h, a, x) = (Ok tt, (h, a, start f t x)) ∧ ready (start f t x);
  passive_error e h a x : ready x → handle_error e (h, a, x) = (Ok tt, (h, a, note x e)) ∧ ready (note x e);
  passive_finish h a x : ready x → finish_file (h, a, x) = ((finish h x).1, (h, a, (finish h x).2)) ∧
    ∀ e, (finish h x).1 = Err e → check_exn e }.
(** The handler after some errors. *)
Definition notes `{PassiveHandler H} (x : H) (es : list LintError) : H := fold_left note es x.
(** What [f();; mret a] gives when f gives [q]. *)
Definition then_ {A} (q : res unit) (a : A) : res A := match q with Ok _ => Ok a | Err e => Err e end.
#[export] Program Instance passive_log : PassiveHandler (list Event) := {|
  idle _ := True; ready _ := True;
  start f t l := l ++ [FileStarted f t]; note l e := l ++ [Reported e]; finish _ l := (Ok tt, l ++ [FileFinished]) |}.
Solve All Obligations with by intros.

Section Tokens.
Context (h0 : Heap).
Hypothesis stream_h0 : stream h0 (seq 0 (length h0)).

(** ** Walks along the tokens *)

(** A computation that reads the tokens. *)
Definition reads {A} (m : ST Heap A) : Prop := keeps (λ h, h = h0) (λ _ _, True) check_exn m.
(** Rounds that are enough for a walk forward, or back. *)
Definition ahead (o : option nat) : nat := match o with Some i => length h0 - i | None => 0 end.
Definition behind (o : option nat) : nat := match o with Some i => if i <? length h0 then S i else 0 | None => 0 end.
Lemma ahead_next i t : h0 !! i = Some t → ahead (next t) < ahead (Some i).
Proof using stream_h0.
  intros Ht. rewrite (next_of _ stream_h0 _ _ Ht). apply lookup_lt_Some in Ht. destruct (Nat.ltb_spec (S i) (length h0)); cbn; lia.
Qed.
Lemma behind_previous i t : h0 !! i = Some t → behind (previous t) < behind (Some i).
Proof using stream_h0.
  intros Ht. rewrite (previous_of _ stream_h0 _ _ Ht). apply lookup_lt_Some in Ht. unfold behind. rewrite (proj2 (Nat.ltb_lt i _)) by done.
  destruct i as [|j]; [lia|]. rewrite (proj2 (Nat.ltb_lt j _)); lia.
Qed.
Lemma rounds_ahead o : ahead o < all_rounds h0.
Proof. unfold all_rounds. destruct o; cbn; lia. Qed.
Lemma rounds_behind o : behind o < all_rounds h0.
Proof. unfold all_rounds, behind. destruct o as [i|]; [|lia]. destruct (Nat.ltb_spec i (length h0)); lia. Qed.

Lemma reads_ret {A} (a : A) : reads (mret a).
Proof. apply keeps_ret. apply _. Qed.
Lemma reads_bind {A B} (m : ST Heap A) (f : A → ST Heap B) : reads m → (∀ a, reads (f a)) → reads (x ← m; f x).
Proof. apply keeps_bind. apply _. Qed.
Lemma reads_throw {A} e : check_exn e → reads (throw e : ST Heap A).
Proof. apply keeps_throw. apply _. Qed.
Lemma reads_get_bind {B} i (f : Token → ST Heap B) : (∀ t, h0 !! i = Some t → reads (f t)) → reads (t ← get i; f t).
Proof.
  intros Hf s r s' ->. rewrite st_bind. unfold get, gets. rewrite st_bind. destruct (h0 !! i) as [t|] eqn:Ht; [by apply (Hf t eq_refl)|].
  intros [= <- <-]. split_and!; [done|done|]. intros e [= <-]. by apply check_exn_dec.
Qed.
Lemma reads_get i : reads (get i).
Proof. intros s r s' -> E. eapply (reads_get_bind i mret); [intros; apply reads_ret|done|]. rewrite st_bind, E. by destruct r. Qed.
Lemma reads_rounds {B} (f : nat → ST Heap B) : reads (f (all_rounds h0)) → reads (n ← gets all_rounds; f n).
Proof. intros Hf s r s' ->. rewrite st_bind. by apply Hf. Qed.
Lemma reads_the {A} (o : option A) : reads (the o).
Proof. destruct o; [apply reads_ret|apply reads_throw; by apply check_exn_dec]. Qed.
Lemma reads_the_bind {A B} (o : option A) (f : A → ST Heap B) : (∀ a, o = Some a → reads (f a)) → reads (x ← the o; f x).
Proof. intros Hf. destruct o as [a|]; [by apply (Hf a)|]. change (reads (throw AttributeError : ST Heap B)). apply reads_throw. by apply check_exn_dec. Qed.
Create HintDb reading.
#[local] Hint Resolve reads_get reads_the : reading.
Ltac reading :=
  cbv beta zeta;
  lazymatch goal with
  | |- reads (mbind _ (get _)) => apply reads_get_bind; intros ? ?; reading
  | |- reads (mbind _ (the _)) => apply reads_the_bind; intros ? ?; reading
  | |- reads (mbind _ (gets all_rounds)) => apply reads_rounds; reading
  | |- reads (mbind _ _) => apply reads_bind; [reading|intros; reading]
  | |- reads (mret _) => apply reads_ret
  | |- reads (throw _) => apply reads_throw; by apply check_exn_dec
  | |- reads (match ?x with _ => _ end) => destruct x; reading
  | |- _ => eauto with reading
  end.
Lemma reads_get_meta i : reads (get_meta i).
Proof. unfold get_meta. reading. Qed.
Lemma reads_IsFirstInLine i : reads (IsFirstInLine i).
Proof. unfold IsFirstInLine. reading. Qed.
Lemma reads_IsLastInLine i : reads (IsLastInLine i).
Proof. unfold IsLastInLine. reading. Qed.
Lemma reads_custom_search step func end_func (m : option nat → nat) : (∀ i t, h0 !! i = Some t → m (step t) < m (Some i)) →
  ∀ fuel d o, m o < fuel → reads (custom_search fuel step func end_func d o).
Proof.
  intros Hm. induction fuel as [|fuel IH]; intros d o Hf; [lia|]. cbn [custom_search].
  assert (Hgo : ∀ i, o = Some i → reads (t ← get i;
    (let again := custom_search fuel step func end_func (pred <$> d) (step t) in
     match step t with None => again | Some j => u ← get j; if func u then mret (Some j) else if end_func u then mret None else again end))).
  { intros i ->. apply reads_get_bind. intros t Ht. specialize (Hm i t Ht). cbv zeta. assert (reads (custom_search fuel step func end_func (pred <$> d) (step t))) by (apply IH; lia).
    destruct (step t); [|done]. reading. }
  destruct o as [i|]; [|apply reads_ret]. destruct d as [[|d]|]; [apply reads_ret| |]; by apply Hgo.
Qed.
Lemma reads_CustomSearch i func end_func d r : reads (CustomSearch i func end_func d r).
Proof using stream_h0.
  unfold CustomSearch. apply reads_rounds. destruct r.
  - apply (reads_custom_search _ _ _ behind behind_previous). assert (H := rounds_behind (Some i)). lia.
  - apply (reads_custom_search _ _ _ ahead ahead_next). assert (H := rounds_ahead (Some i)). lia.
Qed.
Lemma reads_Search i tys d r : reads (Search i tys d r).
Proof using stream_h0. apply reads_CustomSearch. Qed.
Lemma reads_SearchExcept i tys d r : reads (SearchExcept i tys d r).
Proof using stream_h0. apply reads_CustomSearch. Qed.
Lemma reads_SearchUntil i tys ends d r : reads (SearchUntil i tys ends d r).
Proof using stream_h0. apply reads_CustomSearch. Qed.
Lemma reads_Compare i j : reads (Compare i j).
Proof. unfold Compare. reading. Qed.
#[local] Hint Resolve reads_get_meta reads_IsFirstInLine reads_IsLastInLine reads_CustomSearch reads_Search reads_SearchExcept reads_SearchUntil reads_Compare : reading.
Lemma reads_Compare_opt a b : reads (Compare_opt a b).
Proof. unfold Compare_opt. reading. Qed.
Lemma reads_next_token i : reads (next_token i).
Proof. unfold next_token. reading. Qed.
#[local] Hint Resolve reads_Compare_opt reads_next_token : reading.
Lemma reads_brace_loop fuel : ∀ o a b c, ahead o < fuel → reads (brace_loop fuel o a b c).
Proof using stream_h0.
  induction fuel as [|fuel IH]; intros o a b c Hf; [lia|]. cbn [brace_loop]. destruct (a =? b); [reading|].
  apply reads_the_bind. intros i ->. apply reads_get_bind. intros t Ht. cbv zeta. destruct (bool_decide (type t ∈ FLAG_ENDING_TYPES)); [reading|].
  apply IH. assert (H := ahead_next i t Ht). lia.
Qed.
Lemma reads_braces i : reads (GetMatchingEndBraceAndContents i).
Proof using stream_h0.
  unfold GetMatchingEndBraceAndContents. apply reads_rounds. apply reads_bind; [reading|]. intros s. apply reads_bind; [|intros; reading].
  apply reads_brace_loop. assert (H := rounds_ahead s). lia.
Qed.
Lemma reads_identifier_loop fuel : ∀ o, ahead o < fuel → reads (identifier_loop fuel o).
Proof using stream_h0.
  induction fuel as [|fuel IH]; intros o Hf; [lia|]. cbn [identifier_loop]. destruct o as [i|]; [|reading]. apply reads_get_bind. intros t Ht.
  assert (H := ahead_next i t Ht). assert (reads (identifier_loop fuel (next t))) by (apply IH; lia). reading.
Qed.
Lemma reads_next_identifier i : reads (GetNextIdentifierToken i).
Proof using stream_h0. unfold GetNextIdentifierToken. apply reads_rounds. apply reads_bind; [reading|]. intros s. apply reads_identifier_loop, rounds_ahead. Qed.
Lemma reads_contents_loop fuel : ∀ i n l c, ahead (Some i) < fuel → reads (contents_loop fuel i n l c).
Proof using stream_h0.
  induction fuel as [|fuel IH]; intros i n l c Hf; [lia|]. cbn [contents_loop]. apply reads_get_bind. intros t Ht. assert (H := ahead_next i t Ht).
  destruct (bool_decide _); [reading|]. apply reads_bind; [reading|]. intros b. destruct (_ && _); [reading|]. cbv zeta. apply reads_the_bind. intros j Hj. rewrite Hj in H.
  apply reads_get_bind. intros u _. apply IH. lia.
Qed.
Lemma reads_contents i : reads (GetEndTokenAndContents i).
Proof using stream_h0.
  unfold GetEndTokenAndContents. apply reads_rounds. apply reads_get_bind. intros t _. apply reads_bind; [apply reads_contents_loop, rounds_ahead|]. intros; reading.
Qed.
#[local] Hint Resolve reads_braces reads_next_identifier reads_contents : reading.
Lemma reads_new_DocFlag i : reads (new_DocFlag i).
Proof using stream_h0. unfold new_DocFlag, flag_types, flag_name_token, flag_description. reading. Qed.
Lemma reads_AddSuppression d i : reads (AddSuppression d i).
Proof using stream_h0. unfold AddSuppression. reading. Qed.
Lemma reads_new_Error c msg o p d : reads (new_Error c msg o p d).
Proof. unfold new_Error. reading. Qed.
End Tokens.

Create HintDb checking.
Section Check.
Context (p0 : Pass).
Hypothesis stream_p0 : stream (heap p0) (seq 0 (length (heap p0))).
Context {D : Type} {EH : ErrorHandler D} {PH : PassiveHandler D}.
Context (o : Options) (limited_doc_checks is_html : bool) (StripTags : string → string).
Abbreviation World := (World D).
Abbreviation W := (ST World).

(** ** The world that is checked *)

(** The tokens and contexts are those of the analysis, and the handler is ready. *)
Definition w_ok (w : World) : Prop := rules_ok p0 (rules w) ∧ ready (handler w).
(** A report is about a token of the file, if it is about one. *)
Definition about_token (e : LintError) : Prop := ∀ i, err_token e = Some i → is_Some (heap p0 !! i).
(** The tokens that the errors of missing semicolons are about, but for the tags. *)
Definition is_tag (i : nat) : bool := bool_decide (type <$> heap p0 !! i = Some DOC_FLAG).
Definition semicolons (es : list LintError) : list nat :=
  List.filter (λ i, negb (is_tag i)) (omap (λ e, if bool_decide (code e = MISSING_SEMICOLON) then err_token e else None) es).
(** Errors are reported, those of missing semicolons about [l], and nothing else is told to the
    handler. *)
Definition told (l : list nat) (w w' : World) : Prop :=
  ∃ es, handler w' = notes (handler w) es ∧ Forall about_token es ∧ semicolons es = l ∧ (es ≠ [] ∨ has_errors w = true → has_errors w' = true).
Lemma notes_app x es es' : notes x (es ++ es') = notes (notes x es) es'.
Proof. apply fold_left_app. Qed.
Lemma semicolons_app es es' : semicolons (es ++ es') = semicolons es ++ semicolons es'.
Proof. unfold semicolons. by rewrite omap_app, List.filter_app. Qed.
Lemma told_app l l' w1 w2 w3 : told l w1 w2 → told l' w2 w3 → told (l ++ l') w1 w3.
Proof.
  intros (es & E1 & F1 & S1 & H1) (es' & E2 & F2 & S2 & H2). exists (es ++ es'). split_and!.
  - by rewrite E2, E1, notes_app.
  - by apply Forall_app.
  - by rewrite semicolons_app, S1, S2.
  - intros [Hne|Hw]; apply H2; [|right; apply H1; by right]. destruct es'; [right; apply H1; left; by rewrite app_nil_r in Hne|by left].
Qed.
Lemma kept_same (w w' : World) : handler w' = handler w → has_errors w' = has_errors w → told [] w w'.
Proof. intros E1 E2. exists []. split_and!; [done|done|done|]. intros [?|?]; congruence. Qed.
#[local] Instance told_preorder : PreOrder (told []).
Proof. split; [intros w; by apply kept_same|]. intros w1 w2 w3. apply told_app. Qed.
Abbreviation kept := (keeps w_ok (told []) check_exn).

Lemma on_rules_kept {A} (m : ST Rules A) : keeps (rules_ok p0) rules_kept rules_exn m → kept (on_rules m).
Proof.
  intros Hm w r w' [Hw Hr]. unfold on_rules. destruct (m (rules w)) as [r1 x] eqn:E. intros [= <- <-]. destruct (Hm _ _ _ Hw E) as (Hx & _ & He).
  split_and!; [by split|by apply kept_same|]. intros e ->. destruct (He e eq_refl) as [-> | ->]; by apply check_exn_dec.
Qed.
Lemma in_tokens_at {A} (m : ST Heap A) w : w_ok w → reads (heap p0) m → in_tokens m w = ((m (heap p0)).1, w) ∧ ∀ e, (m (heap p0)).1 = Err e → check_exn e.
Proof.
  intros [[Hp _] _] Hm. destruct (m (heap p0)) as [r h] eqn:E. destruct (Hm _ _ _ eq_refl E) as (-> & _ & He). split; [|done].
  unfold in_tokens, on_rules, in_pass, on_heap. rewrite Hp, E. cbn. f_equal. destruct w as [[] ? ? ? ?]. cbn in Hp. subst. by destruct p0.
Qed.
Lemma in_tokens_kept {A} (m : ST Heap A) : reads (heap p0) m → kept (in_tokens m).
Proof. intros Hm w r w' Hw. destruct (in_tokens_at m w Hw Hm) as [-> He]. intros [= <- <-]. by split_and!. Qed.
Lemma kept_ret {A} (a : A) : kept (mret a).
Proof. apply keeps_ret. apply _. Qed.
Lemma kept_bind {A B} (m : W A) (f : A → W B) : kept m → (∀ a, kept (f a)) → kept (x ← m; f x).
Proof. apply keeps_bind. apply _. Qed.
Lemma kept_throw {A} e : check_exn e → kept (throw e : W A).
Proof. apply keeps_throw. apply _. Qed.
Lemma wtok_bind {B} i (f : Token → W B) : (∀ t, heap p0 !! i = Some t → kept (f t)) → kept (t ← wtok i; f t).
Proof.
  intros Hf w r w' Hw. rewrite st_bind. unfold wtok. destruct (in_tokens_at (get i) w Hw (reads_get _ i)) as [-> He].
  unfold get, gets in *. rewrite st_bind in *. destruct (heap p0 !! i) as [t|]; [by apply (Hf t eq_refl)|]. intros [= <- <-]. split_and!; [done|done|].
  intros e [= <-]. by apply He.
Qed.
Lemma rounds_bind {B} (f : nat → W B) : kept (f (all_rounds (heap p0))) → kept (r ← rounds; f r).
Proof. intros Hf w r w' Hw. rewrite st_bind. unfold rounds, gets. cbv beta iota. rewrite (ro_pass _ _ (proj1 Hw)). by apply Hf. Qed.
Lemma kept_state {A} (f : Tracker → A) : kept (state f).
Proof. apply keeps_gets. apply _. Qed.
Lemma kept_track f : kept (track f).
Proof. apply keeps_modify. intros w Hw. split; [done|by apply kept_same]. Qed.
Lemma kept_attach i d : kept (attach_flag i d).
Proof. apply keeps_modify. intros w Hw. split; [done|by apply kept_same]. Qed.
Lemma kept_wthe {A} (x : option A) : kept (wthe x).
Proof. destruct x; [apply kept_ret|apply kept_throw; by apply check_exn_dec]. Qed.
Lemma kept_wtok i : kept (wtok i).
Proof. apply in_tokens_kept, reads_get. Qed.
Lemma kept_lift {A} (r : res A) : (∀ e, r = Err e → check_exn e) → kept (lift r).
Proof. apply keeps_lift. apply _. Qed.
Lemma kept_gets {A} (f : World → A) : kept (gets f).
Proof. apply keeps_gets. apply _. Qed.
Lemma kept_when b (m : W unit) : kept m → kept (when b m).
Proof. destruct b; [done|intros _; apply kept_ret]. Qed.
Hint Resolve kept_state kept_track kept_attach kept_wthe kept_wtok kept_gets : checking.
(** The reads of tokens. *)
Lemma kept_first i : kept (first_in i).
Proof. apply in_tokens_kept, reads_IsFirstInLine. Qed.
Lemma kept_last i : kept (last_in i).
Proof. apply in_tokens_kept, reads_IsLastInLine. Qed.
Lemma kept_meta i : kept (wmeta i).
Proof. apply in_tokens_kept, reads_get_meta. Qed.
Lemma kept_custom i f e d r : kept (in_tokens (CustomSearch i f e d r)).
Proof using stream_p0. by apply in_tokens_kept, reads_CustomSearch. Qed.
Lemma kept_search i tys d r : kept (in_tokens (Search i tys d r)).
Proof using stream_p0. by apply in_tokens_kept, reads_Search. Qed.
Lemma kept_search_except i tys d r : kept (in_tokens (SearchExcept i tys d r)).
Proof using stream_p0. by apply in_tokens_kept, reads_SearchExcept. Qed.
Lemma kept_search_until i tys e d r : kept (in_tokens (SearchUntil i tys e d r)).
Proof using stream_p0. by apply in_tokens_kept, reads_SearchUntil. Qed.
Lemma kept_compare i j : kept (in_tokens (Compare i j)).
Proof. apply in_tokens_kept, reads_Compare. Qed.
Lemma kept_compare_opt i j : kept (in_tokens (Compare_opt i j)).
Proof. apply in_tokens_kept, reads_Compare_opt. Qed.
Lemma kept_new_flag i : kept (in_tokens (new_DocFlag i)).
Proof using stream_p0. by apply in_tokens_kept, reads_new_DocFlag. Qed.
Lemma kept_suppression d i : kept (in_tokens (AddSuppression d i)).
Proof using stream_p0. by apply in_tokens_kept, reads_AddSuppression. Qed.
Lemma kept_search_code i : kept (search_except_code i).
Proof using stream_p0. by apply in_tokens_kept, reads_SearchExcept. Qed.
Lemma kept_context i : kept (context_type i).
Proof. unfold context_type. apply kept_bind; [apply on_rules_kept, context_of_kept|]. intros c. apply kept_ret. Qed.
Hint Resolve kept_first kept_last kept_meta kept_custom kept_search kept_search_except kept_search_until kept_compare kept_compare_opt kept_new_flag
  kept_suppression kept_search_code kept_context : checking.
(** What is told to the handler leaves the rules as they are. *)
Lemma same_rules (w : World) : mkRules (with_heap (pass (rules w)) (heap (pass (rules w)))) (infos (rules w)) (stack (rules w)) (start_index_offset (rules w)) = rules w.
Proof. by destruct w as [[[]] ? ? ? ?]. Qed.
(** Reports. *)
Lemma tell_error_run e w : w_ok w → ∃ w', tell (handle_error e) w = (Ok tt, w') ∧ w_ok w' ∧ handler w' = note (handler w) e ∧ has_errors w' = has_errors w.
Proof.
  intros [Hp N]. unfold tell. destruct (passive_error e (heap (pass (rules w))) (attached_flags w) (handler w) N) as [-> N']. eexists. split; [reflexivity|].
  unfold w_ok. cbn. by rewrite same_rules.
Qed.
Lemma new_Error_run c msg i p d e : (new_Error c msg i p d (heap p0)).1 = Ok e → code e = c ∧ err_token e = i ∧ about_token e.
Proof.
  unfold new_Error, about_token. rewrite st_bind. destruct i as [i|].
  - unfold get, gets. rewrite !st_bind. destruct (heap p0 !! i) as [t|] eqn:Ht; [|done]. cbn. destruct (start_index t), p; try done; cbn; intros [= <-]; cbn; split_and!; try done; by intros j [= <-].
  - cbn. intros [= <-]. by split_and!.
Qed.
Lemma checker_error_run c msg i p d w : w_ok w → ∃ r w', checker_error c msg i p d w = (r, w') ∧ w_ok w' ∧ has_errors w' = true ∧
  match r with
  | Ok _ => ∃ e, handler w' = note (handler w) e ∧ code e = c ∧ err_token e = i ∧ about_token e
  | Err e => check_exn e ∧ handler w' = handler w
  end.
Proof.
  intros Hw. unfold checker_error. rewrite st_bind. unfold modify at 1. cbv beta iota. set (w1 := mkWorld _ _ _ true _).
  assert (Hw1 : w_ok w1) by exact Hw. rewrite st_bind. destruct (in_tokens_at (new_Error c msg i p d) w1 Hw1 (reads_new_Error _ _ _ _ _ _)) as [-> He].
  destruct (new_Error c msg i p d (heap p0)).1 as [e|e] eqn:E.
  - apply new_Error_run in E as (Hc & Hi & Ha). destruct (tell_error_run e w1 Hw1) as (w' & Et & Hw' & Hl & Hh). exists (Ok tt), w'. split_and!; [done|done|done|].
    exists e. by split_and!.
  - exists (Err e), w1. split_and!; [done|done|done|by apply He|done].
Qed.
Lemma kept_checker_error c msg i p d : c ≠ MISSING_SEMICOLON → kept (checker_error c msg i p d).
Proof.
  intros Hc w r w' Hw E. destruct (checker_error_run c msg i p d w Hw) as (r1 & w1 & E1 & Hw1 & Hh & Hr). rewrite E in E1. injection E1 as <- <-. split; [done|].
  destruct r as [[]|e].
  - destruct Hr as (e & Hl & He & _ & Ha). split; [|done]. exists [e]. split_and!; [done|by constructor| |done]. unfold semicolons. cbn. rewrite bool_decide_false by congruence. done.
  - destruct Hr as [He Hl]. split; [|by intros ? [= <-]]. exists []. by split_and!.
Qed.
Lemma kept_report_with c msg i p d : c ≠ MISSING_SEMICOLON → kept (report_with o c msg i p d).
Proof. intros Hc. unfold report_with. destruct (ShouldReportError _ _); [by apply kept_checker_error|apply kept_ret]. Qed.
Lemma kept_report c msg i : c ≠ MISSING_SEMICOLON → kept (report o c msg i).
Proof. apply kept_report_with. Qed.
Lemma kept_report_at c msg i p : c ≠ MISSING_SEMICOLON → kept (report_at o c msg i p).
Proof. apply kept_report_with. Qed.
Ltac checking :=
  cbv beta zeta;
  lazymatch goal with
  | |- keeps _ _ _ (mbind _ (wtok _)) => apply wtok_bind; intros ? ?; checking
  | |- keeps _ _ _ (mbind _ rounds) => apply rounds_bind; checking
  | |- keeps _ _ _ (mbind _ _) => apply kept_bind; [checking|intros; checking]
  | |- keeps _ _ _ (mret _) => apply kept_ret
  | |- keeps _ _ _ (throw _) => apply kept_throw; by apply check_exn_dec
  | |- keeps _ _ _ (when _ _) => apply kept_when; checking
  | |- keeps _ _ _ (report_with _ _ _ _ _ _) => apply kept_report_with; discriminate
  | |- keeps _ _ _ (report _ _ _ _) => apply kept_report; discriminate
  | |- keeps _ _ _ (report_at _ _ _ _ _) => apply kept_report_at; discriminate
  | |- keeps _ _ _ (match ?x with _ => _ end) => destruct x; checking
  | |- _ => eauto with checking
  end.

(** ** The state tracker *)

Lemma kept_attached_flag i : kept (attached_flag i).
Proof. unfold attached_flag. checking. Qed.
Lemma kept_doc_at k : kept (doc_at k).
Proof. unfold doc_at. checking. Qed.
Lemma kept_function_at k : kept (function_at k).
Proof. unfold function_at. checking. Qed.
Lemma kept_value i k : kept (value i k).
Proof. unfold value. checking. Qed.
Lemma kept_wtok_opt x : kept (wtok_opt x).
Proof. unfold wtok_opt. checking. Qed.
Hint Resolve kept_attached_flag kept_doc_at kept_function_at kept_value kept_wtok_opt : checking.
Lemma kept_upd_doc k d : kept (upd_doc k d).
Proof. apply kept_track. Qed.
Lemma kept_upd_function k f : kept (upd_function k f).
Proof. apply kept_track. Qed.
Lemma kept_InFunction : kept InFunction.
Proof. apply kept_state. Qed.
Lemma kept_GetFunction : kept GetFunction.
Proof. apply kept_state. Qed.
Hint Resolve kept_upd_doc kept_upd_function kept_InFunction kept_GetFunction : checking.
Lemma kept_top_function : kept top_function.
Proof. unfold top_function. checking. Qed.
Hint Resolve kept_top_function : checking.
Lemma kept_InConstructor : kept InConstructor.
Proof. unfold InConstructor. checking. Qed.
Lemma kept_InInterfaceMethod : kept InInterfaceMethod.
Proof. unfold InInterfaceMethod. checking. Qed.
Lemma kept_InParentheses : kept InParentheses.
Proof. apply kept_state. Qed.
Hint Resolve kept_InConstructor kept_InInterfaceMethod kept_InParentheses : checking.
Lemma kept_InTopLevel : kept InTopLevel.
Proof. unfold InTopLevel. checking. Qed.
Hint Resolve kept_InTopLevel : checking.
Lemma kept_InTopLevelFunction : kept InTopLevelFunction.
Proof. unfold InTopLevelFunction. checking. Qed.
Lemma kept_InAssignedFunction : kept InAssignedFunction.
Proof. unfold InAssignedFunction. checking. Qed.
Lemma kept_IsFunctionClose : kept IsFunctionClose.
Proof. unfold IsFunctionClose. checking. Qed.
Lemma kept_IsBlockClose : kept IsBlockClose.
Proof. apply kept_state. Qed.
Lemma kept_InBlock : kept InBlock.
Proof. apply kept_state. Qed.
Lemma kept_InObjectLiteral : kept InObjectLiteral.
Proof. unfold InObjectLiteral. checking. Qed.
Lemma kept_descendant : kept InObjectLiteralDescendant.
Proof. apply kept_state. Qed.
Lemma kept_GetParams : kept GetParams.
Proof. unfold GetParams. checking. Qed.
Lemma kept_HasDocComment s : kept (HasDocComment s).
Proof. apply kept_state. Qed.
Lemma kept_InDocComment : kept InDocComment.
Proof. unfold InDocComment. checking. Qed.
Hint Resolve kept_InTopLevelFunction kept_InAssignedFunction kept_IsFunctionClose kept_IsBlockClose kept_InBlock kept_InObjectLiteral kept_descendant
  kept_GetParams kept_HasDocComment kept_InDocComment : checking.
Lemma kept_IsTypeToken i : kept (IsTypeToken i).
Proof using stream_p0. unfold IsTypeToken. checking. Qed.
Lemma kept_GetBlockType i : kept (GetBlockType i).
Proof using stream_p0. unfold GetBlockType. checking. Qed.
Hint Resolve kept_IsTypeToken kept_GetBlockType : checking.
Lemma kept_set_comments f : kept (set_comments f).
Proof. apply kept_track. Qed.
Lemma kept_document s : kept (document s).
Proof. apply kept_track. Qed.
Lemma kept_forget : kept forget_comment.
Proof. apply kept_track. Qed.
Lemma kept_set_depths f : kept (set_depths f).
Proof. apply kept_track. Qed.
Lemma kept_set_params f : kept (set_params f).
Proof. apply kept_track. Qed.
Lemma kept_set_names f : kept (set_names f).
Proof. apply kept_track. Qed.
Hint Resolve kept_set_comments kept_document kept_forget kept_set_depths kept_set_params kept_set_names : checking.
Lemma kept_HandleIdentifier s : kept (HandleIdentifier s).
Proof. unfold HandleIdentifier. checking. Qed.
Hint Resolve kept_HandleIdentifier : checking.
(** Back from a token; what is found comes before it. *)
Lemma skip_back fuel : ∀ i, behind (heap p0) (Some i) < fuel → kept (skip_non_code_back fuel i) ∧
  ∀ w r w', w_ok w → skip_non_code_back fuel i w = (Ok r, w') → behind (heap p0) r < behind (heap p0) (Some i).
Proof using stream_p0.
  induction fuel as [|fuel IH]; intros i Hf; [lia|]. cbn [skip_non_code_back].
  assert (Hstep : ∀ t, heap p0 !! i = Some t → behind (heap p0) (previous t) < behind (heap p0) (Some i)) by (intros; by apply behind_previous). split.
  - apply wtok_bind. intros t Ht. specialize (Hstep t Ht). destruct (previous t) as [p|]; [|apply kept_ret]. apply wtok_bind. intros u _.
    destruct (bool_decide _); [apply IH; lia|apply kept_ret].
  - intros w r w' Hw Hr. apply st_bind_Ok in Hr as (t & w1 & E & Hr). unfold wtok in E. destruct (in_tokens_at (get i) w Hw (reads_get _ i)) as [E1 _]. rewrite E1 in E.
    unfold get, gets in E. rewrite st_bind in E. destruct (heap p0 !! i) as [t'|] eqn:Ht; [|done]. injection E as -> <-. specialize (Hstep t eq_refl).
    destruct (previous t) as [p|]; [|by injection Hr as <- _]. apply st_bind_Ok in Hr as (u & w1 & E & Hr).
    assert (Hw1 : w_ok w1) by by apply (kept_wtok p) in E as (? & _). destruct (bool_decide _); [|by injection Hr as <- _].
    apply (proj2 (IH p ltac:(lia)) _ _ _ Hw1) in Hr. lia.
Qed.
Lemma kept_assigned_name fuel : ∀ x s, behind (heap p0) x < fuel → kept (assigned_name fuel x s).
Proof using stream_p0.
  induction fuel as [|fuel IH]; intros x s Hf; [lia|]. cbn [assigned_name]. destruct x as [i|]; [|apply kept_ret]. apply wtok_bind. intros t Ht.
  destruct (bool_decide _); [|apply kept_ret]. apply rounds_bind. intros w r w' Hw. rewrite st_bind.
  destruct (skip_back (all_rounds (heap p0)) i (rounds_behind _ _)) as [K Hlt].
  destruct (skip_non_code_back _ i w) as [[p|e] w1] eqn:E; destruct (K _ _ _ Hw E) as (Hw1 & R & He).
  - apply (Hlt _ _ _ Hw) in E. intros Hr. apply IH in Hr as (Hw' & R' & He'); [|lia|done]. split_and!; [done|by etrans|done].
  - intros [= <- <-]. split_and!; [done|done|]. intros e' [= <-]. by apply He.
Qed.
(** A search forward finds a token after the one it starts from. *)
Lemma first_match_in h func end_func l : ∀ d j, first_match h func end_func d l = Some j → j ∈ l.
Proof.
  induction l as [|k l IH]; intros d j; cbn [first_match]; [by destruct d as [[]|]|].
  assert (Hgo : match h !! k with Some u => if func u then Some k else if end_func u then None else first_match h func end_func (pred <$> d) l | None => None end = Some j → j ∈ k :: l).
  { destruct (h !! k); [|done]. destruct (func _); [intros [= ->]; left|]. destruct (end_func _); [done|]. intros Hj%IH. by right. }
  destruct d as [[|d]|]; [done|by apply Hgo|by apply Hgo].
Qed.
Lemma search_ahead i tys d w r w' : w_ok w → i < length (heap p0) → in_tokens (Search i tys d false) w = (Ok r, w') → ahead (heap p0) r < ahead (heap p0) (Some i).
Proof using stream_p0.
  intros Hw Hi. destruct (in_tokens_at (Search i tys d false) w Hw (reads_Search _ stream_p0 _ _ _ _)) as [-> _]. intros [= E _].
  destruct stream_p0 as [Hd Hs _ _]. replace (length (heap p0)) with (i + S (length (heap p0) - S i)) in Hs, Hd at 1 by lia. rewrite seq_app in Hs, Hd. cbn [seq Nat.add] in Hs, Hd.
  unfold Search in E. rewrite (CustomSearch_spec _ _ _ _ _ _ _ false Hd Hs) in E. injection E as E. destruct r as [j|]; cbn; [|lia].
  apply first_match_in, elem_of_seq in E. lia.
Qed.
Lemma kept_declared_name fuel : ∀ x s, ahead (heap p0) x < fuel → kept (declared_name fuel x s).
Proof using stream_p0.
  induction fuel as [|fuel IH]; intros x s Hf; [lia|]. cbn [declared_name]. destruct x as [i|]; [|apply kept_ret]. apply wtok_bind. intros t Ht.
  apply lookup_lt_Some in Ht. destruct (bool_decide _); [|apply kept_ret]. intros w r w' Hw. rewrite st_bind.
  destruct (in_tokens (Search i [FUNCTION_NAME] (Some 2) false) w) as [[p|e] w1] eqn:E; destruct (kept_search _ _ _ _ _ _ _ Hw E) as (Hw1 & R & He).
  - apply (search_ahead _ _ _ _ _ _ Hw Ht) in E. intros Hr. apply IH in Hr as (Hw' & R' & He'); [|lia|done]. split_and!; [done|by etrans|done].
  - intros [= <- <-]. split_and!; [done|done|]. intros e' [= <-]. by apply He.
Qed.
Lemma kept_is_assigned_to x : kept (is_assigned_to x).
Proof. unfold is_assigned_to. checking. Qed.
Lemma kept_doc_has x s : kept (doc_has x s).
Proof. unfold doc_has. checking. Qed.
Hint Resolve kept_is_assigned_to kept_doc_has : checking.
Lemma kept_declare_function i : kept (declare_function i).
Proof using stream_p0.
  unfold declare_function. do 4 (apply kept_bind; [checking|intros ?]). apply rounds_bind. apply kept_bind; [|intros ?; checking].
  case_match; (apply kept_bind; [checking|intros ?]); [apply kept_bind; [checking|intros ?]|].
  - apply kept_assigned_name, rounds_behind.
  - apply kept_declared_name, rounds_ahead.
Qed.
Lemma kept_handle_flag i : kept (handle_flag i).
Proof using stream_p0. unfold handle_flag. checking. Qed.
Lemma kept_handle_return i : kept (handle_return i).
Proof using stream_p0. unfold handle_return. checking. Qed.
Lemma kept_handle_identifier i t : kept (handle_identifier i t).
Proof using stream_p0. unfold handle_identifier. checking. Qed.
Hint Resolve kept_declare_function kept_handle_flag kept_handle_return kept_handle_identifier : checking.
Lemma kept_base_HandleToken i : kept (base_HandleToken i).
Proof using stream_p0. unfold base_HandleToken. checking. Qed.
Lemma kept_HandleAfterToken i : kept (HandleAfterToken i).
Proof. unfold HandleAfterToken. checking. Qed.
(** What goes wrong with a namespace is an index. *)
Lemma namespace_exn l s e : GetClosurizedNamespace l s = Err e → check_exn e.
Proof.
  unfold GetClosurizedNamespace. destruct (existsb _ _); [done|]. destruct (startswith _ _); [done|]. generalize (split_on "." s) as parts. induction l as [|n l IH]; intros parts; [done|].
  cbn [namespace_in]. destruct (startswith _ _); [|apply IH]. destruct (_ =s _); [done|]. cbv zeta. destruct (before_constant _ _ _); [done|].
  destruct (isupper _); [by cbn|]. unfold is_upper_first. match goal with |- context [match ?s with EmptyString => _ | String _ _ => _ end] => destruct s end; [|by cbn].
  cbn. intros [= <-]. by apply check_exn_dec.
Qed.
Lemma kept_namespace l s : kept (lift (GetClosurizedNamespace l s)).
Proof. apply kept_lift. intros e. apply namespace_exn. Qed.
Hint Resolve kept_base_HandleToken kept_HandleAfterToken kept_namespace : checking.
Lemma kept_AddUsedNamespace l s : kept (AddUsedNamespace l s).
Proof. unfold AddUsedNamespace. checking. Qed.
Lemma kept_search_opt x tys : kept (search_opt x tys).
Proof using stream_p0. unfold search_opt. checking. Qed.
Hint Resolve kept_AddUsedNamespace kept_search_opt : checking.
Lemma kept_HandleToken l i : kept (HandleToken l i).
Proof using stream_p0. unfold HandleToken. checking. Qed.
Hint Resolve kept_HandleToken : checking.

(** ** The rules *)

Lemma kept_last_seen : kept last_seen.
Proof. apply kept_state. Qed.
Lemma kept_token_is x f : kept (token_is x f).
Proof. unfold token_is. checking. Qed.
Lemma kept_the_next i : kept (the_next i).
Proof. unfold the_next. checking. Qed.
Lemma kept_report_all c f i : c ≠ MISSING_SEMICOLON → kept (report_all o c f i).
Proof. intros Hc. unfold report_all. apply wtok_bind. intros t _. by apply kept_report_at. Qed.
Hint Resolve kept_last_seen kept_token_is kept_the_next : checking.
Hint Extern 1 (keeps _ _ _ (report_all _ _ _ _)) => apply kept_report_all; discriminate : checking.
Lemma kept_line_text fuel : ∀ x n s, behind (heap p0) x < fuel → kept (line_text_back fuel x n s).
Proof using stream_p0.
  induction fuel as [|fuel IH]; intros x n s Hf; [lia|]. cbn [line_text_back]. destruct x as [i|]; [|apply kept_ret]. apply wtok_bind. intros t Ht.
  assert (H := behind_previous _ stream_p0 i t Ht). destruct (_ =? _)%Z; [|apply kept_ret]. apply kept_bind; [checking|]. intros b. apply IH. lia.
Qed.
Lemma kept_CheckLineLength i : kept (CheckLineLength o i).
Proof using stream_p0.
  unfold CheckLineLength. apply wtok_bind. intros t _. apply rounds_bind. apply kept_bind; [apply kept_line_text, rounds_behind|]. intros s. checking.
Qed.
Lemma kept_missing_space i : kept (CheckForMissingSpaceBeforeToken o i).
Proof. unfold CheckForMissingSpaceBeforeToken. checking. Qed.
Lemma kept_expect_space i : kept (ExpectSpaceBeforeOperator i).
Proof. unfold ExpectSpaceBeforeOperator. checking. Qed.
Hint Resolve kept_CheckLineLength kept_missing_space kept_expect_space : checking.
Lemma kept_parameters i b : kept (check_parameters o i b).
Proof. unfold check_parameters. checking. Qed.
Lemma kept_next_is_semicolon i : kept (next_is_semicolon i).
Proof. unfold next_is_semicolon. checking. Qed.
Lemma kept_report_next i c s : c ≠ MISSING_SEMICOLON → kept (report_next o i c s).
Proof. intros Hc. unfold report_next. apply wtok_bind. intros t _. apply kept_bind; [checking|intros j]. apply wtok_bind. intros u _. by apply kept_report_at. Qed.
Hint Resolve kept_parameters kept_next_is_semicolon : checking.
Hint Extern 1 (keeps _ _ _ (report_next _ _ _ _)) => apply kept_report_next; discriminate : checking.
Lemma kept_function_end i c b : kept (check_function_end o i c b).
Proof. unfold check_function_end. checking. Qed.
Lemma kept_last_comma i s : kept (check_last_comma o i s).
Proof. unfold check_last_comma. checking. Qed.
Hint Resolve kept_function_end kept_last_comma : checking.
Lemma kept_end_block i b : kept (check_end_block o i b).
Proof. unfold check_end_block. checking. Qed.
Lemma kept_semicolon i : kept (check_semicolon o i).
Proof using stream_p0. unfold check_semicolon. checking. Qed.
Lemma kept_start_paren i : kept (check_start_paren o i).
Proof. unfold check_start_paren. checking. Qed.
Lemma kept_start_bracket i b : kept (check_start_bracket o i b).
Proof. unfold check_start_bracket. checking. Qed.
Lemma kept_close i : kept (check_close o i).
Proof. unfold check_close. checking. Qed.
Lemma kept_whitespace i a b : kept (check_whitespace o i a b).
Proof. unfold check_whitespace. checking. Qed.
Lemma kept_operator i : kept (check_operator o i).
Proof. unfold check_operator. checking. Qed.
Lemma kept_for_each {A} (f : A → W unit) l : (∀ x, kept (f x)) → kept (for_each f l).
Proof. intros Hf. apply keeps_for_each; [apply _|]. intros x _. apply Hf. Qed.
Lemma kept_js_type i : kept (CheckJsDocType o i).
Proof.
  unfold CheckJsDocType. apply kept_bind; [checking|]. intros d. destruct (dtype d); [|checking]. destruct (_ || _); [checking|]. cbv zeta.
  apply kept_bind; [checking|]. intros _. apply kept_bind; [|intros; checking]. apply kept_for_each. intros x. checking.
Qed.
Lemma kept_bug i : kept (check_bug o i).
Proof. unfold check_bug. checking. Qed.
Lemma kept_suppress i d : kept (check_suppress o i d).
Proof. unfold check_suppress. checking. Qed.
Lemma kept_author i : kept (check_author o i).
Proof. unfold check_author. checking. Qed.
Lemma kept_description_end fuel : ∀ i s, behind (heap p0) (Some i) < fuel → kept (description_end StripTags fuel i s).
Proof using stream_p0.
  induction fuel as [|fuel IH]; intros i s Hf; [lia|]. cbn [description_end]. apply wtok_bind. intros t Ht.
  assert (H := behind_previous _ stream_p0 i t Ht). destruct (_ && _); [|apply kept_ret]. destruct (previous t) as [p|]; [|apply (kept_throw AttributeError); by apply check_exn_dec].
  change (kept (u ← wtok p; description_end StripTags fuel p (if is_type FLAG_DESCRIPTION_TYPES u then rstrip (StripTags (string_ u)) else s))).
  apply wtok_bind. intros u _. apply IH. lia.
Qed.
Lemma kept_description i d : kept (check_description o StripTags i d).
Proof using stream_p0.
  unfold check_description. apply kept_bind; [checking|]. intros _. destruct (negb _); [checking|]. do 3 (apply kept_bind; [checking|intros ?]). apply wtok_bind. intros u _.
  apply rounds_bind. apply kept_bind; [apply kept_description_end, rounds_behind|]. intros x. checking.
Qed.
Hint Resolve kept_end_block kept_semicolon kept_start_paren kept_start_bracket kept_close kept_whitespace kept_operator kept_js_type kept_bug kept_suppress
  kept_author kept_description : checking.
Lemma kept_flag i : kept (check_flag o limited_doc_checks StripTags i).
Proof using stream_p0. unfold check_flag. checking. Qed.
Lemma kept_tag_name i : kept (tag_name i).
Proof. unfold tag_name. checking. Qed.
Hint Resolve kept_flag kept_tag_name : checking.
Lemma kept_tag i b : kept (check_tag o i b).
Proof. unfold check_tag. checking. Qed.
Lemma kept_current_doc : kept current_doc.
Proof. apply kept_state. Qed.
Lemma kept_get_flag d s : kept (lift (GetFlag d s)).
Proof. apply kept_lift. unfold GetFlag. destruct (assoc _ _); [done|]. intros e [= <-]. by apply check_exn_dec. Qed.
Hint Resolve kept_tag kept_current_doc kept_get_flag : checking.
Lemma kept_flag_token d s : kept (flag_token_of d s).
Proof. unfold flag_token_of. checking. Qed.
Hint Resolve kept_flag_token : checking.
Lemma kept_private i k s : kept (check_private o i k s).
Proof. unfold check_private. checking. Qed.
Hint Resolve kept_private : checking.
Lemma kept_documented i s : kept (check_documented o limited_doc_checks i s).
Proof. unfold check_documented. checking. Qed.
Lemma kept_prototype i s : kept (check_prototype o i s).
Proof using stream_p0. unfold check_prototype. checking. Qed.
Hint Resolve kept_documented kept_prototype : checking.
Lemma kept_lvalue i : kept (check_lvalue o limited_doc_checks i).
Proof using stream_p0. unfold check_lvalue. checking. Qed.
Lemma kept_edits i e : ∀ ps ds, kept (report_edits o i e ps ds).
Proof.
  induction e as [|op e IH]; intros ps ds; cbn [report_edits]; [checking|]. destruct (op =s "I"); [destruct ps; [checking|]|destruct (op =s "D"); [destruct ds; [checking|]|]].
  - apply kept_bind; [checking|done].
  - apply kept_bind; [checking|done].
  - destruct ps; [checking|]. destruct ds; [checking|]. apply kept_bind; [checking|done].
Qed.
Lemma kept_compare_parameters d ps : kept (lift (CompareParameters d ps)).
Proof. apply kept_lift. intros e E. destruct (CompareParameters_spec d ps) as [x E']. congruence. Qed.
Hint Resolve kept_lvalue kept_edits kept_compare_parameters : checking.
Lemma kept_end_parameters i : kept (check_end_parameters o i).
Proof. unfold check_end_parameters. checking. Qed.
Lemma kept_string_text i b : kept (check_string_text o i b).
Proof. unfold check_string_text. checking. Qed.
Lemma kept_comment i b : kept (check_comment o i b).
Proof. unfold check_comment. checking. Qed.
Lemma kept_indentation i : kept (check_indentation o i).
Proof using stream_p0.
  unfold check_indentation. apply kept_bind; [by apply on_rules_kept, CheckToken_kept|]. intros es. apply kept_for_each. intros e. checking.
Qed.
Hint Resolve kept_end_parameters kept_string_text kept_comment kept_indentation : checking.
Lemma kept_type i ty a b : kept (check_type o limited_doc_checks StripTags i ty a b).
Proof using stream_p0. unfold check_type. checking. Qed.
Lemma kept_type_again i ty b : kept (check_type_again o limited_doc_checks i ty b).
Proof using stream_p0. unfold check_type_again. checking. Qed.
Hint Resolve kept_type kept_type_again : checking.

(** ** The rules of JavaScript *)

Lemma kept_record i : kept (ContainsRecordType i).
Proof. unfold ContainsRecordType. checking. Qed.
Lemma kept_js_flag i : kept (js_flag o i).
Proof. unfold js_flag. checking. Qed.
Lemma kept_quote_free fuel : ∀ x, ahead (heap p0) x < fuel → kept (quote_free fuel x).
Proof using stream_p0.
  induction fuel as [|fuel IH]; intros x Hf; [lia|]. cbn [quote_free]. destruct x as [i|]; [|apply (kept_throw AttributeError); by apply check_exn_dec].
  change (kept (t ← wtok i; if bool_decide (type t = STRING_TEXT) then if str_mem quote (string_ t) then mret false else quote_free fuel (next t) else mret true)).
  apply wtok_bind. intros t Ht. assert (H := ahead_next _ stream_p0 i t Ht). destruct (bool_decide _); [|checking]. destruct (str_mem _ _); [checking|]. apply IH. lia.
Qed.
Lemma kept_js_double_quote i : kept (js_double_quote o i).
Proof using stream_p0.
  unfold js_double_quote. apply wtok_bind. intros t _. apply rounds_bind. apply kept_bind; [apply kept_quote_free, rounds_ahead|]. intros b. checking.
Qed.
Lemma kept_comment_block fuel : ∀ i, behind (heap p0) (Some i) < fuel → kept (comment_block fuel i).
Proof using stream_p0.
  induction fuel as [|fuel IH]; intros i Hf; [lia|]. cbn [comment_block]. apply wtok_bind. intros t Ht. assert (H := behind_previous _ stream_p0 i t Ht).
  destruct (previous t) as [p|]; [|checking]. apply wtok_bind. intros u _. destruct (IsComment u); [|checking]. apply IH. lia.
Qed.
Lemma kept_blank_lines fuel : ∀ x n, behind (heap p0) x < fuel → kept (blank_lines fuel x n).
Proof using stream_p0.
  induction fuel as [|fuel IH]; intros x n Hf; [lia|]. cbn [blank_lines]. destruct x as [i|]; [|checking]. apply wtok_bind. intros t Ht.
  assert (H := behind_previous _ stream_p0 i t Ht). destruct (bool_decide _); [apply IH; lia|]. destruct (bool_decide _); [apply IH; lia|checking].
Qed.
Lemma kept_js_end_doc_comment i : kept (js_end_doc_comment o is_html i).
Proof using stream_p0.
  unfold js_end_doc_comment. apply kept_bind; [checking|intros top]. apply kept_bind; [checking|intros block]. destruct (_ && _); [|checking].
  do 3 (apply kept_bind; [checking|intros ?]). cbv zeta. apply wtok_bind. intros t _. apply kept_bind; [checking|intros go]. destruct go; [|checking]. apply rounds_bind.
  apply kept_bind; [destruct (HasFlag _ _); [checking|apply kept_comment_block, rounds_behind]|]. intros s. apply wtok_bind. intros u _.
  apply kept_bind; [apply kept_blank_lines, rounds_behind|]. intros n. destruct (blank_line_error _ _ _) as [[msg k]|]; checking.
Qed.
Lemma kept_return i f : kept (check_return o i f).
Proof. unfold check_return. checking. Qed.
Lemma kept_this f : kept (check_this o f).
Proof. unfold check_this. checking. Qed.
Hint Resolve kept_return kept_this : checking.
Lemma kept_js_end_block i : kept (js_end_block o limited_doc_checks i).
Proof. unfold js_end_block. checking. Qed.
Lemma kept_extra_lines fuel : ∀ x i, ahead (heap p0) x < fuel → kept (extra_lines o fuel x i).
Proof using stream_p0.
  induction fuel as [|fuel IH]; intros x i Hf; [lia|]. cbn [extra_lines]. destruct (bool_decide _); [checking|].
  destruct x as [j|]; [|apply (kept_throw AttributeError); by apply check_exn_dec].
  change (kept (t ← wtok j; when (bool_decide (type t = BLANK_LINE)) (report o EXTRA_LINE "Extra line between constructor and goog.inherits" j);;
    t ← wtok j; extra_lines o fuel (next t) i)).
  apply wtok_bind. intros t Ht. apply kept_bind; [checking|]. intros _. apply wtok_bind. intros u Hu. apply IH. assert (H := ahead_next _ stream_p0 j u Hu). lia.
Qed.
Lemma kept_js_identifier i : kept (js_identifier o i).
Proof using stream_p0.
  unfold js_identifier. apply wtok_bind. intros t _. apply kept_bind; [checking|]. intros b. destruct (_ && _); [|checking].
  do 4 (apply kept_bind; [checking|intros ?]). apply rounds_bind, kept_extra_lines, rounds_ahead.
Qed.
Lemma kept_js_operator i b : kept (js_operator o i b).
Proof. unfold js_operator. checking. Qed.
Lemma kept_js_whitespace i a b : kept (js_whitespace o i a b).
Proof. unfold js_whitespace. checking. Qed.
Hint Resolve kept_record kept_js_flag kept_js_double_quote kept_js_end_doc_comment kept_js_end_block kept_js_identifier kept_js_operator kept_js_whitespace : checking.
Lemma kept_the_tokens l : kept (the_tokens l).
Proof. induction l as [|x l IH]; cbn [the_tokens]; [checking|]. apply kept_bind; [checking|]. intros i. apply kept_bind; [done|]. intros l'. checking. Qed.
Lemma kept_texts_of l : kept (texts_of l).
Proof. induction l as [|x l IH]; cbn [texts_of]; [checking|]. apply wtok_bind. intros i _. apply kept_bind; [done|]. intros l'. checking. Qed.
Lemma kept_check_sorted c s l l' : c ≠ MISSING_SEMICOLON → kept (check_sorted o c s l l').
Proof. intros Hc. unfold check_sorted. case_match; [by apply kept_report_with|checking]. Qed.
Lemma kept_report_names c s s' x : c ≠ MISSING_SEMICOLON → kept (report_names o c s s' x).
Proof. intros Hc. unfold report_names. case_match; [checking|]. apply kept_bind; [checking|]. intros f. by apply kept_report_with. Qed.
Hint Resolve kept_the_tokens kept_texts_of : checking.
Hint Extern 1 (keeps _ _ _ (check_sorted _ _ _ _ _)) => apply kept_check_sorted; discriminate : checking.
Hint Extern 1 (keeps _ _ _ (report_names _ _ _ _ _)) => apply kept_report_names; discriminate : checking.
Lemma kept_namespaces l l' : kept (check_namespaces o l l').
Proof. unfold check_namespaces. checking. Qed.
Lemma kept_stack_end : kept (attempt (on_rules Finalize)).
Proof.
  intros w r w' Hw. unfold attempt, on_rules, Finalize. rewrite st_bind. unfold gets. cbv beta iota. destruct (stack (rules w)) as [|k st] eqn:E.
  - intros [= <- <-]. split_and!; [by destruct Hw as [[] ?]|by apply kept_same|done].
  - intros [= <- <-]. split_and!; [|by apply kept_same|done]. destruct Hw as [Hw Hr]. split; [|done]. apply with_stack_ok; [done|]. by intros j ?%elem_of_nil.
Qed.
Hint Resolve kept_namespaces kept_stack_end : checking.
Lemma kept_base_Finalize m : kept (base_Finalize o m).
Proof. unfold base_Finalize. checking. Qed.
Hint Resolve kept_base_Finalize : checking.
Lemma kept_rules_Finalize m : kept (rules_Finalize o m).
Proof. unfold rules_Finalize. checking. Qed.

(** ** The semicolons *)

(** A token whose metadata implies a semicolon, but for the tags. *)
Definition implied (i : nat) : bool :=
  match heap p0 !! i with Some t => match metadata t with Some m => is_implied_semicolon m | None => false end && negb (bool_decide (type t = DOC_FLAG)) | None => false end.
(** From [w], the computation reports missing semicolons about [l] when it succeeds. *)
Definition outcome (l : list nat) {A} (m : W A) (w : World) : Prop :=
  ∀ r w', m w = (r, w') → w_ok w' ∧ (∀ e, r = Err e → check_exn e) ∧ ∃ l', told l' w w' ∧ ∀ a, r = Ok a → l' = l.
Lemma kept_outcome {A} (m : W A) w : kept m → w_ok w → outcome [] m w.
Proof. intros Hm Hw r w' E. destruct (Hm _ _ _ Hw E) as (? & ? & ?). split_and!; [done|done|]. by exists []. Qed.
Lemma outcome_bind l l' {A B} (m : W A) (f : A → W B) w :
  outcome l m w → (∀ a w1, m w = (Ok a, w1) → w_ok w1 → outcome l' (f a) w1) → outcome (l ++ l') (x ← m; f x) w.
Proof.
  intros Hm Hf r w'. rewrite st_bind. destruct (m w) as [[a|e] w1] eqn:E; destruct (Hm _ _ E) as (Hw1 & He & l1 & T1 & Hl1).
  - intros Hr. destruct (Hf a w1 eq_refl Hw1 _ _ Hr) as (Hw' & He' & l2 & T2 & Hl2). split_and!; [done|done|]. exists (l1 ++ l2). split; [by eapply told_app|].
    intros b Hb. by rewrite (Hl1 a eq_refl), (Hl2 b Hb).
  - intros [= <- <-]. split_and!; [done| |]; [intros e' [= <-]; by apply He|]. by exists l1.
Qed.
(** First a part that reports none. *)
Lemma outcome_after l {A B} (m : W A) (f : A → W B) w : kept m → w_ok w → (∀ a w1, m w = (Ok a, w1) → w_ok w1 → outcome l (f a) w1) → outcome l (x ← m; f x) w.
Proof. intros Hm Hw Hf. apply (outcome_bind [] l); [by apply kept_outcome|done]. Qed.
Lemma outcome_before l {A B} (m : W A) (f : A → W B) w : outcome l m w → (∀ a, kept (f a)) → outcome l (x ← m; f x) w.
Proof. intros Hm Hf. rewrite <-(app_nil_r l). apply outcome_bind; [done|]. intros a w1 _ Hw1. by apply kept_outcome. Qed.
Lemma missing_semicolon_outcome i t m w : heap p0 !! i = Some t → metadata t = Some m → w_ok w →
  outcome (if implied i then [i] else []) (m ← wmeta i; when (is_implied_semicolon m) (report o MISSING_SEMICOLON "Missing semicolon at end of line" i)) w.
Proof.
  intros Ht Hm Hw. assert (Hi : implied i = is_implied_semicolon m && negb (bool_decide (type t = DOC_FLAG))) by (unfold implied; by rewrite Ht, Hm).
  apply outcome_after; [checking|done|]. intros m' w1 E Hw1. unfold wmeta in E. destruct (in_tokens_at (get_meta i) w Hw (reads_get_meta _ i)) as [E1 _].
  rewrite E1, (get_meta_run _ _ _ _ Ht Hm) in E. injection E as <- <-. rewrite Hi. destruct (is_implied_semicolon m); [|by apply kept_outcome; [apply kept_ret|]].
  cbn [when andb]. intros r w' E. change (report o MISSING_SEMICOLON _ i) with (report_with o MISSING_SEMICOLON "Missing semicolon at end of line" (Some i) None NoData) in E.
  unfold report_with in E. assert (Hsr : ShouldReportError (jsdoc o) MISSING_SEMICOLON = true) by (unfold ShouldReportError; by destruct (jsdoc o)). rewrite Hsr in E.
  destruct (checker_error_run MISSING_SEMICOLON "Missing semicolon at end of line" (Some i) None NoData w Hw) as (r1 & w2 & E2 & Hw2 & Hh & Hr).
  rewrite E in E2. injection E2 as <- <-. split; [done|]. destruct r as [[]|e].
  - destruct Hr as (e & Hl & Hc & He & Ha). split; [done|]. eexists. split; [exists [e]; split_and!; [done|by constructor|reflexivity|done]|]. intros _ _.
    unfold semicolons. cbn. rewrite bool_decide_true, He by done. cbn. unfold is_tag. rewrite Ht. cbn.
    destruct (decide (type t = DOC_FLAG)) as [Htag|Htag]; [by rewrite !bool_decide_true by congruence|by rewrite !bool_decide_false by congruence].
  - destruct Hr as [He Hl]. split; [by intros ? [= <-]|]. exists []. split; [|done]. exists []. by split_and!.
Qed.
Lemma base_CheckToken_outcome i t m w : heap p0 !! i = Some t → metadata t = Some m → w_ok w →
  outcome (if implied i then [i] else []) (base_CheckToken o limited_doc_checks is_html StripTags i) w.
Proof using stream_p0.
  intros Ht Hm Hw. unfold base_CheckToken. cbv zeta.
  do 8 (apply outcome_after; [checking|assumption|intros ? ? _ ?]). by eapply missing_semicolon_outcome.
Qed.
Lemma rules_CheckToken_outcome i t m w : heap p0 !! i = Some t → metadata t = Some m → w_ok w →
  outcome (if implied i then [i] else []) (rules_CheckToken o limited_doc_checks is_html StripTags i) w.
Proof using stream_p0.
  intros Ht Hm Hw. unfold rules_CheckToken. apply outcome_after; [checking|done|]. intros b w1 E Hw1. destruct b.
  - assert (Htag : type t = DOC_FLAG).
    { unfold ContainsRecordType in E. apply st_bind_Ok in E as (t' & w2 & E1 & E). unfold wtok in E1. destruct (in_tokens_at (get i) w Hw (reads_get _ i)) as [E2 _].
      rewrite E2, (get_run _ _ _ Ht) in E1. injection E1 as <- <-. destruct (bool_decide (type t = DOC_FLAG)) eqn:Eb; [by apply bool_decide_eq_true in Eb|done]. }
    assert (Hi : implied i = false) by (unfold implied; rewrite Ht, Hm, bool_decide_true by done; apply andb_false_r). rewrite Hi. apply kept_outcome; [checking|done].
  - apply outcome_before; [by eapply base_CheckToken_outcome|]. intros _. checking.
Qed.

(** ** A file *)

(** The end of a file: what is done then is also what is left. *)
Definition finished (x : D) (b : bool) (r : res bool) (w' : World) : Prop := r = then_ (finish (heap p0) x).1 b ∧ handler w' = (finish (heap p0) x).2.
(** What is told when the check of a file breaks off at a token. *)
Definition broken_off (w : World) (r : res bool) (w' : World) : Prop :=
  ∃ es e, finished (notes (handler w) (es ++ [e])) false r w' ∧ code e = FILE_DOES_NOT_PARSE ∧ Forall about_token (es ++ [e]) ∧ has_errors w' = true.
(** A rule raises one of five exceptions. *)
Definition raised (w : World) (r : res bool) (w' : World) : Prop := ∃ e l, r = Err e ∧ check_exn e ∧ told l w w'.
Lemma finish_run b w r w' : w_ok w → (tell finish_file;; mret b) w = (r, w') → finished (handler w) b r w' ∧ has_errors w' = has_errors w.
Proof.
  intros [Hp N]. rewrite st_bind. unfold tell. destruct (passive_finish (heap (pass (rules w))) (attached_flags w) (handler w) N) as [-> _].
  unfold finished. rewrite (ro_pass _ _ Hp). by destruct (finish _ _) as [[[]|e] x]; intros [= <- <-].
Qed.
Lemma does_not_parse_run i l0 w0 w r w' : told l0 w0 w → w_ok w → does_not_parse i w = (r, w') → raised w0 r w' ∨ broken_off w0 r w'.
Proof.
  intros T0 Hw. unfold does_not_parse. rewrite st_bind. destruct (wtok i w) as [[t|e] w1] eqn:E; destruct (kept_wtok i w _ _ Hw E) as (Hw1 & T1 & He); assert (T := told_app _ _ _ _ _ T0 T1).
  - rewrite st_bind. destruct (checker_error_run FILE_DOES_NOT_PARSE ("Error parsing file at token " +:+ quoted (string_ t) +:+ ". Unable to check the rest of file.") (Some i) None NoData w1 Hw1)
      as (r1 & w2 & E2 & Hw2 & Hh & Hr). rewrite E2. destruct T as (es & E0 & F0 & _ & H0). destruct r1 as [[]|e].
    + destruct Hr as (e & Hl & Hc & _ & Ha). intros Hf. apply finish_run in Hf as [Hf He']; [|done]. right. exists es, e. split_and!; [|done|by apply Forall_app; split; [|constructor]|congruence].
      by rewrite notes_app, <-E0; cbn; rewrite <-Hl.
    + destruct Hr as [Hce Hl]. intros [= <- <-]. left. eexists e, _. split_and!; [done|done|]. exists es. split_and!; [by rewrite Hl|done|reflexivity|done].
  - intros [= <- <-]. left. exists e. eexists. split_and!; [done|by apply He|exact T].
Qed.
Lemma kept_attempt {A} (m : W A) : kept m → ∀ w r w', w_ok w → attempt m w = (r, w') → ∃ a, r = Ok a ∧ w_ok w' ∧ told [] w w' ∧ ∀ e, a = Err e → check_exn e.
Proof.
  intros Hm w r w' Hw. unfold attempt. destruct (m w) as [a w1] eqn:E. intros [= <- <-]. destruct (Hm _ _ _ Hw E) as (? & ? & ?). by exists a.
Qed.
Lemma coded_meta h c l i : coded h c l → i ∈ l → ∃ t m, h !! i = Some t ∧ metadata t = Some m.
Proof.
  revert c. induction l as [|j l IH]; intros c; [by intros _ ?%elem_of_nil|]. intros (t & m & Ht & Hm & _ & Hc) [-> | Hi]%elem_of_cons; [by exists t, m|by eapply IH].
Qed.
(** Every token in turn. *)
Lemma check_loop_spec l : ∀ pre fuel w0 w r w', seq 0 (length (heap p0)) = pre ++ l → length l < fuel → w_ok w → told (List.filter implied pre) w0 w →
  check_loop o StripTags limited_doc_checks is_html fuel None (hd_or l None) w = (r, w') →
  raised w0 r w' ∨ broken_off w0 r w' ∨ (r = Ok true ∧ w_ok w' ∧ told (List.filter implied (seq 0 (length (heap p0)))) w0 w').
Proof using stream_p0.
  induction l as [|i l IH]; intros pre fuel w0 w r w' Hseq Hf Hw T; (destruct fuel as [|fuel]; [cbn in Hf; lia|]); cbn [check_loop hd_or].
  { intros [= <- <-]. right. right. split_and!; [done|done|]. by rewrite Hseq, app_nil_r. }
  destruct (stream_p0) as [_ Hs Hc _]. rewrite Hseq in Hs, Hc. apply seg_app in Hs as [_ (t & Ht & _ & Hn & _)].
  destruct (coded_meta _ _ _ i Hc ltac:(set_solver)) as (t' & m & Ht' & Hm). assert (t' = t) as -> by congruence. clear Ht' Hc.
  rewrite bool_decide_false, st_bind by done. destruct (attempt (HandleToken (closurized_namespaces o) i) w) as [r1 w1] eqn:E.
  apply (kept_attempt _ (kept_HandleToken _ _)) in E as (a & -> & Hw1 & T1 & He); [|done]. assert (T01 := told_app _ _ _ _ _ T T1). rewrite app_nil_r in T01.
  destruct a as [[]|e].
  - rewrite st_bind. destruct (rules_CheckToken _ _ _ _ i w1) as [[[]|e] w2] eqn:E2; destruct (rules_CheckToken_outcome i t m w1 Ht Hm Hw1 _ _ E2) as (Hw2 & He2 & l2 & T2 & Hl2).
    + rewrite (Hl2 tt eq_refl) in T2. assert (T02 := told_app _ _ _ _ _ T01 T2). rewrite st_bind.
      destruct (HandleAfterToken i w2) as [[[]|e] w3] eqn:E3; destruct (kept_HandleAfterToken i w2 _ _ Hw2 E3) as (Hw3 & T3 & He3); assert (T03 := told_app _ _ _ _ _ T02 T3); rewrite app_nil_r in T03.
      * rewrite st_bind. unfold wtok. destruct (in_tokens_at (get i) w3 Hw3 (reads_get _ i)) as [-> _]. rewrite (get_run _ _ _ Ht). cbn [fst]. rewrite Hn. intros Hr.
        apply (IH (pre ++ [i]) fuel w0 w3 r w'); [by rewrite <-app_assoc|cbn in Hf; lia|done| |done]. rewrite List.filter_app. cbn [List.filter]. by destruct (implied i).
      * intros [= <- <-]. left. exists e. eexists. split_and!; [done|by apply He3|exact T03].
    + intros [= <- <-]. left. exists e. eexists. split_and!; [done|by apply He2|by eapply told_app].
  - specialize (He e eq_refl). intros Hr. assert (Hne : e ≠ OutOfFuel) by (intros ->; unfold check_exn in He; by vm_compute in He; set_solver).
    assert (Hr' : (if error_trace o then throw e else does_not_parse i) w1 = (r, w')) by (by destruct e). destruct (error_trace o).
    + injection Hr' as <- <-. left. exists e. eexists. by split_and!.
    + apply (does_not_parse_run i _ w0) with (1 := T01) in Hr'; [|done]. destruct Hr'; auto.
Qed.
End Check.

(** What a handler has been told when the check of a file ends. *)
Definition file_checked {H} `{PassiveHandler H} (p : Pass) (x : H) (es : list LintError) (r : res bool) (x' : H) : Prop :=
  (∃ e, r = Err e ∧ check_exn e ∧ x' = notes x es) ∨
  ∃ b, r = then_ (finish (heap p) (notes x es)).1 b ∧ x' = (finish (heap p) (notes x es)).2 ∧
    if (b : bool) then semicolons p es = List.filter (implied p) (seq 0 (length (heap p))) else ∃ es' e, es = es' ++ [e] ∧ code e = FILE_DOES_NOT_PARSE.
Lemma check_file_spec {H} `{PassiveHandler H} p o StripTags fuel limited_doc_checks is_html filename mode (w : World H) r w' :
  stream (heap p) (seq 0 (length (heap p))) → length (heap p) < fuel → rules_ok p (rules w) → idle (handler w) →
  check_file o StripTags fuel limited_doc_checks is_html filename (hd_or (seq 0 (length (heap p))) None) None mode w = (r, w') →
  ∃ es, file_checked p (start filename (hd_or (seq 0 (length (heap p))) None) (handler w)) es r (handler w') ∧ Forall (about_token p) es ∧ (es ≠ [] → has_errors w' = true).
Proof.
  intros Hst Hf Hw Hidle. unfold check_file. rewrite st_bind. set (first := hd_or _ None). destruct (tell (handle_file filename first) w) as [r0 w0] eqn:E0.
  assert (H0' : r0 = Ok tt ∧ w_ok p w0 ∧ handler w0 = start filename first (handler w)).
  { unfold tell in E0. destruct (passive_file filename first (heap (pass (rules w))) (attached_flags w) (handler w) Hidle) as [E Hr]. rewrite E in E0.
    injection E0 as <- <-. unfold w_ok. cbn. rewrite same_rules. by split_and!. }
  destruct H0' as (-> & Hw0 & <-). rewrite st_bind. destruct (check_loop _ _ _ _ _ _ _ w0) as [r1 w1] eqn:E1.
  assert (HL := check_loop_spec p Hst o limited_doc_checks is_html StripTags (seq 0 (length (heap p))) [] fuel w0 w0 r1 w1 eq_refl ltac:(by rewrite length_seq) Hw0 ltac:(by apply kept_same) E1).
  destruct HL as [(e & l & -> & He & es & El & Fe & _ & Hh)|[(es & e & [-> El] & Hc & Fe & Hh)|(-> & Hw1 & T1)]].
  - intros [= <- <-]. exists es. split_and!; [|done|intros ?; apply Hh; by left]. left. by exists e.
  - intros E. exists (es ++ [e]). assert (Hrest : r = then_ (finish (heap p) (notes (handler w0) (es ++ [e]))).1 false ∧ w' = w1) by (destruct (finish _ _) as [[[]|?] ?]; by injection E as <- <-).
    destruct Hrest as [-> ->]. split_and!; [|done|done]. right. exists false. split_and!; [done|done|by exists es, e].
  - rewrite st_bind. destruct (rules_Finalize o mode w1) as [[[]|e] w2] eqn:E2; destruct (kept_rules_Finalize p Hst o mode w1 _ _ Hw1 E2) as (Hw2 & T2 & He2);
      assert (T := told_app _ _ _ _ _ _ T1 T2); rewrite app_nil_r in T; destruct T as (es & El & Fe & Se & Hh).
    + intros Hr. apply (finish_run p) in Hr as [[-> Ex] Hh']; [|done]. rewrite El in Ex |- *. exists es. split_and!; [|done|intros ?; rewrite Hh'; apply Hh; by left]. right. exists true. by split_and!.
    + intros [= <- <-]. exists es. split_and!; [|done|intros ?; apply Hh; by left]. left. exists e. split_and!; [done|by apply He2|done].
Qed.
(** The whole check, from the text. *)
Lemma CheckLines_spec {H} `{PassiveHandler H} o StripTags fuel filename file is_html had (x : H) p : analyse file = Ok (Ok tt, p) → length (heap p) < fuel → idle x →
  ∃ r es had' x', CheckLines o StripTags fuel filename file is_html (had, x) = (r, (had', x')) ∧
    file_checked p (start filename (hd_or (seq 0 (length (heap p))) None) x) es r x' ∧ Forall (about_token p) es ∧ (es ≠ [] → had' = true).
Proof.
  intros Ha Hf Hx. assert (Hst := analysed_stream _ _ Ha). unfold CheckLines. destruct (tokenize_js_spec true file) as (s & E & _ & _ & _ & Hseg & _).
  unfold analyse in Ha. rewrite E in Ha |- *. cbn [mbind res_bind] in Ha. assert (Hp : Process (hd_or (seq 0 (length (toks s))) None) (Reset (toks s)) = (Ok tt, p)) by congruence. clear Ha.
  assert (Hlen : length (heap p) = length (toks s)) by (apply same_length; exact (proj1 (Process_spec _ _ _ _ Hseg (NoDup_seq 0 _) Hp))).
  rewrite Hp. unfold of_world. rewrite <-Hlen. set (w := world p (had, x)).
  destruct (check_file o StripTags fuel (limited o filename) is_html filename (hd_or (seq 0 (length (heap p))) None) None (mode s) w) as [r w'] eqn:EC.
  destruct (check_file_spec p o StripTags fuel (limited o filename) is_html filename (mode s) w r w' Hst Hf) as (es & HC); [by apply new_Rules_ok|done|exact EC|].
  by exists r, es, (has_errors w'), (handler w').
Qed.

(** C27: The check of a file that the metadata pass has gone through ends, whatever the tokens
    and the options are, within as many rounds as there are tokens.  The handler is told of
    the file first, then of errors, which are about tokens of the file, and last that the file
    is finished, exactly once, unless a rule raises one of five exceptions, which nothing
    catches.  When the check gets to the end of the file, missing semicolons were reported for
    exactly the tokens whose metadata implies one, in their order; when it breaks off,
    the last error says that the file does not parse. *)
Theorem CheckLines_correct o StripTags fuel filename file is_html had p : analyse file = Ok (Ok tt, p) → length (heap p) < fuel →
  ∃ r es had', CheckLines o StripTags fuel filename file is_html (had, []) =
      (r, (had', FileStarted filename (hd_or (seq 0 (length (heap p))) None) :: (Reported <$> es) ++ (if is_ok r then [FileFinished] else []))) ∧
    (∀ e, r = Err e → check_exn e) ∧ Forall (about_token p) es ∧ (es ≠ [] → had' = true) ∧
    (r = Ok true → semicolons p es = List.filter (implied p) (seq 0 (length (heap p)))) ∧
    (r = Ok false → ∃ es' e, es = es' ++ [e] ∧ code e = FILE_DOES_NOT_PARSE).
Proof.
  intros Ha Hf. destruct (@CheckLines_spec (list Event) _ passive_log o StripTags fuel filename file is_html had [] p Ha Hf I) as (r & es & had' & x' & E & HC & Fe & Hh). exists r, es, had'. rewrite E.
  assert (Hn : ∀ l, notes l es = l ++ (Reported <$> es)).
  { clear. induction es as [|e es IH]; intros l; [by rewrite app_nil_r|]. change (notes (l ++ [Reported e]) es = l ++ Reported e :: (Reported <$> es)). by rewrite IH, <-app_assoc. }
  unfold file_checked in HC. rewrite Hn in HC. destruct HC as [(e & -> & He & ->)|(b & -> & -> & Hb)]; cbn; [rewrite app_nil_r|]; split_and!; try done; try (destruct b; naive_solver).
  - by intros ? [= <-].
Qed.

(** ** Examples *)

Definition lint (file : list string) : res bool * list (ErrorCode * option nat) :=
  let '(r, (_, l)) := CheckLines default_options id 1000 "a.js" file false (false, []) in
  (r, omap (λ e, match e with Reported e => Some (code e, err_token e) | _ => None end) l).
Definition small_file : list string := ["var a = 1"; "f( a);"].
Definition small_pass : Pass := match analyse small_file with Ok (_, p) => p | Err _ => Reset [] end.
Lemma small_analysed : analyse small_file = Ok (Ok tt, small_pass).
Proof. by vm_compute. Qed.
Lemma CheckLines_correct_witness : ∃ es had', CheckLines default_options id 100 "a.js" small_file false (false, []) =
    (Ok true, (had', FileStarted "a.js" (Some 0) :: (Reported <$> es) ++ [FileFinished])) ∧
  semicolons small_pass es = [6] ∧ Forall (about_token small_pass) es.
Proof.
  assert (Hf : length (heap small_pass) < 100) by (apply Nat.ltb_lt; by vm_compute).
  destruct (CheckLines_correct default_options id 100 "a.js" small_file false false small_pass small_analysed Hf) as (r & es & had' & E & _ & Fe & _ & Hs & _).
  assert (Hr : r = Ok true) by (change r with (r, (had', FileStarted "a.js" (hd_or (seq 0 (length (heap small_pass))) None) :: (Reported <$> es) ++ (if is_ok r then [FileFinished] else []))).1; rewrite <-E; by vm_compute).
  subst r. exists es, had'. split_and!; [exact E| |done]. rewrite (Hs eq_refl). by vm_compute.
Defined.
(** A file that ends with a name, or with return, is reported as one that does not parse: the
    tracker looks for the token after it. *)
Example name_at_end : lint ["f();"; "foo"] = (Ok false, [(FILE_DOES_NOT_PARSE, Some 4)]).
Proof. by vm_compute. Qed.
(** The space that is missing before an operator that starts a line is put at the end of the line
    before, where no space may be: the rule does not ask whether the token before is in the same
    line. *)
Example space_on_the_line_before : (fixed ["x = a ? b"; ": c;"]).2 = [("a.js", ("x = a ? b " +:+ nl_str +:+ ": c;" +:+ nl_str, []))].
Proof. by vm_compute. Qed.
(** The fixer at work: tokens are inserted, deleted and changed while they are checked. *)
Example fixed_file : (fixed ["var a = function() {"; "if (b) {c( d,e )};"; "}"]).2 =
  [("a.js", ("var a = function() {" +:+ nl_str +:+ "  if (b) {c(d, e)}" +:+ nl_str +:+ "};" +:+ nl_str, []))].
Proof. by vm_compute. Qed.
