(* ===== verification/ClFlags.v ===== *)
(** * Flags of the command line (tools/closure_linter: gflags.py)

    The registry of flags, the files of flags, the command line, and flags written as text. *)
From stdpp Require Import gmap.
From S2P Require Import Prelude PyStr PyState ClErrors ClRules ClJsRules.

(** ** Flags *)

(** What a flag, a default and an argument can be; [Bool true] is also the number 1. *)
Inductive Value := NoValue | Bool (b : bool) | Text (s : string) | Texts (l : list string).
#[export] Instance Value_eq_dec : EqDecision Value.
Proof. solve_decision. Defined.
(** The classes of flags with their parsers and serializers, as far as the programs define such. *)
Inductive Kind := BooleanFlag | HelpFlag | StringFlag | ListFlag | MultiStringFlag.
#[export] Instance Kind_eq_dec : EqDecision Kind.
Proof. solve_decision. Defined.
Record Flag := mkFlag {
  flag_name : string; short_name : option string; kind : Kind; allow_override : bool; default_value : Value; flag_value : Value; present : nat }.
Definition boolean (f : Flag) : bool := match kind f with BooleanFlag | HelpFlag => true | _ => false end.
Definition with_value (f : Flag) (v : Value) (n : nat) : Flag := mkFlag (flag_name f) (short_name f) (kind f) (allow_override f) (default_value f) v n.
(** [if arg] *)
Definition true_value (v : Value) : bool :=
  match v with NoValue => false | Bool b => b | Text s => negb (s =s "") | Texts l => negb (bool_decide (l = [])) end.
(** [BooleanParser.Convert]: a string is no boolean, but for these. *)
Definition Convert (v : Value) : res bool :=
  match v with
  | Bool b => Ok b
  | Text s => if bool_decide (lower s ∈ ["true"; "t"; "1"]) then Ok true else if bool_decide (lower s ∈ ["false"; "f"; "0"]) then Ok false else Err ValueError
  | _ => Err ValueError
  end.
(** [ListParser.Parse] *)
Definition parse_list (v : Value) : res Value :=
  match v with
  | Texts l => Ok (Texts l)
  | Text s => Ok (Texts (if s =s "" then [] else strip <$> split_on "," s))
  | _ => Err AttributeError
  end.
(** [self.parser.Parse] *)
Definition parser (k : Kind) (v : Value) : res Value :=
  match k with
  | BooleanFlag | HelpFlag => b ← Convert v; Ok (Bool b)
  | ListFlag => parse_list v
  | StringFlag | MultiStringFlag => Ok v
  end.
(** [Flag.Parse] *)
Definition base_Parse (f : Flag) (v : Value) : res Flag :=
  match parser (kind f) v with
  | Ok x => Ok (with_value f x (S (present f)))
  | Err ValueError => Err IllegalFlagValue
  | Err e => Err e
  end.
(** [MultiFlag.Parse]: the arguments after those that are there; only strings are given to it. *)
Fixpoint parse_items (f : Flag) (values : list string) (items : list string) : Flag :=
  match items with
  | [] => with_value f (Texts values) (present f)
  | s :: items' => parse_items (with_value f (Text s) (S (present f))) (values ++ [s]) items'
  end.
Definition multi_Parse (f : Flag) (v : Value) : res Flag :=
  items ← match v with Texts l => Ok l | Text s => Ok [s] | _ => Err TypeError end;
  values ← (if present f =? 0 then Ok [] else match flag_value f with Texts l => Ok l | _ => Err AttributeError end);
  Ok (parse_items f values items).
(** The help is printed for every argument that is not empty, and ends the program. *)
Definition Parse (f : Flag) (v : Value) : res Flag :=
  match kind f with
  | HelpFlag => if true_value v then Err (SystemExit 1) else Ok f
  | MultiStringFlag => multi_Parse f v
  | _ => base_Parse f v
  end.
Definition Unparse (f : Flag) : res Flag :=
  f ← (if decide (default_value f = NoValue) then Ok (with_value f NoValue (present f)) else Parse f (default_value f));
  Ok (with_value f (flag_value f) 0).
(** [Flag.__init__], with [SetDefault]. *)
Definition new_Flag (name : string) (short : option string) (k : Kind) (override : bool) (v : Value) : res Flag :=
  if override && bool_decide (v = NoValue) then Err DuplicateFlagError
  else Unparse (mkFlag name short k override v NoValue 0).
(** [Flag.Serialize], [MultiFlag.Serialize] *)
Definition assignment (f : Flag) (s : string) : string := "--" +:+ flag_name f +:+ "=" +:+ s.
Definition Serialize (f : Flag) : string :=
  match flag_value f with
  | NoValue => ""
  | v =>
      if boolean f then (if true_value v then "--" +:+ flag_name f else "--no" +:+ flag_name f)
      else match kind f, v with
           | MultiStringFlag, Texts l => join " " (assignment f <$> l)
           | _, Texts l => assignment f (join "," l)
           | _, Text s => assignment f s
           | _, _ => assignment f (if true_value v then "True" else "False")
           end
  end.

(** ** The registry *)

(** The flags are objects; a flag is found by its name and by its short name. *)
Record Registry := mkRegistry { flags : list Flag; flag_dict : gmap string nat }.
Definition flag_at (k : nat) : ST Registry Flag :=
  o ← gets (λ r, (flags r !! k : option Flag)); match o with Some f => mret f | None => throw KeyError end.
Definition set_flag (k : nat) (f : Flag) : ST Registry unit := modify (λ r, mkRegistry (<[k := f]> (flags r)) (flag_dict r)).
(** Is there a flag of this name that must not be replaced? *)
Definition duplicate (override : bool) (name : string) : ST Registry bool :=
  o ← gets (λ r, (flag_dict r !! name : option nat));
  match o with Some k => g ← flag_at k; mret (negb override && negb (allow_override g)) | None => mret false end.
(** [DEFINE_flag], with [__setitem__]. *)
Definition DEFINE_flag (f : Flag) : ST Registry unit :=
  (if flag_name f =s "" then throw FlagsError else mret tt);;
  d ← duplicate (allow_override f) (flag_name f);
  (if (d : bool) then throw DuplicateFlagError else mret tt);;
  k ← gets (λ r, length (flags r));
  modify (λ r, mkRegistry (flags r ++ [f]) (flag_dict r));;
  match short_name f with
  | Some s =>
      d ← duplicate (allow_override f) s;
      (if (d : bool) then throw DuplicateFlagError else mret tt);;
      modify (λ r, mkRegistry (flags r) (<[s := k]> (flag_dict r)))
  | None => mret tt
  end;;
  modify (λ r, mkRegistry (flags r) (<[flag_name f := k]> (flag_dict r))).
Definition DEFINE (name : string) (short : option string) (k : Kind) (override : bool) (v : Value) : ST Registry unit :=
  f ← lift (new_Flag name short k override v); DEFINE_flag f.

(** ** Prefixes *)

(** Where [curr] has no more in common with [next], if it does. *)
Fixpoint first_difference (curr : string) (next : option string) : option nat :=
  match curr with
  | EmptyString => None
  | String a c =>
      match next with
      | Some (String b n) => if a =c b then S <$> first_difference c (Some n) else Some 0
      | _ => Some 0
      end
  end.
Fixpoint shortest (prev_idx : nat) (sorted_flags : list string) (matches : gmap string string) : gmap string string :=
  match sorted_flags with
  | [] => matches
  | curr :: rest =>
      match first_difference curr (head rest) with
      | Some i => shortest i rest (<[curr := str_take (S (max prev_idx i)) curr]> matches)
      | None => shortest (String.length curr) rest (<[curr := curr]> matches)
      end
  end.
Definition no_ (name : string) : string := "no" +:+ name.

Section Flags.
(** The order of a dict; files; [os.path.expanduser]. *)
Context (items : gmap string nat → list (string * nat)) (open_file : string → option (list string)) (expanduser : string → string).

(** The names of a registry, with those that are negated. *)
Definition all_names (r : Registry) : list string :=
  items (flag_dict r) ≫= λ '(name, k), name :: match flags r !! k with Some f => if boolean f then [no_ name] else [] | None => [] end.
Definition ShortestUniquePrefixes (r : Registry) : gmap string string := shortest 0 (sort_strings (all_names r)) ∅.

(** ** Files of flags *)

Definition IsFlagFileDirective (s : string) : bool :=
  startswith "--flagfile=" s || (s =s "--flagfile") || startswith "-flagfile=" s || (s =s "-flagfile").
Definition ExtractFilename (s : string) : res string :=
  if startswith "--flagfile=" s then Ok (expanduser (strip (str_drop 11 s)))
  else if startswith "-flagfile=" s then Ok (expanduser (strip (str_drop 10 s)))
  else Err FlagsError.
(** The lines of a file and of the files that it names, each once; what is printed about files
    that can not be opened, and about circles, is left out. *)
Fixpoint GetFlagFileLines (fuel : nat) (filename : string) (parsed_file_list : list string) : res (list string * list string) :=
  match fuel with
  | 0 => Err OutOfFuel
  | S n =>
      match open_file filename with
      | None => Ok ([], parsed_file_list)
      | Some line_list =>
          (fix go (lines parsed flag_lines : list string) : res (list string * list string) :=
             match lines with
             | [] => Ok (flag_lines, parsed)
             | l :: lines' =>
                 if isspace l then go lines' parsed flag_lines
                 else if startswith "#" l || startswith "//" l then go lines' parsed flag_lines
                 else if IsFlagFileDirective l then
                   sub ← ExtractFilename l;
                   if bool_decide (sub ∈ parsed) then go lines' parsed flag_lines
                   else x ← GetFlagFileLines n sub parsed; go lines' x.2 (flag_lines ++ x.1)
                 else go lines' parsed (flag_lines ++ [strip l])
             end) line_list (parsed_file_list ++ [filename]) []
      end
  end.
Fixpoint read_flags (fuel : nat) (rest_of_args parsed new_argv : list string) : res (list string) :=
  match rest_of_args with
  | [] => Ok new_argv
  | current_arg :: rest =>
      if IsFlagFileDirective current_arg then
        if (current_arg =s "--flagfile") || (current_arg =s "-flagfile") then
          match rest with
          | [] => Err IllegalFlagValue
          | f :: rest' => x ← GetFlagFileLines fuel (expanduser f) parsed; read_flags fuel rest' x.2 (x.1 ++ new_argv)
          end
        else f ← ExtractFilename current_arg; x ← GetFlagFileLines fuel f parsed; read_flags fuel rest x.2 (x.1 ++ new_argv)
      else if (current_arg =s "--") || negb (startswith "-" current_arg) then Ok (new_argv ++ current_arg :: rest)
      else read_flags fuel rest parsed (new_argv ++ [current_arg])
  end.
Definition ReadFlagsFromFiles (fuel : nat) (argv : list string) : res (list string) := read_flags fuel argv [] [].

(** ** The command line *)

(** A boolean flag without a value gets one. *)
Definition extend_boolean (name prefix no_prefix arg : string) : string :=
  if contains "=" arg then arg
  else if startswith ("--" +:+ prefix) arg && startswith arg ("--" +:+ name) then "--" +:+ name +:+ "=true"
  else if startswith ("--" +:+ no_prefix) arg && startswith arg ("--" +:+ no_ name) then "--" +:+ name +:+ "=false"
  else arg.
Fixpoint extend_args (r : Registry) (matches : gmap string string) (l : list (string * nat)) (args : list string) : res (list string) :=
  match l with
  | [] => Ok args
  | (name, k) :: l' =>
      match flags r !! k with
      | Some f =>
          if boolean f then
            match matches !! name, matches !! no_ name with
            | Some p, Some q => extend_args r matches l' (extend_boolean name p q <$> args)
            | _, _ => Err KeyError
            end
          else extend_args r matches l' args
      | None => Err KeyError
      end
  end.
(** [getopt.getopt] of the standard library: the option that an error is about, or the options
    with their values, and the rest. *)
Inductive Getopt := GetoptError (opt : string) | Parsed (optlist : list (string * string)) (unparsed_args : list string).
Definition with_opts (l : list (string * string)) (g : Getopt) : Getopt := match g with Parsed l' rest => Parsed (l ++ l') rest | e => e end.
Definition long_has_args (opt : string) (longopts : list string) : option (bool * string) :=
  let possibilities := List.filter (startswith opt) longopts in
  if bool_decide (opt ∈ possibilities) then Some (false, opt)
  else if bool_decide (opt +:+ "=" ∈ possibilities) then Some (true, opt)
  else match possibilities with
       | [m] => if endswith "=" m then Some (true, str_take (String.length m - 1) m) else Some (false, m)
       | _ => None
       end.
(** [short_has_arg]: the letters are followed by a colon when they take an argument. *)
Fixpoint short_has_arg (opt : ascii) (shortopts : string) : option bool :=
  match shortopts with
  | EmptyString => None
  | String c s => if (c =c opt) && negb (c =c ":") then Some (startswith ":" s) else short_has_arg opt s
  end.
Fixpoint do_shorts (shortopts : string) (optstring : string) (rest : list string) : string + (list (string * string) * list string) :=
  match optstring with
  | EmptyString => inr ([], rest)
  | String a s =>
      let o := String a "" in
      match short_has_arg a shortopts with
      | None => inl o
      | Some false => match do_shorts shortopts s rest with inr (l, rest') => inr (("-" +:+ o, "") :: l, rest') | e => e end
      | Some true =>
          if s =s "" then match rest with [] => inl o | v :: rest' => inr ([("-" +:+ o, v)], rest') end
          else inr ([("-" +:+ o, s)], rest)
      end
  end.
Fixpoint getopt (fuel : nat) (args : list string) (shortopts : string) (longopts : list string) : Getopt :=
  match fuel, args with
  | 0, _ | _, [] => Parsed [] args
  | S n, a :: rest =>
      if negb (startswith "-" a) || (a =s "-") then Parsed [] args
      else if a =s "--" then Parsed [] rest
      else if startswith "--" a then
        let a := str_drop 2 a in
        let '(opt, optarg) := match find "=" a with Some i => (str_take i a, Some (str_drop (S i) a)) | None => (a, None) end in
        match long_has_args opt longopts with
        | None => GetoptError opt
        | Some (true, o) =>
            match optarg, rest with
            | Some v, _ => with_opts [("--" +:+ o, v)] (getopt n rest shortopts longopts)
            | None, v :: rest' => with_opts [("--" +:+ o, v)] (getopt n rest' shortopts longopts)
            | None, [] => GetoptError o
            end
        | Some (false, o) =>
            match optarg with
            | Some _ => GetoptError o
            | None => with_opts [("--" +:+ o, "")] (getopt n rest shortopts longopts)
            end
        end
      else
        match do_shorts shortopts (str_drop 1 a) rest with
        | inl o => GetoptError o
        | inr (l, rest') => with_opts l (getopt n rest' shortopts longopts)
        end
  end.
(** The options that are not recognised are taken out one by one. *)
Definition offends (opt arg : string) : bool := (arg =s "--" +:+ opt) || (arg =s "-" +:+ opt) || startswith ("--" +:+ opt +:+ "=") arg.
Fixpoint without_offender (opt : string) (args : list string) : option (list string) :=
  match args with
  | [] => None
  | a :: args' => if offends opt a then Some args' else cons a <$> without_offender opt args'
  end.
Fixpoint recognised (fuel : nat) (fl : gmap string nat) (shortopts : string) (longopts args unrecognized : list string) :
    res (list (string * string) * list string * list string) :=
  match fuel with
  | 0 => Err OutOfFuel
  | S n =>
      match getopt (S (length args)) args shortopts longopts with
      | Parsed optlist unparsed_args => Ok (optlist, unparsed_args, unrecognized)
      | GetoptError opt =>
          if (opt =s "") || bool_decide (is_Some (fl !! opt)) then Err FlagsError
          else match without_offender opt args with
               | Some args' => recognised n fl shortopts longopts args' (unrecognized ++ [opt])
               | None => Err FlagsError
               end
      end
  end.
Definition short_options (r : Registry) (l : list (string * nat)) : string :=
  join "" ((λ '(name, k), if String.length name =? 1 then name +:+ match flags r !! k with Some f => if boolean f then "" else ":" | None => "" end else "") <$> l).
Definition long_options (l : list (string * nat)) : list string := ((λ '(name, _), name +:+ "=") <$> l) ++ ["undefok="].
(** The flags parse their values; the result is what [--undefok] names. *)
Fixpoint parse_opts (optlist : list (string * string)) (undefok_flags : list string) : ST Registry (list string) :=
  match optlist with
  | [] => mret undefok_flags
  | (name, arg) :: optlist' =>
      if name =s "--undefok" then parse_opts optlist' (undefok_flags ++ split_on "," arg ++ (no_ <$> split_on "," arg))
      else
        let is_short := negb (startswith "--" name) in
        let name := str_drop (if is_short then 1 else 2) name in
        o ← gets (λ r, (flag_dict r !! name : option nat));
        match o with
        | Some k =>
            f ← flag_at k;
            f ← lift (Parse f (if boolean f && is_short then Bool true else Text arg));
            set_flag k f
        | None => mret tt
        end;;
        parse_opts optlist' undefok_flags
  end.
(** [FlagValues.__call__]: what is left of the arguments. *)
Definition FlagValues_call (fuel : nat) (argv : list string) : ST Registry (list string) :=
  args ← lift (ReadFlagsFromFiles fuel (tail argv));
  r ← gets id;
  let l := items (flag_dict r) in
  extended ← lift (extend_args r (ShortestUniquePrefixes r) l args);
  x ← lift (recognised (S (length extended)) (flag_dict r) (short_options r l) (long_options l) extended []);
  let '(optlist, unparsed_args, unrecognized) := x in
  undefok_flags ← parse_opts optlist [];
  (if forallb (λ o, bool_decide (o ∈ undefok_flags)) unrecognized then mret tt else throw UnrecognizedFlagError);;
  mret (take 1 argv ++ drop (length args - length unparsed_args) args).
(** [FlagsIntoString] *)
Definition FlagsIntoString (r : Registry) : string :=
  join "" ((λ '(_, k), match flags r !! k with
                       | Some f => if decide (flag_value f = NoValue) then "" else Serialize f +:+ nl_str
                       | None => ""
                       end) <$> items (flag_dict r)).
End Flags.

(** ** The shortest prefixes *)

(** How many characters two strings have in common at the start. *)
Fixpoint common (s t : string) : nat :=
  match s, t with String a s', String b t' => if a =c b then S (common s' t') else 0 | _, _ => 0 end.
Lemma common_le s t : common s t ≤ String.length s ∧ common s t ≤ String.length t.
Proof. revert t. induction s as [|a s IH]; intros [|b t]; cbn; try lia. destruct (a =c b); cbn; [|lia]. specialize (IH t). lia. Qed.
Lemma startswith_cons a p b s : startswith (String a p) (String b s) = (a =c b) && startswith p s.
Proof. unfold startswith. cbn [String.prefix]. destruct (ascii_dec a b) as [->|Hn]; [by rewrite Ascii.eqb_refl|]. by rewrite (proj2 (Ascii.eqb_neq a b) Hn). Qed.
Lemma common_prefix p s t : startswith p s = true → startswith p t = true → String.length p ≤ common s t.
Proof.
  revert s t. induction p as [|a p IH]; intros s t; [cbn; lia|]. intros [u ->]%startswith_iff [v ->]%startswith_iff.
  change (S (String.length p) ≤ if a =c a then S (common (p +:+ u) (p +:+ v)) else 0). rewrite Ascii.eqb_refl.
  apply le_n_S, IH; apply startswith_iff; by eexists.
Qed.
Lemma take_prefix n s : startswith (str_take n s) s = true.
Proof. apply startswith_iff. exists (str_drop n s). by rewrite str_take_drop. Qed.
Lemma common_take n s t : n ≤ common s t → startswith (str_take n s) t = true.
Proof.
  revert s t. induction n as [|n IH]; intros [|a s] [|b t]; try done; cbn [common]; try lia. destruct (Ascii.eqb_spec a b) as [->|]; [|lia].
  intros Hn. change (str_take (S n) (String b s)) with (String b (str_take n s)). rewrite startswith_cons, Ascii.eqb_refl. apply IH. lia.
Qed.
Lemma first_difference_Some s t i : first_difference s (Some t) = Some i → i = common s t ∧ i < String.length s.
Proof.
  revert t i. induction s as [|a s IH]; intros t i; cbn; [done|]. destruct t as [|b t]; [intros [= <-]; cbn; lia|].
  destruct (a =c b); [|intros [= <-]; cbn; lia]. destruct (first_difference s (Some t)) as [j|] eqn:E; [|done]. intros [= <-]. apply IH in E as [-> ?]. cbn. lia.
Qed.
Lemma first_difference_None s t : first_difference s (Some t) = None → startswith s t = true.
Proof.
  revert t. induction s as [|a s IH]; intros t; cbn; [by intros _; destruct t|]. destruct t as [|b t]; [done|]. destruct (Ascii.eqb_spec a b) as [->|]; [|done].
  destruct (first_difference s (Some t)) eqn:E; [done|]. intros _. apply IH, startswith_iff in E as [u ->]. apply startswith_iff. by exists u.
Qed.
(** What is between two strings with a prefix has it, too. *)
Lemma prefix_between p s t u : str_le s t → str_le t u → startswith p s = true → startswith p u = true → startswith p t = true.
Proof.
  unfold str_le. revert s t u. induction p as [|a p IH]; intros s t u; [by destruct t|]. intros Hst Htu Hs Hu.
  destruct s as [|c s]; [done|]. destruct u as [|d u]; [done|]. rewrite startswith_cons, andb_true_iff, Ascii.eqb_eq in Hs, Hu. destruct Hs as [<- Hs], Hu as [<- Hu].
  destruct t as [|b t]; [done|]. cbn [str_leb] in Hst, Htu. rewrite orb_true_iff, andb_true_iff, Nat.ltb_lt, Nat.eqb_eq in Hst, Htu.
  assert (Hab : nat_of_ascii a = nat_of_ascii b) by lia. assert (b = a) as -> by (by rewrite <-(ascii_nat_embedding a), <-(ascii_nat_embedding b), Hab).
  rewrite startswith_cons, Ascii.eqb_refl. apply (IH s t u); [| |done|done]; [destruct Hst as [|[_ ?]]|destruct Htu as [|[_ ?]]]; (lia || done).
Qed.
(** A proper prefix comes before. *)
Lemma prefix_str_le s t : startswith s t = true → str_le s t.
Proof.
  unfold str_le. revert t. induction s as [|a s IH]; intros [|b t]; try done. rewrite startswith_cons, andb_true_iff, Ascii.eqb_eq. intros [<- H].
  cbn [str_leb]. rewrite (IH t H), Nat.eqb_refl. by destruct (_ <? _).
Qed.
Definition entry (prev : nat) (name : string) (next : option string) : string :=
  match first_difference name next with Some i => str_take (S (max prev i)) name | None => name end.
Lemma shortest_cons prev curr rest m : shortest prev (curr :: rest) m =
  shortest (match first_difference curr (head rest) with Some i => i | None => String.length curr end) rest (<[curr := entry prev curr (head rest)]> m).
Proof. cbn [shortest]. unfold entry. by destruct (first_difference _ _). Qed.
Lemma common_next curr next : match first_difference curr (Some next) with Some i => i | None => String.length curr end = common curr next.
Proof.
  destruct (first_difference curr (Some next)) as [i|] eqn:E; [by apply first_difference_Some in E as [-> _]|]. apply first_difference_None in E.
  assert (H := common_prefix curr curr next). assert (Hc := common_le curr next). specialize (H ltac:(apply startswith_iff; exists ""; by rewrite str_app_nil_r) E). lia.
Qed.
Lemma shortest_other l : ∀ name prev m, name ∉ l → shortest prev l m !! name = m !! name.
Proof.
  induction l as [|x l IH]; intros name prev m Hn; [done|]. apply not_elem_of_cons in Hn as [Hx Hl]. rewrite shortest_cons, IH by done. by rewrite lookup_insert_ne.
Qed.
Lemma shortest_at pre name post : ∀ prev m, NoDup (pre ++ name :: post) →
  shortest prev (pre ++ name :: post) m !! name = Some (entry (match last pre with Some y => common y name | None => prev end) name (head post)).
Proof.
  induction pre as [|y pre IH]; intros prev m Hd; cbn [app] in *; apply NoDup_cons in Hd as [Hy Hd]; rewrite shortest_cons.
  - rewrite shortest_other by done. by rewrite lookup_insert_eq.
  - rewrite IH by done. destruct pre as [|z pre]; [cbn [app head last]; by rewrite common_next|]. rewrite !last_cons. destruct (last pre); done.
Qed.
(** A prefix that tells a name from the others, and that no shorter one does. *)
Definition unique_prefix (names : list string) (name p : string) : Prop :=
  p ≠ "" ∧ startswith p name = true ∧ (∀ o, o ∈ names → startswith p o = true → o = name ∨ p = name) ∧
  ∀ q, q ≠ "" → startswith q name = true → String.length q < String.length p → ∃ o, o ∈ names ∧ o ≠ name ∧ startswith q o = true.
Lemma startswith_refl s : startswith s s = true.
Proof. apply startswith_iff. exists "". by rewrite str_app_nil_r. Qed.
Lemma startswith_length p s : startswith p s = true → String.length p ≤ String.length s.
Proof. intros [t ->]%startswith_iff. rewrite str_length_app. lia. Qed.
Lemma startswith_take p s : startswith p s = true → str_take (String.length p) s = p.
Proof. intros [t ->]%startswith_iff. apply str_take_app. Qed.
Lemma common_sym s t : common s t = common t s.
Proof. revert t. induction s as [|a s IH]; intros [|b t]; cbn; try done. rewrite Ascii.eqb_sym. by destruct (b =c a); rewrite ?IH. Qed.
Lemma first_difference_lt s next i : first_difference s next = Some i → i < String.length s ∧ match next with Some t => i = common s t | None => i = 0 end.
Proof. destruct next as [t|]; [intros H%first_difference_Some; by destruct H|]. destruct s; cbn; [done|]. intros [= <-]. cbn. lia. Qed.
Section Neighbours.
Context (pre post : list string) (name : string).
Hypothesis sorted_names : StronglySorted str_le (pre ++ name :: post).
Hypothesis distinct : NoDup (pre ++ name :: post).
(** Who shares a prefix with the name leaves it to the neighbours. *)
Lemma shared_before p o : startswith p name = true → o ∈ pre → startswith p o = true → ∃ y, last pre = Some y ∧ String.length p ≤ common y name.
Proof using sorted_names distinct.
  intros Hp Ho Hpo. destruct (last pre) as [y|] eqn:El; [|apply last_None in El; subst; by apply elem_of_nil in Ho]. exists y. split; [done|].
  apply last_Some in El as [l' ->]. apply common_prefix; [|done]. apply elem_of_app in Ho as [Ho|Ho%list_elem_of_singleton]; [|by subst].
  apply (prefix_between p o y name); [| |done|done].
  - apply StronglySorted_app_1_l in sorted_names. by eapply StronglySorted_app_1_elem_of; [exact sorted_names| |left].
  - eapply StronglySorted_app_1_elem_of; [exact sorted_names| |left]. set_solver.
Qed.
Lemma shared_after p o : startswith p name = true → o ∈ post → startswith p o = true → ∃ z, head post = Some z ∧ String.length p ≤ common name z.
Proof using sorted_names distinct.
  intros Hp Ho Hpo. destruct post as [|z l]; [by apply elem_of_nil in Ho|]. exists z. split; [done|]. apply common_prefix; [done|].
  apply StronglySorted_app_1_r in sorted_names. apply StronglySorted_inv in sorted_names as [Hs Hn]. apply StronglySorted_inv in Hs as [_ Hz].
  apply elem_of_cons in Ho as [->|Ho]; [done|]. rewrite Forall_forall in Hn, Hz. apply (prefix_between p name z o); [apply Hn; left|by apply Hz|done|done].
Qed.
Lemma before_differs y : last pre = Some y → y ≠ name ∧ common y name < String.length name ∧ y ∈ pre.
Proof using sorted_names distinct.
  intros [l' ->]%last_Some. assert (Hy : y ∈ l' ++ [y]) by set_solver. apply NoDup_app in distinct as (_ & Hd & _). assert (Hne : y ≠ name) by (intros ->; apply (Hd _ Hy); left).
  split_and!; [done| |done]. destruct (decide (String.length name ≤ common name y)) as [Hc|Hc]; [|rewrite common_sym; lia]. exfalso. apply Hne.
  apply (common_take (String.length name) name y) in Hc. replace (str_take (String.length name) name) with name in Hc by (symmetry; apply startswith_take, startswith_refl).
  apply str_le_antisym; [|by apply prefix_str_le]. eapply StronglySorted_app_1_elem_of; [exact sorted_names|done|left].
Qed.
Lemma after_differs z : head post = Some z → z ≠ name ∧ z ∈ post.
Proof using sorted_names distinct.
  destruct post as [|z' l]; [done|]. intros [= ->]. apply NoDup_app in distinct as (_ & _ & [Hn _]%NoDup_cons). split; [|left]. intros ->. apply Hn. left.
Qed.
Lemma entry_unique : name ≠ "" → unique_prefix (pre ++ name :: post) name (entry (match last pre with Some y => common y name | None => 0 end) name (head post)).
Proof using sorted_names distinct.
  intros Hne. set (prev := match last pre with Some y => common y name | None => 0 end). unfold entry.
  assert (Hprev : prev < String.length name).
  { unfold prev. destruct (last pre) as [y|] eqn:El; [by apply before_differs|]. destruct name; [done|cbn; lia]. }
  assert (Hq : ∀ q s, startswith q name = true → String.length q ≤ common name s → startswith q s = true) by (intros q s Hq Hc; apply common_take in Hc; by rewrite (startswith_take _ _ Hq) in Hc).
  destruct (first_difference name (head post)) as [i|] eqn:Ed.
  - apply first_difference_lt in Ed as [Hi Hnext]. assert (Hlen : String.length (str_take (S (max prev i)) name) = S (max prev i)) by (rewrite str_take_length; lia).
    split_and!.
    + intros E. by rewrite E in Hlen.
    + apply take_prefix.
    + intros o Ho Hpo. left. apply elem_of_app in Ho as [Ho|[->|Ho]%elem_of_cons]; [exfalso|done|exfalso].
      * destruct (shared_before _ o (take_prefix _ _) Ho Hpo) as (y & Ey & Hc). unfold prev in *. rewrite Ey in *. lia.
      * destruct (shared_after _ o (take_prefix _ _) Ho Hpo) as (z & Ez & Hc). rewrite Ez in Hnext. lia.
    + intros q Hq0 Hqn Hql. assert (Hq1 : String.length q ≠ 0) by by destruct q. destruct (decide (String.length q ≤ prev)) as [Hc|Hc].
      * unfold prev in Hc. destruct (last pre) as [y|] eqn:El; [|lia]. destruct (before_differs y El) as (Hy & _ & Hin). exists y. split_and!; [set_solver|done|]. apply Hq; [done|]. by rewrite common_sym.
      * destruct (head post) as [z|] eqn:Ez; [|lia]. destruct (after_differs z Ez) as [Hz Hin]. exists z. split_and!; [set_solver|done|]. apply Hq; [done|lia].
  - destruct (head post) as [z|] eqn:Ez; [|by destruct name]. apply first_difference_None in Ed. destruct (after_differs z Ez) as [Hz Hin]. split_and!; [done|apply startswith_refl|by right|].
    intros q _ Hqn Hl. exists z. split_and!; [set_solver|done|]. apply Hq; [done|]. assert (Hc := common_prefix name name z (startswith_refl _) Ed). lia.
Qed.
End Neighbours.

(** ** A command line of written flags *)

Lemma startswith_app p s t : startswith (p +:+ s) (p +:+ t) = startswith s t.
Proof.
  apply eq_iff_eq_true. rewrite !startswith_iff. split; intros [u E].
  - exists u. rewrite str_app_assoc in E. apply (f_equal (str_drop (String.length p))) in E. by rewrite !str_drop_app in E.
  - exists u. by rewrite E, str_app_assoc.
Qed.
Lemma startswith_both s t : startswith s t = true → startswith t s = true → s = t.
Proof. intros Hs Ht. apply str_le_antisym; by apply prefix_str_le. Qed.
(** Where the value begins. *)
Lemma find_value n v : str_mem "=" n = false → find "=" (n +:+ "=" +:+ v) = Some (String.length n).
Proof.
  induction n as [|a n IH]; [intros _; by destruct v|]. cbn [str_mem]. intros [Ha Hn]%orb_false_iff. rewrite str_app_cons. cbn [find].
  change (String.prefix "=" (String a (n +:+ "=" +:+ v))) with (startswith "=" (String a (n +:+ "=" +:+ v))). rewrite startswith_cons, Ascii.eqb_sym, Ha. cbn [andb]. by rewrite IH.
Qed.
Lemma mem_valued n : str_mem "=" (n +:+ "=") = true.
Proof. induction n as [|a n IH]; [done|]. rewrite str_app_cons. cbn [str_mem]. by rewrite IH, orb_true_r. Qed.
Lemma find_no_value n : str_mem "=" n = false → find "=" n = None.
Proof.
  induction n as [|a n IH]; [done|]. cbn [str_mem]. intros [Ha Hn]%orb_false_iff. cbn [find].
  change (String.prefix "=" (String a n)) with (startswith "=" (String a n)). rewrite startswith_cons, Ascii.eqb_sym, Ha. cbn [andb]. by rewrite IH.
Qed.
Lemma name_plain n : str_mem "=" n = false → contains "=" ("--" +:+ n) = false.
Proof. intros Hn. unfold contains. change (find "=" ("--" +:+ n)) with (S <$> (S <$> find "=" n)). by rewrite find_no_value. Qed.
Lemma name_valued n v : str_mem "=" n = false → contains "=" ("--" +:+ n +:+ "=" +:+ v) = true.
Proof. intros Hn. unfold contains. change (find "=" ("--" +:+ ?x)) with (S <$> (S <$> find "=" x)). by rewrite find_value. Qed.
Lemma NoDup_bind_disjoint {A B} (f : A → list B) l x y b : NoDup (l ≫= f) → x ∈ l → y ∈ l → x ≠ y → b ∈ f x → b ∈ f y → False.
Proof.
  intros Hd Hx Hy Hne Hbx Hby. induction l as [|z l IH]; [by apply elem_of_nil in Hx|]. cbn in Hd. apply NoDup_app in Hd as (_ & Hd & Hl).
  assert (Hin : ∀ w, w ∈ l → b ∈ f w → b ∈ l ≫= f) by (intros w Hw Hb; apply list_elem_of_bind; by exists w).
  apply elem_of_cons in Hx as [->|Hx], Hy as [->|Hy]; [done| | |by apply IH]; eapply Hd; eauto.
Qed.

Section Call.
Context (items : gmap string nat → list (string * nat)) (open_file : string → option (list string)) (expanduser : string → string).
Hypothesis items_all : ∀ m, items m ≡ₚ map_to_list m.

(** The prefix of every name is right. *)
Lemma prefixes_spec r name : NoDup (all_names items r) → "" ∉ all_names items r → name ∈ all_names items r →
  ∃ p, ShortestUniquePrefixes items r !! name = Some p ∧ unique_prefix (all_names items r) name p.
Proof.
  intros Hd He Hn. unfold ShortestUniquePrefixes. assert (HP : sort_strings (all_names items r) ≡ₚ all_names items r) by apply merge_sort_Permutation.
  assert (Hs : StronglySorted str_le (sort_strings (all_names items r))) by (apply StronglySorted_merge_sort; apply _).
  assert (Hiff : ∀ x, x ∈ sort_strings (all_names items r) ↔ x ∈ all_names items r) by (intros x; by rewrite HP).
  assert (Hd' : NoDup (sort_strings (all_names items r))) by by rewrite HP. assert (Hn' := proj2 (Hiff name) Hn). apply list_elem_of_split in Hn' as (pre & post & E).
  rewrite E in Hs, Hd' |- *. eexists. split; [by apply shortest_at|]. destruct (entry_unique pre post name Hs Hd') as (H1 & H2 & H3 & H4); [by intros ->|].
  split_and!; [done|done| |].
  - intros o Ho. apply H3. rewrite <-E. by apply Hiff.
  - intros q Hq1 Hq2 Hq3. destruct (H4 q Hq1 Hq2 Hq3) as (o & Ho & ?). exists o. split; [|done]. apply Hiff. by rewrite E.
Qed.

(** A registry as the programs make them. *)
Record good_registry (r : Registry) : Prop := {
  good_flag n k : flag_dict r !! n = Some k → is_Some (flags r !! k);
  good_name n k : flag_dict r !! n = Some k → n ≠ "" ∧ str_mem "=" n = false ∧ n ≠ "undefok" ∧ n ≠ "flagfile";
  good_distinct : NoDup (all_names items r) }.
Lemma item_of r n k : (n, k) ∈ items (flag_dict r) ↔ flag_dict r !! n = Some k.
Proof using items_all. rewrite items_all. apply elem_of_map_to_list. Qed.
Lemma all_names_iff r s : s ∈ all_names items r ↔ ∃ n k, flag_dict r !! n = Some k ∧ (s = n ∨ (s = no_ n ∧ ∃ f, flags r !! k = Some f ∧ boolean f = true)).
Proof using items_all.
  unfold all_names. rewrite list_elem_of_bind. split.
  - intros ([n k] & Hs & Hi%item_of). exists n, k. split; [done|]. apply elem_of_cons in Hs as [->|Hs]; [by left|right]. destruct (flags r !! k) as [f|]; [|by apply elem_of_nil in Hs].
    destruct (boolean f) eqn:Eb; [|by apply elem_of_nil in Hs]. apply list_elem_of_singleton in Hs as ->. split; [done|]. by exists f.
  - intros (n & k & Hk%item_of & Hs). exists (n, k). split; [|done]. destruct Hs as [->|(-> & f & Hf & Hb)]; [left|]. rewrite Hf, Hb. right. left.
Qed.
Lemma apart r n k m j s : good_registry r → flag_dict r !! n = Some k → flag_dict r !! m = Some j →
  (s = n ∨ (s = no_ n ∧ ∃ f, flags r !! k = Some f ∧ boolean f = true)) → (s = m ∨ (s = no_ m ∧ ∃ f, flags r !! j = Some f ∧ boolean f = true)) → n = m.
Proof using items_all.
  intros G Hn%item_of Hm%item_of Hs Ht. destruct (decide ((n, k) = (m, j))) as [[= ->]|Hne]; [done|]. exfalso.
  refine (NoDup_bind_disjoint _ _ _ _ s (good_distinct r G) Hn Hm Hne _ _).
  - destruct Hs as [->|(-> & f & Hf & Hb)]; [left|]. rewrite Hf, Hb. right. left.
  - destruct Ht as [->|(-> & f & Hf & Hb)]; [left|]. rewrite Hf, Hb. right. left.
Qed.
(** A boolean name is made longer by its own flag, and by no other. *)
Lemma own_name r n k f : good_registry r → flag_dict r !! n = Some k → flags r !! k = Some f → boolean f = true →
  ∃ p q, ShortestUniquePrefixes items r !! n = Some p ∧ ShortestUniquePrefixes items r !! no_ n = Some q ∧
    extend_boolean n p q ("--" +:+ n) = "--" +:+ n +:+ "=true" ∧ extend_boolean n p q ("--" +:+ no_ n) = "--" +:+ n +:+ "=false" ∧
    ∀ m, m ∈ all_names items r → m ≠ n → m ≠ no_ n → extend_boolean n p q ("--" +:+ m) = "--" +:+ m.
Proof using items_all.
  intros G Hn Hf Hb. assert (Hd := good_distinct r G). assert (He : "" ∉ all_names items r).
  { intros (m & j & Hm & [E|[E _]])%all_names_iff; [|done]. by destruct (good_name r G m j Hm) as [H _]. }
  assert (H1 : n ∈ all_names items r) by (apply all_names_iff; exists n, k; split; [done|by left]).
  assert (H2 : no_ n ∈ all_names items r) by (apply all_names_iff; exists n, k; split; [done|right; split; [done|by exists f]]).
  destruct (prefixes_spec r n Hd He H1) as (p & Ep & Hp0 & Hp & Hpu & _). destruct (prefixes_spec r (no_ n) Hd He H2) as (q & Eq & Hq0 & Hq & Hqu & _).
  exists p, q. split_and!; [done|done|..].
  - unfold extend_boolean. rewrite name_plain by by apply (good_name r G n k). rewrite !startswith_app, Hp, startswith_refl. done.
  - unfold extend_boolean. rewrite name_plain by (cbn; by apply (good_name r G n k)). rewrite !startswith_app.
    assert (Hs : startswith (no_ n) n = false) by (destruct (startswith (no_ n) n) eqn:E; [|done]; apply startswith_length in E; unfold no_ in E; rewrite str_length_app in E; cbn in E; lia).
    by rewrite Hs, andb_false_r, Hq, startswith_refl.
  - intros m Hm Hmn Hmo. unfold extend_boolean. destruct (contains "=" _); [done|]. rewrite !startswith_app.
    destruct (startswith p m && startswith m n) eqn:E1; [exfalso|].
    { apply andb_prop in E1 as [E1 E2]. destruct (Hpu m Hm E1) as [->| ->]; [done|]. apply Hmn. by apply startswith_both. }
    destruct (startswith q m && startswith m (no_ n)) eqn:E2; [exfalso|done].
    apply andb_prop in E2 as [E2 E3]. destruct (Hqu m Hm E2) as [->| ->]; [done|]. apply Hmo. by apply startswith_both.
Qed.
Definition plain_arg (n : string) (b : bool) : string := "--" +:+ if b then n else no_ n.
Definition valued (n v : string) : string := "--" +:+ n +:+ "=" +:+ v.
Definition bool_text (b : bool) : string := if b then "true" else "false".
(** The arguments get their values one by one. *)
Lemma extend_args_map r l : good_registry r → (∀ n k, (n, k) ∈ l → flag_dict r !! n = Some k) →
  ∃ g, (∀ args, extend_args r (ShortestUniquePrefixes items r) l args = Ok (g <$> args)) ∧
    (∀ a, startswith "-" a = false → g a = a) ∧ (∀ n v, str_mem "=" n = false → g (valued n v) = valued n v) ∧
    ∀ n k f b, flag_dict r !! n = Some k → flags r !! k = Some f → boolean f = true → (n, k) ∈ l → g (plain_arg n b) = valued n (bool_text b).
Proof using items_all.
  intros G Hl. induction l as [|[n0 k0] l IH].
  { exists id. split_and!; [intros args; cbn; by rewrite list_fmap_id|done|done|by intros ? ? ? ? ? ? ? ?%elem_of_nil]. }
  destruct IH as (g & Hg & Hg1 & Hg2 & Hg3); [intros n k Hin; apply Hl; by right|]. assert (Hn0 : flag_dict r !! n0 = Some k0) by (apply Hl; left).
  destruct (good_flag r G n0 k0 Hn0) as [f0 Hf0]. destruct (boolean f0) eqn:Hb0.
  - destruct (own_name r n0 k0 f0 G Hn0 Hf0 Hb0) as (p & q & Ep & Eq & Ht & Hf & Ho). exists (λ a, g (extend_boolean n0 p q a)). split_and!.
    + intros args. cbn [extend_args]. by rewrite Hf0, Hb0, Ep, Eq, Hg, <-list_fmap_compose.
    + intros a Ha. rewrite <-(Hg1 a Ha) at 2. f_equal. unfold extend_boolean. assert (Hs : ∀ p, startswith ("--" +:+ p) a = false).
      { intros p'. destruct (startswith ("--" +:+ p') a) eqn:E; [|done]. apply startswith_iff in E as [t ->]. by rewrite str_app_assoc in Ha. }
      rewrite !Hs. by destruct (contains "=" a).
    + intros n v Hn. rewrite <-(Hg2 n v Hn) at 2. f_equal. unfold extend_boolean, valued. by rewrite name_valued.
    + intros n k f b Hn Hf' Hb Hin. destruct (decide (n = n0)) as [->|Hne].
      * transitivity (g (valued n0 (bool_text b))); [|apply Hg2; by apply (good_name r G n0 k0)]. f_equal. destruct b; [exact Ht|exact Hf].
      * transitivity (g (plain_arg n b)); [|apply (Hg3 n k f); [done..|]; by apply elem_of_cons in Hin as [[= ? ?]|?]]. f_equal. unfold plain_arg.
        set (s := if b then n else no_ n). assert (Hs : s = n ∨ (s = no_ n ∧ ∃ f, flags r !! k = Some f ∧ boolean f = true)).
        { destruct b; [by left|right; split; [done|by exists f]]. }
        apply Ho; [apply all_names_iff; by exists n, k|..]; intros E; apply Hne, (apart r n k n0 k0 s G Hn Hn0 Hs); [by left|right; split; [done|by exists f0]].
  - exists g. split_and!; [|done|done|].
    + intros args. cbn [extend_args]. by rewrite Hf0, Hb0.
    + intros n k f b Hn Hf Hb Hin. apply (Hg3 n k f b Hn Hf Hb). apply elem_of_cons in Hin as [[= -> ->]|Hin]; [|done]. rewrite Hf0 in Hf. injection Hf as ->. congruence.
Qed.
Lemma no_option rest n shortopts longopts : (∀ a, head rest = Some a → startswith "-" a = false) → getopt (S n) rest shortopts longopts = Parsed [] rest.
Proof. destruct rest as [|a rest]; [done|]. intros H. cbn [getopt]. by rewrite (H a eq_refl). Qed.
Lemma getopt_valued l rest shortopts longopts : (∀ o, o ∈ longopts → str_mem "=" o = true) → (∀ a, head rest = Some a → startswith "-" a = false) →
  (∀ n v, (n, v) ∈ l → str_mem "=" n = false ∧ n +:+ "=" ∈ longopts) → ∀ fuel, length l < fuel →
  getopt fuel (((λ x, valued x.1 x.2) <$> l) ++ rest) shortopts longopts = Parsed ((λ x, ("--" +:+ x.1, x.2)) <$> l) rest.
Proof.
  intros Ho Hr. induction l as [|[n v] l IH]; intros Hl [|fuel] Hfuel; try (cbn in Hfuel; lia); [by apply no_option|].
  destruct (Hl n v) as [Hn Hin]; [left|]. cbn [fmap list_fmap app fst snd getopt].
  change (startswith "-" (valued n v)) with true. change (valued n v =s "-") with false. replace (valued n v =s "--") with false by by destruct n.
  replace (startswith "--" (valued n v)) with true by by destruct n. change (str_drop 2 (valued n v)) with (n +:+ "=" +:+ v). cbn [negb orb]. rewrite find_value, str_take_app by done.
  replace (str_drop (S (String.length n)) (n +:+ "=" +:+ v)) with v.
  2:{ replace (S (String.length n)) with (String.length n + 1) by lia. by rewrite <-str_drop_drop, str_drop_app. }
  unfold long_has_args. rewrite bool_decide_eq_false_2.
  2:{ intros [H _]%list_elem_of_In%filter_In. apply list_elem_of_In, Ho in H. congruence. }
  rewrite bool_decide_eq_true_2.
  2:{ apply list_elem_of_In, filter_In. split; [by apply list_elem_of_In|]. apply startswith_iff. by exists "=". }
  rewrite IH; [done| |cbn in Hfuel; lia]. intros n' v' H. apply (Hl n' v'). by right.
Qed.
(** A value that is read back as it is: the elements of a list have no commas, and no spaces
    around; a list of one empty string is written like the empty one; a flag that can be repeated
    is written with one value. *)
Definition printable (f : Flag) (v : Value) : Prop :=
  match kind f, v with
  | BooleanFlag, Bool _ | StringFlag, Text _ => True
  | ListFlag, Texts l => l ≠ [""] ∧ Forall (λ s, str_mem "," s = false ∧ strip s = s) l
  | MultiStringFlag, Texts l => length l = 1 ∧ (present f = 0 ∨ ∃ values, flag_value f = Texts values)
  | _, _ => False
  end.
(** The text of a value on the command line. *)
Definition value_text (v : Value) : string :=
  match v with NoValue => "" | Bool b => bool_text b | Text s => s | Texts l => join "," l end.
(** A flag that can be repeated keeps the values that it was given before. *)
Definition next_value (f : Flag) (v : Value) : Value :=
  match kind f, flag_value f, v with
  | MultiStringFlag, Texts values, Texts l => if present f =? 0 then v else Texts (values ++ l)
  | _, _, _ => v
  end.
Lemma Parse_text f v : printable f v → Parse f (Text (value_text v)) = Ok (with_value f (next_value f v) (S (present f))).
Proof.
  unfold printable, next_value, Parse, base_Parse. destruct (kind f) eqn:Ek, v as [|b|s|l]; try done.
  - by destruct b.
  - intros [Hne Hl]. cbn [parser parse_list value_text]. destruct l as [|s l]; [done|].
    assert (Hj : (join "," (s :: l) =s "") = false).
    { destruct l as [|s' l]; [cbn; apply String.eqb_neq; by intros ->|]. rewrite join_cons. by destruct s. }
    rewrite Hj, split_on_join; [|done|by eapply Forall_impl; [exact Hl|by intros ? []]]. do 3 f_equal.
    rewrite <-(list_fmap_id (s :: l)) at 2. apply list_fmap_ext. intros i x Hx. by destruct (proj1 (Forall_lookup _ _) Hl i x Hx).
  - intros [Hl Hp]. destruct l as [|s [|]]; try done. unfold multi_Parse. destruct (present f =? 0) eqn:E; [by destruct (flag_value f)|].
    destruct Hp as [Hp|[values ->]]; [by rewrite Hp in E|done].
Qed.
Definition written (r : Registry) (x : nat * Value) : string := match flags r !! x.1 with Some f => Serialize (with_value f x.2 1) | None => "" end.
Definition set_value (r : Registry) (x : nat * Value) : Registry :=
  match flags r !! x.1 with Some f => mkRegistry (<[x.1 := with_value f (next_value f x.2) (S (present f))]> (flags r)) (flag_dict r) | None => r end.
Definition settable (r : Registry) (x : nat * Value) : Prop := ∃ f, flags r !! x.1 = Some f ∧ flag_dict r !! flag_name f = Some x.1 ∧ printable f x.2.
Definition option_of (r : Registry) (x : nat * Value) : string * string := (match flags r !! x.1 with Some f => flag_name f | None => "" end, value_text x.2).
Lemma set_value_other r (x y : nat * Value) : x.1 ≠ y.1 → (flags (set_value r x) !! y.1 : option Flag) = flags r !! y.1 ∧ flag_dict (set_value r x) = flag_dict r.
Proof. intros Hne. unfold set_value. destruct (flags r !! x.1) as [f|]; [|done]. split; [|done]. cbn. by rewrite list_lookup_insert_ne. Qed.
Lemma set_value_same r k v f : flags r !! k = Some f → flags (set_value r (k, v)) !! k = Some (with_value f (next_value f v) (S (present f))).
Proof. intros Hf. unfold set_value. cbn. rewrite Hf. cbn. apply list_lookup_insert_eq. by apply lookup_lt_Some in Hf. Qed.
(** After a flag was set the others, and it, can be set as before. *)
Lemma settable_kept r x y : settable r x → settable r y → settable (set_value r x) y ∧ option_of (set_value r x) y = option_of r y ∧ flag_dict (set_value r x) = flag_dict r.
Proof.
  intros (f & Hf & Hn & Hp) (g & Hg & Hgn & Hgp). assert (Hr : flag_dict (set_value r x) = flag_dict r) by (unfold set_value; by rewrite Hf).
  destruct (decide (x.1 = y.1)) as [E|Hne].
  - destruct x as [k v], y as [j w]. cbn [fst snd] in *. subst j. assert (g = f) as -> by congruence. apply set_value_same with (v := v) in Hf as Hf'. split_and!; [|unfold option_of; cbn; by rewrite Hf', Hg|done].
    eexists. split; [exact Hf'|]. rewrite Hr. split; [done|]. unfold printable, next_value in *. cbn [with_value kind present flag_value snd].
    destruct (kind f); try done. destruct w as [| | |l]; try done. split; [by destruct Hgp|right]. destruct v as [| | |l']; try done. destruct (flag_value f); eauto. destruct (present f =? 0); eauto.
  - destruct (set_value_other r x y Hne) as [Hs _]. split_and!; [|unfold option_of; by rewrite Hs|done]. exists g. by rewrite Hs, Hr.
Qed.
Lemma parse_opts_valued u l : ∀ r, (∀ n k, flag_dict r !! n = Some k → n ≠ "undefok") → Forall (settable r) l →
  parse_opts ((λ x, ("--" +:+ (option_of r x).1, (option_of r x).2)) <$> l) u r = (Ok u, foldl set_value r l).
Proof.
  induction l as [|x l IH]; intros r Hu Hs; [done|]. apply Forall_cons in Hs as [Hx Hs]. rewrite Forall_forall in Hs.
  assert (Hl : ((λ y, ("--" +:+ (option_of r y).1, (option_of r y).2)) <$> l) = ((λ y, ("--" +:+ (option_of (set_value r x) y).1, (option_of (set_value r x) y).2)) <$> l)).
  { apply list_fmap_ext. intros i y Hy%list_elem_of_lookup_2. destruct (settable_kept r x y Hx (Hs y Hy)) as (_ & -> & _). done. }
  assert (Hk : Forall (settable (set_value r x)) l) by (apply Forall_forall; intros y Hy; by apply settable_kept; [|apply Hs]).
  destruct (settable_kept r x x Hx Hx) as (_ & _ & Hr). destruct Hx as (f & Hf & Hn & Hp).
  cbn [fmap list_fmap foldl]. rewrite Hl. unfold option_of at 1 2. cbn [fst snd parse_opts]. rewrite Hf.
  replace ("--" +:+ flag_name f =s "--undefok") with false.
  2:{ symmetry. apply String.eqb_neq. intros [= E]. by apply (Hu _ _ Hn). }
  replace (startswith "--" ("--" +:+ flag_name f)) with true by by destruct (flag_name f). cbn [negb].
  change (str_drop 2 ("--" +:+ flag_name f)) with (flag_name f). unfold gets at 1, mbind, ST_bind. rewrite Hn. unfold flag_at, gets, mbind, ST_bind. rewrite Hf. cbn [mret ST_ret].
  rewrite andb_false_r. unfold lift. rewrite Parse_text by done. unfold set_flag, modify. replace (mkRegistry _ _) with (set_value r x) by (unfold set_value; by rewrite Hf).
  apply IH; [by rewrite Hr|done].
Qed.
Definition name_part (t : string) : string := match find "=" t with Some i => str_take i t | None => t end.
Lemma directive_name t : IsFlagFileDirective ("--" +:+ t) = true → name_part t = "flagfile".
Proof.
  unfold IsFlagFileDirective. change ("--flagfile=") with ("--" +:+ "flagfile=") at 1. rewrite startswith_app. change (startswith "-flagfile=" ("--" +:+ t)) with false.
  replace ("--" +:+ t =s "-flagfile") with false by by destruct t. rewrite !orb_false_r. intros [[u ->]%startswith_iff|E%String.eqb_eq]%orb_prop.
  - change ("flagfile=" +:+ u) with ("flagfile" +:+ "=" +:+ u). unfold name_part. by rewrite find_value, str_take_app.
  - assert (t = "flagfile") as -> by (by injection E). done.
Qed.
(** What is written for a value, and with what it is continued. *)
Lemma written_spec r x : good_registry r → settable r x → ∃ t, written r x = "--" +:+ t ∧ t ≠ "" ∧ name_part t ≠ "flagfile" ∧
  ((∃ f k b, flag_dict r !! flag_name f = Some k ∧ flags r !! k = Some f ∧ boolean f = true ∧ written r x = plain_arg (flag_name f) b ∧ option_of r x = (flag_name f, bool_text b)) ∨
   written r x = valued (option_of r x).1 (option_of r x).2) ∧
  str_mem "=" (option_of r x).1 = false ∧ ∃ k, flag_dict r !! (option_of r x).1 = Some k.
Proof.
  destruct x as [k v]. intros G (f & Hf & Hn & Hp). cbn [fst snd] in *. destruct (good_name r G _ _ Hn) as (Hn0 & Hne & _ & Hff).
  unfold written, option_of. cbn [fst snd]. rewrite Hf. cbn [fst snd]. destruct (kind f) eqn:Ek; unfold printable in Hp; rewrite Ek in Hp; try by destruct v.
  - destruct v as [|b| |]; try done. exists (if b then flag_name f else no_ (flag_name f)). unfold Serialize, boolean. cbn [with_value flag_value kind]. rewrite Ek. split_and!.
    + by destruct b.
    + by destruct b.
    + destruct b; unfold name_part; [by rewrite find_no_value|]. rewrite find_no_value by (cbn; done). done.
    + left. exists f, k, b. unfold boolean. rewrite Ek. split_and!; try done. by destruct b.
    + done.
    + by exists k.
  - destruct v as [| |s|]; try done. exists (flag_name f +:+ "=" +:+ s). unfold Serialize, boolean. cbn [with_value flag_value kind]. rewrite Ek.
    split_and!; [done|by destruct (flag_name f)|unfold name_part; by rewrite find_value, str_take_app|by right|done|by exists k].
  - destruct v as [| | |l]; try done. exists (flag_name f +:+ "=" +:+ join "," l). unfold Serialize, boolean. cbn [with_value flag_value kind]. rewrite Ek.
    split_and!; [done|by destruct (flag_name f)|unfold name_part; by rewrite find_value, str_take_app|by right|done|by exists k].
  - destruct v as [| | |[|s [|]]]; try (by destruct Hp). exists (flag_name f +:+ "=" +:+ s). unfold Serialize, boolean. cbn [with_value flag_value kind]. rewrite Ek.
    split_and!; [done|by destruct (flag_name f)|unfold name_part; by rewrite find_value, str_take_app|by right|done|by exists k].
Qed.
Lemma read_written fuel r l rest : good_registry r → Forall (settable r) l → (∀ a, head rest = Some a → startswith "-" a = false) → ∀ acc,
  read_flags open_file expanduser fuel ((written r <$> l) ++ rest) [] acc = Ok (acc ++ (written r <$> l) ++ rest).
Proof.
  intros G Hl Hr. induction Hl as [|x l Hx Hl IH]; intros acc.
  - destruct rest as [|a rest]; [cbn; by rewrite app_nil_r|]. cbn [fmap list_fmap app read_flags]. assert (Ha := Hr a eq_refl).
    assert (Hs : ∀ p, startswith ("-" +:+ p) a = false) by (intros p; destruct (startswith ("-" +:+ p) a) eqn:E; [|done]; apply startswith_iff in E as [t ->]; unfold startswith in Ha; by rewrite str_app_assoc, (prefix_app "-") in Ha).
    replace (IsFlagFileDirective a) with false; [by rewrite Ha, orb_true_r|]. unfold IsFlagFileDirective.
    rewrite (Hs "-flagfile=" : startswith "--flagfile=" a = false), (Hs "flagfile=" : startswith "-flagfile=" a = false).
    destruct (String.eqb_spec a "--flagfile") as [->|_]; [done|]. by destruct (String.eqb_spec a "-flagfile") as [->|_].
  - destruct (written_spec r x G Hx) as (t & Et & Ht & Hd & _). cbn [fmap list_fmap app read_flags].
    replace (IsFlagFileDirective (written r x)) with false.
    2:{ symmetry. apply not_true_iff_false. rewrite Et. intros E. by apply directive_name in E. }
    replace (written r x =s "--") with false by (rewrite Et; by destruct t). replace (startswith "-" (written r x)) with true by by rewrite Et.
    cbn [negb orb]. rewrite IH. by rewrite <-app_assoc.
Qed.
Lemma call_written fuel r prog l rest : good_registry r → Forall (settable r) l → (∀ a, head rest = Some a → startswith "-" a = false) →
  FlagValues_call items open_file expanduser fuel (prog :: (written r <$> l) ++ rest) r = (Ok (prog :: rest), foldl set_value r l).
Proof using items_all.
  intros G Hl Hr. unfold FlagValues_call. cbn [tail]. unfold ReadFlagsFromFiles, lift at 1, gets, mbind at 1, ST_bind at 1. rewrite read_written by done. cbn [app].
  destruct (extend_args_map r (items (flag_dict r)) G) as (g & Hg & Hg1 & Hg2 & Hg3); [by intros n k Hin%item_of|].
  assert (Hgl : (g <$> (written r <$> l) ++ rest) = ((λ x, valued x.1 x.2) <$> (option_of r <$> l)) ++ (g <$> rest)).
  { rewrite fmap_app, <-!list_fmap_compose. f_equal. apply list_fmap_ext. intros i x Hx. destruct (written_spec r x G (proj1 (Forall_lookup _ _) Hl i x Hx)) as (t & _ & _ & _ & Hc & Hne & _).
    unfold compose. destruct Hc as [(f & k & b & Hn & Hf & Hb & -> & ->)| ->]; [apply (Hg3 _ k f); [done..|by apply item_of]|by apply Hg2]. }
  assert (Hhead : ∀ a, head (g <$> rest) = Some a → startswith "-" a = false).
  { destruct rest as [|a rest]; [done|]. intros _ [= <-]. by rewrite Hg1; apply Hr. }
  unfold lift, mbind at 1, ST_bind at 1. rewrite Hg, Hgl. cbn [recognised]. unfold mbind at 1, ST_bind at 1.
  assert (Hlong : ∀ o, o ∈ long_options (items (flag_dict r)) → str_mem "=" o = true).
  { unfold long_options. intros o [([n k] & -> & _)%list_elem_of_fmap| ->%list_elem_of_singleton]%elem_of_app; [apply mem_valued|done]. }
  rewrite getopt_valued; [|done|done| |rewrite length_app, !length_fmap; lia].
  2:{ intros n v ([k x] & Ex & Hx)%list_elem_of_fmap. destruct (written_spec r (k, x) G (proj1 (Forall_forall _ _) Hl _ Hx)) as (_ & _ & _ & _ & _ & Hne & j & Hj).
      rewrite <-Ex in Hne, Hj. split; [done|]. apply elem_of_app. left. apply list_elem_of_fmap. exists (n, j). split; [done|]. by apply item_of. }
  unfold mbind, ST_bind. rewrite <-list_fmap_compose. unfold compose. rewrite parse_opts_valued; [|by intros n k Hn; apply (good_name r G n k)|done].
  cbn [forallb take]. unfold mret, ST_ret. do 3 f_equal. rewrite length_fmap, length_app, Nat.add_sub. by rewrite drop_app_length.
Qed.
Definition unset (r : Registry) (x : nat * Value) : Prop := ∀ f, flags r !! x.1 = Some f → present f = 0.
Lemma set_values l : ∀ r, NoDup l.*1 → Forall (settable r) l → Forall (unset r) l → flag_dict (foldl set_value r l) = flag_dict r ∧
  (∀ k, k ∉ l.*1 → (flags (foldl set_value r l) !! k : option Flag) = flags r !! k) ∧
  ∀ k v, (k, v) ∈ l → ∃ f, flags r !! k = Some f ∧ flags (foldl set_value r l) !! k = Some (with_value f v 1).
Proof.
  induction l as [|[k v] l IH]; intros r Hd Hs Hu; [by split_and!; [|intros..|intros ? ? ?%elem_of_nil]|]. apply NoDup_cons in Hd as [Hk Hd]. apply Forall_cons in Hs as [Hx Hs].
  apply Forall_cons in Hu as [Hux Hu]. rewrite Forall_forall in Hs, Hu.
  assert (Ho : ∀ j (w : Value), j ≠ k → (flags (set_value r (k, v)) !! j : option Flag) = flags r !! j) by (intros j w Hj; apply (set_value_other r (k, v) (j, w)); by apply not_eq_sym).
  assert (Hj : ∀ j w, (j, w) ∈ l → j ≠ k) by (intros j w Hj ->; apply Hk; by apply (list_elem_of_fmap_2 fst) in Hj).
  destruct (settable_kept r _ _ Hx Hx) as (_ & _ & Hdict). destruct (IH (set_value r (k, v)) Hd) as (H1 & H2 & H3).
  { apply Forall_forall. intros y Hy. by apply settable_kept; [|apply Hs]. }
  { apply Forall_forall. intros [j w] Hy g. cbn [fst]. rewrite (Ho j w) by by eapply Hj. by apply (Hu (j, w)). }
  cbn [foldl]. split_and!.
  - by rewrite H1.
  - intros j [Hjk Hjl]%not_elem_of_cons. rewrite H2 by done. by apply (Ho j v).
  - intros j w [[= -> ->]|Hin]%elem_of_cons.
    + destruct Hx as (f & Hf & _ & _). exists f. split; [done|]. rewrite H2, (set_value_same r k v f Hf), (Hux f Hf) by done. unfold next_value. rewrite (Hux f Hf). by destruct (kind f), (flag_value f), v.
    + destruct (H3 j w Hin) as (g & Hg & Hg'). exists g. split; [|done]. rewrite <-Hg. symmetry. apply (Ho j w). by eapply Hj.
Qed.
(** Whether a registry is good, for one that is given. *)
Definition checked (r : Registry) : bool :=
  forallb (λ '(n, k), (k <? length (flags r)) && negb (n =s "") && negb (str_mem "=" n) && negb (n =s "undefok") && negb (n =s "flagfile")) (map_to_list (flag_dict r)) &&
  bool_decide (NoDup (all_names map_to_list r)).
Lemma good_checked r : checked r = true → good_registry r.
Proof using items_all.
  intros [H Hd]%andb_prop. rewrite forallb_forall in H.
  assert (H' : ∀ n k, flag_dict r !! n = Some k → k < length (flags r) ∧ n ≠ "" ∧ str_mem "=" n = false ∧ n ≠ "undefok" ∧ n ≠ "flagfile").
  { intros n k Hn%elem_of_map_to_list%list_elem_of_In. apply H in Hn. rewrite !andb_true_iff, !negb_true_iff, !String.eqb_neq, Nat.ltb_lt in Hn. destruct Hn as [[[[H1 H2] H3] H4] H5]. exact (conj H1 (conj H2 (conj H3 (conj H4 H5)))). }
  constructor.
  - intros n k Hn. apply lookup_lt_is_Some, (H' n k Hn).
  - intros n k Hn. apply (H' n k Hn).
  - apply bool_decide_eq_true in Hd. unfold all_names. by rewrite items_all.
Qed.
(** C30: in a good registry (as [DEFINE] makes it), what [Serialize] writes for values of different flags
    that were not given yet, and that can be printed (a list has elements without commas and
    outer spaces and is not the one of an empty text; a flag that may be repeated has one value,
    see [two_values_on_one_line]), is read by [FlagValues.__call__]
    as these values, also the negated names of boolean flags and lists: the flags
    that are written have their values and are present once, no other flag and no name changes, and the arguments that
    follow, of which the first is no option, are left after the name of the program. *)
Theorem FlagValues_call_serialized fuel r prog l rest : good_registry r → NoDup l.*1 → Forall (settable r) l → Forall (unset r) l → (∀ a, head rest = Some a → startswith "-" a = false) →
  ∃ r', FlagValues_call items open_file expanduser fuel (prog :: (written r <$> l) ++ rest) r = (Ok (prog :: rest), r') ∧ flag_dict r' = flag_dict r ∧
    (∀ k v, (k, v) ∈ l → ∃ f, flags r !! k = Some f ∧ flags r' !! k = Some (with_value f v 1)) ∧ ∀ k, k ∉ l.*1 → (flags r' !! k : option Flag) = flags r !! k.
Proof using items_all.
  intros G Hd Hl Hu Hr. exists (foldl set_value r l). destruct (set_values l r Hd Hl Hu) as (H1 & H2 & H3). by split_and!; [by apply call_written|..].
Qed.
(** C31: [ShortestUniquePrefixes] gives every name of a flag, and the negated names of the boolean
    flags, a prefix that belongs to no other of them unless it is the whole name, no shorter prefix does this, and nothing else has a
    prefix. *)
Theorem ShortestUniquePrefixes_correct r : NoDup (all_names items r) → "" ∉ all_names items r →
  (∀ name, name ∈ all_names items r → ∃ p, ShortestUniquePrefixes items r !! name = Some p ∧ unique_prefix (all_names items r) name p) ∧
  ∀ name, name ∉ all_names items r → ShortestUniquePrefixes items r !! name = None.
Proof.
  intros Hd He. split; [intros name Hn; by apply prefixes_spec|]. intros name Hn. unfold ShortestUniquePrefixes. rewrite shortest_other; [apply lookup_empty|].
  intros Hs. apply Hn. by rewrite <-(merge_sort_Permutation str_le (all_names items r)).
Qed.
End Call.

(** ** Examples *)

Definition demo_registry : Registry :=
  snd ((DEFINE "beep" None BooleanFlag false (Bool true);; DEFINE "bell" None BooleanFlag false (Bool false);; DEFINE "recurse" (Some "r") MultiStringFlag false NoValue;;
        DEFINE "exclude" (Some "e") ListFlag false (Text "_demos, old");; DEFINE "output" None StringFlag false (Text "")) (mkRegistry [] ∅)).
Lemma demo_registry_good : good_registry map_to_list demo_registry.
Proof. apply good_checked; [done|by vm_compute]. Qed.
Lemma ShortestUniquePrefixes_correct_witness :
  (ShortestUniquePrefixes map_to_list demo_registry !! "beep" = Some "bee" ∧ ShortestUniquePrefixes map_to_list demo_registry !! "nobell" = Some "nobel") ∧
  ∃ p, ShortestUniquePrefixes map_to_list demo_registry !! "beep" = Some p ∧ unique_prefix (all_names map_to_list demo_registry) "beep" p.
Proof.
  split; [by vm_compute|]. apply (proj1 (ShortestUniquePrefixes_correct map_to_list demo_registry (good_distinct _ _ demo_registry_good)
    ltac:(by apply (bool_decide_unpack _); vm_compute))). by apply (bool_decide_unpack _); vm_compute.
Defined.
Definition demo_values : list (nat * Value) := [(0, Bool false); (3, Texts ["a"; "b c"]); (2, Texts ["src"]); (4, Text "x=1, y")].
Lemma FlagValues_call_serialized_witness : written demo_registry <$> demo_values = ["--nobeep"; "--exclude=a,b c"; "--recurse=src"; "--output=x=1, y"] ∧
  ∃ r', FlagValues_call map_to_list (λ _, None) id 1 ("gjslint" :: (written demo_registry <$> demo_values) ++ ["a.js"; "--beep"]) demo_registry = (Ok ["gjslint"; "a.js"; "--beep"], r') ∧
    flag_value <$> flags r' = [Bool false; Bool false; Texts ["src"]; Texts ["a"; "b c"]; Text "x=1, y"].
Proof.
  split; [by vm_compute|]. assert (Hs : Forall (settable demo_registry) demo_values).
  { repeat constructor; (eexists; split; [by vm_compute|]; split; [by vm_compute|]); cbn; try done; [split; [done|repeat constructor]|split; [done|by left]]. }
  assert (Hu : Forall (unset demo_registry) demo_values) by (repeat constructor; intros f; vm_compute; by intros [= <-]).
  destruct (FlagValues_call_serialized map_to_list (λ _, None) id (λ m, reflexivity _) 1 demo_registry "gjslint" demo_values ["a.js"; "--beep"] demo_registry_good
    ltac:(by apply (bool_decide_unpack _); vm_compute) Hs Hu ltac:(by intros a [= <-])) as (r' & E & _ & _ & _).
  exists r'. split; [exact E|]. apply (f_equal snd) in E. cbn [snd] in E. rewrite <-E. by vm_compute.
Defined.
(** What is written for two values of a flag is one argument, which is read as one value. *)
Example two_values_on_one_line : let argument := Serialize (mkFlag "recurse" None MultiStringFlag false NoValue (Texts ["a"; "b"]) 2) in
  let '(argv, r) := FlagValues_call map_to_list (λ _, None) id 1 ["gjslint"; argument] demo_registry in
  argument = "--recurse=a --recurse=b" ∧ argv = Ok ["gjslint"] ∧ flag_value <$> flags r !! 2 = Some (Texts ["a --recurse=b"]).
Proof. by vm_compute. Qed.
(** Setting a flag back adds its default to the values that it was given. *)
Example default_added : Unparse (mkFlag "recurse" None MultiStringFlag false (Texts ["x"]) (Texts ["a"]) 1) =
  Ok (mkFlag "recurse" None MultiStringFlag false (Texts ["x"]) (Texts ["a"; "x"]) 0).
Proof. by vm_compute. Qed.
(** [--nohelp] is given the text false, which is not empty. *)
Example nohelp_helps : let r := snd (DEFINE "help" (Some "?") HelpFlag true (Bool false) demo_registry) in
  fst (FlagValues_call map_to_list (λ _, None) id 1 ["gjslint"; "--nohelp"] r) = Err (SystemExit 1).
Proof. by vm_compute. Qed.
(** The last of two arguments wins, and the command line wins over a file. *)
Example last_wins : let file (f : string) := if f =s "flags" then Some ["# output" +:+ nl_str; "--output=file" +:+ nl_str; "--flagfile=flags" +:+ nl_str; "--beep=f" +:+ nl_str] else None in
  let '(argv, r) := FlagValues_call map_to_list file id 5 ["gjslint"; "--output=first"; "--out=last"; "--flagfile"; "flags"; "a.js"] demo_registry in
  argv = Ok ["gjslint"; "a.js"] ∧ flag_value <$> flags r = [Bool false; Bool false; NoValue; Texts ["_demos"; "old"]; Text "last"].
Proof. by vm_compute. Qed.
