(* ===== verification/ClPrinter.v ===== *)
(** * gjslint (tools/closure_linter: gjslint.py, common/errorprinter.py, common/simplefileflags.py)

    What is printed of the errors, the files that are checked and the exit status. *)
From stdpp Require Import gmap.
From S2P Require Import Prelude PyStr PyPath PyState ClTokens ClMeta ClIndent ClErrors ClState ClRules ClJsRules ClChecker ClReports.

(** ** The numbers of errors (errors.py) *)

Definition number (c : ErrorCode) : Z :=
  match c with
  | FILE_NOT_FOUND => -1 | FILE_DOES_NOT_PARSE => -2
  | EXTRA_SPACE => 1 | MISSING_SPACE => 2 | EXTRA_LINE => 3 | MISSING_LINE => 4 | ILLEGAL_TAB => 5 | WRONG_INDENTATION => 6 | WRONG_BLANK_LINE_COUNT => 7
  | MISSING_SEMICOLON => 10 | MISSING_SEMICOLON_AFTER_FUNCTION => 11 | ILLEGAL_SEMICOLON_AFTER_FUNCTION => 12 | REDUNDANT_SEMICOLON => 13
  | ILLEGAL_PROTOTYPE_MEMBER_VALUE => 100 | LINE_TOO_LONG => 110 | LINE_STARTS_WITH_OPERATOR => 120 | COMMA_AT_END_OF_LITERAL => 121
  | MULTI_LINE_STRING => 130 | UNNECESSARY_DOUBLE_QUOTED_STRING => 131
  | GOOG_REQUIRES_NOT_ALPHABETIZED => 140 | GOOG_PROVIDES_NOT_ALPHABETIZED => 141 | MISSING_GOOG_REQUIRE => 142 | MISSING_GOOG_PROVIDE => 143 | EXTRA_GOOG_REQUIRE => 144
  | INVALID_JSDOC_TAG => 200 | INVALID_USE_OF_DESC_TAG => 201 | NO_BUG_NUMBER_AFTER_BUG_TAG => 202
  | MISSING_PARAMETER_DOCUMENTATION => 210 | EXTRA_PARAMETER_DOCUMENTATION => 211 | WRONG_PARAMETER_DOCUMENTATION => 212 | MISSING_JSDOC_TAG_TYPE => 213
  | MISSING_JSDOC_TAG_DESCRIPTION => 214 | MISSING_JSDOC_PARAM_NAME => 215 | OUT_OF_ORDER_JSDOC_TAG_TYPE => 216 | MISSING_RETURN_DOCUMENTATION => 217
  | UNNECESSARY_RETURN_DOCUMENTATION => 218 | MISSING_BRACES_AROUND_TYPE => 219 | MISSING_MEMBER_DOCUMENTATION => 220 | MISSING_PRIVATE => 221 | EXTRA_PRIVATE => 222
  | INVALID_OVERRIDE_PRIVATE => 223 | INVALID_INHERIT_DOC_PRIVATE => 224 | MISSING_JSDOC_TAG_THIS => 225 | UNNECESSARY_BRACES_AROUND_INHERIT_DOC => 226
  | INVALID_AUTHOR_TAG_DESCRIPTION => 227 | JSDOC_PREFER_QUESTION_TO_PIPE_NULL => 230 | JSDOC_ILLEGAL_QUESTION_WITH_PIPE => 231
  | JSDOC_TAG_DESCRIPTION_ENDS_WITH_INVALID_CHARACTER => 240 | INCORRECT_SUPPRESS_SYNTAX => 250 | INVALID_SUPPRESS_TYPE => 251 | UNNECESSARY_SUPPRESS => 252
  | FILE_MISSING_NEWLINE => 300 | FILE_IN_BLOCK => 301 | INTERFACE_CONSTRUCTOR_CANNOT_HAVE_PARAMS => 400 | INTERFACE_METHOD_CANNOT_HAVE_CODE => 401
  end.
Definition NEW_ERRORS : list ErrorCode := [WRONG_INDENTATION; MISSING_SEMICOLON; WRONG_BLANK_LINE_COUNT; EXTRA_GOOG_REQUIRE].

(** ** The printer *)

(** What is printed is a list of lines. *)
Record Printer := mkPrinter {
  error_count : Z; new_error_count : Z; total_file_count : Z; error_file_count : Z; file_table : gmap string Z;
  file_errors : option (list LintError); current_file : option string; unix_format : bool; new_errors : list ErrorCode; printed : list string }.
Definition new_Printer (new : list ErrorCode) (unix : bool) : Printer := mkPrinter 0 0 0 0 ∅ None None unix new [].
Definition print (l : list string) : ST Printer unit :=
  modify (λ x, mkPrinter (error_count x) (new_error_count x) (total_file_count x) (error_file_count x) (file_table x) (file_errors x) (current_file x) (unix_format x) (new_errors x)
                         (printed x ++ l)).
(** [self._filename and self._file_table[self._filename]]: the file before had errors. *)
Definition had_errors (x : Printer) : res bool :=
  match current_file x with
  | None => Ok false
  | Some f => if f =s "" then Ok false else match file_table x !! f with Some n => Ok (negb (n =? 0)%Z) | None => Err KeyError end
  end.
Definition HandleFile (filename : string) : ST Printer unit :=
  x ← gets id;
  b ← lift (had_errors x);
  (if (b : bool) then print [""] else mret tt);;
  modify (λ x, mkPrinter (error_count x) (new_error_count x) (total_file_count x + 1) (error_file_count x) (<[filename := 0%Z]> (file_table x)) (Some []) (Some filename)
                         (unix_format x) (new_errors x) (printed x)).
Definition is_new (new : list ErrorCode) (e : LintError) : bool := bool_decide (code e ∈ new).
Definition HandleError (e : LintError) : ST Printer unit :=
  x ← gets id;
  es ← lift (match file_errors x with Some es => Ok es | None => Err AttributeError end);
  let x := mkPrinter (error_count x) (new_error_count x) (total_file_count x) (error_file_count x) (file_table x) (Some (es ++ [e])) (current_file x) (unix_format x) (new_errors x) (printed x) in
  modify (λ _, x);;
  f ← lift (match current_file x with Some f => Ok f | None => Err KeyError end);
  n ← lift (match file_table x !! f with Some n => Ok n | None => Err KeyError end);
  modify (λ x, mkPrinter (error_count x + 1) (if is_new (new_errors x) e then new_error_count x + 1 else new_error_count x) (total_file_count x) (error_file_count x)
                         (<[f := (n + 1)%Z]> (file_table x)) (file_errors x) (current_file x) (unix_format x) (new_errors x) (printed x)).
Fixpoint zeros (n : nat) : string := match n with 0 => "" | S n => String "0" (zeros n) end.
(** ["%04d"] *)
Definition four_digits (z : Z) : string :=
  let digits := str_of_Z (Z.abs z) in
  let sign := if (z <? 0)%Z then "-" else "" in
  sign +:+ zeros (4 - String.length sign - String.length digits) +:+ digits.
(** [_PrintError] *)
Definition error_line (h : Heap) (unix : bool) (new : list ErrorCode) (filename : option string) (e : LintError) : res string :=
  line ← match err_token e with
         | None => Ok None
         | Some i => match h !! i with Some t => Ok (Some (str_of_Z (line_number t))) | None => Err AttributeError end
         end;
  Ok (if unix then
        default "None" filename +:+ ":" +:+ default "" line +:+ ":(" +:+ (if is_new new e then "New Error " else "") +:+ four_digits (number (code e)) +:+ ") " +:+ message e
      else
        match line with Some s => "Line " +:+ s +:+ ", " | None => "" end +:+ "E:" +:+ four_digits (number (code e)) +:+ ": " +:+
        (if is_new new e then "(New error) " else "") +:+ message e).
Definition PrintError (h : Heap) (e : LintError) : ST Printer unit := x ← gets id; s ← lift (error_line h (unix_format x) (new_errors x) (current_file x) e); print [s].
(** [list.sort(Error.Compare)], which is stable: each error goes after those that it does not precede. *)
Fixpoint insert_error (e : LintError) (l : list LintError) : ST Heap (list LintError) :=
  match l with
  | [] => mret [e]
  | x :: l' => c ← Error_Compare e x; if (c <? 0)%Z then mret (e :: l) else y ← insert_error e l'; mret (x :: y)
  end.
Fixpoint sort_onto (acc l : list LintError) : ST Heap (list LintError) :=
  match l with [] => mret acc | e :: l' => acc ← insert_error e acc; sort_onto acc l' end.
Definition sort_errors (l : list LintError) : ST Heap (list LintError) := sort_onto [] l.
Definition FinishFile (h : Heap) : ST Printer unit :=
  x ← gets id;
  let es := default [] (file_errors x) in
  if bool_decide (es = []) then mret tt
  else
    modify (λ x, mkPrinter (error_count x) (new_error_count x) (total_file_count x) (error_file_count x + 1) (file_table x) (file_errors x) (current_file x) (unix_format x)
                           (new_errors x) (printed x));;
    (if unix_format x then mret tt else print ["----- FILE  :  " +:+ default "None" (current_file x) +:+ " -----"]);;
    es ← lift (sort_errors es h).1;
    modify (λ x, mkPrinter (error_count x) (new_error_count x) (total_file_count x) (error_file_count x) (file_table x) (Some es) (current_file x) (unix_format x)
                           (new_errors x) (printed x));;
    for_each (PrintError h) es.
#[export] Instance printer_handler : ErrorHandler Printer := {|
  handle_file filename _ := λ '(h, a, x), let '(r, x) := HandleFile filename x in (r, (h, a, x));
  handle_error e := λ '(h, a, x), let '(r, x) := HandleError e x in (r, (h, a, x));
  finish_file := λ '(h, a, x), let '(r, x) := FinishFile h x in (r, (h, a, x)) |}.

Definition HasErrors (x : Printer) : bool := negb (error_count x =? 0)%Z.
Definition HasNewErrors (x : Printer) : bool := negb (new_error_count x =? 0)%Z.
Definition HasOldErrors (x : Printer) : bool := negb (error_count x - new_error_count x =? 0)%Z.
Definition PrintSummary (x : Printer) : list string :=
  if HasErrors x || HasNewErrors x then
    ["Found " +:+ str_of_Z (error_count x) +:+ " errors, including " +:+ str_of_Z (new_error_count x) +:+ " new errors, in " +:+ str_of_Z (error_file_count x) +:+ " files ("
      +:+ str_of_Z (total_file_count x - error_file_count x) +:+ " files OK)."]
  else [str_of_Z (total_file_count x) +:+ " files checked, no errors found."].
Definition PrintFileSummary (x : Printer) : list string :=
  (λ f, f +:+ ": " +:+ str_of_Z (default 0%Z (file_table x !! f))) <$> sort_strings (elements (dom (file_table x))).

(** ** The files *)

(** [filename[filename.rfind('.'):]]: without a dot, the last character. *)
Definition MatchesSuffixes (filename : string) (suffixes : list string) : bool :=
  bool_decide (match rfind "." filename with Some n => str_drop n filename | None => slice_from filename (-1) end ∈ suffixes).
Record FileFlags := mkFileFlags { recurse : list string; exclude_directories : list string; exclude_files : list string }.

Record LintFlags := mkLintFlags { unix_mode : bool; beep : bool; check_html : bool; summary : bool }.
Definition suffixes (lint : LintFlags) : list string := ".js" :: (if check_html lint then [".html"; ".htm"] else []).

Section Files.
(** Of the file system: [glob.glob], [os.walk] (folders with the names of the files in them) and
    [os.getcwd].  [in_directory d] compiles [(^|[\\/])d[\\/]], where [d] is an expression of
    the command line and may be none that [re.compile] takes; it is then searched in paths. *)
Context (glob : string → list string) (walk : string → list (string * list string)) (getcwd : string) (in_directory : string → res (string → bool)) (flags : FileFlags).

Definition GetUserSpecifiedFiles (argv suffixes : list string) : list string :=
  List.filter (λ f, MatchesSuffixes f suffixes) (tail argv ≫= λ f, if contains "*" f then glob f else [f]).
Definition GetRecursiveFiles (suffixes : list string) : list string :=
  recurse flags ≫= λ start, walk start ≫= λ '(root, files), path_join root <$> List.filter (λ f, MatchesSuffixes f suffixes) files.
Definition abspath (f : string) : string := normpath (path_join getcwd f).
Definition excluded (ignore_dirs : list (string → bool)) (f : string) : bool :=
  existsb (λ e, endswith ("/" +:+ e) f || (f =s e)) (exclude_files flags) || existsb (λ ignore, ignore f) ignore_dirs.
(** The set of files, and what is printed. *)
Definition FilterFiles (files : list string) : res (gset string * list string) :=
  ignore_dirs ← res_map in_directory (exclude_directories flags);
  let result_files := abspath <$> List.filter (λ f, negb (excluded ignore_dirs f)) files in
  let skipped := length files - length result_files in
  Ok (list_to_set result_files, if skipped =? 0 then [] else ["Skipping " +:+ str_of_nat skipped +:+ " file(s)."]).
Definition GetAllSpecifiedFiles (argv suffixes : list string) : res (gset string * list string) :=
  FilterFiles (GetUserSpecifiedFiles argv suffixes ++ GetRecursiveFiles suffixes).
Definition GetFileList (argv suffixes : list string) : res (list string * list string) :=
  x ← GetAllSpecifiedFiles argv suffixes; let '(files, out) := x in Ok (sorted_set files, out).

(** ** The program *)

Definition GJSLINT_ONLY_FLAGS : list string := ["--unix_mode"; "--beep"; "--nobeep"; "--time"; "--check_html"; "--summary"].
Definition bell : string := String "007" "".
Definition advice (beeps : bool) (sys_argv : list string) : list string :=
  [if beeps then bell else "";
   "Some of the errors reported by GJsLint may be auto-fixable using the script";
   "fixjsstyle. Please double check any changes it makes and report any bugs. The";
   "script can be run by executing:"; "";
   "fixjsstyle " +:+ join " " (List.filter (λ flag, negb (existsb (λ f, startswith f flag) GJSLINT_ONLY_FLAGS)) (tail sys_argv)); ""].
Context (o : Options) (lint : LintFlags) (StripTags : string → string) (GetScriptLines : list string → res (list string)) (read_file : string → option (list string)).
Definition exit_status (x : Printer) : Z := (if HasOldErrors x then 1 else 0) + (if HasNewErrors x then 2 else 0).
(** [main]: the exit status, and the lines that are printed; [argv] is what the parser of
    options leaves of [sys_argv]. *)
Definition main (fuel : nat) (argv sys_argv : list string) : res Z * list string :=
  match GetFileList argv (suffixes lint) with
  | Err e => (Err e, [])
  | Ok (files, out) =>
      let '(r, (_, x)) := Run o StripTags GetScriptLines read_file fuel files (false, new_Printer NEW_ERRORS (unix_mode lint)) in
      match r with
      | Err e => (Err e, out ++ printed x)
      | Ok _ =>
          (Ok (exit_status x),
           out ++ printed x ++ PrintSummary x ++
           (if (exit_status x =? 0)%Z then [] else (if summary lint then PrintFileSummary x else []) ++ advice (beep lint) sys_argv))
      end
  end.
End Files.

(** ** The order of errors *)

(** The line and the place in it. *)
Definition error_place (h : Heap) (e : LintError) : option (Z * Z) := i ← err_token e; t ← h !! i; Some (line_number t, err_start e).
Definition before (a b : Z * Z) : Prop := (a.1 < b.1 ∨ (a.1 = b.1 ∧ a.2 <= b.2))%Z.
Definition not_after (h : Heap) (a b : LintError) : Prop := ∃ x y, error_place h a = Some x ∧ error_place h b = Some y ∧ before x y.
Definition at_place (h : Heap) (x : Z * Z) (e : LintError) : bool := bool_decide (error_place h e = Some x).
(** The errors in the order of the source, those of the same place in the order they have. *)
Definition in_order (h : Heap) (es es' : list LintError) : Prop :=
  es' ≡ₚ es ∧ StronglySorted (not_after h) es' ∧ ∀ x, List.filter (at_place h x) es' = List.filter (at_place h x) es.
Lemma compare_run h a b r h' : Error_Compare a b h = (r, h') → h' = h ∧ (∀ e, r = Err e → e = AttributeError) ∧
  ∀ c, r = Ok c → ∃ x y, error_place h a = Some x ∧ error_place h b = Some y ∧ c = (if (x.1 =? y.1)%Z then x.2 - y.2 else x.1 - y.1)%Z.
Proof.
  assert (HE : ∀ Q : Z → Prop, (Err AttributeError, h) = (r, h') → h' = h ∧ (∀ e, r = Err e → e = AttributeError) ∧ ∀ c, r = Ok c → Q c)
    by (intros Q [= <- <-]; split_and!; [done|by intros ? [= <-]|done]).
  unfold Error_Compare, get, gets. rewrite st_bind. destruct (err_token a) as [i|] eqn:Ea; [|apply HE]. cbv beta iota delta [mret ST_ret].
  rewrite st_bind. destruct (err_token b) as [j|] eqn:Eb; [|apply HE]. cbv beta iota. rewrite !st_bind.
  destruct (h !! i) as [t|] eqn:Et; [|apply HE]. cbv beta iota. rewrite !st_bind. destruct (h !! j) as [u|] eqn:Eu; [|apply HE].
  intros [= <- <-]. split_and!; [done|done|]. intros c [= <-]. exists (line_number t, err_start a), (line_number u, err_start b). unfold error_place. by rewrite Ea, Eb; cbn; rewrite Et, Eu.
Qed.
Lemma before_trans a b c : before a b → before b c → before a c.
Proof. unfold before. lia. Qed.
Lemma not_after_trans h a b c : not_after h a b → not_after h b c → not_after h a c.
Proof. intros (x & y & Hx & Hy & H1) (y' & z & Hy' & Hz & H2). exists x, z. split_and!; [done|done|]. assert (y' = y) as -> by congruence. by eapply before_trans. Qed.
Lemma insert_error_run h e l : ∀ r h', StronglySorted (not_after h) l → insert_error e l h = (r, h') → h' = h ∧ (∀ x, r = Err x → x = AttributeError) ∧
  ∀ l', r = Ok l' → l' ≡ₚ e :: l ∧ StronglySorted (not_after h) l' ∧ ∀ x, List.filter (at_place h x) l' = List.filter (at_place h x) (l ++ [e]).
Proof.
  induction l as [|a l IH]; intros r h' HS; cbn [insert_error].
  { intros [= <- <-]. split_and!; [done|done|]. intros l' [= <-]. split_and!; [done|by repeat constructor|done]. }
  apply StronglySorted_inv in HS as [HS Ha]. rewrite st_bind. destruct (Error_Compare e a h) as [[c|x] h1] eqn:E; apply compare_run in E as (-> & He & Hc);
    [|intros [= <- <-]; split_and!; [done| |done]; intros ? [= <-]; by apply He].
  destruct (Hc c eq_refl) as (x & y & Hx & Hy & Ec). destruct (Z.ltb_spec c 0) as [Hlt|Hge].
  - intros [= <- <-]. split_and!; [done|done|]. intros l' [= <-].
    assert (Hb : before x y ∧ ¬ before y x) by (unfold before; destruct (Z.eqb_spec x.1 y.1); lia). destruct Hb as [Hb Hnb].
    assert (Hea : not_after h e a) by by exists x, y.
    assert (Hall : Forall (not_after h e) (a :: l)) by (constructor; [done|]; eapply Forall_impl; [exact Ha|]; intros b; by apply not_after_trans).
    split_and!; [done|by constructor; [constructor|]|]. intros k. rewrite List.filter_app. change (List.filter (at_place h k) (e :: a :: l)) with (if at_place h k e then e :: List.filter (at_place h k) (a :: l) else List.filter (at_place h k) (a :: l)).
    change (List.filter (at_place h k) [e]) with (if at_place h k e then [e] else []).
    destruct (at_place h k e) eqn:Ek; [|by rewrite app_nil_r]. apply bool_decide_eq_true in Ek. assert (k = x) as -> by congruence.
    assert (Hnone : List.filter (at_place h x) (a :: l) = []); [|by rewrite Hnone].
    assert (Hno : ∀ b, b ∈ a :: l → at_place h x b = false).
    { intros b [-> | Hb']%elem_of_cons; apply bool_decide_eq_false; [intros ?; apply Hnb; assert (x = y) as -> by congruence; unfold before; lia|].
      rewrite Forall_forall in Ha. destruct (Ha b Hb') as (y' & z & Hy' & Hz & Hyz). intros ?. assert (z = x) as -> by congruence. assert (y' = y) as -> by congruence. by apply Hnb. }
    clear -Hno. induction (a :: l) as [|b bs IHb]; [done|]. cbn [List.filter]. rewrite (Hno b ltac:(left)). apply IHb. intros b' ?. apply Hno. by right.
  - rewrite st_bind. destruct (insert_error e l h) as [[y'|z] h1]; destruct (IH _ _ HS eq_refl) as (-> & He' & Hr);
      [|intros [= <- <-]; split_and!; [done| |done]; intros ? [= <-]; by apply He'].
    intros [= <- <-]. destruct (Hr y' eq_refl) as (HP & HS' & Hf). split_and!; [done|done|]. intros l' [= <-]. split_and!.
    + rewrite HP. apply Permutation_swap.
    + constructor; [done|]. rewrite HP. constructor; [|done]. exists y, x. split_and!; [done|done|]. unfold before. destruct (Z.eqb_spec x.1 y.1); lia.
    + intros k. cbn [List.filter app]. by rewrite Hf.
Qed.
Lemma sort_errors_run h l r h' : sort_errors l h = (r, h') → (∀ x, r = Err x → x = AttributeError) ∧ ∀ l', r = Ok l' → in_order h l l'.
Proof.
  unfold sort_errors, in_order. assert (Hgo : ∀ l acc r h', StronglySorted (not_after h) acc → sort_onto acc l h = (r, h') → (∀ x, r = Err x → x = AttributeError) ∧
    ∀ l', r = Ok l' → l' ≡ₚ acc ++ l ∧ StronglySorted (not_after h) l' ∧ ∀ x, List.filter (at_place h x) l' = List.filter (at_place h x) (acc ++ l)).
  { clear. induction l as [|e l IH]; intros acc r h' HS; cbn [sort_onto].
    { intros [= <- <-]. split; [done|]. intros l' [= <-]. by rewrite app_nil_r. }
    rewrite st_bind. destruct (insert_error e acc h) as [[y|x] h1] eqn:E; apply insert_error_run in E as (-> & He & Hr); try done;
      [|intros [= <- <-]; split; [|done]; intros ? [= <-]; by apply He].
    destruct (Hr y eq_refl) as (HP & HS' & Hf). intros E. apply IH in E as [He' Hr']; [|done]. split; [done|]. intros l' El. destruct (Hr' l' El) as (HP' & HS'' & Hf').
    split_and!; [|done|].
    - rewrite HP', HP. by rewrite <-Permutation_middle.
    - intros k. rewrite Hf', !List.filter_app, Hf, List.filter_app, <-app_assoc. cbn [List.filter]. by destruct (at_place h k e). }
  apply (Hgo l []). constructor.
Qed.

(** ** The printer as a handler *)

(** Between files, and in one. *)
Definition printer_idle (x : Printer) : Prop := ∀ f, current_file x = Some f → is_Some (file_table x !! f).
Definition printer_ready (x : Printer) : Prop := is_Some (file_errors x) ∧ ∃ f, current_file x = Some f ∧ is_Some (file_table x !! f).
Definition pending (x : Printer) : bool :=
  match current_file x with Some f => negb (f =s "") && negb (default 0 (file_table x !! f) =? 0)%Z | None => false end.
Definition started (filename : string) (x : Printer) : Printer :=
  mkPrinter (error_count x) (new_error_count x) (total_file_count x + 1) (error_file_count x) (<[filename := 0%Z]> (file_table x)) (Some []) (Some filename)
            (unix_format x) (new_errors x) (printed x ++ if pending x then [""] else []).
Definition noted (x : Printer) (e : LintError) : Printer :=
  mkPrinter (error_count x + 1) (if is_new (new_errors x) e then new_error_count x + 1 else new_error_count x) (total_file_count x) (error_file_count x)
            (match current_file x with Some f => <[f := (default 0 (file_table x !! f) + 1)%Z]> (file_table x) | None => file_table x end) ((λ es, es ++ [e]) <$> file_errors x) (current_file x)
            (unix_format x) (new_errors x) (printed x).
Lemma HandleFile_run f x : printer_idle x → HandleFile f x = (Ok tt, started f x).
Proof.
  intros Hi. assert (Hp : had_errors x = Ok (pending x)).
  { unfold had_errors, pending. destruct (current_file x) as [g|] eqn:Eg; [|done]. destruct (Hi g Eg) as [n ->]. by destruct (g =s ""). }
  unfold HandleFile, started. rewrite st_bind. cbn [gets id]. cbv beta iota. rewrite st_bind, Hp. unfold lift. cbv beta iota.
  destruct (pending x); [done|]. by rewrite app_nil_r.
Qed.
Lemma started_ready f x : printer_ready (started f x).
Proof. split; [by eexists|]. exists f. split; [done|]. cbn. rewrite lookup_insert_eq. by eexists. Qed.
Lemma HandleError_run e x : printer_ready x → HandleError e x = (Ok tt, noted x e).
Proof.
  intros ([es Hes] & f & Ef & n & Hn). unfold HandleError, noted. rewrite st_bind. cbn [gets id]. cbv beta iota. rewrite Hes, Ef. unfold lift. rewrite st_bind. cbv beta iota zeta.
  rewrite st_bind. cbn [modify current_file file_table]. cbv beta iota. rewrite st_bind. cbv beta iota. rewrite st_bind, Hn. done.
Qed.
Lemma noted_ready e x : printer_ready x → printer_ready (noted x e).
Proof.
  intros ([es Hes] & f & Ef & n & Hn). split; [cbn; rewrite Hes; by eexists|]. exists f. split; [done|]. cbn. rewrite Ef, lookup_insert_eq. by eexists.
Qed.
(** What is printed of the errors of a file. *)
Definition header (unix : bool) (f : string) : list string := if unix then [] else ["----- FILE  :  " +:+ f +:+ " -----"].
Definition shown (h : Heap) (unix : bool) (new : list ErrorCode) (f : string) (es : list LintError) (lines : list string) : Prop :=
  if bool_decide (es = []) then lines = []
  else ∃ es' ls, in_order h es es' ∧ Forall2 (λ e s, error_line h unix new (Some f) e = Ok s) es' ls ∧ lines = header unix f ++ ls.
Definition with_lines (x : Printer) (n : Z) (es : list LintError) (l : list string) : Printer :=
  mkPrinter (error_count x) (new_error_count x) (total_file_count x) (error_file_count x + n) (file_table x) (Some es) (current_file x) (unix_format x) (new_errors x) (printed x ++ l).
Lemma error_line_exn h u new f e z : error_line h u new f e = Err z → z = AttributeError.
Proof. unfold error_line. destruct (err_token e) as [i|]; [destruct (h !! i)|]; [done| |done]. by intros [= <-]. Qed.
Lemma print_all h f es : ∀ x0 l0 n es0 r x', current_file x0 = Some f → for_each (PrintError h) es (with_lines x0 n es0 l0) = (r, x') →
  r = Err AttributeError ∨ (r = Ok tt ∧ ∃ ls, Forall2 (λ e s, error_line h (unix_format x0) (new_errors x0) (Some f) e = Ok s) es ls ∧ x' = with_lines x0 n es0 (l0 ++ ls)).
Proof.
  induction es as [|e es IH]; intros x0 l0 n es0 r x' Hf; cbn [for_each].
  { intros [= <- <-]. right. split; [done|]. exists []. by rewrite app_nil_r. }
  rewrite st_bind. unfold PrintError at 1. rewrite st_bind. cbn [gets id with_lines unix_format new_errors current_file]. cbv beta iota. rewrite Hf, st_bind.
  destruct (error_line h (unix_format x0) (new_errors x0) (Some f) e) as [s|z] eqn:E; [|intros [= <- <-]; left; by rewrite (error_line_exn _ _ _ _ _ _ E)].
  intros Hr. cbn in Hr. rewrite <-app_assoc in Hr. apply (IH x0 (l0 ++ [s]) n es0) in Hr as [->|(-> & ls & Hls & ->)]; [by left| |done]. right. split; [done|].
  exists (s :: ls). split; [by constructor|]. by rewrite <-app_assoc.
Qed.
Lemma FinishFile_run h f es x r x' : current_file x = Some f → file_errors x = Some es → FinishFile h x = (r, x') →
  r = Err AttributeError ∨ (r = Ok tt ∧ ∃ es' lines, shown h (unix_format x) (new_errors x) f es lines ∧ x' = with_lines x (if bool_decide (es = []) then 0 else 1) es' lines).
Proof.
  intros Hf Hes. unfold FinishFile, shown. rewrite st_bind. cbn [gets id]. cbv beta iota zeta. rewrite Hes. change (default [] (Some es)) with es.
  destruct (bool_decide (es = [])) eqn:Eb.
  { intros [= <- <-]. right. split; [done|]. exists es, []. split; [done|]. unfold with_lines. rewrite app_nil_r, Z.add_0_r, <-Hes. by destruct x. }
  rewrite st_bind. cbn [modify]. cbv beta iota. rewrite st_bind. set (x1 := mkPrinter _ _ _ _ _ _ _ _ _ _).
  assert (Hx1 : (if unix_format x then mret tt else print ["----- FILE  :  " +:+ default "None" (current_file x) +:+ " -----"]) x1 = (Ok tt, with_lines x 1 es (header (unix_format x) f))).
  { rewrite Hf. unfold with_lines, header, x1. rewrite <-Hes. destruct (unix_format x) eqn:Eu; [by rewrite app_nil_r|]. done. }
  rewrite Hx1. cbv beta iota. rewrite st_bind. unfold lift. destruct (sort_errors es h) as [q h'] eqn:Es. apply sort_errors_run in Es as [He Ho]. cbn [fst].
  destruct q as [es'|z]; [|intros [= <- <-]; left; by rewrite (He z eq_refl)]. cbv beta iota. rewrite st_bind. intros Hr. cbn in Hr.
  apply (print_all h f es' x (header (unix_format x) f) 1 es') in Hr as [->|(-> & ls & Hls & ->)]; [by left| |done]. right. split; [done|].
  exists es', (header (unix_format x) f ++ ls). split; [|done]. exists es', ls. split_and!; [by apply Ho|done|done].
Qed.
#[export] Program Instance passive_printer : PassiveHandler Printer := {|
  idle := printer_idle; ready := printer_ready; start f _ x := started f x; note := noted; finish h x := FinishFile h x |}.
Next Obligation. intros f t h a x Hx. cbn. rewrite HandleFile_run by done. split; [done|]. apply started_ready. Qed.
Next Obligation. intros e h a x Hx. cbn. rewrite HandleError_run by done. split; [done|]. by apply noted_ready. Qed.
Next Obligation.
  intros h a x ([es Hes] & f & Ef & _). cbn. destruct (FinishFile h x) as [r x'] eqn:E. split; [done|]. intros e He. cbn in He. subst r.
  apply (FinishFile_run h f es) in E as [[= ->]|[? _]]; [|done|done|done]. by apply check_exn_dec.
Qed.

(** ** A run *)

Definition new_in (new : list ErrorCode) (es : list LintError) : Z := Z.of_nat (length (List.filter (is_new new) es)).
Lemma notes_started f x es : notes (started f x) es =
  mkPrinter (error_count x + Z.of_nat (length es)) (new_error_count x + new_in (new_errors x) es) (total_file_count x + 1) (error_file_count x)
            (<[f := Z.of_nat (length es)]> (file_table x)) (Some es) (Some f) (unix_format x) (new_errors x) (printed x ++ if pending x then [""] else []).
Proof.
  unfold new_in. induction es as [|e es IH] using rev_ind; [by cbn; rewrite !Z.add_0_r|]. rewrite notes_app, IH, List.filter_app, !length_app. cbn [notes fold_left note passive_printer].
  unfold noted. cbn [current_file file_table error_count new_error_count total_file_count error_file_count file_errors unix_format new_errors printed fmap option_fmap option_map].
  rewrite lookup_insert_eq, insert_insert_eq. cbn [length List.filter]. f_equal; [lia| |f_equal; cbn; lia]. destruct (is_new (new_errors x) e); cbn [length]; lia.
Qed.

Section Run.
Context (o : Options) (StripTags : string → string) (GetScriptLines : list string → res (list string)) (read_file : string → option (list string)) (fuel : nat).
Abbreviation Check_ := (Check_ (H := Printer) o StripTags GetScriptLines read_file fuel).

(** What is checked of a file: all of it, or the scripts of a page. *)
Definition script_of (filename : string) (lines : list string) : res (list string) :=
  if endswith ".html" filename || endswith ".htm" filename then GetScriptLines lines else Ok lines.
(** A file that can not be opened, or whose scripts the parser of pages gets and the metadata
    pass goes through. *)
Definition lintable (filename : string) : Prop :=
  match read_file filename with
  | None => True
  | Some lines => ∃ script p, script_of filename lines = Ok script ∧ analyse script = Ok (Ok tt, p) ∧ length (heap p) < fuel
  end.
(** A file with its tokens, the errors that were found and the lines that are printed. *)
Record FileReport := mkFileReport { of_file : string; of_tokens : Heap; found_errors : list LintError; shown_lines : list string }.
Definition well_reported (unix : bool) (new : list ErrorCode) (r : FileReport) : Prop :=
  shown (of_tokens r) unix new (of_file r) (found_errors r) (shown_lines r) ∧
  match read_file (of_file r) with
  | None => ∃ e, found_errors r = [e] ∧ code e = FILE_NOT_FOUND ∧ err_token e = None
  | Some lines => ∃ script p, script_of (of_file r) lines = Ok script ∧ analyse script = Ok (Ok tt, p) ∧ of_tokens r = heap p ∧ Forall (about_token p) (found_errors r) ∧
      (semicolons p (found_errors r) = List.filter (implied p) (seq 0 (length (heap p))) ∨ ∃ es e, found_errors r = es ++ [e] ∧ code e = FILE_DOES_NOT_PARSE)
  end.
Definition after_file (x : Printer) (r : FileReport) (x' : Printer) : Prop :=
  let es := found_errors r in
  ∃ es', x' = mkPrinter (error_count x + Z.of_nat (length es)) (new_error_count x + new_in (new_errors x) es) (total_file_count x + 1)
                        (error_file_count x + if bool_decide (es = []) then 0 else 1) (<[of_file r := Z.of_nat (length es)]> (file_table x)) (Some es') (Some (of_file r))
                        (unix_format x) (new_errors x) (printed x ++ (if pending x then [""] else []) ++ shown_lines r).
(** What is left when a file has been checked. *)
Definition file_printed (f : string) (x : Printer) (r : res unit) (x' : Printer) : Prop :=
  (∃ e, r = Err e ∧ check_exn e) ∨ (r = Ok tt ∧ ∃ rep, of_file rep = f ∧ well_reported (unix_format x) (new_errors x) rep ∧ after_file x rep x').
Lemma finish_shown h f x es r x' : FinishFile h (notes (started f x) es) = (r, x') → r = Err AttributeError ∨
  (r = Ok tt ∧ ∃ lines, shown h (unix_format x) (new_errors x) f es lines ∧ after_file x (mkFileReport f h es lines) x').
Proof.
  rewrite notes_started. intros E. apply (FinishFile_run h f es) in E as [->|(-> & es' & lines & Hs & ->)]; [by left| |done|done]. right. split; [done|].
  exists lines. split; [exact Hs|]. exists es'. unfold with_lines. cbn [printed error_count new_error_count total_file_count error_file_count file_table current_file unix_format new_errors]. by rewrite <-app_assoc.
Qed.
Lemma missing_file_run f had x r y : read_file f = None → printer_idle x → Check_ f (had, x) = (r, y) →
  file_printed f x r y.2.
Proof.
  intros Ef Hi. unfold ClChecker.Check_. rewrite Ef. unfold of_world, compose. rewrite st_bind. unfold tell at 1.
  destruct (@passive_file _ _ passive_printer f None [] ∅ x Hi) as [E1 R1]. cbn [world heap pass rules new_Rules attached_flags handler Reset snd] in E1 |- *. rewrite E1. cbv beta iota.
  set (w := mkWorld _ _ _ _ _).
  assert (Hst : stream (heap (Reset [])) (seq 0 (length (heap (Reset []))))) by exact (analysed_stream [] (Process None (Reset [])).2 eq_refl).
  assert (Hw : w_ok (Reset []) w) by (split; [by apply new_Rules_ok|exact R1]). rewrite st_bind.
  destruct (checker_error_run (Reset []) Hst FILE_NOT_FOUND "File not found" None None NoData w Hw) as (r1 & w1 & -> & [Hw1 R] & _ & Hr).
  destruct r1 as [[]|e].
  - destruct Hr as (e & He & Hc & Ht & _). unfold tell. destruct (passive_finish (heap (pass (rules w1))) (attached_flags w1) (handler w1) R) as [-> _].
    rewrite He. change (note (handler w) e) with (notes (started f x) [e]). destruct (finish _ _) as [q x'] eqn:Eq. apply finish_shown in Eq as Hq. intros [= <- <-].
    destruct Hq as [->|(-> & lines & Hs & Ha)]; [left; eexists; split; [done|by apply check_exn_dec]|]. right. split; [done|].
    eexists. split_and!; [| |exact Ha]; [done|]. split; [exact Hs|]. cbn. rewrite Ef. by exists e.
  - destruct Hr as [He _]. intros [= <- <-]. left. by exists e.
Qed.
Lemma read_file_run f lines had x r y : read_file f = Some lines → lintable f → printer_idle x → Check_ f (had, x) = (r, y) → file_printed f x r y.2.
Proof.
  intros Ef Hl Hi. unfold lintable in Hl. rewrite Ef in Hl. destruct Hl as (script & p & Hs & Ha & Hf). unfold ClChecker.Check_. rewrite Ef.
  assert (Hgo : ∀ html, (CheckLines o StripTags fuel f script html;; mret tt) (had, x) = (r, y) → file_printed f x r y.2).
  { intros html. rewrite st_bind. destruct (@CheckLines_spec _ _ passive_printer o StripTags fuel f script html had x p Ha Hf Hi) as (r1 & es & had' & x' & -> & HC & Fe & _).
    destruct HC as [(e & -> & He & _)|(b & -> & -> & Hb)]; [intros [= <- <-]; left; by exists e|]. cbn [start passive_printer] in *.
    destruct (finish _ _) as [q x'] eqn:Eq. apply finish_shown in Eq as [->|(-> & ls & Hls & Haf)]; intros [= <- <-]; [left; eexists; split; [done|by apply check_exn_dec]|].
    right. split; [done|]. eexists. split_and!; [| |exact Haf]; [done|]. split; [exact Hls|]. cbn. rewrite Ef. exists script, p. split_and!; [done|done|done|done|]. destruct b; [by left|by right]. }
  unfold script_of in Hs. destruct (_ || _); [|injection Hs as ->; apply Hgo]. rewrite st_bind, Hs. apply Hgo.
Qed.
Lemma Check_run f had x r y : lintable f → printer_idle x → Check_ f (had, x) = (r, y) → file_printed f x r y.2.
Proof. intros Hl Hi. destruct (read_file f) as [lines|] eqn:Ef; [by eapply read_file_run|by apply missing_file_run]. Qed.
Definition has_found (r : FileReport) : bool := negb (bool_decide (found_errors r = [])).
(** Files with errors are set apart by an empty line. *)
Fixpoint layout (before : bool) (l : list FileReport) : list string :=
  match l with
  | [] => []
  | r :: l' => (if before then [""] else []) ++ shown_lines r ++ layout (negb (of_file r =s "") && has_found r) l'
  end.
Definition all_found (l : list FileReport) : list LintError := l ≫= found_errors.
Definition table_of (l : list FileReport) (t : gmap string Z) : gmap string Z := fold_left (λ t r, <[of_file r := Z.of_nat (length (found_errors r))]> t) l t.
(** The printer that has printed the reports. *)
Definition has_printed (x : Printer) (l : list FileReport) (x' : Printer) : Prop :=
  error_count x' = (error_count x + Z.of_nat (length (all_found l)))%Z ∧ new_error_count x' = (new_error_count x + new_in (new_errors x) (all_found l))%Z ∧
  total_file_count x' = (total_file_count x + Z.of_nat (length l))%Z ∧ error_file_count x' = (error_file_count x + Z.of_nat (length (List.filter has_found l)))%Z ∧
  file_table x' = table_of l (file_table x) ∧ printed x' = printed x ++ layout (pending x) l.
Lemma after_file_idle x r x' : after_file x r x' →
  printer_idle x' ∧ pending x' = negb (of_file r =s "") && has_found r ∧ unix_format x' = unix_format x ∧ new_errors x' = new_errors x ∧ has_printed x [r] x'.
Proof.
  intros [es' ->]. unfold printer_idle, pending, has_printed, has_found, all_found, table_of. cbn. split_and!; try done.
  - intros f [= <-]. rewrite lookup_insert_eq. by eexists.
  - rewrite lookup_insert_eq. cbn. f_equal. by destruct (found_errors r).
  - by rewrite app_nil_r.
  - by rewrite app_nil_r.
  - by destruct (bool_decide _).
  - by rewrite app_nil_r.
Qed.
Lemma new_in_app new l l' : new_in new (l ++ l') = (new_in new l + new_in new l')%Z.
Proof. unfold new_in. rewrite List.filter_app, length_app. lia. Qed.
Lemma has_printed_cons x r x1 l x' : has_printed x [r] x1 → pending x1 = negb (of_file r =s "") && has_found r → new_errors x1 = new_errors x → has_printed x1 l x' → has_printed x (r :: l) x'.
Proof.
  unfold has_printed, all_found. cbn [mbind list_bind layout]. rewrite app_nil_r. intros (E1 & E2 & E3 & E4 & E5 & E6) Hp Hn (F1 & F2 & F3 & F4 & F5 & F6). rewrite Hn in F2. rewrite !length_app, new_in_app. split_and!.
  - lia.
  - lia.
  - cbn in *. lia.
  - cbn [List.filter] in *. destruct (has_found r); cbn in *; lia.
  - by rewrite F5, E5.
  - rewrite F6, E6, Hp. cbn [layout]. by rewrite app_nil_r, <-!app_assoc.
Qed.
Lemma Run_run files : ∀ had x r y, Forall lintable files → printer_idle x → Run o StripTags GetScriptLines read_file fuel files (had, x) = (r, y) →
  (∃ e, r = Err e ∧ check_exn e) ∨
  (r = Ok tt ∧ ∃ l, of_file <$> l = files ∧ Forall (well_reported (unix_format x) (new_errors x)) l ∧ has_printed x l y.2).
Proof.
  unfold Run. induction files as [|f files IH]; intros had x r y Hl Hi; cbn [for_each].
  { intros [= <- <-]. right. split; [done|]. exists []. split_and!; [done|done|]. unfold has_printed, new_in. cbn. rewrite !Z.add_0_r, app_nil_r. by split_and!. }
  apply Forall_cons in Hl as [Hf Hl]. rewrite st_bind. destruct (Check_ f (had, x)) as [r1 [had1 x1]] eqn:E. apply Check_run in E; [|done|done].
  destruct E as [(e & -> & He)|(-> & rep & Hrf & Hrep & Ha)]; [intros [= <- <-]; left; by exists e|]. cbn [snd] in Ha. destruct (after_file_idle _ _ _ Ha) as (Hi1 & Hp & Hu & Hn & Hone).
  intros Hr. apply IH in Hr as [?|(-> & l & Hfl & Hw & Hpr)]; [by left| |done|done]. right. split; [done|]. exists (rep :: l). split_and!.
  - cbn. by rewrite Hrf, Hfl.
  - constructor; [done|]. by rewrite <-Hu, <-Hn.
  - by eapply has_printed_cons.
Qed.
End Run.

(** What a list of errors means for the exit status. *)
Definition has_new (l : list LintError) : bool := existsb (is_new NEW_ERRORS) l.
Definition has_old (l : list LintError) : bool := existsb (λ e, negb (is_new NEW_ERRORS e)) l.
Lemma count_existsb {A} (f : A → bool) l : negb (Z.of_nat (length (List.filter f l)) =? 0)%Z = existsb f l.
Proof. induction l as [|a l IH]; [done|]. cbn [List.filter existsb]. destruct (f a); [|done]. destruct (Z.eqb_spec (Z.of_nat (length (a :: List.filter f l))) 0); [by cbn in *; lia|done]. Qed.
Lemma counts_status l : negb (new_in NEW_ERRORS l =? 0)%Z = has_new l ∧ negb (Z.of_nat (length l) - new_in NEW_ERRORS l =? 0)%Z = has_old l.
Proof.
  split; [apply count_existsb|]. unfold has_old. rewrite <-count_existsb. do 2 f_equal. unfold new_in.
  assert (H := List.filter_length (is_new NEW_ERRORS) l). lia.
Qed.
(** C28: gjslint, when the directories to leave out are expressions that compile, over selected files
    each of which can not be opened, or has scripts that the parser of pages gets and that the
    metadata pass goes through, and with more fuel than tokens: either a rule or the sorting of the
    errors raises one of five exceptions, or it ends.  Then
    every file that is selected has been reported, in their order: its errors are about its
    own tokens, those of missing semicolons are exactly those that its tokens imply when it
    was checked to the end, and they are printed under its name, sorted by their place and,
    at one place, in the order in which they were found.  The counts are those of
    the errors that are printed, and the exit status adds 1 for an error that is not new and
    2 for one that is. *)
Theorem gjslint_correct glob walk getcwd in_directory flags o lint StripTags GetScriptLines read_file fuel argv sys_argv files skipped :
  GetFileList glob walk getcwd in_directory flags argv (suffixes lint) = Ok (files, skipped) → Forall (lintable GetScriptLines read_file fuel) files →
  (∃ e out, main glob walk getcwd in_directory flags o lint StripTags GetScriptLines read_file fuel argv sys_argv = (Err e, skipped ++ out) ∧ check_exn e) ∨
  ∃ l x, of_file <$> l = files ∧ Forall (well_reported GetScriptLines read_file (unix_mode lint) NEW_ERRORS) l ∧
    has_printed (new_Printer NEW_ERRORS (unix_mode lint)) l x ∧
    let status := ((if has_old (all_found l) then 1 else 0) + (if has_new (all_found l) then 2 else 0))%Z in
    main glob walk getcwd in_directory flags o lint StripTags GetScriptLines read_file fuel argv sys_argv =
      (Ok status, skipped ++ layout false l ++ PrintSummary x ++
                  (if (status =? 0)%Z then [] else (if summary lint then PrintFileSummary x else []) ++ advice (beep lint) sys_argv)).
Proof.
  intros Hg Hl. unfold main. rewrite Hg. destruct (Run _ _ _ _ _ _ _) as [r [had x]] eqn:E. apply Run_run in E as [(e & -> & He)|(-> & l & Hf & Hw & Hp)]; [| |done|done].
  { left. by exists e, (printed x). }
  right. exists l, x. split_and!; [done|done|done|]. destruct Hp as (E1 & E2 & _ & _ & _ & E6). cbn [snd] in *. cbv zeta.
  destruct (counts_status (all_found l)) as [Hn Ho]. change (error_count x = Z.of_nat (length (all_found l))) in E1. change (new_error_count x = new_in NEW_ERRORS (all_found l)) in E2.
  change (printed x = layout false l) in E6. unfold exit_status, HasOldErrors, HasNewErrors. by rewrite E1, E2, E6, Hn, Ho.
Qed.

(** ** Examples *)

Definition demo_read (f : string) : option (list string) :=
  if f =s "/w/a.js" then Some ["x = 1"; "f( a) ;"; "" ] else if f =s "/w/b.js" then Some ["f();"; ""] else None.
Definition demo_flags : FileFlags := mkFileFlags [] ["_demos"] ["deps.js"].
Definition demo_main : res Z * list string :=
  main (λ _, []) (λ _, []) "/w" (λ _, Ok (λ _, false)) demo_flags default_options (mkLintFlags false false false true) id Ok demo_read 100
       ["gjslint"; "b.js"; "c.js"; "deps.js"; "a.js"; "README"] ["gjslint"; "--summary"; "b.js"; "c.js"; "deps.js"; "a.js"; "README"].
Definition demo_files : list string := ["/w/a.js"; "/w/b.js"; "/w/c.js"].
Lemma demo_lintable f p : analyse (default [] (demo_read f)) = Ok (Ok tt, p) → (length (heap p) <? 100) = true → lintable Ok demo_read 100 f.
Proof. unfold lintable. destruct (demo_read f) as [lines|]; [|done]. intros Ha Hf. exists lines, p. unfold script_of. split_and!; [by destruct (_ || _)|done|]. by apply Nat.ltb_lt. Qed.
Lemma gjslint_correct_witness : ∃ l, of_file <$> l = demo_files ∧ Forall (well_reported Ok demo_read false NEW_ERRORS) l ∧
  has_old (all_found l) = true ∧ has_new (all_found l) = true ∧ demo_main.1 = Ok 3%Z.
Proof.
  assert (Hg : GetFileList (λ _, []) (λ _, []) "/w" (λ _, Ok (λ _, false)) demo_flags ["gjslint"; "b.js"; "c.js"; "deps.js"; "a.js"; "README"] (suffixes (mkLintFlags false false false true)) =
    Ok (demo_files, ["Skipping 1 file(s)."])) by by vm_compute.
  assert (Hl : Forall (lintable Ok demo_read 100) demo_files).
  { pose (pass_of f := match analyse (default [] (demo_read f)) with Ok (_, p) => p | Err _ => Reset [] end).
    constructor; [apply (demo_lintable _ (pass_of "/w/a.js")); by vm_compute|]. constructor; [apply (demo_lintable _ (pass_of "/w/b.js")); by vm_compute|]. by constructor. }
  destruct (gjslint_correct _ _ _ _ _ default_options _ id _ _ _ _ ["gjslint"; "--summary"; "b.js"; "c.js"; "deps.js"; "a.js"; "README"] _ _ Hg Hl)
    as [(e & out & E & _)|(l & x & Hf & Hw & _ & E)]; [apply (f_equal fst) in E; by vm_compute in E|].
  exists l. assert (H3 : demo_main.1 = Ok 3%Z) by by vm_compute. cbv zeta in E. apply (f_equal fst) in E. cbn [fst] in E. fold demo_main in E.
  rewrite H3 in E. assert (Hb : has_old (all_found l) = true ∧ has_new (all_found l) = true) by (clear -E; destruct (has_old (all_found l)), (has_new (all_found l)); [by split|discriminate E..]).
  exact (conj Hf (conj Hw (conj (proj1 Hb) (conj (proj2 Hb) H3)))).
Defined.
