(* ===== verification/ClGjslint.v ===== *)
(** * The options of gjslint (tools/closure_linter: gjslint.py with gflags.py)

    The flags that the modules of gjslint define, and the program from its command line on. *)
From stdpp Require Import gmap.
From S2P Require Import Prelude PyStr PyState ClErrors ClRules ClJsRules ClChecker ClFlags ClPrinter.

(** ** The flags *)

(** In the order in which the modules are imported. *)
Definition special_flags : ST Registry unit :=
  DEFINE "help" (Some "?") HelpFlag true (Bool false);; DEFINE "helpshort" None HelpFlag true (Bool false);; DEFINE "helpxml" None HelpFlag true (Bool false).
Definition errorrules_flags : ST Registry unit := DEFINE "jsdoc" None BooleanFlag false (Bool true).
Definition checkerbase_flags : ST Registry unit :=
  errorrules_flags;; DEFINE "debug_tokens" None BooleanFlag false (Bool false);; DEFINE "error_trace" None BooleanFlag false (Bool false).
Definition indentation_flags : ST Registry unit := DEFINE "debug_indentation" None BooleanFlag false (Bool false).
Definition ecmalintrules_flags : ST Registry unit :=
  indentation_flags;; DEFINE "strict" None BooleanFlag false (Bool false);; DEFINE "custom_jsdoc_tags" None ListFlag false (Text "").
Definition javascriptlintrules_flags : ST Registry unit :=
  ecmalintrules_flags;; DEFINE "closurized_namespaces" None ListFlag false (Text "");; DEFINE "ignored_extra_namespaces" None ListFlag false (Text "").
Definition checker_flags : ST Registry unit :=
  checkerbase_flags;; javascriptlintrules_flags;; DEFINE "limited_doc_files" None ListFlag false (Texts ["dummy.js"; "externs.js"]).
Definition simplefileflags_flags : ST Registry unit :=
  DEFINE "recurse" (Some "r") MultiStringFlag false NoValue;;
  DEFINE "exclude_directories" (Some "e") ListFlag false (Text "_demos");; DEFINE "exclude_files" (Some "x") ListFlag false (Text "deps.js").
Definition gjslint_flags : ST Registry unit :=
  special_flags;; checker_flags;; simplefileflags_flags;;
  DEFINE "unix_mode" None BooleanFlag false (Bool false);; DEFINE "beep" None BooleanFlag false (Bool true);; DEFINE "time" None BooleanFlag false (Bool false);;
  DEFINE "check_html" None BooleanFlag false (Bool false);; DEFINE "summary" None BooleanFlag false (Bool false).
Definition gjslint_registry : Registry := snd (gjslint_flags (mkRegistry [] ∅)).

(** [FlagValues.__getattr__] *)
Definition getattr (r : Registry) (name : string) : res Value :=
  match flag_dict r !! name with
  | Some k => match flags r !! k with Some f => Ok (flag_value f) | None => Err KeyError end
  | None => Err AttributeError
  end.
(** The elements of a flag; there are none of [None]. *)
Definition elements_of (v : Value) : list string := match v with Texts l => l | _ => [] end.
Definition file_flags (r : Registry) : res FileFlags :=
  d ← getattr r "recurse"; e ← getattr r "exclude_directories"; x ← getattr r "exclude_files"; Ok (mkFileFlags (elements_of d) (elements_of e) (elements_of x)).
(** gjslint has no flag about the fixer. *)
Definition rule_flags (r : Registry) : res Options :=
  s ← getattr r "strict"; j ← getattr r "jsdoc"; c ← getattr r "custom_jsdoc_tags"; n ← getattr r "closurized_namespaces"; i ← getattr r "ignored_extra_namespaces";
  l ← getattr r "limited_doc_files"; t ← getattr r "error_trace";
  Ok (mkOptions (true_value s) (true_value j) (elements_of c) (elements_of n) (elements_of i) (elements_of l) (true_value t) false).
Definition lint_flags (r : Registry) : res LintFlags :=
  u ← getattr r "unix_mode"; b ← getattr r "beep"; h ← getattr r "check_html"; s ← getattr r "summary"; Ok (mkLintFlags (true_value u) (true_value b) (true_value h) (true_value s)).

(** ** The program *)

Section Gjslint.
Context (items : gmap string nat → list (string * nat)) (open_file : string → option (list string)) (expanduser : string → string).
Context (glob : string → list string) (walk : string → list (string * list string)) (getcwd : string) (in_directory : string → res (string → bool)).
Context (StripTags : string → string) (GetScriptLines : list string → res (list string)) (read_file : string → option (list string)).
(** [main] without arguments. *)
Definition gjslint (fuel : nat) (sys_argv : list string) : res Z * list string :=
  let '(a, r) := FlagValues_call items open_file expanduser fuel sys_argv gjslint_registry in
  match (argv ← a; f ← file_flags r; o ← rule_flags r; l ← lint_flags r; Ok (argv, f, o, l)) with
  | Ok (argv, f, o, l) => main glob walk getcwd in_directory f o l StripTags GetScriptLines read_file fuel argv sys_argv
  | Err e => (Err e, [])
  end.
End Gjslint.

(** A command line for every choice of the options. *)
Definition bool_arg (name : string) (b : bool) : string := "--" +:+ if b then name else "no" +:+ name.
Definition list_arg (name : string) (l : list string) : string := "--" +:+ name +:+ "=" +:+ join "," l.
Definition command_line (f : FileFlags) (o : Options) (l : LintFlags) : list string :=
  [bool_arg "strict" (strict o); bool_arg "jsdoc" (jsdoc o); list_arg "custom_jsdoc_tags" (custom_jsdoc_tags o); list_arg "closurized_namespaces" (closurized_namespaces o);
   list_arg "ignored_extra_namespaces" (ignored_extra_namespaces o); list_arg "limited_doc_files" (limited_doc_files o); bool_arg "error_trace" (error_trace o);
   list_arg "exclude_directories" (exclude_directories f); list_arg "exclude_files" (exclude_files f);
   bool_arg "unix_mode" (unix_mode l); bool_arg "beep" (beep l); bool_arg "check_html" (check_html l); bool_arg "summary" (summary l)] ++
  ((λ d, "--recurse=" +:+ d) <$> recurse f).
(** Lists that are written with commas. *)
Definition listable (l : list string) : Prop := l ≠ [""] ∧ Forall (λ s, str_mem "," s = false ∧ strip s = s) l.

Definition key (name : string) : nat := default 0 (flag_dict gjslint_registry !! name).
Definition settings (f : FileFlags) (o : Options) (l : LintFlags) : list (nat * Value) :=
  [(key "strict", Bool (strict o)); (key "jsdoc", Bool (jsdoc o)); (key "custom_jsdoc_tags", Texts (custom_jsdoc_tags o)); (key "closurized_namespaces", Texts (closurized_namespaces o));
   (key "ignored_extra_namespaces", Texts (ignored_extra_namespaces o)); (key "limited_doc_files", Texts (limited_doc_files o)); (key "error_trace", Bool (error_trace o));
   (key "exclude_directories", Texts (exclude_directories f)); (key "exclude_files", Texts (exclude_files f));
   (key "unix_mode", Bool (unix_mode l)); (key "beep", Bool (beep l)); (key "check_html", Bool (check_html l)); (key "summary", Bool (summary l))] ++
  ((λ d, (key "recurse", Texts [d])) <$> recurse f).

Section Values.
Context (items : gmap string nat → list (string * nat)) (items_all : ∀ m, items m ≡ₚ map_to_list m).
Lemma gjslint_good : good_registry items gjslint_registry.
Proof using items_all. apply good_checked; [done|by vm_compute]. Qed.
End Values.

Definition bool_names : list string := ["strict"; "jsdoc"; "error_trace"; "unix_mode"; "beep"; "check_html"; "summary"].
Definition list_names : list string := ["custom_jsdoc_tags"; "closurized_namespaces"; "ignored_extra_namespaces"; "limited_doc_files"; "exclude_directories"; "exclude_files"].
(** A flag of this name and kind that was not given yet. *)
Definition has_kind (k : Kind) (n : string) : Prop :=
  ∃ g, flags gjslint_registry !! key n = Some g ∧ flag_dict gjslint_registry !! n = Some (key n) ∧ flag_name g = n ∧ kind g = k ∧ present g = 0.
Lemma bool_flags : Forall (has_kind BooleanFlag) bool_names.
Proof. repeat constructor; (eexists; split; [by vm_compute|]; by vm_compute). Qed.
Lemma list_flags : Forall (has_kind ListFlag) list_names.
Proof. repeat constructor; (eexists; split; [by vm_compute|]; by vm_compute). Qed.
Lemma recurse_flag : has_kind MultiStringFlag "recurse" ∧ getattr gjslint_registry "recurse" = Ok NoValue.
Proof. split; [eexists; split; [by vm_compute|]; by vm_compute|by vm_compute]. Qed.
(** Nothing else of the registry is needed. *)
#[local] Opaque gjslint_registry key.
Lemma written_bool n b : n ∈ bool_names → written gjslint_registry (key n, Bool b) = bool_arg n b.
Proof. intros (g & Hg & _ & Hn & Hk & _)%(proj1 (Forall_forall _ _) bool_flags). unfold written. cbn [fst snd]. rewrite Hg. unfold Serialize, boolean. cbn. rewrite Hk, Hn. by destruct b. Qed.
Lemma written_list n l : n ∈ list_names → written gjslint_registry (key n, Texts l) = list_arg n l.
Proof. intros (g & Hg & _ & Hn & Hk & _)%(proj1 (Forall_forall _ _) list_flags). unfold written. cbn [fst snd]. rewrite Hg. unfold Serialize, boolean, assignment. cbn. by rewrite Hk, Hn. Qed.
Ltac member := repeat first [apply list_elem_of_here | apply list_elem_of_further].
(** Every argument of the command line is what its flag writes. *)
Lemma command_line_written f o l : command_line f o l = written gjslint_registry <$> settings f o l.
Proof.
  unfold command_line, settings. rewrite fmap_app, <-list_fmap_compose. cbn [fmap list_fmap]. rewrite !written_bool, !written_list by member. done.
Qed.
Lemma settable_bool n b : n ∈ bool_names → settable gjslint_registry (key n, Bool b) ∧ unset gjslint_registry (key n, Bool b).
Proof.
  intros (g & Hg & Hd & Hn & Hk & Hp)%(proj1 (Forall_forall _ _) bool_flags). split; [|intros h Hh; cbn [fst] in Hh; rewrite Hg in Hh; by injection Hh as <-]. exists g. cbn [fst snd]. rewrite Hn. unfold printable. rewrite Hk. exact (conj Hg (conj Hd I)).
Qed.
Lemma settable_list n l : n ∈ list_names → listable l → settable gjslint_registry (key n, Texts l) ∧ unset gjslint_registry (key n, Texts l).
Proof.
  intros (g & Hg & Hd & Hn & Hk & Hp)%(proj1 (Forall_forall _ _) list_flags) Hl. split; [|intros h Hh; cbn [fst] in Hh; rewrite Hg in Hh; by injection Hh as <-]. exists g. cbn [fst snd]. rewrite Hn. unfold printable. rewrite Hk. exact (conj Hg (conj Hd Hl)).
Qed.
Definition listed (f : FileFlags) (o : Options) : list (list string) :=
  [custom_jsdoc_tags o; closurized_namespaces o; ignored_extra_namespaces o; limited_doc_files o; exclude_directories f; exclude_files f].
Lemma settings_settable f o l : Forall listable (listed f o) → Forall (λ x, settable gjslint_registry x ∧ (x.1 ≠ key "recurse" → unset gjslint_registry x)) (settings f o l).
Proof.
  unfold listed. rewrite !Forall_cons. intros (H1 & H2 & H3 & H4 & H5 & H6 & _). unfold settings. apply Forall_app. split.
  - repeat (apply Forall_cons; split; [split; [|intros _]; (apply settable_bool || apply settable_list); first [assumption | member]|]). apply Forall_nil_2.
  - apply Forall_fmap, Forall_forall. intros d _. destruct recurse_flag as [(g & Hg & Hd & Hn & Hk & Hp) _]. split; [|intros E; destruct (E eq_refl)]. exists g. cbn [fst snd]. rewrite Hn. unfold printable. rewrite Hk.
    exact (conj Hg (conj Hd (conj eq_refl (or_introl Hp)))).
Qed.
(** The values of a flag that is repeated are in the order of the arguments. *)
Lemma repeated_values k ds : ∀ r g, flags r !! k = Some g → kind g = MultiStringFlag → (flag_value g = NoValue ∨ present g ≠ 0 ∧ ∃ values, flag_value g = Texts values) →
  let r' := foldl set_value r ((λ d, (k, Texts [d])) <$> ds) in
  flag_dict r' = flag_dict r ∧ (∀ j, j ≠ k → (flags r' !! j : option Flag) = flags r !! j) ∧
  ∃ g', flags r' !! k = Some g' ∧ elements_of (flag_value g') = elements_of (flag_value g) ++ ds.
Proof.
  induction ds as [|d ds IH]; intros r g Hg Hk Hv; [cbn; split_and!; [done|done|exists g; by rewrite app_nil_r]|]. cbn [fmap list_fmap foldl]. cbv zeta.
  assert (Hr : flag_dict (set_value r (k, Texts [d])) = flag_dict r) by (unfold set_value; cbn; by rewrite Hg).
  destruct (IH (set_value r (k, Texts [d])) _ (set_value_same r k (Texts [d]) g Hg)) as (H1 & H2 & g' & Hg' & H3); [done| |].
  - right. split; [done|]. cbn. unfold next_value. rewrite Hk. destruct (flag_value g), (present g =? 0); eauto.
  - split_and!; [by rewrite H1|intros j Hj; rewrite H2 by done; apply (set_value_other r (k, Texts [d]) (j, NoValue)); by apply not_eq_sym|].
    exists g'. split; [done|]. rewrite H3. cbn. unfold next_value. rewrite Hk. destruct Hv as [->|[Hp [values ->]]]; [done|]. rewrite (proj2 (Nat.eqb_neq _ _) Hp). cbn. by rewrite <-app_assoc.
Qed.
Lemma options_read f o l : Forall listable (listed f o) →
  let r := foldl set_value gjslint_registry (settings f o l) in
  file_flags r = Ok f ∧ rule_flags r = Ok (mkOptions (strict o) (jsdoc o) (custom_jsdoc_tags o) (closurized_namespaces o) (ignored_extra_namespaces o) (limited_doc_files o) (error_trace o) false) ∧
  lint_flags r = Ok l.
Proof.
  intros Hs%(settings_settable f o l). cbv zeta. unfold settings in *. set (l1 := [_; _; _; _; _; _; _; _; _; _; _; _; _]) in *. rewrite foldl_app. apply Forall_app in Hs as [Hs _].
  assert (Hk : NoDup (key "recurse" :: l1.*1)) by (apply (bool_decide_unpack _); by vm_compute). apply NoDup_cons in Hk as [Hrec Hnd]. rewrite Forall_forall in Hs.
  assert (Hne : ∀ x, x ∈ l1 → x.1 ≠ key "recurse") by (intros x Hx E; apply Hrec; rewrite <-E; by apply list_elem_of_fmap_2).
  destruct (set_values l1 gjslint_registry Hnd) as (Hd & Ho & Hv); [apply Forall_forall; intros x Hx; by apply Hs|apply Forall_forall; intros x Hx; apply Hs; [done|by apply Hne]|].
  set (r1 := foldl set_value gjslint_registry l1) in *. destruct recurse_flag as [(g & Hg & Hgd & _ & Hk & _) Hgv].
  unfold getattr in Hgv. rewrite Hgd, Hg in Hgv. injection Hgv as Hgv. rewrite <-Ho in Hg by done. rewrite <-Hd in Hgd.
  destruct (repeated_values (key "recurse") (recurse f) r1 g Hg Hk (or_introl Hgv)) as (Hd' & Ho' & g' & Hg' & Hr). rewrite Hgv in Hr. cbn [elements_of app] in Hr.
  set (r := foldl set_value r1 _) in *.
  assert (Hget : ∀ n v, (key n, v) ∈ l1 → flag_dict gjslint_registry !! n = Some (key n) → getattr r n = Ok v).
  { intros n v Hin Hn. unfold getattr. rewrite Hd', Hd, Hn, Ho' by by apply (Hne (key n, v)). destruct (Hv _ _ Hin) as (h & _ & ->). done. }
  assert (Hfiles : getattr r "recurse" = Ok (flag_value g')) by (unfold getattr; by rewrite Hd', Hgd, Hg').
  assert (Hb : ∀ n b, n ∈ bool_names → (key n, Bool b) ∈ l1 → getattr r n = Ok (Bool b)) by (intros n b (h & _ & Hh & _)%(proj1 (Forall_forall _ _) bool_flags) Hin; by apply Hget).
  assert (Hl : ∀ n v, n ∈ list_names → (key n, Texts v) ∈ l1 → getattr r n = Ok (Texts v)) by (intros n v (h & _ & Hh & _)%(proj1 (Forall_forall _ _) list_flags) Hin; by apply Hget).
  clear Hget. clearbody r. unfold file_flags, rule_flags, lint_flags. rewrite Hfiles.
  rewrite (Hb "strict" (strict o)), (Hb "jsdoc" (jsdoc o)), (Hb "error_trace" (error_trace o)), (Hb "unix_mode" (unix_mode l)), (Hb "beep" (beep l)), (Hb "check_html" (check_html l)),
    (Hb "summary" (summary l)), (Hl "custom_jsdoc_tags" (custom_jsdoc_tags o)), (Hl "closurized_namespaces" (closurized_namespaces o)),
    (Hl "ignored_extra_namespaces" (ignored_extra_namespaces o)), (Hl "limited_doc_files" (limited_doc_files o)), (Hl "exclude_directories" (exclude_directories f)),
    (Hl "exclude_files" (exclude_files f)) by member.
  cbn [mbind res_bind elements_of true_value]. rewrite Hr. clear. destruct f, l. split_and!; reflexivity.
Qed.
(** C29: every choice of the options of gjslint can be written on its command line, where the
    lists have no commas in their elements: it then checks the files that follow, with these
    options, as [main] does, whatever the files of flags hold, and for whatever order the flags
    have in their dict. *)
Theorem gjslint_options items open_file expanduser glob walk getcwd in_directory StripTags GetScriptLines read_file fuel prog f o l rest :
  (∀ m, items m ≡ₚ map_to_list m) → Forall listable (listed f o) → disable_indentation_fixing o = false → (∀ a, head rest = Some a → startswith "-" a = false) →
  gjslint items open_file expanduser glob walk getcwd in_directory StripTags GetScriptLines read_file fuel (prog :: command_line f o l ++ rest) =
  main glob walk getcwd in_directory f o l StripTags GetScriptLines read_file fuel (prog :: rest) (prog :: command_line f o l ++ rest).
Proof.
  intros Hi Hl Hf Hr. unfold gjslint. rewrite command_line_written, (call_written items open_file expanduser Hi); [|by apply gjslint_good| |done].
  2:{ eapply Forall_impl; [by apply (settings_settable f o l)|]. by intros x [Hx _]. }
  destruct (options_read f o l Hl) as (-> & -> & ->). cbn [mbind res_bind]. rewrite <-Hf. by destruct o.
Qed.
Definition quiet : LintFlags := mkLintFlags true false false true.
Definition demo_files_flags : FileFlags := mkFileFlags ["lib"; "test"] [] ["deps.js"; "gen.js"].
Lemma gjslint_options_witness :
  command_line demo_files_flags default_options quiet =
    ["--strict"; "--jsdoc"; "--custom_jsdoc_tags="; "--closurized_namespaces="; "--ignored_extra_namespaces="; "--limited_doc_files="; "--noerror_trace";
     "--exclude_directories="; "--exclude_files=deps.js,gen.js"; "--unix_mode"; "--nobeep"; "--nocheck_html"; "--summary"; "--recurse=lib"; "--recurse=test"] ∧
  gjslint map_to_list (λ _, None) id (λ _, []) (λ _, []) "/w" (λ _, Ok (λ _, false)) id Ok demo_read 100 ("gjslint" :: command_line demo_files_flags default_options quiet ++ ["a.js"; "--time"]) =
  main (λ _, []) (λ _, []) "/w" (λ _, Ok (λ _, false)) demo_files_flags default_options quiet id Ok demo_read 100 ["gjslint"; "a.js"; "--time"]
    ("gjslint" :: command_line demo_files_flags default_options quiet ++ ["a.js"; "--time"]).
Proof.
  split; [reflexivity|]. apply gjslint_options; [done| |done|by intros a [= <-]].
  repeat constructor; done.
Defined.
